(* ===== verification/_CoqProject ===== *)
-Q . S2P
Prelude.v
PyText.v
Sha256.v
Utils.v
Json.v
JsonParse.v
QueueFiles.v
QueueManager.v
QueueSpec.v
Drain.v
DrainDemo.v
DrainSpec.v
DrainProgress.v
DrainRecorded.v
GraphStore.v
GraphDelete.v
Services.v
DefaultHandler.v
Layer2.v
Layer3.v
Pipeline.v
SessionSpec.v
PipelineSpec.v
Layer3Spec.v
BlobKeys.v
BlobDisk.v
BlobLease.v
Idempotency.v
Retention.v
SessionClaims.v
Deletion.v
Authz.v
Registry.v
RegistryMetrics.v
Neo4jStore.v
Neo4jSpec.v
Neo4jLabels.v
Server.v
Auth.v
JsonIndent.v
IdentityStore.v
Config.v
Admin.v
Receipts.v
Payloads.v
ReceiptSpec.v
RecoveryGate.v
QueueBoot.v
QueueBootSpec.v
Ingest.v
Startup.v
Evidence.v
EvidenceSpec.v
Outbox.v
OutboxSpec.v
Delivery.v
Settlement.v
Scheduler.v
SchedulerSpec.v
RetentionJob.v
RetentionJobSpec.v
RawGraph.v
RawSpec.v
RawDelete.v
RawDeleteSpec.v
Readiness.v
ReadinessSpec.v
