(* ===== verification/Prelude.v ===== *)
(** * Context Intelligence Server: a verification development

    The server ingests the events of agent sessions.  An accepted event is
    appended to the durable queue of its session; one drain worker per session
    reads the queue, runs every event through a pipeline of handlers that write
    a property graph, flushes the graph and only then acknowledges the records.
    Large payloads go to a blob store on disk, which is pruned by age; session
    ownership is recorded in a claim store; a whole session graph can be deleted.
    Requests are authenticated against a key map that administrators change, and
    authorised against the claims.  Lost events can be re-sent under recovery
    receipts; at start-up the server repairs its spool and resumes its drainers.
    This library models these parts, from the request to the graph, with the
    theorems that make them correct.

    ** Parts and files

    - [Prelude] (this file): results and exceptions, the state-and-exception
      monad, its Hoare triples and invariance rules, Python dictionaries.
    - [PyText]: bytes, UTF-8, [int] and [str] of integers, [strip], [split].
      [Sha256]: SHA-256, tested against its standard vectors.
      [Json]: dynamic values and [json.dumps].  [JsonParse]: [json.loads], with
      the round trip; the class [FloatRepr] stands for float spelling.
    - [Utils] ([utils.py]): [fold_name], node and edge identifiers, the class
      [Timestamps] ([datetime.fromisoformat], epoch milliseconds, comparison).
    - [QueueFiles], [QueueManager] ([queue_manager.py]): key validation and
      folding, record framing, the streamed scans, and every queue operation as
      a function on the directory (a finite map from file name to contents).
      Write and commit failures are scripts: which write is short or fails, and
      where.  [QueueSpec]: the abstract queue (records, acknowledged count, torn
      tail) and the refinement theorems.
    - [Drain] ([registry.py]): the drain loop of one session.  The pipeline, the
      graph store, hooks, clocks, concurrent appends and the operating system
      are the class [DrainEnv].  [DrainSpec]: safety for every environment.
      [DrainProgress]: delivery with a working one.  [DrainRecorded]: what the
      worker needs from a pipeline, as a class, and what follows.  [DrainDemo]: a
      concrete environment for the witnesses.
    - [GraphStore] ([graph_store.py], [services.GraphState], [ownership.py]):
      the store interface as a class and the in-memory store as its instance.
      [GraphDelete]: resolution and deletion of a whole session graph.
    - [Services] ([services.HookStateService], the two [state.py]): the state
      handlers share.  [DefaultHandler] ([handlers/data_layer_1]): label
      derivation, field lifters, the event node.  [Layer2], [Layer3]
      ([handlers/data_layer_2], [handlers/data_layer_3]): the twelve enrichers.
      [Pipeline] ([pipeline.py], [blob_processor.py]): one event, start to end.
    - [SessionSpec], [PipelineSpec], [Layer3Spec]: what the handlers guarantee
      on the in-memory store; [PipelineSpec] also states, as the class [LabelStore],
      what recording an event needs of any store.
    - [BlobKeys] ([blob_keys.py]): blob addresses, their URIs and file names; the
      platform's separators are the class [Os].  [BlobDisk] ([blob_store.py] and
      the file layer of [blob_retention.py]): the disk store over a tree of
      session directories and an expiry ledger; temporary names and write
      failures come from [WriteEnv].  [BlobLease] ([blob_coordination.py]): the
      reader-writer lease as a step relation.  [Retention] ([blob_retention.py]):
      scan, journal, unlink, recovery, offline and online pruning, each run with
      a budget of durable actions after which the process stops.
    - [Idempotency] ([idempotency.py]): the cache of accepted event keys.
      [SessionClaims] ([session_claims.py]): the two SQLite tables and every
      transaction on them.  [Authz] ([authz.py]): the access gates over them.
    - [Deletion] ([deletion.py]): preview and deletion of a session graph,
      composed of queue, blobs and graph, with a script of concurrent appends.
    - [Registry] ([registry.py]): worker table, drain tasks and their supervision
      as a step relation over a heap of workers and tasks.  [RegistryMetrics]:
      the live-first flush gate and the conservation counters.
    - [Neo4jStore] ([neo4j_store.py]): the write path of the Neo4j store: its
      buffers, row building, chunked statements over a database of node and edge
      maps, and transactions that commit, roll back or lose their reply; a script
      says which.  [Neo4jSpec]: its theorems.  [Neo4jLabels]: that store as an
      instance of the interface the handlers use and of [LabelStore].  [Server]: the
      drain worker run with the real pipeline and the Neo4j store, which discharge
      the class of [DrainRecorded].  [RawGraph]: the database under the
      writers, with element ids, and its repair ([doctor.py]); [RawSpec].
      [RawDelete]: session graphs in that database; [RawDeleteSpec].
    - [Auth] ([auth.py]): the middleware, the bearer tokens, the static and the
      Entra resolvers.  [JsonIndent]: [json.dumps] with indentation.
      [IdentityStore] ([identity_store.py], [instance_lock.py]): the durable key
      map, with failures at every step of a write.  [Config] ([config.py],
      [main.create_asgi_app]): validation and assembly.  [Admin]
      ([routers/admin.py]): the identity and key endpoints.  [Readiness]
      ([main._verify_identity_runtime], [main._identity_lifespan]): the gate that
      verifies the key store for a request, its probes and its shutdown, as actions
      of the event loop; [ReadinessSpec].
    - [Ingest] ([main.post_events]): one request, from its claim to the queue.
      [QueueBoot] (the boot passes of [queue_manager.py]), [QueueBootSpec], and
      [Startup] ([main._startup_recovery_body]): what the server does to a spool
      it finds, with failing renames and offset writes as scripts.
    - [Receipts] ([recovery.py]): the receipt ledger and its migrations;
      [Payloads]: the payloads its scrub leaves alone; [ReceiptSpec]: its histories,
      restarts with their scrubbing rebuild included.  [RecoveryGate] ([recovery.RecoveryGate]): the
      permits.  [Evidence] ([queue_manager.py]): where the queue files say a
      recovery event is; [EvidenceSpec].  [Outbox] ([main.py]): admission,
      bridging into the spool, reconciliation, retry, each durable action under a
      crash budget; [OutboxSpec]; [Delivery] and [Settlement]: its theorems.
    - [RetentionJob] ([retention_service.py], the scan windows of
      [blob_retention.py]): the server's pruning job as a state machine of
      requests, task steps, crashes and restarts; [RetentionJobSpec].
      [Scheduler] ([retention_scheduler.py]): the unattended client of that job,
      against any server, any signals and any clocks; [SchedulerSpec].

    ** How the code is modelled

    Mutable objects are state passed through the monad [M]; a raised exception
    keeps the state changes made before it.  An exception is its class: the
    [except] clauses dispatch on nothing else.  A [dict] is an association list
    in insertion order.  A handler's [await] points need no interleaving: one
    worker drives one session's handlers sequentially.

    ** What the theorems show

    - The queue files refine an abstract queue: [append], [read_batch], [commit],
      [pending_count], the deletions, [recover] and the orphan sweep, under every
      short write, write error and failed commit; file names stay within 255
      bytes; the backward scan and the streamed count equal their definitions on
      the whole file.
    - End to end, on the Neo4j store and whatever its transactions do, an
      acknowledged event that names a session is a node of the database or in the
      dead-letter file ([Server.acked_event_in_graph]); one that names none is
      acknowledged and dropped, as the default handler does.
    - The drain worker never acknowledges a record that was neither flushed nor
      dead-lettered, whatever the environment does; with a working environment, a
      pipeline that accepts every record and no new appends it delivers everything
      exactly once and in order; poison records are isolated exactly; a transient
      failure holds the queue and the batch is tried again (until 1024 such failures
      were counted over the worker's life, when the back-off overflows).
    - The pipeline records every event it accepts; blob offloading is exact; the
      session type converges whatever the order of lifecycle events; the second
      dispatch of [session:end] changes nothing; store writes are idempotent
      under replay; session graphs resolve and delete exactly.
    - A session never has two drainers, and an ingested event finds a running one
      or one whose teardown is scheduled; the flush gate is bounded and puts live
      writers first; the conservation residual stays zero.
    - Blob URIs and files are faithful to addresses; a blob write is atomic;
      leases exclude, writers are not overtaken and nobody waits for ever; a prune
      interrupted anywhere loses nothing that is not tombstoned, and what it
      removed is never rehydrated.
    - Splitting a Neo4j flush in chunks changes nothing, a flush retried after
      failures and lost replies reaches the database one flush would, a session
      node carries one session type, and written rows hold only storable values.
      A session graph deleted from Neo4j is exactly what its family owns, under
      every failure; the repair keeps the richest node of each identity, loses no
      identity however it is interrupted, and its exit code tells the truth.
    - Claims are permanent and exclusive, reservations are undone exactly, the
      migration never picks a winner, and scoped access follows the claim.
    - An accepted idempotency key is refused for its whole window; a deletion is
      never partial and requires drained queues.
    - The requests that pass the middleware are characterised exactly, with the
      principal of their credential; the key map in force is what its file holds, or empty; an
      administrator's answered change takes effect and touches nobody else.  The
      readiness gate lets a request in only after a timely, healthy verification of
      an open store, its load is bounded, and no probe outlives a shutdown (within
      one life of the process: a store attached anew is a new model run).
    - An event answered as queued is one complete record at the end of the
      session's queue; a keyed event enters once in its window, and its retry is
      answered as a duplicate.
    - The boot passes lose no file and no pending record, do not deliver a
      dead-lettered line again, and seed counters that never fabricate a loss.
    - At most one receipt is outstanding, a receipt is admitted once across
      restarts, a permit is used once; an admitted recovery event is spooled exactly
      once through every crash between writes (an append is all or nothing there); its dead letter ends its delivery; a retry needs its audit.
    - The pruning job deletes only with durable consent to a previewed cutoff,
      nothing resumes after a restart, and a published outcome is durable.  Its
      unattended client, after one look at the current job, acts on its own only, starts it at most once, reports
      truthfully, and returns within its budgets.
    - Some defects are stated as theorems: a failed append spends its idempotency
      key; a spool line without its newline stalls its receipt, and a line torn
      earlier swallows the event; an offset file that outlives its log hides
      records; an unsafe session makes a receipt conflict after a restart; behind a
      blob store [tool:post] always records success; the session's [HAS_EVENT] edge
      to a lifecycle event is overwritten.

    ** Fuel and bounds

    [dfs] and [walk_up] take the number of edges plus one (a visit consumes an
    edge of a new node), and their theorems show the result is the closure, so
    the bound is never hit.  The drain loop and [_drain_to_eof] take fuel because
    an environment can keep appending; the safety theorem holds for every fuel
    and the delivery theorem gives fuel that is enough.  [resolve_loop] counts the
    source's own depth limit.  [closure] and [collect_loop] take the number of
    relationships or nodes, proved enough.  The loops of [Retention] take the length of the
    list or ledger they walk, which their theorems show is enough; the parser of
    [JsonParse] takes the length of its input.  The polling loops of [Scheduler]
    take fuel; more than the longer of the two time budgets is proved enough when
    the clock advances.  A crash budget ([Retention], [Outbox], [RetentionJob])
    counts durable effects before the process dies; theorems hold for every
    budget.

    ** Assumptions

    Strings are valid UTF-8.  Session ids, tool call ids and other values used as
    node ids or dictionary keys are strings; another type is a [TypeError].  Blob
    and graph back ends are classes.  Library code is a class: [Timestamps]
    ([datetime] parsing), [FloatRepr] (float spelling), [PyLower] ([str.lower]),
    [Jwt] (token verification), [PyRepr] ([repr] of containers).  No buffered node has a property called
    [node_id], and the Neo4j flush theorems have one writer, the worker that owns
    the store.

    ** Not modelled

    The raw reads of the Neo4j store (the answers to its queries are scripts); failures of [unlink] other than those of
    [delete_drained]; signals that reach the retention client outside a request or a
    sleep; reading YAML
    files and the environment; the rest of the application's start and stop, and
    its thin routers; the coercions of request models; SQLite
    files behind the tables; locks and wake-ups inside asyncio; of the registry,
    construction and shutdown; of the blob files, descriptors, permissions, fsync
    and directory cookies; the networking of the retention client; the command
    line, logging and the one-off maintenance scripts. *)
From stdpp Require Import base list gmap strings sorting.
From Stdlib Require Import ZArith Lia.

(** ** Results and exceptions

    A Python call either returns or raises.  Only the class of an exception
    matters to the code that is modelled (its [except] clauses dispatch on it),
    so an exception is its class; messages are not part of the model. *)

Inductive exn :=
  | ValueError | TypeError | KeyError | IndexError | AttributeError
  | RuntimeError | OSError | UnicodeError | OverflowError
  | FileNotFoundError | BlobExpiredError  (** two subclasses of [OSError] *)
  | RetentionError | SessionsPendingError (** the program's own *)
  | TransientInfra  (** the driver and sqlite classes the drainer retries *)
  | OtherError      (** any other subclass of [Exception] *)
  | CancelledError  (** a [BaseException]: not caught by [except Exception] *)
  | TransientInfraFailure              (** the drainer's two internal signals *)
  | QueueCommitFailure (cause : exn).

(** [except Exception] *)
Definition is_Exception (e : exn) : bool :=
  match e with CancelledError => false | _ => true end.

(** [except OSError] *)
Definition is_OSError (e : exn) : bool :=
  match e with OSError | FileNotFoundError | BlobExpiredError => true | _ => false end.

#[export] Instance exn_eq_dec : EqDecision exn.
Proof. solve_decision. Defined.

Inductive result (A : Type) :=
  | Ok (a : A)
  | Err (e : exn).
Arguments Ok {A} a.
Arguments Err {A} e.

Definition is_ok {A} (r : result A) : bool :=
  match r with Ok _ => true | Err _ => false end.

(** Pure code that may raise: [x = r; k] *)
Definition rbind {A B} (r : result A) (k : A -> result B) : result B :=
  match r with Ok a => k a | Err e => Err e end.

Lemma rbind_ok {A B} (r : result A) (k : A -> result B) b :
  rbind r k = Ok b -> exists a, r = Ok a /\ k a = Ok b.
Proof. destruct r; simpl; [eauto|done]. Qed.

(** ** The effect monad

    Stateful Python code: the state survives a raised exception (an in-place
    update made before the [raise] is still there afterwards), so the state is
    returned next to the result and not inside it. *)

Definition M (St A : Type) : Type := St -> result A * St.

Definition mret {St A} (a : A) : M St A := fun s => (Ok a, s).
Definition mraise {St A} (e : exn) : M St A := fun s => (Err e, s).
Definition mbind {St A B} (m : M St A) (f : A -> M St B) : M St B :=
  fun s => match m s with
           | (Ok a, s') => f a s'
           | (Err e, s') => (Err e, s')
           end.
Definition mget {St} : M St St := fun s => (Ok s, s).
Definition mmodify {St} (f : St -> St) : M St unit := fun s => (Ok tt, f s).
Definition mlift {St A} (r : result A) : M St A := fun s => (r, s).
Definition mwhen {St} (b : bool) (m : M St unit) : M St unit :=
  if b then m else mret tt.

(** [try: m except BaseException as e: h e] *)
Definition mcatch {St A} (m : M St A) (h : exn -> M St A) : M St A :=
  fun s => match m s with
           | (Err e, s') => h e s'
           | r => r
           end.

Fixpoint mfor {St A} (xs : list A) (f : A -> M St unit) : M St unit :=
  match xs with
  | [] => mret tt
  | x :: xs => mbind (f x) (fun _ => mfor xs f)
  end.

Declare Scope py_scope.
Delimit Scope py_scope with py.
Notation "'let!' x ':=' m 'in' k" := (mbind m (fun x => k))
  (at level 10, x pattern, m at level 100, k at level 200) : py_scope.
Notation "'let?' x ':=' m 'in' k" := (rbind m (fun x => k))
  (at level 10, x pattern, m at level 100, k at level 200) : py_scope.
Notation "m1 ;;; m2" := (mbind m1 (fun _ => m2))
  (at level 199, right associativity) : py_scope.
Open Scope py_scope.

(** [m] never raises, whatever the state. *)
Definition total {St A} (m : M St A) : Prop := forall s, is_ok (fst (m s)) = true.

(** [m] keeps [P] on every exit, normal or exceptional. *)
Definition preserves {St A} (P : St -> Prop) (m : M St A) : Prop :=
  forall s, P s -> P (snd (m s)).

Create HintDb pym.

Lemma preserves_ret {St A} (P : St -> Prop) (a : A) : preserves P (mret a).
Proof. intros s Hs; exact Hs. Qed.

Lemma preserves_raise {St A} (P : St -> Prop) e : preserves P (@mraise St A e).
Proof. intros s Hs; exact Hs. Qed.

Lemma preserves_lift {St A} (P : St -> Prop) (r : result A) : preserves P (mlift r).
Proof. intros s Hs; exact Hs. Qed.

Lemma preserves_get {St} (P : St -> Prop) : preserves P (@mget St).
Proof. intros s Hs; exact Hs. Qed.

Lemma preserves_modify {St} (P : St -> Prop) (f : St -> St) :
  (forall s, P s -> P (f s)) -> preserves P (mmodify f).
Proof. intros Hf s Hs; apply Hf, Hs. Qed.

Lemma preserves_bind {St A B} (P : St -> Prop) (m : M St A) (f : A -> M St B) :
  preserves P m -> (forall a, preserves P (f a)) -> preserves P (mbind m f).
Proof.
  intros Hm Hf s Hs. unfold mbind.
  specialize (Hm s Hs). destruct (m s) as [[a|e] s']; simpl in *; [by apply Hf|done].
Qed.

Lemma preserves_catch {St A} (P : St -> Prop) (m : M St A) h :
  preserves P m -> (forall e, preserves P (h e)) -> preserves P (mcatch m h).
Proof.
  intros Hm Hh s Hs. unfold mcatch.
  specialize (Hm s Hs). destruct (m s) as [[a|e] s']; simpl in *; [done|by apply Hh].
Qed.

Lemma preserves_when {St} (P : St -> Prop) b (m : M St unit) :
  preserves P m -> preserves P (mwhen b m).
Proof. destruct b; [done|]. intros _; apply preserves_ret. Qed.

Lemma preserves_for {St A} (P : St -> Prop) (xs : list A) (f : A -> M St unit) :
  (forall x, preserves P (f x)) -> preserves P (mfor xs f).
Proof.
  intros Hf. induction xs as [|x xs IH]; simpl.
  - apply preserves_ret.
  - apply preserves_bind; auto.
Qed.

(** After a successful pure step, its result is known. *)
Lemma preserves_bind_lift {St A B} (P : St -> Prop) (r : result A) (f : A -> M St B) :
  (forall a, r = Ok a -> preserves P (f a)) -> preserves P (mbind (mlift r) f).
Proof. intros Hf s Hs. unfold mbind, mlift. destruct r; [by apply Hf|done]. Qed.

#[export] Hint Resolve preserves_ret preserves_raise preserves_lift preserves_get
  preserves_when preserves_for : pym.

(** Walk a monadic body, discharging every primitive with the hint database
    and leaving the state updates to the caller. *)
Ltac preserves_step :=
  match goal with
  | |- preserves _ (mbind (mlift _) _) => apply preserves_bind_lift; intros ? ?
  | |- preserves _ (mbind _ _) => apply preserves_bind; [|intros ?]
  | |- preserves _ (mcatch _ _) => apply preserves_catch; [|intros ?]
  | |- preserves _ (mwhen _ _) => apply preserves_when
  | |- preserves _ (mfor _ _) => apply preserves_for; intros ?
  | |- preserves _ (match ?x with _ => _ end) => destruct x eqn:?
  | |- preserves _ _ => solve [eauto with pym]
  end.
Ltac preserves_auto := repeat preserves_step.

Lemma mbind_ok {St A B} (m : M St A) (f : A -> M St B) s b s' :
  mbind m f s = (Ok b, s') -> exists a s1, m s = (Ok a, s1) /\ f a s1 = (Ok b, s').
Proof. unfold mbind. destruct (m s) as [[a|e] s1]; [eauto|done]. Qed.

(** ** Hoare triples

    [triple P m Q E]: from a state satisfying [P], a normal return of [m]
    satisfies [Q] and an exceptional exit satisfies [E]. *)

Definition triple {St A} (P : St -> Prop) (m : M St A) (Q : A -> St -> Prop)
    (E : exn -> St -> Prop) : Prop :=
  forall s, P s -> match m s with (Ok a, s') => Q a s' | (Err e, s') => E e s' end.

Lemma triple_conseq {St A} (P P' : St -> Prop) (m : M St A) (Q Q' : A -> St -> Prop) E E' :
  triple P' m Q' E' -> (forall s, P s -> P' s) -> (forall a s, Q' a s -> Q a s) ->
  (forall e s, E' e s -> E e s) -> triple P m Q E.
Proof.
  intros Hm HP HQ HE s Hs. specialize (Hm s (HP s Hs)). destruct (m s) as [[]]; auto.
Qed.

Lemma triple_ret {St A} (a : A) (Q : A -> St -> Prop) E : triple (Q a) (mret a) Q E.
Proof. intros s Hs; exact Hs. Qed.

Lemma triple_raise {St A} e (Q : A -> St -> Prop) E : triple (E e) (mraise e) Q E.
Proof. intros s Hs; exact Hs. Qed.

Lemma triple_modify {St} (f : St -> St) (P : St -> Prop) (Q : unit -> St -> Prop) E :
  (forall s, P s -> Q tt (f s)) -> triple P (mmodify f) Q E.
Proof. intros H s Hs; exact (H s Hs). Qed.

Lemma triple_lift {St A} (r : result A) (P : St -> Prop) (Q : A -> St -> Prop) E :
  (forall a s, r = Ok a -> P s -> Q a s) -> (forall e s, r = Err e -> P s -> E e s) ->
  triple P (mlift r) Q E.
Proof. intros HQ HE s Hs. unfold mlift. destruct r; eauto. Qed.

Lemma triple_bind {St A B} P (m : M St A) (f : A -> M St B) Q R E :
  triple P m Q E -> (forall a, triple (Q a) (f a) R E) -> triple P (mbind m f) R E.
Proof.
  intros Hm Hf s Hs. unfold mbind. specialize (Hm s Hs).
  destruct (m s) as [[a|e] s']; [by apply Hf|done].
Qed.

Lemma triple_lift_ok {St A B} P a (f : A -> M St B) R E :
  triple P (f a) R E -> triple P (mbind (mlift (Ok a)) f) R E.
Proof. done. Qed.

Lemma triple_lift_err {St A B} (P : St -> Prop) e (f : A -> M St B) R (E : exn -> St -> Prop) :
  (forall s, P s -> E e s) -> triple P (mbind (mlift (Err e)) f) R E.
Proof. done. Qed.

Lemma triple_catch {St A} P (m : M St A) h (Q : A -> St -> Prop) E E' :
  triple P m Q E' -> (forall e, triple (E' e) (h e) Q E) -> triple P (mcatch m h) Q E.
Proof.
  intros Hm Hh s Hs. unfold mcatch. specialize (Hm s Hs).
  destruct (m s) as [[a|e] s']; [done|by apply Hh].
Qed.

(** A post-condition that has to be read off the pre-state. *)
Lemma triple_pre {St A} (P : St -> Prop) (m : M St A) Q E :
  (forall s0, P s0 -> triple (fun s => s = s0) m Q E) -> triple P m Q E.
Proof. intros H s Hs. by apply (H s Hs). Qed.

(** Destruct the scrutinee of a match in the goal or in a hypothesis. *)
Ltac case_hyp :=
  match goal with
  | H : context [match ?x with _ => _ end] |- _ => destruct x eqn:?; simplify_eq/=
  end.
Ltac case_goal :=
  match goal with
  | |- context [match ?x with _ => _ end] => destruct x eqn:?; simplify_eq/=
  end.

(** [sorted(l)] of strings: by code point, which is the byte order of UTF-8 *)
Definition py_sorted (l : list string) : list string := merge_sort String.le l.

(** ** Python dictionaries

    A [dict] is an association list in insertion order with distinct keys:
    assignment keeps the position of an existing key and appends a new one,
    which is what iteration order (and [OrderedDict]) observes. *)

Section dict.
Context {K V : Type} `{EqDecision K}.

Fixpoint dget (k : K) (d : list (K * V)) : option V :=
  match d with
  | [] => None
  | (k', v) :: d => if decide (k = k') then Some v else dget k d
  end.

Fixpoint dset (k : K) (v : V) (d : list (K * V)) : list (K * V) :=
  match d with
  | [] => [(k, v)]
  | (k', v') :: d => if decide (k = k') then (k', v) :: d else (k', v') :: dset k v d
  end.

Definition ddel (k : K) (d : list (K * V)) : list (K * V) :=
  filter (fun kv => kv.1 <> k) d.

Definition dmem (k : K) (d : list (K * V)) : bool :=
  match dget k d with Some _ => true | None => false end.

(** [d.update(e)], and the merge [{**d, **e}] *)
Definition dupdate (d e : list (K * V)) : list (K * V) :=
  fold_left (fun acc kv => dset kv.1 kv.2 acc) e d.

Definition dkeys (d : list (K * V)) : list K := map fst d.

Lemma dget_dset_eq k v d : dget k (dset k v d) = Some v.
Proof.
  induction d as [|[k' v'] d IH]; simpl; [by rewrite decide_True|].
  destruct (decide (k = k')); simpl; [by rewrite decide_True|by rewrite decide_False].
Qed.

Lemma dget_dset_ne k k' v d : k <> k' -> dget k' (dset k v d) = dget k' d.
Proof.
  intros Hne. induction d as [|[k0 v0] d IH]; simpl; [by rewrite decide_False|].
  destruct (decide (k = k0)) as [->|]; simpl; [by rewrite !decide_False by done|].
  by destruct (decide (k' = k0)).
Qed.

Lemma dget_dset k k' v d :
  dget k' (dset k v d) = if decide (k' = k) then Some v else dget k' d.
Proof.
  destruct (decide (k' = k)) as [->|]; [apply dget_dset_eq|by apply dget_dset_ne].
Qed.

Lemma dget_ddel_eq k d : dget k (ddel k d) = None.
Proof.
  unfold ddel. induction d as [|[k' v'] d IH]; [done|].
  rewrite filter_cons. case_decide; simpl in *; [|done]. by rewrite decide_False.
Qed.

Lemma dget_ddel_ne k k' d : k <> k' -> dget k' (ddel k d) = dget k' d.
Proof.
  intros Hne. unfold ddel. induction d as [|[k0 v0] d IH]; [done|].
  rewrite filter_cons. case_decide as Hk; simpl in *.
  - by destruct (decide (k' = k0)).
  - destruct (decide (k0 = k)) as [->|]; [|by destruct Hk]. by rewrite decide_False.
Qed.

Lemma dget_None_keys k d : dget k d = None <-> k ∉ dkeys d.
Proof.
  unfold dkeys. induction d as [|[k' v'] d IH]; simpl.
  - split; [intros _; apply not_elem_of_nil|done].
  - rewrite not_elem_of_cons. destruct (decide (k = k')); naive_solver.
Qed.

Lemma dget_elem k v d : dget k d = Some v -> (k, v) ∈ d.
Proof.
  induction d as [|[k' v'] d IH]; simpl; [done|]. rewrite elem_of_cons.
  destruct (decide (k = k')); naive_solver.
Qed.

Lemma elem_dget k v d : NoDup (dkeys d) -> (k, v) ∈ d -> dget k d = Some v.
Proof.
  unfold dkeys. induction d as [|[k' v'] d IH]; simpl; [by rewrite elem_of_nil|].
  rewrite NoDup_cons, elem_of_cons. intros [Hk Hd] [Heq|Hin].
  - simplify_eq. by rewrite decide_True.
  - rewrite decide_False; [by apply IH|]. intros ->. apply Hk.
    apply list_elem_of_fmap. by exists (k', v).
Qed.

Lemma dkeys_dset k v d :
  dkeys (dset k v d) = match dget k d with Some _ => dkeys d | None => dkeys d ++ [k] end.
Proof.
  unfold dkeys. induction d as [|[k' v'] d IH]; simpl; [done|].
  destruct (decide (k = k')) as [->|Hne]; simpl; [done|].
  rewrite IH. by destruct (dget k d).
Qed.

Lemma NoDup_dset k v d : NoDup (dkeys d) -> NoDup (dkeys (dset k v d)).
Proof.
  intros Hd. rewrite dkeys_dset. destruct (dget k d) eqn:Hk; [done|].
  apply NoDup_app; split; [done|]. split; [|apply NoDup_singleton].
  intros x Hx ->%list_elem_of_singleton. by apply dget_None_keys in Hk.
Qed.

Lemma dkeys_ddel k d : dkeys (ddel k d) = filter (fun x => x <> k) (dkeys d).
Proof.
  unfold ddel, dkeys. induction d as [|[k' v'] d IH]; [done|].
  simpl. rewrite !filter_cons. simpl.
  destruct (decide (k' <> k)); simpl; by rewrite IH.
Qed.

Lemma NoDup_ddel k d : NoDup (dkeys d) -> NoDup (dkeys (ddel k d)).
Proof. intros. rewrite dkeys_ddel. by apply NoDup_filter. Qed.

Lemma dset_id k v d : dget k d = Some v -> dset k v d = d.
Proof.
  induction d as [|[k' v'] d IH]; simpl; [done|].
  destruct (decide (k = k')); intros; simplify_eq; [done|]. by rewrite IH.
Qed.

Lemma dset_dset k v v' d : dset k v' (dset k v d) = dset k v' d.
Proof.
  induction d as [|[k0 v0] d IH]; simpl; [by rewrite decide_True|].
  destruct (decide (k = k0)); simpl; [by rewrite decide_True|].
  rewrite decide_False by done. by rewrite IH.
Qed.

Lemma ddel_notin k d : dget k d = None -> ddel k d = d.
Proof.
  unfold ddel. induction d as [|[k' v'] d IH]; simpl; [done|].
  destruct (decide (k = k')) as [|Hne]; [done|]. intros Hd.
  rewrite filter_cons, decide_True by (simpl; congruence). by rewrite IH.
Qed.

Lemma dget_dupdate d e k :
  NoDup (dkeys e) ->
  dget k (dupdate d e) = match dget k e with Some v => Some v | None => dget k d end.
Proof.
  unfold dupdate. revert d.
  induction e as [|[k' v'] e IH]; simpl; intros d Hnd; [done|].
  unfold dkeys in *; simpl in Hnd. apply NoDup_cons in Hnd as [Hk' He].
  rewrite IH by done. destruct (decide (k = k')) as [->|Hne].
  - assert (dget k' e = None) as -> by (by apply dget_None_keys).
    by rewrite dget_dset_eq.
  - by rewrite dget_dset_ne by done.
Qed.

Lemma NoDup_dupdate d e : NoDup (dkeys d) -> NoDup (dkeys (dupdate d e)).
Proof.
  unfold dupdate. revert d. induction e as [|[k v] e IH]; simpl; intros d Hd; [done|].
  by apply IH, NoDup_dset.
Qed.
End dict.

#[export] Hint Resolve NoDup_dset NoDup_ddel NoDup_dupdate : pym.
