(* ===== verification/PyText.v ===== *)
(** * Text and bytes

    A Python [bytes] value is a [list byte].  A Python [str] is a Rocq
    [string] holding its UTF-8 encoding, so [s.encode("utf-8")] is the
    identity on the underlying bytes and [len(s.encode("utf-8"))] is
    [String.length].  Strings with lone surrogates (which have no UTF-8
    encoding) are outside the model.  This file has the pieces of the
    standard library the modules use: UTF-8 decoding, [int] and [str] of
    integers, [strip], [split], [replace], ASCII case. *)
From stdpp Require Import base list strings.
From Stdlib Require Import ZArith Lia Ascii.
From Stdlib Require Strings.Byte.
From Stdlib Require Decimal DecimalPos DecimalN DecimalZ.
From S2P Require Import Prelude.

Abbreviation byte := Byte.byte.
Abbreviation bytes := (list Byte.byte).

#[export] Instance byte_eq_dec : EqDecision byte := Byte.byte_eq_dec.

Definition bytes_of (s : string) : bytes := String.list_byte_of_string s.
Definition str_of (b : bytes) : string := String.string_of_list_byte b.

Lemma str_of_bytes_of s : str_of (bytes_of s) = s.
Proof. apply String.string_of_list_byte_of_string. Qed.
Lemma bytes_of_str_of b : bytes_of (str_of b) = b.
Proof. apply String.list_byte_of_string_of_list_byte. Qed.
Lemma bytes_of_app s t : bytes_of (s +:+ t) = bytes_of s ++ bytes_of t.
Proof. induction s as [|a s IH]; simpl; [done|]. unfold bytes_of, String.list_byte_of_string in *. simpl. by f_equal. Qed.
Lemma length_bytes_of s : length (bytes_of s) = String.length s.
Proof. induction s as [|a s IH]; simpl; [done|]. unfold bytes_of, String.list_byte_of_string in *. simpl. by f_equal. Qed.
Lemma str_of_app a b : str_of (a ++ b) = str_of a +:+ str_of b.
Proof.
  rewrite <- (str_of_bytes_of (str_of a +:+ str_of b)).
  by rewrite bytes_of_app, !bytes_of_str_of.
Qed.
Lemma str_app_length (s t : string) :
  String.length (s +:+ t) = String.length s + String.length t.
Proof. rewrite <- !length_bytes_of, bytes_of_app. apply length_app. Qed.

Definition bZ (b : byte) : Z := Z.of_N (Byte.to_N b).
Definition in_range (lo hi : Z) (b : byte) : bool := (lo <=? bZ b)%Z && (bZ b <=? hi)%Z.

Definition nl : byte := Byte.x0a.

(** ** UTF-8 (the strict decoder of [bytes.decode("utf-8")]) *)

Definition cont (b : byte) : bool := in_range 128 191 b.

Fixpoint utf8_decode (l : bytes) : option (list Z) :=
  match l with
  | [] => Some []
  | b0 :: l1 =>
    if (bZ b0 <? 128)%Z then cons (bZ b0) <$> utf8_decode l1
    else match l1 with
    | [] => None
    | b1 :: l2 =>
      if in_range 194 223 b0 then
        if cont b1 then cons ((bZ b0 - 192) * 64 + (bZ b1 - 128))%Z <$> utf8_decode l2
        else None
      else match l2 with
      | [] => None
      | b2 :: l3 =>
        if in_range 224 239 b0 then
          let ok1 := if (bZ b0 =? 224)%Z then in_range 160 191 b1
                     else if (bZ b0 =? 237)%Z then in_range 128 159 b1
                     else cont b1 in
          if ok1 && cont b2 then
            cons ((bZ b0 - 224) * 4096 + (bZ b1 - 128) * 64 + (bZ b2 - 128))%Z
              <$> utf8_decode l3
          else None
        else match l3 with
        | [] => None
        | b3 :: l4 =>
          if in_range 240 244 b0 then
            let ok1 := if (bZ b0 =? 240)%Z then in_range 144 191 b1
                       else if (bZ b0 =? 244)%Z then in_range 128 143 b1
                       else cont b1 in
            if ok1 && cont b2 && cont b3 then
              cons ((bZ b0 - 240) * 262144 + (bZ b1 - 128) * 4096
                    + (bZ b2 - 128) * 64 + (bZ b3 - 128))%Z <$> utf8_decode l4
            else None
          else None
        end
      end
    end
  end.

Definition utf8_valid (l : bytes) : bool :=
  match utf8_decode l with Some _ => true | None => false end.

Definition byte_of_Z (z : Z) : byte :=
  match Byte.of_N (Z.to_N z) with Some b => b | None => Byte.x00 end.

Definition utf8_encode_one (c : Z) : bytes :=
  if (c <? 128)%Z then [byte_of_Z c]
  else if (c <? 2048)%Z then [byte_of_Z (192 + c / 64); byte_of_Z (128 + c mod 64)]
  else if (c <? 65536)%Z then
    [byte_of_Z (224 + c / 4096); byte_of_Z (128 + c / 64 mod 64); byte_of_Z (128 + c mod 64)]
  else [byte_of_Z (240 + c / 262144); byte_of_Z (128 + c / 4096 mod 64);
        byte_of_Z (128 + c / 64 mod 64); byte_of_Z (128 + c mod 64)].

Definition utf8_encode (cs : list Z) : bytes := concat (map utf8_encode_one cs).

(** ** [str.strip()]: Python's whitespace is Unicode whitespace *)

Definition py_isspace (c : Z) : bool :=
  ((9 <=? c) && (c <=? 13) || (28 <=? c) && (c <=? 32) || (c =? 133) || (c =? 160)
   || (c =? 5760) || (8192 <=? c) && (c <=? 8202) || (c =? 8232) || (c =? 8233)
   || (c =? 8239) || (c =? 8287) || (c =? 12288))%Z.

Fixpoint lstrip (cs : list Z) : list Z :=
  match cs with
  | [] => []
  | c :: cs' => if py_isspace c then lstrip cs' else cs
  end.

Definition py_strip (s : string) : string :=
  match utf8_decode (bytes_of s) with
  | Some cs => str_of (utf8_encode (rev (lstrip (rev (lstrip cs)))))
  | None => s
  end.

(** ** Integers as text: [str(int)] and [int(text)] *)

Fixpoint uint_bytes (u : Decimal.uint) : bytes :=
  match u with
  | Decimal.Nil => []
  | Decimal.D0 u => Byte.x30 :: uint_bytes u
  | Decimal.D1 u => Byte.x31 :: uint_bytes u
  | Decimal.D2 u => Byte.x32 :: uint_bytes u
  | Decimal.D3 u => Byte.x33 :: uint_bytes u
  | Decimal.D4 u => Byte.x34 :: uint_bytes u
  | Decimal.D5 u => Byte.x35 :: uint_bytes u
  | Decimal.D6 u => Byte.x36 :: uint_bytes u
  | Decimal.D7 u => Byte.x37 :: uint_bytes u
  | Decimal.D8 u => Byte.x38 :: uint_bytes u
  | Decimal.D9 u => Byte.x39 :: uint_bytes u
  end.

Definition N_bytes (n : N) : bytes := uint_bytes (N.to_uint n).
Definition int_bytes (z : Z) : bytes :=
  if (z <? 0)%Z then Byte.x2d :: N_bytes (Z.to_N (- z)) else N_bytes (Z.to_N z).
Definition int_str (z : Z) : string := str_of (int_bytes z).

(** The base-10 grammar of [int()]: digits with single underscores between. *)
Fixpoint parse_digits (l : bytes) (acc : Z) (prev : bool) : option Z :=
  match l with
  | [] => if prev then Some acc else None
  | b :: l =>
    if in_range 48 57 b then parse_digits l (10 * acc + (bZ b - 48))%Z true
    else if (bZ b =? 95)%Z && prev then parse_digits l acc false
    else None
  end.

Definition parse_int (l : bytes) : option Z :=
  match l with
  | [] => None
  | b :: l' =>
    if (bZ b =? 45)%Z then Z.opp <$> parse_digits l' 0 false
    else if (bZ b =? 43)%Z then parse_digits l' 0 false
    else parse_digits l 0 false
  end.

Lemma parse_uint_acc u acc :
  parse_digits (uint_bytes u) (Z.pos acc) true = Some (Z.pos (Pos.of_uint_acc u acc)).
Proof.
  revert acc. induction u as [|u IH|u IH|u IH|u IH|u IH|u IH|u IH|u IH|u IH|u IH];
    intros acc; [done|..]; cbn [uint_bytes parse_digits Pos.of_uint_acc];
    (match goal with |- context [in_range 48 57 ?b] =>
       change (in_range 48 57 b) with true end); cbn [andb];
    rewrite <- IH; f_equal; cbn; lia.
Qed.

Lemma parse_uint u b :
  u <> Decimal.Nil \/ b = true ->
  parse_digits (uint_bytes u) 0 b = Some (Z.of_N (Pos.of_uint u)).
Proof.
  revert b. induction u as [|u IH|u IH|u IH|u IH|u IH|u IH|u IH|u IH|u IH|u IH];
    intros b Hb; [destruct Hb as [| ->]; done|
                  cbn [uint_bytes parse_digits Pos.of_uint]; cbn; apply IH; by right|..];
    cbn [uint_bytes parse_digits Pos.of_uint Z.of_N];
    rewrite <- parse_uint_acc; reflexivity.
Qed.

Lemma N_to_uint_not_nil n : N.to_uint n <> Decimal.Nil.
Proof.
  intros H. assert (Hn := DecimalN.Unsigned.of_to n). rewrite H in Hn.
  change (N.of_uint Decimal.Nil) with 0%N in Hn. subst n. discriminate H.
Qed.

Lemma uint_head_digit u b l : uint_bytes u = b :: l -> in_range 48 57 b = true.
Proof. destruct u; simpl; intros; simplify_eq; reflexivity. Qed.

Lemma in_range_spec lo hi b : in_range lo hi b = true <-> (lo <= bZ b <= hi)%Z.
Proof. unfold in_range. rewrite andb_true_iff, !Z.leb_le. lia. Qed.

Lemma parse_int_N n : parse_int (N_bytes n) = Some (Z.of_N n).
Proof.
  assert (Hd : parse_digits (N_bytes n) 0 false = Some (Z.of_N n)).
  { unfold N_bytes. rewrite parse_uint by (left; apply N_to_uint_not_nil).
    change (Pos.of_uint (N.to_uint n)) with (N.of_uint (N.to_uint n)).
    by rewrite DecimalN.Unsigned.of_to. }
  unfold parse_int. destruct (N_bytes n) as [|b l] eqn:Hb; [done|].
  unfold N_bytes in Hb. apply uint_head_digit, in_range_spec in Hb.
  destruct (Z.eqb_spec (bZ b) 45); [lia|]. destruct (Z.eqb_spec (bZ b) 43); [lia|]. done.
Qed.

(** [int(str(z)) == z] *)
Lemma parse_int_bytes z : parse_int (int_bytes z) = Some z.
Proof.
  unfold int_bytes. destruct (Z.ltb_spec z 0).
  - unfold parse_int. change (bZ Byte.x2d =? 45)%Z with true. cbn [andb].
    unfold N_bytes. rewrite parse_uint by (left; apply N_to_uint_not_nil).
    change (Pos.of_uint (N.to_uint ?n)) with (N.of_uint (N.to_uint n)).
    rewrite DecimalN.Unsigned.of_to. simpl. f_equal. lia.
  - rewrite parse_int_N. f_equal. lia.
Qed.

Lemma uint_bytes_digits u : Forall (fun b => in_range 48 57 b = true) (uint_bytes u).
Proof. induction u; simpl; constructor; try done; reflexivity. Qed.

Lemma int_bytes_chars z :
  Forall (fun b => bZ b = 45 \/ (48 <= bZ b <= 57))%Z (int_bytes z).
Proof.
  assert (Hu : forall u, Forall (fun b => bZ b = 45 \/ (48 <= bZ b <= 57))%Z (uint_bytes u)).
  { intros u. eapply Forall_impl; [apply uint_bytes_digits|].
    intros b Hb%in_range_spec. lia. }
  unfold int_bytes. case_match; [constructor; [by left|]|]; apply Hu.
Qed.

(** ** Character-wise helpers *)

Definition is_upper (b : byte) : bool := in_range 65 90 b.
Definition is_lower (b : byte) : bool := in_range 97 122 b.
Definition is_digit (b : byte) : bool := in_range 48 57 b.
Definition is_alnum (b : byte) : bool := is_upper b || is_lower b || is_digit b.
Definition to_upper (b : byte) : byte := if is_lower b then byte_of_Z (bZ b - 32) else b.
Definition to_lower (b : byte) : byte := if is_upper b then byte_of_Z (bZ b + 32) else b.

(** [s.replace(a, b)] for one-character ASCII arguments *)
Definition replace_byte (a b : byte) (l : bytes) : bytes :=
  map (fun x => if decide (x = a) then b else x) l.

(** [s.split("::")[-1]] *)
Fixpoint last_after_colons (l cur : bytes) : bytes :=
  match l with
  | [] => rev cur
  | b :: l' =>
    match l' with
    | b' :: l'' => if decide (b = Byte.x3a /\ b' = Byte.x3a) then last_after_colons l'' []
                   else last_after_colons l' (b :: cur)
    | [] => rev (b :: cur)
    end
  end.

Definition ends_with (suf l : bytes) : bool := bool_decide (suf `suffix_of` l).
Definition str_ends_with (suf s : string) : bool :=
  bool_decide (bytes_of suf `suffix_of` bytes_of s).
(** [pat in s] *)
Fixpoint contains (pat l : bytes) : bool :=
  bool_decide (pat `prefix_of` l)
  || match l with [] => false | _ :: l => contains pat l end.
(** [s[: -len(suf)]] *)
Definition drop_suffix (n : nat) (s : string) : string :=
  str_of (take (String.length s - n) (bytes_of s)).

Lemma replace_byte_length a b l : length (replace_byte a b l) = length l.
Proof. apply length_map. Qed.

Lemma replace_byte_notin a b l : a <> b -> a ∉ replace_byte a b l.
Proof.
  intros Hab Hin. unfold replace_byte in Hin.
  apply list_elem_of_fmap in Hin as (x & Hx & _). case_decide; congruence.
Qed.

Lemma replace_byte_keep a b c l : c ∉ l -> c <> b -> c ∉ replace_byte a b l.
Proof.
  intros Hc Hcb Hin. unfold replace_byte in Hin.
  apply list_elem_of_fmap in Hin as (x & Hx & Hxl). case_decide; congruence.
Qed.

Lemma byte_of_bZ b : byte_of_Z (bZ b) = b.
Proof. unfold byte_of_Z, bZ. rewrite N2Z.id. by rewrite Byte.of_to_N. Qed.

Lemma drop_suffix_app k suf : drop_suffix (String.length suf) (k +:+ suf) = k.
Proof.
  unfold drop_suffix. rewrite bytes_of_app, str_app_length, Nat.add_sub.
  rewrite <- (length_bytes_of k), take_app_length. apply str_of_bytes_of.
Qed.
