(* ===== verification/Sha256.v ===== *)
(** * SHA-256

    [hashlib.sha256(data).hexdigest()], which the name folding and the blob
    address map use: 32-bit words are [Z] reduced modulo 2^32.  Two
    test vectors pin the definition down. *)
From stdpp Require Import base list strings.
From Stdlib Require Import ZArith Lia.
From S2P Require Import Prelude PyText.
Local Open Scope Z_scope.

Definition w32 (x : Z) : Z := Z.land x 4294967295.
Definition rotr (n x : Z) : Z := w32 (Z.lor (Z.shiftr x n) (Z.shiftl x (32 - n))).

Definition sha_k : list Z :=
 [1116352408; 1899447441; 3049323471; 3921009573; 961987163; 1508970993; 2453635748; 2870763221;
  3624381080; 310598401; 607225278; 1426881987; 1925078388; 2162078206; 2614888103; 3248222580;
  3835390401; 4022224774; 264347078; 604807628; 770255983; 1249150122; 1555081692; 1996064986;
  2554220882; 2821834349; 2952996808; 3210313671; 3336571891; 3584528711; 113926993; 338241895;
  666307205; 773529912; 1294757372; 1396182291; 1695183700; 1986661051; 2177026350; 2456956037;
  2730485921; 2820302411; 3259730800; 3345764771; 3516065817; 3600352804; 4094571909; 275423344;
  430227734; 506948616; 659060556; 883997877; 958139571; 1322822218; 1537002063; 1747873779;
  1955562222; 2024104815; 2227730452; 2361852424; 2428436474; 2756734187; 3204031479; 3329325298].

Record sha_state := ShaState { sa : Z; sb : Z; sc : Z; sd : Z; se : Z; sf : Z; sg : Z; sh : Z }.

Definition sha_init : sha_state :=
  ShaState 1779033703 3144134277 1013904242 2773480762 1359893119 2600822924 528734635 1541459225.

Definition sha_round (s : sha_state) (kw : Z) : sha_state :=
  let S1 := Z.lxor (rotr 6 (se s)) (Z.lxor (rotr 11 (se s)) (rotr 25 (se s))) in
  let ch := Z.lxor (Z.land (se s) (sf s)) (Z.land (Z.lxor (se s) 4294967295) (sg s)) in
  let t1 := w32 (sh s + S1 + ch + kw) in
  let S0 := Z.lxor (rotr 2 (sa s)) (Z.lxor (rotr 13 (sa s)) (rotr 22 (sa s))) in
  let maj := Z.lxor (Z.land (sa s) (sb s)) (Z.lxor (Z.land (sa s) (sc s)) (Z.land (sb s) (sc s))) in
  ShaState (w32 (t1 + S0 + maj)) (sa s) (sb s) (sc s) (w32 (sd s + t1)) (se s) (sf s) (sg s).

(** The schedule is kept newest word first. *)
Fixpoint sha_extend (n : nat) (ws : list Z) : list Z :=
  match n with
  | O => ws
  | S n =>
    let x15 := nth 14 ws 0 in let x2 := nth 1 ws 0 in
    let s0 := Z.lxor (rotr 7 x15) (Z.lxor (rotr 18 x15) (Z.shiftr x15 3)) in
    let s1 := Z.lxor (rotr 17 x2) (Z.lxor (rotr 19 x2) (Z.shiftr x2 10)) in
    sha_extend n (w32 (nth 15 ws 0 + s0 + nth 6 ws 0 + s1) :: ws)
  end.

Fixpoint be_words (l : bytes) : list Z :=
  match l with
  | a :: b :: c :: d :: l =>
    (bZ a * 16777216 + bZ b * 65536 + bZ c * 256 + bZ d) :: be_words l
  | _ => []
  end.

Definition sha_block (s : sha_state) (block : bytes) : sha_state :=
  let ws := rev (sha_extend 48 (rev (be_words block))) in
  let s' := fold_left sha_round (zip_with (fun k w => k + w) sha_k ws) s in
  ShaState (w32 (sa s + sa s')) (w32 (sb s + sb s')) (w32 (sc s + sc s')) (w32 (sd s + sd s'))
           (w32 (se s + se s')) (w32 (sf s + sf s')) (w32 (sg s + sg s')) (w32 (sh s + sh s')).

Definition sha_pad (m : bytes) : bytes :=
  let zeros := Z.to_nat ((55 - Z.of_nat (length m)) mod 64) in
  let bits := 8 * Z.of_nat (length m) in
  m ++ [Byte.x80] ++ replicate zeros Byte.x00
    ++ map (fun i => byte_of_Z (Z.land (Z.shiftr bits (8 * i)) 255)) [7; 6; 5; 4; 3; 2; 1; 0].

Fixpoint sha_blocks (n : nat) (l : bytes) (s : sha_state) : sha_state :=
  match n with
  | O => s
  | S n => sha_blocks n (drop 64 l) (sha_block s (take 64 l))
  end.

Definition sha256 (m : bytes) : sha_state :=
  let p := sha_pad m in sha_blocks (Nat.div (length p) 64) p sha_init.

Definition hex_digit (v : Z) : byte :=
  if v <? 10 then byte_of_Z (48 + v) else byte_of_Z (87 + v).
Definition hex8 (w : Z) : bytes :=
  map (fun i => hex_digit (Z.land (Z.shiftr w (4 * i)) 15)) [7; 6; 5; 4; 3; 2; 1; 0].

Definition sha256_hexdigest (m : bytes) : bytes :=
  let s := sha256 m in
  concat (map hex8 [sa s; sb s; sc s; sd s; se s; sf s; sg s; sh s]).

Lemma length_hexdigest m : length (sha256_hexdigest m) = 64%nat.
Proof. reflexivity. Qed.

Definition is_hex (b : byte) : bool := in_range 48 57 b || in_range 97 102 b.

Lemma hex_digit_is_hex v : 0 <= v < 16 -> is_hex (hex_digit v) = true.
Proof.
  intros Hv.
  assert (Hin : In v [0;1;2;3;4;5;6;7;8;9;10;11;12;13;14;15]) by (simpl; lia).
  simpl in Hin. repeat (destruct Hin as [<-|Hin]; [reflexivity|]). done.
Qed.

Lemma hexdigest_hex m : Forall (fun b => is_hex b = true) (sha256_hexdigest m).
Proof.
  unfold sha256_hexdigest, hex8. apply Forall_concat, Forall_map, Forall_true. intros w.
  apply Forall_map, Forall_true. intros i. apply hex_digit_is_hex.
  change 15 with (Z.ones 4). rewrite Z.land_ones by lia. apply Z.mod_pos_bound. lia.
Qed.

Example sha256_empty :
  str_of (sha256_hexdigest []) = "e3b0c44298fc1c149afbf4c8996fb92427ae41e4649b934ca495991b7852b855"%string.
Proof. vm_compute. reflexivity. Qed.

Example sha256_abc :
  str_of (sha256_hexdigest (bytes_of "abc"))
  = "ba7816bf8f01cfea414140de5dae2223b00361a396177a9cb410ff61f20015ad"%string.
Proof. vm_compute. reflexivity. Qed.
