(* ===== verification/Utils.v ===== *)
(** * Shared utilities ([utils.py])

    Byte-length folding of names ([fold_name]) and the deterministic node and
    edge identifiers. *)
From stdpp Require Import base list strings.
From Stdlib Require Import ZArith Lia.
From S2P Require Import Prelude PyText Sha256.

(** ** [fold_name] *)

Definition _FOLD_DIGEST_CHARS : nat := 16.
Definition _FOLD_SEP : bytes := [Byte.x7e].

Definition fold_suffix (encoded : bytes) : bytes :=
  _FOLD_SEP ++ take _FOLD_DIGEST_CHARS (sha256_hexdigest encoded).

(** [l[:z]] *)
Definition slice_to (z : Z) (l : bytes) : bytes :=
  if (z <? 0)%Z then take (Z.to_nat (Z.of_nat (length l) + z)) l else take (Z.to_nat z) l.

(** The [while truncated: try: decode ... truncated[:-1]] loop, on the first
    [n] bytes. *)
Fixpoint trunc_valid (n : nat) (encoded : bytes) : bytes :=
  match n with
  | O => []
  | S m => if utf8_valid (take n encoded) then take n encoded else trunc_valid m encoded
  end.

(** [.replace("/", "_").replace("\\", "_").replace("\0", "_")] *)
Definition sanitize (l : bytes) : bytes :=
  replace_byte Byte.x00 Byte.x5f
    (replace_byte Byte.x5c Byte.x5f (replace_byte Byte.x2f Byte.x5f l)).

Definition fold_name (value : string) (max_bytes : Z) : string :=
  let encoded := bytes_of value in
  if (Z.of_nat (length encoded) <=? max_bytes)%Z then value
  else
    let suffix := fold_suffix encoded in
    let prefix_budget := (max_bytes - Z.of_nat (length suffix))%Z in
    let truncated := slice_to prefix_budget encoded in
    str_of (sanitize (trunc_valid (length truncated) truncated) ++ suffix).

Lemma length_fold_suffix e : length (fold_suffix e) = 17.
Proof. unfold fold_suffix. rewrite length_app, length_take, length_hexdigest. reflexivity. Qed.

Lemma length_sanitize l : length (sanitize l) = length l.
Proof. unfold sanitize. by rewrite !replace_byte_length. Qed.

Lemma trunc_valid_length n e : length (trunc_valid n e) <= n.
Proof.
  induction n as [|n IH]; cbn [trunc_valid]; [simpl; lia|].
  case_match; [rewrite length_take|]; lia.
Qed.

Lemma length_slice_to z l : (0 <= z)%Z -> length (slice_to z l) <= Z.to_nat z.
Proof. intros Hz. unfold slice_to. case_match; [lia|]. rewrite length_take. lia. Qed.

Lemma fold_name_over value max :
  (max < Z.of_nat (String.length value))%Z ->
  exists prefix,
    bytes_of (fold_name value max) = sanitize prefix ++ fold_suffix (bytes_of value)
    /\ ((17 <= max)%Z -> length prefix <= Z.to_nat (max - 17)).
Proof.
  intros Hlen. unfold fold_name. rewrite length_bytes_of.
  destruct (Z.leb_spec (Z.of_nat (String.length value)) max); [lia|].
  eexists. rewrite bytes_of_str_of. split; [reflexivity|]. intros Hmax.
  etransitivity; [apply trunc_valid_length|]. rewrite length_fold_suffix.
  apply (length_slice_to (max - 17)). lia.
Qed.

Lemma fold_name_id value max :
  (Z.of_nat (String.length value) <= max)%Z -> fold_name value max = value.
Proof.
  intros H. unfold fold_name. rewrite length_bytes_of.
  destruct (Z.leb_spec (Z.of_nat (String.length value)) max); [done|lia].
Qed.

Lemma fold_name_length_le value max :
  (17 <= max)%Z -> (Z.of_nat (String.length (fold_name value max)) <= max)%Z.
Proof.
  intros Hmax. destruct (Z.leb_spec (Z.of_nat (String.length value)) max) as [H|H].
  - by rewrite fold_name_id.
  - destruct (fold_name_over value max H) as (p & Hp & Hlen). specialize (Hlen Hmax).
    rewrite <- length_bytes_of, Hp, length_app, length_sanitize, length_fold_suffix. lia.
Qed.

(** ** UTF-8 sequences, one character at a time *)

(** [c] is the encoding of exactly one character: an ASCII byte, or a
    sequence of bytes that are all at least 128. *)
Definition utf8_char (c : bytes) : Prop :=
  c <> [] /\ (forall l, utf8_valid (c ++ l) = utf8_valid l)
  /\ ((exists b, c = [b] /\ (bZ b < 128)%Z) \/ Forall (fun b => (128 <= bZ b)%Z) c).

Lemma utf8_valid_fmap x (o : option (list Z)) :
  match cons x <$> o with Some _ => true | None => false end
  = match o with Some _ => true | None => false end.
Proof. by destruct o. Qed.

(** Bytes of a checked multi-byte sequence are all at least 128. *)
Ltac utf8_high :=
  repeat constructor;
  repeat match goal with
  | H : _ && _ = true |- _ => apply andb_true_iff in H as [? ?]
  | H : context [if ?c then _ else _] |- _ => destruct c
  | H : cont _ = true |- _ => unfold cont in H
  | H : in_range _ _ _ = true |- _ => apply in_range_spec in H
  end; lia.

(** A valid non-empty text starts with one character and continues validly. *)
Lemma utf8_split l :
  utf8_valid l = true -> l <> [] ->
  exists c r, l = c ++ r /\ utf8_char c /\ utf8_valid r = true.
Proof.
  intros Hv Hne. destruct l as [|b0 l1]; [done|]. unfold utf8_valid in Hv.
  cbn [utf8_decode] in Hv. destruct (bZ b0 <? 128)%Z eqn:H0.
  { exists [b0], l1. split; [done|]. rewrite utf8_valid_fmap in Hv. split; [|done].
    split; [done|]. split; [|left; exists b0; split; [done|by apply Z.ltb_lt]].
    intros l. unfold utf8_valid. cbn [utf8_decode app]. rewrite H0. apply utf8_valid_fmap. }
  destruct l1 as [|b1 l2]; [done|]. destruct (in_range 194 223 b0) eqn:H1.
  { destruct (cont b1) eqn:H2; [|done]. rewrite utf8_valid_fmap in Hv.
    exists [b0; b1], l2. split; [done|]. split; [|done].
    split; [done|]. split; [|right; utf8_high]. intros l.
    unfold utf8_valid. cbn [utf8_decode app]. rewrite H0, H1, H2. apply utf8_valid_fmap. }
  destruct l2 as [|b2 l3]; [done|]. destruct (in_range 224 239 b0) eqn:H2.
  { match type of Hv with context [if ?c then _ else None] => destruct c eqn:H3; [|done] end.
    rewrite utf8_valid_fmap in Hv.
    exists [b0; b1; b2], l3. split; [done|]. split; [|done].
    split; [done|]. split; [|right; utf8_high]. intros l.
    unfold utf8_valid. cbn [utf8_decode app]. rewrite H0, H1, H2, H3. apply utf8_valid_fmap. }
  destruct l3 as [|b3 l4]; [done|]. destruct (in_range 240 244 b0) eqn:H3; [|done].
  match type of Hv with context [if ?c then _ else None] => destruct c eqn:H4; [|done] end.
  rewrite utf8_valid_fmap in Hv.
  exists [b0; b1; b2; b3], l4. split; [done|]. split; [|done].
    split; [done|]. split; [|right; utf8_high]. intros l.
  unfold utf8_valid. cbn [utf8_decode app]. rewrite H0, H1, H2, H3, H4. apply utf8_valid_fmap.
Qed.

Lemma utf8_valid_ind (P : bytes -> Prop) :
  P [] ->
  (forall c r, utf8_char c -> utf8_valid r = true -> P r -> P (c ++ r)) ->
  forall l, utf8_valid l = true -> P l.
Proof.
  intros Hnil Hcons l.
  remember (length l) as n eqn:Hn. revert l Hn.
  induction (lt_wf n) as [n _ IH]; intros l -> Hv.
  destruct l as [|b l']; [done|].
  destruct (utf8_split (b :: l') Hv) as (c & r & Heq & Hc & Hr); [done|].
  rewrite Heq. apply Hcons; [done..|]. apply (IH (length r)); [|done..].
  rewrite Heq, length_app. destruct Hc as (Hne & _). destruct c; [done|]. simpl. lia.
Qed.

Lemma utf8_valid_app a b :
  utf8_valid a = true -> utf8_valid b = true -> utf8_valid (a ++ b) = true.
Proof.
  intros Ha Hb. revert a Ha. apply utf8_valid_ind; [done|].
  intros c r (_ & Hc & _) Hr IH. by rewrite <- app_assoc, Hc.
Qed.

Lemma utf8_valid_ascii l : Forall (fun b => (bZ b < 128)%Z) l -> utf8_valid l = true.
Proof.
  induction 1 as [|b l Hb Hl IH]; [done|]. unfold utf8_valid in *. cbn [utf8_decode].
  destruct (Z.ltb_spec (bZ b) 128); [|lia]. by rewrite utf8_valid_fmap.
Qed.

Lemma trunc_valid_utf8 n e : utf8_valid (trunc_valid n e) = true.
Proof. induction n as [|n IH]; cbn [trunc_valid]; [done|]. by case_match. Qed.

(** When nothing multi-byte is cut, the loop keeps every byte it was given. *)
Lemma trunc_valid_full n e : utf8_valid (take n e) = true -> trunc_valid n e = take n e.
Proof. destruct n as [|n]; cbn [trunc_valid]; [done|]. by intros ->. Qed.

Lemma replace_byte_app a b l l' :
  replace_byte a b (l ++ l') = replace_byte a b l ++ replace_byte a b l'.
Proof. apply map_app. Qed.

Lemma replace_byte_utf8 a b l :
  (bZ a < 128)%Z -> (bZ b < 128)%Z ->
  utf8_valid l = true -> utf8_valid (replace_byte a b l) = true.
Proof.
  intros Ha Hb. revert l. apply utf8_valid_ind; [done|].
  intros c r (Hne & Hc & Hk) Hr IH. rewrite replace_byte_app. apply utf8_valid_app; [|done].
  destruct Hk as [(x & -> & Hx)|Hhigh].
  - apply utf8_valid_ascii. simpl. constructor; [|constructor]. by case_decide.
  - assert (replace_byte a b c = c) as ->.
    { clear -Hhigh Ha. induction Hhigh as [|x c Hx _ IHc]; [done|]. simpl. rewrite IHc.
      rewrite decide_False; [done|]. intros ->. lia. }
    rewrite <- (app_nil_r c), Hc. done.
Qed.

Lemma sanitize_utf8 l : utf8_valid l = true -> utf8_valid (sanitize l) = true.
Proof. intros. unfold sanitize. by repeat apply replace_byte_utf8. Qed.

Lemma hex_ascii b : is_hex b = true -> (48 <= bZ b <= 57 \/ 97 <= bZ b <= 102)%Z.
Proof. unfold is_hex. rewrite orb_true_iff, !in_range_spec. lia. Qed.

Lemma fold_suffix_chars e : Forall (fun b => bZ b = 126 \/ 48 <= bZ b <= 57 \/ 97 <= bZ b <= 102)%Z (fold_suffix e).
Proof.
  unfold fold_suffix. apply Forall_app. split; [repeat constructor; by left|].
  apply Forall_take. eapply Forall_impl; [apply hexdigest_hex|].
  intros b Hb. right. by apply hex_ascii.
Qed.

Lemma fold_name_utf8_valid value max :
  utf8_valid (bytes_of value) = true -> utf8_valid (bytes_of (fold_name value max)) = true.
Proof.
  intros Hv. unfold fold_name. case_match; [done|]. rewrite bytes_of_str_of.
  apply utf8_valid_app; [apply sanitize_utf8, trunc_valid_utf8|].
  apply utf8_valid_ascii. eapply Forall_impl; [apply fold_suffix_chars|]. simpl. lia.
Qed.

Definition path_unsafe : bytes := [Byte.x2f; Byte.x5c; Byte.x00].

Lemma sanitize_safe l u : u ∈ path_unsafe -> u ∉ sanitize l.
Proof.
  unfold path_unsafe, sanitize. rewrite !elem_of_cons, elem_of_nil.
  intros [->|[->|[->|[]]]].
  - do 2 (apply replace_byte_keep; [|done]). by apply replace_byte_notin.
  - apply replace_byte_keep; [|done]. by apply replace_byte_notin.
  - by apply replace_byte_notin.
Qed.

Lemma fold_name_safe value max u :
  fold_name value max <> value -> u ∈ path_unsafe -> u ∉ bytes_of (fold_name value max).
Proof.
  intros Hne Hu. destruct (Z.leb_spec (Z.of_nat (String.length value)) max) as [H|H].
  - by rewrite fold_name_id in Hne.
  - destruct (fold_name_over value max H) as (p & -> & _). rewrite not_elem_of_app.
    split; [by apply sanitize_safe|]. intros Hin.
    eapply (proj1 (Forall_forall _ _) (fold_suffix_chars _)) in Hin.
    unfold path_unsafe in Hu. rewrite !elem_of_cons, elem_of_nil in Hu.
    destruct Hu as [->|[->|[->|[]]]]; unfold bZ in Hin; simpl in Hin; lia.
Qed.

(** ** The contract of [fold_name]

    The properties the docstring promises, for a budget that has room for the
    17-byte suffix; every caller's budget is at least 211. *)

(** C40: with a budget of at least 17 bytes, a folded name fits the byte budget, a name already within the budget is
    returned unchanged, folding is idempotent, the result is valid UTF-8, and a
    name that had to be folded contains no path separator, backslash or NUL. *)
Theorem fold_name_contract (value : string) (max : Z) :
  (17 <= max)%Z -> utf8_valid (bytes_of value) = true ->
  let f := fold_name value max in
  (Z.of_nat (String.length f) <= max)%Z
  /\ ((Z.of_nat (String.length value) <= max)%Z -> f = value)
  /\ fold_name f max = f
  /\ utf8_valid (bytes_of f) = true
  /\ (f <> value -> forall u, u ∈ path_unsafe -> u ∉ bytes_of f).
Proof.
  intros Hmax Hv f.
  assert (Hlen : (Z.of_nat (String.length f) <= max)%Z) by (by apply fold_name_length_le).
  repeat split.
  - done.
  - apply fold_name_id.
  - by apply fold_name_id.
  - by apply fold_name_utf8_valid.
  - intros Hne u Hu. by apply fold_name_safe.
Qed.

Lemma fold_name_contract_witness :
  let v := "aaaaaaaaaa/bbbbbbbbbbbbbbbbbbbb"%string in
  (17 <= 20)%Z /\ utf8_valid (bytes_of v) = true /\ fold_name v 20 <> v
  /\ fold_name (fold_name v 20) 20 = fold_name v 20.
Proof.
  set (v := "aaaaaaaaaa/bbbbbbbbbbbbbbbbbbbb"%string). cbv zeta.
  split; [lia|]. split; [reflexivity|]. split; [vm_compute; discriminate|].
  apply (fold_name_contract v 20); [lia|reflexivity].
Defined.

(** An over-budget ASCII name folds to exactly the budget, and two
    over-budget names fold to the same name only if the first 64 bits of their
    SHA-256 digests agree: the digest is taken over the whole name, so a shared
    prefix never makes them collide by itself. *)
Theorem fold_name_exact_and_distinct (v1 v2 : string) (max : Z) :
  (17 <= max)%Z -> Forall (fun b => (bZ b < 128)%Z) (bytes_of v1) ->
  (max < Z.of_nat (String.length v1))%Z -> (max < Z.of_nat (String.length v2))%Z ->
  Z.of_nat (String.length (fold_name v1 max)) = max
  /\ (fold_name v1 max = fold_name v2 max ->
      take 16 (sha256_hexdigest (bytes_of v1)) = take 16 (sha256_hexdigest (bytes_of v2))).
Proof.
  intros Hmax Hascii H1 H2. split.
  - rewrite <- length_bytes_of in *. unfold fold_name.
    destruct (Z.leb_spec (Z.of_nat (length (bytes_of v1))) max); [lia|].
    rewrite bytes_of_str_of, length_app, length_sanitize, length_fold_suffix.
    unfold slice_to. destruct (Z.ltb_spec (max - Z.of_nat 17) 0); [lia|].
    rewrite trunc_valid_full, !length_take; [lia|].
    apply utf8_valid_ascii. by apply Forall_take, Forall_take.
  - intros Heq. destruct (fold_name_over v1 max H1) as (p1 & Hp1 & _).
    destruct (fold_name_over v2 max H2) as (p2 & Hp2 & _).
    rewrite Heq, Hp2 in Hp1. apply app_inj_2 in Hp1 as [_ Hs];
      [|by rewrite !length_fold_suffix].
    unfold fold_suffix in Hs. by apply (inj (app _FOLD_SEP)) in Hs.
Qed.

Lemma fold_name_exact_and_distinct_witness :
  Z.of_nat (String.length (fold_name "aaaaaaaaaaaaaaaaaaaaaaaa" 20)) = 20%Z.
Proof.
  apply (fold_name_exact_and_distinct "aaaaaaaaaaaaaaaaaaaaaaaa" "aaaaaaaaaaaaaaaaaaaaaaab" 20).
  - lia.
  - apply (bool_decide_unpack _). vm_compute. exact I.
  - simpl; lia.
  - simpl; lia.
Defined.

(** ** Timestamps

    [datetime.fromisoformat] and the instant a timestamp denotes.  A naive
    timestamp is converted with the host's local time zone, and the conversion
    to milliseconds goes through a double, so neither is a function of the
    source: they are a parameter.  [fromisoformat] returning [None] is the
    [ValueError]; [dt_le] returning [None] is the [TypeError] of comparing a
    naive with an aware datetime. *)
Class Timestamps := {
  datetime : Type;
  fromisoformat : string -> option datetime;
  epoch_ms : datetime -> Z;
  dt_le : datetime -> datetime -> option bool;
}.

Section ids.
Context `{Timestamps}.

(** [ident] is the value of the [_event_identity] context variable. *)
Definition make_node_id (ident : option string) (session_id event_name timestamp : string)
    (disambiguator : option string) : result string :=
  let safe_event := str_of (replace_byte Byte.x3a Byte.x5f (bytes_of event_name)) in
  match fromisoformat timestamp with
  | None => Err ValueError
  | Some dt =>
    let node_id := session_id +:+ "__" +:+ safe_event +:+ "__" +:+ int_str (epoch_ms dt) in
    let node_id := match disambiguator with
                   | Some d => node_id +:+ "__" +:+ d | None => node_id end in
    let node_id := match ident with
                   | Some i => node_id +:+ "__" +:+ i | None => node_id end in
    Ok node_id
  end.

Definition make_edge_id (source_id target_id edge_type : string) : string :=
  source_id +:+ "==[" +:+ edge_type +:+ "]==" +:+ target_id.
End ids.

(** A concrete clock for the witnesses: a timestamp is a decimal number of
    milliseconds, all of them comparable. *)
Definition demo_timestamps : Timestamps := {|
  datetime := Z;
  fromisoformat := fun s => parse_int (bytes_of s);
  epoch_ms := id;
  dt_le := fun a b => Some (a <=? b)%Z;
|}.
