(* ===== verification/Json.v ===== *)
(** * JSON values and [json.dumps]

    The dynamic values the server handles: what [json.loads] produces and what
    handlers store as node properties.  Objects are insertion-ordered
    dictionaries ([Prelude]).  A float is kept as its [repr], because no
    modelled code computes with one. *)
From stdpp Require Import base list strings.
From Stdlib Require Import ZArith Lia.
From S2P Require Import Prelude PyText.

Unset Elimination Schemes.
Inductive json :=
  | JNull
  | JBool (b : bool)
  | JInt (z : Z)
  | JFloat (lexeme : string)
  | JStr (s : string)
  | JArr (l : list json)
  | JObj (o : list (string * json)).
Set Elimination Schemes.

Section json_ind.
Context (P : json -> Prop)
  (Hnull : P JNull) (Hbool : forall b, P (JBool b)) (Hint : forall z, P (JInt z))
  (Hfloat : forall s, P (JFloat s)) (Hstr : forall s, P (JStr s))
  (Harr : forall l, Forall P l -> P (JArr l))
  (Hobj : forall o, Forall (fun kv => P kv.2) o -> P (JObj o)).

Fixpoint json_nested_ind (j : json) : P j :=
  match j with
  | JNull => Hnull
  | JBool b => Hbool b
  | JInt z => Hint z
  | JFloat s => Hfloat s
  | JStr s => Hstr s
  | JArr l => Harr l ((fix go l := match l return Forall P l with
                       | [] => Forall_nil_2 _
                       | x :: l => Forall_cons_2 _ _ _ (json_nested_ind x) (go l)
                       end) l)
  | JObj o => Hobj o ((fix go o := match o return Forall (fun kv => P kv.2) o with
                       | [] => Forall_nil_2 _
                       | kv :: o => Forall_cons_2 _ _ _ (json_nested_ind kv.2) (go o)
                       end) o)
  end.
End json_ind.

(** ** Python operations on dynamic values *)

(** [bool(v)] *)
Definition truthy (j : json) : bool :=
  match j with
  | JNull => false
  | JBool b => b
  | JInt z => negb (z =? 0)%Z
  | JFloat s => negb (bool_decide (s = "0.0" \/ s = "-0.0"))
  | JStr s => negb (bool_decide (s = ""))
  | JArr l => negb (bool_decide (length l = 0))
  | JObj o => negb (bool_decide (length o = 0))
  end.

Definition is_none (j : json) : bool := match j with JNull => true | _ => false end.

(** [d.get(k)]: a missing key and an explicit [None] are the same value. *)
Definition jget (k : string) (o : list (string * json)) : json :=
  match dget k o with Some v => v | None => JNull end.

(** [d.get(k, default)]: the default only replaces a missing key. *)
Definition jget_default (k : string) (d : json) (o : list (string * json)) : json :=
  match dget k o with Some v => v | None => d end.

(** [a or b] *)
Definition py_or (a b : json) : json := if truthy a then a else b.

Definition jstrs (l : list string) : json := JArr (map JStr l).

(** The [str] elements of a list value (labels are lists of strings). *)
Definition str_items (j : json) : list string :=
  match j with
  | JArr l => omap (fun x => match x with JStr s => Some s | _ => None end) l
  | _ => []
  end.

Lemma str_items_jstrs l : str_items (jstrs l) = l.
Proof. unfold str_items, jstrs. induction l as [|s l IH]; [done|]. simpl. by f_equal. Qed.

(** [str(v)], as an f-string applies it.  The [repr] of a list or a dict
    depends on Unicode printability tables and is a parameter. *)
Class PyRepr := container_repr : json -> string.

Definition py_str `{PyRepr} (j : json) : string :=
  match j with
  | JNull => "None"
  | JBool true => "True"
  | JBool false => "False"
  | JInt z => int_str z
  | JFloat s => s
  | JStr s => s
  | JArr _ | JObj _ => container_repr j
  end.

(** ** [json.dumps] (with [ensure_ascii=True]) *)

Definition hexd (v : Z) : byte :=
  if (v <? 10)%Z then byte_of_Z (48 + v) else byte_of_Z (87 + v).
Definition u_escape (c : Z) : bytes :=
  [Byte.x5c; Byte.x75; hexd (Z.land (Z.shiftr c 12) 15); hexd (Z.land (Z.shiftr c 8) 15);
   hexd (Z.land (Z.shiftr c 4) 15); hexd (Z.land c 15)].

Definition esc_cp (c : Z) : bytes :=
  if (c =? 34)%Z then [Byte.x5c; Byte.x22]
  else if (c =? 92)%Z then [Byte.x5c; Byte.x5c]
  else if (c =? 10)%Z then [Byte.x5c; Byte.x6e]
  else if (c =? 13)%Z then [Byte.x5c; Byte.x72]
  else if (c =? 9)%Z then [Byte.x5c; Byte.x74]
  else if (c =? 8)%Z then [Byte.x5c; Byte.x62]
  else if (c =? 12)%Z then [Byte.x5c; Byte.x66]
  else if (32 <=? c)%Z && (c <=? 126)%Z then [byte_of_Z c]
  else if (c <? 65536)%Z then u_escape c
  else let v := (c - 65536)%Z in
       u_escape (55296 + Z.land (Z.shiftr v 10) 1023) ++ u_escape (56320 + Z.land v 1023).

Definition dumps_str (s : string) : bytes :=
  match utf8_decode (bytes_of s) with
  | Some cs => [Byte.x22] ++ concat (map esc_cp cs) ++ [Byte.x22]
  | None => []
  end.

Fixpoint sep_concat (sep : bytes) (l : list bytes) : bytes :=
  match l with
  | [] => []
  | [x] => x
  | x :: l => x ++ sep ++ sep_concat sep l
  end.

(** [float.__repr__], with the spellings [json] uses for the special values. *)
Definition float_text (s : string) : string :=
  if bool_decide (s = "nan") then "NaN"
  else if bool_decide (s = "inf") then "Infinity"
  else if bool_decide (s = "-inf") then "-Infinity"
  else s.

Section dumps.
Context (item_sep key_sep : bytes).

Fixpoint dumps (j : json) : bytes :=
  match j with
  | JNull => bytes_of "null"
  | JBool true => bytes_of "true"
  | JBool false => bytes_of "false"
  | JInt z => int_bytes z
  | JFloat s => bytes_of (float_text s)
  | JStr s => dumps_str s
  | JArr l => [Byte.x5b] ++ sep_concat item_sep (map dumps l) ++ [Byte.x5d]
  | JObj o => [Byte.x7b]
      ++ sep_concat item_sep (map (fun kv => dumps_str kv.1 ++ key_sep ++ dumps kv.2) o)
      ++ [Byte.x7d]
  end.
End dumps.

(** [json.dumps(v)] and [json.dumps(v, separators=(",", ":"))] *)
Definition json_dumps : json -> bytes := dumps [Byte.x2c; Byte.x20] [Byte.x3a; Byte.x20].
Definition json_dumps_compact : json -> bytes := dumps [Byte.x2c] [Byte.x3a].

(** ** The output is printable ASCII, hence one line *)

Definition printable (b : byte) : Prop := (32 <= bZ b <= 126)%Z.

(** Float lexemes are what [float.__repr__] prints: printable characters. *)
Fixpoint floats_ok (j : json) : bool :=
  match j with
  | JFloat s => bool_decide (Forall (fun b => in_range 32 126 b = true) (bytes_of s))
  | JArr l => forallb floats_ok l
  | JObj o => forallb (fun kv => floats_ok kv.2) o
  | _ => true
  end.

Lemma bZ_byte_of_Z z : (0 <= z < 256)%Z -> bZ (byte_of_Z z) = z.
Proof.
  intros Hz. unfold bZ, byte_of_Z.
  destruct (Byte.of_N (Z.to_N z)) as [b|] eqn:Hb.
  - apply Byte.to_of_N in Hb. rewrite Hb. lia.
  - apply Byte.of_N_None_iff in Hb. lia.
Qed.

Lemma hexd_printable v : (0 <= v < 16)%Z -> printable (hexd v).
Proof. intros Hv. unfold printable, hexd. case_match; rewrite bZ_byte_of_Z; lia. Qed.

Lemma nibble_bound x : (0 <= Z.land x 15 < 16)%Z.
Proof. change 15%Z with (Z.ones 4). rewrite Z.land_ones by lia. apply Z.mod_pos_bound. lia. Qed.

Lemma u_escape_printable c : Forall printable (u_escape c).
Proof.
  unfold u_escape. repeat apply Forall_cons_2; try apply Forall_nil_2;
    try (apply hexd_printable, nibble_bound); unfold printable, bZ; simpl; lia.
Qed.

Lemma esc_cp_printable c : Forall printable (esc_cp c).
Proof.
  assert (Hl : forall l, Forall (fun b => in_range 32 126 b = true) l -> Forall printable l).
  { intros l Hl. eapply Forall_impl; [exact Hl|]. intros b. unfold printable.
    by rewrite in_range_spec. }
  unfold esc_cp.
  repeat (case_match; [first [by apply Hl; repeat constructor | apply u_escape_printable | idtac]|]).
  - constructor; [|constructor]. unfold printable. rewrite bZ_byte_of_Z; lia.
  - apply Forall_app; split; apply u_escape_printable.
Qed.

Lemma dumps_str_printable s : Forall printable (dumps_str s).
Proof.
  unfold dumps_str. case_match; [|constructor].
  assert (printable Byte.x22) by (unfold printable, bZ; simpl; lia).
  apply Forall_app; split; [by constructor|]. apply Forall_app; split; [|by constructor].
  apply Forall_concat, Forall_map, Forall_true. intros c. apply esc_cp_printable.
Qed.

Lemma sep_concat_Forall (P : byte -> Prop) sep l :
  Forall P sep -> Forall (Forall P) l -> Forall P (sep_concat sep l).
Proof.
  intros Hsep. induction 1 as [|x l Hx Hl IH]; [constructor|].
  destruct l; [done|]. simpl in *. by repeat (apply Forall_app; split).
Qed.

Ltac printable_lit := apply (Forall_impl (fun b => in_range 32 126 b = true));
  [by repeat constructor | intros ? ?; unfold printable; by apply in_range_spec].

Lemma dumps_printable isep ksep j :
  Forall printable isep -> Forall printable ksep -> floats_ok j = true ->
  Forall printable (dumps isep ksep j).
Proof.
  intros Hi Hk. induction j as [|b|z|s|s|l IH|o IH] using json_nested_ind; simpl; intros Hf.
  - printable_lit.
  - destruct b; printable_lit.
  - eapply Forall_impl; [apply int_bytes_chars|]. unfold printable. simpl. lia.
  - apply bool_decide_eq_true_1 in Hf. unfold float_text.
    repeat (case_bool_decide; [printable_lit|]). eapply Forall_impl; [exact Hf|].
    intros b. unfold printable. by rewrite in_range_spec.
  - apply dumps_str_printable.
  - constructor; [unfold printable, bZ; simpl; lia|].
    apply Forall_app; split; [|printable_lit]. apply sep_concat_Forall; [done|].
    apply Forall_map, Forall_forall. intros x Hx.
    apply (proj1 (Forall_forall _ _) IH x Hx).
    rewrite forallb_forall in Hf. apply Hf. by apply list_elem_of_In.
  - constructor; [unfold printable, bZ; simpl; lia|].
    apply Forall_app; split; [|printable_lit]. apply sep_concat_Forall; [done|].
    apply Forall_map, Forall_forall. intros kv Hx. simpl.
    apply Forall_app; split; [apply dumps_str_printable|]. apply Forall_app; split; [done|].
    apply (proj1 (Forall_forall _ _) IH kv Hx).
    rewrite forallb_forall in Hf. apply Hf. by apply list_elem_of_In.
Qed.

Lemma printable_no_nl l : Forall printable l -> nl ∉ l.
Proof.
  intros Hl Hin. eapply (proj1 (Forall_forall _ _) Hl) in Hin.
  unfold printable, bZ in Hin. simpl in Hin. lia.
Qed.

Lemma json_dumps_no_nl j : floats_ok j = true -> nl ∉ json_dumps j.
Proof. intros. apply printable_no_nl, dumps_printable; [printable_lit..|done]. Qed.

Lemma json_dumps_compact_no_nl j : floats_ok j = true -> nl ∉ json_dumps_compact j.
Proof. intros. apply printable_no_nl, dumps_printable; [printable_lit..|done]. Qed.

