(* ===== verification/JsonParse.v ===== *)
(** * [json.loads]

    The scanner of the standard library's [json] module on a decoded text (a
    list of code points): white space, literals (with [NaN] and the
    infinities), numbers by the greedy grammar, strings with their escapes and
    surrogate pairs, arrays, and objects whose repeated keys keep the first
    position and the last value.  Every error is a [ValueError].  A number with
    a fraction or an exponent becomes [repr(float(text))], which is a
    parameter; an escape that denotes a lone surrogate is outside the model of
    strings (PyText) and is refused.  The recursion limit is not modelled: the
    fuel is the length of the text, and is always enough.

    [loads_dumps]: reading back what [json.dumps] wrote, with either choice of
    separators, gives the same value. *)
From stdpp Require Import base list strings.
From Stdlib Require Import ZArith Lia Bool.
From Stdlib Require Strings.Byte.
From Stdlib Require Decimal DecimalFacts DecimalN.
From S2P Require Import Prelude PyText Utils Json.

#[local] Open Scope Z_scope.

Class FloatRepr := float_repr : string -> string.

Definition ws (c : Z) : bool := (c =? 32) || (c =? 9) || (c =? 10) || (c =? 13).

Fixpoint skip_ws (cs : list Z) : list Z :=
  match cs with
  | [] => []
  | c :: cs' => if ws c then skip_ws cs' else cs
  end.

Definition hexval (c : Z) : option Z :=
  if (48 <=? c) && (c <=? 57) then Some (c - 48)
  else if (97 <=? c) && (c <=? 102) then Some (c - 87)
  else if (65 <=? c) && (c <=? 70) then Some (c - 55)
  else None.

Definition hex4 (a b c d : Z) : option Z :=
  match hexval a, hexval b, hexval c, hexval d with
  | Some w, Some x, Some y, Some z => Some (((w * 16 + x) * 16 + y) * 16 + z)
  | _, _, _, _ => None
  end.

Definition high_surrogate (u : Z) : bool := (55296 <=? u) && (u <=? 56319).
Definition low_surrogate (u : Z) : bool := (56320 <=? u) && (u <=? 57343).

(** The one-character escapes. *)
Definition simple_escape (e : Z) : option Z :=
  if e =? 34 then Some 34 else if e =? 92 then Some 92 else if e =? 47 then Some 47
  else if e =? 98 then Some 8 else if e =? 102 then Some 12 else if e =? 110 then Some 10
  else if e =? 114 then Some 13 else if e =? 116 then Some 9 else None.

Definition consp (c : Z) (o : option (list Z * list Z)) : option (list Z * list Z) :=
  match o with Some (s, r) => Some (c :: s, r) | None => None end.

(** The text after an opening quote: the characters and what follows the
    closing quote. *)
Fixpoint parse_string (cs : list Z) : option (list Z * list Z) :=
  match cs with
  | [] => None
  | c :: r =>
    if c =? 34 then Some ([], r)
    else if c =? 92 then
      match r with
      | [] => None
      | e :: r1 =>
        if e =? 117 then
          match r1 with
          | h1 :: h2 :: h3 :: h4 :: r2 =>
            match hex4 h1 h2 h3 h4 with
            | None => None
            | Some u =>
              match r2 with
              | b :: x :: l1 :: l2 :: l3 :: l4 :: r3 =>
                match hex4 l1 l2 l3 l4 with
                | Some v =>
                  if high_surrogate u && (b =? 92) && (x =? 117) && low_surrogate v
                  then consp (65536 + (u - 55296) * 1024 + (v - 56320)) (parse_string r3)
                  else consp u (parse_string r2)
                | None => consp u (parse_string r2)
                end
              | _ => consp u (parse_string r2)
              end
            end
          | _ => None
          end
        else match simple_escape e with
             | Some c' => consp c' (parse_string r1)
             | None => None
             end
      end
    else if c <? 32 then None
    else consp c (parse_string r)
  end.

Definition scalar (c : Z) : bool :=
  (0 <=? c) && (c <? 1114112) && negb (high_surrogate c) && negb (low_surrogate c).

Definition str_value (cs : list Z) : option string :=
  if forallb scalar cs then Some (str_of (utf8_encode cs)) else None.

Definition dig (c : Z) : bool := (48 <=? c) && (c <=? 57).

(** The longest prefix of digits. *)
Fixpoint span_digits (cs : list Z) : list Z * list Z :=
  match cs with
  | [] => ([], [])
  | c :: r => if dig c then let '(d, r') := span_digits r in (c :: d, r') else ([], cs)
  end.

Definition text_of (cs : list Z) : bytes := map byte_of_Z cs.

(** The number grammar: an optional minus, [0] or digits without a leading
    zero, then an optional fraction and an optional exponent; an integer has at
    most [sys.int_info]'s 4300 digits. *)
Definition int_part (cs : list Z) : option (list Z * list Z) :=
  let '(sign, r) := match cs with
                    | c :: r => if c =? 45 then ([c], r) else ([], cs)
                    | [] => ([], cs)
                    end in
  match span_digits r with
  | ([], _) => None
  | (d :: ds, r') => if d =? 48 then Some (sign ++ [d], ds ++ r') else Some (sign ++ d :: ds, r')
  end.

Definition frac_part (cs : list Z) : list Z * list Z :=
  match cs with
  | c :: r => if c =? 46 then
                match span_digits r with
                | ([], _) => ([], cs)
                | (ds, r') => (c :: ds, r')
                end
              else ([], cs)
  | [] => ([], cs)
  end.

Definition exp_part (cs : list Z) : list Z * list Z :=
  match cs with
  | c :: r =>
    if (c =? 101) || (c =? 69) then
      let '(sign, r1) := match r with
                         | s :: r1 => if (s =? 43) || (s =? 45) then ([s], r1) else ([], r)
                         | [] => ([], r)
                         end in
      match span_digits r1 with
      | ([], _) => ([], cs)
      | (ds, r') => (c :: sign ++ ds, r')
      end
    else ([], cs)
  | [] => ([], cs)
  end.

Definition max_int_digits : nat := 4300.

Section loads.
Context `{FloatRepr}.

Definition parse_number (cs : list Z) : option (json * list Z) :=
  match int_part cs with
  | None => None
  | Some (ip, r) =>
    let '(fp, r1) := frac_part r in
    let '(ep, r2) := exp_part r1 in
    match fp, ep with
    | [], [] =>
      if (length (filter (fun c => dig c = true) ip) <=? max_int_digits)%nat then
        match parse_int (text_of ip) with Some z => Some (JInt z, r2) | None => None end
      else None
    | _, _ => Some (JFloat (float_repr (str_of (text_of (ip ++ fp ++ ep)))), r2)
    end
  end.

(** The constants, tried by their first character. *)
Definition lit (word : string) (v : json) (cs : list Z) : option (json * list Z) :=
  let w := map bZ (bytes_of word) in
  if bool_decide (take (length w) cs = w) then Some (v, drop (length w) cs) else None.

Fixpoint parse_value (n : nat) (cs : list Z) {struct n} : option (json * list Z) :=
  match n, cs with
  | O, _ | _, [] => None
  | S n', c :: r =>
    if c =? 34 then
      match parse_string r with
      | Some (s, r') => match str_value s with Some s => Some (JStr s, r') | None => None end
      | None => None
      end
    else if c =? 123 then
      match skip_ws r with
      | c' :: r' => if c' =? 125 then Some (JObj [], r') else parse_members n' (c' :: r') []
      | [] => None
      end
    else if c =? 91 then
      match skip_ws r with
      | c' :: r' => if c' =? 93 then Some (JArr [], r') else parse_items n' (c' :: r') []
      | [] => None
      end
    else if c =? 110 then lit "null" JNull cs
    else if c =? 116 then lit "true" (JBool true) cs
    else if c =? 102 then lit "false" (JBool false) cs
    else if c =? 78 then lit "NaN" (JFloat "nan") cs
    else if c =? 73 then lit "Infinity" (JFloat "inf") cs
    else match lit "-Infinity" (JFloat "-inf") cs with
         | Some x => Some x
         | None => parse_number cs
         end
  end

with parse_items (n : nat) (cs : list Z) (acc : list json) {struct n} : option (json * list Z) :=
  match n with
  | O => None
  | S n' =>
    match parse_value n' cs with
    | Some (v, r) =>
      match skip_ws r with
      | c :: r' => if c =? 44 then parse_items n' (skip_ws r') (acc ++ [v])
                   else if c =? 93 then Some (JArr (acc ++ [v]), r') else None
      | [] => None
      end
    | None => None
    end
  end

with parse_members (n : nat) (cs : list Z) (acc : list (string * json)) {struct n}
    : option (json * list Z) :=
  match n, cs with
  | O, _ | _, [] => None
  | S n', q :: r0 =>
    if negb (q =? 34) then None
    else match parse_string r0 with
    | Some (k, r) =>
      match str_value k, skip_ws r with
      | Some k, c :: r1 =>
        if negb (c =? 58) then None
        else match parse_value n' (skip_ws r1) with
        | Some (v, r2) =>
          match skip_ws r2 with
          | c :: r3 => if c =? 44 then parse_members n' (skip_ws r3) (dset k v acc)
                       else if c =? 125 then Some (JObj (dset k v acc), r3) else None
          | [] => None
          end
        | None => None
        end
      | _, _ => None
      end
    | None => None
    end
  end.

(** [json.loads(text)] *)
Definition loads (cs : list Z) : result json :=
  match parse_value (S (length cs)) (skip_ws cs) with
  | Some (v, r) => match skip_ws r with [] => Ok v | _ :: _ => Err ValueError end
  | None => Err ValueError
  end.

(** [json.loads(raw.decode("utf-8"))] *)
Definition loads_bytes (raw : bytes) : result json :=
  match utf8_decode raw with
  | Some cs => loads cs
  | None => Err UnicodeError
  end.

End loads.

(** ** UTF-8: encoding what was decoded *)

Lemma bZ_bound b : 0 <= bZ b < 256.
Proof. unfold bZ. pose proof (Byte.to_N_bounded b). lia. Qed.

Ltac utf8_bounds :=
  repeat match goal with
  | H : _ && _ = true |- _ => apply andb_true_iff in H as [? ?]
  | H : context [if ?c then in_range _ _ _ else _] |- _ => destruct c eqn:?
  | H : cont _ = true |- _ => unfold cont in H
  | H : in_range _ _ _ = true |- _ => apply in_range_spec in H
  | H : in_range _ _ _ = false |- _ => clear H
  | H : (_ =? _) = true |- _ => apply Z.eqb_eq in H
  | H : (_ =? _) = false |- _ => apply Z.eqb_neq in H
  | H : (_ <? _) = true |- _ => apply Z.ltb_lt in H
  | H : (_ <? _) = false |- _ => apply Z.ltb_ge in H
  end.

Lemma scalar_spec c : scalar c = true <-> 0 <= c < 1114112 /\ ~ 55296 <= c <= 57343.
Proof.
  unfold scalar, high_surrogate, low_surrogate.
  rewrite !andb_true_iff, !negb_true_iff, !andb_false_iff, !Z.leb_le, Z.ltb_lt, !Z.leb_gt. lia.
Qed.

Lemma encode2 b0 b1 :
  194 <= bZ b0 <= 223 -> 128 <= bZ b1 <= 191 ->
  let c := (bZ b0 - 192) * 64 + (bZ b1 - 128) in
  scalar c = true /\ utf8_encode_one c = [b0; b1].
Proof.
  intros H0 H1 c. split; [apply scalar_spec; lia|]. unfold utf8_encode_one.
  destruct (Z.ltb_spec c 128); [lia|]. destruct (Z.ltb_spec c 2048); [|lia].
  replace (c / 64) with (bZ b0 - 192) by (Z.to_euclidean_division_equations; lia).
  replace (c mod 64) with (bZ b1 - 128) by (Z.to_euclidean_division_equations; lia).
  rewrite !Z.add_sub_assoc, !(Z.add_comm _ (bZ _)), !Z.add_simpl_r. by rewrite !byte_of_bZ.
Qed.

Lemma encode3 b0 b1 b2 :
  224 <= bZ b0 <= 239 -> 128 <= bZ b1 <= 191 -> 128 <= bZ b2 <= 191 ->
  (bZ b0 = 224 -> 160 <= bZ b1) -> (bZ b0 = 237 -> bZ b1 <= 159) ->
  let c := (bZ b0 - 224) * 4096 + (bZ b1 - 128) * 64 + (bZ b2 - 128) in
  scalar c = true /\ utf8_encode_one c = [b0; b1; b2].
Proof.
  intros H0 H1 H2 Hlo Hhi c. split; [apply scalar_spec; lia|]. unfold utf8_encode_one.
  destruct (Z.ltb_spec c 128); [lia|]. destruct (Z.ltb_spec c 2048); [lia|].
  destruct (Z.ltb_spec c 65536); [|lia].
  replace (c / 4096) with (bZ b0 - 224) by (Z.to_euclidean_division_equations; lia).
  replace (c / 64 mod 64) with (bZ b1 - 128) by (Z.to_euclidean_division_equations; lia).
  replace (c mod 64) with (bZ b2 - 128) by (Z.to_euclidean_division_equations; lia).
  rewrite !Z.add_sub_assoc, !(Z.add_comm _ (bZ _)), !Z.add_simpl_r. by rewrite !byte_of_bZ.
Qed.

Lemma encode4 b0 b1 b2 b3 :
  240 <= bZ b0 <= 244 -> 128 <= bZ b1 <= 191 -> 128 <= bZ b2 <= 191 -> 128 <= bZ b3 <= 191 ->
  (bZ b0 = 240 -> 144 <= bZ b1) -> (bZ b0 = 244 -> bZ b1 <= 143) ->
  let c := (bZ b0 - 240) * 262144 + (bZ b1 - 128) * 4096 + (bZ b2 - 128) * 64 + (bZ b3 - 128) in
  scalar c = true /\ utf8_encode_one c = [b0; b1; b2; b3].
Proof.
  intros H0 H1 H2 H3 Hlo Hhi c. split; [apply scalar_spec; lia|]. unfold utf8_encode_one.
  destruct (Z.ltb_spec c 128); [lia|]. destruct (Z.ltb_spec c 2048); [lia|].
  destruct (Z.ltb_spec c 65536); [lia|].
  replace (c / 262144) with (bZ b0 - 240) by (Z.to_euclidean_division_equations; lia).
  replace (c / 4096 mod 64) with (bZ b1 - 128) by (Z.to_euclidean_division_equations; lia).
  replace (c / 64 mod 64) with (bZ b2 - 128) by (Z.to_euclidean_division_equations; lia).
  replace (c mod 64) with (bZ b3 - 128) by (Z.to_euclidean_division_equations; lia).
  rewrite !Z.add_sub_assoc, !(Z.add_comm _ (bZ _)), !Z.add_simpl_r. by rewrite !byte_of_bZ.
Qed.

Lemma utf8_decode_cons (c : Z) (o : option (list Z)) cs :
  cons c <$> o = Some cs -> exists cs', o = Some cs' /\ cs = c :: cs'.
Proof. destruct o as [l|]; [|done]. intros [= <-]. eauto. Qed.

Lemma utf8_decode_sound l cs :
  utf8_decode l = Some cs -> Forall (fun c => scalar c = true) cs /\ utf8_encode cs = l.
Proof.
  remember (length l) as n eqn:Hn. revert l cs Hn.
  induction (lt_wf n) as [n _ IH]; intros l cs Hn Hd.
  assert (Hstep : forall c pre r cs', l = (pre ++ r)%list -> pre <> [] -> scalar c = true ->
            utf8_encode_one c = pre -> utf8_decode r = Some cs' ->
            cs = c :: cs' -> Forall (fun c => scalar c = true) cs /\ utf8_encode cs = l).
  { intros c pre r cs' Hl Hpre Hs He Hr ->. destruct (IH (length r)) with (l := r) (cs := cs') as [H1 H2]; [|done|done|].
    { subst n l. rewrite length_app. destruct pre; [done|]. simpl. lia. }
    split; [by constructor|]. unfold utf8_encode in *. cbn [map concat]. by rewrite H2, He, Hl. }
  destruct l as [|b0 l1]; [by injection Hd as <-|]. cbn [utf8_decode] in Hd.
  destruct (bZ b0 <? 128) eqn:H0.
  { apply utf8_decode_cons in Hd as (cs' & Hr & ->). apply Z.ltb_lt in H0. pose proof (bZ_bound b0).
    apply (Hstep (bZ b0) [b0] l1 cs'); [done|done|apply scalar_spec; lia| |exact Hr|done].
    unfold utf8_encode_one. destruct (Z.ltb_spec (bZ b0) 128); [by rewrite byte_of_bZ|lia]. }
  destruct l1 as [|b1 l2]; [done|]. destruct (in_range 194 223 b0) eqn:H1.
  { destruct (cont b1) eqn:Hc1; [|done]. apply utf8_decode_cons in Hd as (cs' & Hr & ->). utf8_bounds.
    destruct (encode2 b0 b1) as [Hs He]; [lia..|]. by eapply (Hstep _ [b0; b1] l2). }
  destruct l2 as [|b2 l3]; [done|]. destruct (in_range 224 239 b0) eqn:H2.
  { match type of Hd with context [if ?c then _ else None] => destruct c eqn:Hc; [|done] end.
    apply utf8_decode_cons in Hd as (cs' & Hr & ->). utf8_bounds;
      (destruct (encode3 b0 b1 b2) as [Hs He]; [lia..|]; by eapply (Hstep _ [b0; b1; b2] l3)). }
  destruct l3 as [|b3 l4]; [done|]. destruct (in_range 240 244 b0) eqn:H3; [|done].
  match type of Hd with context [if ?c then _ else None] => destruct c eqn:Hc; [|done] end.
  apply utf8_decode_cons in Hd as (cs' & Hr & ->). utf8_bounds;
    (destruct (encode4 b0 b1 b2 b3) as [Hs He]; [lia..|]; by eapply (Hstep _ [b0; b1; b2; b3] l4)).
Qed.

Lemma str_value_decode s cs :
  utf8_decode (bytes_of s) = Some cs -> str_value cs = Some s.
Proof.
  intros [Hf He]%utf8_decode_sound. unfold str_value.
  rewrite (proj2 (forallb_forall scalar cs)); [by rewrite He, str_of_bytes_of|].
  intros c Hc%list_elem_of_In. by apply (proj1 (Forall_forall _ _) Hf).
Qed.

(** ** Strings *)

Lemma hexval_hexd v : 0 <= v < 16 -> hexval (bZ (hexd v)) = Some v.
Proof.
  intros Hv. unfold hexd. destruct (Z.ltb_spec v 10); rewrite bZ_byte_of_Z by lia; unfold hexval.
  - rewrite (proj2 (Z.leb_le 48 _)), (proj2 (Z.leb_le _ 57)) by lia. cbn [andb]. f_equal. lia.
  - rewrite (proj2 (Z.leb_gt (87 + v) 57)) by lia. rewrite andb_false_r.
    rewrite (proj2 (Z.leb_le 97 _)), (proj2 (Z.leb_le _ 102)) by lia. cbn [andb]. f_equal. lia.
Qed.

Lemma hex4_nibbles c :
  0 <= c < 65536 ->
  hex4 (bZ (hexd (Z.land (Z.shiftr c 12) 15))) (bZ (hexd (Z.land (Z.shiftr c 8) 15)))
       (bZ (hexd (Z.land (Z.shiftr c 4) 15))) (bZ (hexd (Z.land c 15))) = Some c.
Proof.
  intros Hc. unfold hex4. rewrite !hexval_hexd by apply nibble_bound. f_equal.
  change 15 with (Z.ones 4). rewrite !Z.land_ones, !Z.shiftr_div_pow2 by lia.
  change (2 ^ 12) with 4096. change (2 ^ 8) with 256. change (2 ^ 4) with 16.
  Z.to_euclidean_division_equations. lia.
Qed.

Definition cps (b : bytes) : list Z := map bZ b.

Lemma parse_u_escape u rest :
  0 <= u < 65536 -> high_surrogate u = false ->
  parse_string (cps (u_escape u) ++ rest) = consp u (parse_string rest).
Proof.
  intros Hu Hh. unfold u_escape. cbn [cps map app parse_string].
  change (bZ Byte.x5c) with 92. change (bZ Byte.x75) with 117. cbn [Z.eqb Pos.eqb].
  rewrite hex4_nibbles by done. rewrite Hh. cbn [andb].
  destruct rest as [|? [|? [|? [|? [|? [|? ?]]]]]]; try reflexivity. by destruct (hex4 _ _ _ _).
Qed.

Lemma parse_pair u v rest :
  0 <= u < 65536 -> 0 <= v < 65536 -> high_surrogate u = true -> low_surrogate v = true ->
  parse_string (cps (u_escape u ++ u_escape v) ++ rest)
  = consp (65536 + (u - 55296) * 1024 + (v - 56320)) (parse_string rest).
Proof.
  intros Hu Hv Hh Hl. unfold u_escape. cbn [cps map app parse_string].
  change (bZ Byte.x5c) with 92. change (bZ Byte.x75) with 117. cbn [Z.eqb Pos.eqb].
  rewrite !hex4_nibbles by done. by rewrite Hh, Hl.
Qed.

Lemma parse_esc_cp c rest :
  scalar c = true ->
  parse_string (cps (esc_cp c) ++ rest) = consp c (parse_string rest).
Proof.
  intros Hs%scalar_spec. unfold esc_cp.
  repeat (match goal with |- context [if ?x =? ?k then _ else _] =>
    destruct (Z.eqb_spec x k) as [->|?]; [reflexivity|] end).
  destruct ((32 <=? c) && (c <=? 126)) eqn:Hp.
  - apply andb_true_iff in Hp as [H1%Z.leb_le H2%Z.leb_le]. cbn [cps map app parse_string].
    rewrite bZ_byte_of_Z by lia. destruct (Z.eqb_spec c 34), (Z.eqb_spec c 92), (Z.ltb_spec c 32); try lia.
    done.
  - destruct (Z.ltb_spec c 65536).
    + apply parse_u_escape; [lia|]. unfold high_surrogate.
      destruct (Z.leb_spec 55296 c), (Z.leb_spec c 56319); try done; lia.
    + change 1023 with (Z.ones 10). rewrite !Z.land_ones, !Z.shiftr_div_pow2 by lia.
      change (2 ^ 10) with 1024. set (v := c - 65536).
      assert (0 <= v / 1024 < 1024) by (Z.to_euclidean_division_equations; lia).
      assert (0 <= v mod 1024 < 1024) by (Z.to_euclidean_division_equations; lia).
      rewrite (Z.mod_small (v / 1024)) by lia.
      rewrite parse_pair.
      * f_equal. Z.to_euclidean_division_equations; lia.
      * lia.
      * lia.
      * unfold high_surrogate. apply andb_true_iff. rewrite !Z.leb_le. lia.
      * unfold low_surrogate. apply andb_true_iff. rewrite !Z.leb_le. lia.
Qed.

Lemma parse_string_esc cs rest :
  Forall (fun c => scalar c = true) cs ->
  parse_string (cps (concat (map esc_cp cs)) ++ 34 :: rest) = Some (cs, rest).
Proof.
  induction 1 as [|c cs Hc Hcs IH]; [done|]. cbn [map concat]. unfold cps in *.
  rewrite map_app, <- app_assoc. fold (cps (esc_cp c)). rewrite parse_esc_cp by done.
  rewrite IH. done.
Qed.

(** A dumped string, without its opening quote, is read back. *)
Lemma parse_dumps_str s rest :
  utf8_valid (bytes_of s) = true ->
  exists q, cps (dumps_str s) = 34 :: q
    /\ exists cs, parse_string (q ++ rest) = Some (cs, rest) /\ str_value cs = Some s.
Proof.
  intros Hv. unfold dumps_str, utf8_valid in *.
  destruct (utf8_decode (bytes_of s)) as [cs|] eqn:Hd; [|done].
  exists (cps (concat (map esc_cp cs) ++ [Byte.x22])). split; [reflexivity|].
  exists cs. split; [|by apply str_value_decode].
  unfold cps. rewrite map_app, <- app_assoc. apply parse_string_esc.
  by apply utf8_decode_sound in Hd as [? _].
Qed.

(** ** Numbers *)

(** What may follow a number: nothing that would extend it. *)
Definition stops (cs : list Z) : Prop :=
  match cs with
  | [] => True
  | c :: _ => dig c = false /\ c <> 46 /\ c <> 101 /\ c <> 69 /\ c <> 43 /\ c <> 45
  end.

Lemma span_digits_app ds rest :
  Forall (fun c => dig c = true) ds -> stops rest -> span_digits (ds ++ rest) = (ds, rest).
Proof.
  intros Hd Hs. induction Hd as [|c ds Hc Hd IH]; cbn [app span_digits].
  - destruct rest as [|c r]; [done|]. destruct Hs as [Hs _]. cbn [span_digits]. by rewrite Hs.
  - by rewrite Hc, IH.
Qed.

Lemma stops_parts rest : stops rest -> frac_part rest = ([], rest) /\ exp_part rest = ([], rest).
Proof.
  destruct rest as [|c r]; [done|]. intros (_ & H1 & H2 & H3 & _). unfold frac_part, exp_part.
  destruct (Z.eqb_spec c 46), (Z.eqb_spec c 101), (Z.eqb_spec c 69); done.
Qed.

Lemma to_uint_head n u : N.to_uint n = Decimal.D0 u -> u = Decimal.Nil.
Proof.
  intros Hu. pose proof (DecimalN.Unsigned.to_of (N.to_uint n)) as Hn.
  rewrite DecimalN.Unsigned.of_to in Hn. rewrite Hu in Hn. unfold Decimal.unorm in Hn.
  cbn [Decimal.nzhead] in Hn. pose proof (DecimalFacts.nzhead_nonzero u) as Hnz.
  destruct (Decimal.nzhead u) eqn:Hz; try discriminate Hn.
  - by injection Hn.
  - by destruct (Hnz u0).
Qed.

(** The digits of a natural number: nonempty, and no leading zero. *)
Lemma N_bytes_digits n :
  exists d ds, N_bytes n = d :: ds /\ Forall (fun b => in_range 48 57 b = true) (d :: ds)
               /\ (d = Byte.x30 -> ds = []).
Proof.
  unfold N_bytes. pose proof (uint_bytes_digits (N.to_uint n)) as Hd.
  pose proof (N_to_uint_not_nil n) as Hn. pose proof (to_uint_head n) as Hh.
  destruct (N.to_uint n) eqn:Hu; try done; cbn [uint_bytes] in *; do 2 eexists;
    (split; [reflexivity|]); (split; [exact Hd|]); try done.
  intros _. by rewrite (Hh _ eq_refl).
Qed.

Lemma in_range_dig b : in_range 48 57 b = true -> dig (bZ b) = true.
Proof. done. Qed.

Lemma text_of_cps b : text_of (cps b) = b.
Proof. unfold text_of, cps. rewrite map_map. rewrite (map_ext _ id) by apply byte_of_bZ. apply map_id. Qed.

Lemma int_part_N sgn n rest :
  sgn = [] \/ sgn = [45] -> stops rest ->
  int_part (sgn ++ cps (N_bytes n) ++ rest) = Some (sgn ++ cps (N_bytes n), rest).
Proof.
  intros Hsgn Hs. destruct (N_bytes_digits n) as (d & ds & -> & Hd & Hz).
  assert (Hspan : span_digits (cps (d :: ds) ++ rest) = (cps (d :: ds), rest)).
  { apply span_digits_app; [|done]. by apply Forall_map. }
  apply Forall_cons in Hd as [Hd%in_range_spec _].
  assert (Hcore : forall s, match span_digits (cps (d :: ds) ++ rest) with
            | ([], _) => None
            | (x :: xs, r') => if x =? 48 then Some (s ++ [x], xs ++ r') else Some (s ++ x :: xs, r')
            end = Some (s ++ cps (d :: ds), rest)).
  { intros s. rewrite Hspan. cbn [cps map]. destruct (Z.eqb_spec (bZ d) 48) as [He|]; [|done].
    rewrite Hz; [done|]. by rewrite <- (byte_of_bZ d), He. }
  unfold int_part. destruct Hsgn as [->| ->]; cbn [app].
  - cbn [cps map app]. destruct (Z.eqb_spec (bZ d) 45); [lia|]. apply (Hcore []).
  - apply (Hcore [45]).
Qed.

Definition digits_ok (z : Z) : Prop := (length (N_bytes (Z.to_N (Z.abs z))) <= max_int_digits)%nat.

Lemma int_bytes_split z :
  exists sgn, (sgn = [] \/ sgn = [45]) /\ cps (int_bytes z) = sgn ++ cps (N_bytes (Z.to_N (Z.abs z))).
Proof.
  unfold int_bytes. destruct (Z.ltb_spec z 0).
  - exists [45]. split; [by right|]. rewrite Z.abs_neq by lia. done.
  - exists []. split; [by left|]. by rewrite Z.abs_eq by lia.
Qed.

Lemma count_digits sgn b :
  sgn = [] \/ sgn = [45] ->
  (length (filter (fun c => dig c = true) (sgn ++ cps b)) <= length b)%nat.
Proof.
  intros Hs. assert ((length (filter (fun c => dig c = true) (cps b)) <= length b)%nat).
  { etransitivity; [apply length_filter|]. unfold cps. by rewrite length_map. }
  destruct Hs as [->| ->]; cbn [app]; [done|]. by rewrite filter_cons_False.
Qed.

Section roundtrip.
Context `{FloatRepr}.

Lemma parse_number_int z rest :
  digits_ok z -> stops rest -> parse_number (cps (int_bytes z) ++ rest) = Some (JInt z, rest).
Proof.
  intros Hd Hs. destruct (int_bytes_split z) as (sgn & Hsgn & Heq). unfold parse_number.
  rewrite Heq, <- app_assoc, int_part_N by done.
  destruct (stops_parts rest Hs) as [-> ->].
  rewrite (proj2 (Nat.leb_le _ _)).
  - rewrite <- Heq, text_of_cps, parse_int_bytes. done.
  - etransitivity; [by apply count_digits|exact Hd].
Qed.

(** A number token is not affected by a stopping text behind it. *)
Lemma span_ext cs d r rest :
  span_digits cs = (d, r) -> stops rest -> span_digits (cs ++ rest) = (d, r ++ rest).
Proof.
  intros Hs Hr. revert d r Hs. induction cs as [|c cs IH]; cbn [app span_digits]; intros d r Hs.
  - injection Hs as <- <-. apply (span_digits_app [] rest); [constructor|done].
  - destruct (dig c); [|by injection Hs as <- <-].
    destruct (span_digits cs) as [d' r'] eqn:Hc. injection Hs as <- <-. by rewrite (IH _ _ eq_refl).
Qed.

Lemma int_part_ext cs ip r rest :
  int_part cs = Some (ip, r) -> stops rest -> int_part (cs ++ rest) = Some (ip, r ++ rest).
Proof.
  intros Hi Hr. unfold int_part in *. destruct cs as [|c cs]; [done|]. cbn [app].
  destruct (c =? 45).
  - destruct (span_digits cs) as [[|d ds] r'] eqn:Hc; [done|]. rewrite (span_ext _ _ _ _ Hc Hr).
    destruct (d =? 48); injection Hi as <- <-; [by rewrite app_assoc|done].
  - rewrite app_comm_cons.
    destruct (span_digits (c :: cs)) as [[|d ds] r'] eqn:Hc; [done|].
    rewrite (span_ext _ _ _ _ Hc Hr).
    destruct (d =? 48); injection Hi as <- <-; [by rewrite app_assoc|done].
Qed.

Lemma frac_part_ext cs f r rest :
  frac_part cs = (f, r) -> stops rest -> frac_part (cs ++ rest) = (f, r ++ rest).
Proof.
  intros Hf Hr. destruct cs as [|c cs].
  - injection Hf as <- <-. cbn [app]. by apply stops_parts in Hr as [-> _].
  - unfold frac_part in *. cbn [app]. destruct (c =? 46); [|by injection Hf as <- <-].
    destruct (span_digits cs) as [[|d ds] r'] eqn:Hc; rewrite (span_ext _ _ _ _ Hc Hr);
      by injection Hf as <- <-.
Qed.

Lemma exp_part_ext cs e r rest :
  exp_part cs = (e, r) -> stops rest -> exp_part (cs ++ rest) = (e, r ++ rest).
Proof.
  intros He Hr. destruct cs as [|c cs].
  { injection He as <- <-. cbn [app]. by apply stops_parts in Hr as [_ ->]. }
  unfold exp_part in *. cbn [app]. destruct ((c =? 101) || (c =? 69)); [|by injection He as <- <-].
  destruct cs as [|s cs]; cbn [app].
  { cbn [span_digits] in He. injection He as <- <-.
    destruct rest as [|x rest]; [done|]. destruct Hr as (Hd & _ & _ & _ & H1 & H2).
    destruct (Z.eqb_spec x 43), (Z.eqb_spec x 45); try done. cbn [orb span_digits]. by rewrite Hd. }
  destruct ((s =? 43) || (s =? 45)).
  - destruct (span_digits cs) as [[|d ds] r'] eqn:Hc; rewrite (span_ext _ _ _ _ Hc Hr);
      by injection He as <- <-.
  - rewrite app_comm_cons. destruct (span_digits (s :: cs)) as [[|d ds] r'] eqn:Hc;
      rewrite (span_ext _ _ _ _ Hc Hr); by injection He as <- <-.
Qed.

Lemma parse_number_ext cs v rest :
  parse_number cs = Some (v, []) -> stops rest -> parse_number (cs ++ rest) = Some (v, rest).
Proof.
  intros Hp Hr. unfold parse_number in *. destruct (int_part cs) as [[ip r]|] eqn:Hi; [|done].
  rewrite (int_part_ext _ _ _ _ Hi Hr). destruct (frac_part r) as [fp r1] eqn:Hf.
  rewrite (frac_part_ext _ _ _ _ Hf Hr). destruct (exp_part r1) as [ep r2] eqn:He.
  rewrite (exp_part_ext _ _ _ _ He Hr).
  destruct fp, ep; [case_match; [|done]; case_match; [|done]|..]; by injection Hp as <- ->.
Qed.

(** A text that starts a number starts with a digit, or a minus and a digit. *)
Lemma int_part_head cs x :
  int_part cs = Some x ->
  (exists c r, cs = c :: r /\ dig c = true) \/ (exists c r, cs = 45 :: c :: r /\ dig c = true).
Proof.
  unfold int_part. destruct cs as [|c cs]; [done|]. destruct (Z.eqb_spec c 45) as [->|].
  - destruct cs as [|d cs]; [done|]. cbn [span_digits]. destruct (dig d) eqn:Hd; [|done].
    intros _. right. eauto.
  - cbn [span_digits]. destruct (dig c) eqn:Hd; [|done]. intros _. left. eauto.
Qed.

Lemma parse_value_number n cs x :
  parse_number cs = Some x -> parse_value (S n) cs = Some x.
Proof.
  intros Hp. assert (Hi : exists y, int_part cs = Some y).
  { unfold parse_number in Hp. destruct (int_part cs); [eauto|done]. }
  destruct Hi as [y Hi]. apply int_part_head in Hi as [(c & r & -> & Hc)|(c & r & -> & Hc)];
    unfold dig in Hc; apply andb_true_iff in Hc as [H1%Z.leb_le H2%Z.leb_le].
  - cbn [parse_value].
    repeat (match goal with |- context [if c =? ?k then _ else _] =>
      destruct (Z.eqb_spec c k); [lia|] end).
    rewrite Hp. unfold lit. rewrite bool_decide_eq_false_2; [done|]. cbn. intros [= Hx _]. lia.
  - cbn [parse_value]. cbn [Z.eqb Pos.eqb]. rewrite Hp. unfold lit.
    rewrite bool_decide_eq_false_2; [done|]. cbn. intros [= Hx _]. lia.
Qed.

(** ** Values that [json.dumps] writes back and forth *)

Definition float_ok (s : string) : Prop :=
  s ∈ ["nan"; "inf"; "-inf"]%string
  \/ (s ∉ ["nan"; "inf"; "-inf"]%string /\ parse_number (cps (bytes_of s)) = Some (JFloat s, [])).

Fixpoint json_ok (j : json) : Prop :=
  match j with
  | JNull | JBool _ => True
  | JInt z => digits_ok z
  | JFloat s => float_ok s
  | JStr s => utf8_valid (bytes_of s) = true
  | JArr l => fold_right (fun x P => json_ok x /\ P) True l
  | JObj o => NoDup (dkeys o)
      /\ fold_right (fun kv P => (utf8_valid (bytes_of kv.1) = true /\ json_ok kv.2) /\ P) True o
  end.

Lemma fold_right_Forall {A} (P : A -> Prop) l :
  fold_right (fun x Q => P x /\ Q) True l <-> Forall P l.
Proof. induction l as [|x l IH]; cbn [fold_right]; [by split|]. by rewrite IH, Forall_cons. Qed.

Context (isep ksep : bytes) (wi wk : list Z)
  (Hisep : cps isep = 44 :: wi) (Hksep : cps ksep = 58 :: wk)
  (Hwi : Forall (fun c => ws c = true) wi) (Hwk : Forall (fun c => ws c = true) wk).

Abbreviation text j := (cps (dumps isep ksep j)).

Lemma skip_ws_app w cs : Forall (fun c => ws c = true) w -> skip_ws (w ++ cs) = skip_ws cs.
Proof. induction 1 as [|c w Hc Hw IH]; cbn [app skip_ws]; [done|]. by rewrite Hc. Qed.

Lemma skip_ws_cons c cs : ws c = false -> skip_ws (c :: cs) = c :: cs.
Proof. cbn [skip_ws]. by intros ->. Qed.

Lemma cps_app a b : cps (a ++ b) = cps a ++ cps b.
Proof. apply map_app. Qed.

Lemma dumps_str_head s : utf8_valid (bytes_of s) = true -> exists r, cps (dumps_str s) = 34 :: r.
Proof. intros Hs. destruct (parse_dumps_str s [] Hs) as (q & Hq & _). eauto. Qed.

Lemma dig_not_ws c : dig c = true -> ws c = false /\ c <> 93 /\ c <> 125.
Proof.
  unfold dig, ws. intros [H1%Z.leb_le H2%Z.leb_le]%andb_true_iff.
  destruct (Z.eqb_spec c 32), (Z.eqb_spec c 9), (Z.eqb_spec c 10), (Z.eqb_spec c 13); lia || (split; [done|lia]).
Qed.

(** A number token starts with something that is neither space nor bracket. *)
Lemma number_head cs x :
  parse_number cs = Some x -> exists c r, cs = c :: r /\ ws c = false /\ c <> 93 /\ c <> 125.
Proof.
  intros Hp. unfold parse_number in Hp. destruct (int_part cs) as [y|] eqn:Hi; [|done].
  apply int_part_head in Hi as [(c & r & -> & Hc%dig_not_ws)|(c & r & -> & _)]; eauto 10.
Qed.

Lemma text_head j :
  json_ok j -> exists c r, text j = c :: r /\ ws c = false /\ c <> 93 /\ c <> 125.
Proof.
  destruct j as [|[]|z|s|s|l|o]; cbn [json_ok dumps]; intros Hj;
    try (by do 2 eexists; split; [reflexivity|]; split; [reflexivity|]).
  - pose proof (parse_number_int z [] Hj I) as Hp. rewrite app_nil_r in Hp. by apply number_head in Hp.
  - destruct Hj as [Hs|[Hs Hp]].
    + rewrite !elem_of_cons, elem_of_nil in Hs.
      destruct Hs as [->|[->|[->|[]]]]; by do 2 eexists; split; [reflexivity|]; split; [reflexivity|].
    + rewrite !not_elem_of_cons in Hs. destruct Hs as (H1 & H2 & H3 & _). unfold float_text.
      rewrite !bool_decide_eq_false_2 by done. by apply number_head in Hp.
  - destruct (dumps_str_head s Hj) as [r ->]. eexists _, r. split; [done|]. by split.
Qed.

Definition reads_back (j : json) : Prop :=
  forall n rest, (length (text j) < n)%nat -> stops rest ->
  parse_value n (text j ++ rest) = Some (j, rest).

Lemma stops_after rest : stops (44 :: rest) /\ stops (93 :: rest) /\ stops (125 :: rest).
Proof. by repeat split. Qed.

Lemma sep_concat_cons sep x y l : sep_concat sep (x :: y :: l) = x ++ sep ++ sep_concat sep (y :: l).
Proof. done. Qed.

Lemma parse_items_text l : Forall reads_back l -> Forall json_ok l -> forall x n acc rest,
  reads_back x ->
  (length (cps (sep_concat isep (map (dumps isep ksep) (x :: l)))) + 1 < n)%nat ->
  parse_items n (cps (sep_concat isep (map (dumps isep ksep) (x :: l))) ++ 93 :: rest) acc
  = Some (JArr (acc ++ x :: l), rest).
Proof.
  intros Hr Hok. induction l as [|y l IH]; intros x n acc rest Hx Hn.
  - cbn [map sep_concat] in *. destruct n as [|n]; [lia|]. cbn [parse_items].
    rewrite Hx by (try lia; apply (stops_after rest)).
    cbn [skip_ws ws Z.eqb Pos.eqb orb]. done.
  - apply Forall_cons in Hr as [Hy Hr]. apply Forall_cons in Hok as [Hoky Hok].
    cbn [map] in *. rewrite sep_concat_cons, !cps_app, Hisep in *.
    rewrite <- !app_assoc. cbn [app]. destruct n as [|n]; [lia|]. cbn [parse_items].
    rewrite !length_app in Hn. cbn [length] in Hn.
    rewrite Hx by (try lia; apply (stops_after _)).
    cbn [skip_ws]. change (ws 44) with false. cbn [Z.eqb Pos.eqb].
    rewrite skip_ws_app by done.
    destruct (text_head y Hoky) as (c & r & Hc & Hws & _).
    assert (Hhead : exists r', cps (sep_concat isep (dumps isep ksep y :: map (dumps isep ksep) l)) ++ 93 :: rest = c :: r').
    { destruct l as [|z l]; cbn [map sep_concat]; rewrite ?cps_app, Hc; cbn [app]; eauto. }
    destruct Hhead as [r' Hr']. rewrite Hr', skip_ws_cons, <- Hr' by done.
    rewrite (IH Hr Hok) by (done || lia). by rewrite <- app_assoc.
Qed.

Lemma dset_fresh (k : string) (v : json) d : k ∉ dkeys d -> dset k v d = d ++ [(k, v)].
Proof.
  intros Hk%dget_None_keys. induction d as [|[k' v'] d IH]; cbn [dget dset app] in *; [done|].
  case_decide; [done|]. by rewrite IH.
Qed.

Abbreviation member := (fun kv : string * json => dumps_str kv.1 ++ ksep ++ dumps isep ksep kv.2).

(** One member: the key, the colon and the value are consumed together. *)
Lemma parse_member kv n rest acc :
  utf8_valid (bytes_of kv.1) = true -> json_ok kv.2 -> reads_back kv.2 ->
  (length (cps (member kv)) < n)%nat -> stops rest ->
  kv.1 ∉ dkeys acc ->
  parse_members (S n) (cps (member kv) ++ rest) acc =
  match skip_ws rest with
  | c :: r3 => if c =? 44 then parse_members n (skip_ws r3) (acc ++ [kv])
               else if c =? 125 then Some (JObj (acc ++ [kv]), r3) else None
  | [] => None
  end.
Proof.
  intros Hk Hv Hr Hn Hs Hnew. cbv beta in Hn |- *. rewrite !cps_app, Hksep in Hn |- *.
  rewrite !length_app in Hn. cbn [length] in Hn.
  destruct (parse_dumps_str kv.1 (58 :: wk ++ text kv.2 ++ rest) Hk) as (q & Hq & cs & Hp & Hcs).
  assert (Heq : (cps (dumps_str kv.1) ++ (58 :: wk) ++ text kv.2) ++ rest
                = 34 :: (q ++ 58 :: wk ++ text kv.2 ++ rest)).
  { rewrite Hq. cbn [app]. by rewrite <- !app_assoc, <- app_comm_cons, <- app_assoc. }
  rewrite Heq. cbn [parse_members Z.eqb Pos.eqb negb]. rewrite Hp, Hcs.
  cbn [skip_ws]. change (ws 58) with false. cbn [Z.eqb Pos.eqb negb].
  rewrite skip_ws_app by done. destruct (text_head kv.2 Hv) as (c & r & Hc & Hws & _).
  assert (Hsk : skip_ws (text kv.2 ++ rest) = text kv.2 ++ rest).
  { rewrite Hc. cbn [app]. by apply skip_ws_cons. }
  rewrite Hsk, Hr by (done || lia). rewrite dset_fresh by done. by destruct kv.
Qed.

Lemma parse_members_text o :
  Forall (fun kv => utf8_valid (bytes_of kv.1) = true /\ json_ok kv.2) o ->
  Forall (fun kv => reads_back kv.2) o -> forall x n acc rest,
  utf8_valid (bytes_of x.1) = true -> json_ok x.2 -> reads_back x.2 ->
  NoDup (dkeys (acc ++ x :: o)) ->
  (length (cps (sep_concat isep (map member (x :: o)))) + 1 < n)%nat ->
  parse_members n (cps (sep_concat isep (map member (x :: o))) ++ 125 :: rest) acc
  = Some (JObj (acc ++ x :: o), rest).
Proof.
  intros Hok Hr. induction o as [|y o IH]; intros x n acc rest Hk Hv Hx Hnd Hn.
  - cbn [map sep_concat] in *. destruct n as [|n]; [lia|].
    rewrite parse_member; [done|done..|lia|apply (stops_after rest)|].
    unfold dkeys in *. rewrite map_app in Hnd. apply NoDup_app in Hnd as (_ & Hd & _).
    intros Hin. apply (Hd _ Hin). left.
  - apply Forall_cons in Hok as [[Hky Hvy] Hok]. apply Forall_cons in Hr as [Hy Hr].
    cbn [map] in *. rewrite sep_concat_cons, !cps_app, Hisep in *. rewrite !length_app in Hn.
    cbn [length] in Hn. rewrite <- !cps_app in *.
    destruct n as [|n]; [lia|]. rewrite <- app_assoc. cbn [app].
    rewrite <- app_assoc.
    rewrite parse_member; [|done..|rewrite !cps_app, !length_app in *; lia|apply (stops_after _)|].
    + cbn [skip_ws]. change (ws 44) with false. cbn [Z.eqb Pos.eqb]. rewrite skip_ws_app by done.
      destruct (dumps_str_head y.1 Hky) as [r Hc].
      assert (Hhead : exists r', cps (sep_concat isep (member y :: map member o)) ++ 125 :: rest = 34 :: r').
      { destruct o as [|z o]; cbn [map sep_concat]; rewrite !cps_app, Hc; cbn [app]; eauto. }
      destruct Hhead as [r' Hr']. rewrite Hr', skip_ws_cons, <- Hr' by done.
      rewrite (IH Hok Hr); [by rewrite <- app_assoc|done..| |lia].
      by rewrite <- app_assoc.
    + unfold dkeys in *. rewrite map_app in Hnd. apply NoDup_app in Hnd as (_ & Hd & _).
      intros Hin. apply (Hd _ Hin). left.
Qed.

Lemma arr_reads_back l : Forall json_ok l -> Forall reads_back l -> reads_back (JArr l).
Proof.
  intros Hj Hr n rest Hn Hs. destruct n as [|n]; [lia|]. cbn [dumps] in *.
  rewrite !cps_app in Hn |- *.
  change (cps [Byte.x5b]) with [91] in *. change (cps [Byte.x5d]) with [93] in *.
  rewrite !length_app in Hn. cbn [length] in Hn. rewrite <- !app_assoc.
  cbn [app parse_value Z.eqb Pos.eqb].
  destruct l as [|x l]; [reflexivity|]. apply Forall_cons in Hr as [Hx Hr].
  apply Forall_cons in Hj as [Hjx Hj].
  destruct (text_head x Hjx) as (c & r & Hc & Hws & H93 & _).
  assert (Hhead : exists r', cps (sep_concat isep (map (dumps isep ksep) (x :: l))) ++ 93 :: rest = c :: r').
  { destruct l as [|y l]; cbn [map sep_concat]; rewrite ?cps_app, Hc; cbn [app]; eauto. }
  destruct Hhead as [r' Hr']. rewrite Hr', skip_ws_cons by done.
  destruct (Z.eqb_spec c 93); [done|]. rewrite <- Hr'. by apply (parse_items_text l); [..|lia].
Qed.

Lemma obj_reads_back o :
  NoDup (dkeys o) -> Forall (fun kv => utf8_valid (bytes_of kv.1) = true /\ json_ok kv.2) o ->
  Forall (fun kv => reads_back kv.2) o -> reads_back (JObj o).
Proof.
  intros Hnd Hj Hr n rest Hn Hs. destruct n as [|n]; [lia|]. cbn [dumps] in *.
  rewrite !cps_app in Hn |- *.
  change (cps [Byte.x7b]) with [123] in *. change (cps [Byte.x7d]) with [125] in *.
  rewrite !length_app in Hn. cbn [length] in Hn. rewrite <- !app_assoc.
  cbn [app parse_value Z.eqb Pos.eqb].
  destruct o as [|x o]; [reflexivity|]. apply Forall_cons in Hr as [Hx Hr].
  apply Forall_cons in Hj as [[Hkx Hjx] Hj].
  destruct (dumps_str_head x.1 Hkx) as [r Hc].
  assert (Hhead : exists r', cps (sep_concat isep (map member (x :: o))) ++ 125 :: rest = 34 :: r').
  { destruct o as [|y o]; cbn [map sep_concat]; rewrite !cps_app, Hc; cbn [app]; eauto. }
  destruct Hhead as [r' Hr']. rewrite Hr', skip_ws_cons by done.
  cbn [Z.eqb Pos.eqb]. rewrite <- Hr'. by apply (parse_members_text o); [..|lia].
Qed.

Lemma dumps_reads_back j : json_ok j -> reads_back j.
Proof.
  induction j as [|b|z|s|s|l IH|o IH] using json_nested_ind; cbn [json_ok]; intros Hj.
  6: { apply fold_right_Forall in Hj. apply arr_reads_back; [done|].
       eapply Forall_impl; [apply Forall_and; split; [exact IH|exact Hj]|]. intros x []. auto. }
  6: { destruct Hj as [Hnd Hj]. apply fold_right_Forall in Hj. apply obj_reads_back; [done..|].
       eapply Forall_impl; [apply Forall_and; split; [exact IH|exact Hj]|]. intros x [? []]. auto. }
  all: intros n rest Hn Hs; (destruct n as [|n]; [lia|]).
  - reflexivity.
  - by destruct b.
  - apply parse_value_number, parse_number_int; done.
  - cbn [dumps] in *. destruct Hj as [Hf|[Hf Hp]].
    + rewrite !elem_of_cons, elem_of_nil in Hf. by destruct Hf as [->|[->|[->|[]]]].
    + rewrite !not_elem_of_cons in Hf. destruct Hf as (H1 & H2 & H3 & _). unfold float_text.
      rewrite !bool_decide_eq_false_2 by done. by apply parse_value_number, parse_number_ext.
  - cbn [dumps]. destruct (parse_dumps_str s rest Hj) as (q & -> & cs & Hp & Hcs).
    cbn [app parse_value Z.eqb Pos.eqb]. by rewrite Hp, Hcs.
Qed.

Lemma loads_dumps_gen j : json_ok j -> loads (text j) = Ok j.
Proof.
  intros Hj. unfold loads. destruct (text_head j Hj) as (c & r & Hc & Hws & _).
  rewrite Hc, skip_ws_cons, <- Hc by done. rewrite <- (app_nil_r (text j)) at 2.
  by rewrite dumps_reads_back by (done || lia).
Qed.

(** A newline behind the value does not matter. *)
Lemma loads_line_gen j : json_ok j -> loads (text j ++ [10]) = Ok j.
Proof.
  intros Hj. unfold loads. destruct (text_head j Hj) as (c & r & Hc & Hws & _).
  rewrite Hc. cbn [app]. rewrite skip_ws_cons by done. change (c :: r ++ [10]) with ((c :: r) ++ [10]). rewrite <- Hc.
  rewrite dumps_reads_back; [done|done|rewrite length_app; lia|done].
Qed.
End roundtrip.

(** [json.loads(json.dumps(v)) == v], with the default separators. *)
Lemma loads_dumps `{FloatRepr} j : json_ok j -> loads (cps (json_dumps j)) = Ok j.
Proof.
  apply (loads_dumps_gen _ _ [32] [32]); [reflexivity..|by repeat constructor|by repeat constructor].
Qed.

Lemma loads_dumps_compact `{FloatRepr} j : json_ok j -> loads (cps (json_dumps_compact j)) = Ok j.
Proof. apply (loads_dumps_gen _ _ [] []); [reflexivity..|constructor|constructor]. Qed.

(** Printable text decodes to itself. *)
Lemma decode_printable b : Forall printable b -> utf8_decode b = Some (cps b).
Proof.
  induction 1 as [|x b Hx Hb IH]; [done|]. cbn [utf8_decode]. unfold printable in Hx.
  destruct (Z.ltb_spec (bZ x) 128); [|lia]. by rewrite IH.
Qed.

Lemma loads_bytes_dumps `{FloatRepr} j :
  json_ok j -> floats_ok j = true -> loads_bytes (json_dumps j) = Ok j.
Proof.
  intros Hj Hf. unfold loads_bytes.
  rewrite decode_printable by (apply dumps_printable; [printable_lit..|done]). by apply loads_dumps.
Qed.

(** A line of a file that holds one value. *)
Lemma loads_bytes_line `{FloatRepr} j :
  json_ok j -> floats_ok j = true ->
  loads_bytes (json_dumps j ++ [Byte.x0a]) = Ok j /\ loads_bytes (json_dumps_compact j ++ [Byte.x0a]) = Ok j.
Proof.
  intros Hj Hf. assert (Hd : forall b, Forall printable b -> utf8_decode (b ++ [Byte.x0a]) = Some (cps b ++ [10])).
  { induction 1 as [|x b Hx Hb IH]; [done|]. cbn [utf8_decode app cps map]. unfold printable in Hx.
    destruct (Z.ltb_spec (bZ x) 128); [|lia]. by rewrite IH. }
  unfold loads_bytes. split; rewrite Hd by (apply dumps_printable; [printable_lit..|done]).
  - apply (loads_line_gen _ _ [32] [32]); [reflexivity..|by repeat constructor|by repeat constructor|done].
  - apply (loads_line_gen _ _ [] []); [reflexivity..|constructor|constructor|done].
Qed.

#[local] Instance demo_floats : FloatRepr := fun s => s.
Definition demo_json : json :=
  JObj [("a", JArr [JInt (-12); JFloat "1.5e-07"; JNull; JBool true]);
        ("b\c", JObj []); ("q", JStr "say é 😀"); ("n", JFloat "nan")]%string.

Example demo_json_roundtrip : loads_bytes (json_dumps demo_json) = Ok demo_json.
Proof. vm_compute. reflexivity. Qed.
