(* ===== verification/QueueFiles.v ===== *)
(** * Durable queue: keys, framing and streamed scans ([queue_manager.py], part 1)

    The byte-level layer of the on-disk queue: which worker keys are accepted
    and how they are bounded, how a log is cut into newline-terminated records,
    and the two streamed scans (last complete line, newline count) with their
    equivalence to the whole-file definitions. *)
From stdpp Require Import base list gmap strings sorting.
From Stdlib Require Import ZArith Lia.
From S2P Require Import Prelude PyText Sha256 Utils.

(** ** Worker keys *)

Definition QUEUE_FILENAME_NAME_MAX : Z := 255.
(** [".offset." + "0" * 32 + ".tmp"] is 44 bytes *)
Definition _MAX_SUFFIX_BYTES : Z := 8 + 32 + 4.
Definition _MAX_KEY_BYTES : Z := QUEUE_FILENAME_NAME_MAX - _MAX_SUFFIX_BYTES.

Definition fold_worker_key (key : string) : string := fold_name key _MAX_KEY_BYTES.

(** No control character: category [Cc] is U+0000..U+001F and U+007F..U+009F
    (the latter two-byte sequences 0xC2 0x80..0x9F in UTF-8). *)
Fixpoint no_controls (l : bytes) : bool :=
  match l with
  | [] => true
  | b :: l' =>
    negb ((bZ b <? 32)%Z || (bZ b =? 127)%Z)
    && negb ((bZ b =? 194)%Z && match l' with b' :: _ => in_range 128 159 b' | [] => false end)
    && no_controls l'
  end.

Definition _is_safe_session_component (value : string) : bool :=
  negb (bool_decide (value = "" \/ value = "." \/ value = ".."))
  && negb (bool_decide (Byte.x2f ∈ bytes_of value))
  && negb (bool_decide (Byte.x5c ∈ bytes_of value))
  && no_controls (bytes_of value).

Definition is_safe_session_id (session_id : string) : bool :=
  _is_safe_session_component session_id
  && (Z.of_nat (String.length session_id) <=? _MAX_KEY_BYTES)%Z.

(** [_validate_session_id]: [true] when it returns, [false] when it raises
    [ValueError] (too long, or unsafe). *)
Definition _validate_session_id (session_id : string) : bool :=
  (Z.of_nat (String.length session_id) <=? _MAX_KEY_BYTES)%Z && is_safe_session_id session_id.

Definition _log_path (k : string) : string := k +:+ ".log".
Definition _offset_path (k : string) : string := k +:+ ".offset".
Definition _dead_path (k : string) : string := k +:+ ".dead.jsonl".
(** the per-call temporary of [commit]; [uuid] is [uuid4().hex], 32 characters *)
Definition _tmp_path (k uuid : string) : string := k +:+ ".offset." +:+ uuid +:+ ".tmp".

(** ** Records in a byte stream *)

(** [f.readline()]: the bytes up to and including the next newline (or the
    whole rest when there is none), and what follows. *)
Fixpoint readline (data : bytes) : bytes * bytes :=
  match data with
  | [] => ([], [])
  | b :: r => if decide (b = nl) then ([b], r)
              else let '(l, rest) := readline r in (b :: l, rest)
  end.

Record LogRecord := MkRecord { raw : bytes; rec_start : Z; rec_end : Z }.

Record Batch := MkBatch {
  batch_session : string;
  records : list LogRecord;
  start_offset : Z;
  end_offset : Z;
}.

(** [raw.endswith(b"\n")] *)
Definition ends_nl (l : bytes) : bool :=
  match last l with Some b => bool_decide (b = nl) | None => false end.
(** [raw[:-1]] *)
Definition chop (l : bytes) : bytes := take (length l - 1) l.

(** The [while len(records) < max_items] loop of [read_batch]: [pos] is
    [start + consumed], [data] what the file holds from there. *)
Fixpoint read_loop (max_items : nat) (pos : Z) (data : bytes) : list LogRecord * Z :=
  match max_items with
  | O => ([], pos)
  | S m =>
    let '(line, rest) := readline data in
    if ends_nl line then
      let pos' := (pos + Z.of_nat (length line))%Z in
      let '(rs, e) := read_loop m pos' rest in
      (MkRecord (chop line) pos pos' :: rs, e)
    else ([], pos)
  end.

(** One event is one newline-terminated byte range. *)
Definition frame (r : bytes) : bytes := r ++ [nl].
Definition encode (rs : list bytes) : bytes := concat (map frame rs).

Definition framed (r : bytes) : Prop := nl ∉ r.

Lemma encode_app a b : encode (a ++ b) = encode a ++ encode b.
Proof. unfold encode. by rewrite map_app, concat_app. Qed.

Lemma readline_frame r l : framed r -> readline (frame r ++ l) = (frame r, l).
Proof.
  unfold framed, frame. induction r as [|b r IH]; simpl; intros Hr; [done|].
  rewrite not_elem_of_cons in Hr. destruct Hr as [Hb Hr].
  rewrite decide_False by congruence. by rewrite IH.
Qed.

Lemma readline_torn t : framed t -> readline t = (t, []).
Proof.
  unfold framed. induction t as [|b t IH]; simpl; intros Ht; [done|].
  rewrite not_elem_of_cons in Ht. destruct Ht as [Hb Ht].
  rewrite decide_False by congruence. by rewrite IH.
Qed.

Lemma ends_nl_frame r : ends_nl (frame r) = true.
Proof. unfold ends_nl, frame. by rewrite last_snoc. Qed.

Lemma ends_nl_framed t : framed t -> ends_nl t = false.
Proof.
  unfold framed, ends_nl. intros Ht. destruct (last t) as [b|] eqn:Hb; [|done].
  apply last_Some_elem_of in Hb. apply bool_decide_eq_false_2. congruence.
Qed.

Lemma chop_frame r : chop (frame r) = r.
Proof. unfold chop, frame. rewrite length_app. simpl. rewrite Nat.add_sub. apply take_app_length. Qed.

(** Positions of consecutive records. *)
Fixpoint mk_records (pos : Z) (rs : list bytes) : list LogRecord :=
  match rs with
  | [] => []
  | r :: rs =>
    let pos' := (pos + Z.of_nat (length (frame r)))%Z in
    MkRecord r pos pos' :: mk_records pos' rs
  end.

(** Reading [n] records from a well-framed stream (with a possibly torn,
    newline-free tail) yields the first [n] records with their byte ranges and
    stops on a record boundary. *)
Lemma read_loop_encode n pos rs t :
  Forall framed rs -> framed t ->
  read_loop n pos (encode rs ++ t)
  = (mk_records pos (take n rs), (pos + Z.of_nat (length (encode (take n rs))))%Z).
Proof.
  intros Hrs Ht. revert pos rs Hrs. induction n as [|n IH]; intros pos rs Hrs.
  { simpl. f_equal. lia. }
  destruct Hrs as [|r rs Hr Hrs]; cbn [read_loop].
  - simpl. rewrite readline_torn, ends_nl_framed by done. f_equal. simpl. lia.
  - unfold encode at 1. simpl. rewrite <- app_assoc, readline_frame by done.
    rewrite ends_nl_frame. fold (encode rs). rewrite IH by done. simpl.
    rewrite chop_frame. f_equal. unfold encode at 2. simpl. rewrite length_app.
    fold (encode (take n rs)). lia.
Qed.

(** ** [_last_complete_end]: backward chunked scan *)

(** [buf.rfind(b"\n")] *)
Fixpoint rfind_nl (l : bytes) : option nat :=
  match l with
  | [] => None
  | b :: l => match rfind_nl l with
              | Some i => Some (S i)
              | None => if decide (b = nl) then Some 0 else None
              end
  end.

Definition _SCAN_CHUNK_BYTES : nat := Z.to_nat (Z.shiftl 1 20).

(** The [while pos > 0] loop, newest bytes first; [pos] strictly decreases, so
    [pos] itself is enough fuel. *)
Fixpoint scan_back (fuel chunk : nat) (data : bytes) (pos : nat) : nat :=
  match fuel with
  | O => 0
  | S fuel =>
    if decide (pos = 0) then 0
    else
      let read_size := min chunk pos in
      let pos' := pos - read_size in
      let buf := take read_size (drop pos' data) in
      match rfind_nl buf with
      | Some idx => pos' + idx + 1
      | None => scan_back fuel chunk data pos'
      end
  end.

Definition _last_complete_end (file : option bytes) : nat :=
  match file with
  | None => 0
  | Some data => scan_back (length data) _SCAN_CHUNK_BYTES data (length data)
  end.

(** The whole-file definition: one past the last newline. *)
Definition complete_end (data : bytes) : nat :=
  match rfind_nl data with Some i => i + 1 | None => 0 end.

Lemma rfind_nl_None l : rfind_nl l = None <-> framed l.
Proof.
  unfold framed. induction l as [|b l IH]; simpl.
  - split; [intros _; apply not_elem_of_nil|done].
  - rewrite not_elem_of_cons. destruct (rfind_nl l); [naive_solver|].
    case_decide; naive_solver.
Qed.

Lemma rfind_nl_app a b :
  rfind_nl (a ++ b)
  = match rfind_nl b with Some i => Some (length a + i) | None => rfind_nl a end.
Proof.
  induction a as [|x a IH]; simpl; [by destruct (rfind_nl b)|].
  rewrite IH. by destruct (rfind_nl b).
Qed.

Lemma scan_back_take fuel chunk data pos :
  0 < chunk -> pos <= fuel -> pos <= length data ->
  scan_back fuel chunk data pos = complete_end (take pos data).
Proof.
  intros Hc. revert pos. induction fuel as [|fuel IH]; intros pos Hf Hd; cbn [scan_back].
  { assert (pos = 0) as -> by lia. done. }
  destruct (decide (pos = 0)) as [->|Hp]; [done|].
  set (pos' := pos - min chunk pos).
  assert (Htake : take pos data = take pos' data ++ take (min chunk pos) (drop pos' data)).
  { rewrite <- (take_drop pos' (take pos data)) at 1. f_equal.
    - rewrite take_take. f_equal. lia.
    - rewrite skipn_firstn_comm. f_equal. lia. }
  unfold complete_end. rewrite Htake, rfind_nl_app.
  destruct (rfind_nl (take (min chunk pos) (drop pos' data))) as [i|] eqn:Hi.
  - rewrite length_take. lia.
  - rewrite IH by lia. done.
Qed.

(** The backward chunked scan that finds the end of the complete data of
    a log or dead-letter file returns, for every file, the position just past
    the last newline of the whole file (0 when there is none or no file). *)
Theorem last_complete_end_equiv (file : option bytes) :
  _last_complete_end file = complete_end (match file with Some d => d | None => [] end).
Proof.
  destruct file as [data|]; [|done]. unfold _last_complete_end.
  rewrite scan_back_take; [by rewrite firstn_all| |lia|lia].
  unfold _SCAN_CHUNK_BYTES. rewrite Z.shiftl_mul_pow2 by lia. lia.
Qed.

(** ** [_stream_newlines]: forward chunked count *)

Fixpoint count_nl (l : bytes) : nat :=
  match l with
  | [] => 0
  | b :: l => (if decide (b = nl) then 1 else 0) + count_nl l
  end.

Lemma count_nl_app a b : count_nl (a ++ b) = count_nl a + count_nl b.
Proof. induction a as [|x a IH]; simpl; [done|]. rewrite IH. lia. Qed.

(** The read loop on the bytes after the seek; every non-final read consumes at
    least one byte, so the number of bytes plus one is enough fuel. *)
Fixpoint count_loop (fuel chunk : nat) (rest : bytes) (remaining : option nat) (count : nat) : nat :=
  match fuel with
  | O => count
  | S fuel =>
    let to_read := match remaining with None => chunk | Some r => min chunk r end in
    if decide (to_read = 0) then count
    else
      let buf := take to_read rest in
      if decide (length buf = 0) then count
      else count_loop fuel chunk (drop to_read rest)
             (match remaining with None => None | Some r => Some (r - length buf) end)
             (count + count_nl buf)
  end.

(** [end=None] counts to the end of the file; a negative seek is an [OSError]. *)
Definition _stream_newlines (file : option bytes) (start : Z) (stop : option Z) : result nat :=
  match stop with
  | Some e => if (e <=? start)%Z then Ok 0 else
      match file with
      | None => Ok 0
      | Some data =>
        if (start <? 0)%Z then Err OSError
        else let rest := drop (Z.to_nat start) data in
             Ok (count_loop (S (length rest)) _SCAN_CHUNK_BYTES rest (Some (Z.to_nat (e - start))) 0)
      end
  | None =>
      match file with
      | None => Ok 0
      | Some data =>
        if (start <? 0)%Z then Err OSError
        else let rest := drop (Z.to_nat start) data in
             Ok (count_loop (S (length rest)) _SCAN_CHUNK_BYTES rest None 0)
      end
  end.

Lemma count_loop_spec fuel chunk rest remaining c :
  0 < chunk -> length rest < fuel ->
  count_loop fuel chunk rest remaining c
  = c + count_nl (match remaining with None => rest | Some r => take r rest end).
Proof.
  intros Hc. revert rest remaining c.
  induction fuel as [|fuel IH]; intros rest remaining c Hf; cbn [count_loop]; [lia|].
  set (n := match remaining with None => chunk | Some r => min chunk r end).
  destruct (decide (n = 0)) as [Hn|Hn].
  { destruct remaining as [r|]; [|lia]. assert (r = 0) as -> by lia.
    rewrite take_0. simpl. lia. }
  destruct (decide (length (take n rest) = 0)) as [Hz|Hz].
  { rewrite length_take in Hz. assert (length rest = 0) as Hr by lia.
    apply length_zero_iff_nil in Hr as ->. destruct remaining; rewrite ?take_nil; simpl; lia. }
  rewrite length_take in Hz. rewrite IH by (rewrite length_drop; lia).
  rewrite length_take. destruct remaining as [r|].
  - rewrite <- (take_drop n (take r rest)), count_nl_app, take_take, skipn_firstn_comm.
    replace (min n r) with n by lia.
    destruct (decide (n <= length rest)).
    + replace (min n (length rest)) with n by lia. lia.
    + rewrite drop_ge by lia. rewrite !take_nil. simpl. lia.
  - rewrite <- (take_drop n rest) at 3. rewrite count_nl_app. lia.
Qed.

Lemma chunk_pos : 0 < _SCAN_CHUNK_BYTES.
Proof. unfold _SCAN_CHUNK_BYTES. rewrite Z.shiftl_mul_pow2 by lia. lia. Qed.

(** The streamed newline count over a byte range equals the number of
    newlines of that slice of the file, for every existing file and every
    non-negative start (only a corrupt offset file can give a negative one). *)
Theorem stream_newlines_equiv (data : bytes) (start : Z) (stop : option Z) :
  (0 <= start)%Z ->
  _stream_newlines (Some data) start stop
  = Ok (count_nl (match stop with
                  | Some e => take (Z.to_nat (e - start)) (drop (Z.to_nat start) data)
                  | None => drop (Z.to_nat start) data end)).
Proof.
  intros Hs. unfold _stream_newlines. destruct (Z.ltb_spec start 0); [lia|].
  destruct stop as [e|].
  - destruct (Z.leb_spec e start).
    + replace (Z.to_nat (e - start)) with 0 by lia. by rewrite take_0.
    + rewrite count_loop_spec; [done|apply chunk_pos|lia].
  - rewrite count_loop_spec; [done|apply chunk_pos|lia].
Qed.

Lemma stream_newlines_equiv_witness :
  _stream_newlines (Some (encode [[Byte.x61]; [Byte.x62]; [Byte.x63]])) 2 (Some 6%Z) = Ok 2.
Proof. rewrite (stream_newlines_equiv _ 2 (Some 6%Z)); [reflexivity|lia]. Defined.

Lemma count_nl_framed r : framed r -> count_nl r = 0.
Proof.
  unfold framed. induction r as [|b r IH]; simpl; intros Hr; [done|].
  rewrite not_elem_of_cons in Hr. destruct Hr. rewrite decide_False by congruence. auto.
Qed.

Lemma count_nl_encode rs : Forall framed rs -> count_nl (encode rs) = length rs.
Proof.
  induction 1 as [|r rs Hr _ IH]; [done|]. unfold encode, frame in *. simpl.
  rewrite !count_nl_app, count_nl_framed, IH by done. simpl. done.
Qed.

Lemma complete_end_encode rs t :
  framed t -> complete_end (encode rs ++ t) = length (encode rs).
Proof.
  intros Ht. unfold complete_end. rewrite rfind_nl_app, (proj2 (rfind_nl_None t) Ht).
  destruct rs as [|r rs _] using rev_ind; [done|].
  rewrite encode_app. unfold encode at 2 4. simpl. rewrite app_nil_r. unfold frame.
  rewrite app_assoc, rfind_nl_app, !length_app. simpl. lia.
Qed.

(** Every byte string is a sequence of complete records followed by a torn,
    newline-free tail. *)
Fixpoint split_lines (data : bytes) : list bytes * bytes :=
  match data with
  | [] => ([], [])
  | b :: data =>
    let '(rs, t) := split_lines data in
    if decide (b = nl) then ([] :: rs, t)
    else match rs with
         | [] => ([], b :: t)
         | r :: rs => ((b :: r) :: rs, t)
         end
  end.

Lemma split_lines_spec data :
  let '(rs, t) := split_lines data in
  data = encode rs ++ t /\ Forall framed rs /\ framed t.
Proof.
  induction data as [|b data IH]; simpl.
  { split; [done|]. split; [constructor|apply not_elem_of_nil]. }
  destruct (split_lines data) as [rs t]. destruct IH as (-> & Hrs & Ht).
  case_decide as Hb.
  - subst b. split; [done|]. split; [|done]. constructor; [apply not_elem_of_nil|done].
  - destruct rs as [|r rs]; simpl.
    + split; [done|]. split; [constructor|]. unfold framed. rewrite not_elem_of_cons. done.
    + apply Forall_cons in Hrs as [Hr Hrs]. split; [done|]. split; [|done].
      constructor; [|done]. unfold framed in *. rewrite not_elem_of_cons. done.
Qed.
