(* ===== verification/QueueManager.v ===== *)
(** * Durable queue: operations ([queue_manager.py], part 2)

    The queue directory is a map from file name to content.  An operation is
    state passing over it.  What the operating system may do to a write (short
    writes, a zero-byte write, an error after part of the data) is an explicit
    script, so the theorems hold for every such behaviour. *)
From stdpp Require Import base list gmap strings sorting.
From Stdlib Require Import ZArith Lia.
From S2P Require Import Prelude PyText Sha256 Utils Json QueueFiles.

Abbreviation dir := (gmap string (list Byte.byte)).

(** ** Writing one record *)

(** The outcome of one [os.write] call. *)
Inductive write_result := Wrote (n : nat) | WriteErr.

(** [_write_all]: loop over short writes.  Returns what reached the file, the
    result and the unused outcomes.  When the script is exhausted the rest of
    the data is written in one call. *)
Fixpoint _write_all (os : list write_result) (data : bytes)
    : bytes * result unit * list write_result :=
  match data with
  | [] => ([], Ok tt, os)
  | _ =>
    match os with
    | [] => (data, Ok tt, [])
    | WriteErr :: os => ([], Err OSError, os)
    | Wrote n :: os =>
      if decide (n = 0) then ([], Err OSError, os)
      else let '(w, r, os') := _write_all os (drop n data) in (take n data ++ w, r, os')
    end
  end.

(** [_discard_partial]: terminate the fragment; a failure here is only logged. *)
Definition _discard_partial (os : list write_result) : bytes :=
  fst (fst (_write_all os [nl])).

Record write_script := WriteScript { open_ok : bool; writes : list write_result }.

Definition file_content (d : dir) (path : string) : bytes :=
  match d !! path with Some b => b | None => [] end.

(** [_write_record]: [O_CREAT | O_APPEND], then the record. *)
Definition _write_record (path : string) (line : bytes) (sc : write_script) : M dir unit :=
  fun d =>
    if open_ok sc then
      let old := file_content d path in
      let '(w, r, os) := _write_all (writes sc) line in
      match r with
      | Ok _ => (Ok tt, <[path := old ++ w]> d)
      | Err e => (Err e, <[path := old ++ w ++ _discard_partial os]> d)
      end
    else (Err OSError, d).

Definition append (session_id : string) (raw : bytes) (sc : write_script) : M dir unit :=
  if _validate_session_id session_id then
    let line := if ends_nl raw then raw else frame raw in
    _write_record (_log_path session_id) line sc
  else mraise ValueError.

(** ** Offsets *)

Definition _read_committed_offset (session_id : string) (d : dir) : result Z :=
  match d !! _offset_path session_id with
  | None => Ok 0%Z
  | Some content =>
    match utf8_decode content with
    | None => Err ValueError
    | Some _ =>
      let text := bytes_of (py_strip (str_of content)) in
      match text with
      | [] => Ok 0%Z
      | _ => match parse_int text with Some z => Ok z | None => Err ValueError end
      end
    end
  end.

(** Where a [commit] stops: at no point, or with an exception in the write of
    the temporary or in the rename; in both cases the temporary is unlinked,
    unless that fails too. *)
Inductive commit_script :=
  | CommitOk
  | CommitFails (e : exn) (tmp_written : option bytes) (unlinked : bool).

Definition commit (session_id : string) (new_offset : Z) (uuid : string) (sc : commit_script)
    : M dir unit :=
  if _validate_session_id session_id then
    fun d =>
      match sc with
      | CommitOk => (Ok tt, <[_offset_path session_id := int_bytes new_offset]> d)
      | CommitFails e w unlinked =>
        (Err e, match w, unlinked with
                | Some b, false => <[_tmp_path session_id uuid := b]> d
                | _, _ => d
                end)
      end
  else mraise ValueError.

(** ** Reading *)

Definition read_batch (session_id : string) (max_items : nat) (d : dir) : result Batch :=
  if _validate_session_id session_id then
    match _read_committed_offset session_id d with
    | Err e => Err e
    | Ok start =>
      match d !! _log_path session_id with
      | None => Ok (MkBatch session_id [] start start)
      | Some data =>
        if (start <? 0)%Z then Err OSError
        else let '(rs, e) := read_loop max_items start (drop (Z.to_nat start) data) in
             Ok (MkBatch session_id rs start e)
      end
    end
  else Err ValueError.

Definition _complete_data_end (session_id : string) (d : dir) : Z :=
  Z.of_nat (_last_complete_end (d !! _log_path session_id)).

Definition _count_newlines (session_id : string) (start : Z) (stop : option Z) (d : dir)
    : result nat :=
  _stream_newlines (d !! _log_path session_id) start stop.

Definition _count_dead (worker_key : string) (d : dir) : result nat :=
  _stream_newlines (d !! _dead_path worker_key) 0 None.

Definition pending_of (session_id : string) (d : dir) : result nat :=
  match _read_committed_offset session_id d with
  | Err e => Err e
  | Ok committed => _count_newlines session_id committed (Some (_complete_data_end session_id d)) d
  end.

Definition pending_count (session_id : string) (d : dir) : result nat :=
  if _validate_session_id session_id then pending_of session_id d else Err ValueError.

(** ** Dead letters *)

Definition b64_digit (v : Z) : byte :=
  if (v <? 26)%Z then byte_of_Z (65 + v)
  else if (v <? 52)%Z then byte_of_Z (71 + v)
  else if (v <? 62)%Z then byte_of_Z (v - 4)
  else if (v =? 62)%Z then Byte.x2b else Byte.x2f.

Fixpoint b64encode (l : bytes) : bytes :=
  match l with
  | a :: b :: c :: l =>
    b64_digit (Z.shiftr (bZ a) 2)
      :: b64_digit (Z.land (bZ a) 3 * 16 + Z.shiftr (bZ b) 4)
      :: b64_digit (Z.land (bZ b) 15 * 4 + Z.shiftr (bZ c) 6)
      :: b64_digit (Z.land (bZ c) 63) :: b64encode l
  | [a; b] =>
    [b64_digit (Z.shiftr (bZ a) 2); b64_digit (Z.land (bZ a) 3 * 16 + Z.shiftr (bZ b) 4);
     b64_digit (Z.land (bZ b) 15 * 4); Byte.x3d]
  | [a] => [b64_digit (Z.shiftr (bZ a) 2); b64_digit (Z.land (bZ a) 3 * 16); Byte.x3d; Byte.x3d]
  | [] => []
  end.

(** The JSON record: [ts] is [repr(time.time())], [error] the exception text. *)
Definition dead_record (ts error : string) (raw : bytes) : json :=
  let payload := if ends_nl raw then chop raw else raw in
  JObj [("ts", JFloat ts); ("error", JStr error);
        if utf8_valid payload then ("payload", JStr (str_of payload))
        else ("payload_b64", JStr (str_of (b64encode payload)))].

Definition dead_letter (session_id : string) (raw : bytes) (ts error : string) (sc : write_script)
    : M dir unit :=
  if _validate_session_id session_id then
    _write_record (_dead_path session_id) (frame (json_dumps (dead_record ts error raw))) sc
  else mraise ValueError.

Definition purge_dead_letters (worker_key : string) : M dir nat :=
  if _validate_session_id worker_key then
    fun d => match _count_dead worker_key d with
             | Ok c => (Ok c, delete (_dead_path worker_key) d)
             | Err e => (Err e, d)
             end
  else mraise ValueError.

(** ** Deleting *)

(** What the operating system does to the two [unlink] calls: nothing is refused; the
    first call fails; the first succeeds and the second fails. *)
Inductive unlink_script := UnlinkOk | UnlinkNothing | UnlinkFirst.

(** The log is removed before its offset. *)
Definition delete_drained (session_id : string) (sc : unlink_script) : M dir bool :=
  if _validate_session_id session_id then
    fun d =>
      match d !! _log_path session_id with
      | None =>
        match sc with
        | UnlinkNothing => (Err OSError, d)
        | _ => (Ok true, delete (_offset_path session_id) d)
        end
      | Some data =>
        match _read_committed_offset session_id d with
        | Err e => (Err e, d)
        | Ok committed =>
          if (committed <? Z.of_nat (length data))%Z then (Ok false, d)
          else match sc with
               | UnlinkOk => (Ok true, delete (_offset_path session_id) (delete (_log_path session_id) d))
               | UnlinkNothing => (Err OSError, d)
               | UnlinkFirst => (Err OSError, delete (_log_path session_id) d)
               end
        end
      end
  else mraise ValueError.

Definition delete_session (session_id : string) : M dir bool :=
  if _validate_session_id session_id then
    fun d =>
      match pending_of session_id d with
      | Err e => (Err e, d)
      | Ok (S _) => (Err RuntimeError, d)
      | Ok O =>
        let paths := [_log_path session_id; _offset_path session_id; _dead_path session_id] in
        (Ok (existsb (fun p => bool_decide (is_Some (d !! p))) paths),
         foldl (fun d p => delete p d) d paths)
      end
  else mraise ValueError.

(** ** Directory scans *)

Definition dir_names (d : dir) : list string := map fst (map_to_list d).

(** [Path(name).stem] for a name with the [.log] suffix *)
Definition log_stem (name : string) : string :=
  if decide (name = ".log") then name else drop_suffix 4 name.

Definition log_files (d : dir) : list string :=
  base.filter (fun n => str_ends_with ".log" n = true) (dir_names d).
Definition dead_files (d : dir) : list string :=
  base.filter (fun n => str_ends_with ".dead.jsonl" n = true) (dir_names d).

(** [sorted(keys)] of the union of the two stem sets *)
Definition _all_worker_keys (d : dir) : list string :=
  py_sorted (remove_dups (map log_stem (log_files d) ++ map (drop_suffix 11) (dead_files d))).

(** A per-key failure ([OSError] or [ValueError]) is logged and skipped. *)
Definition active_sessions (d : dir) : list string :=
  omap (fun log =>
    let session_id := log_stem log in
    match _read_committed_offset session_id d with
    | Ok c => if (c <? Z.of_nat (length (file_content d log)))%Z then Some session_id else None
    | Err _ => None
    end) (py_sorted (log_files d)).

Definition recover (d : dir) : list string :=
  omap (fun log =>
    let session_id := log_stem log in
    if _validate_session_id session_id then
      match _read_committed_offset session_id d with
      | Ok c => if (c <? _complete_data_end session_id d)%Z then Some session_id else None
      | Err _ => None
      end
    else None) (py_sorted (log_files d)).

(** [has_pending_records]: any failure counts as pending (fails closed). *)
Fixpoint has_pending_in (keys : list string) (d : dir) : bool :=
  match keys with
  | [] => false
  | key :: keys =>
    match _read_committed_offset key d with
    | Err _ => true
    | Ok committed =>
      let complete_end := _complete_data_end key d in
      if (committed <? 0)%Z || (complete_end <? committed)%Z then true
      else if (committed <? complete_end)%Z then true
      else has_pending_in keys d
    end
  end.

Definition _pending_worker_keys (d : dir) : list string :=
  py_sorted (remove_dups
    (omap (fun n => if str_ends_with ".dead.jsonl" n then Some (drop_suffix 11 n)
                    else if str_ends_with ".log" n then Some (drop_suffix 4 n)
                    else None) (dir_names d))).

Definition has_pending_records (d : dir) : bool := has_pending_in (_pending_worker_keys d) d.

(** [recovery_seed_counts]: [(accepted_seed, written_seed)] *)
Definition seed_one (d : dir) (acc : Z * Z) (key : string) : Z * Z :=
  if _is_safe_session_component key then
    match _read_committed_offset key d with
    | Err _ => acc
    | Ok committed =>
      match _count_dead key d, _count_newlines key 0 (Some committed) d,
            _count_newlines key committed (Some (_complete_data_end key d)) d with
      | Ok dead, Ok before, Ok pending =>
        let written_seed := Z.max 0 (Z.of_nat before - Z.of_nat dead) in
        (acc.1 + written_seed + Z.of_nat pending + Z.of_nat dead, acc.2 + written_seed)%Z
      | _, _, _ => acc
      end
    end
  else acc.

Definition recovery_seed_counts (d : dir) : Z * Z :=
  fold_left (seed_one d) (_all_worker_keys d) (0, 0)%Z.

(** The first loop of [reclaim_drained_orphans]; a per-key failure is logged
    and skipped. *)
Fixpoint reclaim_keys (unlinks : string -> unlink_script) (keys : list string) (acc : Z * Z) (d : dir) : (Z * Z) * dir :=
  match keys with
  | [] => (acc, d)
  | key :: keys =>
    let size := Z.of_nat (length (file_content d (_log_path key))) in
    match delete_drained key (unlinks key) d with
    | (Ok true, d') =>
      reclaim_keys unlinks keys (if (size =? 0)%Z then acc else (acc.1 + 1, acc.2 + size)%Z) d'
    | (_, d') => reclaim_keys unlinks keys acc d'
    end
  end.

(** [glob("*.offset.*.tmp")] *)
Definition is_offset_tmp (name : string) : bool :=
  str_ends_with ".tmp" name
  && contains (bytes_of ".offset.") (bytes_of (drop_suffix 4 name)).

(** Its second loop: unlink the temporaries that are [stale] (older than
    [_ORPHAN_TMP_MAX_AGE_S] by their modification time). *)
Definition sweep_tmps (stale : string -> bool) (d : dir) : dir :=
  foldl (fun d name => if is_offset_tmp name && stale name then delete name d else d)
    d (dir_names d).

Definition reclaim_drained_orphans (unlinks : string -> unlink_script) (stale : string -> bool) (d : dir) : (Z * Z) * dir :=
  let '(acc, d) := reclaim_keys unlinks (_all_worker_keys d) (0, 0)%Z d in
  (acc, sweep_tmps stale d).
