(* ===== verification/QueueSpec.v ===== *)
(** * Durable queue: specification and refinement

    The abstract queue of one worker key is the list of records ever appended
    and the number acknowledged.  The files of [QueueManager] implement it:
    [append] enqueues, [read_batch] returns the next unacknowledged records,
    [commit] acknowledges a prefix, [delete_drained] forgets a fully
    acknowledged queue, and no write failure ever removes or alters a record
    that was already complete. *)
From stdpp Require Import base list gmap strings sorting.
From Stdlib Require Import ZArith Lia.
From S2P Require Import Prelude PyText Sha256 Utils Json QueueFiles QueueManager.

(** ** [int(str(z).strip())] *)

Lemma utf8_decode_ascii l :
  Forall (fun b => (bZ b < 128)%Z) l -> utf8_decode l = Some (map bZ l).
Proof.
  induction 1 as [|b l Hb _ IH]; [done|]. cbn [utf8_decode map].
  destruct (Z.ltb_spec (bZ b) 128); [|lia]. by rewrite IH.
Qed.

Lemma utf8_encode_ascii l :
  Forall (fun b => (bZ b < 128)%Z) l -> utf8_encode (map bZ l) = l.
Proof.
  unfold utf8_encode. induction 1 as [|b l Hb _ IH]; [done|]. simpl. rewrite IH.
  unfold utf8_encode_one. destruct (Z.ltb_spec (bZ b) 128); [|lia]. by rewrite byte_of_bZ.
Qed.

Lemma lstrip_id cs : Forall (fun c => py_isspace c = false) cs -> lstrip cs = cs.
Proof. destruct 1 as [|c cs Hc _]; simpl; [done|]. by rewrite Hc. Qed.

Definition plain_ascii (b : byte) : Prop := (bZ b < 128)%Z /\ py_isspace (bZ b) = false.

Lemma py_strip_plain l : Forall plain_ascii l -> py_strip (str_of l) = str_of l.
Proof.
  intros Hl. unfold py_strip. rewrite bytes_of_str_of.
  assert (Ha : Forall (fun b => (bZ b < 128)%Z) l) by (eapply Forall_impl; [exact Hl|by intros ? []]).
  assert (Hs : Forall (fun c => py_isspace c = false) (map bZ l)).
  { apply Forall_map. eapply Forall_impl; [exact Hl|by intros ? []]. }
  rewrite (utf8_decode_ascii _ Ha), (lstrip_id _ Hs).
  rewrite lstrip_id by (by apply Forall_rev). rewrite rev_involutive.
  by rewrite utf8_encode_ascii.
Qed.

Lemma int_bytes_plain z : Forall plain_ascii (int_bytes z).
Proof.
  eapply Forall_impl; [apply int_bytes_chars|]. intros b Hb; cbv beta in Hb. split; [lia|].
  unfold py_isspace. apply not_true_iff_false. intros Ht.
  rewrite !orb_true_iff, !andb_true_iff, !Z.leb_le, !Z.eqb_eq in Ht. lia.
Qed.

Lemma int_bytes_not_nil z : int_bytes z <> [].
Proof. intros H. assert (Hp := parse_int_bytes z). by rewrite H in Hp. Qed.

(** A committed offset is read back exactly. *)
Lemma read_committed_insert k z d :
  _read_committed_offset k (<[_offset_path k := int_bytes z]> d) = Ok z.
Proof.
  unfold _read_committed_offset. rewrite lookup_insert_eq.
  assert (Ha : Forall (fun b => (bZ b < 128)%Z) (int_bytes z)).
  { eapply Forall_impl; [apply int_bytes_plain|by intros ? []]. }
  rewrite (utf8_decode_ascii _ Ha).
  rewrite py_strip_plain, bytes_of_str_of by apply int_bytes_plain.
  destruct (int_bytes z) as [|b l] eqn:Hz; [by apply int_bytes_not_nil in Hz|].
  rewrite <- Hz, parse_int_bytes. done.
Qed.

(** ** Paths of one key do not collide *)

Create HintDb queue.

Lemma app_str_inj_l (k s t : string) : k +:+ s = k +:+ t -> s = t.
Proof. induction k as [|a k IH]; simpl; [done|]. intros [= H]. auto. Qed.

Lemma log_offset_ne k : _log_path k <> _offset_path k.
Proof. intros H%app_str_inj_l. discriminate. Qed.
Lemma log_dead_ne k : _log_path k <> _dead_path k.
Proof. intros H%app_str_inj_l. discriminate. Qed.
Lemma offset_dead_ne k : _offset_path k <> _dead_path k.
Proof. intros H%app_str_inj_l. discriminate. Qed.
Lemma log_tmp_ne k u : _log_path k <> _tmp_path k u.
Proof. intros H%app_str_inj_l. discriminate. Qed.
Lemma offset_tmp_ne k u : _offset_path k <> _tmp_path k u.
Proof. intros H%app_str_inj_l. discriminate. Qed.

#[export] Hint Resolve log_offset_ne log_dead_ne offset_dead_ne log_tmp_ne offset_tmp_ne
  not_eq_sym : queue.

Lemma read_committed_other k p b d :
  p <> _offset_path k -> _read_committed_offset k (<[p := b]> d) = _read_committed_offset k d.
Proof. intros. unfold _read_committed_offset. by rewrite lookup_insert_ne by congruence. Qed.

Lemma file_content_insert_eq p b d : file_content (<[p := b]> d) p = b.
Proof. unfold file_content. by rewrite lookup_insert_eq. Qed.

Lemma file_content_insert_ne p q b d :
  p <> q -> file_content (<[p := b]> d) q = file_content d q.
Proof. intros. unfold file_content. by rewrite lookup_insert_ne. Qed.

(** ** Writing never removes a complete record *)

Lemma write_all_prefix os data :
  let '(w, r, _) := _write_all os data in
  w `prefix_of` data /\ (r = Ok tt <-> w = data) /\ (forall e, r = Err e -> e = OSError).
Proof.
  revert data. induction os as [|o os IH]; intros data.
  { destruct data; simpl; split; try done; reflexivity. }
  destruct data as [|b data']; [by simpl|]. cbn [_write_all]. set (data := b :: data').
  assert (Hfail : [] `prefix_of` data /\ (Err OSError = Ok tt <-> [] = data)
                  /\ (forall e, @Err unit OSError = Err e -> e = OSError)).
  { split; [apply prefix_nil|]. split; [done|]. by intros e [= <-]. }
  destruct o as [n|]; [|done]. case_decide; [done|].
  specialize (IH (drop n data)). destruct (_write_all os (drop n data)) as [[w r] os'].
  destruct IH as (Hp & Hok & He). split; [|split; [|done]].
  - rewrite <- (take_drop n data) at 2. by apply prefix_app.
  - rewrite Hok. split; [by intros ->; rewrite take_drop|]. intros Hw.
    rewrite <- (take_drop n data) in Hw at 2. by simplify_list_eq.
Qed.

Lemma discard_partial_shape os : _discard_partial os = [] \/ _discard_partial os = [nl].
Proof.
  unfold _discard_partial. pose proof (write_all_prefix os [nl]) as H.
  destruct (_write_all os [nl]) as [[w r] os']. destruct H as [[x Hx] _]. simpl.
  destruct w as [|b w]; [by left|]. right.
  simplify_list_eq. destruct w; [done|]. simplify_list_eq.
Qed.

(** The three outcomes of [_write_record]: everything, nothing, or a strict
    prefix of the record, perhaps closed by a newline. *)
Lemma write_record_shape path line sc d r d' :
  _write_record path line sc d = (r, d') ->
  (r = Ok tt /\ d' = <[path := file_content d path ++ line]> d)
  \/ (r = Err OSError /\ d' = d)
  \/ (r = Err OSError /\ exists w t, w `prefix_of` line /\ w <> line /\ (t = [] \/ t = [nl])
      /\ d' = <[path := file_content d path ++ w ++ t]> d).
Proof.
  unfold _write_record. destruct (open_ok sc); [|intros; simplify_eq; auto].
  pose proof (write_all_prefix (writes sc) line) as H.
  destruct (_write_all (writes sc) line) as [[w r0] os]. destruct H as (Hp & Hok & He).
  destruct r0 as [[]|e]; intros; simplify_eq.
  - left. by rewrite (proj1 Hok).
  - right. right. rewrite (He e) by done. split; [done|].
    exists w, (_discard_partial os). split; [done|].
    split; [by intros ?%Hok|]. split; [apply discard_partial_shape|done].
Qed.

(** Whatever the operating system does to the writes of an append (short
    writes, zero-byte writes, errors at any point), the log file only grows by
    a suffix, every other file of the directory is untouched, and a reported
    success means exactly the newline-terminated record was added. *)
Theorem append_is_append_only (k : string) (data : bytes) (sc : write_script) (d : dir) :
  let '(r, d') := append k data sc d in
  (exists sfx, file_content d' (_log_path k) = file_content d (_log_path k) ++ sfx)
  /\ (forall p, p <> _log_path k -> d' !! p = d !! p)
  /\ (r = Ok tt ->
      d' !! _log_path k
      = Some (file_content d (_log_path k) ++ (if ends_nl data then data else frame data))).
Proof.
  unfold append. destruct (_validate_session_id k).
  - destruct (_write_record _ _ sc d) as [r d'] eqn:Hw.
    apply write_record_shape in Hw as [[-> ->]|[[-> ->]|(-> & w & t & _ & _ & _ & ->)]].
    + rewrite file_content_insert_eq. split; [eauto|]. split; [|by rewrite lookup_insert_eq].
      intros p Hp. by rewrite lookup_insert_ne.
    + split; [exists []; by rewrite app_nil_r|]. by split.
    + rewrite file_content_insert_eq. split; [eauto|]. split; [|done].
      intros p Hp. by rewrite lookup_insert_ne.
  - simpl. split; [exists []; by rewrite app_nil_r|]. by split.
Qed.

(** ** The abstract queue *)

Record aqueue := AQ { q_all : list bytes; q_done : nat }.

Definition q_position (q : aqueue) (n : nat) : Z :=
  Z.of_nat (length (encode (take n (q_all q)))).

(** [d] implements queue [q] for key [k]; [torn] is the newline-free fragment
    an interrupted append may have left at the end of the log. *)
Record implements (k : string) (d : dir) (q : aqueue) (torn : bytes) : Prop := {
  impl_log : file_content d (_log_path k) = encode (q_all q) ++ torn;
  impl_offset : _read_committed_offset k d = Ok (q_position q (q_done q));
  impl_framed : Forall framed (q_all q);
  impl_torn : framed torn;
  impl_done : q_done q <= length (q_all q);
}.

Definition enqueue (q : aqueue) (r : bytes) : aqueue := AQ (q_all q ++ [r]) (q_done q).
Definition next (q : aqueue) (n : nat) : list bytes := take n (drop (q_done q) (q_all q)).
Definition acknowledge (q : aqueue) (n : nat) : aqueue := AQ (q_all q) (q_done q + n).
Definition q_pending (q : aqueue) : nat := length (q_all q) - q_done q.

Lemma q_position_app q r n :
  n <= length (q_all q) -> q_position (enqueue q r) n = q_position q n.
Proof. intros Hn. unfold q_position. simpl. by rewrite take_app_le. Qed.

Lemma drop_position q torn :
  q_done q <= length (q_all q) ->
  drop (Z.to_nat (q_position q (q_done q))) (encode (q_all q) ++ torn)
  = encode (drop (q_done q) (q_all q)) ++ torn.
Proof.
  intros Hd. unfold q_position. rewrite Nat2Z.id.
  rewrite <- (take_drop (q_done q) (q_all q)) at 2. rewrite encode_app, <- app_assoc.
  apply drop_app_length.
Qed.

Lemma q_position_add q n :
  q_position q (q_done q + n)
  = (q_position q (q_done q) + Z.of_nat (length (encode (next q n))))%Z.
Proof.
  unfold q_position, next.
  rewrite <- (take_drop (q_done q) (take (q_done q + n) (q_all q))).
  rewrite take_take, skipn_firstn_comm, encode_app, length_app.
  replace (min (q_done q) (q_done q + n)) with (q_done q) by lia.
  replace (q_done q + n - q_done q) with n by lia. lia.
Qed.

Lemma q_position_nonneg q n : (0 <= q_position q n)%Z.
Proof. unfold q_position. lia. Qed.

Lemma next_length q n : length (next q n) = min n (q_pending q).
Proof. unfold next, q_pending. by rewrite length_take, length_drop. Qed.

Lemma encode_snoc rs r : encode (rs ++ [r]) = encode rs ++ r ++ [nl].
Proof. rewrite encode_app. unfold encode at 2. simpl. by rewrite app_nil_r. Qed.

Lemma framed_app a b : framed (a ++ b) <-> framed a /\ framed b.
Proof. unfold framed. rewrite not_elem_of_app. done. Qed.

Lemma framed_prefix w r : w `prefix_of` r -> framed r -> framed w.
Proof. intros [x ->]. rewrite framed_app. tauto. Qed.

Lemma prefix_frame_strict w r : w `prefix_of` frame r -> w <> frame r -> w `prefix_of` r.
Proof.
  unfold frame. intros [x Hx] Hne. destruct x as [|b x _] using rev_ind.
  - rewrite app_nil_r in Hx. congruence.
  - rewrite app_assoc in Hx. apply app_inj_tail in Hx as [-> _]. by exists x.
Qed.

(** A log that has grown by complete records keeps the committed position. *)
Lemma implements_grow k d q torn recs torn' :
  implements k d q torn -> Forall framed recs -> framed torn' ->
  forall content, content = encode (q_all q ++ recs) ++ torn' ->
  implements k (<[_log_path k := content]> d) (AQ (q_all q ++ recs) (q_done q)) torn'.
Proof.
  intros [Hl Ho Hf Ht Hd] Hr Ht' content ->. split; simpl.
  - by rewrite file_content_insert_eq.
  - rewrite read_committed_other by auto with queue. rewrite Ho. f_equal.
    unfold q_position; simpl. by rewrite take_app_le.
  - by apply Forall_app.
  - done.
  - rewrite length_app. lia.
Qed.

(** ** Refinement *)

Lemma append_enqueues k d q torn r sc :
  implements k d q torn -> _validate_session_id k = true -> framed r ->
  match append k r sc d with
  | (Ok _, d') => implements k d' (enqueue q (torn ++ r)) []
  | (Err e, d') => e = OSError /\ exists recs torn',
      implements k d' (AQ (q_all q ++ recs) (q_done q)) torn'
      /\ (recs = [] \/ exists w, w `prefix_of` r /\ recs = [torn ++ w])
  end.
Proof.
  intros Hq Hk Hr. unfold append. rewrite Hk, ends_nl_framed by done.
  assert (Htorn := impl_torn _ _ _ _ Hq).
  destruct (_write_record _ _ sc d) as [res d'] eqn:Hw.
  apply write_record_shape in Hw as [[-> ->]|[[-> ->]|(-> & w & t & Hp & Hne & Hc & ->)]].
  - eapply implements_grow; [done| | |].
    + repeat constructor. by apply framed_app.
    + apply not_elem_of_nil.
    + rewrite (impl_log _ _ _ _ Hq), encode_snoc. unfold frame. by rewrite app_nil_r, <- !app_assoc.
  - split; [done|]. exists [], torn. rewrite app_nil_r. destruct q. eauto.
  - split; [done|]. apply prefix_frame_strict in Hp; [|done].
    assert (Hfw : framed (torn ++ w)) by (apply framed_app; eauto using framed_prefix).
    destruct Hc as [-> | ->].
    + exists [], (torn ++ w). split; [|by left].
      eapply implements_grow; [done|constructor|done|].
      by rewrite (impl_log _ _ _ _ Hq), !app_nil_r, <- app_assoc.
    + exists [torn ++ w], []. split; [|right; eauto].
      eapply implements_grow; [done|by repeat constructor|apply not_elem_of_nil|].
      by rewrite (impl_log _ _ _ _ Hq), encode_snoc, app_nil_r, <- !app_assoc.
Qed.

(** C6: refinement of [append].  From a log that implements [q], a successful
    append enqueues exactly the given record at the end (glued to the torn
    fragment of an interrupted earlier append, if there is one); a failed
    append keeps every record and the committed position, and adds at most one
    record, a prefix of the data, so framing survives every write failure. *)
Theorem append_refines k d q torn r sc :
  implements k d q torn -> _validate_session_id k = true -> framed r ->
  match append k r sc d with
  | (Ok _, d') => implements k d' (enqueue q (torn ++ r)) []
  | (Err e, d') => e = OSError /\ exists recs torn',
      implements k d' (AQ (q_all q ++ recs) (q_done q)) torn'
      /\ (recs = [] \/ exists w, w `prefix_of` r /\ recs = [torn ++ w])
  end.
Proof. apply append_enqueues. Qed.

Lemma implements_missing k d q torn :
  implements k d q torn -> d !! _log_path k = None -> q = AQ [] 0 /\ torn = [].
Proof.
  intros [Hl Ho Hf Ht Hd] Hn. unfold file_content in Hl. rewrite Hn in Hl.
  symmetry in Hl. apply app_nil in Hl as [He ->]. split; [|done].
  destruct q as [[|a l] n]; simpl in *; [f_equal; lia|].
  unfold encode in He. simpl in He. apply app_nil in He as [He _].
  unfold frame in He. by apply app_nil in He as [_ He].
Qed.

Lemma read_batch_next k d q torn n :
  implements k d q torn -> _validate_session_id k = true ->
  read_batch k n d
  = Ok (MkBatch k (mk_records (q_position q (q_done q)) (next q n))
          (q_position q (q_done q)) (q_position q (q_done q + n))).
Proof.
  intros Hq Hk. unfold read_batch. rewrite Hk, (impl_offset _ _ _ _ Hq).
  destruct (d !! _log_path k) as [data|] eqn:Hl.
  - assert (Hd := impl_log _ _ _ _ Hq). unfold file_content in Hd. rewrite Hl in Hd. subst data.
    destruct (Z.ltb_spec (q_position q (q_done q)) 0) as [Hneg|_].
    { pose proof (q_position_nonneg q (q_done q)). lia. }
    rewrite drop_position by apply Hq. rewrite read_loop_encode.
    + by rewrite q_position_add.
    + apply Forall_drop, Hq.
    + apply Hq.
  - destruct (implements_missing _ _ _ _ Hq Hl) as [-> ->]. unfold next, q_position; simpl.
    by rewrite !take_nil.
Qed.

(** Refinement of [read_batch].  A batch of at most [n] holds exactly the
    next unacknowledged records, in append order, each with its own byte range;
    a torn tail is never returned, and [end_offset] is the position right
    after the last returned record. *)
Theorem read_batch_refines k d q torn n :
  implements k d q torn -> _validate_session_id k = true ->
  read_batch k n d
  = Ok (MkBatch k (mk_records (q_position q (q_done q)) (next q n))
          (q_position q (q_done q)) (q_position q (q_done q + n))).
Proof. apply read_batch_next. Qed.

Lemma implements_same k d d' q torn :
  d' !! _log_path k = d !! _log_path k -> d' !! _offset_path k = d !! _offset_path k ->
  implements k d q torn -> implements k d' q torn.
Proof.
  intros Hl Ho []. split; try done.
  - unfold file_content in *. by rewrite Hl.
  - unfold _read_committed_offset in *. by rewrite Ho.
Qed.

Lemma commit_acknowledges k d q torn n u sc :
  implements k d q torn -> _validate_session_id k = true -> n <= q_pending q ->
  match commit k (q_position q (q_done q + n)) u sc d with
  | (Ok _, d') => implements k d' (acknowledge q n) torn
  | (Err _, d') => implements k d' q torn
  end.
Proof.
  intros Hq Hk Hn. unfold commit. rewrite Hk.
  destruct sc as [|e [b|] [|]]; try done.
  - destruct Hq as [Hl Ho Hf Ht Hd]. split; simpl; try done.
    + by rewrite file_content_insert_ne by auto with queue.
    + apply read_committed_insert.
    + unfold q_pending in Hn. lia.
  - eapply implements_same; [..|done]; by rewrite lookup_insert_ne by auto with queue.
Qed.

(** Refinement of [commit].  Committing the end of the first [n] records of
    a batch acknowledges exactly those records; a commit that fails at any
    point (write or rename) leaves the previous position in force: the offset
    file is replaced atomically or not at all. *)
Theorem commit_refines k d q torn n u sc :
  implements k d q torn -> _validate_session_id k = true -> n <= q_pending q ->
  match commit k (q_position q (q_done q + n)) u sc d with
  | (Ok _, d') => implements k d' (acknowledge q n) torn
  | (Err _, d') => implements k d' q torn
  end.
Proof. apply commit_acknowledges. Qed.

Lemma complete_data_end_implements k d q torn :
  implements k d q torn -> _complete_data_end k d = Z.of_nat (length (encode (q_all q))).
Proof.
  intros Hq. unfold _complete_data_end. f_equal.
  assert (Hd := impl_log _ _ _ _ Hq). unfold file_content in Hd.
  destruct (d !! _log_path k) as [data|]; simpl.
  - rewrite scan_back_take by (apply chunk_pos || lia). rewrite firstn_all. subst data.
    apply complete_end_encode, Hq.
  - symmetry in Hd. apply app_nil in Hd as [-> _]. done.
Qed.

Lemma stream_newlines_slice data start stop :
  (0 <= start)%Z ->
  _stream_newlines (Some data) start (Some stop)
  = Ok (count_nl (take (Z.to_nat (stop - start)) (drop (Z.to_nat start) data))).
Proof.
  intros Hs. unfold _stream_newlines. destruct (Z.leb_spec stop start).
  { replace (Z.to_nat (stop - start)) with 0 by lia. by rewrite take_0. }
  destruct (Z.ltb_spec start 0); [lia|].
  rewrite count_loop_spec; [done|apply chunk_pos|lia].
Qed.

Lemma encode_split q :
  q_done q <= length (q_all q) ->
  Z.of_nat (length (encode (q_all q)))
  = (q_position q (q_done q) + Z.of_nat (length (encode (drop (q_done q) (q_all q)))))%Z.
Proof.
  intros. unfold q_position. rewrite <- (take_drop (q_done q) (q_all q)) at 1.
  rewrite encode_app, length_app. lia.
Qed.

Lemma encode_length_pos rs : rs <> [] -> 0 < length (encode rs).
Proof.
  destruct rs as [|r rs]; [done|]. intros _. unfold encode, frame. simpl.
  rewrite !length_app. simpl. lia.
Qed.

Lemma pending_of_implements k d q torn :
  implements k d q torn -> pending_of k d = Ok (q_pending q).
Proof.
  intros Hq. unfold pending_of, _count_newlines.
  rewrite (impl_offset _ _ _ _ Hq), (complete_data_end_implements _ _ _ _ Hq).
  destruct (d !! _log_path k) as [data|] eqn:Hl.
  - rewrite stream_newlines_slice by apply q_position_nonneg. f_equal.
    assert (Hd := impl_log _ _ _ _ Hq). unfold file_content in Hd. rewrite Hl in Hd. subst data.
    rewrite drop_position, encode_split by apply Hq. rewrite take_app_length' by lia.
    rewrite count_nl_encode by apply Forall_drop, Hq. by rewrite length_drop.
  - destruct (implements_missing _ _ _ _ Hq Hl) as [-> ->]. done.
Qed.

(** The committed position against the end of the complete data. *)
Lemma committed_lt_end q :
  q_done q <= length (q_all q) ->
  (q_position q (q_done q) <? Z.of_nat (length (encode (q_all q))))%Z
  = bool_decide (0 < q_pending q).
Proof.
  intros Hd. rewrite encode_split by done. unfold q_pending.
  destruct (decide (drop (q_done q) (q_all q) = [])) as [He|He].
  - rewrite He. apply drop_nil_inv in He.
    rewrite bool_decide_eq_false_2 by lia. apply Z.ltb_ge. simpl. lia.
  - assert (q_done q < length (q_all q)).
    { destruct (decide (length (q_all q) <= q_done q)); [|lia]. by rewrite drop_ge in He. }
    rewrite bool_decide_eq_true_2 by lia. apply Z.ltb_lt.
    apply encode_length_pos in He. lia.
Qed.

(** The reported backlog is exact: [pending_count] returns the number of
    unacknowledged records of the abstract queue, and a torn tail counts for
    nothing. *)
Theorem pending_count_refines k d q torn :
  implements k d q torn -> _validate_session_id k = true ->
  pending_count k d = Ok (q_pending q).
Proof.
  intros Hq Hk. unfold pending_count. rewrite Hk. by eapply pending_of_implements.
Qed.

(** A queue with nothing to deliver. *)
Definition all_drained (q : aqueue) (torn : bytes) : Prop := q_pending q = 0 /\ torn = [].
#[export] Instance all_drained_dec q torn : Decision (all_drained q torn).
Proof. unfold all_drained. apply _. Defined.

(** The offset of a log that is gone: what a refused second [unlink] leaves. *)
Definition stale_offset (k : string) (d : dir) : Prop :=
  d !! _log_path k = None /\ exists z, _read_committed_offset k d = Ok z.

Lemma empty_implements k (d : dir) : implements k (delete (_offset_path k) (delete (_log_path k) d)) (AQ [] 0) [].
Proof.
  split; simpl; try done; try apply not_elem_of_nil; try lia.
  - unfold file_content. rewrite lookup_delete_ne by auto with queue. by rewrite lookup_delete_eq.
  - unfold _read_committed_offset. by rewrite lookup_delete_eq.
Qed.

Lemma size_vs_committed q torn :
  q_done q <= length (q_all q) ->
  (q_position q (q_done q) <? Z.of_nat (length (encode (q_all q) ++ torn)))%Z = bool_decide (~ all_drained q torn).
Proof.
  intros Hd. assert (Hpend := committed_lt_end q Hd). assert (Hsplit := encode_split q Hd).
  rewrite length_app. unfold all_drained. destruct (decide (0 < q_pending q)) as [Hp|Hp].
  - rewrite bool_decide_eq_true_2 in Hpend by done. apply Z.ltb_lt in Hpend.
    rewrite (proj2 (Z.ltb_lt _ _)) by lia. by rewrite bool_decide_eq_true_2 by lia.
  - rewrite bool_decide_eq_false_2 in Hpend by done. apply Z.ltb_ge in Hpend. destruct torn as [|b torn].
    + rewrite (proj2 (Z.ltb_ge _ _)) by (simpl length; lia). rewrite bool_decide_eq_false_2; [done|]. intros Hn. apply Hn. split; [lia|done].
    + rewrite (proj2 (Z.ltb_lt _ _)) by (simpl length; lia). by rewrite bool_decide_eq_true_2 by (by intros [_ ?]).
Qed.

Lemma delete_drained_spec k sc d q torn :
  implements k d q torn -> _validate_session_id k = true ->
  let '(r, d') := delete_drained k sc d in
  (~ all_drained q torn -> r = Ok false)
  /\ (all_drained q torn -> r = Ok true \/ (r = Err OSError /\ sc <> UnlinkOk))
  /\ (r = Ok true -> implements k d' (AQ [] 0) [])
  /\ (r <> Ok true -> d' = d \/ (sc = UnlinkFirst /\ all_drained q torn /\ stale_offset k d'))
  /\ (forall p, p <> _log_path k -> p <> _offset_path k -> d' !! p = d !! p).
Proof.
  intros Hq Hk. unfold delete_drained. rewrite Hk. destruct (d !! _log_path k) as [data|] eqn:Hl.
  - rewrite (impl_offset _ _ _ _ Hq).
    assert (Hd := impl_log _ _ _ _ Hq). unfold file_content in Hd. rewrite Hl in Hd. subst data.
    rewrite size_vs_committed by apply Hq. case_bool_decide as Hdr; [split_and!; try done; auto|].
    destruct sc; split_and!; try done; auto.
    + intros _. apply empty_implements.
    + intros p ? ?. by rewrite !lookup_delete_ne by done.
    + intros _. right. split_and!; try done. split; [apply lookup_delete_eq|]. eexists.
      unfold _read_committed_offset. rewrite lookup_delete_ne by auto with queue. apply (impl_offset _ _ _ _ Hq).
    + intros p ? ?. by rewrite lookup_delete_ne by done.
  - destruct (implements_missing _ _ _ _ Hq Hl) as [-> ->].
    assert (He : implements k (delete (_offset_path k) d) (AQ [] 0) []).
    { rewrite <- (delete_id d (_log_path k)) by done. apply empty_implements. }
    assert (Hno : forall x : result bool, ~ all_drained (AQ [] 0) [] -> x = Ok false) by (intros x Hx; by destruct Hx).
    destruct sc; (split; [apply Hno|]); (split; [intros _; by auto|]); (split; [by intros|]); (split; [by auto|]);
      intros p ? ?; by rewrite ?lookup_delete_ne by done.
Qed.

(** [delete_drained] deletes exactly the fully acknowledged queues.  While anything is
    unacknowledged or a torn tail is left it returns [False] and changes nothing.
    Otherwise it returns [True] and the key reads as an empty queue, unless an
    [unlink] is refused: then it raises, and either nothing changed or, when the
    second was, the log is gone and its offset is left behind.  Files of other keys
    and the dead letters are never touched. *)
Theorem delete_drained_refines k sc d q torn :
  implements k d q torn -> _validate_session_id k = true ->
  let '(r, d') := delete_drained k sc d in
  (~ all_drained q torn -> r = Ok false)
  /\ (all_drained q torn -> r = Ok true \/ (r = Err OSError /\ sc <> UnlinkOk))
  /\ (r = Ok true -> implements k d' (AQ [] 0) [])
  /\ (r <> Ok true -> d' = d \/ (sc = UnlinkFirst /\ all_drained q torn /\ stale_offset k d'))
  /\ (forall p, p <> _log_path k -> p <> _offset_path k -> d' !! p = d !! p).
Proof. apply delete_drained_spec. Qed.

(** [delete_session] refuses with [RuntimeError], leaving the directory
    unchanged, exactly when a record is still unacknowledged; otherwise all
    three files of the key are gone and every other file is untouched. *)
Theorem delete_session_refines k d q torn :
  implements k d q torn -> _validate_session_id k = true ->
  if decide (0 < q_pending q) then delete_session k d = (Err RuntimeError, d)
  else exists existed d', delete_session k d = (Ok existed, d')
    /\ (existed = true <-> exists p, p ∈ [_log_path k; _offset_path k; _dead_path k] /\ is_Some (d !! p))
    /\ (forall p, d' !! p = if decide (p ∈ [_log_path k; _offset_path k; _dead_path k])
                            then None else d !! p).
Proof.
  intros Hq Hk. unfold delete_session. rewrite Hk, (pending_of_implements _ _ _ _ Hq).
  destruct (q_pending q) as [|n]; [|by rewrite decide_True by lia].
  rewrite decide_False by lia. do 2 eexists. split; [done|]. split.
  - rewrite existsb_exists. setoid_rewrite bool_decide_eq_true. setoid_rewrite <- list_elem_of_In.
    done.
  - intros p. simpl foldl. case_decide as Hp.
    + rewrite !elem_of_cons, elem_of_nil in Hp.
      destruct Hp as [-> |[-> |[-> |[]]]]; rewrite ?lookup_delete_eq; [| |done].
      * rewrite !lookup_delete_ne by auto with queue. apply lookup_delete_eq.
      * rewrite lookup_delete_ne by auto with queue. apply lookup_delete_eq.
    + rewrite !not_elem_of_cons in Hp. destruct Hp as (? & ? & ? & _).
      by rewrite !lookup_delete_ne by done.
Qed.

(** ** Directory scans *)

Lemma elem_of_py_sorted x l : x ∈ py_sorted l <-> x ∈ l.
Proof. unfold py_sorted. by rewrite merge_sort_Permutation. Qed.

Lemma elem_of_dir_names p (d : dir) : p ∈ dir_names d <-> is_Some (d !! p).
Proof.
  unfold dir_names. rewrite list_elem_of_fmap. split.
  - intros [[p' b] [-> Hin]]. apply elem_of_map_to_list in Hin. simpl. eauto.
  - intros [b Hb]. exists (p, b). by rewrite elem_of_map_to_list.
Qed.

Lemma str_ends_with_app k suf : str_ends_with suf (k +:+ suf) = true.
Proof. unfold str_ends_with. rewrite bytes_of_app. apply bool_decide_eq_true_2. by eexists. Qed.

Lemma log_stem_path k : k <> "" -> log_stem (_log_path k) = k.
Proof.
  intros Hk. unfold log_stem, _log_path. rewrite decide_False.
  - apply (drop_suffix_app k ".log").
  - intros H. assert (Hl := f_equal String.length H). rewrite str_app_length in Hl.
    destruct k; [done|simpl in Hl; lia].
Qed.

Lemma validate_not_empty k : _validate_session_id k = true -> k <> "".
Proof. by intros Hv ->. Qed.

Lemma elem_of_log_files k (d : dir) :
  k <> "" -> is_Some (d !! _log_path k) -> k ∈ map log_stem (log_files d).
Proof.
  intros Hk Hd. apply list_elem_of_fmap. exists (_log_path k). rewrite log_stem_path by done.
  split; [done|]. apply list_elem_of_filter.
  split; [apply str_ends_with_app|by apply elem_of_dir_names].
Qed.

(** After a restart, [recover] lists a worker key exactly when the abstract
    queue of that key still has an unacknowledged record: no backlog is
    forgotten and no drained or torn-only key is revived. *)
Theorem recover_refines k d q torn :
  implements k d q torn -> _validate_session_id k = true ->
  k ∈ recover d <-> 0 < q_pending q.
Proof.
  intros Hq Hk.
  assert (Hp : forall stem, stem = k ->
    (match _read_committed_offset stem d with
     | Ok c => if (c <? _complete_data_end stem d)%Z then Some stem else None
     | Err _ => None end) = if decide (0 < q_pending q) then Some k else None).
  { intros stem ->. rewrite (impl_offset _ _ _ _ Hq), (complete_data_end_implements _ _ _ _ Hq).
    rewrite committed_lt_end by apply Hq. by case_decide; case_bool_decide. }
  unfold recover. rewrite list_elem_of_omap. split.
  - intros (log & _ & Hlog). destruct (_validate_session_id (log_stem log)) eqn:Hv; [|done].
    assert (log_stem log = k) by (repeat case_hyp; congruence).
    rewrite Hp in Hlog by done. by case_decide.
  - intros Hpos. exists (_log_path k). rewrite log_stem_path, Hk, Hp by eauto using validate_not_empty.
    rewrite decide_True by done. split; [|done]. rewrite elem_of_py_sorted.
    apply list_elem_of_filter. split; [apply str_ends_with_app|]. apply elem_of_dir_names.
    destruct (d !! _log_path k) eqn:Hl; [eauto|].
    destruct (implements_missing _ _ _ _ Hq Hl) as [-> ->]. unfold q_pending in Hpos. simpl in Hpos. lia.
Qed.

(** ** Operations on one key leave the others alone *)

Lemma app_str_inj_r (a b s : string) : a +:+ s = b +:+ s -> a = b.
Proof.
  intros H. apply (f_equal bytes_of) in H. rewrite !bytes_of_app in H.
  apply app_inv_tail in H. by rewrite <- (str_of_bytes_of a), H, str_of_bytes_of.
Qed.

Lemma log_ne_offset k k' : _log_path k <> _offset_path k'.
Proof.
  intros H. apply (f_equal (fun s => last (bytes_of s))) in H. unfold _log_path, _offset_path in H.
  rewrite !bytes_of_app, !last_app in H. discriminate H.
Qed.
#[export] Hint Resolve log_ne_offset : queue.

Lemma delete_drained_other k k' sc d p :
  k' <> k -> p = _log_path k \/ p = _offset_path k ->
  (snd (delete_drained k' sc d)) !! p = d !! p.
Proof.
  intros Hne Hp.
  assert (H1 : p <> _log_path k').
  { destruct Hp as [-> | ->]; [|auto with queue]. unfold _log_path. intros H%app_str_inj_r. congruence. }
  assert (H2 : p <> _offset_path k').
  { destruct Hp as [-> | ->]; [auto with queue|]. unfold _offset_path. intros H%app_str_inj_r. congruence. }
  unfold delete_drained, mraise. repeat case_goal; by rewrite ?lookup_delete_ne by congruence.
Qed.

(** What is left of [q] after attempts to delete it. *)
Definition remains (k : string) (q : aqueue) (torn : bytes) (d : dir) : Prop :=
  implements k d q torn \/ (all_drained q torn /\ (implements k d (AQ [] 0) [] \/ stale_offset k d)).

Lemma remains_same k q torn d d' :
  d' !! _log_path k = d !! _log_path k -> d' !! _offset_path k = d !! _offset_path k -> remains k q torn d -> remains k q torn d'.
Proof.
  intros Hl Ho [Hq|[Hd [Hq|[Hn [z Hz]]]]]; [left; by eapply implements_same|right; split; [done|]; left; by eapply implements_same|].
  right. split; [done|]. right. split; [congruence|]. exists z. rewrite <- Hz. unfold _read_committed_offset. by rewrite Ho.
Qed.

Lemma delete_drained_remains k sc d q torn :
  remains k q torn d -> _validate_session_id k = true -> remains k q torn (snd (delete_drained k sc d)).
Proof.
  assert (Hstep : forall q torn, implements k d q torn -> _validate_session_id k = true ->
    remains k q torn (snd (delete_drained k sc d))).
  { clear. intros q torn Hq Hk. pose proof (delete_drained_spec k sc d q torn Hq Hk) as H.
    destruct (delete_drained k sc d) as [r d']. destruct H as (Hno & _ & Htrue & Hfalse & _). cbn [snd].
    destruct (decide (all_drained q torn)) as [Hd|Hd].
    - assert (Hr : r = Ok true \/ r <> Ok true) by (destruct r as [[]|]; auto).
      destruct Hr as [Hr|Hr]; [right; auto|]. destruct (Hfalse Hr) as [-> |(_ & _ & Hs)]; [by left|right; auto].
    - specialize (Hno Hd). subst r. destruct Hfalse as [-> |(_ & ? & _)]; [done|by left|done]. }
  intros [Hq|[Hd [Hq|[Hn [z Hz]]]]] Hk; [by apply Hstep| |].
  - destruct (Hstep _ _ Hq Hk) as [H|[_ H]]; right; auto.
  - right. split; [done|]. unfold delete_drained. rewrite Hk, Hn. destruct sc; cbn [snd]; [left|right; by split; [|exists z]|left].
    all: rewrite <- (delete_id d (_log_path k)) by done; apply empty_implements.
Qed.

Lemma reclaim_keys_cons unlinks k keys acc d :
  exists acc', snd (reclaim_keys unlinks (k :: keys) acc d)
               = snd (reclaim_keys unlinks keys acc' (snd (delete_drained k (unlinks k) d))).
Proof. simpl. destruct (delete_drained k (unlinks k) d) as [[[]|] ?]; by eexists. Qed.

Lemma reclaim_keys_remains unlinks keys acc k d q torn :
  remains k q torn d -> _validate_session_id k = true -> remains k q torn (snd (reclaim_keys unlinks keys acc d)).
Proof.
  intros Hq Hk. revert acc d Hq. induction keys as [|k' keys IH]; intros acc d Hq; [done|].
  destruct (reclaim_keys_cons unlinks k' keys acc d) as [acc' ->]. apply IH.
  destruct (decide (k' = k)) as [-> |Hne]; [by apply delete_drained_remains|].
  eapply remains_same; [..|exact Hq]; apply (delete_drained_other k); auto.
Qed.

Lemma not_offset_tmp k : is_offset_tmp (_log_path k) = false /\ is_offset_tmp (_offset_path k) = false.
Proof.
  assert (H : forall suf, last (bytes_of suf) = Some Byte.x67 \/ last (bytes_of suf) = Some Byte.x74 ->
    str_ends_with ".tmp" (k +:+ suf) = false).
  { intros suf Hs. apply bool_decide_eq_false_2. intros [p Hp].
    apply (f_equal last) in Hp. rewrite bytes_of_app, !last_app in Hp. simpl in Hp.
    destruct Hs as [Hs|Hs]; rewrite Hs in Hp; discriminate. }
  unfold is_offset_tmp, _log_path, _offset_path. rewrite !H by auto. done.
Qed.

Lemma sweep_tmps_other stale p d : is_offset_tmp p = false -> sweep_tmps stale d !! p = d !! p.
Proof.
  intros Hp. unfold sweep_tmps. generalize (dir_names d) as names. intros names.
  revert d. induction names as [|n names IH]; intros d; simpl; [done|]. rewrite IH.
  destruct (is_offset_tmp n && stale n) eqn:Hn; [|done].
  apply andb_true_iff in Hn as [Hn _]. rewrite lookup_delete_ne; [done|congruence].
Qed.

(** The orphan sweep removes drained queues only.  For every key, whatever
    [reclaim_drained_orphans] finds stale and whichever files cannot be unlinked,
    a key with an unacknowledged record or a torn tail implements the very same
    queue afterwards; so no sweep can lose an unacknowledged event. *)
Theorem reclaim_drained_orphans_safe unlinks stale k d q torn :
  implements k d q torn -> _validate_session_id k = true ->
  remains k q torn (snd (reclaim_drained_orphans unlinks stale d)).
Proof.
  intros Hq Hk. pose proof (reclaim_keys_remains unlinks (_all_worker_keys d) (0, 0)%Z k d q torn (or_introl Hq) Hk) as H1.
  unfold reclaim_drained_orphans. destruct (reclaim_keys unlinks (_all_worker_keys d) (0, 0)%Z d) as [acc d1]. cbn [snd] in *.
  eapply remains_same; [apply sweep_tmps_other, not_offset_tmp..|done].
Qed.

(** ** File names *)

(** Every file the queue creates has a name the file system accepts: for an
    arbitrary worker key, folded the way [ingest] folds it, the log, offset,
    dead-letter and commit-temporary names are at most 255 bytes. *)
Theorem queue_filenames_bounded key uuid :
  String.length uuid = 32 ->
  Forall (fun name => String.length name <= 255)
    (let k := fold_worker_key key in [_log_path k; _offset_path k; _dead_path k; _tmp_path k uuid]).
Proof.
  intros Hu. assert (Hk := fold_name_length_le key _MAX_KEY_BYTES ltac:(vm_compute; discriminate)).
  fold (fold_worker_key key) in Hk. unfold _MAX_KEY_BYTES, QUEUE_FILENAME_NAME_MAX, _MAX_SUFFIX_BYTES in Hk.
  cbv zeta. unfold _log_path, _offset_path, _dead_path, _tmp_path.
  repeat apply Forall_cons_2; [..|apply Forall_nil_2]; rewrite !str_app_length, ?Hu; simpl; lia.
Qed.

Lemma queue_filenames_bounded_witness :
  Forall (fun name => String.length name <= 255)
    (let k := fold_worker_key "workspace--session" in
     let u := "00000000000000000000000000000000" in
     [_log_path k; _offset_path k; _dead_path k; _tmp_path k u]).
Proof. apply (queue_filenames_bounded "workspace--session" "00000000000000000000000000000000"). reflexivity. Defined.

(** ** Dead letters *)

Lemma count_dead_content k d : _count_dead k d = Ok (count_nl (file_content d (_dead_path k))).
Proof.
  unfold _count_dead, _stream_newlines, file_content. destruct (d !! _dead_path k); [|done].
  simpl Z.ltb. cbv iota. rewrite count_loop_spec; [|apply chunk_pos|lia]. done.
Qed.

Lemma dead_record_no_nl ts error r :
  Forall (fun b => in_range 32 126 b = true) (bytes_of ts) ->
  framed (json_dumps (dead_record ts error r)).
Proof.
  intros Hts. apply json_dumps_no_nl. unfold dead_record. simpl.
  rewrite bool_decide_eq_true_2 by done. by destruct (utf8_valid _).
Qed.

(** A successful [dead_letter] adds exactly one complete line, whatever
    bytes the dead-lettered record holds (the payload is embedded as JSON or
    base64, so it cannot break the framing); the dead count grows by one and no
    other file, in particular neither log nor offset, changes. *)
Theorem dead_letter_adds_one k r ts error sc d d' :
  Forall (fun b => in_range 32 126 b = true) (bytes_of ts) ->
  dead_letter k r ts error sc d = (Ok tt, d') ->
  (exists n, _count_dead k d = Ok n /\ _count_dead k d' = Ok (S n))
  /\ file_content d' (_dead_path k)
     = file_content d (_dead_path k) ++ frame (json_dumps (dead_record ts error r))
  /\ (forall p, p <> _dead_path k -> d' !! p = d !! p).
Proof.
  intros Hts. unfold dead_letter. destruct (_validate_session_id k); [|done]. intros Hw.
  apply write_record_shape in Hw as [[_ ->]|[[? _]|[? _]]]; [|done..].
  split.
  - eexists. rewrite !count_dead_content. split; [done|].
    rewrite file_content_insert_eq, count_nl_app. unfold frame. rewrite count_nl_app.
    rewrite (count_nl_framed (json_dumps _)) by (by apply dead_record_no_nl). simpl. f_equal. lia.
  - split; [by rewrite file_content_insert_eq|]. intros p Hp. by rewrite lookup_insert_ne.
Qed.

Lemma dead_letter_adds_one_witness :
  let d' := snd (dead_letter "k" [nl; Byte.xff] "1.5" "boom" (WriteScript true []) ∅) in
  _count_dead "k" d' = Ok 1.
Proof.
  cbv zeta.
  destruct (dead_letter_adds_one "k" [nl; Byte.xff] "1.5" "boom" (WriteScript true []) ∅
              (snd (dead_letter "k" [nl; Byte.xff] "1.5" "boom" (WriteScript true []) ∅)))
    as [(n & H0 & H1) _]; [repeat constructor|reflexivity|].
  rewrite H1. rewrite count_dead_content in H0. simplify_eq. reflexivity.
Defined.

(** ** A concrete queue, for the witnesses *)

Definition demo_dir : dir :=
  <["k.offset" := bytes_of "2"]> (<["k.log" := bytes_of "a" ++ [nl] ++ bytes_of "b" ++ [nl]]> ∅).
Definition demo_queue : aqueue := AQ [bytes_of "a"; bytes_of "b"] 1.

Lemma framed_dec_true r : bool_decide (nl ∉ r) = true -> framed r.
Proof. apply bool_decide_eq_true_1. Qed.

Lemma demo_implements : implements "k" demo_dir demo_queue [].
Proof.
  split; [vm_compute; reflexivity..| | |simpl; lia].
  - repeat constructor; apply framed_dec_true; reflexivity.
  - apply framed_dec_true; reflexivity.
Qed.

Definition flaky : write_script := WriteScript true [Wrote 2; WriteErr; Wrote 1].

Lemma append_refines_witness :
  implements "k" (snd (append "k" (bytes_of "ccc") (WriteScript true [Wrote 1]) demo_dir))
    (enqueue demo_queue (bytes_of "ccc")) []
  /\ exists recs torn',
    implements "k" (snd (append "k" (bytes_of "ccc") flaky demo_dir))
      (AQ (q_all demo_queue ++ recs) 1) torn'.
Proof.
  assert (Hc : framed (bytes_of "ccc")) by (apply framed_dec_true; reflexivity).
  split.
  - exact (append_refines "k" demo_dir demo_queue [] (bytes_of "ccc") (WriteScript true [Wrote 1])
             demo_implements eq_refl Hc).
  - destruct (append_refines "k" demo_dir demo_queue [] (bytes_of "ccc") flaky
                demo_implements eq_refl Hc) as (_ & recs & torn' & H & _).
    exists recs, torn'. exact H.
Defined.

Lemma read_batch_refines_witness :
  read_batch "k" 10 demo_dir = Ok (MkBatch "k" [MkRecord (bytes_of "b") 2 4] 2 4).
Proof.
  rewrite (read_batch_refines "k" demo_dir demo_queue [] 10 demo_implements eq_refl). reflexivity.
Defined.

Lemma commit_refines_witness :
  implements "k" (snd (commit "k" 4 "u" CommitOk demo_dir)) (AQ (q_all demo_queue) 2) [].
Proof.
  refine (commit_refines "k" demo_dir demo_queue [] 1 "u" CommitOk demo_implements eq_refl _).
  vm_compute. lia.
Defined.

Lemma pending_count_refines_witness : pending_count "k" demo_dir = Ok 1.
Proof. exact (pending_count_refines "k" demo_dir demo_queue [] demo_implements eq_refl). Defined.

Lemma delete_drained_refines_witness : fst (delete_drained "k" UnlinkFirst demo_dir) = Ok false.
Proof.
  pose proof (delete_drained_refines "k" UnlinkFirst demo_dir demo_queue [] demo_implements eq_refl) as H.
  destruct (delete_drained "k" UnlinkFirst demo_dir) as [r d']. destruct H as (Hr & _).
  apply Hr. intros [Hp _]. vm_compute in Hp. discriminate.
Defined.

(** A stale offset hides what is appended next: the record is in the log, and no batch
    contains it. *)
Example stale_offset_hides_records :
  let drained := <[_offset_path "k" := bytes_of "4"]> (<[_log_path "k" := bytes_of "ab" ++ [nl] ++ [nl]]> ∅) : dir in
  let d1 := snd (delete_drained "k" UnlinkFirst drained) in
  let d2 := snd (append "k" (bytes_of "c") (WriteScript true []) d1) in
  fst (delete_drained "k" UnlinkFirst drained) = Err OSError
  /\ file_content d2 (_log_path "k") = bytes_of "c" ++ [nl]
  /\ read_batch "k" 10 d2 = Ok (MkBatch "k" [] 4 4) /\ recover d2 = [].
Proof. vm_compute. auto. Qed.

Lemma delete_session_refines_witness : delete_session "k" demo_dir = (Err RuntimeError, demo_dir).
Proof. exact (delete_session_refines "k" demo_dir demo_queue [] demo_implements eq_refl). Defined.

Lemma recover_refines_witness : "k" ∈ recover demo_dir.
Proof.
  apply (recover_refines "k" demo_dir demo_queue [] demo_implements eq_refl). vm_compute. lia.
Defined.

Lemma reclaim_drained_orphans_safe_witness :
  implements "k" (snd (reclaim_drained_orphans (fun _ => UnlinkFirst) (fun _ => true) demo_dir)) demo_queue [].
Proof.
  destruct (reclaim_drained_orphans_safe (fun _ => UnlinkFirst) (fun _ => true) "k" demo_dir demo_queue [] demo_implements eq_refl)
    as [H|[[Hp _] _]]; [exact H|]. vm_compute in Hp. discriminate.
Defined.
