(* ===== verification/Drain.v ===== *)
(** * The drain worker ([registry.py])

    One worker per session reads batches of its durable queue, dispatches every
    record through the handler pipeline, flushes the graph and only then
    commits the offset.  The worker is a program over its own state ([DState]:
    queue directory, statistics, registration) in the effect monad.

    Everything the worker calls but does not own is the class [DrainEnv]: the
    pipeline, the graph store, the recovery hooks, the clocks, what the
    operating system does to each write, and what other coroutines append in
    between.  Each may fail with any exception, cancellation included, so the
    theorems hold for every behaviour of the environment.

    Four history variables ([buffered], [durable], [dead], [acked]) record what
    happened to each queue record.  No code reads them; they let the
    specification talk about the order of flush, dead letter and commit. *)
From stdpp Require Import base list gmap strings sorting.
From Stdlib Require Import ZArith Lia.
From S2P Require Import Prelude PyText Sha256 Utils Json QueueFiles QueueManager.

(** ** Constants *)

(** Durations and clocks count units of 0.05 s. *)
Definition _DRAIN_MAX_BATCH : nat := 100.
Definition _DRAIN_POLL_INTERVAL : Z := 1.      (** 0.05 s *)
Definition _TRANSIENT_BACKOFF_BASE : Z := 1.   (** 0.05 s *)
Definition _TRANSIENT_BACKOFF_CAP : Z := 600.  (** 30 s *)
Definition _FINALIZE_DELETE_ATTEMPTS : nat := 3.
Definition _COMPLETED_MAXLEN : nat := 100.
Definition _RING_MAXLEN : nat := 50.
Definition SPOOL_EVENT_IDENTITY : string := "_ci_event_identity".

(** [OSError] covers [ConnectionError] and (since 3.11) [asyncio.TimeoutError];
    [TransientInfra] stands for the four driver classes and
    [sqlite3.OperationalError]. *)
Definition _is_transient_infra_error (e : exn) : bool :=
  match e with TransientInfra => true | _ => is_OSError e end.

(** [min(BASE * (2 ** (attempts - 1)), CAP)]: BASE is a [float], and an [int]
    of 2^1024 or more does not convert to one. *)
Definition transient_delay (attempts : Z) : result Z :=
  if (attempts - 1 <? 1024)%Z
  then Ok (Z.min (_TRANSIENT_BACKOFF_BASE * 2 ^ (attempts - 1)) _TRANSIENT_BACKOFF_CAP)
  else Err OverflowError.

(** [event in TERMINAL_EVENTS]: a frozenset test hashes its operand. *)
Definition is_terminal (event : json) : result bool :=
  match event with
  | JArr _ | JObj _ => Err TypeError
  | JStr s => Ok (bool_decide (s = "session:end"))
  | _ => Ok false
  end.

(** ** Worker statistics *)

Record EventRecord := MkEventRecord {
  er_timestamp : Z; er_event : json; er_session_id : json; er_workspace : string;
  er_ok : bool; er_error : string;
}.

Record CompletedSession := MkCompleted {
  cs_session_id : string; cs_workspace : string; cs_started_at : Z; cs_ended_at : Z;
  cs_events_processed : Z; cs_error_count : Z; cs_duration_seconds : Z;
}.

Record SessionWorker := MkWorker {
  last_event : json; last_event_time : Z; events_processed : Z; error_count : Z;
  started_at : Z; last_successful_flush : Z; store_closed : bool;
}.

(** [deque(maxlen=n).appendleft] and [.append] *)
Definition ring_add {A} (n : nat) (x : A) (l : list A) : list A := take n (x :: l).
Definition deque_append {A} (n : nat) (l : list A) (x : A) : list A :=
  let l := l ++ [x] in drop (length l - n) l.

(** ** What the worker calls *)

Class DrainEnv (S : Type) := {
  json_loads : bytes -> result json;  (** [json.loads(raw.decode("utf-8"))] *)
  process_event : json -> json -> option json -> option string -> M S unit;
  graph_flush : M S unit;
  discard_buffer : S -> S;
  graph_close : M S unit;
  (** scheduler permits: the flush gate or write semaphore, the pause guard *)
  flush_permit : M S unit;
  recovery_guard : M S unit;
  (** registry configuration *)
  is_recovery : bool;
  drain_batch_size : nat;
  max_delivery_attempts : Z;
  pre_flush : option (M S unit);
  before_recovery_flush : option (list LogRecord -> M S unit);
  on_batch_flushed : option (list LogRecord -> M S unit);
  on_batch_written : option (list LogRecord -> M S unit);
  on_post_commit_failure : option (M S unit);
  on_record_quarantined : option (LogRecord -> M S unit);
  (** the operating system: the outcome of the next write, commit or deletion,
      and whether a cancellation is delivered once it has settled *)
  os_write : S -> write_script * bool * S;
  os_commit : S -> commit_script * string * bool * S;
  os_unlink : S -> unlink_script * bool * S;
  read_fault : M S unit;
  (** records other coroutines append before the next read or delete *)
  interfere : S -> list (bytes * write_script) * S;
  monotonic : S -> Z * S;
  wall_time : S -> Z * S;
  time_repr : S -> string;
  sleep : Z -> M S unit;
  wait_for_change : Z -> M S unit;
  exn_text : exn -> string;
  flush_timeout : Z;
  stale_session_timeout : Z;
}.

Record DState (S : Type) := MkD {
  env : S; qdir : dir; worker : SessionWorker; registered : bool;
  written_total : Z; write_retries_total : Z;
  completed : list CompletedSession; ring : list EventRecord;
  buffered : list LogRecord; durable : list LogRecord;
  dead : list LogRecord; acked : list LogRecord;
}.
Arguments MkD {S}. Arguments env {S}. Arguments qdir {S}. Arguments worker {S}.
Arguments registered {S}. Arguments written_total {S}. Arguments write_retries_total {S}.
Arguments completed {S}. Arguments ring {S}. Arguments buffered {S}. Arguments durable {S}.
Arguments dead {S}. Arguments acked {S}.

Section drain.
Context {S : Type} `{!DrainEnv S}.
Variable session_id : string.
Variable workspace : string.

Abbreviation D := (DState S).
Implicit Types st : D.

(** Field updates *)
Definition with_env (e : S) st : D :=
  MkD e (qdir st) (worker st) (registered st) (written_total st) (write_retries_total st)
    (completed st) (ring st) (buffered st) (durable st) (dead st) (acked st).
Definition with_dir (e : S) (d : dir) st : D :=
  MkD e d (worker st) (registered st) (written_total st) (write_retries_total st)
    (completed st) (ring st) (buffered st) (durable st) (dead st) (acked st).
Definition with_worker (w : SessionWorker) st : D :=
  MkD (env st) (qdir st) w (registered st) (written_total st) (write_retries_total st)
    (completed st) (ring st) (buffered st) (durable st) (dead st) (acked st).
Definition with_counters (w r : Z) st : D :=
  MkD (env st) (qdir st) (worker st) (registered st) w r
    (completed st) (ring st) (buffered st) (durable st) (dead st) (acked st).
Definition with_ring (x : list EventRecord) st : D :=
  MkD (env st) (qdir st) (worker st) (registered st) (written_total st) (write_retries_total st)
    (completed st) x (buffered st) (durable st) (dead st) (acked st).
Definition with_completed (x : list CompletedSession) st : D :=
  MkD (env st) (qdir st) (worker st) (registered st) (written_total st) (write_retries_total st)
    x (ring st) (buffered st) (durable st) (dead st) (acked st).
Definition with_registered (b : bool) st : D :=
  MkD (env st) (qdir st) (worker st) b (written_total st) (write_retries_total st)
    (completed st) (ring st) (buffered st) (durable st) (dead st) (acked st).
Definition with_history (b du de ac : list LogRecord) st : D :=
  MkD (env st) (qdir st) (worker st) (registered st) (written_total st) (write_retries_total st)
    (completed st) (ring st) b du de ac.

Definition lift_env {A} (m : M S A) : M D A :=
  fun st => let '(r, e) := m (env st) in (r, with_env e st).
Definition hook {A} (h : option (A -> M S unit)) (a : A) : M D unit :=
  match h with Some f => lift_env (f a) | None => mret tt end.
Definition run_opt (h : option (M S unit)) : M D unit :=
  match h with Some m => lift_env m | None => mret tt end.
Definition clock (f : S -> Z * S) : M D Z :=
  fun st => let '(t, e) := f (env st) in (Ok t, with_env e st).

(** ** Queue calls *)

(** Appends by other coroutines; a failed one is the ingest's problem. *)
Definition concurrent_appends : M D unit := fun st =>
  let '(l, e) := interfere (env st) in
  (Ok tt, with_dir e (fold_left (fun d a => snd (append session_id a.1 a.2 d)) l (qdir st)) st).

Definition qm_read_batch : M D Batch :=
  concurrent_appends ;;; lift_env read_fault ;;;
  (fun st => (read_batch session_id drain_batch_size (qdir st), st)).

(** The complete records between the committed offset and [upto]: what a
    commit of [upto] acknowledges. *)
Definition newly_acked (d : dir) (upto : Z) : list LogRecord :=
  match read_batch session_id (length (file_content d (_log_path session_id))) d with
  | Ok b => base.filter (fun r => (rec_end r <= upto)%Z) (records b)
  | Err _ => []
  end.

(** [_await_uninterrupted]: a cancellation waits for the thread and then wins, also
    over its error. *)
Definition settle {A} (cancelled : bool) (r : result A) : result A :=
  if cancelled && _validate_session_id session_id then Err CancelledError else r.

Definition qm_commit (offset : Z) : M D unit := fun st =>
  let '(sc, u, cancelled, e) := os_commit (env st) in
  match commit session_id offset u sc (qdir st) with
  | (Ok _, d') =>
    (settle cancelled (Ok tt),
     with_history (buffered st) (durable st) (dead st)
       (acked st ++ newly_acked (qdir st) offset) (with_dir e d' st))
  | (Err x, d') => (settle cancelled (Err x), with_dir e d' st)
  end.

Definition qm_dead_letter (rec : LogRecord) (error : string) : M D unit := fun st =>
  let '(sc, cancelled, e) := os_write (env st) in
  match dead_letter session_id (raw rec) (time_repr (env st)) error sc (qdir st) with
  | (Ok _, d') =>
    (settle cancelled (Ok tt),
     with_history (buffered st) (durable st) (dead st ++ [rec]) (acked st) (with_dir e d' st))
  | (Err x, d') => (settle cancelled (Err x), with_dir e d' st)
  end.

Definition qm_delete_drained : M D bool :=
  concurrent_appends ;;;
  (fun st =>
    let '(sc, cancelled, e) := os_unlink (env st) in
    let '(r, d') := delete_drained session_id sc (qdir st) in
    (settle cancelled r, with_dir e d' st)).

(** ** Counters *)

Definition record_written (n : Z) : M D unit :=
  mmodify (fun st => with_counters (written_total st + n) (write_retries_total st) st).
Definition record_write_retry : M D unit :=
  mmodify (fun st => with_counters (written_total st) (write_retries_total st + 1) st).

(** ** Dispatch *)

Definition _parse_line (line : bytes)
    : result (json * json * option json * json * option string) :=
  match json_loads line with
  | Err e => Err e
  | Ok (JObj obj) =>
    match dget "event" obj with
    | None => Err KeyError
    | Some event =>
      Ok (event, jget_default "workspace" (JStr "") obj,
          (let w := jget "working_dir" obj in if truthy w then Some w else None),
          jget_default "data" (JObj []) obj,
          match jget SPOOL_EVENT_IDENTITY obj with JStr s => Some s | _ => None end)
    end
  | Ok _ => Err AttributeError
  end.

Definition note_event (event : json) (t : Z) (w : SessionWorker) : SessionWorker :=
  MkWorker event t (events_processed w + 1) (error_count w) (started_at w)
    (last_successful_flush w) (store_closed w).
Definition note_error (w : SessionWorker) : SessionWorker :=
  MkWorker (last_event w) (last_event_time w) (events_processed w) (error_count w + 1)
    (started_at w) (last_successful_flush w) (store_closed w).

(** the [finally]: [data.get] raises when [data] is not a dict *)
Definition ring_buffer_add (event data : json) (ok : bool) (error : string) : M D unit :=
  match data with
  | JObj o =>
    let! t := clock wall_time in
    mmodify (fun st => with_ring (ring_add _RING_MAXLEN
      (MkEventRecord t event (jget_default "session_id" (JStr "") o) workspace ok error)
      (ring st)) st)
  | _ => clock wall_time ;;; mraise AttributeError
  end.

Definition _process_one (event data : json) (working_dir : option json)
    (event_identity : option string) : M D unit :=
  let body :=
    lift_env (process_event event data working_dir event_identity) ;;;
    (let! t := clock wall_time in
     mmodify (fun st => with_worker (note_event event t (worker st)) st)) in
  fun st =>
    match body st with
    | (Ok _, st) => ring_buffer_add event data true "" st
    | (Err e, st) =>
      if is_Exception e then
        (mmodify (fun st => with_worker (note_error (worker st)) st) ;;;
         ring_buffer_add event data false (exn_text e) ;;; mraise e) st
      else (ring_buffer_add event data true "" ;;; mraise e) st
    end.

Definition note_buffered (rec : LogRecord) : M D unit :=
  mmodify (fun st => with_history (buffered st ++ [rec]) (durable st) (dead st) (acked st) st).

(** The loop of [_process_batch], with [(safe_count, terminal_at)] so far. *)
Fixpoint process_records (recs : list LogRecord) (acc : nat * option Z)
    : M D (nat * option Z) :=
  match recs with
  | [] => mret acc
  | rec :: recs =>
    let! line := mlift (_parse_line (raw rec)) in
    let '(event, _, working_dir, data, event_identity) := line in
    _process_one event data working_dir event_identity ;;;
    note_buffered rec ;;;
    match acc.2 with
    | Some _ => process_records recs acc
    | None =>
      let! term := mlift (is_terminal event) in
      process_records recs (if term then (acc.1, Some (rec_start rec)) else (acc.1 + 1, None))
    end
  end.

Definition _process_batch (batch : Batch) : M D (nat * option Z) :=
  process_records (records batch) (0, None).

(** ** Flush, then acknowledge *)

Definition _flush_graph : M D unit :=
  lift_env graph_flush ;;;
  mmodify (fun st => with_history [] (durable st ++ buffered st) (dead st) (acked st) st) ;;;
  (let! t := clock wall_time in
   mmodify (fun st => let w := worker st in
     with_worker (MkWorker (last_event w) (last_event_time w) (events_processed w)
       (error_count w) (started_at w) t (store_closed w)) st)).

Definition _flush_barrier : M D unit := lift_env flush_permit ;;; _flush_graph.

Definition graph_discard_buffer : M D unit :=
  mmodify (fun st => with_history [] (durable st) (dead st) (acked st)
                       (with_env (discard_buffer (env st)) st)).

(** [if hook is None or not records: return] *)
Definition nonempty_hook (h : option (list LogRecord -> M S unit)) (recs : list LogRecord)
    : M D unit :=
  match recs with [] => mret tt | _ => hook h recs end.

Definition _before_commit (recs : list LogRecord) : M D unit := nonempty_hook on_batch_flushed recs.
Definition _before_quarantine (rec : LogRecord) : M D unit := hook on_record_quarantined rec.

Definition _post_commit (recs : list LogRecord) : M D unit :=
  mcatch (nonempty_hook on_batch_written recs)
    (fun e => if is_Exception e then run_opt on_post_commit_failure else mraise e).

Definition _recovery_write_guard : M D unit := mwhen is_recovery (lift_env recovery_guard).

Definition _flush_and_commit (recs : list LogRecord) (commit_to : Z)
    (eligibility_records : list LogRecord) : M D unit :=
  mwhen is_recovery (run_opt pre_flush) ;;;
  _recovery_write_guard ;;;
  mwhen is_recovery (hook before_recovery_flush eligibility_records) ;;;
  _flush_barrier ;;;
  _before_commit recs ;;;
  mcatch (qm_commit commit_to)
    (fun e => if is_Exception e then mraise (QueueCommitFailure e) else mraise e).

Definition _publish_quarantine_then_ack (rec : LogRecord) : M D unit :=
  _before_quarantine rec ;;; qm_commit (rec_end rec).

Definition _quarantine_and_commit (rec : LogRecord) : M D unit :=
  _recovery_write_guard ;;; _publish_quarantine_then_ack rec.

(** ** Linear isolation of a poison batch *)

(** The [except] clauses around one record's dispatch and flush; [true] when
    the record was quarantined, [false] when it was written. *)
Definition isolate_failure (rec : LogRecord) (e : exn) : M D bool :=
  match e with
  | QueueCommitFailure cause => mraise cause
  | _ =>
    if negb (is_Exception e) then mraise e
    else if _is_transient_infra_error e then graph_discard_buffer ;;; mraise TransientInfraFailure
    else qm_dead_letter rec (exn_text e) ;;; graph_discard_buffer ;;; mret true
  end.

Fixpoint isolate_records (recs : list LogRecord) : M D bool :=
  match recs with
  | [] => mret false
  | rec :: recs =>
    match _parse_line (raw rec) with
    | Err e =>
      if is_Exception e then
        qm_dead_letter rec (exn_text e) ;;; graph_discard_buffer ;;;
        _quarantine_and_commit rec ;;; isolate_records recs
      else mraise e
    | Ok (event, _, working_dir, data, event_identity) =>
      let! term := mlift (is_terminal event) in
      if term then mret true
      else
        let! quarantined := mcatch
          (_process_one event data working_dir event_identity ;;;
           note_buffered rec ;;;
           _flush_and_commit [rec] (rec_end rec) [rec] ;;; mret false)
          (isolate_failure rec) in
        (if quarantined then _quarantine_and_commit rec
         else record_written 1 ;;; _post_commit [rec]) ;;;
        isolate_records recs
    end
  end.

Definition _handle_exhausted_batch (batch : Batch) : M D bool :=
  graph_discard_buffer ;;; isolate_records (records batch).

(** ** Finalization *)

(** [None]: the loop is still running when the fuel is spent. *)
Fixpoint _drain_to_eof (fuel : nat) : M D (option bool) :=
  match fuel with
  | O => mret None
  | Datatypes.S fuel =>
    let! tail := qm_read_batch in
    match records tail with
    | [] => mret (Some true)
    | _ => fun st =>
      match (_process_batch tail ;;;
             _flush_and_commit (records tail) (end_offset tail) (records tail)) st with
      | (Ok _, st) =>
        (record_written (Z.of_nat (length (records tail))) ;;;
         _post_commit (records tail) ;;; _drain_to_eof fuel) st
      | (Err (QueueCommitFailure cause), st) => (Err cause, st)
      | (Err e, st) => if is_Exception e then (Ok (Some false), st) else (Err e, st)
      end
    end
  end.

Definition _safe_close : M D unit :=
  mmodify (fun st => let w := worker st in
    with_worker (MkWorker (last_event w) (last_event_time w) (events_processed w)
      (error_count w) (started_at w) (last_successful_flush w) true) st) ;;;
  mcatch (mwhen is_recovery graph_discard_buffer ;;; lift_env graph_close)
    (fun e => if is_Exception e then mret tt else mraise e).

Definition _deregister : M D unit := mmodify (with_registered false).

Definition complete_session : M D unit :=
  let! ended_at := clock wall_time in
  mmodify (fun st => let w := worker st in
    with_completed (deque_append _COMPLETED_MAXLEN (completed st)
      (MkCompleted session_id workspace (started_at w) ended_at (events_processed w)
         (error_count w) (ended_at - started_at w))) st).

(** [for attempt in range(1, ATTEMPTS + 1)], with [n] attempts left; [Some
    false]: the late tail could not be flushed and the worker stays. *)
Fixpoint delete_attempts (fuel n : nat) : M D (option bool) :=
  match n with
  | O => mret (Some true)
  | Datatypes.S n' =>
    let! ok := qm_delete_drained in
    if ok then mret (Some true)
    else match n' with
         | O => mret (Some true)
         | _ => let! drained := _drain_to_eof fuel in
                match drained with
                | Some true => delete_attempts fuel n'
                | r => mret r
                end
         end
  end.

Definition _finalize_session (fuel : nat) : M D (option unit) :=
  let! drained := _drain_to_eof fuel in
  match drained with
  | None => mret None
  | Some false => mret (Some tt)
  | Some true =>
    complete_session ;;;
    let! ok := delete_attempts fuel _FINALIZE_DELETE_ATTEMPTS in
    match ok with
    | None => mret None
    | Some false => mret (Some tt)
    | Some true => _safe_close ;;; _deregister ;;; mret (Some tt)
    end
  end.

(** ** The drain loop *)

Record loop_vars := Vars { attempts : Z; transient_attempts : Z; maintenance_deadline : Z }.

Inductive step := Continue (v : loop_vars) | Return | OutOfFuel.

Definition to_step (r : option unit) : step :=
  match r with Some _ => Return | None => OutOfFuel end.

Definition abandon : M D step := _safe_close ;;; _deregister ;;; mret Return.

(** No complete record to read. *)
Definition idle_step (v : loop_vars) : M D step :=
  lift_env (wait_for_change (maintenance_deadline v)) ;;;
  let! now := clock monotonic in
  if (maintenance_deadline v <=? now)%Z then
    let! now' := clock monotonic in
    let v' := Vars (attempts v) (transient_attempts v) (now' + flush_timeout) in
    let! wall := clock wall_time in
    let! st := mget in
    let t := last_event_time (worker st) in
    if (0 <? t)%Z && (stale_session_timeout <? wall - t)%Z then abandon
    else qm_delete_drained ;;; mret (Continue v')
  else mret (Continue v).

Definition transient_retry (v : loop_vars) : M D step :=
  let n := (transient_attempts v + 1)%Z in
  let! delay := mlift (transient_delay n) in
  lift_env (sleep delay) ;;;
  mret (Continue (Vars (attempts v) n (maintenance_deadline v))).

(** The poison path, once [attempts] has been incremented. *)
Definition poison_retry (fuel : nat) (batch : Batch) (v : loop_vars) : M D step :=
  if (max_delivery_attempts <=? attempts v)%Z then
    fun st =>
      match _handle_exhausted_batch batch st with
      | (Ok true, st) => (let! r := _finalize_session fuel in mret (to_step r)) st
      | (Ok false, st) =>
        (Ok (Continue (Vars 0 (transient_attempts v) (maintenance_deadline v))), st)
      | (Err TransientInfraFailure, st) =>
        transient_retry (Vars 0 (transient_attempts v) (maintenance_deadline v)) st
      | (Err e, st) => (Err e, st)
      end
  else lift_env (sleep (Z.min flush_timeout _DRAIN_POLL_INTERVAL)) ;;; mret (Continue v).

(** The [except] clauses of the dispatch. *)
Definition dispatch_failure (fuel : nat) (batch : Batch) (v : loop_vars) (e : exn) : M D step :=
  match e with
  | QueueCommitFailure cause => mraise cause
  | CancelledError => abandon
  | _ =>
    if _is_transient_infra_error e then record_write_retry ;;; transient_retry v
    else record_write_retry ;;;
         poison_retry fuel batch (Vars (attempts v + 1) 0 (maintenance_deadline v))
  end.

Definition dispatch_batch (batch : Batch) : M D (nat * option Z * list LogRecord) :=
  let! counted := _process_batch batch in
  let '(safe_count, terminal_at) := counted in
  let commit_to := match terminal_at with None => end_offset batch | Some t => t end in
  let committed_records := match terminal_at with
                           | None => records batch
                           | Some _ => take safe_count (records batch)
                           end in
  _flush_and_commit committed_records commit_to (records batch) ;;;
  mret (safe_count, terminal_at, committed_records).

Definition batch_step (fuel : nat) (batch : Batch) (v : loop_vars) : M D step :=
  fun st =>
    match dispatch_batch batch st with
    | (Err e, st) => dispatch_failure fuel batch v e st
    | (Ok (safe_count, terminal_at, committed_records), st) =>
      (record_written (Z.of_nat (match terminal_at with
                                 | None => length (records batch)
                                 | Some _ => safe_count end)) ;;;
       _post_commit committed_records ;;;
       match terminal_at with
       | Some _ => let! r := _finalize_session fuel in mret (to_step r)
       | None => mret (Continue (Vars 0 (transient_attempts v) (maintenance_deadline v)))
       end) st
    end.

Definition drain_iteration (fuel : nat) (v : loop_vars) : M D step :=
  mcatch
    (let! batch := qm_read_batch in
     match records batch with
     | [] => idle_step v
     | _ => let! now := clock monotonic in
            batch_step fuel batch (Vars (attempts v) (transient_attempts v) (now + flush_timeout))
     end)
    (fun e => match e with CancelledError => abandon | _ => mraise e end).

Fixpoint drain_loop (fuel : nat) (v : loop_vars) : M D step :=
  match fuel with
  | O => mret OutOfFuel
  | Datatypes.S fuel =>
    let! r := drain_iteration fuel v in
    match r with Continue v => drain_loop fuel v | _ => mret r end
  end.

Definition drain_worker (fuel : nat) : M D step :=
  let! now := clock monotonic in drain_loop fuel (Vars 0 0 (now + flush_timeout)).
End drain.
