(* ===== verification/DrainDemo.v ===== *)
(** * A concrete environment for the drain worker

    Used to instantiate the theorems about the worker: a line is the name of
    what happens to it.  [x] is not JSON, [p] fails in its handler, [t] fails
    with an infrastructure error, [e] is a [session:end], anything else is
    accepted; the operating system and the graph store work. *)
From stdpp Require Import base list gmap strings.
From Stdlib Require Import ZArith Lia.
From S2P Require Import Prelude PyText Sha256 Utils Json QueueFiles QueueManager QueueSpec Drain.

Definition demo_loads (line : bytes) : result json :=
  if decide (line = bytes_of "x") then Err ValueError
  else if decide (line = bytes_of "e") then Ok (JObj [("event", JStr "session:end"); ("data", JObj [])])
  else Ok (JObj [("event", JStr (str_of line)); ("data", JObj [])]).

Definition demo_process (event : json) : M unit unit := fun s =>
  (match event with
   | JStr name => if decide (name = "p") then Err ValueError
                  else if decide (name = "t") then Err TransientInfra else Ok tt
   | _ => Ok tt
   end, s).

Definition demo_env : DrainEnv unit := {|
  json_loads := demo_loads;
  process_event := fun event _ _ _ => demo_process event;
  graph_flush := mret tt; discard_buffer := id; graph_close := mret tt;
  flush_permit := mret tt; recovery_guard := mret tt;
  is_recovery := false; drain_batch_size := 10; max_delivery_attempts := 5;
  pre_flush := None; before_recovery_flush := None; on_batch_flushed := None;
  on_batch_written := None; on_post_commit_failure := None; on_record_quarantined := None;
  os_write := fun s => (WriteScript true [], false, s);
  os_commit := fun s => (CommitOk, "0", false, s); os_unlink := fun s => (UnlinkOk, false, s);
  read_fault := mret tt;
  interfere := fun s => ([], s);
  monotonic := fun s => (0%Z, s); wall_time := fun s => (0%Z, s); time_repr := fun _ => "0.0";
  sleep := fun _ => mret tt; wait_for_change := fun _ => mret tt;
  exn_text := fun _ => "error"; flush_timeout := 600; stale_session_timeout := 6000;
|}.

Definition demo_worker : SessionWorker := MkWorker JNull 0 0 0 0 0 false.

(** One worker on a queue directory, before it has done anything. *)
Definition demo_state (d : dir) : DState unit :=
  MkD tt d demo_worker true 0 0 [] [] [] [] [] [].

(** A directory whose only file is the log of [k]. *)
Definition demo_log (k : string) (lines : list string) : dir :=
  {[ _log_path k := encode (map bytes_of lines) ]}.

Lemma demo_log_implements k lines :
  forallb (fun l => bool_decide (nl ∉ bytes_of l)) lines = true ->
  implements k (demo_log k lines) (AQ (map bytes_of lines) 0) [].
Proof.
  intros Hl. split; simpl.
  - unfold file_content, demo_log. by rewrite lookup_singleton_eq, app_nil_r.
  - unfold _read_committed_offset, demo_log. by rewrite lookup_singleton_ne by auto with queue.
  - apply Forall_map, Forall_forall. intros l Hin. rewrite forallb_forall in Hl.
    apply framed_dec_true, Hl. by apply list_elem_of_In.
  - apply not_elem_of_nil.
  - lia.
Qed.
