(* ===== verification/DrainSpec.v ===== *)
(** * The drain worker: acknowledged means durable

    The central guarantee of the ingest path.  Whatever the environment does
    (handler errors, flush failures, failed or cancelled commits, dead-letter
    write errors, concurrent appends), the queue of the session stays a
    well-formed sequence of records, and every record the committed offset has
    moved past was flushed to the graph or written to the dead-letter file
    first. *)
From stdpp Require Import base list gmap strings sorting.
From Stdlib Require Import ZArith Lia.
From S2P Require Import Prelude PyText Sha256 Utils Json QueueFiles QueueManager QueueSpec Drain DrainDemo.

(** ** Records of a batch and their positions *)

Definition pending_records (q : aqueue) : list LogRecord :=
  mk_records (q_position q (q_done q)) (drop (q_done q) (q_all q)).

Lemma mk_records_app pos a b :
  mk_records pos (a ++ b) = mk_records pos a ++ mk_records (pos + Z.of_nat (length (encode a))) b.
Proof.
  revert pos. induction a as [|r a IH]; intros pos; simpl.
  - f_equal. lia.
  - f_equal. rewrite IH. do 2 f_equal. unfold encode at 2. simpl. fold (encode a).
    rewrite !length_app. lia.
Qed.

Lemma length_mk_records pos l : length (mk_records pos l) = length l.
Proof. revert pos. induction l; intros; simpl; auto. Qed.

Lemma take_mk_records n pos l : take n (mk_records pos l) = mk_records pos (take n l).
Proof. revert n pos. induction l as [|r l IH]; intros [|n] pos; simpl; [done..|]. by rewrite IH. Qed.

Lemma drop_mk_records n pos l :
  drop n (mk_records pos l)
  = mk_records (pos + Z.of_nat (length (encode (take n l)))) (drop n l).
Proof.
  rewrite <- (take_drop n l) at 1. rewrite mk_records_app.
  rewrite drop_app. rewrite length_mk_records, length_take.
  destruct (decide (n <= length l)).
  - rewrite drop_ge by (rewrite length_mk_records, length_take; lia).
    replace (n - min n (length l)) with 0 by lia. done.
  - rewrite !(drop_ge l) by lia. simpl. rewrite drop_nil, app_nil_r.
    rewrite drop_ge; [done|]. rewrite length_mk_records, length_take. lia.
Qed.

Lemma length_pending q : length (pending_records q) = q_pending q.
Proof. unfold pending_records, q_pending. by rewrite length_mk_records, length_drop. Qed.

Lemma q_position_acknowledge q m n : q_position (acknowledge q m) n = q_position q n.
Proof. done. Qed.

Lemma drop_pending q m : drop m (pending_records q) = pending_records (acknowledge q m).
Proof.
  unfold pending_records. rewrite drop_mk_records, drop_drop, q_position_acknowledge.
  simpl q_done. by rewrite q_position_add.
Qed.

Lemma lookup_pending q m r :
  pending_records q !! m = Some r ->
  rec_start r = q_position q (q_done q + m) /\ rec_end r = q_position q (q_done q + m + 1).
Proof.
  intros Hr. set (q' := acknowledge q m).
  assert (Hd : pending_records q' !! 0 = Some r).
  { unfold q'. rewrite <- drop_pending, lookup_drop. by rewrite Nat.add_0_r. }
  change (q_position q (q_done q + m)) with (q_position q' (q_done q')).
  change (q_position q (q_done q + m + 1)) with (q_position q' (q_done q' + 1)).
  rewrite q_position_add. unfold pending_records in Hd. unfold next.
  destruct (drop (q_done q') (q_all q')) as [|x l]; [done|].
  simpl in Hd. simplify_eq. simpl. unfold encode. simpl. by rewrite app_nil_r.
Qed.

Lemma rec_end_mono pos l r : r ∈ mk_records pos l -> (pos < rec_end r)%Z.
Proof.
  revert pos. induction l as [|x l IH]; intros pos; simpl; [by rewrite elem_of_nil|].
  rewrite elem_of_cons. intros [-> |Hr].
  - simpl. unfold frame. rewrite length_app. simpl. lia.
  - apply IH in Hr. lia.
Qed.

Lemma filter_all {A} (P : A -> Prop) `{forall x, Decision (P x)} l :
  Forall P l -> base.filter P l = l.
Proof. induction 1; [done|]. rewrite filter_cons_True by done. by f_equal. Qed.

Lemma filter_none {A} (P : A -> Prop) `{forall x, Decision (P x)} l :
  Forall (fun x => ~ P x) l -> base.filter P l = [].
Proof. induction 1; [done|]. by rewrite filter_cons_False by done. Qed.

Lemma rec_end_le pos l r :
  r ∈ mk_records pos l -> (rec_end r <= pos + Z.of_nat (length (encode l)))%Z.
Proof.
  revert pos. induction l as [|x l IH]; intros pos; simpl; [by rewrite elem_of_nil|].
  unfold encode. simpl. fold (encode l). rewrite length_app, elem_of_cons.
  intros [-> |Hr]; simpl; [lia|]. apply IH in Hr. lia.
Qed.

Lemma filter_mk_records m pos l :
  base.filter (fun r => (rec_end r <= pos + Z.of_nat (length (encode (take m l))))%Z) (mk_records pos l)
  = mk_records pos (take m l).
Proof.
  replace (mk_records pos l) with (mk_records pos (take m l ++ drop m l)) by (by rewrite take_drop).
  rewrite mk_records_app, filter_app, filter_all, filter_none, app_nil_r; [done| |].
  - apply Forall_forall. intros r Hr%rec_end_mono. lia.
  - apply Forall_forall. intros r Hr%rec_end_le. lia.
Qed.

Lemma encode_length_ge rs : length rs <= length (encode rs).
Proof.
  induction rs as [|r rs IH]; [done|]. unfold encode, frame in *. simpl. rewrite !length_app. simpl. lia.
Qed.

(** ** Appends of other coroutines only extend the queue *)

Lemma append_content k r sc d :
  exists sfx, file_content (snd (append k r sc d)) (_log_path k) = file_content d (_log_path k) ++ sfx
  /\ (forall p, p <> _log_path k -> (snd (append k r sc d)) !! p = d !! p).
Proof.
  assert (Hnil : forall b : bytes, b = b ++ []) by (intros; by rewrite app_nil_r).
  unfold append, mraise. destruct (_validate_session_id k); [|exists []; auto].
  destruct (_write_record _ _ sc d) as [res d'] eqn:Hw.
  apply write_record_shape in Hw as [[-> ->]|[[-> ->]|(-> & w & t & _ & _ & _ & ->)]].
  - eexists. split; [apply file_content_insert_eq|]. intros. simpl. by rewrite lookup_insert_ne.
  - exists []. auto.
  - eexists. split; [apply file_content_insert_eq|]. intros. simpl. by rewrite lookup_insert_ne.
Qed.

Lemma append_extends k r sc d q torn :
  implements k d q torn ->
  exists recs torn', implements k (snd (append k r sc d)) (AQ (q_all q ++ recs) (q_done q)) torn'.
Proof.
  intros Hq. destruct (append_content k r sc d) as (sfx & Hc & Hp).
  pose proof (split_lines_spec (torn ++ sfx)) as Hs.
  destruct (split_lines (torn ++ sfx)) as [recs torn']. destruct Hs as (Heq & Hrs & Ht).
  exists recs, torn'. destruct Hq as [Hl Ho Hf _ Hd]. split; simpl.
  - by rewrite Hc, Hl, <- app_assoc, Heq, encode_app, <- app_assoc.
  - unfold _read_committed_offset in *. rewrite Hp by auto with queue. rewrite Ho.
    f_equal. unfold q_position. simpl. by rewrite take_app_le.
  - by apply Forall_app.
  - done.
  - rewrite length_app. lia.
Qed.

(** ** The invariant *)

Section spec.
Context {S : Type} `{!DrainEnv S}.
Variable k : string.
Variable ws : string.
Hypothesis Hk : _validate_session_id k = true.

Implicit Types st : DState S.

Definition safe_record st (r : LogRecord) : Prop := r ∈ durable st \/ r ∈ dead st.
Definition covered st : Prop := Forall (safe_record st) (acked st).

(** The queue of [st] is [q], [B] is a run of its next records, and every
    acknowledged record is durable in the graph or dead-lettered. *)
Definition Good (q : aqueue) (B : list LogRecord) st : Prop :=
  (exists torn, implements k (qdir st) q torn) /\ B `prefix_of` pending_records q /\ covered st.
Definition Inv st : Prop := exists q, Good q [] st.
Definition InvE (e : exn) st : Prop := Inv st.

Lemma Good_Inv q B st : Good q B st -> Inv st.
Proof. intros (Hq & _ & Hc). exists q. split; [done|]. split; [apply prefix_nil|done]. Qed.

(** The part of the state the invariant reads. *)
Definition core st := (qdir st, buffered st, durable st, dead st, acked st).

(** Operations that do not touch it. *)
Definition quiet {A} (m : M (DState S) A) : Prop := forall st, core (snd (m st)) = core st.
Definition core_only (P : DState S -> Prop) : Prop :=
  forall st st', core st = core st' -> P st -> P st'.

Lemma triple_quiet {A} (m : M (DState S) A) P :
  quiet m -> core_only P -> triple P m (fun _ => P) (fun _ => P).
Proof.
  intros Hm HP st Hs. specialize (Hm st). destruct (m st) as [[a|e] st'];
    apply (HP st); auto; by symmetry.
Qed.

Lemma quiet_ret {A} (a : A) : quiet (mret a).
Proof. done. Qed.
Lemma quiet_raise {A} e : quiet (@mraise _ A e).
Proof. done. Qed.
Lemma quiet_bind {A B} (m : M (DState S) A) (f : A -> M (DState S) B) :
  quiet m -> (forall a, quiet (f a)) -> quiet (mbind m f).
Proof.
  intros Hm Hf st. unfold mbind. specialize (Hm st). destruct (m st) as [[a|e] st']; [|done].
  rewrite Hf. done.
Qed.
Lemma quiet_catch {A} (m : M (DState S) A) h :
  quiet m -> (forall e, quiet (h e)) -> quiet (mcatch m h).
Proof.
  intros Hm Hh st. unfold mcatch. specialize (Hm st). destruct (m st) as [[a|e] st']; [done|].
  rewrite Hh. done.
Qed.
Lemma quiet_when b (m : M (DState S) unit) : quiet m -> quiet (mwhen b m).
Proof. by destruct b. Qed.
Lemma quiet_env {A} (m : M S A) : quiet (lift_env m).
Proof. intros st. unfold lift_env. by destruct (m (env st)). Qed.
Lemma quiet_clock f : quiet (clock f).
Proof. intros st. unfold clock. by destruct (f (env st)). Qed.
Lemma quiet_hook {A} (h : option (A -> M S unit)) a : quiet (hook h a).
Proof. destruct h; [apply quiet_env|apply quiet_ret]. Qed.
Lemma quiet_run_opt h : quiet (run_opt h).
Proof. destruct h; [apply quiet_env|apply quiet_ret]. Qed.

Hint Resolve quiet_ret quiet_raise quiet_bind quiet_catch quiet_when quiet_env quiet_clock
  quiet_hook quiet_run_opt : queue.

Lemma quiet_ring event data ok error : quiet (ring_buffer_add ws event data ok error).
Proof. destruct data; simpl; (apply quiet_bind; [apply quiet_clock|done]). Qed.

Lemma quiet_process_one event data wd ident : quiet (_process_one ws event data wd ident).
Proof.
  unfold _process_one. set (body := mbind _ _).
  assert (Hb : quiet body).
  { apply quiet_bind; [apply quiet_env|intros _]. apply quiet_bind; [apply quiet_clock|done]. }
  clearbody body. intros st. specialize (Hb st). destruct (body st) as [[[]|e] st']; simpl in Hb.
  - by rewrite quiet_ring.
  - rewrite <- Hb. destruct (is_Exception e).
    + refine (quiet_bind _ _ _ _ st'); [done|]. intros _.
      apply quiet_bind; [apply quiet_ring|auto with queue].
    + refine (quiet_bind _ _ _ _ st'); [apply quiet_ring|auto with queue].
Qed.

Lemma quiet_nonempty_hook h recs : quiet (nonempty_hook h recs).
Proof. destruct recs; simpl; auto with queue. Qed.

Lemma quiet_post_commit recs : quiet (_post_commit recs).
Proof.
  apply quiet_catch; [apply quiet_nonempty_hook|]. intros e. destruct (is_Exception e); auto with queue.
Qed.

Lemma quiet_guard : quiet _recovery_write_guard.
Proof. apply quiet_when, quiet_env. Qed.

Lemma quiet_written n : quiet (record_written n).
Proof. done. Qed.
Lemma quiet_retry : quiet record_write_retry.
Proof. done. Qed.
Lemma quiet_deregister : quiet _deregister.
Proof. done. Qed.
Lemma quiet_complete : quiet (complete_session k ws).
Proof. apply quiet_bind; [apply quiet_clock|done]. Qed.

(** [pre] has been dispatched into the graph buffer; [pre] is safe. *)
Definition InBuffer (pre : list LogRecord) st : Prop := Forall (fun r => r ∈ buffered st) pre.
Definition Safe (pre : list LogRecord) st : Prop := Forall (safe_record st) pre.

Lemma core_only_Good q B : core_only (Good q B).
Proof.
  intros st st' [= Hd Hb Hu Hx Ha]. unfold Good, covered, safe_record.
  by rewrite Hd, Hu, Hx, Ha.
Qed.
Lemma core_only_InBuffer pre : core_only (InBuffer pre).
Proof. intros st st' [= Hd Hb Hu Hx Ha]. unfold InBuffer. by rewrite Hb. Qed.
Lemma core_only_Safe pre : core_only (Safe pre).
Proof. intros st st' [= Hd Hb Hu Hx Ha]. unfold Safe, safe_record. by rewrite Hu, Hx. Qed.
Lemma core_only_and (P Q : DState S -> Prop) :
  core_only P -> core_only Q -> core_only (fun st => P st /\ Q st).
Proof. intros HP HQ st st' Hc []. split; eauto. Qed.
Lemma core_only_Inv : core_only Inv.
Proof. intros st st' Hc [q Hq]. exists q. by eapply core_only_Good. Qed.
Hint Resolve core_only_Good core_only_InBuffer core_only_Safe core_only_and core_only_Inv : queue.

(** A quiet step keeps the pre-condition, also when it raises. *)
Lemma triple_quiet_exit {A} (m : M (DState S) A) (P : DState S -> Prop) E :
  quiet m -> core_only P -> (forall e st, P st -> E e st) -> triple P m (fun _ => P) E.
Proof. intros Hm HP HE. eapply triple_conseq; [by apply triple_quiet|done|done|exact HE]. Qed.

Lemma triple_quiet_bind {A B} (m : M (DState S) A) (f : A -> M (DState S) B) P R E :
  quiet m -> core_only P -> (forall e st, P st -> E e st) ->
  (forall a, triple P (f a) R E) -> triple P (mbind m f) R E.
Proof. intros Hm HP HE Hf. eapply triple_bind; [by apply triple_quiet_exit|]. apply Hf. Qed.

(** *** Flush *)

Lemma Good_weaken q B st st' :
  qdir st' = qdir st -> acked st' = acked st ->
  (forall r, safe_record st r -> safe_record st' r) -> Good q B st -> Good q B st'.
Proof.
  intros Hd Ha Hs (Hq & HB & Hc). unfold Good, covered. rewrite Hd, Ha.
  split; [done|]. split; [done|]. eapply Forall_impl; eauto.
Qed.

Lemma triple_flush q B pre :
  triple (fun st => Good q B st /\ InBuffer pre st) _flush_barrier
    (fun _ st => Good q B st /\ Safe pre st) (fun _ => Good q B).
Proof.
  unfold _flush_barrier, _flush_graph.
  do 2 (apply triple_quiet_bind; [auto with queue|auto with queue|by intros ? ? []|intros _]).
  apply triple_bind with (Q := fun _ st => Good q B st /\ Safe pre st).
  - apply triple_modify. intros st [HG HB]. split.
    + eapply Good_weaken; [..|done]; [done|done|].
      intros r [Hr|Hr]; [left|by right]. simpl. apply elem_of_app. by left.
    + unfold Safe, InBuffer in *. eapply Forall_impl; [exact HB|]. intros r Hr. left. simpl.
      apply elem_of_app. by right.
  - intros _. apply triple_quiet_exit; [|auto with queue|by intros ? ? []].
    apply quiet_bind; [apply quiet_clock|done].
Qed.

(** *** Commit *)

Lemma newly_acked_prefix d q torn m :
  implements k d q torn ->
  newly_acked k d (q_position q (q_done q + m)) = take m (pending_records q).
Proof.
  intros Hq. unfold newly_acked.
  rewrite (read_batch_next k d q torn) by done. cbn [records].
  set (n := length (file_content d (_log_path k))).
  assert (Hn : q_pending q <= n).
  { unfold n. rewrite (impl_log _ _ _ _ Hq), length_app. unfold q_pending.
    pose proof (encode_length_ge (q_all q)). lia. }
  assert (next q n = drop (q_done q) (q_all q)) as ->.
  { unfold next. apply take_ge. rewrite length_drop. unfold q_pending in Hn. lia. }
  rewrite q_position_add. unfold next. rewrite filter_mk_records.
  unfold pending_records. by rewrite take_mk_records.
Qed.

Lemma triple_commit q B m :
  triple (fun st => Good q B st /\ Safe (take m B) st /\ m <= length B)
    (qm_commit k (q_position q (q_done q + m)))
    (fun _ => Good (acknowledge q m) (drop m B)) InvE.
Proof.
  intros st (([torn Hq] & HB & Hc) & Hs & Hm). unfold qm_commit.
  destruct (os_commit (env st)) as [[[sc u] cancelled] e].
  assert (Hpend : m <= q_pending q).
  { apply prefix_length in HB. rewrite length_pending in HB. lia. }
  pose proof (commit_acknowledges k (qdir st) q torn m u sc Hq Hk Hpend) as Hcom.
  assert (Hack : newly_acked k (qdir st) (q_position q (q_done q + m)) = take m B).
  { rewrite (newly_acked_prefix _ _ torn) by done. destruct HB as [x ->]. by rewrite take_app_le. }
  destruct (commit k _ u sc (qdir st)) as [[[]|x] d'].
  - rewrite Hack. set (st' := with_history _ _ _ _ _).
    assert (HG : Good (acknowledge q m) (drop m B) st').
    { split; [by exists torn|]. split.
      - rewrite <- drop_pending. destruct HB as [x ->]. rewrite drop_app_le by done. by eexists.
      - unfold covered. simpl. by apply Forall_app. }
    unfold settle. rewrite Hk, andb_true_r. destruct cancelled; [by eapply Good_Inv|done].
  - assert (HI : Inv (with_dir e d' st)) by (exists q; split; [by exists torn|]; split; [apply prefix_nil|done]).
    unfold settle. by destruct (cancelled && _).
Qed.

(** A failure before the acknowledgement leaves the batch pending; one of the
    acknowledgement itself (or a cancellation) leaves at least the invariant. *)
Definition Pending (q : aqueue) (B : list LogRecord) (e : exn) st : Prop :=
  match e with QueueCommitFailure _ | CancelledError => Inv st | _ => Good q B st end.

Lemma Good_Pending q B e st : Good q B st -> Pending q B e st.
Proof. intros HG. unfold Pending. destruct e; eauto using Good_Inv. Qed.
Lemma Pending_Inv q B e st : Pending q B e st -> Inv st.
Proof. unfold Pending. destruct e; eauto using Good_Inv. Qed.
Hint Resolve Good_Pending Pending_Inv Good_Inv : queue.

Lemma triple_flush_and_commit q B m recs elig :
  m <= length B ->
  triple (fun st => Good q B st /\ InBuffer (take m B) st)
    (_flush_and_commit k recs (q_position q (q_done q + m)) elig)
    (fun _ => Good (acknowledge q m) (drop m B)) (Pending q B).
Proof.
  intros Hm. unfold _flush_and_commit.
  do 3 (apply triple_quiet_bind;
    [auto using quiet_guard with queue|auto with queue|intros ? ? []; auto with queue|intros _]).
  apply triple_bind with (Q := fun _ st => Good q B st /\ Safe (take m B) st).
  { eapply triple_conseq; [apply (triple_flush q B (take m B))|done|done|by intros; apply Good_Pending]. }
  intros _. apply triple_quiet_bind;
    [apply quiet_nonempty_hook|auto with queue|intros ? ? []; auto with queue|intros _].
  apply triple_catch with (E' := InvE).
  - eapply triple_conseq; [apply triple_commit|naive_solver|auto|auto].
  - intros e st Hi. by destruct e.
Qed.

(** *** Dispatch of a batch *)

(** What [_process_batch] reports about the records seen so far. *)
Definition counts (seen : list LogRecord) (acc : nat * option Z) : Prop :=
  match acc.2 with
  | None => acc.1 = length seen
  | Some t => exists r, seen !! acc.1 = Some r /\ rec_start r = t
  end.

Lemma counts_more seen rec acc t :
  counts seen acc -> acc.2 = Some t -> counts (seen ++ [rec]) acc.
Proof.
  unfold counts. intros Hc Ht. rewrite Ht in *. destruct Hc as (r & Hr & Hst).
  exists r. split; [|done]. by apply lookup_app_l_Some.
Qed.

Lemma triple_process_records q B seen recs acc :
  counts seen acc ->
  triple (fun st => Good q B st /\ InBuffer seen st) (process_records ws recs acc)
    (fun acc' st => Good q B st /\ InBuffer (seen ++ recs) st /\ counts (seen ++ recs) acc')
    (fun _ => Good q B).
Proof.
  revert seen acc. induction recs as [|rec recs IH]; intros seen acc Hacc; simpl.
  { rewrite app_nil_r. intros st [HG Hb]. exact (conj HG (conj Hb Hacc)). }
  destruct (_parse_line (raw rec)) as [[[[[ev w] wd] data] ident]|e];
    [|apply triple_lift_err; by intros ? []].
  apply triple_lift_ok.
  apply triple_bind with (Q := fun _ st => Good q B st /\ InBuffer seen st).
  { apply triple_quiet_exit; [apply quiet_process_one|auto with queue|by intros ? ? []]. }
  intros _. replace (seen ++ rec :: recs) with ((seen ++ [rec]) ++ recs) by (by rewrite <- app_assoc).
  apply triple_bind with (Q := fun _ st => Good q B st /\ InBuffer (seen ++ [rec]) st).
  { apply triple_modify. intros st [HG Hb]. split; [by eapply Good_weaken; [..|exact HG]|].
    unfold InBuffer in *. apply Forall_app. split.
    - eapply Forall_impl; [exact Hb|]. intros r Hr. simpl. apply elem_of_app. by left.
    - repeat constructor. simpl. apply elem_of_app. right. by apply list_elem_of_singleton. }
  intros _. destruct acc as [n [t|]]; simpl.
  { apply IH. by eapply counts_more. }
  destruct (is_terminal ev) as [term|e];
    [|apply triple_lift_err; by intros ? []].
  apply triple_lift_ok, IH. unfold counts in *. simpl in Hacc. subst n. destruct term; simpl.
  - exists rec. split; [|done]. by rewrite lookup_app_r, Nat.sub_diag by lia.
  - rewrite length_app. simpl. lia.
Qed.

(** *** Quarantine *)

Lemma implements_dead_letter r ts err sc d q torn :
  implements k d q torn -> implements k (snd (dead_letter k r ts err sc d)) q torn.
Proof.
  intros Hq. unfold dead_letter. rewrite Hk.
  destruct (_write_record _ _ sc d) as [res d'] eqn:Hw.
  apply write_record_shape in Hw as [[-> ->]|[[-> ->]|(-> & w & t & _ & _ & _ & ->)]]; [|done|];
    (eapply implements_same; [..|done]; cbn [snd]; by rewrite lookup_insert_ne by auto with queue).
Qed.

Lemma triple_dead_letter q B rec err :
  triple (Good q B) (qm_dead_letter k rec err) (fun _ st => Good q B st /\ Safe [rec] st) InvE.
Proof.
  intros st ([torn Hq] & HB & Hc). unfold qm_dead_letter.
  destruct (os_write (env st)) as [[sc cancelled] e].
  pose proof (implements_dead_letter (raw rec) (time_repr (env st)) err sc _ _ _ Hq) as Hd.
  destruct (dead_letter k _ _ _ sc (qdir st)) as [[[]|x] d']; simpl in Hd.
  - set (st' := with_history _ _ _ _ _).
    assert (HG : Good q B st').
    { split; [by exists torn|]. split; [done|]. unfold covered in *. eapply Forall_impl; [exact Hc|].
      intros r [Hr|Hr]; [by left|right]. simpl. apply elem_of_app. by left. }
    unfold settle. rewrite Hk, andb_true_r. destruct cancelled; [by eapply Good_Inv|]. split; [done|]. apply Forall_singleton. right. simpl.
    apply elem_of_app. right. by apply list_elem_of_singleton.
  - assert (HI : Inv (with_dir e d' st)) by (exists q; split; [by exists torn|]; split; [apply prefix_nil|done]).
    unfold settle. by destruct (cancelled && _).
Qed.

Lemma triple_discard (q : aqueue) B pre E :
  triple (fun st => Good q B st /\ Safe pre st) graph_discard_buffer
    (fun _ st => Good q B st /\ Safe pre st) E.
Proof. by apply triple_modify. Qed.

Lemma triple_quarantine q rec B :
  triple (fun st => Good q (rec :: B) st /\ Safe [rec] st) (_quarantine_and_commit k rec)
    (fun _ => Good (acknowledge q 1) B) InvE.
Proof.
  unfold _quarantine_and_commit, _publish_quarantine_then_ack, _before_quarantine.
  do 2 (apply triple_quiet_bind;
    [auto using quiet_guard with queue|auto with queue|intros ? ? [? _]; by eapply Good_Inv|intros _]).
  intros st [HG Hs]. assert (HG' := HG). destruct HG' as (_ & [x HB] & _).
  destruct (lookup_pending q 0 rec) as [_ ->]; [by rewrite HB|].
  rewrite Nat.add_0_r. apply (triple_commit q (rec :: B) 1). split; [done|]. split; [done|simpl; lia].
Qed.

Lemma triple_isolate_one q rec B event data wd ident :
  triple (Good q (rec :: B))
    (mcatch (_process_one ws event data wd ident ;;; note_buffered rec ;;;
             _flush_and_commit k [rec] (rec_end rec) [rec] ;;; mret false)
       (isolate_failure k rec))
    (fun quarantined st => if (quarantined : bool) then Good q (rec :: B) st /\ Safe [rec] st
                           else Good (acknowledge q 1) B st) InvE.
Proof.
  apply triple_catch with (E' := Pending q (rec :: B)).
  - apply triple_quiet_bind; [apply quiet_process_one|auto with queue|auto with queue|intros _].
    apply triple_bind with (Q := fun _ st => Good q (rec :: B) st /\ InBuffer [rec] st).
    { apply triple_modify. intros st HG. split; [by eapply Good_weaken; [..|exact HG]|].
      apply Forall_singleton. simpl. apply elem_of_app. right. by apply list_elem_of_singleton. }
    intros _. apply triple_bind with (Q := fun _ => Good (acknowledge q 1) B); [|by intros _ st].
    intros st [HG Hb]. assert (HG' := HG). destruct HG' as (_ & [x HB] & _).
    destruct (lookup_pending q 0 rec) as [_ ->]; [by rewrite HB|].
    rewrite Nat.add_0_r. apply (triple_flush_and_commit q (rec :: B) 1); [simpl; lia|done].
  - intros e. unfold isolate_failure.
    destruct (match e with QueueCommitFailure _ | CancelledError => true | _ => false end) eqn:He.
    { destruct e; try discriminate He; by intros st. }
    apply triple_conseq with (P' := Good q (rec :: B)) (Q' := fun b st => if (b : bool)
        then Good q (rec :: B) st /\ Safe [rec] st else Good (acknowledge q 1) B st) (E' := InvE);
      [|by destruct e|done|done].
    assert (match e with QueueCommitFailure _ => False | _ => True end) as Hnc by (by destruct e).
    set (f := if negb (is_Exception e) then _ else _).
    assert (triple (Good q (rec :: B)) f (fun b st => if (b : bool)
        then Good q (rec :: B) st /\ Safe [rec] st else Good (acknowledge q 1) B st) InvE) as Hf;
      [|by destruct e].
    unfold f. destruct (negb _); [intros st HG; by eapply Good_Inv|].
    destruct (_is_transient_infra_error e).
    + intros st HG. apply (Good_Inv q (rec :: B)). by eapply Good_weaken; [..|exact HG].
    + apply triple_bind with (Q := fun _ st => Good q (rec :: B) st /\ Safe [rec] st);
        [apply triple_dead_letter|intros _].
      apply triple_bind with (Q := fun _ st => Good q (rec :: B) st /\ Safe [rec] st);
        [apply triple_discard|by intros _ st].
Qed.

Lemma triple_isolate q B :
  triple (Good q B) (isolate_records k ws B) (fun _ => Inv) InvE.
Proof.
  revert q. induction B as [|rec B IH]; intros q; simpl; [intros st HG; by eapply Good_Inv|].
  destruct (_parse_line (raw rec)) as [[[[[ev w] wd] data] ident]|e].
  - destruct (is_terminal ev) as [[|]|e].
    + apply triple_lift_ok. intros st HG. by eapply Good_Inv.
    + apply triple_lift_ok. eapply triple_bind; [apply triple_isolate_one|]. intros [|]; cbv beta iota.
      * eapply triple_bind; [apply triple_quarantine|]. intros u. apply IH.
      * apply triple_bind with (Q := fun _ => Good (acknowledge q 1) B); [|intros _; apply IH].
        apply triple_quiet_exit; [|auto with queue|intros ? ? HG; by eapply Good_Inv].
        apply quiet_bind; [done|intros _; apply quiet_post_commit].
    + apply triple_lift_err. intros st HG. by eapply Good_Inv.
  - destruct (is_Exception e); [|intros st HG; by eapply Good_Inv].
    apply triple_bind with (Q := fun _ st => Good q (rec :: B) st /\ Safe [rec] st);
      [apply triple_dead_letter|intros _].
    apply triple_bind with (Q := fun _ st => Good q (rec :: B) st /\ Safe [rec] st);
      [apply triple_discard|intros _].
    eapply triple_bind; [apply triple_quarantine|]. intros u. apply IH.
Qed.

(** *** Reading and deleting, with concurrent appends *)

Lemma triple_appends : triple Inv (concurrent_appends k) (fun _ => Inv) InvE.
Proof.
  intros st (q & [torn Hq] & _ & Hc). unfold concurrent_appends.
  destruct (interfere (env st)) as [l e].
  assert (H : forall d q torn, implements k d q torn -> exists q' torn',
    implements k (fold_left (fun d a => snd (append k a.1 a.2 d)) l d) q' torn').
  { clear. induction l as [|a l IH]; intros d q torn Hq; simpl; [eauto|].
    destruct (append_extends k a.1 a.2 d q torn Hq) as (recs & torn' & Hq'). eauto. }
  destruct (H _ _ _ Hq) as (q' & torn' & Hq'). exists q'.
  split; [by exists torn'|]. split; [apply prefix_nil|done].
Qed.

(** A batch holds the next records and its [end_offset] is their end. *)
Definition AtBatch (b : Batch) st : Prop :=
  exists q, Good q (records b) st /\ end_offset b = q_position q (q_done q + length (records b)).

Lemma q_position_next q n : q_position q (q_done q + length (next q n)) = q_position q (q_done q + n).
Proof.
  rewrite !q_position_add. unfold next. generalize (drop (q_done q) (q_all q)) as l. intros l.
  replace (take (length (take n l)) l) with (take n l); [done|].
  rewrite length_take. destruct (decide (n <= length l)).
  - by rewrite Nat.min_l by lia.
  - rewrite !take_ge by lia. done.
Qed.

Lemma triple_read : triple Inv (qm_read_batch k) AtBatch InvE.
Proof.
  unfold qm_read_batch. eapply triple_bind; [apply triple_appends|]. intros u; cbv beta.
  apply triple_quiet_bind; [auto with queue..|intros _].
  intros st (q & [torn Hq] & _ & Hc). rewrite (read_batch_next k _ q torn) by done.
  exists q. cbn [records end_offset]. rewrite length_mk_records, q_position_next.
  split; [|done]. split; [by exists torn|]. split; [|done].
  unfold pending_records, next. rewrite <- take_mk_records. apply prefix_take.
Qed.

(** What a deletion leaves when the operating system refuses to unlink the offset after
    the log: the log, fully acknowledged, is gone and its offset is not. *)
Definition Stale st : Prop :=
  stale_offset k (qdir st) /\ covered st /\ exists s : S, (os_unlink s).1.1 = UnlinkFirst.
Definition Left st : Prop := Inv st \/ Stale st.
Definition LeftE (e : exn) st : Prop := Left st.

Lemma core_only_Left : core_only Left.
Proof.
  intros st st' Hc [HI|(Hs & Hcov & Hu)]; [left; by eapply core_only_Inv|right].
  injection Hc as Hd Hb Hdu Hx Ha. unfold Stale, covered, safe_record in *. by rewrite <- Hd, <- Hdu, <- Hx, <- Ha.
Qed.
Lemma Left_weaken st st' :
  qdir st' = qdir st -> durable st' = durable st -> dead st' = dead st -> acked st' = acked st -> Left st -> Left st'.
Proof.
  intros Hd Hu Hx Ha [(q & HG)|(Hs & Hcov & Hun)]; [left; exists q|right].
  - eapply Good_weaken; [done|done| |exact HG]. intros r. unfold safe_record. by rewrite Hu, Hx.
  - unfold Stale, covered, safe_record in *. by rewrite Hd, Hu, Hx, Ha.
Qed.
(** Where nothing is deleted. *)
Lemma triple_left {A} P (m : M (DState S) A) Q : triple P m Q InvE -> triple P m Q LeftE.
Proof. intros Hm. eapply triple_conseq; [exact Hm|done|done|]. intros e st HI. by left. Qed.

Lemma triple_delete : triple Inv (qm_delete_drained k) (fun _ => Inv) LeftE.
Proof.
  unfold qm_delete_drained. eapply triple_bind; [apply triple_left, triple_appends|]. intros u; cbv beta.
  intros st (q & [torn Hq] & _ & Hc). destruct (os_unlink (env st)) as [[sc cancelled] e] eqn:Hun.
  pose proof (delete_drained_spec k sc (qdir st) q torn Hq Hk) as Hspec.
  destruct (delete_drained k sc (qdir st)) as [r d']. destruct Hspec as (_ & Hyes & Htrue & Hfalse & _). set (st' := with_dir e d' st).
  assert (Hkeep : forall q' torn', implements k d' q' torn' -> Inv st').
  { intros q' torn' Hq'. exists q'. split; [by exists torn'|]. split; [apply prefix_nil|done]. }
  assert (HL : match r with Ok _ => Inv st' | Err _ => Left st' end).
  { destruct r as [[]|x]; [by eapply Hkeep, Htrue|..]; destruct Hfalse as [-> |(-> & Had & Hst)]; try done; try by eapply Hkeep.
    - by destruct (Hyes Had) as [?|[? _]].
    - left. by eapply Hkeep.
    - right. split; [done|]. split; [done|]. exists (env st). by rewrite Hun. }
  unfold settle. destruct (cancelled && _); [destruct r; [by left|done]|by destruct r].
Qed.

(** *** One batch *)

Lemma triple_process_batch q b :
  triple (Good q (records b)) (_process_batch ws b)
    (fun acc st => (Good q (records b) st /\ InBuffer (records b) st) /\ counts (records b) acc)
    (Pending q (records b)).
Proof.
  eapply triple_conseq; [apply (triple_process_records q (records b) [] (records b) (0, None)); done| | |].
  - intros st HG. split; [done|constructor].
  - simpl. naive_solver.
  - intros. by apply Good_Pending.
Qed.

Lemma InBuffer_take m B st : InBuffer B st -> InBuffer (take m B) st.
Proof. apply Forall_take. Qed.

Lemma counts_terminal q B n t st :
  Good q B st -> counts B (n, Some t) -> n <= length B /\ t = q_position q (q_done q + n).
Proof.
  intros (_ & [x HB] & _) (r & Hr & Hst). simpl in *.
  split; [apply Nat.lt_le_incl, lookup_lt_Some with r; done|].
  destruct (lookup_pending q n r) as [Hp _]; [|congruence]. rewrite HB. by apply lookup_app_l_Some.
Qed.

Lemma triple_dispatch q b :
  end_offset b = q_position q (q_done q + length (records b)) ->
  triple (Good q (records b)) (dispatch_batch k ws b) (fun _ => Inv) (Pending q (records b)).
Proof.
  intros Hend. unfold dispatch_batch. eapply triple_bind; [apply triple_process_batch|].
  intros [n [t|]] st [[HG Hb] Hc]; cbv zeta.
  - destruct (counts_terminal _ _ _ _ _ HG Hc) as [Hn ->].
    refine (triple_bind (fun st => Good q (records b) st /\ InBuffer (take n (records b)) st)
      _ _ (fun _ => Inv) _ _ _ _ st (conj HG (InBuffer_take n _ _ Hb))); [|by intros u st'].
    eapply triple_conseq; [by apply (triple_flush_and_commit q (records b) n)|done|
      intros ? ? HG'; exact (Good_Inv _ _ _ HG')|done].
  - rewrite Hend. set (n' := length (records b)).
    refine (triple_bind (fun st => Good q (records b) st /\ InBuffer (take n' (records b)) st)
      _ _ (fun _ => Inv) _ _ _ _ st (conj HG (InBuffer_take n' _ _ Hb))); [|by intros u st'].
    eapply triple_conseq; [by apply (triple_flush_and_commit q (records b) n')|done|
      intros ? ? HG'; exact (Good_Inv _ _ _ HG')|done].
Qed.

(** *** Finalization *)

Lemma Inv_quiet_exit {A} (m : M (DState S) A) :
  quiet m -> triple Inv m (fun _ => Inv) InvE.
Proof. intros Hm. apply triple_quiet_exit; [done|apply core_only_Inv|done]. Qed.

Lemma triple_tail q b :
  end_offset b = q_position q (q_done q + length (records b)) ->
  triple (Good q (records b))
    (_process_batch ws b ;;; _flush_and_commit k (records b) (end_offset b) (records b))
    (fun _ => Inv) (Pending q (records b)).
Proof.
  intros Hend. eapply triple_bind; [apply triple_process_batch|].
  intros acc st [[HG Hb] _]. rewrite Hend. set (n := length (records b)).
  pose proof (triple_flush_and_commit q (records b) n (records b) (records b) (Nat.le_refl _) st
                (conj HG (InBuffer_take n _ _ Hb))) as Ht.
  destruct (_flush_and_commit k _ _ _ st) as [[u|e] st']; [exact (Good_Inv _ _ _ Ht)|done].
Qed.

Lemma triple_eof fuel : triple Inv (_drain_to_eof k ws fuel) (fun _ => Inv) InvE.
Proof.
  induction fuel as [|fuel IH]; simpl; [by intros st|].
  eapply triple_bind; [apply triple_read|]. intros b st (q & HG & Hend).
  destruct (records b) as [|r0 rs] eqn:Hrs; [by eapply Good_Inv|]. rewrite <- Hrs in *.
  pose proof (triple_tail q b Hend st HG) as Ht.
  destruct (mbind _ _ st) as [[u|e] st'].
  - refine (triple_bind _ _ _ (fun _ => Inv) _ _ (Inv_quiet_exit _ (quiet_written _)) _ st' Ht). intros _.
    eapply triple_bind; [apply Inv_quiet_exit, quiet_post_commit|]. intros u'. apply IH.
  - apply Pending_Inv in Ht. destruct e; done.
Qed.

Lemma triple_safe_close : triple Left _safe_close (fun _ => Left) LeftE.
Proof.
  unfold _safe_close. eapply triple_bind; [by apply triple_quiet_exit; [|apply core_only_Left|]|]. intros u; cbv beta.
  apply triple_catch with (E' := LeftE).
  - apply triple_bind with (Q := fun _ => Left); [|intros u'; by apply triple_quiet_exit; [apply quiet_env|apply core_only_Left|]].
    destruct is_recovery; [|by intros st]. apply triple_modify. intros st. by apply Left_weaken.
  - intros e. by destruct (is_Exception e); intros st.
Qed.

Lemma triple_abandon : triple Left abandon (fun _ => Left) LeftE.
Proof.
  eapply triple_bind; [apply triple_safe_close|]. intros u; cbv beta.
  eapply triple_bind; [by apply triple_quiet_exit; [apply quiet_deregister|apply core_only_Left|]|]. by intros u' st.
Qed.

Lemma triple_delete_attempts fuel n :
  triple Inv (delete_attempts k ws fuel n) (fun _ => Inv) LeftE.
Proof.
  induction n as [|n IH]; simpl; [by intros st|].
  eapply triple_bind; [apply triple_delete|]. intros [|]; cbv beta; [by intros st|].
  destruct n as [|n]; [by intros st|].
  eapply triple_bind; [apply triple_left, triple_eof|]. intros [[|]|]; cbv beta; [apply IH|by intros st..].
Qed.

(** An iteration goes on only from a well-formed queue. *)
Definition After (r : step) st : Prop := match r with Continue _ => Inv st | _ => Left st end.
Lemma Inv_After r st : Inv st -> After r st.
Proof. destruct r; [done|by left..]. Qed.

Lemma triple_finalize fuel : triple Inv (_finalize_session k ws fuel) (fun _ => Left) LeftE.
Proof.
  unfold _finalize_session. eapply triple_bind; [apply triple_left, triple_eof|].
  intros [[|]|]; cbv beta; [|by intros st; left..].
  eapply triple_bind; [apply triple_left, Inv_quiet_exit, quiet_complete|]. intros u; cbv beta.
  eapply triple_bind; [apply triple_delete_attempts|]. intros [[|]|]; cbv beta; [|by intros st; left..].
  eapply triple_bind; [eapply triple_conseq; [apply triple_safe_close|by left|done|done]|]. intros u'; cbv beta.
  eapply triple_bind; [by apply triple_quiet_exit; [apply quiet_deregister|apply core_only_Left|]|]. by intros u'' st.
Qed.

Lemma triple_finalize_step fuel :
  triple Inv (let! r := _finalize_session k ws fuel in mret (to_step r)) After LeftE.
Proof. eapply triple_bind; [apply triple_finalize|]. by intros [] st. Qed.

(** *** The loop *)

Lemma triple_idle v : triple Inv (idle_step k v) After LeftE.
Proof.
  unfold idle_step. eapply triple_bind; [apply triple_left, Inv_quiet_exit, quiet_env|]. intros u; cbv beta.
  eapply triple_bind; [apply triple_left, Inv_quiet_exit, quiet_clock|]. intros now; cbv beta.
  destruct (_ <=? _)%Z; [|by intros st].
  eapply triple_bind; [apply triple_left, Inv_quiet_exit, quiet_clock|]. intros now'; cbv beta zeta.
  eapply triple_bind; [apply triple_left, Inv_quiet_exit, quiet_clock|]. intros wall; cbv beta.
  apply triple_bind with (Q := fun _ => Inv); [by intros st|]. intros st0.
  destruct (_ && _).
  - unfold abandon. eapply triple_bind; [eapply triple_conseq; [apply triple_safe_close|by left|done|done]|]. intros u'; cbv beta.
    eapply triple_bind; [by apply triple_quiet_exit; [apply quiet_deregister|apply core_only_Left|]|]. by intros u'' st.
  - eapply triple_bind; [apply triple_delete|]. by intros b st.
Qed.

Lemma triple_transient v : triple Inv (transient_retry v) After LeftE.
Proof.
  unfold transient_retry. destruct (transient_delay _); [|apply triple_lift_err; by left].
  apply triple_lift_ok. eapply triple_bind; [apply triple_left, Inv_quiet_exit, quiet_env|]. by intros u st.
Qed.

Lemma triple_poison fuel b v q :
  triple (Good q (records b)) (poison_retry k ws fuel b v) After LeftE.
Proof.
  unfold poison_retry. destruct (_ <=? _)%Z.
  - intros st HG.
    assert (HD : Good q (records b) (snd (graph_discard_buffer st))) by (by eapply Good_weaken; [..|exact HG]).
    pose proof (triple_isolate q (records b) _ HD) as Hi.
    unfold _handle_exhausted_batch, mbind. simpl. simpl in Hi.
    destruct (isolate_records k ws (records b) _) as [[[|]|e] st']; [|done|].
    + by apply triple_finalize_step.
    + destruct e; try (by left). by apply triple_transient.
  - apply triple_conseq with (P' := Inv) (Q' := After) (E' := LeftE); [|apply Good_Inv|done|done].
    eapply triple_bind; [apply triple_left, Inv_quiet_exit, quiet_env|]. by intros u st.
Qed.

Lemma triple_batch_step fuel b v :
  triple (AtBatch b) (batch_step k ws fuel b v) After LeftE.
Proof.
  intros st (q & HG & Hend). unfold batch_step.
  pose proof (triple_dispatch q b Hend st HG) as Hd.
  destruct (dispatch_batch k ws b st) as [[[[n t] recs]|e] st'].
  - refine (triple_bind _ _ _ (fun _ => Inv) _ _ (triple_left _ _ _ (Inv_quiet_exit _ (quiet_written _))) _ st' Hd). intros _.
    eapply triple_bind; [apply triple_left, Inv_quiet_exit, quiet_post_commit|]. intros u; cbv beta.
    destruct t; [apply triple_finalize_step|by intros st''].
  - unfold dispatch_failure.
    assert (HP : forall v', Good q (records b) st' ->
      triple (fun s => s = st') (record_write_retry ;;; poison_retry k ws fuel b v') After LeftE).
    { intros v' HG'. apply triple_bind with (Q := fun _ => Good q (records b)); [|intros u; apply triple_poison].
      apply triple_modify. intros s ->. by eapply Good_weaken; [..|exact HG']. }
    assert (HT : Inv st' -> triple (fun s => s = st') (record_write_retry ;;; transient_retry v) After LeftE).
    { intros HI. apply triple_bind with (Q := fun _ => Inv); [|intros u; apply triple_transient].
      intros s ->. by apply (Inv_quiet_exit _ quiet_retry). }
    assert (HA : Inv st' -> match abandon st' with (Ok r, s) => After r s | (Err x, s) => LeftE x s end).
    { intros HI. pose proof (triple_abandon st' (or_introl HI)) as Ha. unfold abandon, mbind in *.
      destruct (_safe_close st') as [[]]; [|done]. by destruct (_deregister _) as [[]]. }
    destruct e; simpl in Hd |- *; try (by apply (HP _ Hd)); try (by left);
      try (by apply (HT (Good_Inv _ _ _ Hd))).
    by apply HA.
Qed.

Lemma triple_iteration fuel v :
  triple Inv (drain_iteration k ws fuel v) After LeftE.
Proof.
  unfold drain_iteration. apply triple_catch with (E' := LeftE).
  - eapply triple_bind; [apply triple_left, triple_read|]. intros b; cbv beta.
    destruct (records b) as [|r rs] eqn:Hrs.
    + eapply triple_conseq; [apply triple_idle| |done|done]. intros st (q & HG & _). by eapply Good_Inv.
    + apply triple_quiet_bind; [apply quiet_clock| | |].
      * intros st st' Hc (q & HG & Hend). exists q. split; [by eapply core_only_Good|done].
      * intros e st (q & HG & _). left. by eapply Good_Inv.
      * intros now. apply triple_batch_step.
  - intros e. destruct e; try (by intros st). intros st HL. pose proof (triple_abandon st HL) as Ha. unfold abandon, mbind in *.
    destruct (_safe_close st) as [[]]; [|done]. by destruct (_deregister _) as [[]].
Qed.

Lemma triple_loop fuel v : triple Inv (drain_loop k ws fuel v) (fun _ => Left) LeftE.
Proof.
  revert v. induction fuel as [|fuel IH]; intros v; simpl; [by intros st; left|].
  eapply triple_bind; [apply triple_iteration|]. intros [v'| |]; cbv beta; [apply IH|by intros st..].
Qed.

Lemma triple_worker fuel : triple Inv (drain_worker k ws fuel) (fun _ => Left) LeftE.
Proof. eapply triple_bind; [apply triple_left, Inv_quiet_exit, quiet_clock|]. intros now. apply triple_loop. Qed.

Lemma worker_left fuel st : Inv st -> Left (drain_worker k ws fuel st).2.
Proof. intros Hi. assert (Ht := triple_worker fuel st Hi). by destruct (drain_worker k ws fuel st) as [[]]. Qed.
Lemma Left_covered st : Left st -> covered st.
Proof. intros [(q & _ & _ & Hc)|(_ & Hc & _)]; done. Qed.

(** C2: acknowledged means durable.  From a well-formed queue whose acknowledged
    records are safe, for every behaviour of handlers, store, hooks, clocks, concurrent
    appends and operating system: whenever the drain worker stops (or is observed
    after any number of iterations, normally, by an exception or by cancellation),
    every record its committed offset has moved past was flushed to the graph or
    dead-lettered.  The queue files are still a well-formed queue, with one
    exception: when the operating system refuses to unlink the offset after the log
    of a drained queue, the log is gone and its stale offset is left (what is
    appended then is hidden by it, [stale_offset_hides_records]). *)
Theorem drain_worker_acked_is_safe fuel st :
  Inv st ->
  let '(_, st') := drain_worker k ws fuel st in
  Forall (fun r => r ∈ durable st' \/ r ∈ dead st') (acked st')
  /\ ((exists q torn, implements k (qdir st') q torn) \/ stale_offset k (qdir st'))
  /\ ((forall s : S, (os_unlink s).1.1 <> UnlinkFirst) -> exists q torn, implements k (qdir st') q torn).
Proof.
  intros Hi. pose proof (worker_left fuel st Hi) as HL. destruct (drain_worker k ws fuel st) as [r st']. cbn [snd] in HL.
  split; [exact (Left_covered _ HL)|]. destruct HL as [(q & [torn Hq] & _)|(Hs & _ & s & Hu)].
  - split; [left|intros _]; by exists q, torn.
  - split; [by right|]. intros Hn. by destruct (Hn s).
Qed.

(** ** Transient failures hold the queue *)

(** Queue files, dead letters and acknowledgements are those of [st0]. *)
Definition Held (st0 st : DState S) : Prop :=
  qdir st = qdir st0 /\ dead st = dead st0 /\ acked st = acked st0.

Lemma core_only_Held st0 : core_only (Held st0).
Proof. intros st st' [= Hd Hb Hu Hx Ha]. unfold Held. by rewrite Hd, Hx, Ha. Qed.

Definition HeldE (st0 : DState S) (e : exn) st : Prop :=
  match e with QueueCommitFailure _ | CancelledError => True | _ => Held st0 st end.

Lemma Held_HeldE st0 e st : Held st0 st -> HeldE st0 e st.
Proof. by destruct e. Qed.
Hint Resolve core_only_Held Held_HeldE : queue.

Lemma held_process st0 recs acc :
  triple (Held st0) (process_records ws recs acc) (fun _ => Held st0) (HeldE st0).
Proof.
  revert acc. induction recs as [|rec recs IH]; intros acc; simpl; [by intros st|].
  destruct (_parse_line (raw rec)) as [[[[[ev w] wd] data] ident]|e];
    [apply triple_lift_ok|apply triple_lift_err; auto with queue].
  apply triple_quiet_bind; [apply quiet_process_one|auto with queue..|intros _].
  apply triple_bind with (Q := fun _ => Held st0); [by apply triple_modify|]. intros _.
  destruct (acc.2); [apply IH|].
  destruct (is_terminal ev); [apply triple_lift_ok, IH|apply triple_lift_err; auto with queue].
Qed.

Lemma held_flush_and_commit st0 recs off elig :
  triple (Held st0) (_flush_and_commit k recs off elig) (fun _ _ => True) (HeldE st0).
Proof.
  unfold _flush_and_commit, _flush_barrier, _flush_graph.
  do 3 (apply triple_quiet_bind; [auto using quiet_guard with queue..|intros _]).
  apply triple_bind with (Q := fun _ => Held st0).
  - do 2 (apply triple_quiet_bind; [auto with queue..|intros _]).
    apply triple_bind with (Q := fun _ => Held st0); [by apply triple_modify|]. intros _.
    apply triple_quiet_exit; [|auto with queue..]. apply quiet_bind; [apply quiet_clock|done].
  - intros _. apply triple_quiet_bind; [apply quiet_nonempty_hook|auto with queue..|intros _].
    apply triple_catch with (E' := fun _ _ => True).
    + intros st _. by destruct (qm_commit k off st) as [[]].
    + intros e st _. by destruct e.
Qed.

Lemma held_dispatch st b e st' :
  dispatch_batch k ws b st = (Err e, st') -> HeldE st e st'.
Proof.
  intros Hd. assert (Ht : triple (Held st) (dispatch_batch k ws b) (fun _ _ => True) (HeldE st)).
  { unfold dispatch_batch. eapply triple_bind; [apply held_process|]. intros [n t]; cbv beta zeta.
    eapply triple_bind; [apply held_flush_and_commit|]. by intros u s. }
  specialize (Ht st). rewrite Hd in Ht. by apply Ht.
Qed.

(** C5: an infrastructure failure never costs an event.  When dispatching or
    flushing a batch fails with a transient error, the step leaves the queue files
    untouched and adds neither a dead letter nor an acknowledgement, and it does not
    return: it goes on with the loop, the poison budget unspent and the transient
    counter one higher, or it dies of an exception, and then only of one its back-off
    sleep raised or, once the counter has reached 1024, of an [OverflowError].  With
    an undisturbed sleep and a counter below 1024 it therefore retries.  The counter
    is the loop's own: it counts every transient failure since the worker started or
    last met a deterministic one; a successful batch does not reset it. *)
Theorem transient_failure_holds_queue fuel b v st e st1 :
  dispatch_batch k ws b st = (Err e, st1) -> _is_transient_infra_error e = true ->
  let retry := Ok (Continue (Vars (attempts v) (transient_attempts v + 1) (maintenance_deadline v))) in
  let '(r, st2) := batch_step k ws fuel b v st in
  Held st st2
  /\ (r = retry
      \/ exists x, r = Err x /\ ((1024 <= transient_attempts v)%Z /\ x = OverflowError
                               \/ exists d s s', @sleep S _ d s = (Err x, s')))
  /\ ((transient_attempts v < 1024)%Z -> (forall d, total (@sleep S _ d)) -> r = retry).
Proof.
  intros Hd He. pose proof (held_dispatch _ _ _ _ Hd) as Hh.
  assert (Hheld : Held st st1) by (by destruct e). clear Hh.
  assert (Hstep : batch_step k ws fuel b v st = (record_write_retry ;;; transient_retry v) st1).
  { unfold batch_step. rewrite Hd. by destruct e. }
  rewrite Hstep. unfold transient_retry, mbind at 1. simpl. unfold transient_delay.
  replace (transient_attempts v + 1 - 1)%Z with (transient_attempts v) by lia.
  destruct (Z.ltb_spec (transient_attempts v) 1024).
  - unfold mbind, mlift, lift_env. set (d := Z.min _ _). set (s := with_counters _ _ _).
    destruct (sleep d (env s)) as [[u|x] e'] eqn:Hs.
    + split; [done|]. split; [by left|done].
    + split; [done|]. split; [right; exists x; split; [done|]; right; by exists d, (env s), e'|].
      intros _ Ht. specialize (Ht d (env s)). by rewrite Hs in Ht.
  - split; [done|]. split; [right; exists OverflowError; split; [done|by left]|lia].
Qed.

(** The back-off overflows.  Once the counter has reached 1024, the delay of the
    next transient failure does not convert to a float: [OverflowError] escapes the drain
    loop, so the worker dies instead of retrying for as long as the outage
    lasts. *)
Theorem transient_backoff_overflow fuel b v st e st1 :
  dispatch_batch k ws b st = (Err e, st1) -> _is_transient_infra_error e = true ->
  (1024 <= transient_attempts v)%Z ->
  fst (batch_step k ws fuel b v st) = Err OverflowError.
Proof.
  intros Hd He Hv.
  assert (Hstep : batch_step k ws fuel b v st = (record_write_retry ;;; transient_retry v) st1).
  { unfold batch_step. rewrite Hd. by destruct e. }
  rewrite Hstep. unfold transient_retry, mbind at 1. simpl. unfold transient_delay.
  destruct (Z.ltb_spec (transient_attempts v + 1 - 1) 1024); [lia|done].
Qed.
End spec.

(** ** Instances *)

#[local] Existing Instance demo_env.

Lemma demo_inv k lines :
  forallb (fun l => bool_decide (nl ∉ bytes_of l)) lines = true ->
  Inv k (demo_state (demo_log k lines)).
Proof.
  intros Hl. exists (AQ (map bytes_of lines) 0). split; [exists []; by apply demo_log_implements|].
  split; [apply prefix_nil|constructor].
Qed.

(** A whole session (two events, a poison one and [session:end]) from spool to
    finalization. *)
Lemma drain_worker_acked_is_safe_witness :
  let st' := snd (drain_worker "k" "w" 20 (demo_state (demo_log "k" ["a"; "p"; "b"; "e"]))) in
  Forall (fun r => r ∈ durable st' \/ r ∈ dead st') (acked st')
  /\ map raw (dead st') = [bytes_of "p"] /\ length (acked st') = 4
  /\ registered st' = false.
Proof.
  cbv zeta. split; [|vm_compute; auto].
  pose proof (drain_worker_acked_is_safe "k" "w" eq_refl 20 (demo_state (demo_log "k" ["a"; "p"; "b"; "e"]))
                (demo_inv "k" ["a"; "p"; "b"; "e"] eq_refl)) as Hi.
  destruct (drain_worker "k" "w" 20 _) as [r st']. exact (proj1 Hi).
Defined.

Definition demo_down : DState unit := demo_state (demo_log "k" ["t"]).
Definition demo_batch : Batch := MkBatch "k" [MkRecord (bytes_of "t") 0 2] 0 2.

Lemma transient_failure_holds_queue_witness :
  Held demo_down (snd (batch_step "k" "w" 5 demo_batch (Vars 0 3 0) demo_down))
  /\ fst (batch_step "k" "w" 5 demo_batch (Vars 0 3 0) demo_down) = Ok (Continue (Vars 0 4 0)).
Proof.
  pose proof (transient_failure_holds_queue "k" "w" 5 demo_batch (Vars 0 3 0) demo_down TransientInfra
    (snd (dispatch_batch "k" "w" demo_batch demo_down)) eq_refl eq_refl) as H.
  destruct (batch_step "k" "w" 5 demo_batch (Vars 0 3 0) demo_down) as [r st2].
  destruct H as (Hh & _ & Hok). split; [exact Hh|]. apply Hok; [reflexivity|]. intros d s. reflexivity.
Defined.

Lemma transient_backoff_overflow_witness :
  fst (batch_step "k" "w" 5 demo_batch (Vars 0 1024 0) demo_down) = Err OverflowError.
Proof.
  apply (transient_backoff_overflow "k" "w" 5 demo_batch (Vars 0 1024 0) demo_down TransientInfra
    (snd (dispatch_batch "k" "w" demo_batch demo_down))); reflexivity.
Defined.
