(* ===== verification/DrainProgress.v ===== *)
(** * The drain worker: progress

    With a cooperative environment (no faults, no concurrent appends) the
    worker really delivers: draining to the end of the file terminates, every
    pending record reaches the graph exactly once and in append order, and
    isolating a poison batch dead-letters exactly the records that fail. *)
From stdpp Require Import base list gmap strings sorting.
From Stdlib Require Import ZArith Lia.
From S2P Require Import Prelude PyText Sha256 Utils Json QueueFiles QueueManager QueueSpec Drain.
From S2P Require Import DrainDemo DrainSpec.

(** [m] returns from [s], and its result satisfies [Q]. *)
Definition runs {St A} (m : M St A) (s : St) (Q : A -> St -> Prop) : Prop :=
  match m s with (Ok a, s') => Q a s' | (Err _, _) => False end.

Lemma runs_bind {St A B} (m : M St A) (f : A -> M St B) s Q :
  runs m s (fun a s' => runs (f a) s' Q) -> runs (mbind m f) s Q.
Proof. unfold runs, mbind. destruct (m s) as [[a|e] s']; done. Qed.

Lemma runs_catch {St A} (m : M St A) h s Q : runs m s Q -> runs (mcatch m h) s Q.
Proof. unfold runs, mcatch. by destruct (m s) as [[a|e] s']. Qed.

Section progress.
Context {S : Type} `{!DrainEnv S}.
Variable k : string.
Variable ws : string.
Hypothesis Hk : _validate_session_id k = true.

Implicit Types st : DState S.

Definition total_opt (h : option (M S unit)) : Prop :=
  match h with Some m => total m | None => True end.
Definition total_hook {A} (h : option (A -> M S unit)) : Prop :=
  match h with Some f => forall a, total (f a) | None => True end.

(** The infrastructure works: only [process_event] may still fail. *)
Record Cooperative : Prop := {
  coop_flush : total (@graph_flush S _);
  coop_permit : total (@flush_permit S _);
  coop_guard : total (@recovery_guard S _);
  coop_read : total (@read_fault S _);
  coop_pre : total_opt (@pre_flush S _);
  coop_elig : total_hook (@before_recovery_flush S _);
  coop_flushed : total_hook (@on_batch_flushed S _);
  coop_written : total_hook (@on_batch_written S _);
  coop_quar : total_hook (@on_record_quarantined S _);
  coop_commit : forall e : S, exists u e', os_commit e = (CommitOk, u, false, e');
  coop_write : forall e : S, exists e', os_write e = (WriteScript true [], false, e');
  coop_alone : forall e : S, fst (interfere e) = [];
  coop_batch : 0 < drain_batch_size;
}.
Hypothesis coop : Cooperative.

Lemma runs_quiet {A} (m : M (DState S) A) st Q :
  quiet m -> total m -> (forall a st', core st' = core st -> Q a st') -> runs m st Q.
Proof.
  intros Hq Ht HQ. unfold runs. specialize (Hq st). specialize (Ht st).
  destruct (m st) as [[a|e] st']; [|done]. by apply HQ.
Qed.

Lemma total_ret {St A} (a : A) : total (@mret St A a).
Proof. done. Qed.
Lemma total_env {A} (m : M S A) : total m -> total (lift_env (S := S) m).
Proof. intros Hm st. specialize (Hm (env st)). unfold lift_env. by destruct (m (env st)) as [[]]. Qed.
Lemma total_clock f : total (clock (S := S) f).
Proof. intros st. unfold clock. by destruct (f (env st)). Qed.
Lemma total_hook_run {A} (h : option (A -> M S unit)) a : total_hook h -> total (hook h a).
Proof. destruct h; simpl; intros; [by apply total_env|apply total_ret]. Qed.
Lemma total_run_opt h : total_opt h -> total (run_opt h).
Proof. destruct h; simpl; intros; [by apply total_env|apply total_ret]. Qed.
Lemma total_when b (m : M (DState S) unit) : total m -> total (mwhen b m).
Proof. by destruct b. Qed.
Lemma total_bind {St A B} (m : M St A) (f : A -> M St B) :
  total m -> (forall a, total (f a)) -> total (mbind m f).
Proof.
  intros Hm Hf s. specialize (Hm s). unfold mbind. destruct (m s) as [[a|]]; [apply Hf|done].
Qed.
Lemma total_catch {St A} (m : M St A) h : total m -> total (mcatch m h).
Proof. intros Hm s. specialize (Hm s). unfold mcatch. by destruct (m s) as [[]]. Qed.
Lemma total_nonempty_hook h recs : total_hook h -> total (nonempty_hook h recs).
Proof. destruct recs; simpl; intros; [apply total_ret|by apply total_hook_run]. Qed.

Hint Resolve total_env total_clock total_hook_run total_run_opt total_when total_catch
  total_nonempty_hook quiet_env quiet_clock quiet_hook quiet_run_opt quiet_when
  quiet_nonempty_hook quiet_post_commit quiet_guard : queue.

(** *** Flush and commit *)

Lemma runs_flush st Q :
  (forall st', core st' = (qdir st, [], durable st ++ buffered st, dead st, acked st) -> Q tt st') ->
  runs _flush_barrier st Q.
Proof.
  intros HQ. destruct coop. unfold _flush_barrier, _flush_graph.
  apply runs_bind, runs_quiet; [auto with queue..|]. intros _ st1 H1.
  apply runs_bind, runs_quiet; [auto with queue..|]. intros _ st2 H2.
  apply runs_bind. unfold runs at 1. simpl.
  apply runs_bind, runs_quiet; [auto with queue..|]. intros t st3 H3.
  apply HQ. unfold core in *. simpl in *. congruence.
Qed.

Lemma runs_commit st q torn m (Q : unit -> DState S -> Prop) :
  implements k (qdir st) q torn -> m <= q_pending q ->
  (forall st', implements k (qdir st') (acknowledge q m) torn ->
    buffered st' = buffered st -> durable st' = durable st -> dead st' = dead st ->
    acked st' = acked st ++ take m (pending_records q) -> Q tt st') ->
  runs (qm_commit k (q_position q (q_done q + m))) st Q.
Proof.
  intros Hq Hm HQ. unfold runs, qm_commit.
  destruct (coop_commit coop (env st)) as (u & e' & ->).
  pose proof (commit_acknowledges k (qdir st) q torn m u CommitOk Hq Hk Hm) as Hc.
  destruct (commit k _ u CommitOk (qdir st)) as [[[]|x] d'] eqn:Hr.
  - apply HQ; simpl; [done..|]. by rewrite (newly_acked_prefix k Hk (qdir st) q torn).
  - unfold commit in Hr. by rewrite Hk in Hr.
Qed.

Lemma runs_flush_and_commit st q torn m recs elig (Q : unit -> DState S -> Prop) :
  implements k (qdir st) q torn -> m <= q_pending q ->
  (forall st', implements k (qdir st') (acknowledge q m) torn ->
    buffered st' = [] -> durable st' = durable st ++ buffered st -> dead st' = dead st ->
    acked st' = acked st ++ take m (pending_records q) -> Q tt st') ->
  runs (_flush_and_commit k recs (q_position q (q_done q + m)) elig) st Q.
Proof.
  intros Hq Hm HQ. assert (Hc := coop). destruct Hc. unfold _flush_and_commit.
  apply runs_bind, runs_quiet; [auto with queue..|]. intros _ st1 H1.
  apply runs_bind, runs_quiet; [auto with queue|apply total_when; auto with queue|]. intros _ st2 H2.
  apply runs_bind, runs_quiet; [auto with queue..|]. intros _ st3 H3.
  apply runs_bind, runs_flush. intros st4 H4.
  apply runs_bind, runs_quiet; [apply quiet_nonempty_hook|by apply total_nonempty_hook|]. intros _ st5 H5.
  apply runs_catch. unfold core in *. simplify_eq.
  apply (runs_commit st5 q torn); [congruence|done|].
  intros st6 ? ? ? ? ?. apply HQ; congruence.
Qed.

(** *** Dispatch *)

(** The pipeline accepts the record, whatever its own state. *)
Definition accepted (r : bytes) : Prop :=
  match _parse_line (S := S) r with
  | Ok (event, _, wd, JObj o, ident) =>
    is_ok (is_terminal event) = true /\ total (process_event (S := S) event (JObj o) wd ident)
  | _ => False
  end.

Lemma total_process_one event o wd ident :
  total (process_event (S := S) event (JObj o) wd ident) ->
  total (_process_one ws event (JObj o) wd ident).
Proof.
  intros Hp st. unfold _process_one. set (body := mbind (lift_env _) _).
  assert (Hb : total body) by (apply total_bind; [by apply total_env|]; intros _; apply total_bind; [apply total_clock|done]).
  specialize (Hb st). destruct (body st) as [[u|e] st']; [|done].
  refine (total_bind _ _ (total_clock _) _ st'). done.
Qed.

Lemma runs_process_records recs acc st Q :
  Forall accepted (map raw recs) ->
  (forall acc' st', core st' = (qdir st, buffered st ++ recs, durable st, dead st, acked st) -> Q acc' st') ->
  runs (process_records ws recs acc) st Q.
Proof.
  revert acc st Q. induction recs as [|rec recs IH]; intros acc st Q Hacc HQ; simpl.
  { apply HQ. unfold core. by rewrite app_nil_r. }
  simpl in Hacc. apply Forall_cons in Hacc as [Hr Hrs]. unfold accepted in Hr.
  destruct (_parse_line (raw rec)) as [[[[[ev w] wd] data] ident]|]; [|done].
  destruct data; try done. destruct Hr as [Hterm Hp].
  apply runs_bind. unfold runs at 1. simpl.
  apply runs_bind, runs_quiet; [apply quiet_process_one|by apply total_process_one|].
  intros _ st1 H1. apply runs_bind. unfold runs at 1. simpl.
  assert (Hnext : forall acc', runs (process_records ws recs acc')
    (with_history (buffered st1 ++ [rec]) (durable st1) (dead st1) (acked st1) st1) Q).
  { intros acc'. apply IH; [done|]. intros acc'' st2 H2. apply HQ. unfold core in *. simpl in *.
    rewrite H2. injection H1 as -> -> -> -> ->. by rewrite <- app_assoc. }
  destruct (acc.2); [apply Hnext|].
  destruct (is_terminal ev); [|done]. apply runs_bind. unfold runs at 1. simpl. apply Hnext.
Qed.

(** *** Draining to the end *)

Lemma runs_read st q torn (Q : Batch -> DState S -> Prop) :
  implements k (qdir st) q torn ->
  (forall st' n, core st' = core st -> n = min drain_batch_size (q_pending q) ->
     Q (MkBatch k (take n (pending_records q)) (q_position q (q_done q))
          (q_position q (q_done q + n))) st') ->
  runs (qm_read_batch k) st Q.
Proof.
  intros Hq HQ. unfold qm_read_batch. apply runs_bind. unfold runs at 1, concurrent_appends.
  pose proof (coop_alone coop (env st)) as Ha. destruct (interfere (env st)) as [l e]. simpl in Ha. subst l.
  apply runs_bind, runs_quiet; [apply quiet_env|apply total_env, coop|].
  intros _ st1 H1. unfold runs. assert (Hd : qdir st1 = qdir st) by (by injection H1).
  rewrite Hd, (read_batch_next k _ q torn) by done.
  specialize (HQ st1 (length (next q drain_batch_size))). rewrite q_position_next in HQ.
  replace (mk_records _ (next q drain_batch_size))
    with (take (length (next q drain_batch_size)) (pending_records q)).
  - apply HQ; [rewrite H1; done|apply next_length].
  - unfold pending_records, next. rewrite take_mk_records. f_equal. rewrite length_take.
    destruct (decide (drain_batch_size <= length (drop (q_done q) (q_all q)))).
    + by rewrite Nat.min_l.
    + rewrite Nat.min_r by lia. rewrite !take_ge by lia. done.
Qed.

Lemma raw_pending q : map raw (pending_records q) = drop (q_done q) (q_all q).
Proof.
  unfold pending_records. generalize (q_position q (q_done q)) as pos.
  induction (drop (q_done q) (q_all q)) as [|r l IH]; intros pos; simpl; [done|]. by rewrite IH.
Qed.

Lemma take_drop_app {A} n (l : list A) x : x ++ l = (x ++ take n l) ++ drop n l.
Proof. by rewrite <- app_assoc, take_drop. Qed.

(** All that is pending has been delivered, in order. *)
Definition Delivered (q : aqueue) (torn : bytes) (st0 st : DState S) : Prop :=
  implements k (qdir st) (acknowledge q (q_pending q)) torn
  /\ buffered st = [] /\ durable st = durable st0 ++ pending_records q
  /\ dead st = dead st0 /\ acked st = acked st0 ++ pending_records q.

Lemma Delivered_step q torn n st0 st1 st :
  n <= q_pending q ->
  durable st1 = durable st0 ++ take n (pending_records q) -> dead st1 = dead st0 ->
  acked st1 = acked st0 ++ take n (pending_records q) ->
  Delivered (acknowledge q n) torn st1 st -> Delivered q torn st0 st.
Proof.
  intros Hn Hu Hx Ha (Hi & Hb & Hu' & Hx' & Ha').
  assert (acknowledge (acknowledge q n) (q_pending (acknowledge q n)) = acknowledge q (q_pending q)) as Hq.
  { unfold acknowledge, q_pending in *. simpl in *. f_equal. lia. }
  rewrite Hq in Hi. rewrite <- drop_pending in Hu', Ha'.
  unfold Delivered. rewrite Hu', Ha', Hx', Hu, Ha, Hx, <- !take_drop_app. done.
Qed.

Lemma runs_tail st q torn n start elig :
  implements k (qdir st) q torn -> n <= q_pending q -> buffered st = [] ->
  Forall accepted (drop (q_done q) (q_all q)) ->
  let recs := take n (pending_records q) in
  runs (_process_batch ws (MkBatch k recs start (q_position q (q_done q + n))) ;;;
        _flush_and_commit k recs (q_position q (q_done q + n)) elig) st
    (fun _ st' => implements k (qdir st') (acknowledge q n) torn /\ buffered st' = []
      /\ durable st' = durable st ++ recs /\ dead st' = dead st /\ acked st' = acked st ++ recs).
Proof.
  intros Hq Hn Hb Hacc recs. apply runs_bind, runs_process_records.
  { simpl. unfold recs. rewrite <- firstn_map, raw_pending. by apply Forall_take. }
  intros acc st2 H2. injection H2 as Hd2 Hb2 Hu2 Hx2 Ha2.
  apply (runs_flush_and_commit st2 q torn); [congruence|done|].
  intros st3 H3 Hb3 Hu3 Hx3 Ha3. split; [done|]. split; [done|].
  rewrite Hu3, Hu2, Hb2, Hx3, Hx2, Ha3, Ha2, Hb. done.
Qed.

Lemma runs_eof fuel st q torn :
  q_pending q < fuel -> implements k (qdir st) q torn -> buffered st = [] ->
  Forall accepted (drop (q_done q) (q_all q)) ->
  runs (_drain_to_eof k ws fuel) st (fun r st' => r = Some true /\ Delivered q torn st st').
Proof.
  revert st q. induction fuel as [|fuel IH]; intros st q Hf Hq Hb Hacc; [lia|].
  simpl. apply runs_bind. eapply runs_read; [exact Hq|]. intros st1 n Hc Hn. cbn [records end_offset].
  injection Hc as Hd1 Hb1 Hu1 Hx1 Ha1. assert (Hbat := coop_batch coop).
  pose proof (length_take (pending_records q) n) as Hlen. rewrite length_pending in Hlen.
  destruct (decide (q_pending q = 0)) as [Hz|Hz].
  { assert (pending_records q = []) as Hp by (apply nil_length_inv; by rewrite length_pending).
    rewrite Hp, take_nil. split; [done|]. unfold Delivered.
    rewrite Hz, Hp, !app_nil_r, Hd1, Hb1, Hu1, Hx1, Ha1. unfold acknowledge. rewrite Nat.add_0_r.
    by destruct q. }
  assert (Hacc' : Forall accepted (drop (q_done (acknowledge q n)) (q_all (acknowledge q n)))).
  { simpl. rewrite <- drop_drop. by apply Forall_drop. }
  pose proof (runs_tail st1 q torn n (q_position q (q_done q)) (take n (pending_records q))) as Hone.
  rewrite Hd1, Hb1 in Hone. specialize (Hone Hq ltac:(lia) Hb Hacc). unfold runs in Hone |- *.
  destruct (take n (pending_records q)) as [|r0 rs] eqn:Htk; [simpl in Hlen; lia|].
  rewrite <- Htk in *. destruct (mbind (_process_batch _ _) _ st1) as [[u|e] st2]; [|done].
  destruct Hone as (Hq2 & Hb2 & Hu2 & Hx2 & Ha2).
  apply runs_bind, runs_quiet; [done|done|]. intros _ st3 H3. injection H3 as Hd3 Hb3 Hu3 Hx3 Ha3.
  apply runs_bind, runs_quiet; [apply quiet_post_commit|apply total_catch, total_nonempty_hook, coop|].
  intros _ st4 H4. injection H4 as Hd4 Hb4 Hu4 Hx4 Ha4.
  assert (Hrun : runs (_drain_to_eof k ws fuel) st4
    (fun r st' => r = Some true /\ Delivered (acknowledge q n) torn st4 st')).
  { apply IH; [|congruence|congruence|done]. unfold q_pending in *. simpl. lia. }
  unfold runs in Hrun |- *. destruct (_drain_to_eof k ws fuel st4) as [[r|] st5]; [|done].
  destruct Hrun as [-> HD]. split; [done|].
  apply (Delivered_step q torn n st st4); [lia|congruence..|done].
Qed.

(** C3: draining delivers.  The infrastructure works (flush, permits, hooks, reads,
    writes and commits succeed, [Cooperative]), nobody appends meanwhile, the buffer
    is empty and the pipeline accepts every pending record.  Then [_drain_to_eof]
    terminates (one round per pending record is always enough) and returns [True];
    every pending record has reached the graph exactly once and in append order,
    nothing was dead-lettered, and the whole queue is acknowledged. *)
Theorem drain_to_eof_delivers fuel st q torn :
  q_pending q < fuel -> implements k (qdir st) q torn -> buffered st = [] ->
  Forall accepted (drop (q_done q) (q_all q)) ->
  exists st', _drain_to_eof k ws fuel st = (Ok (Some true), st') /\ Delivered q torn st st'.
Proof.
  intros Hf Hq Hb Hacc. pose proof (runs_eof fuel st q torn Hf Hq Hb Hacc) as Hr. unfold runs in Hr.
  destruct (_drain_to_eof k ws fuel st) as [[r|e] st']; [|done]. destruct Hr as [-> HD]. eauto.
Qed.

(** ** Isolation *)

(** A deterministic, non-infrastructure failure. *)
Definition poison_error (e : exn) : bool :=
  match e with
  | TransientInfra | OSError | FileNotFoundError | BlobExpiredError
  | CancelledError | QueueCommitFailure _ => false
  | _ => true
  end.

Definition good (r : bytes) : Prop :=
  match _parse_line (S := S) r with
  | Ok (event, _, wd, JObj o, ident) =>
    is_terminal event = Ok false /\ total (process_event (S := S) event (JObj o) wd ident)
  | _ => False
  end.
Definition poison (r : bytes) : Prop :=
  match _parse_line (S := S) r with
  | Ok (event, _, wd, JObj o, ident) =>
    is_terminal event = Ok false
    /\ forall s, exists e s', process_event (S := S) event (JObj o) wd ident s = (Err e, s')
                          /\ poison_error e = true
  | Err e => is_Exception e = true
  | _ => False
  end.

(** The records of [B] are settled: written if [verdict] is true, else dead. *)
Definition Settled (verdict : bytes -> bool) (B : list LogRecord) (q : aqueue) (torn : bytes)
    (st0 st : DState S) : Prop :=
  implements k (qdir st) (acknowledge q (length B)) torn /\ buffered st = []
  /\ durable st = durable st0 ++ base.filter (fun r => verdict (raw r) = true) B
  /\ dead st = dead st0 ++ base.filter (fun r => verdict (raw r) = false) B
  /\ acked st = acked st0 ++ B.

Lemma runs_dead_letter st q torn rec err (Q : unit -> DState S -> Prop) :
  implements k (qdir st) q torn ->
  (forall st', implements k (qdir st') q torn -> buffered st' = buffered st ->
     durable st' = durable st -> dead st' = dead st ++ [rec] -> acked st' = acked st -> Q tt st') ->
  runs (qm_dead_letter k rec err) st Q.
Proof.
  intros Hq HQ. unfold runs, qm_dead_letter. destruct (coop_write coop (env st)) as [e' ->].
  pose proof (implements_dead_letter k Hk (raw rec) (time_repr (env st)) err (WriteScript true []) _ _ _ Hq) as Hd.
  destruct (dead_letter k _ _ _ _ (qdir st)) as [[[]|x] d'] eqn:Hr; [by apply HQ|].
  unfold dead_letter, _write_record in Hr. rewrite Hk in Hr. simpl in Hr.
  by destruct (frame _).
Qed.

Lemma runs_discard st (Q : unit -> DState S -> Prop) :
  (forall st', core st' = (qdir st, [], durable st, dead st, acked st) -> Q tt st') ->
  runs graph_discard_buffer st Q.
Proof. intros HQ. by apply HQ. Qed.

Lemma head_pending q rec B :
  rec :: B `prefix_of` pending_records q ->
  rec_end rec = q_position q (q_done q + 1) /\ 1 <= q_pending q
  /\ take 1 (pending_records q) = [rec] /\ B `prefix_of` pending_records (acknowledge q 1).
Proof.
  intros [x Hx]. destruct (lookup_pending q 0 rec) as [_ ->]; [by rewrite Hx|].
  rewrite Nat.add_0_r. split; [done|]. split; [rewrite <- length_pending, Hx; simpl; lia|].
  split; [by rewrite Hx|]. rewrite <- drop_pending, Hx. simpl. by eexists.
Qed.

Lemma runs_quarantine st q torn rec B (Q : unit -> DState S -> Prop) :
  implements k (qdir st) q torn -> rec :: B `prefix_of` pending_records q ->
  (forall st', implements k (qdir st') (acknowledge q 1) torn -> buffered st' = buffered st ->
     durable st' = durable st -> dead st' = dead st -> acked st' = acked st ++ [rec] -> Q tt st') ->
  runs (_quarantine_and_commit k rec) st Q.
Proof.
  intros Hq HB HQ. destruct (head_pending _ _ _ HB) as (Hend & Hp & Htk & _).
  unfold _quarantine_and_commit, _publish_quarantine_then_ack, _before_quarantine.
  apply runs_bind, runs_quiet; [apply quiet_guard|apply total_when, total_env, coop|].
  intros _ st1 H1. injection H1 as Hd1 Hb1 Hu1 Hx1 Ha1.
  apply runs_bind, runs_quiet; [apply quiet_hook|apply total_hook_run, coop|].
  intros _ st2 H2. injection H2 as Hd2 Hb2 Hu2 Hx2 Ha2.
  rewrite Hend. apply (runs_commit st2 q torn); [congruence|done|].
  intros st3 Hq3 Hb3 Hu3 Hx3 Ha3. rewrite Htk in Ha3. apply HQ; congruence.
Qed.

(** A failing dispatch of a poison record: a poison error, history untouched. *)
Lemma process_one_poison event o wd ident st :
  (forall s, exists e s', process_event (S := S) event (JObj o) wd ident s = (Err e, s') /\ poison_error e = true) ->
  exists e st', _process_one ws event (JObj o) wd ident st = (Err e, st')
                /\ poison_error e = true /\ core st' = core st.
Proof.
  intros Hp. destruct (Hp (env st)) as (e & s' & He & Hpe).
  pose proof (quiet_process_one ws event (JObj o) wd ident st) as Hq.
  assert (Hf : fst (_process_one ws event (JObj o) wd ident st) = Err e).
  { unfold _process_one, lift_env, mbind. rewrite He.
    assert (is_Exception e = true) as -> by (by destruct e). simpl. unfold mbind, clock. simpl.
    by destruct (wall_time _). }
  destruct (_process_one ws event (JObj o) wd ident st) as [r st']. simpl in *. subst r. eauto.
Qed.

Lemma isolate_failure_poison rec e :
  poison_error e = true ->
  isolate_failure k rec e
  = (qm_dead_letter k rec (exn_text (S := S) e) ;;; graph_discard_buffer ;;; mret true).
Proof. by destruct e. Qed.

Lemma Settled_step (verdict : bytes -> bool) rec B q torn st0 st1 st :
  durable st1 = durable st0 ++ (if verdict (raw rec) then [rec] else []) ->
  dead st1 = dead st0 ++ (if verdict (raw rec) then [] else [rec]) ->
  acked st1 = acked st0 ++ [rec] ->
  Settled verdict B (acknowledge q 1) torn st1 st -> Settled verdict (rec :: B) q torn st0 st.
Proof.
  intros Hu Hx Ha (Hi & Hb & Hu' & Hx' & Ha'). unfold Settled.
  assert (acknowledge (acknowledge q 1) (length B) = acknowledge q (length (rec :: B))) as Hq.
  { unfold acknowledge. simpl. f_equal. lia. }
  rewrite Hq in Hi. rewrite Hu', Hx', Ha', Hu, Hx, Ha, !filter_cons, <- !app_assoc.
  destruct (verdict (raw rec)); done.
Qed.

Lemma runs_quarantined_tail rec err st q torn (Q : bool -> DState S -> Prop) :
  implements k (qdir st) q torn ->
  (forall st', implements k (qdir st') q torn -> buffered st' = [] -> durable st' = durable st ->
     dead st' = dead st ++ [rec] -> acked st' = acked st -> Q true st') ->
  runs (qm_dead_letter k rec err ;;; graph_discard_buffer ;;; mret true) st Q.
Proof.
  intros Hq HQ. apply runs_bind, (runs_dead_letter st q torn); [done|].
  intros st1 Hq1 Hb1 Hu1 Hx1 Ha1. apply runs_bind, runs_discard. intros st2 H2.
  injection H2 as Hd2 Hb2 Hu2 Hx2 Ha2. apply HQ; congruence.
Qed.

Abbreviation isolate_one rec event o wd ident :=
  (mcatch (_process_one ws event (JObj o) wd ident ;;; note_buffered rec ;;;
           _flush_and_commit k [rec] (rec_end rec) [rec] ;;; mret false) (isolate_failure k rec)).

Lemma runs_isolate_good rec B event o wd ident st q torn (Q : bool -> DState S -> Prop) :
  implements k (qdir st) q torn -> buffered st = [] -> rec :: B `prefix_of` pending_records q ->
  total (process_event (S := S) event (JObj o) wd ident) ->
  (forall st', implements k (qdir st') (acknowledge q 1) torn -> buffered st' = [] ->
     durable st' = durable st ++ [rec] -> dead st' = dead st -> acked st' = acked st ++ [rec] -> Q false st') ->
  runs (isolate_one rec event o wd ident) st Q.
Proof.
  intros Hq Hb HB Hp HQ. destruct (head_pending _ _ _ HB) as (Hend & Hpend & Htk & _).
  apply runs_catch, runs_bind, runs_quiet; [apply quiet_process_one|by apply total_process_one|].
  intros _ st1 H1. injection H1 as Hd1 Hb1 Hu1 Hx1 Ha1.
  apply runs_bind. unfold runs at 1. simpl. apply runs_bind. rewrite Hend.
  apply (runs_flush_and_commit _ q torn); [simpl; congruence|done|]. simpl.
  intros st2 Hq2 Hb2 Hu2 Hx2 Ha2. rewrite Htk in Ha2. simpl in Hu2, Hx2, Ha2. rewrite Hb1, Hb in Hu2. simpl in Hu2.
  apply HQ; congruence.
Qed.

Lemma runs_isolate_poison rec event o wd ident st q torn (Q : bool -> DState S -> Prop) :
  implements k (qdir st) q torn ->
  (forall s, exists e s', process_event (S := S) event (JObj o) wd ident s = (Err e, s') /\ poison_error e = true) ->
  (forall st', implements k (qdir st') q torn -> buffered st' = [] -> durable st' = durable st ->
     dead st' = dead st ++ [rec] -> acked st' = acked st -> Q true st') ->
  runs (isolate_one rec event o wd ident) st Q.
Proof.
  intros Hq Hp HQ. destruct (process_one_poison event o wd ident st Hp) as (e & st1 & Hone & Hpe & H1).
  unfold runs, mcatch, mbind at 1. rewrite Hone, (isolate_failure_poison rec e Hpe).
  injection H1 as Hd1 Hb1 Hu1 Hx1 Ha1. apply (runs_quarantined_tail rec _ st1 q torn); [congruence|].
  intros st2 Hq2 Hb2 Hu2 Hx2 Ha2. apply HQ; congruence.
Qed.

(** Isolation ends with the batch, or stops at a [session:end]. *)
Definition ends_at (T : list LogRecord) (term : bool) : Prop :=
  match T with
  | [] => term = false
  | t :: _ => term = true /\ exists event w wd data ident,
                _parse_line (S := S) (raw t) = Ok (event, w, wd, data, ident) /\ is_terminal event = Ok true
  end.

Lemma runs_isolate verdict B T term st q torn :
  ends_at T term -> implements k (qdir st) q torn -> buffered st = [] -> B `prefix_of` pending_records q ->
  Forall (fun r => if verdict (raw r) : bool then good (raw r) else poison (raw r)) B ->
  runs (isolate_records k ws (B ++ T)) st (fun r st' => r = term /\ Settled verdict B q torn st st').
Proof.
  intros Hend. revert st q. induction B as [|rec B IH]; intros st q Hq Hb HB Hv.
  { assert (Hrun : isolate_records k ws T st = (Ok term, st)).
    { destruct T as [|t T]; cbn [isolate_records]; [by rewrite Hend|]. destruct Hend as (-> & ev & w & wd & data & ident & -> & Ht).
      unfold mbind, mlift. by rewrite Ht. }
    unfold runs. cbn [app]. rewrite Hrun. split; [done|]. unfold Settled. simpl. unfold acknowledge. rewrite Nat.add_0_r, !app_nil_r.
    by destruct q. }
  apply Forall_cons in Hv as [Hr Hv]. destruct (head_pending _ _ _ HB) as (_ & _ & _ & HB').
  assert (Hrest : forall st1, implements k (qdir st1) (acknowledge q 1) torn -> buffered st1 = [] ->
    durable st1 = durable st ++ (if verdict (raw rec) then [rec] else []) ->
    dead st1 = dead st ++ (if verdict (raw rec) then [] else [rec]) -> acked st1 = acked st ++ [rec] ->
    runs (isolate_records k ws (B ++ T)) st1 (fun r st' => r = term /\ Settled verdict (rec :: B) q torn st st')).
  { intros st1 Hq1 Hb1 Hu1 Hx1 Ha1. specialize (IH st1 (acknowledge q 1) Hq1 Hb1 HB' Hv).
    unfold runs in *. destruct (isolate_records k ws (B ++ T) st1) as [[r|] st']; [|done].
    destruct IH as [-> HS]. split; [done|]. by eapply Settled_step. }
  assert (Hquar : verdict (raw rec) = false -> forall st2, implements k (qdir st2) q torn ->
    buffered st2 = [] -> durable st2 = durable st -> dead st2 = dead st ++ [rec] -> acked st2 = acked st ->
    runs (_quarantine_and_commit k rec) st2 (fun _ st3 => runs (isolate_records k ws (B ++ T)) st3
      (fun r st' => r = term /\ Settled verdict (rec :: B) q torn st st'))).
  { intros Hver st2 Hq2 Hb2 Hu2 Hx2 Ha2. apply (runs_quarantine st2 q torn rec B); [done|done|].
    intros st3 Hq3 Hb3 Hu3 Hx3 Ha3. apply Hrest; rewrite ?Hver; cbv iota; rewrite ?app_nil_r; congruence. }
  simpl. unfold good, poison in Hr.
  destruct (verdict (raw rec)) eqn:Hver.
  - destruct (_parse_line (raw rec)) as [[[[[ev w] wd] data] ident]|e]; [|done].
    destruct data; try done. destruct Hr as [Hterm Hp]. rewrite Hterm.
    apply runs_bind. unfold runs at 1. simpl. apply runs_bind, (runs_isolate_good rec B _ _ _ _ st q torn); [done..|].
    intros st1 Hq1 Hb1 Hu1 Hx1 Ha1. apply runs_bind.
    apply runs_quiet; [apply quiet_bind; [done|intros; apply quiet_post_commit]| |].
    { apply total_bind; [done|intros _]. apply total_catch, total_nonempty_hook, coop. }
    intros _ st2 H2. injection H2 as Hd2 Hb2 Hu2 Hx2 Ha2. apply Hrest; cbv iota; rewrite ?app_nil_r; congruence.
  - specialize (Hquar eq_refl).
    destruct (_parse_line (raw rec)) as [[[[[ev w] wd] data] ident]|e].
    + destruct data; try done. destruct Hr as [Hterm Hp]. rewrite Hterm.
      apply runs_bind. unfold runs at 1. simpl. apply runs_bind, (runs_isolate_poison rec _ _ _ _ st q torn); [done..|].
      intros st1 Hq1 Hb1 Hu1 Hx1 Ha1. apply runs_bind. by apply Hquar.
    + rewrite Hr. apply runs_bind, (runs_dead_letter st q torn); [done|].
      intros st1 Hq1 Hb1 Hu1 Hx1 Ha1. apply runs_bind, runs_discard. intros st2 H2.
      injection H2 as Hd2 Hb2 Hu2 Hx2 Ha2. apply runs_bind. apply Hquar; congruence.
Qed.

(** C4: isolation is exact.  The infrastructure works (flush, permits, hooks, reads and
    writes succeed, nobody appends meanwhile); every record of the batch before its
    first [session:end], if it has one, is either accepted by the pipeline or fails
    deterministically (unparseable, or a handler error that is not an infrastructure
    error).  Then isolating the batch writes exactly the good ones of those records to
    the graph, dead-letters exactly the failing ones, both in order, acknowledges
    exactly them, and reports whether it stopped at a [session:end], which stays
    pending with everything behind it. *)
Theorem handle_exhausted_batch_exact verdict b B T term st q torn :
  implements k (qdir st) q torn -> records b = B ++ T -> ends_at T term -> B `prefix_of` pending_records q ->
  Forall (fun r => if verdict (raw r) : bool then good (raw r) else poison (raw r)) B ->
  exists st', _handle_exhausted_batch k ws b st = (Ok term, st')
              /\ Settled verdict B q torn st st'.
Proof.
  intros Hq Hb Hend HB Hv. set (st0 := snd (graph_discard_buffer st)).
  pose proof (runs_isolate verdict B T term st0 q torn Hend Hq eq_refl HB Hv) as Hr.
  unfold runs in Hr. unfold _handle_exhausted_batch, mbind. simpl. fold (st0). rewrite Hb.
  change (isolate_records k ws (B ++ T) _) with (isolate_records k ws (B ++ T) st0).
  destruct (isolate_records k ws (B ++ T) st0) as [[r|] st']; [|done].
  destruct Hr as [-> HS]. by exists st'.
Qed.
End progress.

(** ** Instances *)

#[local] Existing Instance demo_env.

Lemma demo_cooperative : Cooperative (S := unit).
Proof. split; try done; simpl; eauto. lia. Qed.

Lemma drain_to_eof_delivers_witness :
  exists st', _drain_to_eof "k" "w" 4 (demo_state (demo_log "k" ["a"; "b"; "e"])) = (Ok (Some true), st')
    /\ map raw (durable st') = [bytes_of "a"; bytes_of "b"; bytes_of "e"].
Proof.
  destruct (drain_to_eof_delivers "k" "w" eq_refl demo_cooperative 4
    (demo_state (demo_log "k" ["a"; "b"; "e"])) (AQ (map bytes_of ["a"; "b"; "e"]) 0) [])
    as (st' & Hr & HD); [vm_compute; lia|by apply demo_log_implements|done| |].
  - repeat constructor; try reflexivity; intros s; reflexivity.
  - exists st'. split; [exact Hr|]. destruct HD as (_ & _ & -> & _). reflexivity.
Defined.

Lemma handle_exhausted_batch_exact_witness :
  exists st', _handle_exhausted_batch "k" "w"
      (MkBatch "k" (pending_records (AQ (map bytes_of ["a"; "p"; "x"; "b"; "e"; "c"]) 0)) 0 12)
      (demo_state (demo_log "k" ["a"; "p"; "x"; "b"; "e"; "c"])) = (Ok true, st')
    /\ map raw (durable st') = [bytes_of "a"; bytes_of "b"]
    /\ map raw (dead st') = [bytes_of "p"; bytes_of "x"] /\ length (acked st') = 4.
Proof.
  destruct (handle_exhausted_batch_exact "k" "w" eq_refl demo_cooperative
    (fun r => negb (bool_decide (r = bytes_of "p") || bool_decide (r = bytes_of "x")))
    (MkBatch "k" (pending_records (AQ (map bytes_of ["a"; "p"; "x"; "b"; "e"; "c"]) 0)) 0 12)
    (take 4 (pending_records (AQ (map bytes_of ["a"; "p"; "x"; "b"; "e"; "c"]) 0)))
    (drop 4 (pending_records (AQ (map bytes_of ["a"; "p"; "x"; "b"; "e"; "c"]) 0))) true
    (demo_state (demo_log "k" ["a"; "p"; "x"; "b"; "e"; "c"])) (AQ (map bytes_of ["a"; "p"; "x"; "b"; "e"; "c"]) 0) [])
    as (st' & Hr & HS); [by apply demo_log_implements|by rewrite take_drop| |apply prefix_take| |].
  - split; [reflexivity|]. do 5 eexists. split; reflexivity.
  - repeat constructor; try reflexivity; intros s; try reflexivity.
    exists ValueError, s. split; reflexivity.
  - exists st'. split; [exact Hr|]. destruct HS as (_ & _ & -> & -> & ->). split_and!; reflexivity.
Defined.
