(* ===== verification/DrainRecorded.v ===== *)
(** * Dispatched records stay recorded

    What pipeline and store promise to the drain worker, as a class: a record
    whose event was processed without an error is held (buffered or written), a
    flush that succeeds writes what is held, and what is written stays.  Against
    it, the worker keeps every record of its buffer held and every record it
    flushed recorded. *)
From stdpp Require Import base list gmap strings sorting.
From Stdlib Require Import ZArith Lia.
From S2P Require Import Prelude PyText Sha256 Utils Json QueueFiles QueueManager QueueSpec Drain DrainDemo.
From S2P Require Import DrainSpec.

(** ** The promise *)

Class Recorder (S : Type) `{!DrainEnv S} := {
  sound : S -> Prop;                  (** the store's own invariant *)
  held : S -> LogRecord -> Prop;      (** buffered or written *)
  recorded : S -> LogRecord -> Prop;  (** written *)
}.

Section recorder.
Context {S : Type} `{!DrainEnv S} `{!Recorder S}.

Definition grows (e e' : S) : Prop :=
  sound e -> sound e' /\ (forall r, held e r -> held e' r) /\ (forall r, recorded e r -> recorded e' r).

#[export] Instance grows_pre : PreOrder grows.
Proof.
  split; [by intros e He|]. intros e1 e2 e3 H12 H23 He. destruct (H12 He) as (H2 & Hh & Hr).
  destruct (H23 H2) as (H3 & Hh' & Hr'). split; [done|]. split; auto.
Qed.

Definition steady {A} (m : M S A) : Prop := forall e, grows e (snd (m e)).
Definition steady_opt (h : option (M S unit)) : Prop := match h with Some m => steady m | None => True end.
Definition steady_hook {A} (h : option (A -> M S unit)) : Prop :=
  match h with Some f => forall a, steady (f a) | None => True end.
Definition steady_fn {A} (f : S -> A * S) : Prop := forall e, grows e (snd (f e)).

(** Everything the worker calls only grows the environment. *)
Record Steady : Prop := {
  st_process : forall ev data wd ident, steady (process_event ev data wd ident);
  st_flush : steady graph_flush;
  st_close : steady graph_close;
  st_discard : forall e, sound e ->
    sound (discard_buffer e) /\ forall r, recorded e r -> recorded (discard_buffer e) r;
  st_permit : steady flush_permit;
  st_guard : steady recovery_guard;
  st_pre : steady_opt pre_flush;
  st_elig : steady_hook before_recovery_flush;
  st_flushed : steady_hook on_batch_flushed;
  st_written : steady_hook on_batch_written;
  st_fail : steady_opt on_post_commit_failure;
  st_quar : steady_hook on_record_quarantined;
  st_write : steady_fn os_write;
  st_commit : steady_fn os_commit;
  st_unlink : steady_fn os_unlink;
  st_read : steady read_fault;
  st_interfere : steady_fn interfere;
  st_mono : steady_fn monotonic;
  st_wall : steady_fn wall_time;
  st_sleep : forall t, steady (sleep t);
  st_wait : forall t, steady (wait_for_change t);
  (** a processed record is held, and a flush that succeeds records it *)
  st_held : forall r ev w wd data ident e e', sound e ->
    _parse_line (raw r) = Ok (ev, w, wd, data, ident) ->
    process_event ev data wd ident e = (Ok tt, e') -> held e' r;
  st_recorded : forall r e e', sound e -> graph_flush e = (Ok tt, e') -> held e r -> recorded e' r;
}.
End recorder.

Section spec.
Context {S : Type} `{!DrainEnv S} `{!Recorder S}.
Variable k : string.
Variable ws : string.
Hypothesis steadies : Steady.
Implicit Types st : DState S.

(** Everything buffered is held, everything flushed is recorded. *)
Definition Rec st : Prop :=
  sound (env st) /\ Forall (held (env st)) (buffered st) /\ Forall (recorded (env st)) (durable st).

Lemma Rec_weaken st st' :
  grows (env st) (env st') -> buffered st' = buffered st -> durable st' = durable st -> Rec st -> Rec st'.
Proof.
  intros Hg Hb Hd (Hs & HB & HD). destruct (Hg Hs) as (Hs' & Hh & Hr). unfold Rec. rewrite Hb, Hd.
  split; [done|]. split; eapply Forall_impl; eauto.
Qed.

Lemma rec_env {A} (m : M S A) : steady m -> preserves Rec (lift_env m).
Proof.
  intros Hm st HR. unfold lift_env. specialize (Hm (env st)). destruct (m (env st)) as [r e].
  by apply (Rec_weaken st).
Qed.

Lemma rec_clock f : steady_fn f -> preserves Rec (clock f).
Proof.
  intros Hm st HR. unfold clock. specialize (Hm (env st)). destruct (f (env st)) as [t e].
  by apply (Rec_weaken st).
Qed.

Lemma rec_hook {A} (h : option (A -> M S unit)) a : steady_hook h -> preserves Rec (hook h a).
Proof. destruct h; simpl; [intros Hh; apply rec_env, Hh|intros _; apply preserves_ret]. Qed.

Lemma rec_opt h : steady_opt h -> preserves Rec (run_opt h).
Proof. destruct h; simpl; [apply rec_env|intros _; apply preserves_ret]. Qed.

(** Updates of the worker's own bookkeeping *)
Lemma rec_same (f : DState S -> DState S) :
  (forall st, env (f st) = env st /\ buffered (f st) = buffered st /\ durable (f st) = durable st) ->
  preserves Rec (mmodify f).
Proof. intros Hf st HR. destruct (Hf st) as (He & Hb & Hd). unfold Rec. simpl. by rewrite He, Hb, Hd. Qed.

Lemma rec_read_dir {A} (f : DState S -> result A) : preserves Rec (fun st => (f st, st)).
Proof. by intros st HR. Qed.

Lemma rec_appends : preserves Rec (concurrent_appends k).
Proof.
  intros st HR. unfold concurrent_appends. assert (Hi := st_interfere steadies (env st)).
  destruct (interfere (env st)) as [l e]. by apply (Rec_weaken st).
Qed.

Lemma rec_commit off : preserves Rec (qm_commit k off).
Proof.
  intros st HR. unfold qm_commit. assert (Hi := st_commit steadies (env st)).
  destruct (os_commit (env st)) as [[[sc u] c] e]. destruct (commit k off u sc (qdir st)) as [[[]|x] d'];
    by apply (Rec_weaken st).
Qed.

Lemma rec_dead rec err : preserves Rec (qm_dead_letter k rec err).
Proof.
  intros st HR. unfold qm_dead_letter. assert (Hi := st_write steadies (env st)).
  destruct (os_write (env st)) as [[sc c] e].
  destruct (dead_letter k (raw rec) _ err sc (qdir st)) as [[[]|x] d']; by apply (Rec_weaken st).
Qed.

Lemma rec_discard : preserves Rec graph_discard_buffer.
Proof.
  intros st (Hs & _ & HD). destruct (st_discard steadies (env st) Hs) as [Hs' Hr].
  split; [done|]. split; [apply Forall_nil_2|]. simpl. eapply Forall_impl; [exact HD|auto].
Qed.

Lemma rec_delete_drained : preserves Rec (qm_delete_drained k).
Proof.
  unfold qm_delete_drained. apply preserves_bind; [apply rec_appends|]. intros _ st HR.
  assert (Hi := st_unlink steadies (env st)). destruct (os_unlink (env st)) as [[sc c] e].
  destruct (delete_drained k sc (qdir st)) as [r d']. by apply (Rec_weaken st).
Qed.

Hint Resolve rec_env rec_clock rec_hook rec_opt rec_same rec_read_dir rec_appends rec_commit rec_dead
  rec_discard rec_delete_drained : pym.
Hint Resolve st_process st_flush st_close st_permit st_guard st_pre st_elig st_flushed st_written
  st_fail st_quar st_read st_mono st_wall st_sleep st_wait : pym.

(** ** Dispatch *)

Lemma rec_ring event data ok error : preserves Rec (ring_buffer_add ws event data ok error).
Proof. unfold ring_buffer_add. preserves_auto. Qed.
Hint Resolve rec_ring : pym.

(** After a successful dispatch the record is held. *)
Definition RecPlus (rec : LogRecord) st : Prop := Rec st /\ held (env st) rec.

Lemma recplus_grow rec st st' :
  grows (env st) (env st') -> buffered st' = buffered st -> durable st' = durable st ->
  RecPlus rec st -> RecPlus rec st'.
Proof.
  intros Hg Hb Hd [HR Hr]. split; [by apply (Rec_weaken st)|].
  destruct HR as [Hs _]. destruct (Hg Hs) as (_ & Hh & _). auto.
Qed.

Lemma recplus_ring rec event data ok error :
  preserves (RecPlus rec) (ring_buffer_add ws event data ok error).
Proof.
  assert (Hc : preserves (RecPlus rec) (clock (S := S) wall_time)).
  { intros st HR. unfold clock. assert (Hg := st_wall steadies (env st)).
    destruct (wall_time (env st)) as [t e]. by apply (recplus_grow rec st). }
  unfold ring_buffer_add. destruct data; apply preserves_bind; try exact Hc; intros t; by intros st HR.
Qed.

Lemma ring_raise {A} (Q : A -> DState S -> Prop) ev data ok error e st :
  Rec st ->
  match (ring_buffer_add ws ev data ok error ;;; mraise e) st with
  | (Ok a, s) => Q a s | (Err _, s) => Rec s end.
Proof.
  intros HR. assert (Hr := rec_ring ev data ok error st HR). unfold mbind.
  by destruct (ring_buffer_add ws ev data ok error st) as [[[]|x] st2].
Qed.

Lemma process_one_recorded rec ev w wd data ident :
  _parse_line (raw rec) = Ok (ev, w, wd, data, ident) ->
  triple Rec (_process_one ws ev data wd ident) (fun _ => RecPlus rec) (fun _ => Rec).
Proof.
  intros Hp st HR. unfold _process_one. set (body := mbind _ _).
  assert (Hb : triple Rec body (fun _ => RecPlus rec) (fun _ => Rec)).
  { apply triple_bind with (Q := fun _ => RecPlus rec).
    - intros s Hs. unfold lift_env. assert (Hg := st_process steadies ev data wd ident (env s)).
      assert (Hrec := st_held steadies rec ev w wd data ident (env s)).
      destruct (process_event ev data wd ident (env s)) as [[[]|e] e'].
      + split; [by apply (Rec_weaken s)|]. apply Hrec; [apply Hs|done|done].
      + by apply (Rec_weaken s).
    - intros u s Hs. unfold mbind, clock. assert (Hg := st_wall steadies (env s)).
      destruct (wall_time (env s)) as [t e]. by apply (recplus_grow rec s). }
  specialize (Hb st HR). destruct (body st) as [[[]|e] st1].
  - assert (Hr := recplus_ring rec ev data true "" st1 Hb).
    destruct (ring_buffer_add ws ev data true "" st1) as [[[]|e] st2]; [done|apply Hr].
  - destruct (is_Exception e); [|by apply ring_raise].
    change (mbind _ _ st1) with ((ring_buffer_add ws ev data false (exn_text e) ;;; @mraise _ unit e)
      (with_worker (note_error (worker st1)) st1)). by apply ring_raise.
Qed.

Lemma rec_note rec : triple (RecPlus rec) (note_buffered rec) (fun _ => Rec) (fun _ => Rec).
Proof.
  intros st [(Hs & HB & HD) Hr]. unfold note_buffered, Rec. simpl. split; [done|]. split; [|done].
  apply Forall_app. split; [done|by apply Forall_singleton].
Qed.

(** Invariance as a triple, and back *)
Lemma preserves_triple {A} (m : M (DState S) A) :
  preserves Rec m <-> triple Rec m (fun _ => Rec) (fun _ => Rec).
Proof.
  split; intros Hm st HR; specialize (Hm st HR); destruct (m st) as [[a|e] st']; done.
Qed.

Lemma rec_dispatch_one rec ev w wd data ident {A} (K : M (DState S) A) :
  _parse_line (raw rec) = Ok (ev, w, wd, data, ident) -> preserves Rec K ->
  preserves Rec (_process_one ws ev data wd ident ;;; note_buffered rec ;;; K).
Proof.
  intros Hp HK. apply preserves_triple. eapply triple_bind; [by eapply process_one_recorded|].
  intros u. eapply triple_bind; [apply rec_note|]. intros u'. by apply preserves_triple.
Qed.

Lemma rec_process_records recs acc : preserves Rec (process_records ws recs acc).
Proof.
  revert acc. induction recs as [|rec recs IH]; intros acc; simpl; [apply preserves_ret|].
  apply preserves_bind_lift. intros [[[[ev w] wd] data] ident] Hp. eapply rec_dispatch_one; [exact Hp|].
  destruct acc.2; [apply IH|]. apply preserves_bind_lift. intros term _. apply IH.
Qed.
Hint Resolve rec_process_records : pym.

(** ** Flush, commit, isolation *)

Lemma flush_records :
  triple Rec (lift_env graph_flush) (fun _ st => Rec st /\ Forall (recorded (env st)) (buffered st)) (fun _ => Rec).
Proof.
  intros st HR. unfold lift_env. assert (Hg := st_flush steadies (env st)).
  assert (Hr := fun r => st_recorded steadies r (env st)).
  destruct (graph_flush (env st)) as [[[]|x] e]; [|by apply (Rec_weaken st)].
  split; [by apply (Rec_weaken st)|]. destruct HR as (Hs & HB & _). simpl.
  eapply Forall_impl; [exact HB|]. intros r Hh. by apply (Hr r).
Qed.

Lemma rec_flush_graph : preserves Rec _flush_graph.
Proof.
  apply preserves_triple. unfold _flush_graph. eapply triple_bind; [apply flush_records|].
  intros u st [(Hs & HB & HD) Hf]. revert st Hs HB HD Hf.
  assert (Ht : preserves Rec (let! t := clock (S := S) wall_time in mmodify (fun st =>
     let w := worker st in
     with_worker (MkWorker (last_event w) (last_event_time w) (events_processed w)
       (error_count w) (started_at w) t (store_closed w)) st))).
  { apply preserves_bind; [auto using rec_clock, st_wall|]. intros t. by apply rec_same. }
  apply preserves_triple in Ht. intros st Hs HB HD Hf. unfold mbind at 1, mmodify at 1. apply Ht.
  split; [done|]. split; [apply Forall_nil_2|]. by apply Forall_app.
Qed.
Hint Resolve rec_flush_graph : pym.

Lemma rec_nonempty_hook h recs : steady_hook h -> preserves Rec (nonempty_hook h recs).
Proof. intros Hh. destruct recs; simpl; [apply preserves_ret|by apply rec_hook]. Qed.
Hint Resolve rec_nonempty_hook : pym.

Lemma rec_flush_and_commit recs off elig : preserves Rec (_flush_and_commit k recs off elig).
Proof. unfold _flush_and_commit, _recovery_write_guard, _flush_barrier, _before_commit. preserves_auto. Qed.
Hint Resolve rec_flush_and_commit : pym.

Lemma rec_post_commit recs : preserves Rec (_post_commit recs).
Proof. unfold _post_commit. preserves_auto. Qed.
Hint Resolve rec_post_commit : pym.

Lemma rec_quarantine rec : preserves Rec (_quarantine_and_commit k rec).
Proof.
  unfold _quarantine_and_commit, _publish_quarantine_then_ack, _before_quarantine, _recovery_write_guard.
  preserves_auto.
Qed.
Hint Resolve rec_quarantine : pym.

Lemma rec_isolate_failure rec e : preserves Rec (isolate_failure k rec e).
Proof. unfold isolate_failure. destruct e; preserves_auto. Qed.
Hint Resolve rec_isolate_failure : pym.

Lemma rec_isolate recs : preserves Rec (isolate_records k ws recs).
Proof.
  induction recs as [|rec recs IH]; simpl; [apply preserves_ret|].
  destruct (_parse_line (raw rec)) as [[[[[ev w] wd] data] ident]|e] eqn:Hp.
  - apply preserves_bind_lift. intros [|] _; [apply preserves_ret|].
    apply preserves_bind; [|intros [|]; (apply preserves_bind; [|intros ?; exact IH])].
    + apply preserves_catch; [|intros e; apply rec_isolate_failure].
      eapply rec_dispatch_one; [exact Hp|]. preserves_auto.
    + apply rec_quarantine.
    + apply preserves_bind; [by apply rec_same|intros ?; apply rec_post_commit].
  - destruct (is_Exception e); [|apply preserves_raise].
    do 3 (apply preserves_bind; [auto with pym|intros ?]). exact IH.
Qed.
Hint Resolve rec_isolate : pym.

(** ** The loops *)

Lemma rec_read : preserves Rec (qm_read_batch k).
Proof. unfold qm_read_batch. preserves_auto. Qed.
Hint Resolve rec_read : pym.

Lemma rec_eof fuel : preserves Rec (_drain_to_eof k ws fuel).
Proof.
  induction fuel as [|fuel IH]; simpl; [apply preserves_ret|].
  apply preserves_bind; [apply rec_read|]. intros b. destruct (records b) as [|r0 rs] eqn:Hrs; [apply preserves_ret|].
  rewrite <- Hrs. intros st HR.
  assert (H1 : Rec ((_process_batch ws b ;;; _flush_and_commit k (records b) (end_offset b) (records b)) st).2).
  { revert st HR. unfold _process_batch. apply preserves_bind; [apply rec_process_records|].
    intros ?. apply rec_flush_and_commit. }
  destruct (mbind _ _ st) as [[u|e] st1].
  - revert H1. simpl. revert st1. apply preserves_bind; [by apply rec_same|]. intros ?.
    apply preserves_bind; [apply rec_post_commit|intros ?; exact IH].
  - destruct e; done.
Qed.
Hint Resolve rec_eof : pym.

Lemma rec_safe_close : preserves Rec _safe_close.
Proof. unfold _safe_close. apply preserves_bind; [by apply rec_same|]. intros ?. preserves_auto. Qed.
Hint Resolve rec_safe_close : pym.

Lemma rec_deregister : preserves Rec _deregister.
Proof. by apply rec_same. Qed.
Hint Resolve rec_deregister : pym.

Lemma rec_delete_attempts fuel n : preserves Rec (delete_attempts k ws fuel n).
Proof. induction n as [|n IH]; simpl; preserves_auto. Qed.
Hint Resolve rec_delete_attempts : pym.

Lemma rec_complete : preserves Rec (complete_session k ws).
Proof. unfold complete_session. preserves_auto. Qed.
Hint Resolve rec_complete : pym.

Lemma rec_finalize fuel : preserves Rec (_finalize_session k ws fuel).
Proof. unfold _finalize_session. preserves_auto. Qed.
Hint Resolve rec_finalize : pym.

Lemma rec_transient v : preserves Rec (transient_retry v).
Proof. unfold transient_retry. preserves_auto. Qed.
Hint Resolve rec_transient : pym.

Lemma rec_abandon : preserves Rec abandon.
Proof. unfold abandon. preserves_auto. Qed.
Hint Resolve rec_abandon : pym.

Lemma rec_idle v : preserves Rec (idle_step k v).
Proof. unfold idle_step. cbv zeta. preserves_auto. Qed.
Hint Resolve rec_idle : pym.

Lemma rec_finalize_step fuel : preserves Rec (let! r := _finalize_session k ws fuel in mret (to_step r)).
Proof. preserves_auto. Qed.

Lemma rec_poison fuel b v : preserves Rec (poison_retry k ws fuel b v).
Proof.
  unfold poison_retry. destruct (_ <=? _)%Z; [|preserves_auto]. intros st HR.
  assert (H1 : Rec (_handle_exhausted_batch k ws b st).2).
  { revert st HR. unfold _handle_exhausted_batch. apply preserves_bind; [apply rec_discard|intros ?; apply rec_isolate]. }
  destruct (_handle_exhausted_batch k ws b st) as [[[|]|e] st1]; [by apply rec_finalize_step|done|].
  destruct e; try done. by apply rec_transient.
Qed.
Hint Resolve rec_poison : pym.

Lemma rec_retry_count : preserves Rec (record_write_retry (S := S)).
Proof. by apply rec_same. Qed.
Hint Resolve rec_retry_count : pym.

Lemma rec_batch_step fuel b v : preserves Rec (batch_step k ws fuel b v).
Proof.
  intros st HR. unfold batch_step.
  assert (H1 : Rec (dispatch_batch k ws b st).2).
  { revert st HR. unfold dispatch_batch, _process_batch. apply preserves_bind; [apply rec_process_records|].
    intros [n t]. cbv zeta. apply preserves_bind; [apply rec_flush_and_commit|intros ?; apply preserves_ret]. }
  destruct (dispatch_batch k ws b st) as [[[[n t] recs]|e] st1]; simpl in H1.
  - revert st1 H1. apply preserves_bind; [by apply rec_same|]. intros ?.
    apply preserves_bind; [apply rec_post_commit|]. intros ?. destruct t; [apply rec_finalize_step|apply preserves_ret].
  - revert st1 H1. change (preserves Rec (dispatch_failure k ws fuel b v e)).
    unfold dispatch_failure. destruct e; preserves_auto.
Qed.
Hint Resolve rec_batch_step : pym.

Lemma rec_loop fuel v : preserves Rec (drain_loop k ws fuel v).
Proof.
  revert v. induction fuel as [|fuel IH]; intros v; simpl; [apply preserves_ret|].
  apply preserves_bind; [|intros [v'| |]; [apply IH|apply preserves_ret..]].
  unfold drain_iteration. preserves_auto.
Qed.

(** The worker keeps everything it dispatched recorded. *)
Lemma rec_worker fuel : preserves Rec (drain_worker k ws fuel).
Proof. unfold drain_worker. apply preserves_bind; [auto using rec_clock, st_mono|intros ?; apply rec_loop]. Qed.

(** With the safety invariant of the queue: acknowledged means recorded. *)
Lemma acked_recorded fuel st :
  _validate_session_id k = true -> Inv k st -> Rec st ->
  let '(_, st') := drain_worker k ws fuel st in
  Forall (fun r => r ∈ dead st' \/ recorded (env st') r) (acked st').
Proof.
  intros Hk Hi HR. assert (H1 := rec_worker fuel st HR).
  assert (H2 := worker_left k ws Hk fuel st Hi).
  destruct (drain_worker k ws fuel st) as [r st']. simpl in H1.
  assert (Hc := Left_covered k st' H2). destruct H1 as (_ & _ & HD).
  unfold covered in Hc. eapply Forall_impl; [exact Hc|]. intros x [Hx|Hx]; [right|by left].
  rewrite Forall_forall in HD. by apply HD.
Qed.
End spec.
