(* ===== verification/GraphStore.v ===== *)
(** * The graph store ([graph_store.py], [services.GraphState])

    The store interface the handlers write to, as a class of operations, and
    its in-memory implementation: nodes and edges with JSON properties, label
    union on upsert, the non-authoritative [status_if_absent] hint, label
    reclassification, and the whole-graph resolution and deletion. *)
From stdpp Require Import base list gmap strings sorting.
From Stdlib Require Import ZArith Lia.
From S2P Require Import Prelude PyText Sha256 Utils Json QueueFiles QueueManager.

(** A property dictionary. *)
Abbreviation obj := (list (string * json)).

(** ** The interface *)

Class GraphStore (G : Type) := {
  upsert_node : string -> obj -> M G unit;
  get_node : string -> M G (option obj);
  upsert_edge : string -> string -> obj -> M G unit;
  get_edge : string -> string -> M G (option obj);
  find_delegation_by_sub_session : string -> string -> M G (option obj);
  find_owner_in_buffer : string -> string -> G -> option string;
  remove_edge : string -> string -> M G unit;
  set_labels : string -> list string -> list string -> M G unit;
  graph_workspace : G -> string;
}.

(** ** Labels *)

(** [sorted(set(a) | set(b))] *)
Definition label_union (a b : list string) : list string := py_sorted (remove_dups (a ++ b)).
Definition labels_of (o : obj) : list string := str_items (jget_default "labels" (JArr []) o).

(** ** The in-memory store *)

Record GraphState := MkGraph {
  _workspace : string;
  _created_by : option string;
  _nodes : list (string * obj);
  _edges : list ((string * string) * obj);
}.

Definition with_nodes (n : list (string * obj)) (g : GraphState) : GraphState :=
  MkGraph (_workspace g) (_created_by g) n (_edges g).
Definition with_edges (e : list ((string * string) * obj)) (g : GraphState) : GraphState :=
  MkGraph (_workspace g) (_created_by g) (_nodes g) e.

Definition node (g : GraphState) (n : string) : obj :=
  match dget n (_nodes g) with Some o => o | None => [] end.

(** The [for key, value in data.items()] loop. *)
Definition copy_props (existing data : obj) : obj :=
  fold_left (fun o kv => if decide (kv.1 = "labels" \/ kv.1 = "status_if_absent") then o
                         else dset kv.1 kv.2 o) data existing.

Definition merge_node (existing data : obj) : obj :=
  let existing := match dget "labels" data with
                  | Some ls => dset "labels" (jstrs (label_union (labels_of existing) (str_items ls))) existing
                  | None => existing
                  end in
  let provisional := jget "status_if_absent" data in
  let existing := copy_props existing data in
  if negb (is_none provisional) && negb (truthy (jget "status" existing))
  then dset "status" provisional existing else existing.

Definition gs_upsert_node (node_id : string) (data : obj) : M GraphState unit :=
  mmodify (fun g => with_nodes (dset node_id (merge_node (node g node_id) data) (_nodes g)) g).

Definition gs_get_node (node_id : string) : M GraphState (option obj) :=
  fun g => (Ok (dget node_id (_nodes g)), g).

Definition gs_upsert_edge (src dst : string) (data : obj) : M GraphState unit :=
  mmodify (fun g =>
    let old := match dget (src, dst) (_edges g) with Some e => e | None => [] end in
    with_edges (dset (src, dst) (dupdate old data) (_edges g)) g).

Definition gs_get_edge (src dst : string) : M GraphState (option obj) :=
  fun g => (Ok (dget (src, dst) (_edges g)), g).

(** [v == s] for a string [s] *)
Definition jstr_is (s : string) (j : json) : bool :=
  match j with JStr s' => bool_decide (s' = s) | _ => false end.

Definition is_delegation_of (sub_session_id : string) (o : obj) : bool :=
  bool_decide ("Delegation" ∈ labels_of o) && jstr_is sub_session_id (jget "sub_session_id" o).

Definition gs_find_delegation (sub_session_id workspace : string) : M GraphState (option obj) :=
  fun g => (Ok (List.find (is_delegation_of sub_session_id) (map snd (_nodes g))), g).

(** [ownership._find_owner_in_buffer] *)
Fixpoint find_owner (dst type : string) (es : list ((string * string) * obj)) : option string :=
  match es with
  | [] => None
  | ((src, d), data) :: es =>
    if bool_decide (d = dst) && jstr_is type (jget "type" data) then Some src
    else find_owner dst type es
  end.
Definition gs_find_owner (dst type : string) (g : GraphState) : option string :=
  find_owner dst type (_edges g).

Definition gs_remove_edge (src dst : string) : M GraphState unit :=
  mmodify (fun g => with_edges (ddel (src, dst) (_edges g)) g).

Definition gs_set_labels (node_id : string) (remove_labels add_labels : list string)
    : M GraphState unit :=
  mmodify (fun g =>
    let existing := node g node_id in
    let kept := base.filter (fun l => l ∉ remove_labels) (labels_of existing) in
    with_nodes (dset node_id (dset "labels" (jstrs (label_union kept add_labels)) existing)
                  (_nodes g)) g).

#[export] Instance GraphState_store : GraphStore GraphState := {|
  upsert_node := gs_upsert_node; get_node := gs_get_node;
  upsert_edge := gs_upsert_edge; get_edge := gs_get_edge;
  find_delegation_by_sub_session := gs_find_delegation;
  find_owner_in_buffer := gs_find_owner;
  remove_edge := gs_remove_edge; set_labels := gs_set_labels;
  graph_workspace := _workspace;
|}.

(** ** Facts about labels *)

Lemma elem_of_label_union l a b : l ∈ label_union a b <-> l ∈ a \/ l ∈ b.
Proof.
  unfold label_union, py_sorted. rewrite merge_sort_Permutation, elem_of_remove_dups, elem_of_app. done.
Qed.

Lemma py_sorted_ext l1 l2 :
  NoDup l1 -> NoDup l2 -> (forall x, x ∈ l1 <-> x ∈ l2) -> py_sorted l1 = py_sorted l2.
Proof.
  intros H1 H2 H. unfold py_sorted. apply (StronglySorted_unique String.le).
  - apply StronglySorted_merge_sort; apply _.
  - apply StronglySorted_merge_sort; apply _.
  - rewrite !merge_sort_Permutation. by apply NoDup_Permutation.
Qed.

Lemma label_union_ext a b c d :
  (forall x, x ∈ a \/ x ∈ b <-> x ∈ c \/ x ∈ d) -> label_union a b = label_union c d.
Proof.
  intros H. apply py_sorted_ext; [apply NoDup_remove_dups..|].
  intros x. rewrite !elem_of_remove_dups, !elem_of_app. apply H.
Qed.

Lemma label_union_absorb a b : label_union (label_union a b) b = label_union a b.
Proof. apply label_union_ext. intros x. rewrite elem_of_label_union. tauto. Qed.

(** ** Node upsert *)

Definition plain_key (k : string) : Prop := k <> "labels" /\ k <> "status_if_absent".

Lemma copy_props_get existing data k :
  NoDup (dkeys data) ->
  dget k (copy_props existing data)
  = if decide (k = "labels" \/ k = "status_if_absent") then dget k existing
    else match dget k data with Some v => Some v | None => dget k existing end.
Proof.
  unfold copy_props. revert existing.
  induction data as [|[k' v'] data IH]; intros existing Hnd; [simpl; by case_decide|].
  unfold dkeys in *. cbn [map fst] in Hnd. apply NoDup_cons in Hnd as [Hk' Hnd].
  cbn [fold_left fst snd]. rewrite IH by done.
  destruct (decide (k' = "labels" \/ k' = "status_if_absent")) as [Hs'|Hs'];
    destruct (decide (k = "labels" \/ k = "status_if_absent")) as [Hs|Hs].
  - done.
  - simpl. rewrite decide_False by (intros ->; tauto). done.
  - rewrite dget_dset_ne; [done|]. intros ->. tauto.
  - simpl. destruct (decide (k = k')) as [-> |Hne].
    + assert (dget k' data = None) as -> by (by apply dget_None_keys). by rewrite dget_dset_eq.
    + by rewrite dget_dset_ne by congruence.
Qed.

Definition merged_labels (existing data : obj) : list string :=
  match dget "labels" data with
  | Some ls => label_union (labels_of existing) (str_items ls)
  | None => labels_of existing
  end.

Definition merged_prop (existing data : obj) (k : string) : option json :=
  match dget k data with Some v => Some v | None => dget k existing end.

Definition opt_json (o : option json) : json := match o with Some v => v | None => JNull end.

Lemma merge_node_labels existing data :
  NoDup (dkeys data) -> labels_of (merge_node existing data) = merged_labels existing data.
Proof.
  intros Hnd. unfold merge_node, merged_labels.
  set (e1 := match dget "labels" data with Some _ => _ | None => _ end).
  assert (He1 : labels_of e1 = match dget "labels" data with
    | Some ls => label_union (labels_of existing) (str_items ls) | None => labels_of existing end).
  { unfold e1. destruct (dget "labels" data); [|done].
    unfold labels_of at 1, jget_default. by rewrite dget_dset_eq, str_items_jstrs. }
  assert (He2 : labels_of (copy_props e1 data) = labels_of e1).
  { unfold labels_of, jget_default. rewrite copy_props_get by done. by rewrite decide_True by auto. }
  destruct (_ && _); [|by rewrite He2, He1].
  unfold labels_of, jget_default in *. rewrite dget_dset_ne by done. by rewrite He2, He1.
Qed.

Lemma merge_node_get existing data k :
  NoDup (dkeys data) -> plain_key k -> k <> "status" ->
  dget k (merge_node existing data) = merged_prop existing data k.
Proof.
  intros Hnd [Hl Hs] Hst. unfold merge_node, merged_prop.
  set (e1 := match dget "labels" data with Some _ => _ | None => _ end).
  assert (He1 : dget k e1 = dget k existing).
  { unfold e1. destruct (dget "labels" data); [by rewrite dget_dset_ne by congruence|done]. }
  assert (He2 : dget k (copy_props e1 data) = match dget k data with Some v => Some v | None => dget k existing end).
  { rewrite copy_props_get, decide_False, He1 by (done || tauto). done. }
  destruct (_ && _); [by rewrite dget_dset_ne by congruence|done].
Qed.

Lemma merge_node_status existing data :
  NoDup (dkeys data) ->
  dget "status" (merge_node existing data)
  = let provisional := jget "status_if_absent" data in
    let status := merged_prop existing data "status" in
    if negb (is_none provisional) && negb (truthy (opt_json status)) then Some provisional else status.
Proof.
  intros Hnd. unfold merge_node, merged_prop. cbv zeta.
  set (e1 := match dget "labels" data with Some _ => _ | None => _ end).
  assert (He1 : dget "status" e1 = dget "status" existing).
  { unfold e1. destruct (dget "labels" data); [by rewrite dget_dset_ne by done|done]. }
  assert (He2 : dget "status" (copy_props e1 data)
    = match dget "status" data with Some v => Some v | None => dget "status" existing end).
  { rewrite copy_props_get, decide_False, He1 by (done || naive_solver). done. }
  unfold jget at 2. rewrite He2. unfold opt_json.
  destruct (_ && _); [apply dget_dset_eq|done].
Qed.

Lemma merge_node_labels_key existing data ls :
  NoDup (dkeys data) -> dget "labels" data = Some ls ->
  dget "labels" (merge_node existing data) = Some (jstrs (label_union (labels_of existing) (str_items ls))).
Proof.
  intros Hnd Hl. unfold merge_node. rewrite Hl. cbv zeta.
  assert (Hc : forall e, dget "labels" (copy_props e data) = dget "labels" e).
  { intros e. rewrite copy_props_get by done. by rewrite decide_True by auto. }
  destruct (_ && _); [rewrite dget_dset_ne by done|]; rewrite Hc; apply dget_dset_eq.
Qed.

Lemma merge_node_prop existing data k v :
  NoDup (dkeys data) -> dget "status_if_absent" data = None -> (k, v) ∈ data -> plain_key k ->
  dget k (merge_node existing data) = Some v.
Proof.
  intros Hnd Hs Hin Hk. apply (elem_dget k v data Hnd) in Hin.
  destruct (decide (k = "status")) as [-> |Hne].
  - rewrite merge_node_status by done. cbv zeta. unfold jget, merged_prop. by rewrite Hs, Hin.
  - rewrite merge_node_get by done. unfold merged_prop. by rewrite Hin.
Qed.

(** What an upsert does to a node.  Labels are the sorted union of the old
    and the new ones, every plain property takes the new value if one is given
    and keeps the old one otherwise, the [status_if_absent] hint becomes the
    status only when neither the node nor the update has one, and no other node
    and no edge changes. *)
Theorem upsert_node_spec (g : GraphState) (n : string) (data : obj) :
  NoDup (dkeys data) ->
  let g' := snd (upsert_node n data g) in
  let old := node g n in
  (exists o, dget n (_nodes g') = Some o
    /\ labels_of o = merged_labels old data
    /\ (forall k, plain_key k -> k <> "status" -> dget k o = merged_prop old data k)
    /\ dget "status" o = (let s := merged_prop old data "status" in
         if negb (is_none (jget "status_if_absent" data)) && negb (truthy (opt_json s))
         then Some (jget "status_if_absent" data) else s))
  /\ (forall n', n' <> n -> dget n' (_nodes g') = dget n' (_nodes g))
  /\ _edges g' = _edges g.
Proof.
  intros Hnd. cbv zeta. simpl. rewrite dget_dset_eq. split; [|split; [|done]].
  - eexists. split; [done|]. split; [by apply merge_node_labels|].
    split; [intros; by apply merge_node_get|by apply merge_node_status].
  - intros n' Hn. by rewrite dget_dset_ne by congruence.
Qed.

Lemma upsert_node_spec_witness :
  let g := MkGraph "w" None [("s", [("labels", jstrs ["Session"]); ("status", JStr "completed")])] [] in
  dget "s" (_nodes (snd (upsert_node "s"
     [("labels", jstrs ["StubSession"]); ("status_if_absent", JStr "running")] g)))
  = Some [("labels", jstrs ["Session"; "StubSession"]); ("status", JStr "completed")].
Proof.
  cbv zeta.
  destruct (upsert_node_spec
    (MkGraph "w" None [("s", [("labels", jstrs ["Session"]); ("status", JStr "completed")])] []) "s"
    [("labels", jstrs ["StubSession"]); ("status_if_absent", JStr "running")]) as [(o & Ho & _) _].
  { apply (bool_decide_unpack _). vm_compute. exact I. }
  rewrite Ho. vm_compute in Ho. injection Ho as <-. reflexivity.
Defined.

(** ** Replays are no-ops *)

Lemma copy_props_id existing data :
  (forall k v, (k, v) ∈ data -> plain_key k -> dget k existing = Some v) ->
  copy_props existing data = existing.
Proof.
  unfold copy_props. induction data as [|[k v] data IH]; intros H; [done|]. cbn [fold_left fst snd].
  destruct (decide (k = "labels" \/ k = "status_if_absent")) as [Hs|Hs].
  - apply IH. intros k' v' Hin. apply H. apply elem_of_cons. auto.
  - rewrite dset_id by (apply H; [apply elem_of_cons; by left|unfold plain_key; tauto]).
    apply IH. intros k' v' Hin. apply H. apply elem_of_cons. auto.
Qed.

Lemma merge_node_idem existing data :
  NoDup (dkeys data) -> (dget "status" data = None \/ jget "status_if_absent" data = JNull) ->
  merge_node (merge_node existing data) data = merge_node existing data.
Proof.
  intros Hnd Hexcl. set (m := merge_node existing data).
  assert (Hlab := merge_node_labels existing data Hnd). fold m in Hlab.
  assert (Hst := merge_node_status existing data Hnd). fold m in Hst. cbv zeta in Hst.
  (* the label step is the identity *)
  assert (H1 : match dget "labels" data with
     | Some ls => dset "labels" (jstrs (label_union (labels_of m) (str_items ls))) m
     | None => m end = m).
  { unfold merged_labels in Hlab. destruct (dget "labels" data) as [ls|] eqn:Hl; [|done].
    apply dset_id. rewrite Hlab, label_union_absorb.
    by apply merge_node_labels_key. }
  (* so is the property step *)
  assert (H2 : copy_props m data = m).
  { apply copy_props_id. intros k v Hin Hk. apply (elem_dget k v data Hnd) in Hin.
    destruct (decide (k = "status")) as [-> |Hne].
    - rewrite Hst. unfold merged_prop. rewrite Hin. destruct Hexcl as [Hx|Hx]; [congruence|].
      by rewrite Hx.
    - unfold m. rewrite merge_node_get by done. unfold merged_prop. by rewrite Hin. }
  unfold merge_node at 1. cbv zeta. rewrite H1, H2.
  unfold jget at 2. fold (opt_json (dget "status" m)). rewrite Hst.
  destruct (is_none (jget "status_if_absent" data)) eqn:Hp; [done|]. cbn [negb andb].
  destruct (truthy (opt_json (merged_prop existing data "status"))) eqn:Ht; cbn [negb andb].
  - by rewrite Ht.
  - cbn [opt_json]. destruct (truthy (jget "status_if_absent" data)); [done|]. cbn [negb].
    apply dset_id. rewrite Hst. done.
Qed.

Lemma dupdate_absorb {V} (d e : list (string * V)) :
  NoDup (dkeys e) -> dupdate (dupdate d e) e = dupdate d e.
Proof.
  intros Hnd. assert (Hid : forall l o : list (string * V), (forall k v, (k, v) ∈ l -> dget k o = Some v) -> dupdate o l = o).
  { unfold dupdate. induction l as [|[k v] l IH]; intros o H; [done|]. simpl.
    rewrite dset_id by (apply H, elem_of_cons; by left). apply IH. intros. apply H, elem_of_cons. auto. }
  apply Hid. intros k v Hin. rewrite dget_dupdate by done. by rewrite (elem_dget k v e).
Qed.

(** Delivering the same node or edge write twice leaves exactly the state of
    delivering it once (the queue replays records after a crash). *)
Theorem upsert_replay_idempotent (g : GraphState) (n src dst : string) (data : obj) :
  NoDup (dkeys data) -> (dget "status" data = None \/ jget "status_if_absent" data = JNull) ->
  (let g1 := snd (upsert_node n data g) in snd (upsert_node n data g1) = g1)
  /\ (let g1 := snd (upsert_edge src dst data g) in snd (upsert_edge src dst data g1) = g1).
Proof.
  intros Hnd Hex. split; cbv zeta; simpl.
  - unfold with_nodes. simpl. f_equal. unfold node at 1. simpl. rewrite dget_dset_eq.
    rewrite merge_node_idem by done. apply dset_id, dget_dset_eq.
  - unfold with_edges. simpl. f_equal. rewrite dget_dset_eq, dupdate_absorb by done.
    apply dset_id, dget_dset_eq.
Qed.

Lemma upsert_replay_idempotent_witness :
  let g1 := snd (upsert_node "s" [("labels", jstrs ["Session"]); ("status", JStr "x")] (MkGraph "w" None [] [])) in
  snd (upsert_node "s" [("labels", jstrs ["Session"]); ("status", JStr "x")] g1) = g1.
Proof.
  apply (upsert_replay_idempotent (MkGraph "w" None [] []) "s" "a" "b"
    [("labels", jstrs ["Session"]); ("status", JStr "x")]).
  - apply (bool_decide_unpack _). vm_compute. exact I.
  - right. reflexivity.
Defined.
