(* ===== verification/GraphDelete.v ===== *)
(** * Whole-graph resolution and deletion ([services.GraphState])

    From any session of a tree of sessions the store finds the root, every
    descendant session, and the subgraph they own (up to, and excluding, shared
    concept nodes), and deletes exactly that. *)
From stdpp Require Import base list gmap strings sorting relations.
From Stdlib Require Import ZArith Lia.
From S2P Require Import Prelude PyText Sha256 Utils Json QueueFiles QueueManager GraphStore.

(** ** Traversal *)

(** [while stack: nid = stack.pop(); if nid in seen: continue; seen.add(nid);
    stack.extend(succ(nid))]; the top of the stack is the head of the list. *)
Fixpoint dfs (fuel : nat) (succ : string -> list string) (stack seen : list string) : list string :=
  match fuel with
  | O => seen
  | S fuel =>
    match stack with
    | [] => seen
    | n :: stack =>
      if decide (n ∈ seen) then dfs fuel succ stack seen
      else dfs fuel succ (rev (succ n) ++ stack) (seen ++ [n])
    end
  end.

(** [while root in parent_of], with the cycle guard. *)
Fixpoint walk_up (fuel : nat) (parent_of : list (string * string)) (root : string)
    (seen : list string) : string :=
  match fuel with
  | O => root
  | S fuel =>
    match dget root parent_of with
    | None => root
    | Some p => if decide (p ∈ seen) then p else walk_up fuel parent_of p (seen ++ [p])
    end
  end.

Abbreviation edges := (list ((string * string) * obj)).

Definition is_graph_edge (data : obj) : bool :=
  jstr_is "HAS_SUBSESSION" (jget "type" data) || jstr_is "FORKED" (jget "type" data).

Definition graph_edges (es : edges) : edges := base.filter (fun e => is_graph_edge e.2 = true) es.

Definition outgoing (es : edges) (n : string) : list string :=
  map (fun e => e.1.2) (base.filter (fun e : (string * string) * obj => e.1.1 = n) es).
Definition children (es : edges) (n : string) : list string := outgoing (graph_edges es) n.
Definition parent_of (es : edges) : list (string * string) :=
  fold_left (fun d e => dset e.1.2 e.1.1 d) (graph_edges es) [].

Definition is_concept (g : GraphState) (n : string) : bool :=
  bool_decide ("SST_CONCEPT" ∈ labels_of (node g n)).

Definition edge_fuel (g : GraphState) (stack : list string) : nat :=
  S (length stack + length (_edges g)).

Definition find_root (g : GraphState) (session_id : string) : string :=
  walk_up (S (length (_edges g))) (parent_of (_edges g)) session_id [session_id].

Definition descendants (g : GraphState) (root : string) : list string :=
  dfs (edge_fuel g [root]) (children (_edges g)) [root] [].

(** Expand outward, stopping at (but including) concept nodes. *)
Definition expand (g : GraphState) (session_ids : list string) : list string :=
  dfs (edge_fuel g session_ids)
    (fun n => if is_concept g n then [] else outgoing (_edges g) n) (rev session_ids) [].

(** ** [resolve_session_graph] *)

Section resolve.
Context `{Timestamps}.

Record SessionGraph := MkSessionGraph {
  root_id : string; session_ids : list string; node_count : nat; edge_count : nat;
  sg_created_by : json; sg_started_at : option datetime; last_change : option datetime;
  subsession_count : nat; sg_workspace : json; sg_working_dir : option string;
}.

Definition _parse_timestamp (v : json) : option datetime :=
  match v with
  | JStr s => if decide (s = "") then None else fromisoformat s
  | _ => None
  end.

(** [candidate is not None and (last is None or candidate > last)]: comparing a
    naive with an aware datetime raises [TypeError]. *)
Definition newest (last candidate : option datetime) : result (option datetime) :=
  match candidate, last with
  | None, _ => Ok last
  | Some c, None => Ok (Some c)
  | Some c, Some l => match dt_le c l with
                      | None => Err TypeError
                      | Some le => Ok (if le then Some l else Some c)
                      end
  end.

Definition session_time (g : GraphState) (sid : string) : option datetime :=
  let props := node g sid in
  _parse_timestamp (py_or (py_or (jget "last_updated" props) (jget "ended_at" props))
                      (jget "started_at" props)).

Fixpoint last_change_of (g : GraphState) (sids : list string) (last : option datetime)
    : result (option datetime) :=
  match sids with
  | [] => Ok last
  | sid :: sids =>
    match newest last (session_time g sid) with
    | Ok last => last_change_of g sids last
    | Err e => Err e
    end
  end.

Definition resolve_session_graph (g : GraphState) (session_id : string)
    : result (option SessionGraph) :=
  match dget session_id (_nodes g) with
  | None => Ok None
  | Some start =>
    if decide ("Session" ∈ labels_of start) then
      let root := find_root g session_id in
      let sids := descendants g root in
      let graph_nodes := expand g sids in
      let root_props := node g root in
      match last_change_of g sids None with
      | Err e => Err e
      | Ok last =>
        Ok (Some (MkSessionGraph root sids (length graph_nodes)
          (length (base.filter (fun e : (string * string) * obj =>
                     (e.1.1 ∈ graph_nodes) /\ (e.1.2 ∈ graph_nodes)) (_edges g)))
          (py_or (jget "created_by" root_props)
             (match _created_by g with Some s => JStr s | None => JNull end))
          (_parse_timestamp (jget "started_at" root_props)) last (length sids - 1)
          (py_or (jget "workspace" start) (JStr (_workspace g)))
          (match jget "working_dir" root_props with JStr s => Some s | _ => None end)))
      end
    else Ok None
  end.

(** ** [delete_session_graph] *)

Record GraphDeleteResult := MkDeleteResult {
  gd_root_id : string; nodes_deleted : nat; relationships_deleted : nat;
}.

Definition owned_nodes (g : GraphState) (sids : list string) : list string :=
  base.filter (fun n => is_concept g n = false) (expand g sids).
Definition concept_nodes (g : GraphState) (sids : list string) : list string :=
  base.filter (fun n => is_concept g n = true) (expand g sids).

Definition delete_owned (g : GraphState) (owned : list string) : GraphState :=
  MkGraph (_workspace g) (_created_by g)
    (fold_left (fun ns n => ddel n ns) owned (_nodes g))
    (base.filter (fun e : (string * string) * obj => (e.1.1 ∉ owned) /\ (e.1.2 ∉ owned)) (_edges g)).

Definition delete_session_graph (session_id : string) (graph : option SessionGraph)
    : M GraphState (option GraphDeleteResult) := fun g =>
  match (match graph with Some _ => Ok graph | None => resolve_session_graph g session_id end) with
  | Err e => (Err e, g)
  | Ok None => (Ok None, g)
  | Ok (Some gr) =>
    let owned := owned_nodes g (session_ids gr) in
    let concept := concept_nodes g (session_ids gr) in
    let g' := delete_owned g owned in
    if forallb (fun n => negb (dmem n (_nodes g'))) owned
       && forallb (fun n => dmem n (_nodes g')) concept
    then (Ok (Some (MkDeleteResult (root_id gr) (length owned)
            (length (base.filter (fun e : (string * string) * obj =>
                       (e.1.1 ∈ owned) \/ (e.1.2 ∈ owned)) (_edges g))))), g')
    else (Err RuntimeError, g')
  end.
End resolve.

(** ** The traversal computes reachability *)

Definition unseen (es : edges) (seen : list string) : nat :=
  length (base.filter (fun e : (string * string) * obj => e.1.1 ∉ seen) es).

Lemma unseen_visit es seen n :
  n ∉ seen -> unseen es (seen ++ [n]) + length (outgoing es n) = unseen es seen.
Proof.
  intros Hn. unfold unseen, outgoing. rewrite length_map.
  induction es as [|[[s d] o] es IH]; [done|]. rewrite !filter_cons. simpl.
  destruct (decide (s = n)) as [-> |Hne].
  - rewrite (decide_False (P := n ∉ seen ++ [n])), (decide_True (P := n ∉ seen)).
    + simpl. rewrite <- IH. lia.
    + done.
    + intros Hx. apply Hx, elem_of_app. right. by apply list_elem_of_singleton.
  - destruct (decide (s ∉ seen)) as [Hs|Hs].
    + rewrite (decide_True (P := s ∉ seen ++ [n])); [simpl; rewrite <- IH; lia|].
      rewrite elem_of_app, list_elem_of_singleton. tauto.
    + rewrite (decide_False (P := s ∉ seen ++ [n])); [done|].
      rewrite elem_of_app, list_elem_of_singleton. tauto.
Qed.

Lemma elem_of_rev {A} (x : A) l : x ∈ rev l <-> x ∈ l.
Proof. by rewrite !list_elem_of_In, <- in_rev. Qed.

Section dfs.
Variable es : edges.
Variable succ : string -> list string.
Hypothesis succ_bound : forall n, length (succ n) <= length (outgoing es n).

Lemma dfs_closed fuel stack seen :
  length stack + unseen es seen < fuel ->
  (forall v w, v ∈ seen -> w ∈ succ v -> w ∈ seen \/ w ∈ stack) ->
  let r := dfs fuel succ stack seen in
  (forall v, v ∈ seen \/ v ∈ stack -> v ∈ r) /\ (forall v w, v ∈ r -> w ∈ succ v -> w ∈ r).
Proof.
  revert stack seen. induction fuel as [|fuel IH]; intros stack seen Hf Hcl; [lia|]. simpl.
  destruct stack as [|n stack].
  { split; [intros v [Hv|Hv]; [done|by apply elem_of_nil in Hv]|].
    intros v w Hv Hw. destruct (Hcl v w Hv Hw) as [|Hx]; [done|by apply elem_of_nil in Hx]. }
  simpl in Hf. destruct (decide (n ∈ seen)) as [Hn|Hn].
  - destruct (IH stack seen) as [H1 H2]; [lia| |].
    { intros v w Hv Hw. destruct (Hcl v w Hv Hw) as [|[-> |]%elem_of_cons]; auto. }
    split; [|done]. intros v [Hv|[-> |Hv]%elem_of_cons]; apply H1; auto.
  - pose proof (unseen_visit es seen n Hn). pose proof (succ_bound n).
    destruct (IH (rev (succ n) ++ stack) (seen ++ [n])) as [H1 H2].
    { rewrite length_app, length_rev. lia. }
    { intros v w. rewrite !elem_of_app, !list_elem_of_singleton, elem_of_rev.
      intros [Hv| ->] Hw; [|tauto]. destruct (Hcl v w Hv Hw) as [|[-> |]%elem_of_cons]; tauto. }
    split; [|done]. intros v Hv. apply H1. rewrite !elem_of_app, list_elem_of_singleton.
    destruct Hv as [|[-> |]%elem_of_cons]; tauto.
Qed.

Lemma dfs_sound fuel stack seen v :
  v ∈ dfs fuel succ stack seen ->
  v ∈ seen \/ exists u, u ∈ stack /\ rtc (fun a b => b ∈ succ a) u v.
Proof.
  revert stack seen. induction fuel as [|fuel IH]; intros stack seen; simpl; [auto|].
  destruct stack as [|n stack]; [auto|].
  destruct (decide (n ∈ seen)) as [Hn|Hn]; intros [Hv|(u & Hu & Huv)]%IH.
  - auto.
  - right. exists u. split; [apply elem_of_cons; auto|done].
  - apply elem_of_app in Hv as [Hv|Hv]; [auto|]. apply list_elem_of_singleton in Hv as ->.
    right. exists n. split; [apply elem_of_cons; auto|done].
  - right. apply elem_of_app in Hu as [Hu|Hu].
    + rewrite elem_of_rev in Hu. exists n. split; [apply elem_of_cons; auto|]. exact (rtc_l _ _ _ _ Hu Huv).
    + exists u. split; [apply elem_of_cons; auto|done].
Qed.

Lemma dfs_reach fuel stack v :
  length stack + length es < fuel ->
  v ∈ dfs fuel succ stack [] <-> exists u, u ∈ stack /\ rtc (fun a b => b ∈ succ a) u v.
Proof.
  intros Hf. split; [intros [Hv|Hv]%dfs_sound; [by apply elem_of_nil in Hv|done]|].
  intros (u & Hu & Huv).
  destruct (dfs_closed fuel stack []) as [H1 H2].
  { unfold unseen. pose proof (length_filter (fun e : (string * string) * obj => e.1.1 ∉ []) es). lia. }
  { intros a b Ha. by apply elem_of_nil in Ha. }
  assert (Hu' := H1 u (or_intror Hu)). clear Hu. induction Huv; eauto.
Qed.

Lemma dfs_NoDup fuel stack seen : NoDup seen -> NoDup (dfs fuel succ stack seen).
Proof.
  revert stack seen. induction fuel as [|fuel IH]; intros stack seen Hs; simpl; [done|].
  destruct stack as [|n stack]; [done|]. case_decide; [auto|]. apply IH.
  apply NoDup_app. split; [done|]. split; [|apply NoDup_singleton].
  intros x Hx ->%list_elem_of_singleton. done.
Qed.
End dfs.

(** ** Roots and descendants *)

(** [b] is a sub-session or fork of [a] *)
Definition child_of (g : GraphState) (a b : string) : Prop := b ∈ children (_edges g) a.

Lemma elem_of_outgoing es a b : b ∈ outgoing es a <-> exists o, ((a, b), o) ∈ es.
Proof.
  unfold outgoing. rewrite list_elem_of_fmap. split.
  - intros [[[a' b'] o] [-> Hin]]. apply list_elem_of_filter in Hin as [Ha Hin]. simpl in *. subst. eauto.
  - intros [o Hin]. exists ((a, b), o). split; [done|]. by apply list_elem_of_filter.
Qed.

Lemma fold_parent_get L acc d s :
  dget d (fold_left (fun acc (e : (string * string) * obj) => dset e.1.2 e.1.1 acc) L acc) = Some s ->
  (exists o, ((s, d), o) ∈ L) \/ dget d acc = Some s.
Proof.
  revert acc. induction L as [|[[s' d'] o] L IH]; intros acc; simpl; [auto|].
  intros [[o' Ho]|Hd]%IH; [left; exists o'; apply elem_of_cons; auto|].
  rewrite dget_dset in Hd. case_decide; [|auto]. simplify_eq. left. exists o. apply elem_of_cons. auto.
Qed.

Lemma parent_child g d s : dget d (parent_of (_edges g)) = Some s -> child_of g s d.
Proof.
  intros [Hd|Hd]%fold_parent_get; [|done]. by apply elem_of_outgoing.
Qed.

Lemma child_src g a b : child_of g a b -> a ∈ map (fun e : (string * string) * obj => e.1.1) (_edges g).
Proof.
  intros [o Hin]%elem_of_outgoing. apply list_elem_of_filter in Hin as [_ Hin].
  apply list_elem_of_fmap. by exists ((a, b), o).
Qed.

Lemma walk_up_spec g start fuel r seen :
  (forall x, x ∈ seen -> rtc (child_of g) r x) -> NoDup seen -> r ∈ seen ->
  (forall x, x ∈ seen -> x = start \/ x ∈ map (fun e : (string * string) * obj => e.1.1) (_edges g)) ->
  length (_edges g) + 1 < length seen + fuel ->
  let res := walk_up fuel (parent_of (_edges g)) r seen in
  rtc (child_of g) res r /\ (dget res (parent_of (_edges g)) = None \/ tc (child_of g) res res).
Proof.
  revert r seen. induction fuel as [|fuel IH]; intros r seen Hdesc Hnd Hr Hsrc Hlen.
  { exfalso. assert (Hsub : seen ⊆+ start :: map (fun e : (string * string) * obj => e.1.1) (_edges g)).
    { apply NoDup_submseteq; [done|]. intros x Hx. apply elem_of_cons. auto. }
    apply submseteq_length in Hsub. simpl in Hsub. rewrite length_map in Hsub. lia. }
  simpl. destruct (dget r (parent_of (_edges g))) as [p|] eqn:Hp; [|auto].
  apply parent_child in Hp as Hc. destruct (decide (p ∈ seen)) as [Hin|Hin].
  - split; [by apply rtc_once|]. right. apply Hdesc in Hin. by eapply tc_rtc_r; [apply tc_once|].
  - destruct (IH p (seen ++ [p])) as [H1 H2].
    + intros x [Hx| ->%list_elem_of_singleton]%elem_of_app; [|done]. by eapply rtc_l; [|apply Hdesc].
    + apply NoDup_app. split; [done|]. split; [|apply NoDup_singleton].
      by intros x Hx ->%list_elem_of_singleton.
    + apply elem_of_app. right. by apply list_elem_of_singleton.
    + intros x [Hx| ->%list_elem_of_singleton]%elem_of_app; [auto|]. right. by eapply child_src.
    + rewrite length_app. simpl. lia.
    + split; [|done]. by eapply rtc_r.
Qed.

Lemma find_root_spec g s :
  let r := find_root g s in
  rtc (child_of g) r s /\ (dget r (parent_of (_edges g)) = None \/ tc (child_of g) r r).
Proof.
  apply (walk_up_spec g s).
  - by intros x ->%list_elem_of_singleton.
  - apply NoDup_singleton.
  - by apply list_elem_of_singleton.
  - intros x ->%list_elem_of_singleton. auto.
  - simpl. lia.
Qed.

Lemma find_root_root g r : dget r (parent_of (_edges g)) = None -> find_root g r = r.
Proof. intros Hr. unfold find_root. simpl. by rewrite Hr. Qed.

Lemma length_filter_map_le (es : edges) n :
  length (outgoing (graph_edges es) n) <= length (outgoing es n).
Proof.
  unfold outgoing, graph_edges. rewrite !length_map.
  induction es as [|e es IH]; [done|]. rewrite !filter_cons.
  repeat case_decide; simpl; rewrite ?filter_cons; repeat case_decide; simpl; try done; lia.
Qed.

Lemma elem_of_descendants g root n :
  n ∈ descendants g root <-> rtc (child_of g) root n.
Proof.
  unfold descendants. rewrite (dfs_reach (_edges g)).
  - split; [intros (u & ->%list_elem_of_singleton & Hu); done|].
    intros Hn. exists root. split; [by apply list_elem_of_singleton|done].
  - intros m. apply length_filter_map_le.
  - unfold edge_fuel. simpl. lia.
Qed.

(** [b] hangs off [a] in the owned subgraph: expansion stops at concept nodes *)
Definition owns (g : GraphState) (a b : string) : Prop :=
  is_concept g a = false /\ exists o, ((a, b), o) ∈ _edges g.

Lemma elem_of_expand g sids n :
  n ∈ expand g sids <-> exists s, s ∈ sids /\ rtc (owns g) s n.
Proof.
  unfold expand. rewrite (dfs_reach (_edges g)).
  - assert (Hr : forall a b, rtc (fun a b => b ∈ (if is_concept g a then [] else outgoing (_edges g) a)) a b
               <-> rtc (owns g) a b).
    { intros a b. split; apply rtc_subrel; clear a b; intros a b; unfold owns.
      - destruct (is_concept g a); [by intros ?%elem_of_nil|]. rewrite elem_of_outgoing. auto.
      - intros [-> Hb]. by apply elem_of_outgoing. }
    setoid_rewrite Hr. setoid_rewrite elem_of_rev. done.
  - intros m. destruct (is_concept g m); simpl; lia.
  - unfold edge_fuel. rewrite length_rev. lia.
Qed.

Lemma fold_parent_some L acc d :
  is_Some (dget d acc) \/ (exists s o, ((s, d), o) ∈ L) ->
  is_Some (dget d (fold_left (fun acc (e : (string * string) * obj) => dset e.1.2 e.1.1 acc) L acc)).
Proof.
  revert acc. induction L as [|[[s' d'] o'] L IH]; intros acc [Ha|(s & o & Hin)]; simpl;
    [done|by apply elem_of_nil in Hin| |]; apply IH.
  - left. rewrite dget_dset. case_decide; eauto.
  - apply elem_of_cons in Hin as [Hin|Hin]; [|right; eauto].
    simplify_eq. left. rewrite dget_dset_eq. eauto.
Qed.

Lemma no_parent g n a : dget n (parent_of (_edges g)) = None -> ~ child_of g a n.
Proof.
  intros Hn [o Ho]%elem_of_outgoing.
  destruct (fold_parent_some (graph_edges (_edges g)) [] n) as [x Hx]; [right; eauto|].
  unfold parent_of in Hn. congruence.
Qed.

(** Session trees: at most one parent per session, and no cycle. *)
Definition session_forest (g : GraphState) : Prop :=
  (forall a a' b, child_of g a b -> child_of g a' b -> a = a') /\ (forall n, ~ tc (child_of g) n n).

Lemma ancestors_chain g a b t :
  (forall a a' b, child_of g a b -> child_of g a' b -> a = a') ->
  rtc (child_of g) a t -> rtc (child_of g) b t -> rtc (child_of g) a b \/ rtc (child_of g) b a.
Proof.
  intros Huniq Ha. revert b. induction Ha as [t|a y t Hay Hyt IH]; intros b Hb; [auto|].
  destruct (IH b Hb) as [Hyb|Hby].
  - left. by eapply rtc_l.
  - apply rtc_inv_r in Hby as [-> |(z & Hbz & Hzy)]; [left; by apply rtc_once|].
    rewrite (Huniq _ _ _ Hay Hzy). auto.
Qed.

Lemma root_only g a b : dget b (parent_of (_edges g)) = None -> rtc (child_of g) a b -> a = b.
Proof.
  intros Hb [-> |(z & _ & Hz)]%rtc_inv_r; [done|]. by apply no_parent with (a := z) in Hb.
Qed.

Lemma find_root_member g s t :
  session_forest g -> rtc (child_of g) (find_root g s) t -> find_root g t = find_root g s.
Proof.
  intros [Huniq Hacyc] Ht.
  destruct (find_root_spec g s) as [_ [Hs|Hs]]; [|by apply Hacyc in Hs].
  destruct (find_root_spec g t) as [Hrt [Hr|Hr]]; [|by apply Hacyc in Hr].
  destruct (ancestors_chain g _ _ t Huniq Ht Hrt) as [H|H].
  - symmetry. by apply (root_only g).
  - by apply (root_only g).
Qed.

Section theorems.
Context `{Timestamps}.

Lemma resolve_inv g s gr :
  resolve_session_graph g s = Ok (Some gr) ->
  root_id gr = find_root g s /\ session_ids gr = descendants g (find_root g s)
  /\ node_count gr = length (expand g (session_ids gr))
  /\ subsession_count gr = length (session_ids gr) - 1.
Proof. unfold resolve_session_graph. intros Hr. repeat case_hyp; done. Qed.

(** A resolved session graph is the root and exactly its descendants: the
    sessions listed, without duplicates, are those reachable from the root over
    sub-session and fork edges, the given session among them. *)
Theorem resolve_session_graph_spec g s gr :
  resolve_session_graph g s = Ok (Some gr) ->
  (forall n, n ∈ session_ids gr <-> rtc (child_of g) (root_id gr) n)
  /\ s ∈ session_ids gr /\ NoDup (session_ids gr)
  /\ S (subsession_count gr) = length (session_ids gr).
Proof.
  intros (Hroot & Hs & _ & Hc)%resolve_inv. rewrite Hroot.
  assert (Hn : forall n, n ∈ session_ids gr <-> rtc (child_of g) (find_root g s) n).
  { intros n. rewrite Hs. apply elem_of_descendants. }
  assert (Hin : s ∈ session_ids gr) by (apply Hn, find_root_spec).
  split; [done|]. split; [done|]. split.
  - rewrite Hs. apply dfs_NoDup, NoDup_nil_2.
  - rewrite Hc. destruct (session_ids gr); [by apply elem_of_nil in Hin|]. simpl. lia.
Qed.

(** In a forest of sessions every member resolves to the same graph: asking
    about the root, the session itself or any relative gives the same root, the
    same sessions and the same node count. *)
Theorem resolve_any_member g s t gr gr' :
  session_forest g -> resolve_session_graph g s = Ok (Some gr) -> t ∈ session_ids gr ->
  resolve_session_graph g t = Ok (Some gr') ->
  root_id gr' = root_id gr /\ session_ids gr' = session_ids gr /\ node_count gr' = node_count gr.
Proof.
  intros Hf (Hroot & Hs & Hn & _)%resolve_inv Ht (Hroot' & Hs' & Hn' & _)%resolve_inv.
  assert (Heq : find_root g t = find_root g s).
  { apply find_root_member; [done|]. rewrite Hs in Ht. by apply elem_of_descendants. }
  rewrite Hroot', Hn', Hs', Heq, <- Hs. done.
Qed.

Lemma dget_fold_ddel {V} l (ns : list (string * V)) n :
  dget n (fold_left (fun ns n => ddel n ns) l ns) = if decide (n ∈ l) then None else dget n ns.
Proof.
  revert ns. induction l as [|x l IH]; intros ns; cbn [fold_left].
  - by rewrite decide_False by apply not_elem_of_nil.
  - rewrite IH. destruct (decide (n ∈ l)) as [Hl|Hl].
    + by rewrite decide_True by (apply elem_of_cons; auto).
    + destruct (decide (n = x)) as [-> |Hne].
      * rewrite decide_True by (apply elem_of_cons; auto). apply dget_ddel_eq.
      * rewrite decide_False by (rewrite elem_of_cons; tauto). by apply dget_ddel_ne.
Qed.

Lemma is_concept_node g n : is_concept g n = true -> is_Some (dget n (_nodes g)).
Proof.
  unfold is_concept, node. destruct (dget n (_nodes g)); [eauto|].
  intros Hc%bool_decide_eq_true_1. by apply elem_of_nil in Hc.
Qed.

Lemma partition_length {A} (P : A -> bool) l :
  length (base.filter (fun x => P x = false) l) + length (base.filter (fun x => P x = true) l) = length l.
Proof.
  induction l as [|x l IH]; [done|]. rewrite !filter_cons. destruct (P x); simpl; lia.
Qed.

Lemma delete_session_graph_spec g s gr :
  resolve_session_graph g s = Ok (Some gr) ->
  exists res g', delete_session_graph s None g = (Ok (Some res), g')
    /\ (forall n, dget n (_nodes g')
          = if decide (n ∈ owned_nodes g (session_ids gr)) then None else dget n (_nodes g))
    /\ (forall n, n ∈ owned_nodes g (session_ids gr) <->
          is_concept g n = false /\ exists t, rtc (child_of g) (root_id gr) t /\ rtc (owns g) t n)
    /\ (forall e, e ∈ _edges g' <-> e ∈ _edges g /\ (e.1.1 ∉ owned_nodes g (session_ids gr))
                                    /\ (e.1.2 ∉ owned_nodes g (session_ids gr)))
    /\ nodes_deleted res + length (concept_nodes g (session_ids gr)) = node_count gr.
Proof.
  intros Hr. assert (Hinv := Hr). apply resolve_inv in Hinv as (Hroot & Hs & Hcount & _).
  set (owned := owned_nodes g (session_ids gr)). set (g' := delete_owned g owned).
  assert (Hnodes : forall n, dget n (_nodes g') = if decide (n ∈ owned) then None else dget n (_nodes g)).
  { intros n. apply dget_fold_ddel. }
  exists (MkDeleteResult (root_id gr) (length owned)
    (length (base.filter (fun e : (string * string) * obj => (e.1.1 ∈ owned) \/ (e.1.2 ∈ owned)) (_edges g)))), g'.
  split; [|split; [done|split; [|split]]].
  - unfold delete_session_graph. rewrite Hr. fold owned. fold g'.
    assert (Hc1 : forallb (fun n => negb (dmem n (_nodes g'))) owned = true).
    { apply forallb_forall. intros n Hn%list_elem_of_In. unfold dmem. rewrite Hnodes.
      by rewrite decide_True. }
    assert (Hc2 : forallb (fun n => dmem n (_nodes g')) (concept_nodes g (session_ids gr)) = true).
    { apply forallb_forall. intros n Hn%list_elem_of_In. unfold concept_nodes in Hn.
      apply list_elem_of_filter in Hn as [Hc _]. unfold dmem. rewrite Hnodes, decide_False.
      - destruct (is_concept_node g n Hc) as [o ->]. done.
      - intros [Hx _]%list_elem_of_filter. congruence. }
    by rewrite Hc1, Hc2.
  - intros n. unfold owned, owned_nodes. rewrite list_elem_of_filter, elem_of_expand.
    setoid_rewrite Hs. setoid_rewrite elem_of_descendants. by rewrite Hroot.
  - intros e. simpl. rewrite list_elem_of_filter. tauto.
  - simpl. unfold owned, owned_nodes, concept_nodes. by rewrite partition_length, Hcount.
Qed.

(** Deletion removes exactly what the preview showed.  Deleting a resolved
    graph never fails its own consistency check, removes precisely the nodes
    owned by its sessions (reachable without passing through a concept node,
    concepts excluded), keeps every concept node and every other node intact,
    leaves no edge with a deleted end, and the deleted nodes and kept concepts
    add up to the previewed node count. *)
Theorem delete_session_graph_exact g s gr :
  resolve_session_graph g s = Ok (Some gr) ->
  exists res g', delete_session_graph s None g = (Ok (Some res), g')
    /\ (forall n, dget n (_nodes g')
          = if decide (n ∈ owned_nodes g (session_ids gr)) then None else dget n (_nodes g))
    /\ (forall n, n ∈ owned_nodes g (session_ids gr) <->
          is_concept g n = false /\ exists t, rtc (child_of g) (root_id gr) t /\ rtc (owns g) t n)
    /\ (forall e, e ∈ _edges g' <-> e ∈ _edges g /\ (e.1.1 ∉ owned_nodes g (session_ids gr))
                                    /\ (e.1.2 ∉ owned_nodes g (session_ids gr)))
    /\ nodes_deleted res + length (concept_nodes g (session_ids gr)) = node_count gr.
Proof. apply delete_session_graph_spec. Qed.
End theorems.

(** ** Instances *)

#[local] Existing Instance demo_timestamps.

(** A root with a sub-session and a fork of it, an event and a shared concept. *)
Definition demo_graph : GraphState := MkGraph "w" None
  [("r", [("labels", jstrs ["RootSession"; "Session"]); ("started_at", JStr "1")]);
   ("s", [("labels", jstrs ["Session"; "SubSession"])]);
   ("f", [("labels", jstrs ["ForkedSession"; "Session"])]);
   ("e", [("labels", jstrs ["Event"])]); ("c", [("labels", jstrs ["Agent"; "SST_CONCEPT"])]);
   ("x", [("labels", jstrs ["Event"])])]
  [(("r", "s"), [("type", JStr "HAS_SUBSESSION")]); (("s", "f"), [("type", JStr "FORKED")]);
   (("f", "e"), [("type", JStr "HAS_EVENT")]); (("e", "c"), [("type", JStr "USES")]);
   (("c", "x"), [("type", JStr "KNOWS")])].

Definition demo_resolved : SessionGraph :=
  MkSessionGraph "r" ["r"; "s"; "f"] 5 4 JNull (Some 1%Z) (Some 1%Z) 2 (JStr "w") None.

Lemma resolve_session_graph_spec_witness :
  resolve_session_graph demo_graph "s" = Ok (Some demo_resolved) /\ "s" ∈ session_ids demo_resolved.
Proof.
  split; [reflexivity|]. apply (resolve_session_graph_spec demo_graph "s" demo_resolved). reflexivity.
Defined.

Lemma demo_forest : session_forest demo_graph.
Proof.
  assert (Hedge : forall a b, child_of demo_graph a b -> (a = "r" /\ b = "s") \/ (a = "s" /\ b = "f")).
  { intros a b [o Hin]%elem_of_outgoing. vm_compute in Hin.
    apply list_elem_of_In in Hin. simpl in Hin. naive_solver. }
  split.
  - intros a a' b H1%Hedge H2%Hedge. naive_solver.
  - assert (Htc : forall a b, tc (child_of demo_graph) a b -> a <> b).
    { intros a b Ht. assert ((a = "r" /\ (b = "s" \/ b = "f")) \/ (a = "s" /\ b = "f")) as Hx.
      { induction Ht as [a b H1%Hedge|a b c H1%Hedge _ IH]; naive_solver. }
      naive_solver. }
    intros n Hn. by apply Htc in Hn.
Qed.

Lemma resolve_any_member_witness :
  exists gr', resolve_session_graph demo_graph "f" = Ok (Some gr') /\ root_id gr' = "r".
Proof.
  eexists. split; [reflexivity|].
  eapply (resolve_any_member demo_graph "s" "f" demo_resolved);
    [apply demo_forest|reflexivity| |reflexivity].
  apply list_elem_of_In. simpl. auto.
Defined.

Lemma delete_session_graph_exact_witness :
  exists res g', delete_session_graph "s" None demo_graph = (Ok (Some res), g')
    /\ nodes_deleted res + 1 = 5 /\ dkeys (_nodes g') = ["c"; "x"].
Proof.
  destruct (delete_session_graph_exact demo_graph "s" demo_resolved) as (res & g' & Hd & _ & _ & _ & Hn);
    [reflexivity|].
  exists res, g'. split; [exact Hd|]. split; [exact Hn|].
  vm_compute in Hd. injection Hd as _ <-. reflexivity.
Defined.
