(* ===== verification/Services.v ===== *)
(** * Hook state service and ownership ([services.py], [ownership.py], the two
      cross-handler states)

    The per-session service every handler shares: the graph store, the set of
    sessions already seen, the cursors of data layers 2 and 3, and the event
    identity of the record being processed. *)
From stdpp Require Import base list gmap strings sorting.
From Stdlib Require Import ZArith Lia.
From S2P Require Import Prelude PyText Sha256 Utils Json QueueFiles QueueManager GraphStore.

(** ** Cross-handler state *)

Record DataLayer2State := MkDL2 {
  execution_start_ts : option string;
  active_iteration_id : option string;
  pending_tool_block_ids : list (string * string);
  last_prompt_id : option string;
  last_completed_orch_run_id : option string;
  iteration_count : Z;
}.

Record DataLayer3State := MkDL3 {
  active_recipe_run_stack : list string;
  active_recipe_step_id : option string;
}.

Record HookStateService (G : Type) := MkService {
  graph : G;
  _seen_sessions : list string;
  data_layer_2 : DataLayer2State;
  data_layer_3 : DataLayer3State;
  event_identity : option string;  (** the [_event_identity] context variable *)
}.
Arguments MkService {G}. Arguments graph {G}. Arguments _seen_sessions {G}.
Arguments data_layer_2 {G}. Arguments data_layer_3 {G}. Arguments event_identity {G}.

Definition with_graph {G} (g : G) (s : HookStateService G) : HookStateService G :=
  MkService g (_seen_sessions s) (data_layer_2 s) (data_layer_3 s) (event_identity s).
Definition with_seen {G} (l : list string) (s : HookStateService G) : HookStateService G :=
  MkService (graph s) l (data_layer_2 s) (data_layer_3 s) (event_identity s).
Definition with_dl2 {G} (d : DataLayer2State) (s : HookStateService G) : HookStateService G :=
  MkService (graph s) (_seen_sessions s) d (data_layer_3 s) (event_identity s).
Definition with_dl3 {G} (d : DataLayer3State) (s : HookStateService G) : HookStateService G :=
  MkService (graph s) (_seen_sessions s) (data_layer_2 s) d (event_identity s).
Definition with_identity {G} (i : option string) (s : HookStateService G) : HookStateService G :=
  MkService (graph s) (_seen_sessions s) (data_layer_2 s) (data_layer_3 s) i.

Definition new_service {G} (g : G) : HookStateService G :=
  MkService g [] (MkDL2 None None [] None None 0) (MkDL3 [] None) None.

(** ** Dynamic values used as strings *)

(** A value in a position where the code calls a [str] method on it or passes it
    where only a [str] is accepted. *)
Definition need_str (j : json) : result string :=
  match j with JStr s => Ok s | _ => Err TypeError end.

(** [None] or a string, as a property value *)
Definition jopt (o : option string) : json := match o with Some s => JStr s | None => JNull end.

Section services.
Context {G : Type} `{!GraphStore G} `{!Timestamps}.

Abbreviation HM := (M (HookStateService G)).

Definition on_graph {A} (m : M G A) : HM A := fun s =>
  let '(r, g) := m (graph s) in (r, with_graph g s).

Definition node_id (session_id event timestamp : string) (disambiguator : option string) : HM string :=
  fun s => (make_node_id (event_identity s) session_id event timestamp disambiguator, s).

Definition modify_dl2 (f : DataLayer2State -> DataLayer2State) : HM unit :=
  mmodify (fun s => with_dl2 (f (data_layer_2 s)) s).
Definition modify_dl3 (f : DataLayer3State -> DataLayer3State) : HM unit :=
  mmodify (fun s => with_dl3 (f (data_layer_3 s)) s).

(** [_seen_sessions.add] *)
Definition mark_seen (session_id : string) : HM unit :=
  mmodify (fun s => if decide (session_id ∈ _seen_sessions s) then s
                    else with_seen (_seen_sessions s ++ [session_id]) s).

Definition stub_props (session_id : string) (existing : obj) (working_dir : option json) : obj :=
  [("labels", jstrs ["Session"]); ("status_if_absent", JStr "running"); ("session_id", JStr session_id)]
  ++ match working_dir with
     | Some w => if truthy w && negb (truthy (jget "working_dir" existing)) then [("working_dir", w)] else []
     | None => []
     end.

Definition new_session_props (session_id : string) (data : obj) (working_dir : option json) : obj :=
  [("labels", jstrs ["Session"; "StubSession"]); ("status_if_absent", JStr "running");
   ("session_id", JStr session_id)]
  ++ (let ts := py_or (jget "timestamp" data) (jget "started_at" data) in
      if truthy ts then [("started_at", ts)] else [])
  ++ (match dget "agent" data with Some a => [("agent", a)] | None => [] end)
  ++ (match working_dir with Some w => if truthy w then [("working_dir", w)] else [] | None => [] end).

Definition ensure_session_node (session_id : string) (data : obj) (working_dir : option json) : HM unit :=
  let! s := mget in
  if decide (session_id ∈ _seen_sessions s) then mret tt
  else
    let! existing := on_graph (get_node session_id) in
    on_graph (upsert_node session_id
      (match existing with
       | Some e => stub_props session_id e working_dir
       | None => new_session_props session_id data working_dir
       end)) ;;;
    mark_seen session_id.

(** Both sides of [ts <= current_dt]; a property that is neither a string nor
    [None] is not comparable. *)
Definition touch_body (session_id : string) (timestamp : json) : HM unit :=
  let! n := on_graph (get_node session_id) in
  match n with
  | None => mret tt
  | Some props =>
    let write := on_graph (upsert_node session_id
                   [("labels", jstrs ["Session"]); ("last_updated", timestamp)]) in
    let! ts := mlift (match timestamp with
                      | JStr t => match fromisoformat t with Some d => Ok (Some d) | None => Err ValueError end
                      | _ => Ok None
                      end) in
    match jget "last_updated" props with
    | JNull => write
    | JStr c =>
      match fromisoformat c, ts with
      | None, _ => mraise ValueError
      | Some cur, Some t => match dt_le t cur with
                            | None => mraise TypeError
                            | Some true => mret tt
                            | Some false => write
                            end
      | Some _, None => mraise TypeError
      end
    | _ => mraise TypeError
    end
  end.

(** [except Exception]: logged, never raised *)
Definition touch_session (session_id : string) (timestamp : json) : HM unit :=
  mcatch (touch_body session_id timestamp)
    (fun e => if is_Exception e then mret tt else mraise e).

(** ** Ownership *)

Definition OWNERSHIP_EDGE_TYPES : list string := ["HAS_RUN"; "HAS_STEP"; "TRIGGERED"].

Definition check_ownership (dst_id edge_type new_src_id : string) : HM bool :=
  if decide (edge_type ∈ OWNERSHIP_EDGE_TYPES) then
    let! s := mget in
    match find_owner_in_buffer dst_id edge_type (graph s) with
    | None => mret true
    | Some existing_src =>
      if decide (existing_src = new_src_id) then mret true
      else on_graph (remove_edge existing_src dst_id) ;;; mret true
    end
  else mret true.
End services.

(** ** Properties on the in-memory store *)

Section spec.
Context `{!Timestamps}.
Implicit Types s : HookStateService GraphState.

Definition node_of s (n : string) : option obj := dget n (_nodes (graph s)).

(** What a safety-net write keeps of a node: labels only grow, and a status or
    working directory that is set stays as it is. *)
Definition keeps (old new : obj) : Prop :=
  labels_of old ⊆ labels_of new
  /\ (truthy (jget "status" old) = true -> jget "status" new = jget "status" old)
  /\ (truthy (jget "working_dir" old) = true -> jget "working_dir" new = jget "working_dir" old)
  /\ (forall k, k ∉ ["labels"; "status"; "status_if_absent"; "session_id"; "working_dir"] ->
        dget k new = dget k old).

Lemma NoDup_stub sid e wd : NoDup (dkeys (stub_props sid e wd)).
Proof.
  unfold stub_props. destruct wd as [w|]; [destruct (_ && _)|];
    apply (bool_decide_unpack _); vm_compute; exact I.
Qed.

Lemma NoDup_new_session sid data wd : NoDup (dkeys (new_session_props sid data wd)).
Proof.
  unfold new_session_props. destruct (truthy (py_or _ _)); destruct (dget "agent" data);
    (destruct wd as [w|]; [destruct (truthy w)|]); apply (bool_decide_unpack _); vm_compute; exact I.
Qed.

Lemma merge_stub_keeps sid e wd : keeps e (merge_node e (stub_props sid e wd)).
Proof.
  assert (Hnd := NoDup_stub sid e wd). split; [|split; [|split]].
  - rewrite merge_node_labels by done. unfold merged_labels. simpl.
    intros l Hl. apply elem_of_label_union. by left.
  - intros Ht. unfold jget at 1. rewrite merge_node_status by done. cbv zeta.
    assert (dget "status" (stub_props sid e wd) = None) as Hs.
    { unfold stub_props. destruct wd as [w|]; [destruct (_ && _)|]; reflexivity. }
    unfold merged_prop. rewrite Hs. fold (opt_json (dget "status" e)).
    unfold jget in Ht |- *. fold (opt_json (dget "status" e)) in Ht |- *.
    rewrite Ht. by destruct (is_none _).
  - intros Ht. unfold jget at 1. rewrite merge_node_get by (done || (split; done)).
    assert (dget "working_dir" (stub_props sid e wd) = None) as Hs.
    { unfold stub_props. rewrite Ht. destruct wd as [w|]; [destruct (truthy w)|]; reflexivity. }
    unfold merged_prop. by rewrite Hs.
  - intros k Hk. rewrite !not_elem_of_cons in Hk. destruct Hk as (? & ? & ? & ? & ? & _).
    rewrite merge_node_get by (done || (split; done)). unfold merged_prop.
    assert (dget k (stub_props sid e wd) = None) as ->; [|done].
    unfold stub_props. simpl. rewrite !decide_False by done.
    destruct wd as [w|]; [destruct (_ && _)|]; simpl; try done. by rewrite decide_False.
Qed.

(** The safety net adds the [Session] label to an existing node and nothing to
    another one. *)
Lemma ensure_session_node_sound s sid data wd :
  let '(r, s') := ensure_session_node sid data wd s in
  r = Ok tt
  /\ (forall old, node_of s sid = Some old -> exists new, node_of s' sid = Some new
        /\ labels_of old ⊆ labels_of new
        /\ forall l, l ∈ labels_of new -> l ∈ labels_of old \/ l = "Session")
  /\ (forall n, n <> sid -> node_of s' n = node_of s n).
Proof.
  unfold ensure_session_node, mbind, mget. destruct (decide (sid ∈ _seen_sessions s)) as [Hin|Hin].
  { split; [done|]. split; [|done]. intros old Ho. exists old. split; [done|]. split; [done|]. tauto. }
  simpl. unfold on_graph. simpl. rewrite decide_False by done. unfold node_of. simpl.
  rewrite dget_dset_eq. split; [done|]. split; [|intros n Hn; by rewrite dget_dset_ne by congruence].
  intros old Ho. unfold node. rewrite Ho. eexists. split; [done|].
  rewrite merge_node_labels by apply NoDup_stub. unfold merged_labels. simpl.
  split; intros l; rewrite elem_of_label_union, ?list_elem_of_singleton; tauto.
Qed.

(** [ensure_session_node] is a safety net.  It never fails; afterwards the
    session is cached, and unless it was cached already the node exists with
    the [Session] label; an existing node keeps every label, its status and its
    working directory (a completed session is never reverted to running), and
    no other node and no edge changes. *)
Theorem ensure_session_node_safe s sid data wd :
  let '(r, s') := ensure_session_node sid data wd s in
  r = Ok tt /\ sid ∈ _seen_sessions s'
  /\ (sid ∉ _seen_sessions s -> exists o, node_of s' sid = Some o /\ "Session" ∈ labels_of o)
  /\ (forall old, node_of s sid = Some old ->
        exists new, node_of s' sid = Some new /\ keeps old new)
  /\ (forall n, n <> sid -> node_of s' n = node_of s n) /\ _edges (graph s') = _edges (graph s).
Proof.
  unfold ensure_session_node, mbind, mget. destruct (decide (sid ∈ _seen_sessions s)) as [Hin|Hin].
  { split; [done|]. split; [done|]. split; [done|]. split; [|done].
    intros old Ho. exists old. split; [done|]. unfold keeps. done. }
  simpl. unfold on_graph. simpl. rewrite decide_False by done. unfold node_of. simpl.
  split; [done|]. split; [apply elem_of_app; right; by apply list_elem_of_singleton|].
  rewrite dget_dset_eq. split; [|split; [|split; [|done]]].
  - intros _. eexists. split; [done|]. unfold node.
    destruct (dget sid (_nodes (graph s))) as [e|].
    + rewrite merge_node_labels by apply NoDup_stub. unfold merged_labels. simpl.
      apply elem_of_label_union. right. by apply list_elem_of_singleton.
    + rewrite merge_node_labels by apply NoDup_new_session. unfold merged_labels. simpl.
      apply elem_of_label_union. right. apply elem_of_cons. by left.
  - intros old Ho. unfold node. rewrite Ho. eexists. split; [done|]. apply merge_stub_keeps.
  - intros n Hn. by rewrite dget_dset_ne by congruence.
Qed.

(** [touch_session] never raises and never moves [last_updated] back: it
    either leaves the store as it is or writes a timestamp that is not older
    than the stored one, on the named node only. *)
Theorem touch_session_monotone s sid ts :
  let '(r, s') := touch_session sid (JStr ts) s in
  r = Ok tt
  /\ (graph s' = graph s
      \/ exists old, node_of s sid = Some old
         /\ graph s' = snd (upsert_node sid [("labels", jstrs ["Session"]); ("last_updated", JStr ts)] (graph s))
         /\ forall c cur t, jget "last_updated" old = JStr c -> fromisoformat c = Some cur ->
              fromisoformat ts = Some t -> dt_le t cur = Some false).
Proof.
  unfold touch_session, touch_body, mcatch, mbind, on_graph, mlift. simpl.
  destruct (dget sid (_nodes (graph s))) as [old|] eqn:Hn; [|by split; [|left; destruct s]].
  destruct (fromisoformat ts) as [t|] eqn:Ht; [|by split; [|left; destruct s]].
  destruct (jget "last_updated" old) eqn:Hl; try (by split; [|left; destruct s]).
  - split; [done|]. right. exists old. split; [done|]. split; [done|]. congruence.
  - destruct (fromisoformat s0) as [cur|] eqn:Hc; [|by split; [|left; destruct s]].
    destruct (dt_le t cur) as [[|]|] eqn:Hle; try (by split; [|left; destruct s]).
    split; [done|]. right. exists old. split; [done|]. split; [done|].
    intros c cur' t' Hj Hc' Ht'. unfold jget in *. simplify_eq. congruence.
Qed.

(** *** Single ownership *)

Definition is_owner (g : GraphState) (src dst type : string) : Prop :=
  exists data, dget (src, dst) (_edges g) = Some data /\ jstr_is type (jget "type" data) = true.

Lemma find_owner_some dst type es src :
  NoDup (dkeys es) -> find_owner dst type es = Some src ->
  exists data, dget (src, dst) es = Some data /\ jstr_is type (jget "type" data) = true.
Proof.
  intros Hnd Hf. assert (Hin : exists data, ((src, dst), data) ∈ es /\ jstr_is type (jget "type" data) = true).
  { clear Hnd. induction es as [|[[s d] data] es IH]; simpl in Hf; [done|].
    destruct (bool_decide (d = dst) && jstr_is type (jget "type" data)) eqn:Hb.
    - apply andb_true_iff in Hb as [->%bool_decide_eq_true_1 Ht]. simplify_eq.
      exists data. split; [apply elem_of_cons; auto|done].
    - destruct (IH Hf) as (data' & Hin & Ht). exists data'. split; [apply elem_of_cons; auto|done]. }
  destruct Hin as (data & Hin & Ht). exists data. split; [by apply elem_dget|done].
Qed.

Lemma find_owner_none dst type es src data :
  find_owner dst type es = None -> dget (src, dst) es = Some data ->
  jstr_is type (jget "type" data) = false.
Proof.
  intros Hf Hd. apply dget_elem in Hd. induction es as [|[[s d] data'] es IH]; [by apply elem_of_nil in Hd|].
  simpl in Hf. destruct (bool_decide (d = dst) && _) eqn:Hb; [done|].
  apply elem_of_cons in Hd as [Hd|Hd]; [|by apply IH]. simplify_eq.
  by rewrite bool_decide_eq_true_2 in Hb.
Qed.

(** Ownership is last-writer-wins.  If a node has at most one owner of an
    ownership edge type, then after [check_ownership] and the edge upsert it has
    exactly one: the new source. *)
Theorem check_ownership_single s dst type new_src data :
  type ∈ OWNERSHIP_EDGE_TYPES -> NoDup (dkeys (_edges (graph s))) ->
  NoDup (dkeys data) -> dget "type" data = Some (JStr type) ->
  (forall a b, is_owner (graph s) a dst type -> is_owner (graph s) b dst type -> a = b) ->
  let s' := snd ((check_ownership dst type new_src ;;; on_graph (upsert_edge new_src dst data)) s) in
  forall src, is_owner (graph s') src dst type <-> src = new_src.
Proof.
  intros Htype Hnd Hdata Hty Huniq. cbv zeta.
  assert (Hfinal : forall es, NoDup (dkeys es) ->
    (forall src, src <> new_src -> ~ is_owner (with_edges es (graph s)) src dst type) ->
    forall src, is_owner (snd (upsert_edge new_src dst data (with_edges es (graph s)))) src dst type
                <-> src = new_src).
  { intros es Hes Hno src. unfold is_owner in *. simpl in *. rewrite dget_dset. split.
    - intros (d & Hd & Ht). destruct (decide (src = new_src)) as [|Hne]; [done|].
      rewrite decide_False in Hd by congruence. destruct (Hno src Hne). eauto.
    - intros ->. rewrite decide_True by done. eexists. split; [done|].
      unfold jget. rewrite dget_dupdate, Hty by done. by apply bool_decide_eq_true_2. }
  assert (Hid : graph s = with_edges (_edges (graph s)) (graph s)) by (by destruct (graph s)).
  unfold check_ownership. rewrite decide_True by done. unfold mbind, mget. simpl.
  unfold gs_find_owner. destruct (find_owner dst type (_edges (graph s))) as [old|] eqn:Hf.
  - destruct (find_owner_some dst type _ old Hnd Hf) as (od & Hod & Hot).
    destruct (decide (old = new_src)) as [-> |Hne]; simpl.
    + rewrite Hid. apply Hfinal; [done|]. rewrite <- Hid. intros src Hs Ho. apply Hs, Huniq; [done|].
      exists od. done.
    + apply Hfinal; [by apply NoDup_ddel|]. intros src Hs (d & Hd & Ht). simpl in Hd.
      destruct (decide (src = old)) as [-> |Hso]; [by rewrite dget_ddel_eq in Hd|].
      rewrite dget_ddel_ne in Hd by congruence. apply Hso, Huniq; [by exists d|by exists od].
  - simpl. rewrite Hid. apply Hfinal; [done|]. rewrite <- Hid. intros src _ (d & Hd & Ht).
    rewrite (find_owner_none dst type _ src d Hf Hd) in Ht. done.
Qed.
End spec.

(** ** Instances *)

#[local] Existing Instance demo_timestamps.

Definition owner_demo : HookStateService GraphState := new_service
  (MkGraph "w" None [] [(("old", "step"), [("type", JStr "HAS_STEP")])]).

Lemma check_ownership_single_witness :
  is_owner (graph (snd ((check_ownership "step" "HAS_STEP" "new" ;;;
    on_graph (upsert_edge "new" "step" [("type", JStr "HAS_STEP")])) owner_demo))) "new" "step" "HAS_STEP".
Proof.
  apply (check_ownership_single owner_demo "step" "HAS_STEP" "new" [("type", JStr "HAS_STEP")]);
    [..|reflexivity].
  - apply list_elem_of_In. simpl. auto.
  - apply (bool_decide_unpack _). vm_compute. exact I.
  - apply (bool_decide_unpack _). vm_compute. exact I.
  - reflexivity.
  - intros a b (da & Ha & _) (db & Hb & _). apply dget_elem in Ha, Hb.
    apply list_elem_of_In in Ha, Hb. simpl in *. naive_solver.
Defined.
