(* ===== verification/DefaultHandler.v ===== *)
(** * Data layer 1: every event becomes a node
      ([handlers/data_layer_1], [protocol.py])

    The default handler derives labels from the client-supplied event name,
    lifts structured fields, and records the event as a node attached to its
    session. *)
From stdpp Require Import base list gmap strings sorting.
From Stdlib Require Import ZArith Lia.
From S2P Require Import Prelude PyText Sha256 Utils Json QueueFiles QueueManager GraphStore Services.

(** ** Field lifters *)

(** The fields of a payload that are present and not [None]. *)
Definition lift_keys (keys : list string) (data : obj) : obj :=
  omap (fun k => let v := jget k data in if is_none v then None else Some (k, v)) keys.

(** [fnmatch.fnmatch(event, "<family>:*")], and ["*"] for the empty prefix *)
Definition matches (prefix event : string) : bool :=
  bool_decide (bytes_of prefix `prefix_of` bytes_of event).

Definition _NAVIGATION_KEYS : list string := ["session_id"; "parent_id"].
Definition artifact_keys : list string := ["bytes"; "path"].
Definition _DELEGATE_KEYS : list string :=
  ["agent"; "sub_session_id"; "parent_session_id"; "tool_call_id"; "parallel_group_id"].
Definition _LLM_KEYS : list string := ["model"; "provider"].
Definition _PROMPT_KEYS : list string := ["prompt"; "response_preview"].
Definition recipe_keys : list string :=
  ["recipe_name"; "current_step"; "description"; "status"; "step_id"; "total_steps"; "parent_session_id"].
Definition _METADATA_KEYS : list string :=
  ["agent_name"; "tool_call_id"; "parallel_group_id"; "recipe_name"; "recipe_step"; "recipe_step_index"].
Definition skill_keys : list string := ["skill_directory"; "skill_name"].
Definition _TOOL_KEYS : list string := ["tool_name"; "tool_input"; "tool_call_id"; "parallel_group_id"].

Definition session_lift (data : obj) : obj :=
  dupdate (lift_keys ["parent"] data)
    (match jget "metadata" data with JObj m => lift_keys _METADATA_KEYS m | _ => [] end).

(** Pattern prefix and extraction of each lifter, in registration order. *)
Definition _LIFTERS : list (string * (obj -> obj)) :=
  [("", lift_keys _NAVIGATION_KEYS); ("artifact:", lift_keys artifact_keys);
   ("delegate:", lift_keys _DELEGATE_KEYS); ("llm:", lift_keys _LLM_KEYS);
   ("prompt:", lift_keys _PROMPT_KEYS); ("recipe:", lift_keys recipe_keys);
   ("session:", session_lift); ("skill:", lift_keys skill_keys); ("tool:", lift_keys _TOOL_KEYS)].

Definition lift_all (event : string) (data : obj) : obj :=
  fold_left (fun lifted l => if matches l.1 event then dupdate lifted (l.2 data) else lifted) _LIFTERS [].

(** ** Labels *)

(** [_EVENT_PARTS_RE.split(raw)] without its empty parts: maximal runs of
    characters in [A-Za-z0-9].  [cur] is the run being read. *)
Fixpoint alnum_parts (l cur : bytes) : list bytes :=
  match l with
  | [] => if decide (cur = []) then [] else [cur]
  | b :: l => if is_alnum b then alnum_parts l (cur ++ [b])
              else if decide (cur = []) then alnum_parts l [] else cur :: alnum_parts l []
  end.

(** [part.capitalize()] on ASCII letters and digits *)
Definition capitalize (part : bytes) : bytes :=
  match part with [] => [] | b :: part => to_upper b :: map to_lower part end.

Definition _pascal_parts (raw : bytes) : bytes :=
  let stem := concat (map capitalize (alnum_parts raw [])) in
  match stem with
  | b :: _ => if is_digit b then Byte.x45 :: stem else stem
  | [] => stem
  end.

Definition _UNNAMED_EVENT_STEM : bytes := bytes_of "Unnamed".
Definition or_unnamed (stem : bytes) : bytes :=
  match stem with [] => _UNNAMED_EVENT_STEM | _ => stem end.

Definition ident_start (b : byte) : bool := is_upper b || is_lower b || bool_decide (b = Byte.x5f).
Definition ident_char (b : byte) : bool := ident_start b || is_digit b.
(** [_LABEL_SAFE_RE], the identifiers the graph writer accepts.  (Python's [$]
    also matches before a final newline; no derived label contains one.) *)
Definition label_safe (l : bytes) : bool :=
  match l with [] => false | b :: l => ident_start b && forallb ident_char l end.

(** [event_name[:event_name.rfind(":")]] when there is a colon *)
Fixpoint before_last_colon (l : bytes) : option bytes :=
  match l with
  | [] => None
  | b :: l => match before_last_colon l with
              | Some p => Some (b :: p)
              | None => if decide (b = Byte.x3a) then Some [] else None
              end
  end.

Definition derive_labels (event_name : string) : result (list string) :=
  let name := bytes_of event_name in
  let full_pascal := or_unnamed (_pascal_parts name) in
  let category := match before_last_colon name with
                  | Some p => or_unnamed (_pascal_parts p)
                  | None => full_pascal
                  end in
  let labels := [full_pascal ++ bytes_of "Event"; category ++ bytes_of "Event"; bytes_of "Event"] in
  if forallb label_safe labels then Ok (map str_of labels) else Err ValueError.

(** ** The handler *)

(** [data.get("session_id")] where every handler guards with [if not
    session_id].  Ingest only accepts string ids, so a truthy non-string (which
    Python would carry into node ids through [str]) is a [TypeError] here. *)
Definition session_of (data : obj) : result (option string) :=
  match jget "session_id" data with
  | JStr s => Ok (if decide (s = "") then None else Some s)
  | j => if truthy j then Err TypeError else Ok None
  end.

Section handler.
Context {G : Type} `{!GraphStore G} `{!Timestamps} `{!PyRepr}.
Abbreviation HM := (M (HookStateService G)).

(** [f"{x}"] of an optional payload field *)
Definition opt_str (j : json) : option string := if is_none j then None else Some (py_str j).

Definition default_handler (event : string) (data : obj) : HM unit :=
  let! sid := mlift (session_of data) in
  match sid with
  | None => mret tt
  | Some session_id =>
    let timestamp := jget_default "timestamp" (JStr "") data in
    let! labels := mlift (derive_labels event) in
    let! ts := mlift (need_str timestamp) in
    let! event_node_id := node_id session_id event ts (opt_str (jget "tool_call_id" data)) in
    on_graph (upsert_node event_node_id
      (dset "data" (JStr (str_of (json_dumps (JObj data))))
        (dupdate [("labels", jstrs labels); ("event_name", JStr event); ("occurred_at", timestamp)]
           (lift_all event data)))) ;;;
    on_graph (upsert_edge session_id event_node_id
      [("type", JStr "HAS_EVENT"); ("occurred_at", timestamp)])
  end.
End handler.

(** ** Lifted fields never clobber the base properties *)

Lemma dget_dupdate_notin {V} (d e : list (string * V)) k : k ∉ dkeys e -> dget k (dupdate d e) = dget k d.
Proof.
  unfold dupdate, dkeys. revert d. induction e as [|[k' v] e IH]; intros d; [done|].
  cbn [map fst fold_left]. intros [Hk He]%not_elem_of_cons. rewrite IH by done. by rewrite dget_dset_ne.
Qed.

Lemma lift_keys_sub ks data : dkeys (lift_keys ks data) ⊆ ks.
Proof.
  intros k Hk. unfold dkeys in Hk. apply list_elem_of_fmap in Hk as ([k' v] & -> & Hin).
  apply list_elem_of_omap in Hin as (k'' & Hin & Heq). simpl in Heq. by destruct (is_none _); simplify_eq.
Qed.

Lemma dkeys_dupdate_sub {V} (d e : list (string * V)) k : k ∈ dkeys (dupdate d e) -> k ∈ dkeys d \/ k ∈ dkeys e.
Proof.
  intros Hk. destruct (decide (k ∈ dkeys e)) as [|Hn]; [by right|]. left.
  destruct (dget k (dupdate d e)) eqn:Hg; [|by apply dget_None_keys in Hg].
  rewrite dget_dupdate_notin in Hg by done. destruct (decide (k ∈ dkeys d)) as [|Hd]; [done|].
  apply dget_None_keys in Hd. congruence.
Qed.

Definition RESERVED_PROPS : list string := ["node_id"; "occurred_at"; "event_name"; "data"; "labels"].

Lemma lifters_reserved data :
  Forall (fun l : string * (obj -> obj) => forall k, k ∈ RESERVED_PROPS -> k ∉ dkeys (l.2 data)) _LIFTERS.
Proof.
  assert (Hk : forall ks, forallb (fun k => negb (bool_decide (k ∈ RESERVED_PROPS))) ks = true ->
    forall d k, k ∈ RESERVED_PROPS -> k ∉ dkeys (lift_keys ks d)).
  { intros ks Hks d k Hr Hin. apply lift_keys_sub in Hin. rewrite forallb_forall in Hks.
    specialize (Hks k (proj1 (list_elem_of_In _ _) Hin)). by rewrite bool_decide_eq_true_2 in Hks. }
  unfold _LIFTERS. repeat (apply Forall_cons_2; [cbn [snd]; try (by apply Hk)|]); [|apply Forall_nil_2].
  intros k Hr [Hin|Hin]%dkeys_dupdate_sub; [by eapply Hk; [..|exact Hin]|].
  destruct (jget "metadata" data); try (by apply elem_of_nil in Hin). by eapply Hk; [..|exact Hin].
Qed.

Lemma lift_all_reserved event data k : k ∈ RESERVED_PROPS -> k ∉ dkeys (lift_all event data).
Proof.
  intros Hr. unfold lift_all. assert (Hnil : k ∉ dkeys ([] : obj)) by apply not_elem_of_nil.
  revert Hnil. generalize ([] : obj) as acc. induction (lifters_reserved data) as [|l ls Hl _ IH]; intros acc Ha; [done|].
  cbn [fold_left]. apply IH. destruct (matches l.1 event); [|done].
  intros [?|Hin]%dkeys_dupdate_sub; [done|]. by apply (Hl k).
Qed.

(** ** Every event name gives valid labels *)

Lemma ident_char_alnum b : is_alnum b = true -> ident_char b = true.
Proof.
  unfold is_alnum, ident_char, ident_start. rewrite !orb_true_iff. tauto.
Qed.

Lemma alnum_parts_alnum l cur :
  Forall (fun b => is_alnum b = true) cur ->
  Forall (fun p => p <> [] /\ Forall (fun b => is_alnum b = true) p) (alnum_parts l cur).
Proof.
  revert cur. induction l as [|b l IH]; intros cur Hc; simpl.
  - case_decide; repeat constructor; auto.
  - destruct (is_alnum b) eqn:Hb.
    + apply IH, Forall_app. split; [done|]. by repeat constructor.
    + case_decide; [apply IH; constructor|]. constructor; [auto|]. apply IH; constructor.
Qed.

Lemma to_upper_alnum b : is_alnum b = true -> is_alnum (to_upper b) = true.
Proof.
  unfold to_upper. destruct (is_lower b) eqn:Hl; [|done]. intros _.
  unfold is_lower, in_range in Hl. apply andb_true_iff in Hl as [H1%Z.leb_le H2%Z.leb_le].
  unfold is_alnum, is_upper, in_range. rewrite bZ_byte_of_Z by lia.
  rewrite !orb_true_iff, !andb_true_iff, !Z.leb_le. left. left. lia.
Qed.

Lemma to_lower_alnum b : is_alnum b = true -> is_alnum (to_lower b) = true.
Proof.
  unfold to_lower. destruct (is_upper b) eqn:Hl; [|done]. intros _.
  unfold is_upper, in_range in Hl. apply andb_true_iff in Hl as [H1%Z.leb_le H2%Z.leb_le].
  unfold is_alnum, is_lower, in_range. rewrite bZ_byte_of_Z by lia.
  rewrite !orb_true_iff, !andb_true_iff, !Z.leb_le. left. right. lia.
Qed.

Lemma capitalize_alnum p :
  Forall (fun b => is_alnum b = true) p -> Forall (fun b => is_alnum b = true) (capitalize p).
Proof.
  destruct 1 as [|b p Hb Hp]; simpl; [constructor|]. constructor; [by apply to_upper_alnum|].
  apply Forall_map. eapply Forall_impl; [exact Hp|]. intros. by apply to_lower_alnum.
Qed.

Lemma concat_alnum ps :
  Forall (fun p => p <> [] /\ Forall (fun b => is_alnum b = true) p) ps ->
  Forall (fun b => is_alnum b = true) (concat (map capitalize ps)).
Proof.
  induction 1 as [|p ps [_ Hp] _ IH]; simpl; [constructor|].
  apply Forall_app. split; [by apply capitalize_alnum|done].
Qed.

Lemma label_safe_intro b l :
  ident_start b = true -> Forall (fun b => is_alnum b = true) l ->
  label_safe ((b :: l) ++ bytes_of "Event") = true.
Proof.
  intros Hb Hl. cbn [label_safe app]. rewrite Hb, forallb_app. simpl.
  rewrite andb_true_r. apply forallb_forall. intros x Hx%list_elem_of_In.
  rewrite Forall_forall in Hl. by apply ident_char_alnum, Hl.
Qed.

Lemma pascal_safe raw : label_safe (or_unnamed (_pascal_parts raw) ++ bytes_of "Event") = true.
Proof.
  unfold _pascal_parts.
  assert (Ha := concat_alnum _ (alnum_parts_alnum raw [] (Forall_nil_2 _))).
  destruct (concat (map capitalize (alnum_parts raw []))) as [|b l]; [reflexivity|].
  apply Forall_cons in Ha as [Hb Hl]. destruct (is_digit b) eqn:Hd; simpl or_unnamed.
  - apply (label_safe_intro Byte.x45 (b :: l)); [done|by constructor].
  - apply label_safe_intro; [|done]. unfold is_alnum in Hb. unfold ident_start.
    rewrite Hd, orb_false_r in Hb. by rewrite Hb.
Qed.

(** Labels derived from a client-supplied event name are always valid graph
    identifiers: for every event name whatsoever [derive_labels] returns three
    labels, each starting with a letter or underscore and made of letters,
    digits and underscores; its own defensive check never fires. *)
Theorem derive_labels_total (event_name : string) :
  exists full category, derive_labels event_name = Ok [full; category; "Event"]
    /\ label_safe (bytes_of full) = true /\ label_safe (bytes_of category) = true.
Proof.
  unfold derive_labels. cbv zeta.
  set (full := or_unnamed (_pascal_parts (bytes_of event_name)) ++ bytes_of "Event").
  set (category := (match before_last_colon (bytes_of event_name) with
                    | Some p => or_unnamed (_pascal_parts p)
                    | None => or_unnamed (_pascal_parts (bytes_of event_name)) end) ++ bytes_of "Event").
  assert (Hf : label_safe full = true) by apply pascal_safe.
  assert (Hc : label_safe category = true)
    by (unfold category; destruct (before_last_colon _); apply pascal_safe).
  exists (str_of full), (str_of category). rewrite !bytes_of_str_of.
  split; [|done]. simpl forallb. by rewrite Hf, Hc.
Qed.

Example derive_labels_examples :
  derive_labels "recipe:loop_iter" = Ok ["RecipeLoopIterEvent"; "RecipeEvent"; "Event"]
  /\ derive_labels "routing_matrix-loaded"
     = Ok ["RoutingMatrixLoadedEvent"; "RoutingMatrixLoadedEvent"; "Event"]
  /\ derive_labels "2fa:verify" = Ok ["E2faVerifyEvent"; "E2faEvent"; "Event"]
  /\ derive_labels "::" = Ok ["UnnamedEvent"; "UnnamedEvent"; "Event"].
Proof. repeat split; vm_compute; reflexivity. Qed.
