(* ===== verification/Layer2.v ===== *)
(** * Data layer 2 handlers ([handlers/data_layer_2])

    The eight enrichers of the first enrichment layer, each the whole handler
    with its guards: session lifecycle (with the label state machine),
    orchestrator runs, iterations, content blocks, tool calls, prompts,
    cancellations and context compactions.

    Payload fields are dynamic values.  Where the code uses one as a node id or
    a dictionary key it must be a string here; any other value is a
    [TypeError] (Python raises it for lists and dicts and would carry a number
    through, which no client sends). *)
From stdpp Require Import base list gmap strings sorting.
From Stdlib Require Import ZArith Lia.
From S2P Require Import Prelude PyText Sha256 Utils Json QueueFiles QueueManager.
From S2P Require Import GraphStore Services DefaultHandler.

(** ** Payload access *)

(** [data.get(k)] guarded by [if not value] *)
Definition str_field (k : string) (data : obj) : result (option string) :=
  match jget k data with
  | JStr s => Ok (if decide (s = "") then None else Some s)
  | j => if truthy j then Err TypeError else Ok None
  end.

(** A value on which the code calls [.get] *)
Definition as_dict (j : json) : result obj :=
  match j with JObj o => Ok o | _ => Err AttributeError end.

Definition timestamp_of (data : obj) : json := jget_default "timestamp" (JStr "") data.

(** [if value is not None: node_data[key] = value] *)
Definition opt_prop (key : string) (value : json) : obj :=
  if is_none value then [] else [(key, value)].

(** ** Worker state

    One worker owns the shared service and the handler instances; three of
    them keep a dictionary of their own. *)

Abbreviation groups := (list (string * list string)).

Record Worker (G : Type) := MkWorker {
  services : HookStateService G;
  tool_parallel_groups : groups;       (** [ToolCallHandler._parallel_groups] *)
  delegation_parallel_groups : groups; (** [DelegationHandler._parallel_groups] *)
  _active_skill_nodes : list (string * string);
}.
Arguments MkWorker {G}. Arguments services {G}. Arguments tool_parallel_groups {G}.
Arguments delegation_parallel_groups {G}. Arguments _active_skill_nodes {G}.

Definition new_worker {G} (g : G) : Worker G := MkWorker (new_service g) [] [] [].

Definition group_members (g : string) (gs : groups) : list string :=
  match dget g gs with Some l => l | None => [] end.

(** ** The session label state machine *)

Definition _TYPE_LABELS : list string := ["RootSession"; "SubSession"; "ForkedSession"].

Definition _current_type (labels : list string) : option string :=
  if bool_decide ("ForkedSession" ∈ labels) then Some "ForkedSession"
  else if bool_decide ("SubSession" ∈ labels) then Some "SubSession"
  else if bool_decide ("RootSession" ∈ labels) then Some "RootSession"
  else None.

Definition _parent_of (data : obj) : result string :=
  match py_or (py_or (jget "parent_id" data) (jget "parent" data)) (JStr "") with
  | JStr s => Ok (py_strip s)
  | _ => Err AttributeError
  end.

Record LabelTransition := MkTransition { add : list string; remove : list string }.
Definition no_transition : LabelTransition := MkTransition [] [].

Definition classify (current_type : option string) (event : string) (has_parent : bool)
    : result LabelTransition :=
  if decide (event = "start") then
    if decide (current_type = Some "ForkedSession" \/ current_type = Some "SubSession") then Ok no_transition
    else if decide (current_type = Some "RootSession") then
      if has_parent then Ok (MkTransition ["SubSession"; "SST_EVENT"] ["RootSession"; "StubSession"])
      else Ok no_transition
    else if has_parent then Ok (MkTransition ["Session"; "SubSession"; "SST_EVENT"] ["StubSession"])
    else Ok (MkTransition ["RootSession"; "Session"; "SST_EVENT"] ["StubSession"])
  else if decide (event = "fork") then
    match current_type with
    | Some t =>
      if decide (t = "ForkedSession") then Ok no_transition
      else if decide (t = "RootSession" \/ t = "SubSession")
      then Ok (MkTransition ["ForkedSession"; "SST_EVENT"] [t; "StubSession"])
      else Ok (MkTransition ["Session"; "ForkedSession"; "SST_EVENT"] ["StubSession"])
    | None => Ok (MkTransition ["Session"; "ForkedSession"; "SST_EVENT"] ["StubSession"])
    end
  else if decide (event = "end") then
    match current_type with
    | Some _ => Ok no_transition
    | None => Ok (MkTransition ["IncompleteSession"; "SST_EVENT"] ["StubSession"])
    end
  else Err ValueError.

Section handlers.
Context {G : Type} `{!GraphStore G} `{!Timestamps} `{!PyRepr}.
Abbreviation HM := (M (HookStateService G)).
Abbreviation WM := (M (Worker G)).

(** A handler without state of its own, run by a worker *)
Definition svc {A} (m : HM A) : WM A := fun w =>
  let '(r, s) := m (services w) in
  (r, MkWorker s (tool_parallel_groups w) (delegation_parallel_groups w) (_active_skill_nodes w)).

(** The [SOURCED_FROM] bridge to the data layer 1 event node *)
Definition sourced_from (src session_id event : string) (timestamp : json)
    (disambiguator : option string) : HM unit :=
  let! ts := mlift (need_str timestamp) in
  let! n := node_id session_id event ts disambiguator in
  on_graph (upsert_edge src n [("type", JStr "SOURCED_FROM")]).

Definition sst_edge (src dst type semantic : string) : HM unit :=
  on_graph (upsert_edge src dst [("type", JStr type); ("sst_semantic", JStr semantic)]).

Definition lineage_edge (parent_id session_id type : string) (timestamp : json) : HM unit :=
  on_graph (upsert_edge parent_id session_id
    [("type", JStr type); ("sst_semantic", JStr "LEADS_TO"); ("occurred_at", timestamp)]).

(** ** [session.py] *)

(** [existing.get("labels", []) if existing else []] *)
Definition node_labels (session_id : string) : HM (list string) :=
  let! existing := on_graph (get_node session_id) in
  mret (match existing with Some o => labels_of o | None => [] end).

Definition apply_transition (session_id : string) (t : LabelTransition) : HM unit :=
  mwhen (negb (bool_decide (add t = [] /\ remove t = [])))
    (on_graph (set_labels session_id (remove t) (add t))).

(** [parent_id if parent_id else None] *)
Definition parent_prop (parent_id : string) : json :=
  if decide (parent_id = "") then JNull else JStr parent_id.

Definition session_handle_start (session_id : string) (timestamp : json) (data : obj) : HM unit :=
  let! parent_id := mlift (_parent_of data) in
  let! labels := node_labels session_id in
  on_graph (upsert_node session_id
    [("labels", jstrs ["Session"]); ("started_at", timestamp); ("session_id", JStr session_id);
     ("parent_id", parent_prop parent_id)]) ;;;
  sourced_from session_id session_id "session:start" timestamp None ;;;
  let! transition := mlift (classify (_current_type labels) "start" (bool_decide (parent_id <> ""))) in
  apply_transition session_id transition ;;;
  mwhen (bool_decide ("SubSession" ∈ add transition /\ parent_id <> ""))
    (ensure_session_node parent_id [] None ;;;
     lineage_edge parent_id session_id "HAS_SUBSESSION" timestamp).

Definition _create_mount_plan (session_id fork_node_id : string) : HM unit :=
  let mount_plan_id := session_id +:+ "::mount_plan" in
  on_graph (upsert_node mount_plan_id [("labels", jstrs ["MountPlan"; "SST_THING"])]) ;;;
  sst_edge session_id mount_plan_id "HAS_PART" "CONTAINS" ;;;
  on_graph (upsert_edge mount_plan_id fork_node_id [("type", JStr "SOURCED_FROM")]).

Definition session_handle_fork (session_id : string) (timestamp : json) (data : obj) : HM unit :=
  let! parent_id := mlift (_parent_of data) in
  let! s := mget in
  let workspace := py_or (jget "workspace" data) (JStr (graph_workspace (graph s))) in
  let! labels := node_labels session_id in
  let current_type := _current_type labels in
  on_graph (upsert_node session_id
    [("labels", jstrs ["Session"]); ("started_at", timestamp); ("workspace", workspace);
     ("session_id", JStr session_id); ("parent_id", parent_prop parent_id)]) ;;;
  let! ts := mlift (need_str timestamp) in
  let! fork_node_id := node_id session_id "session:fork" ts None in
  on_graph (upsert_edge session_id fork_node_id [("type", JStr "SOURCED_FROM")]) ;;;
  let! transition := mlift (classify current_type "fork" (bool_decide (parent_id <> ""))) in
  apply_transition session_id transition ;;;
  mwhen (bool_decide ("ForkedSession" ∈ add transition /\ parent_id <> ""))
    (mwhen (bool_decide (current_type = Some "RootSession" \/ current_type = Some "SubSession"))
       (on_graph (remove_edge parent_id session_id)) ;;;
     ensure_session_node parent_id [] None ;;;
     lineage_edge parent_id session_id "FORKED" timestamp) ;;;
  _create_mount_plan session_id fork_node_id.

Definition end_props (session_id parent_id : string) (timestamp : json) (labels : list string) : obj :=
  [("labels", jstrs (["Session"; "SST_EVENT"] ++ labels)); ("ended_at", timestamp);
   ("status", JStr "completed"); ("session_id", JStr session_id)]
  ++ (if decide (parent_id = "") then [] else [("parent_id", JStr parent_id)]).

Definition session_handle_end (session_id : string) (timestamp : json) (data : obj) : HM unit :=
  let! labels := node_labels session_id in
  let! parent_id := mlift (_parent_of data) in
  on_graph (upsert_node session_id (end_props session_id parent_id timestamp labels)) ;;;
  sourced_from session_id session_id "session:end" timestamp None ;;;
  let! transition := mlift (classify (_current_type labels) "end" (bool_decide (parent_id <> ""))) in
  apply_transition session_id transition.

Definition session_events : list string := ["session:start"; "session:fork"; "session:end"].

Definition session_handler (event : string) (data : obj) : HM unit :=
  let! sid := mlift (session_of data) in
  match sid with
  | None => mret tt
  | Some session_id =>
    let timestamp := timestamp_of data in
    if decide (event = "session:start") then session_handle_start session_id timestamp data
    else if decide (event = "session:fork") then session_handle_fork session_id timestamp data
    else if decide (event = "session:end") then session_handle_end session_id timestamp data
    else mret tt
  end.

(** ** [orchestrator_run.py] *)

Definition orch_run_of (session_id ts : string) : string := session_id +:+ "::orch_run::" +:+ ts.

Definition with_execution_start_ts (v : option string) (d : DataLayer2State) : DataLayer2State :=
  MkDL2 v (active_iteration_id d) (pending_tool_block_ids d) (last_prompt_id d)
    (last_completed_orch_run_id d) (iteration_count d).

Definition _handle_execution_start (session_id : string) (data : obj) : HM unit :=
  let timestamp := timestamp_of data in
  let orch_run_id := orch_run_of session_id (py_str timestamp) in
  modify_dl2 (with_execution_start_ts (opt_str timestamp)) ;;;
  on_graph (upsert_node orch_run_id
    [("labels", jstrs ["OrchestratorRun"; "SST_EVENT"]); ("session_id", JStr session_id);
     ("started_at", timestamp)]) ;;;
  sst_edge session_id orch_run_id "HAS_EXECUTION" "CONTAINS" ;;;
  sourced_from orch_run_id session_id "execution:start" timestamp None ;;;
  let! s := mget in
  match last_prompt_id (data_layer_2 s) with
  | Some p => sst_edge p orch_run_id "TRIGGERS" "LEADS_TO"
  | None => mret tt
  end.

Definition _handle_execution_end (session_id : string) (data : obj) : HM unit :=
  let! s := mget in
  match execution_start_ts (data_layer_2 s) with
  | None => mret tt
  | Some ts =>
    let orch_run_id := orch_run_of session_id ts in
    let timestamp := timestamp_of data in
    on_graph (upsert_node orch_run_id
      ([("labels", jstrs ["OrchestratorRun"; "SST_EVENT"]); ("ended_at", timestamp);
        ("status", jget "status" data)]
       ++ match dget "response" data with Some r => [("response", r)] | None => [] end)) ;;;
    sourced_from orch_run_id session_id "execution:end" timestamp None
  end.

Definition with_completed_run (run : string) (d : DataLayer2State) : DataLayer2State :=
  MkDL2 None (active_iteration_id d) (pending_tool_block_ids d) (last_prompt_id d)
    (Some run) (iteration_count d).

Definition _handle_orchestrator_complete (session_id : string) (data : obj) : HM unit :=
  let! s := mget in
  match execution_start_ts (data_layer_2 s) with
  | None => mret tt
  | Some ts =>
    let orch_run_id := orch_run_of session_id ts in
    let timestamp := timestamp_of data in
    let orchestrator := jget_default "orchestrator" (JStr "") data in
    on_graph (upsert_node orch_run_id
      [("labels", jstrs ["OrchestratorRun"; "SST_EVENT"]); ("orchestrator_name", orchestrator);
       ("turn_count", jget "turn_count" data); ("completed_at", timestamp)]) ;;;
    let! name := mlift (need_str orchestrator) in
    on_graph (upsert_node name
      [("labels", jstrs ["Orchestrator"; "SST_CONCEPT"]); ("orchestrator", orchestrator)]) ;;;
    sst_edge session_id name "HAS_ATTRIBUTE" "EXPRESSES" ;;;
    sourced_from orch_run_id session_id "orchestrator:complete" timestamp None ;;;
    modify_dl2 (with_completed_run orch_run_id)
  end.

Definition orchestrator_run_events : list string :=
  ["execution:start"; "execution:end"; "orchestrator:complete"].

Definition orchestrator_run_handler (event : string) (data : obj) : HM unit :=
  let! sid := mlift (session_of data) in
  match sid with
  | None => mret tt
  | Some session_id =>
    if decide (event = "execution:start") then _handle_execution_start session_id data
    else if decide (event = "execution:end") then _handle_execution_end session_id data
    else if decide (event = "orchestrator:complete") then _handle_orchestrator_complete session_id data
    else mret tt
  end.

(** ** [iteration.py] *)

Definition next_iteration (session_id : string) (d : DataLayer2State) : DataLayer2State :=
  MkDL2 (execution_start_ts d)
    (Some (session_id +:+ "::iteration::" +:+ int_str (iteration_count d + 1)))
    (pending_tool_block_ids d) (last_prompt_id d) (last_completed_orch_run_id d)
    (iteration_count d + 1).

Definition _handle_provider_request (session_id : string) (data : obj) : HM unit :=
  modify_dl2 (next_iteration session_id) ;;;
  let! s := mget in
  let n := iteration_count (data_layer_2 s) in
  let timestamp := timestamp_of data in
  let iteration_id := session_id +:+ "::iteration::" +:+ int_str n in
  on_graph (upsert_node iteration_id
    [("labels", jstrs ["Iteration"; "SST_EVENT"]); ("session_id", JStr session_id);
     ("iteration_number", JInt n); ("started_at", timestamp)]) ;;;
  match execution_start_ts (data_layer_2 s) with
  | Some ts => sst_edge (orch_run_of session_id ts) iteration_id "HAS_PART" "CONTAINS"
  | None => mret tt
  end ;;;
  sourced_from iteration_id session_id "provider:request" timestamp None.

(** [data.get("session_id", "")], once the handler's guard has passed *)
Definition event_bridge (src event : string) (data : obj) : HM unit :=
  let! session_id := mlift (need_str (jget_default "session_id" (JStr "") data)) in
  sourced_from src session_id event (timestamp_of data) None.

Definition _handle_llm_request (data : obj) : HM unit :=
  let! s := mget in
  match active_iteration_id (data_layer_2 s) with
  | None => mret tt
  | Some iteration_id =>
    on_graph (upsert_node iteration_id
      [("labels", jstrs ["Iteration"; "SST_EVENT"]); ("provider", jget "provider" data);
       ("model", jget "model" data); ("message_count", jget "message_count" data);
       ("has_system", jget "has_system" data)]) ;;;
    event_bridge iteration_id "llm:request" data
  end.

Definition _handle_llm_response (data : obj) : HM unit :=
  let! s := mget in
  match active_iteration_id (data_layer_2 s) with
  | None => mret tt
  | Some iteration_id =>
    let! usage := mlift (as_dict (py_or (jget_default "usage" (JObj []) data) (JObj []))) in
    on_graph (upsert_node iteration_id
      [("labels", jstrs ["Iteration"; "SST_EVENT"]); ("usage_input", jget "input_tokens" usage);
       ("usage_output", jget "output_tokens" usage);
       ("usage_cache_write", jget "cache_creation_input_tokens" usage)]) ;;;
    event_bridge iteration_id "llm:response" data
  end.

Definition iteration_events : list string := ["provider:request"; "llm:request"; "llm:response"].

Definition iteration_handler (event : string) (data : obj) : HM unit :=
  let! sid := mlift (session_of data) in
  match sid with
  | None => mret tt
  | Some session_id =>
    if decide (event = "provider:request") then _handle_provider_request session_id data
    else if decide (event = "llm:request") then _handle_llm_request data
    else if decide (event = "llm:response") then _handle_llm_response data
    else mret tt
  end.

(** ** [content_block.py] *)

Definition iteration_n (iteration_id : option string) : string :=
  match iteration_id with
  | Some i => if decide (i = "") then "0" else str_of (last_after_colons (bytes_of i) [])
  | None => "0"
  end.

Definition block_id_of (session_id : string) (iteration_id : option string) (block_index : json) : string :=
  session_id +:+ "::block::" +:+ iteration_n iteration_id +:+ "::" +:+ py_str block_index.

Definition content_handle_start (session_id block_node_id : string) (block_index : json) (data : obj)
    : HM unit :=
  let timestamp := timestamp_of data in
  on_graph (upsert_node block_node_id
    [("labels", jstrs ["ContentBlock"; "SST_EVENT"]); ("session_id", JStr session_id);
     ("block_index", block_index); ("started_at", timestamp)]) ;;;
  let! s := mget in
  match active_iteration_id (data_layer_2 s) with
  | Some i => sst_edge i block_node_id "HAS_PART" "CONTAINS"
  | None => mret tt
  end ;;;
  sourced_from block_node_id session_id "content_block:start" timestamp None.

Definition with_pending_block (block_id block_node_id : string) (d : DataLayer2State) : DataLayer2State :=
  MkDL2 (execution_start_ts d) (active_iteration_id d)
    (dset block_id block_node_id (pending_tool_block_ids d))
    (last_prompt_id d) (last_completed_orch_run_id d) (iteration_count d).

Definition content_handle_end (block_node_id : string) (data : obj) : HM unit :=
  let timestamp := timestamp_of data in
  let! block := mlift (as_dict (py_or (jget "block" data) (JObj []))) in
  let block_type := jget "type" block in
  on_graph (upsert_node block_node_id
    [("labels", jstrs ["ContentBlock"; "SST_EVENT"]); ("block_type", block_type);
     ("ended_at", timestamp)]) ;;;
  mwhen (jstr_is "tool_call" block_type)
    (let! block_id := mlift (str_field "id" block) in
     match block_id with
     | Some b => modify_dl2 (with_pending_block b block_node_id)
     | None => mret tt
     end) ;;;
  event_bridge block_node_id "content_block:end" data.

Definition content_block_events : list string := ["content_block:start"; "content_block:end"].

Definition content_block_handler (event : string) (data : obj) : HM unit :=
  let! sid := mlift (session_of data) in
  match sid with
  | None => mret tt
  | Some session_id =>
    let block_index := jget "block_index" data in
    let! s := mget in
    let block_node_id := block_id_of session_id (active_iteration_id (data_layer_2 s)) block_index in
    if decide (event = "content_block:start")
    then content_handle_start session_id block_node_id block_index data
    else if decide (event = "content_block:end") then content_handle_end block_node_id data
    else mret tt
  end.

(** ** [tool_call.py] *)

Definition without_pending_block (block_id : string) (d : DataLayer2State) : DataLayer2State :=
  MkDL2 (execution_start_ts d) (active_iteration_id d)
    (ddel block_id (pending_tool_block_ids d))
    (last_prompt_id d) (last_completed_orch_run_id d) (iteration_count d).

(** [pending_tool_block_ids.pop(tool_call_id, None)] *)
Definition pop_pending_block (tool_call_id : string) : HM (option string) :=
  let! s := mget in
  modify_dl2 (without_pending_block tool_call_id) ;;;
  mret (dget tool_call_id (pending_tool_block_ids (data_layer_2 s))).

Definition with_tool_groups (gs : groups) (w : Worker G) : Worker G :=
  MkWorker (services w) gs (delegation_parallel_groups w) (_active_skill_nodes w).

(** [setdefault], the loop over earlier members, and [append] *)
Definition join_tool_group (group tool_call_id : string) : WM unit :=
  let! w := mget in
  let members := group_members group (tool_parallel_groups w) in
  mmodify (with_tool_groups (dset group members (tool_parallel_groups w))) ;;;
  mfor members (fun prior_id => svc (sst_edge tool_call_id prior_id "PARALLEL_EXECUTION" "NEAR")) ;;;
  mmodify (with_tool_groups (dset group (members ++ [tool_call_id]) (tool_parallel_groups w))).

Definition tool_handle_pre (session_id tool_call_id : string) (timestamp : json) (data : obj) : WM unit :=
  let parallel_group_id := jget "parallel_group_id" data in
  svc (on_graph (upsert_node tool_call_id
    ([("labels", jstrs ["ToolCall"; "SST_EVENT"]); ("tool_name", jget "tool_name" data);
      ("tool_call_id", JStr tool_call_id); ("session_id", JStr session_id);
      ("tool_input", jget "tool_input" data); ("started_at", timestamp)]
     ++ opt_prop "parallel_group_id" parallel_group_id))) ;;;
  let! w := mget in
  match active_iteration_id (data_layer_2 (services w)) with
  | Some i => svc (sst_edge i tool_call_id "HAS_TOOL_CALL" "CONTAINS")
  | None => mret tt
  end ;;;
  let! block_node_id := svc (pop_pending_block tool_call_id) in
  match block_node_id with
  | Some b => svc (sst_edge b tool_call_id "CAUSED" "LEADS_TO")
  | None => mret tt
  end ;;;
  mwhen (negb (is_none parallel_group_id))
    (let! g := mlift (need_str parallel_group_id) in join_tool_group g tool_call_id) ;;;
  svc (sourced_from tool_call_id session_id "tool:pre" timestamp (Some tool_call_id)).

Definition tool_handle_post (session_id tool_call_id : string) (timestamp : json) (data : obj) : HM unit :=
  let! result := mlift (as_dict (jget_default "result" (JObj []) data)) in
  on_graph (upsert_node tool_call_id
    [("labels", jstrs ["ToolCall"; "SST_EVENT"]); ("ended_at", timestamp);
     ("result_success", JBool (is_none (jget "error" result)));
     ("result_output", jget "output" result); ("result_error", jget "error" result)]) ;;;
  sourced_from tool_call_id session_id "tool:post" timestamp (Some tool_call_id).

Definition tool_handle_error (session_id tool_call_id : string) (timestamp : json) (data : obj) : HM unit :=
  let result_error := py_or (py_or (jget "error" data) (jget "error_message" data)) (jget "message" data) in
  on_graph (upsert_node tool_call_id
    [("labels", jstrs ["ToolCall"; "SST_EVENT"]); ("ended_at", timestamp);
     ("result_success", JBool false); ("result_error", result_error)]) ;;;
  sourced_from tool_call_id session_id "tool:error" timestamp (Some tool_call_id).

Definition tool_call_events : list string := ["tool:pre"; "tool:post"; "tool:error"].

Definition tool_call_handler (event : string) (data : obj) : WM unit :=
  let! sid := mlift (session_of data) in
  let! tid := mlift (str_field "tool_call_id" data) in
  match sid, tid with
  | Some session_id, Some tool_call_id =>
    let timestamp := timestamp_of data in
    if decide (event = "tool:pre") then tool_handle_pre session_id tool_call_id timestamp data
    else if decide (event = "tool:error") then svc (tool_handle_error session_id tool_call_id timestamp data)
    else svc (tool_handle_post session_id tool_call_id timestamp data)
  | _, _ => mret tt
  end.

(** ** [prompt.py], [cancellation.py], [context_compaction.py] *)

Definition with_completed (v : option string) (d : DataLayer2State) : DataLayer2State :=
  MkDL2 (execution_start_ts d) (active_iteration_id d) (pending_tool_block_ids d)
    (last_prompt_id d) v (iteration_count d).
Definition with_last_prompt (v : option string) (d : DataLayer2State) : DataLayer2State :=
  MkDL2 (execution_start_ts d) (active_iteration_id d) (pending_tool_block_ids d)
    v (last_completed_orch_run_id d) (iteration_count d).

Definition prompt_events : list string := ["prompt:submit"].

Definition prompt_handler (event : string) (data : obj) : HM unit :=
  let! sid := mlift (session_of data) in
  match sid with
  | None => mret tt
  | Some session_id =>
    let timestamp := timestamp_of data in
    let prompt_node_id := session_id +:+ "::prompt::" +:+ py_str timestamp in
    on_graph (upsert_node prompt_node_id
      [("labels", jstrs ["Prompt"; "SST_EVENT"]); ("session_id", JStr session_id);
       ("prompt", jget_default "prompt" (JStr "") data); ("occurred_at", timestamp)]) ;;;
    sourced_from prompt_node_id session_id "prompt:submit" timestamp None ;;;
    sst_edge session_id prompt_node_id "HAS_PART" "CONTAINS" ;;;
    let! s := mget in
    match last_completed_orch_run_id (data_layer_2 s) with
    | Some run => sst_edge run prompt_node_id "ENABLES" "LEADS_TO" ;;; modify_dl2 (with_completed None)
    | None => mret tt
    end ;;;
    modify_dl2 (with_last_prompt (Some prompt_node_id))
  end.

Definition cancellation_events : list string := ["cancel:completed"].

Definition cancellation_handler (event : string) (data : obj) : HM unit :=
  let! sid := mlift (session_of data) in
  match sid with
  | None => mret tt
  | Some session_id =>
    let timestamp := timestamp_of data in
    let cancellation_node_id := session_id +:+ "::cancellation::" +:+ py_str timestamp in
    on_graph (upsert_node cancellation_node_id
      [("labels", jstrs ["Cancellation"; "SST_EVENT"]); ("session_id", JStr session_id);
       ("was_immediate", jget "immediate" data); ("occurred_at", timestamp)]) ;;;
    sst_edge session_id cancellation_node_id "HAS_PART" "CONTAINS" ;;;
    sourced_from cancellation_node_id session_id "cancel:completed" timestamp None
  end.

Definition context_compaction_events : list string := ["context:pre_compact"; "context:post_compact"].

Definition context_compaction_handler (event : string) (data : obj) : HM unit :=
  let! sid := mlift (session_of data) in
  match sid with
  | None => mret tt
  | Some session_id =>
    let timestamp := timestamp_of data in
    let compaction_node_id := session_id +:+ "::compaction::" +:+ py_str timestamp in
    on_graph (upsert_node compaction_node_id
      [("labels", jstrs ["ContextCompaction"; "SST_EVENT"]); ("session_id", JStr session_id);
       ("occurred_at", timestamp)]) ;;;
    sst_edge session_id compaction_node_id "HAS_COMPACTION" "CONTAINS" ;;;
    sourced_from compaction_node_id session_id event timestamp None
  end.
End handlers.
