(* ===== verification/Layer3.v ===== *)
(** * Data layer 3 handlers ([handlers/data_layer_3])

    Delegations (with the bounded walk that resolves the agent behind a [self]
    delegation), skill loads, recipe runs and recipe steps. *)
From stdpp Require Import base list gmap strings sorting.
From Stdlib Require Import ZArith Lia.
From S2P Require Import Prelude PyText Sha256 Utils Json QueueFiles QueueManager.
From S2P Require Import GraphStore Services DefaultHandler Layer2.

(** ** [delegation.py] *)

Definition _MAX_SELF_DELEGATION_DEPTH : nat := 8.

Definition _discriminate_root_vs_unresolved (parent_session : option obj) : string :=
  let labels := match parent_session with Some o => labels_of o | None => [] end in
  if bool_decide ("RootSession" ∈ labels) then "root"
  else if bool_decide ("ForkedSession" ∈ labels) then "forked"
  else "unresolved".

Section handlers.
Context {G : Type} `{!GraphStore G} `{!Timestamps} `{!PyRepr}.
Abbreviation HM := (M (HookStateService G)).
Abbreviation WM := (M (Worker G)).

(** [max_depth] is the loop bound of the source, not added fuel. *)
Fixpoint resolve_loop (max_depth : nat) (workspace current_session_id : string)
    (visited : list string) : M G json :=
  match max_depth with
  | O => mret (JStr "unresolved")
  | S max_depth =>
    if decide (current_session_id ∈ visited) then mret (JStr "unresolved")
    else
      let! parent_delegation := find_delegation_by_sub_session current_session_id workspace in
      match parent_delegation with
      | None =>
        let! parent_session := get_node current_session_id in
        mret (JStr (_discriminate_root_vs_unresolved parent_session))
      | Some d =>
        let parent_agent := jget "agent" d in
        if jstr_is "self" parent_agent then
          let! next := mlift (str_field "parent_session_id" d) in
          match next with
          | None => mret (JStr "unresolved")
          | Some n => resolve_loop max_depth workspace n (current_session_id :: visited)
          end
        else mret (py_or parent_agent (JStr "unresolved"))
      end
  end.

Definition resolve_self_agent (parent_session_id workspace : string) : M G json :=
  resolve_loop _MAX_SELF_DELEGATION_DEPTH workspace parent_session_id [].

Definition delegation_of (parent_session_id tool_call_id : string) : string :=
  parent_session_id +:+ "::delegation::" +:+ tool_call_id.

Definition with_delegation_groups (gs : groups) (w : Worker G) : Worker G :=
  MkWorker (services w) (tool_parallel_groups w) gs (_active_skill_nodes w).

Definition join_delegation_group (group delegation_id : string) : WM unit :=
  let! w := mget in
  let members := group_members group (delegation_parallel_groups w) in
  mmodify (with_delegation_groups (dset group members (delegation_parallel_groups w))) ;;;
  mfor members (fun prior => svc (sst_edge delegation_id prior "PARALLEL_AGENT" "NEAR")) ;;;
  mmodify (with_delegation_groups (dset group (members ++ [delegation_id]) (delegation_parallel_groups w))).

Definition spawn_props (parent_session_id tool_call_id : string) (data : obj) (resolved : json) : obj :=
  let agent := jget_default "agent" (JStr "") data in
  let is_self := jstr_is "self" agent in
  [("labels", jstrs ["Delegation"; "SST_EVENT"]); ("agent", agent);
   ("parent_session_id", JStr parent_session_id);
   ("sub_session_id", jget_default "sub_session_id" (JStr "") data);
   ("tool_call_id", JStr tool_call_id); ("started_at", timestamp_of data);
   ("is_self_delegation", JBool is_self)]
  ++ opt_prop "parallel_group_id" (jget "parallel_group_id" data)
  ++ opt_prop "context_depth" (jget "context_depth" data)
  ++ opt_prop "context_scope" (jget "context_scope" data)
  ++ opt_prop "model_role" (jget "model_role" data)
  ++ (if is_self then [("resolved_agent", resolved)] else []).

Definition _handle_spawned (parent_session_id tool_call_id : string) (data : obj) : WM unit :=
  let timestamp := timestamp_of data in
  let agent := jget_default "agent" (JStr "") data in
  let parallel_group_id := jget "parallel_group_id" data in
  let delegation_id := delegation_of parent_session_id tool_call_id in
  let! w := mget in
  let! resolved_agent :=
    (if jstr_is "self" agent
     then svc (on_graph (resolve_self_agent parent_session_id (graph_workspace (graph (services w)))))
     else mret agent) in
  svc (on_graph (upsert_node delegation_id
         (spawn_props parent_session_id tool_call_id data resolved_agent))) ;;;
  let! agent_id := mlift (need_str resolved_agent) in
  svc (on_graph (upsert_node agent_id
         [("labels", jstrs ["Agent"; "SST_CONCEPT"]); ("agent", resolved_agent)])) ;;;
  let! sub_session_id := mlift (need_str (jget_default "sub_session_id" (JStr "") data)) in
  svc (ensure_session_node sub_session_id [("agent", agent)] None) ;;;
  svc (sst_edge sub_session_id agent_id "HAS_AGENT" "EXPRESSES") ;;;
  svc (sst_edge delegation_id sub_session_id "ENCOMPASSES" "CONTAINS") ;;;
  svc (sst_edge tool_call_id delegation_id "TRIGGERED" "LEADS_TO") ;;;
  mwhen (negb (is_none parallel_group_id))
    (let! g := mlift (need_str parallel_group_id) in join_delegation_group g delegation_id) ;;;
  let! w := mget in
  match active_recipe_step_id (data_layer_3 (services w)) with
  | Some step => svc (sst_edge step delegation_id "TRIGGERED" "LEADS_TO")
  | None => mret tt
  end ;;;
  svc (sourced_from delegation_id parent_session_id "delegate:agent_spawned" timestamp (Some tool_call_id)).

Definition delegation_enrichment (event : string) (timestamp : json) (data : obj) : obj :=
  if decide (event = "delegate:agent_completed") then [("ended_at", timestamp); ("success", JBool true)]
  else if decide (event = "delegate:agent_resumed") then [("resumed_at", timestamp)]
  else if decide (event = "delegate:agent_cancelled") then [("cancelled_at", timestamp)]
  else [("ended_at", timestamp); ("success", JBool false); ("error", jget "error" data)].

Definition _handle_lifecycle (parent_session_id tool_call_id event : string) (data : obj) : HM unit :=
  let timestamp := timestamp_of data in
  let delegation_id := delegation_of parent_session_id tool_call_id in
  on_graph (upsert_node delegation_id
    (("labels", jstrs ["Delegation"; "SST_EVENT"]) :: delegation_enrichment event timestamp data)) ;;;
  sourced_from delegation_id parent_session_id event timestamp (Some delegation_id).

Definition delegation_events : list string :=
  ["delegate:agent_spawned"; "delegate:agent_completed"; "delegate:agent_resumed";
   "delegate:agent_cancelled"; "delegate:error"].

Definition delegation_handler (event : string) (data : obj) : WM unit :=
  let! parent := mlift (str_field "parent_session_id" data) in
  match parent with
  | None => mret tt
  | Some parent_session_id =>
    let tool_call_id := py_or (jget "tool_call_id" data) (jget "sub_session_id" data) in
    if truthy tool_call_id then
      let! tid := mlift (need_str tool_call_id) in
      if decide (event = "delegate:agent_spawned") then _handle_spawned parent_session_id tid data
      else svc (_handle_lifecycle parent_session_id tid event data)
    else mret tt
  end.

(** ** [skill_load.py] *)

Definition with_skills (l : list (string * string)) (w : Worker G) : Worker G :=
  MkWorker (services w) (tool_parallel_groups w) (delegation_parallel_groups w) l.

Definition _handle_loaded (session_id skill_name : string) (data : obj) : WM unit :=
  let timestamp := timestamp_of data in
  let skill_load_id := session_id +:+ "::skill::" +:+ skill_name +:+ "::" +:+ py_str timestamp in
  svc (on_graph (upsert_node skill_load_id
    [("labels", jstrs ["SkillLoad"; "SST_EVENT"]); ("skill_name", JStr skill_name);
     ("started_at", timestamp); ("content_length", jget "content_length" data);
     ("source", jget "source" data); ("version", jget "version" data);
     ("context", jget "context" data);
     ("disable_model_invocation", jget "disable_model_invocation" data);
     ("user_invocable", jget "user_invocable" data);
     ("auto_loaded", jget_default "auto_loaded" (JBool false) data)])) ;;;
  let! w := mget in
  let parent_id := match active_iteration_id (data_layer_2 (services w)) with
                   | Some i => if decide (i = "") then session_id else i
                   | None => session_id
                   end in
  svc (sst_edge parent_id skill_load_id "HAS_SKILL_LOAD" "CONTAINS") ;;;
  mmodify (fun w => with_skills (dset skill_name skill_load_id (_active_skill_nodes w)) w) ;;;
  svc (sourced_from skill_load_id session_id "skill:loaded" timestamp (opt_str (jget "tool_call_id" data))).

Definition _handle_unloaded (session_id skill_name : string) (data : obj) : WM unit :=
  let! w := mget in
  mmodify (fun w => with_skills (ddel skill_name (_active_skill_nodes w)) w) ;;;
  match dget skill_name (_active_skill_nodes w) with
  | None => mret tt
  | Some skill_load_id =>
    let timestamp := timestamp_of data in
    svc (on_graph (upsert_node skill_load_id
           [("labels", jstrs ["SkillLoad"; "SST_EVENT"]); ("ended_at", timestamp)])) ;;;
    svc (sourced_from skill_load_id session_id "skill:unloaded" timestamp
           (opt_str (jget "tool_call_id" data)))
  end.

Definition skill_load_events : list string := ["skill:loaded"; "skill:unloaded"].

Definition skill_load_handler (event : string) (data : obj) : WM unit :=
  let! sid := mlift (session_of data) in
  let! name := mlift (str_field "skill_name" data) in
  match sid, name with
  | Some session_id, Some skill_name =>
    if decide (event = "skill:loaded") then _handle_loaded session_id skill_name data
    else _handle_unloaded session_id skill_name data
  | _, _ => mret tt
  end.

(** ** [recipe_run.py] *)

Definition with_stack (l : list string) (d : DataLayer3State) : DataLayer3State :=
  MkDL3 l (active_recipe_step_id d).
Definition with_step (v : option string) (d : DataLayer3State) : DataLayer3State :=
  MkDL3 (active_recipe_run_stack d) v.

(** [stack[-1]], [None] when the stack is empty *)
Definition top_run : HM (option string) :=
  let! s := mget in mret (last (active_recipe_run_stack (data_layer_3 s))).

Definition run_start_props (name timestamp : json) (parent : option string) (data : obj) : obj :=
  [("labels", jstrs ["RecipeRun"; "SST_EVENT"]); ("name", name); ("started_at", timestamp);
   ("total_steps", jget "total_steps" data); ("status", jget "status" data)]
  ++ match parent with
     | Some p => [("parent_session_id", JStr p); ("is_sub_recipe", JBool true)]
     | None => []
     end.

Definition run_handle_start (session_id : string) (data : obj) (source_event : string)
    (source_disambiguator : option string) : HM unit :=
  let timestamp := timestamp_of data in
  let name := jget_default "name" (JStr "") data in
  let! parent := mlift (str_field "parent_session_id" data) in
  let recipe_run_id := session_id +:+ "::recipe_run::" +:+ py_str timestamp in
  on_graph (upsert_node recipe_run_id (run_start_props name timestamp parent data)) ;;;
  let! recipe := mlift (need_str name) in
  on_graph (upsert_node recipe [("labels", jstrs ["Recipe"; "SST_CONCEPT"]); ("name", name)]) ;;;
  sst_edge session_id recipe_run_id "HAS_RECIPE_RUN" "CONTAINS" ;;;
  match parent with
  | Some p => ensure_session_node p [] None ;;;
              sst_edge p recipe_run_id "SPAWNED_RECIPE_RUN" "LEADS_TO"
  | None => mret tt
  end ;;;
  sst_edge recipe_run_id recipe "HAS_RECIPE" "EXPRESSES" ;;;
  sourced_from recipe_run_id session_id source_event timestamp source_disambiguator ;;;
  let! s := mget in
  match active_recipe_step_id (data_layer_3 s) with
  | Some step => sst_edge step recipe_run_id "SPAWNED" "LEADS_TO"
  | None => mret tt
  end ;;;
  modify_dl3 (fun d => with_stack (active_recipe_run_stack d ++ [recipe_run_id]) d).

Definition run_handle_complete (session_id : string) (data : obj) : HM unit :=
  let! top := top_run in
  match top with
  | None => mret tt
  | Some recipe_run_id =>
    let timestamp := timestamp_of data in
    on_graph (upsert_node recipe_run_id
      [("labels", jstrs ["RecipeRun"; "SST_EVENT"]); ("ended_at", timestamp);
       ("success", jget "success" data); ("final_status", jget "final_status" data)]) ;;;
    sourced_from recipe_run_id session_id "recipe:complete" timestamp None ;;;
    modify_dl3 (fun d => with_stack (removelast (active_recipe_run_stack d)) d) ;;;
    modify_dl3 (with_step None)
  end.

Definition run_handle_approval (session_id : string) (data : obj) : HM unit :=
  let! top := top_run in
  match top with
  | Some _ => mret tt
  | None => run_handle_start session_id data "recipe:approval" (opt_str (jget "stage_name" data))
  end.

Definition run_handle_loop_iteration (session_id : string) (data : obj) : HM unit :=
  let! top := top_run in
  match top with
  | None => mret tt
  | Some recipe_run_id =>
    on_graph (upsert_node recipe_run_id
      ([("labels", jstrs ["RecipeRun"; "SST_EVENT"]); ("last_loop_iteration_at", timestamp_of data)]
       ++ opt_prop "last_loop_step_id" (jget "step_id" data)
       ++ opt_prop "last_loop_iteration" (jget "iteration" data)
       ++ opt_prop "last_loop_max_iterations" (jget "max_iterations" data)))
  end.

Definition run_handle_loop_complete (session_id : string) (data : obj) : HM unit :=
  let! top := top_run in
  match top with
  | None => mret tt
  | Some recipe_run_id =>
    on_graph (upsert_node recipe_run_id
      ([("labels", jstrs ["RecipeRun"; "SST_EVENT"]); ("loop_completed_at", timestamp_of data)]
       ++ opt_prop "last_loop_iterations_completed" (jget "iterations_completed" data)
       ++ opt_prop "last_loop_results_count" (jget "results_count" data)))
  end.

Definition recipe_run_events : list string :=
  ["recipe:start"; "recipe:complete"; "recipe:approval"; "recipe:loop_iteration"; "recipe:loop_complete"].

Definition recipe_run_handler (event : string) (data : obj) : HM unit :=
  let! sid := mlift (session_of data) in
  match sid with
  | None => mret tt
  | Some session_id =>
    if decide (event = "recipe:start") then run_handle_start session_id data "recipe:start" None
    else if decide (event = "recipe:complete") then run_handle_complete session_id data
    else if decide (event = "recipe:approval") then run_handle_approval session_id data
    else if decide (event = "recipe:loop_iteration") then run_handle_loop_iteration session_id data
    else if decide (event = "recipe:loop_complete") then run_handle_loop_complete session_id data
    else mret tt
  end.

(** ** [recipe_step.py] *)

(** [c[k]] for a list or a dict; [None] stands for the [IndexError], [KeyError]
    or [TypeError] the caller catches.  (Indexing a string gives a string, on
    which the caller's second index raises [TypeError].) *)
Definition py_index (c k : json) : option json :=
  match c, k with
  | JArr l, JInt i =>
    let n := Z.of_nat (length l) in
    if (0 <=? i)%Z && (i <? n)%Z then l !! Z.to_nat i
    else if (- n <=? i)%Z && (i <? 0)%Z then l !! Z.to_nat (n + i)
    else None
  | JArr l, JBool b => l !! (if b then 1 else 0)
  | JObj o, JStr s => dget s o
  | _, _ => None
  end.

(** [data["steps"][current_step]["name"]], falling back to [str(current_step)] *)
Definition step_name_of (data : obj) (current_step : json) : json :=
  match py_index (jget "steps" data) current_step with
  | Some (JObj step) => match dget "name" step with Some n => n | None => JStr (py_str current_step) end
  | _ => JStr (py_str current_step)
  end.

Definition has_step (run_id step_id : string) : HM unit := sst_edge run_id step_id "HAS_STEP" "CONTAINS".

(** Clear the cursor, then run the body under the innermost active run. *)
Definition with_active_run (body : string -> HM unit) : HM unit :=
  modify_dl3 (with_step None) ;;;
  let! top := top_run in
  match top with None => mret tt | Some run_id => body run_id end.

Definition step_handle_step (session_id : string) (data : obj) : HM unit :=
  with_active_run (fun run_id =>
    let timestamp := timestamp_of data in
    let current_step := jget_default "current_step" (JInt 0) data in
    let step_id := run_id +:+ "::step::" +:+ py_str current_step in
    on_graph (upsert_node step_id
      [("labels", jstrs ["RecipeStep"; "SST_EVENT"]); ("name", step_name_of data current_step);
       ("started_at", timestamp); ("current_step", current_step)]) ;;;
    has_step run_id step_id ;;;
    sourced_from step_id session_id "recipe:step" timestamp (Some (py_str current_step)) ;;;
    modify_dl3 (with_step (Some step_id))).

Definition step_handle_approval (session_id : string) (data : obj) : HM unit :=
  with_active_run (fun run_id =>
    let timestamp := timestamp_of data in
    let stage_name := jget_default "stage_name" (JStr "") data in
    let step_id := run_id +:+ "::step::" +:+ py_str stage_name in
    on_graph (upsert_node step_id
      ([("labels", jstrs ["RecipeStep"; "SST_EVENT"]); ("stage_name", stage_name);
        ("name", stage_name); ("started_at", timestamp)]
       ++ opt_prop "prompt" (jget "prompt" data))) ;;;
    has_step run_id step_id ;;;
    sourced_from step_id session_id "recipe:approval" timestamp (opt_str stage_name) ;;;
    modify_dl3 (with_step (Some step_id))).

Definition step_handle_loop_iteration (session_id : string) (data : obj) : HM unit :=
  with_active_run (fun run_id =>
    let timestamp := timestamp_of data in
    let loop_step_id := jget_default "step_id" (JStr "") data in
    let iteration := jget "iteration" data in
    let node_key := run_id +:+ "::step::" +:+ py_str loop_step_id +:+ "::loop::" +:+ py_str iteration in
    on_graph (upsert_node node_key
      [("labels", jstrs ["RecipeStep"; "SST_EVENT"]);
       ("name", JStr ("loop iteration " +:+ py_str iteration)); ("step_id", loop_step_id);
       ("iteration", iteration); ("max_iterations", jget "max_iterations" data);
       ("started_at", timestamp)]) ;;;
    has_step run_id node_key ;;;
    sourced_from node_key session_id "recipe:loop_iteration" timestamp
      (Some (py_str loop_step_id +:+ "_" +:+ py_str iteration)) ;;;
    modify_dl3 (with_step (Some node_key))).

Definition step_handle_tool_pre (data : obj) : HM unit :=
  let! s := mget in
  let tool_call_id := jget "tool_call_id" data in
  match active_recipe_step_id (data_layer_3 s) with
  | Some step =>
    mwhen (negb (is_none tool_call_id))
      (let! t := mlift (need_str tool_call_id) in sst_edge step t "TRIGGERED" "LEADS_TO")
  | None => mret tt
  end.

Definition recipe_step_events : list string :=
  ["recipe:step"; "recipe:approval"; "recipe:loop_iteration"; "tool:pre"].

Definition recipe_step_handler (event : string) (data : obj) : HM unit :=
  let session_id := py_str (jget_default "session_id" (JStr "") data) in
  if decide (event = "recipe:step") then step_handle_step session_id data
  else if decide (event = "recipe:approval") then step_handle_approval session_id data
  else if decide (event = "recipe:loop_iteration") then step_handle_loop_iteration session_id data
  else if decide (event = "tool:pre") then step_handle_tool_pre data
  else mret tt.
End handlers.
