(* ===== verification/Pipeline.v ===== *)
(** * The event pipeline ([pipeline.py], [blob_processor.py])

    One event: the session safety net, the offloading of large payload fields
    to the blob store, the default handler, the enrichers that claim the event,
    and the session's [last_updated].  The blob store is a class; it is code of
    its own with several backends. *)
From stdpp Require Import base list gmap strings sorting.
From Stdlib Require Import ZArith Lia.
From S2P Require Import Prelude PyText Sha256 Utils Json QueueFiles QueueManager.
From S2P Require Import GraphStore Services DefaultHandler Layer2 Layer3.

(** ** Blob offloading *)

Definition BLOB_FIELDS : list string :=
  ["raw"; "result"; "messages"; "mount_plan"; "context_snapshot"; "debug"].

(** A frozenset has no fixed iteration order: the store's run picks one. *)
Class BlobStore (B : Type) := {
  blob_write : string -> string -> json -> M B string;
  blob_enabled : bool;           (** [services.blob_store] is set *)
  blob_field_order : list string;
  blob_order_perm : Permutation blob_field_order BLOB_FIELDS;
  exn_str : exn -> string;       (** [str(exc)] *)
}.

Definition lift_raw_field (raw data : obj) (field : string) : obj :=
  match dget field raw with
  | Some v => if dmem field data then data else dset field v data
  | None => data
  end.

Definition _lift_raw_fields (data : obj) : result obj :=
  match jget "raw" data with
  | JObj raw =>
    let data := lift_raw_field raw (lift_raw_field raw data "stop_reason") "finish_reason" in
    match jget "usage" raw with
    | JObj raw_usage =>
      match py_or (jget "usage" data) (JObj []) with
      | JObj top_usage => Ok (dset "usage" (JObj (dupdate raw_usage top_usage)) data)
      | _ => Err TypeError
      end
    | _ => Ok data
    end
  | _ => Ok data
  end.

(** ** The worker's state with its blob store *)

Record Pipe (G B : Type) := MkPipe { worker : Worker G; blobs : B }.
Arguments MkPipe {G B}. Arguments worker {G B}. Arguments blobs {G B}.

Section pipeline.
Context {G : Type} `{!GraphStore G} {B : Type} `{!BlobStore B} `{!Timestamps} `{!PyRepr}.
Abbreviation WM := (M (Worker G)).
Abbreviation PM := (M (Pipe G B)).

Definition on_worker {A} (m : WM A) : PM A := fun p =>
  let '(r, w) := m (worker p) in (r, MkPipe w (blobs p)).
Definition on_blobs {A} (m : M B A) : PM A := fun p =>
  let '(r, b) := m (blobs p) in (r, MkPipe (worker p) b).

(** What replaces an offloaded field *)
Definition blob_ref (uri : string) : json := JObj [("$blob_ref", JStr uri)].
Definition blob_error (e : exn) : json := JObj [("$blob_error", JStr ("write failed: " +:+ exn_str e))].

Definition offload_field (session_id node_id : string) (data : obj) (field_name : string) : PM obj :=
  let value := jget field_name data in
  if is_none value then mret data
  else
    let key := node_id +:+ "__" +:+ field_name in
    mcatch (let! uri := on_blobs (blob_write session_id key value) in
            mret (dset field_name (blob_ref uri) data))
      (fun e => if is_Exception e then mret (dset field_name (blob_error e) data) else mraise e).

Fixpoint offload_fields (session_id node_id : string) (data : obj) (fields : list string) : PM obj :=
  match fields with
  | [] => mret data
  | f :: fields => let! data := offload_field session_id node_id data f in
                   offload_fields session_id node_id data fields
  end.

Definition process_event_data (data : obj) (session_id node_id : string) : PM obj :=
  let! data := mlift (_lift_raw_fields data) in
  offload_fields session_id node_id data blob_field_order.

(** ** Dispatch *)

(** [setup_handlers]: claimed events and handler of each enricher, in dispatch
    order *)
Definition enrichers : list (list string * (string -> obj -> WM unit)) :=
  [(session_events, fun e d => svc (session_handler e d));
   (orchestrator_run_events, fun e d => svc (orchestrator_run_handler e d));
   (iteration_events, fun e d => svc (iteration_handler e d));
   (content_block_events, fun e d => svc (content_block_handler e d));
   (tool_call_events, tool_call_handler);
   (prompt_events, fun e d => svc (prompt_handler e d));
   (cancellation_events, fun e d => svc (cancellation_handler e d));
   (context_compaction_events, fun e d => svc (context_compaction_handler e d));
   (delegation_events, delegation_handler);
   (skill_load_events, skill_load_handler);
   (recipe_run_events, fun e d => svc (recipe_run_handler e d));
   (recipe_step_events, fun e d => svc (recipe_step_handler e d))].

Definition run_enrichers (event : string) (data : obj) : WM unit :=
  mfor enrichers (fun h => mwhen (bool_decide (event ∈ h.1)) (h.2 event data)).

Definition blob_step (session_id event : string) (timestamp : json) (data : obj) : PM obj :=
  let! ts := mlift (need_str timestamp) in
  let! n := on_worker (svc (node_id session_id event ts None)) in
  process_event_data data session_id n.

(** Steps 2 to 6 of [process_event] *)
Definition process_steps (event : string) (data : obj) (working_dir : option json) : PM unit :=
  let! sid := mlift (session_of data) in
  match sid with
  | Some session_id => on_worker (svc (ensure_session_node session_id data working_dir))
  | None => mret tt
  end ;;;
  let timestamp := jget "timestamp" data in
  let! data := (match sid with
                | Some session_id => if truthy timestamp && blob_enabled
                                     then blob_step session_id event timestamp data else mret data
                | None => mret data
                end) in
  on_worker (svc (default_handler event data)) ;;;
  on_worker (run_enrichers event data) ;;;
  match sid with
  | Some session_id => mwhen (truthy timestamp) (on_worker (svc (touch_session session_id timestamp)))
  | None => mret tt
  end.

Definition set_event_identity (identity : option string) : PM unit :=
  on_worker (svc (mmodify (with_identity identity))).

(** [finally: reset_event_identity(token)] on every exit.  Data that is not a
    dict reaches the default handler, whose [data.get] raises. *)
Definition process_event (event : string) (data : json) (working_dir : option json)
    (identity : option string) : PM unit :=
  let! p := mget in
  let token := event_identity (services (worker p)) in
  set_event_identity identity ;;;
  mcatch (match data with
          | JObj o => process_steps event o working_dir
          | _ => mraise AttributeError
          end)
    (fun e => set_event_identity token ;;; mraise e) ;;;
  set_event_identity token.
End pipeline.
