(* ===== verification/SessionSpec.v ===== *)
(** * Session lifecycle: the label lattice

    The session handler implements an abstract four-state machine (bare, root,
    sub, forked) whose type only ever rises, so the final type of a session
    does not depend on the order in which its lifecycle events arrive.  Handling
    [session:end] twice, which the drainer does, is the same as once. *)
From stdpp Require Import base list gmap strings sorting.
From Stdlib Require Import ZArith Lia.
From S2P Require Import Prelude PyText Sha256 Utils Json QueueFiles QueueManager.
From S2P Require Import GraphStore Services DefaultHandler Layer2.

(** ** The abstract machine *)

Inductive stype := Bare (stub : bool) | Root | Sub | Forked.
Inductive lifecycle := Start (has_parent : bool) | Fork | End.

Definition astep (st : stype) (k : lifecycle) : stype :=
  match k, st with
  | Start hp, Bare _ => if hp then Sub else Root
  | Start true, Root => Sub
  | Fork, _ => Forked
  | End, Bare _ => Bare false
  | _, _ => st
  end.

Definition rank (st : stype) : nat :=
  match st with Bare _ => 0 | Root => 1 | Sub => 2 | Forked => 3 end.
Definition krank (k : lifecycle) : nat :=
  match k with End => 0 | Start false => 1 | Start true => 2 | Fork => 3 end.

Lemma rank_astep st k : rank (astep st k) = Nat.max (rank st) (krank k).
Proof. destruct k as [[]| |], st; reflexivity. Qed.

Lemma rank_fold ks st : rank (fold_left astep ks st) = foldr Nat.max (rank st) (map krank ks).
Proof.
  revert st. induction ks as [|k ks IH]; intros st; simpl; [done|]. rewrite IH, rank_astep.
  clear IH. induction ks as [|k' ks IH]; simpl; lia.
Qed.

(** ** What a label list says *)

Definition tracked : list string := ["RootSession"; "SubSession"; "ForkedSession"; "StubSession"].

Definition marks (st : stype) : list string :=
  match st with
  | Bare stub => if stub then ["StubSession"] else []
  | Root => ["RootSession"] | Sub => ["SubSession"] | Forked => ["ForkedSession"]
  end.

(** Among the four tracked labels the node carries exactly those of [st]: at
    most one session type, and the stub marker only while there is none. *)
Definition describes (st : stype) (labels : list string) : Prop :=
  forall l, l ∈ tracked -> (l ∈ labels <-> l ∈ marks st).

Definition type_label (st : stype) : option string :=
  match st with
  | Bare _ => None | Root => Some "RootSession" | Sub => Some "SubSession" | Forked => Some "ForkedSession"
  end.

Ltac in_list := repeat (rewrite elem_of_cons; first [left; reflexivity | right]).
Lemma describes_type st labels : describes st labels -> _current_type labels = type_label st.
Proof.
  intros Hd. unfold _current_type.
  assert (H : forall l, l ∈ tracked -> bool_decide (l ∈ labels) = bool_decide (l ∈ marks st)).
  { intros l Hl. apply bool_decide_ext, Hd, Hl. }
  rewrite !H by (unfold tracked; in_list). by destruct st as [[]| | |].
Qed.

Definition event_word (k : lifecycle) : string :=
  match k with Start _ => "start" | Fork => "fork" | End => "end" end.

(** The label machine, in each abstract state, moves the tracked labels to those
    of the next abstract state. *)
Lemma classify_spec st k hp :
  (forall b, k = Start b -> b = hp) ->
  exists t, classify (type_label st) (event_word k) hp = Ok t
  /\ forall l, l ∈ tracked ->
       (l ∈ marks st /\ l ∉ remove t \/ l ∈ add t) <-> l ∈ marks (astep st k).
Proof.
  intros Hk. assert (Hb := fun b => Hk b). clear Hk.
  destruct k as [b| |]; [rewrite (Hb b eq_refl)|..]; clear Hb;
    (destruct st as [[]| | |], hp; eexists; (split; [vm_compute; reflexivity|]);
     intros l Hl; unfold tracked in Hl; repeat (apply elem_of_cons in Hl as [-> |Hl]);
     try (by apply elem_of_nil in Hl);
     match goal with |- ?A <-> ?B => apply (bool_decide_unpack (A <-> B)); vm_compute; exact I end).
Qed.

(** ** The handlers on the in-memory store *)

Section spec.
Context `{!Timestamps}.
Implicit Types s : HookStateService GraphState.

(** The session's node is in abstract state [st]. *)
Definition in_state (sid : string) (st : stype) s : Prop :=
  exists o, node_of s sid = Some o /\ describes st (labels_of o).

Definition never {A B} : A -> B -> Prop := fun _ _ => False.

Abbreviation holds sid st m := (triple (in_state sid st) m (fun _ => in_state sid st) never).

Lemma holds_seq sid st st' {A} (m1 : M (HookStateService GraphState) A)
    (m2 : M (HookStateService GraphState) unit) :
  holds sid st m1 -> triple (in_state sid st) m2 (fun _ => in_state sid st') never ->
  triple (in_state sid st) (m1 ;;; m2) (fun _ => in_state sid st') never.
Proof. intros H1 H2. eapply triple_bind; [exact H1|]. intros ?. exact H2. Qed.

Lemma holds_ret sid st : holds sid st (mret tt).
Proof. apply (triple_ret tt (fun _ => in_state sid st)). Qed.

Lemma holds_when sid st b m : holds sid st m -> holds sid st (mwhen b m).
Proof. destruct b; [done|]. intros _. apply holds_ret. Qed.

Lemma upsert_holds sid st n data :
  NoDup (dkeys data) ->
  (forall l, l ∈ tracked -> l ∈ str_items (jget_default "labels" (JArr []) data) -> l ∈ marks st) ->
  holds sid st (on_graph (upsert_node n data)).
Proof.
  intros Hnd Hl s (o & Ho & Hd). unfold on_graph. simpl. unfold in_state, node_of in *. simpl.
  rewrite dget_dset. destruct (decide (sid = n)) as [<-|]; [|by exists o].
  eexists. split; [done|]. unfold node. rewrite Ho. intros l Ht. rewrite merge_node_labels by done.
  unfold merged_labels. specialize (Hl l Ht). unfold jget_default in Hl.
  destruct (dget "labels" data) as [ls|]; [|by apply Hd].
  rewrite elem_of_label_union, (Hd l Ht). tauto.
Qed.

Lemma edge_holds sid st src dst data : holds sid st (on_graph (upsert_edge src dst data)).
Proof. intros s Hs. exact Hs. Qed.

Lemma remove_edge_holds sid st src dst : holds sid st (on_graph (remove_edge src dst)).
Proof. intros s Hs. exact Hs. Qed.

(** No tracked label among fixed ones *)
Lemma untracked (ls : list string) st :
  forallb (fun l => negb (bool_decide (l ∈ tracked))) ls = true ->
  forall l, l ∈ tracked -> l ∈ ls -> l ∈ marks st.
Proof.
  rewrite forallb_forall. intros Hu l Ht Hl. specialize (Hu l (proj1 (list_elem_of_In _ _) Hl)).
  by rewrite bool_decide_eq_true_2 in Hu.
Qed.

Lemma ensure_holds sid st p data wd : holds sid st (ensure_session_node p data wd).
Proof.
  intros s (o & Ho & Hd). assert (Hs := ensure_session_node_sound s p data wd).
  destruct (ensure_session_node p data wd s) as [r s']. destruct Hs as (-> & Hlab & Hoth).
  destruct (decide (sid = p)) as [<-|Hne].
  - destruct (Hlab o Ho) as (o' & Ho' & Hsub & Hl). exists o'. split; [done|].
    intros l Ht. rewrite <- (Hd l Ht). split; [|apply Hsub].
    intros [|Hs]%Hl; [done|]. exfalso. subst l.
    by apply (bool_decide_unpack ("Session" ∉ tracked)) in Ht.
  - exists o. by rewrite Hoth.
Qed.

Lemma sourced_holds sid st src session_id event ts t d :
  fromisoformat ts = Some t ->
  holds sid st (sourced_from src session_id event (JStr ts) d).
Proof.
  intros Ht s Hs. unfold sourced_from, mbind, mlift, need_str, node_id, make_node_id. rewrite Ht. exact Hs.
Qed.

Lemma transition_holds sid st st' t :
  (forall l, l ∈ tracked -> (l ∈ marks st /\ l ∉ remove t \/ l ∈ add t) <-> l ∈ marks st') ->
  triple (in_state sid st) (apply_transition sid t) (fun _ => in_state sid st') never.
Proof.
  intros Ht s (o & Ho & Hd). unfold apply_transition.
  case_bool_decide as He; simpl.
  - exists o. split; [done|]. intros l Hl. rewrite <- (Ht l Hl), (Hd l Hl).
    destruct He as [-> ->]. set_solver.
  - unfold in_state, node_of in *. simpl. rewrite dget_dset_eq. eexists. split; [done|].
    unfold node. rewrite Ho. intros l Hl. unfold labels_of at 1, jget_default.
    rewrite dget_dset_eq, str_items_jstrs, elem_of_label_union, list_elem_of_filter, (Hd l Hl), <- (Ht l Hl).
    tauto.
Qed.

Lemma node_labels_spec sid st st' (K : list string -> M (HookStateService GraphState) unit) :
  (forall labels, describes st labels ->
     triple (in_state sid st) (K labels) (fun _ => in_state sid st') never) ->
  triple (in_state sid st) (mbind (node_labels sid) K) (fun _ => in_state sid st') never.
Proof.
  intros HK s Hs. destruct Hs as (o & Ho & Hd). unfold node_of in Ho.
  unfold node_labels, mbind, on_graph. simpl. rewrite Ho. simpl.
  apply (HK (labels_of o) Hd (with_graph (graph s) s)). by exists o.
Qed.

(** The lineage tail of a start or fork handler *)
Lemma lineage_holds sid st p n type ts :
  holds sid st (ensure_session_node p [] None ;;; lineage_edge p n type ts).
Proof. apply holds_seq; [apply ensure_holds|apply edge_holds]. Qed.

Lemma start_spec sid st data p ts t :
  _parent_of data = Ok p -> fromisoformat ts = Some t ->
  triple (in_state sid st) (session_handle_start sid (JStr ts) data)
    (fun _ => in_state sid (astep st (Start (bool_decide (p <> ""))))) never.
Proof.
  intros Hp Ht. unfold session_handle_start. rewrite Hp. apply triple_lift_ok.
  apply node_labels_spec. intros labels Hd. rewrite (describes_type st labels Hd).
  apply holds_seq; [apply upsert_holds; [by apply (bool_decide_unpack _)|by apply untracked]|].
  apply holds_seq; [by eapply sourced_holds|].
  destruct (classify_spec st (Start (bool_decide (p <> ""))) (bool_decide (p <> ""))) as (tr & Hc & Htr);
    [congruence|].
  simpl event_word in Hc. rewrite Hc. apply triple_lift_ok.
  eapply triple_bind; [by apply transition_holds|]. intros ?. apply holds_when, lineage_holds.
Qed.

Lemma mount_plan_holds sid st n : holds sid st (_create_mount_plan sid n).
Proof.
  unfold _create_mount_plan. apply holds_seq; [apply upsert_holds; [by apply (bool_decide_unpack _)|by apply untracked]|].
  apply holds_seq; apply edge_holds.
Qed.

Lemma fork_spec sid st data p ts t :
  _parent_of data = Ok p -> fromisoformat ts = Some t ->
  triple (in_state sid st) (session_handle_fork sid (JStr ts) data)
    (fun _ => in_state sid (astep st Fork)) never.
Proof.
  intros Hp Ht. unfold session_handle_fork. rewrite Hp. apply triple_lift_ok.
  eapply triple_bind with (Q := fun _ => in_state sid st); [intros s Hs; exact Hs|]. intros s0. simpl.
  apply node_labels_spec. intros labels Hd. rewrite (describes_type st labels Hd).
  apply holds_seq; [apply upsert_holds; [by apply (bool_decide_unpack _)|by apply untracked]|].
  apply triple_lift_ok. eapply triple_bind with (Q := fun _ => in_state sid st).
  { intros s Hs. unfold node_id, make_node_id. by rewrite Ht. }
  intros n. apply holds_seq; [apply edge_holds|].
  destruct (classify_spec st Fork (bool_decide (p <> ""))) as (tr & Hc & Htr); [done|].
  simpl event_word in Hc. rewrite Hc. apply triple_lift_ok.
  eapply triple_bind; [by apply transition_holds|]. intros ?.
  apply holds_seq; [|apply mount_plan_holds]. apply holds_when.
  apply holds_seq; [apply holds_when, remove_edge_holds|apply lineage_holds].
Qed.

Lemma NoDup_end_props sid p ts labels : NoDup (dkeys (end_props sid p ts labels)).
Proof. unfold end_props. case_decide; by apply (bool_decide_unpack _). Qed.

Lemma end_spec sid st data p ts t :
  _parent_of data = Ok p -> fromisoformat ts = Some t ->
  triple (in_state sid st) (session_handle_end sid (JStr ts) data)
    (fun _ => in_state sid (astep st End)) never.
Proof.
  intros Hp Ht. unfold session_handle_end. apply node_labels_spec. intros labels Hd.
  rewrite Hp. apply triple_lift_ok. rewrite (describes_type st labels Hd).
  apply holds_seq.
  { apply upsert_holds; [apply NoDup_end_props|]. intros l Hl. unfold jget_default.
    assert (dget "labels" (end_props sid p (JStr ts) labels) = Some (jstrs ("Session" :: "SST_EVENT" :: labels)))
      as -> by reflexivity.
    rewrite str_items_jstrs, !elem_of_cons. intros [->|[->|Hin]].
    - by apply (bool_decide_unpack ("Session" ∉ tracked)) in Hl.
    - by apply (bool_decide_unpack ("SST_EVENT" ∉ tracked)) in Hl.
    - by apply Hd. }
  apply holds_seq; [by eapply sourced_holds|].
  destruct (classify_spec st End (bool_decide (p <> ""))) as (tr & Hc & Htr); [done|].
  simpl event_word in Hc. rewrite Hc. apply triple_lift_ok. by apply transition_holds.
Qed.

(** ** Order independence *)

(** A well-formed lifecycle event of session [sid], and the abstract step it is *)
Definition lifecycle_event (sid : string) (e : string * obj) (k : lifecycle) : Prop :=
  jget "session_id" e.2 = JStr sid /\ sid <> ""
  /\ (exists ts t, timestamp_of e.2 = JStr ts /\ fromisoformat ts = Some t)
  /\ exists p, _parent_of e.2 = Ok p
     /\ match k with
        | Start hp => e.1 = "session:start" /\ hp = bool_decide (p <> "")
        | Fork => e.1 = "session:fork"
        | End => e.1 = "session:end"
        end.

Lemma session_handler_step sid st e k :
  lifecycle_event sid e k ->
  triple (in_state sid st) (session_handler e.1 e.2) (fun _ => in_state sid (astep st k)) never.
Proof.
  intros (Hsid & Hne & (ts & t & Hts & Ht) & p & Hp & Hk). unfold session_handler, session_of.
  rewrite Hsid, decide_False by done. apply triple_lift_ok. rewrite Hts.
  destruct k as [hp| |]; [destruct Hk as [-> ->]|rewrite Hk..].
  - rewrite decide_True by done. by eapply start_spec.
  - rewrite decide_False, decide_True by done. by eapply fork_spec.
  - rewrite !decide_False, decide_True by done. by eapply end_spec.
Qed.

Lemma session_run sid st evs ks :
  Forall2 (lifecycle_event sid) evs ks ->
  triple (in_state sid st) (mfor evs (fun e => session_handler e.1 e.2))
    (fun _ => in_state sid (fold_left astep ks st)) never.
Proof.
  intros HF. revert st. induction HF as [|e k evs ks He HF IH]; intros st; simpl.
  - apply holds_ret.
  - eapply triple_bind; [by apply session_handler_step|]. intros ?. apply IH.
Qed.

(** C7: the session type converges.  Handling any sequence of well-formed
    lifecycle events of a session whose node is in a clean state succeeds and
    implements the abstract machine: the node always carries at most one of
    [RootSession], [SubSession], [ForkedSession] and the stub marker only while
    it has none; and the final type is the highest one any event asked for
    (fork over start with a parent over start), whatever the order of arrival. *)
Theorem session_type_converges s sid st evs ks :
  in_state sid st s -> Forall2 (lifecycle_event sid) evs ks ->
  exists s', mfor evs (fun e => session_handler e.1 e.2) s = (Ok tt, s')
    /\ in_state sid (fold_left astep ks st) s'
    /\ rank (fold_left astep ks st) = foldr Nat.max (rank st) (map krank ks).
Proof.
  intros Hs HF. assert (Hr := session_run sid st evs ks HF s Hs).
  destruct (mfor evs _ s) as [[[]|e] s']; [|done]. exists s'.
  split; [done|]. split; [done|]. apply rank_fold.
Qed.

(** ** [session:end] twice *)

(** A node after its session ended: a second end would write nothing new. *)
Definition ended (sid p : string) (ts : json) (o : obj) : Prop :=
  (exists a b, dget "labels" o = Some (jstrs (label_union a b)))
  /\ "Session" ∈ labels_of o /\ "SST_EVENT" ∈ labels_of o
  /\ (forall k v, (k, v) ∈ end_props sid p ts [] -> plain_key k -> dget k o = Some v)
  /\ (_current_type (labels_of o) = None -> "IncompleteSession" ∈ labels_of o /\ "StubSession" ∉ labels_of o).

Lemma end_props_plain sid p ts ls ls' k v :
  plain_key k -> (k, v) ∈ end_props sid p ts ls -> (k, v) ∈ end_props sid p ts ls'.
Proof.
  intros [Hk _]. unfold end_props. cbn [app]. rewrite !elem_of_cons. intros [Heq|Hr]; [congruence|by right].
Qed.

Lemma merge_node_fixed o data ls :
  dget "status_if_absent" data = None -> dget "labels" data = Some (jstrs ls) ->
  (exists a b, dget "labels" o = Some (jstrs (label_union a b))) ->
  (forall l, l ∈ ls -> l ∈ labels_of o) ->
  (forall k v, (k, v) ∈ data -> plain_key k -> dget k o = Some v) -> merge_node o data = o.
Proof.
  intros Hsia Hlab (a & b & Ho) Hsub Hp. unfold merge_node. cbv zeta.
  assert (Hlo : labels_of o = label_union a b).
  { unfold labels_of, jget_default. by rewrite Ho, str_items_jstrs. }
  rewrite Hlab, str_items_jstrs.
  assert (label_union (labels_of o) ls = label_union a b) as ->.
  { apply label_union_ext. intros x. rewrite Hlo in Hsub |- *. specialize (Hsub x).
    rewrite elem_of_label_union in Hsub |- *. tauto. }
  rewrite (dset_id "labels") by done. rewrite copy_props_id by done.
  unfold jget at 1. by rewrite Hsia.
Qed.

Lemma end_again sid ts data p n e s o :
  _parent_of data = Ok p -> node_of s sid = Some o -> ended sid p (JStr ts) o ->
  make_node_id (event_identity s) sid "session:end" ts None = Ok n ->
  dget (sid, n) (_edges (graph s)) = Some e -> dget "type" e = Some (JStr "SOURCED_FROM") ->
  session_handle_end sid (JStr ts) data s = (Ok tt, s).
Proof.
  intros Hp Ho (Hcan & Hs & Hsst & Hprops & Hinc) Hn He Hty.
  assert (Hm : merge_node o (end_props sid p (JStr ts) (labels_of o)) = o).
  { apply (merge_node_fixed o _ ("Session" :: "SST_EVENT" :: labels_of o)); try done.
    - unfold end_props. by case_decide.
    - intros l. rewrite !elem_of_cons. intros [->|[->|?]]; done.
    - intros k v Hin Hk. apply Hprops; [|done]. eapply end_props_plain; done. }
  unfold node_of in Ho.
  assert (Hg : forall g, g = graph s -> with_nodes (dset sid (merge_node (node g sid)
      (end_props sid p (JStr ts) (labels_of o))) (_nodes g)) g = g).
  { intros g ->. unfold node. rewrite Ho, Hm, dset_id by done. by destruct (graph s). }
  unfold session_handle_end, node_labels, mbind, on_graph, mlift, mret.
  cbn [get_node GraphState_store gs_get_node fst snd]. unfold gs_get_node. rewrite Ho. rewrite Hp.
  cbn [graph with_graph upsert_node GraphState_store]. unfold gs_upsert_node, mmodify.
  rewrite Hg by done. unfold sourced_from, mbind, mlift, need_str, node_id.
  cbn [event_identity with_graph graph]. rewrite Hn. unfold on_graph.
  cbn [upsert_edge GraphState_store with_graph graph]. unfold gs_upsert_edge, mmodify. rewrite He.
  assert (dupdate e [("type", JStr "SOURCED_FROM")] = e) as -> by (simpl; by apply dset_id).
  rewrite dset_id by done.
  assert (He1 : with_edges (_edges (graph s)) (graph s) = graph s) by (by destruct (graph s)).
  rewrite He1.
  assert (Hw : with_graph (graph s) s = s) by (by destruct s). rewrite !Hw.
  destruct (_current_type (labels_of o)) eqn:Hct.
  { by assert (classify (Some s0) "end" (bool_decide (p <> "")) = Ok no_transition) as -> by reflexivity. }
  assert (classify None "end" (bool_decide (p <> ""))
    = Ok (MkTransition ["IncompleteSession"; "SST_EVENT"] ["StubSession"])) as -> by reflexivity.
  destruct (Hinc eq_refl) as [Hin Hstub]. unfold apply_transition. rewrite bool_decide_eq_false_2 by naive_solver.
  cbn [mwhen negb]. unfold on_graph. cbn [set_labels GraphState_store]. unfold gs_set_labels, mmodify.
  unfold node. rewrite Ho. cbn [remove add].
  rewrite (dset_id "labels").
  { rewrite dset_id by done. unfold with_graph, with_nodes. by destruct s as [[]]. }
  destruct Hcan as (a & b & Hl). rewrite Hl. f_equal. f_equal.
  assert (Hlo : labels_of o = label_union a b).
  { unfold labels_of, jget_default. by rewrite Hl, str_items_jstrs. }
  apply label_union_ext. intros x. rewrite Hlo in Hin, Hsst, Hstub |- *.
  rewrite elem_of_label_union in Hin, Hsst, Hstub.
  rewrite list_elem_of_filter, elem_of_label_union, !elem_of_cons, !elem_of_nil.
  destruct (decide (x = "StubSession")) as [->|]; naive_solver.
Qed.

(** The labels an end leaves *)
Lemma end_labels_type L0 L1 :
  (forall l, l ∈ _TYPE_LABELS -> (l ∈ L1 <-> l ∈ L0)) -> _current_type L1 = _current_type L0.
Proof.
  intros Hx. unfold _current_type.
  assert (Hb : forall l, l ∈ _TYPE_LABELS -> bool_decide (l ∈ L1) = bool_decide (l ∈ L0))
    by (intros l Hl; by apply bool_decide_ext, Hx).
  by rewrite !Hb by (unfold _TYPE_LABELS; in_list).
Qed.

Lemma filter_not_stub (ls : list string) l :
  l ∈ label_union (base.filter (fun x => x ∉ ["StubSession"]) ls) ["IncompleteSession"; "SST_EVENT"]
  <-> (l ∈ ls /\ l <> "StubSession") \/ l = "IncompleteSession" \/ l = "SST_EVENT".
Proof.
  rewrite elem_of_label_union, list_elem_of_filter, !elem_of_cons, elem_of_nil. naive_solver.
Qed.

Lemma end_ended sid ts data s s' :
  session_handle_end sid (JStr ts) data s = (Ok tt, s') ->
  exists p o n e, _parent_of data = Ok p /\ node_of s' sid = Some o /\ ended sid p (JStr ts) o
    /\ make_node_id (event_identity s') sid "session:end" ts None = Ok n
    /\ dget (sid, n) (_edges (graph s')) = Some e /\ dget "type" e = Some (JStr "SOURCED_FROM").
Proof.
  unfold session_handle_end, node_labels, mbind, on_graph, mlift, mret.
  cbn [get_node GraphState_store fst snd]. unfold gs_get_node.
  set (L0 := match dget sid (_nodes (graph s)) with Some o => labels_of o | None => [] end).
  destruct (_parent_of data) as [p|] eqn:Hp; [|done].
  cbn [graph with_graph upsert_node GraphState_store]. unfold gs_upsert_node, mmodify.
  set (o1 := merge_node (node (graph s) sid) (end_props sid p (JStr ts) L0)).
  unfold sourced_from, mbind, mlift, need_str, node_id. cbn [event_identity with_graph graph].
  destruct (make_node_id (event_identity s) sid "session:end" ts None) as [n|] eqn:Hn; [|done].
  unfold on_graph. cbn [upsert_edge GraphState_store with_graph graph]. unfold gs_upsert_edge, mmodify.
  assert (Hn0 : labels_of (node (graph s) sid) = L0)
    by (unfold node, L0; by destruct (dget sid (_nodes (graph s)))).
  assert (Hk1 : dget "labels" o1 = Some (jstrs (label_union L0 ("Session" :: "SST_EVENT" :: L0)))).
  { unfold o1. rewrite (merge_node_labels_key _ _ (jstrs ("Session" :: "SST_EVENT" :: L0))), Hn0, str_items_jstrs;
      [done|apply NoDup_end_props|done]. }
  assert (Hp1 : forall k v, (k, v) ∈ end_props sid p (JStr ts) [] -> plain_key k -> dget k o1 = Some v).
  { intros k v Hin Hk. apply merge_node_prop; [apply NoDup_end_props| | |done].
    - unfold end_props. by case_decide.
    - eapply end_props_plain; done. }
  set (edges1 := dset (sid, n) _ _).
  assert (Hedge : exists e, dget (sid, n) edges1 = Some e /\ dget "type" e = Some (JStr "SOURCED_FROM")).
  { eexists. split; [apply dget_dset_eq|]. simpl. apply dget_dset_eq. }
  destruct Hedge as (e & He & Hty).
  assert (Hl1 : labels_of o1 = label_union L0 ("Session" :: "SST_EVENT" :: L0))
    by (unfold labels_of, jget_default; by rewrite Hk1, str_items_jstrs).
  destruct (_current_type L0) as [t|] eqn:Hct.
  - assert (classify (Some t) "end" (bool_decide (p <> "")) = Ok no_transition) as -> by reflexivity.
    intros [= <-]. exists p, o1, n, e. unfold node_of. cbn. rewrite dget_dset_eq.
    split_and!; try done. split_and!; try done; [eauto|..].
    + rewrite Hl1, elem_of_label_union. right. in_list.
    + rewrite Hl1, elem_of_label_union. right. in_list.
    + rewrite Hl1, (end_labels_type L0), Hct; [done|]. intros l Hl.
      rewrite elem_of_label_union, !elem_of_cons.
      split; [|tauto]. intros [?|[->|[->|?]]]; try done;
      by apply (bool_decide_unpack (_ ∉ _TYPE_LABELS)) in Hl.
  - assert (classify None "end" (bool_decide (p <> ""))
      = Ok (MkTransition ["IncompleteSession"; "SST_EVENT"] ["StubSession"])) as -> by reflexivity.
    unfold apply_transition. rewrite bool_decide_eq_false_2 by naive_solver. cbn [mwhen negb].
    unfold on_graph. cbn [set_labels GraphState_store]. unfold gs_set_labels, mmodify.
    intros [= <-]. cbn. unfold node. cbn. rewrite dget_dset_eq.
    eexists p, _, n, e. unfold node_of. cbn. rewrite dget_dset_eq. split_and!; try done.
    assert (Hl2 : forall x, labels_of (dset "labels" (jstrs x) o1) = x)
      by (intros x; unfold labels_of, jget_default; by rewrite dget_dset_eq, str_items_jstrs).
    split_and!; rewrite ?Hl2.
    + rewrite dget_dset_eq. eauto.
    + rewrite filter_not_stub, Hl1, elem_of_label_union. left. split; [right; in_list|done].
    + rewrite filter_not_stub. auto.
    + intros k v Hin Hk. rewrite dget_dset_ne by (destruct Hk; congruence). by apply Hp1.
    + intros _. rewrite !filter_not_stub. naive_solver.
Qed.

(** The drainer dispatches [session:end] twice (once with its batch, once at
    finalization), and the second dispatch is a no-op: it succeeds and leaves
    the whole service state, graph included, exactly as the first left it. *)
Theorem session_end_idempotent data s s' :
  session_handler "session:end" data s = (Ok tt, s') ->
  session_handler "session:end" data s' = (Ok tt, s').
Proof.
  unfold session_handler, mbind, mlift. destruct (session_of data) as [[sid|]|]; try done.
  rewrite !(decide_False (P := "session:end" = "session:start")),
    !(decide_False (P := "session:end" = "session:fork")), !decide_True by done.
  intros Hend. destruct (timestamp_of data) as [| | | |ts| |] eqn:Hts.
  5: { destruct (end_ended _ _ _ _ _ Hend) as (p & o & n & e & Hp & Ho & Hen & Hn & He & Hty).
       by eapply end_again. }
  all: exfalso; revert Hend; unfold session_handle_end, node_labels, mbind, on_graph, mlift, mret, sourced_from, need_str;
    simpl; destruct (_parent_of data); done.
Qed.

(** The session handler's [SOURCED_FROM] bridge and the default handler's
    [HAS_EVENT] edge share one edge slot, because edges are keyed by their
    endpoints only.  After both handlers ran on a [session:end] event, the
    session is no longer attached to that event by a [HAS_EVENT] edge: the slot
    says [SOURCED_FROM]. *)
Theorem session_end_loses_has_event `{!PyRepr} data sid s s' :
  session_of data = Ok (Some sid) -> jget "tool_call_id" data = JNull ->
  (default_handler "session:end" data ;;; session_handler "session:end" data) s = (Ok tt, s') ->
  exists ts n e, timestamp_of data = JStr ts
    /\ make_node_id (event_identity s') sid "session:end" ts (opt_str (jget "tool_call_id" data)) = Ok n
    /\ dget (sid, n) (_edges (graph s')) = Some e /\ dget "type" e = Some (JStr "SOURCED_FROM").
Proof.
  intros Hsid Htc. unfold mbind at 1. destruct (default_handler _ _ s) as [[u|] s1]; [|done].
  unfold session_handler, mbind, mlift. rewrite Hsid.
  rewrite (decide_False (P := "session:end" = "session:start")),
    (decide_False (P := "session:end" = "session:fork")), decide_True by done.
  intros Hend. destruct (timestamp_of data) as [| | | |ts| |] eqn:Hts.
  5: { destruct (end_ended _ _ _ _ _ Hend) as (p & o & n & e & Hp & Ho & Hen & Hn & He & Hty).
       exists ts, n, e. by rewrite Htc. }
  all: exfalso; revert Hend; unfold session_handle_end, node_labels, mbind, on_graph, mlift, mret, sourced_from, need_str;
    simpl; destruct (_parent_of data); done.
Qed.
End spec.

(** ** Concrete runs *)

#[local] Existing Instance demo_timestamps.

Definition demo_end : obj := [("session_id", JStr "child"); ("timestamp", JStr "9"); ("parent", JStr "p")].
Definition demo_lifecycle : list (string * obj) :=
  [("session:start", [("session_id", JStr "child"); ("timestamp", JStr "7")]); ("session:end", demo_end);
   ("session:fork", [("session_id", JStr "child"); ("timestamp", JStr "8"); ("parent_id", JStr " p ")])].
Definition demo_session : HookStateService GraphState := new_service
  (MkGraph "w" None [("child", [("labels", jstrs ["Session"; "StubSession"])])] []).

Lemma demo_in_state : in_state "child" (Bare true) demo_session.
Proof.
  eexists. split; [reflexivity|]. intros l Hl. unfold tracked in Hl.
  repeat (apply elem_of_cons in Hl as [-> |Hl]); try (by apply elem_of_nil in Hl);
    match goal with |- ?A <-> ?B => apply (bool_decide_unpack (A <-> B)); vm_compute; exact I end.
Qed.

Lemma session_type_converges_witness :
  exists s', mfor demo_lifecycle (fun e => session_handler e.1 e.2) demo_session = (Ok tt, s')
    /\ in_state "child" Forked s'.
Proof.
  destruct (session_type_converges demo_session "child" (Bare true) demo_lifecycle [Start false; End; Fork])
    as (s' & Hr & Hs & _).
  - apply demo_in_state.
  - apply Forall2_cons. split; [|apply Forall2_cons; split; [|apply Forall2_cons; split; [|apply Forall2_nil_2]]].
    + split; [done|]. split; [done|]. split; [by exists "7", 7%Z|]. exists "". by vm_compute.
    + split; [done|]. split; [done|]. split; [by exists "9", 9%Z|]. exists "p". by vm_compute.
    + split; [done|]. split; [done|]. split; [by exists "8", 8%Z|]. exists "p". by vm_compute.
  - exists s'. split; [exact Hr|exact Hs].
Defined.

Lemma session_end_idempotent_witness :
  let s' := snd (session_handler "session:end" demo_end demo_session) in
  session_handler "session:end" demo_end s' = (Ok tt, s').
Proof. apply (session_end_idempotent demo_end demo_session). vm_compute. reflexivity. Defined.

#[local] Instance demo_repr : PyRepr := fun _ => "".

Lemma session_end_loses_has_event_witness :
  let s' := snd ((default_handler "session:end" demo_end ;;; session_handler "session:end" demo_end) demo_session) in
  exists ts n e, timestamp_of demo_end = JStr ts
    /\ make_node_id (event_identity s') "child" "session:end" ts (opt_str (jget "tool_call_id" demo_end)) = Ok n
    /\ dget ("child", n) (_edges (graph s')) = Some e /\ dget "type" e = Some (JStr "SOURCED_FROM").
Proof.
  apply (session_end_loses_has_event demo_end "child" demo_session); vm_compute; reflexivity.
Defined.
