(* ===== verification/PipelineSpec.v ===== *)
(** * What the event pipeline guarantees

    On every store that keeps labels, every accepted event is recorded as an [Event] node
    of its session whatever the enrichers do afterwards; blob offloading
    replaces exactly the blob fields; and its consequence for tool results. *)
From stdpp Require Import base list gmap strings sorting.
From Stdlib Require Import ZArith Lia.
From S2P Require Import Prelude PyText Sha256 Utils Json QueueFiles QueueManager.
From S2P Require Import GraphStore Services DefaultHandler Layer2 Layer3 Pipeline.

(** ** Labels survive every handler *)

Definition has_label (n l : string) (g : GraphState) : Prop :=
  exists o, dget n (_nodes g) = Some o /\ l ∈ labels_of o.

Lemma copy_props_labels existing data : dget "labels" (copy_props existing data) = dget "labels" existing.
Proof.
  unfold copy_props. revert existing. induction data as [|[k v] data IH]; intros e; [done|].
  cbn [fold_left fst snd]. rewrite IH. case_decide as Hk; [done|].
  rewrite dget_dset_ne; [done|]. intros ->. tauto.
Qed.

Lemma merge_node_grows existing data : labels_of existing ⊆ labels_of (merge_node existing data).
Proof.
  intros l Hl. unfold merge_node. cbv zeta.
  assert (H1 : l ∈ labels_of (match dget "labels" data with
    | Some ls => dset "labels" (jstrs (label_union (labels_of existing) (str_items ls))) existing
    | None => existing end)).
  { destruct (dget "labels" data); [|done]. unfold labels_of at 1, jget_default.
    rewrite dget_dset_eq, str_items_jstrs, elem_of_label_union. by left. }
  destruct (_ && _); unfold labels_of, jget_default in *;
    rewrite ?dget_dset_ne by done; by rewrite copy_props_labels.
Qed.

Lemma merge_node_gives existing data ls l :
  dget "labels" data = Some (jstrs ls) -> l ∈ ls -> l ∈ labels_of (merge_node existing data).
Proof.
  intros Hd Hl. unfold merge_node. rewrite Hd. cbv zeta.
  destruct (_ && _); unfold labels_of, jget_default; rewrite ?dget_dset_ne by done;
    rewrite copy_props_labels, dget_dset_eq, !str_items_jstrs, elem_of_label_union; by right.
Qed.

Ltac in_props := repeat (apply elem_of_cons; first [left; reflexivity | right]).

Lemma preserves_run {St A} (P : St -> Prop) (m : M St A) s r s' : preserves P m -> P s -> m s = (r, s') -> P s'.
Proof. intros Hm Hs Hr. specialize (Hm s Hs). by rewrite Hr in Hm. Qed.

(** *** What a store promises about labels *)

(** The labels a transition of the session-type lattice may remove. *)
Definition removable : list string := ["RootSession"; "SubSession"; "StubSession"].

(** A predicate that every store operation a handler uses keeps. *)
Record Kept {G : Type} `{!GraphStore G} (P : G -> Prop) : Prop := {
  kept_upsert m data : preserves P (upsert_node m data);
  kept_edge a b data : preserves P (upsert_edge a b data);
  kept_remove_edge a b : preserves P (remove_edge a b);
  kept_get m : preserves P (get_node m);
  kept_find m w : preserves P (find_delegation_by_sub_session m w);
  kept_set m rem ad : rem ⊆ removable -> preserves P (set_labels m rem ad);
}.
#[global] Arguments kept_upsert {G _ P}. #[global] Arguments kept_edge {G _ P}.
#[global] Arguments kept_remove_edge {G _ P}. #[global] Arguments kept_get {G _ P}.
#[global] Arguments kept_find {G _ P}. #[global] Arguments kept_set {G _ P}.

(** A store whose nodes keep every label outside [removable]: [fine] is its own
    invariant, [carries n l] says that node [n] has label [l]. *)
Class LabelStore (G : Type) `{!GraphStore G} := {
  fine : G -> Prop;
  carries : string -> string -> G -> Prop;
  kept_fine : Kept fine;
  kept_carries n l : l ∉ removable -> Kept (fun g => fine g /\ carries n l g);
  upsert_gives n data ls l g g' :
    fine g -> dget "labels" data = Some (jstrs ls) -> l ∈ ls ->
    upsert_node n data g = (Ok tt, g') -> carries n l g';
}.

(** The in-memory store keeps its promise. *)
Lemma kept_trivial : Kept (fun _ : GraphState => True).
Proof. by split. Qed.

Lemma kept_has_label n l : l ∉ removable -> Kept (fun g : GraphState => True /\ has_label n l g).
Proof.
  intros Hl. split; try (by intros * g Hg).
  - intros m data g [_ (o & Ho & Hlo)]. split; [done|]. unfold has_label. simpl. rewrite dget_dset.
    case_decide as Hm; [|by exists o]. subst m. eexists. split; [done|].
    unfold node. rewrite Ho. by apply merge_node_grows.
  - intros m rem ad Hr g [_ (o & Ho & Hlo)]. split; [done|]. unfold has_label. simpl. rewrite dget_dset.
    case_decide as Hm; [|by exists o]. subst m. eexists. split; [done|].
    unfold node. rewrite Ho. unfold labels_of at 1, jget_default.
    rewrite dget_dset_eq, str_items_jstrs, elem_of_label_union, list_elem_of_filter. left. split; [|done].
    intros Hin. by apply Hl, Hr.
Qed.

#[export] Instance GraphState_labels : LabelStore GraphState.
Proof.
  refine {| fine := fun _ => True; carries := has_label; kept_fine := kept_trivial;
            kept_carries := kept_has_label |}.
  intros n data ls l g g' _ Hd Hl [= <-]. unfold has_label. simpl. rewrite dget_dset_eq.
  eexists. split; [done|]. by eapply merge_node_gives.
Defined.

Section labels.
Context `{!Timestamps} `{!PyRepr} {G : Type} `{!GraphStore G} (P : G -> Prop) (HP : Kept P).

Abbreviation keep := (preserves (fun s : HookStateService G => P (graph s))).
Abbreviation wkeep := (preserves (fun w : Worker G => P (graph (services w)))).

Lemma keep_graph {A} (m : M G A) : preserves P m -> keep (on_graph m).
Proof. intros Hm s Hs. specialize (Hm (graph s) Hs). unfold on_graph. by destruct (m (graph s)). Qed.

Lemma keep_upsert m data : keep (on_graph (upsert_node m data)).
Proof. apply keep_graph, (kept_upsert HP). Qed.
Lemma keep_edge a b data : keep (on_graph (upsert_edge a b data)).
Proof. apply keep_graph, (kept_edge HP). Qed.
Lemma keep_remove_edge a b : keep (on_graph (remove_edge a b)).
Proof. apply keep_graph, (kept_remove_edge HP). Qed.
Lemma keep_get m : keep (on_graph (get_node m)).
Proof. apply keep_graph, (kept_get HP). Qed.
Lemma keep_find m w : keep (on_graph (find_delegation_by_sub_session m w)).
Proof. apply keep_graph, (kept_find HP). Qed.
Lemma keep_set_labels m rem ad : rem ⊆ removable -> keep (on_graph (set_labels m rem ad)).
Proof. intros Hr. by apply keep_graph, (kept_set HP). Qed.

Lemma keep_node_id a b c d : keep (node_id a b c d).
Proof. intros s Hs. exact Hs. Qed.

Lemma keep_dl2 f : keep (modify_dl2 f).
Proof. intros s Hs. exact Hs. Qed.
Lemma keep_dl3 f : keep (modify_dl3 f).
Proof. intros s Hs. exact Hs. Qed.
Lemma keep_seen m : keep (mark_seen m).
Proof. intros s Hs. unfold mark_seen, mmodify. simpl. by case_decide. Qed.
Lemma keep_identity i : keep (mmodify (with_identity i)).
Proof. intros s Hs. exact Hs. Qed.

Hint Resolve keep_upsert keep_edge keep_remove_edge keep_get keep_find keep_node_id keep_dl2 keep_dl3
  keep_seen keep_identity : pym.

(** Labels a transition can remove *)
Lemma classify_removes ct ev hp t :
  classify ct ev hp = Ok t -> remove t ⊆ removable.
Proof.
  unfold classify, no_transition, removable. intros Hc. repeat case_hyp; simpl; try set_solver.
Qed.

Lemma keep_svc {A} (m : M (HookStateService G) A) : keep m -> wkeep (svc m).
Proof.
  intros Hm w Hw. specialize (Hm (services w) Hw). unfold svc. by destruct (m (services w)) as [r s].
Qed.

Lemma wkeep_skip f : (forall w, services (f w) = services w) -> wkeep (mmodify f).
Proof. intros Hf w Hw. simpl. by rewrite Hf. Qed.

Ltac keep_body := cbv zeta; repeat (preserves_step; cbv zeta).

Lemma keep_ensure m data wd : keep (ensure_session_node m data wd).
Proof. unfold ensure_session_node. keep_body. Qed.

Lemma keep_touch m ts : keep (touch_session m ts).
Proof. unfold touch_session, touch_body. keep_body. Qed.

Lemma keep_sourced a b c ts d : keep (sourced_from a b c ts d).
Proof. unfold sourced_from. keep_body. Qed.

Lemma keep_sst a b c d : keep (sst_edge a b c d).
Proof. unfold sst_edge. keep_body. Qed.

Lemma keep_transition m ct ev hp t :
  classify ct ev hp = Ok t -> keep (apply_transition m t).
Proof.
  intros Hc. apply preserves_when, keep_set_labels. by apply (classify_removes _ _ _ _ Hc).
Qed.

Hint Resolve keep_ensure keep_touch keep_sourced keep_sst keep_transition keep_svc wkeep_skip : pym.

Lemma keep_session_handler ev data : keep (session_handler ev data).
Proof.
  unfold session_handler, session_handle_start, session_handle_fork, session_handle_end,
    _create_mount_plan, node_labels, lineage_edge. keep_body.
Qed.

Lemma keep_orchestrator ev data : keep (orchestrator_run_handler ev data).
Proof.
  unfold orchestrator_run_handler, _handle_execution_start, _handle_execution_end,
    _handle_orchestrator_complete. keep_body.
Qed.

Lemma keep_iteration ev data : keep (iteration_handler ev data).
Proof.
  unfold iteration_handler, _handle_provider_request, _handle_llm_request, _handle_llm_response,
    event_bridge. keep_body.
Qed.

Lemma keep_content_block ev data : keep (content_block_handler ev data).
Proof.
  unfold content_block_handler, content_handle_start, content_handle_end, event_bridge. keep_body.
Qed.

Lemma keep_pop t : keep (pop_pending_block t).
Proof. unfold pop_pending_block. keep_body. Qed.
Hint Resolve keep_pop : pym.

Lemma wkeep_tool_call ev data : wkeep (tool_call_handler ev data).
Proof.
  unfold tool_call_handler, tool_handle_pre, tool_handle_post, tool_handle_error, join_tool_group.
  keep_body; apply keep_svc; keep_body.
Qed.

Lemma keep_prompt ev data : keep (prompt_handler ev data).
Proof. unfold prompt_handler. keep_body. Qed.

Lemma keep_cancellation ev data : keep (cancellation_handler ev data).
Proof. unfold cancellation_handler. keep_body. Qed.

Lemma keep_compaction ev data : keep (context_compaction_handler ev data).
Proof. unfold context_compaction_handler. keep_body. Qed.

Lemma keep_resolve fuel ws m vis : keep (on_graph (resolve_loop fuel ws m vis)).
Proof.
  apply keep_graph. revert m vis. induction fuel as [|fuel IH]; intros m vis; simpl; [apply preserves_ret|].
  case_decide; [apply preserves_ret|]. apply preserves_bind; [apply (kept_find HP)|]. intros [d|].
  - destruct (jstr_is _ _); [|apply preserves_ret]. apply preserves_bind; [apply preserves_lift|].
    intros [x|]; [apply IH|apply preserves_ret].
  - apply preserves_bind; [apply (kept_get HP)|intros o; apply preserves_ret].
Qed.
Hint Resolve keep_resolve : pym.

Lemma wkeep_delegation ev data : wkeep (delegation_handler ev data).
Proof.
  unfold delegation_handler, _handle_spawned, _handle_lifecycle, join_delegation_group, resolve_self_agent.
  keep_body; apply keep_svc; keep_body.
Qed.

Lemma wkeep_skill ev data : wkeep (skill_load_handler ev data).
Proof. unfold skill_load_handler, _handle_loaded, _handle_unloaded. keep_body. Qed.

Lemma keep_recipe_run ev data : keep (recipe_run_handler ev data).
Proof.
  unfold recipe_run_handler, run_handle_start, run_handle_complete, run_handle_approval,
    run_handle_start, run_handle_loop_iteration, run_handle_loop_complete, top_run. keep_body.
Qed.

Lemma keep_recipe_step ev data : keep (recipe_step_handler ev data).
Proof.
  unfold recipe_step_handler, step_handle_step, step_handle_approval, step_handle_loop_iteration,
    step_handle_tool_pre, with_active_run, top_run, has_step. keep_body.
Qed.

Hint Resolve keep_session_handler keep_orchestrator keep_iteration keep_content_block wkeep_tool_call
  keep_prompt keep_cancellation keep_compaction wkeep_delegation wkeep_skill keep_recipe_run
  keep_recipe_step : pym.

Lemma keep_default ev data : keep (default_handler ev data).
Proof. unfold default_handler. keep_body. Qed.

(** Every enricher keeps a label that no label transition removes. *)
Lemma wkeep_enrichers ev data : wkeep (run_enrichers ev data).
Proof.
  unfold run_enrichers. assert (HF : Forall (fun h : list string * (string -> obj -> M (Worker G) unit) =>
    wkeep (h.2 ev data)) enrichers).
  { unfold enrichers. repeat (apply Forall_cons_2; [simpl; eauto with pym|]). apply Forall_nil_2. }
  induction HF as [|h hs Hh HF IH]; simpl; [apply preserves_ret|].
  apply preserves_bind; [by apply preserves_when|auto].
Qed.
End labels.

(** ** Blob offloading *)

Section blobs.
Context {G B : Type} `{!BlobStore B}.
Abbreviation P := (Pipe G B).

Definition offloaded (j : json) : Prop := (exists uri, j = blob_ref uri) \/ (exists e, j = blob_error e).

Lemma offload_field_spec sid n data f (p : P) :
  match offload_field sid n data f p with
  | (Ok data', p') => worker p' = worker p /\ (forall k, k <> f -> dget k data' = dget k data)
      /\ (if is_none (jget f data) then data' = data else offloaded (jget f data'))
  | (Err e, _) => is_Exception e = false
  end.
Proof.
  unfold offload_field. destruct (is_none (jget f data)) eqn:Hn; [done|].
  unfold mcatch, mbind, on_blobs. destruct (blob_write _ _ _ (blobs p)) as [[uri|e] b]; simpl.
  - split; [done|]. split; [intros k Hk; by rewrite dget_dset_ne|].
    unfold jget. rewrite dget_dset_eq. left. by exists uri.
  - destruct (is_Exception e) eqn:He; simpl; [|done]. split; [done|].
    split; [intros k Hk; by rewrite dget_dset_ne|]. unfold jget. rewrite dget_dset_eq. right. by exists e.
Qed.

Lemma offload_fields_spec sid n fs data (p : P) :
  NoDup fs ->
  match offload_fields sid n data fs p with
  | (Ok data', p') => worker p' = worker p /\ (forall k, k ∉ fs -> dget k data' = dget k data)
      /\ (forall f, f ∈ fs -> if is_none (jget f data) then dget f data' = dget f data
                              else offloaded (jget f data'))
  | (Err e, _) => is_Exception e = false
  end.
Proof.
  revert data p. induction fs as [|f fs IH]; intros data p Hnd; simpl.
  { split; [done|]. split; [done|]. intros f Hf. by apply elem_of_nil in Hf. }
  apply NoDup_cons in Hnd as [Hf Hnd]. unfold mbind. assert (H1 := offload_field_spec sid n data f p).
  destruct (offload_field sid n data f p) as [[d1|e] p1]; [|done]. destruct H1 as (Hw1 & Ho1 & Hf1).
  specialize (IH d1 p1 Hnd). destruct (offload_fields sid n d1 fs p1) as [[d2|e] p2]; [|done].
  destruct IH as (Hw2 & Ho2 & Hf2). split; [congruence|]. split.
  - intros k [Hk Hks]%not_elem_of_cons. by rewrite Ho2, Ho1.
  - intros k [-> |Hk]%elem_of_cons.
    + destruct (is_none (jget f data)); [subst d1; by apply Ho2|].
      unfold jget in *. by rewrite Ho2.
    + assert (Hne : k <> f) by (intros ->; done). specialize (Hf2 k Hk).
      unfold jget in *. by rewrite Ho1 in Hf2.
Qed.

Definition lifted_keys : list string := ["stop_reason"; "finish_reason"; "usage"].

Lemma lift_raw_field_get raw data f k : k <> f -> dget k (lift_raw_field raw data f) = dget k data.
Proof.
  intros Hk. unfold lift_raw_field. destruct (dget f raw); [|done].
  destruct (dmem f data); [done|]. by rewrite dget_dset_ne.
Qed.

Lemma lift_raw_get data data' k :
  _lift_raw_fields data = Ok data' -> k ∉ lifted_keys -> dget k data' = dget k data.
Proof.
  unfold lifted_keys. rewrite !not_elem_of_cons. intros Hd (H1 & H2 & H3 & _).
  assert (Hl : forall raw, dget k (lift_raw_field raw (lift_raw_field raw data "stop_reason") "finish_reason")
    = dget k data) by (intros raw; by rewrite !lift_raw_field_get).
  unfold _lift_raw_fields in Hd. destruct (jget "raw" data) as [| | | | | |raw]; simplify_eq; try done.
  specialize (Hl raw). destruct (jget "usage" raw) as [| | | | | |ru]; simplify_eq; try done.
  destruct (py_or _ _) as [| | | | | |tu]; simplify_eq. by rewrite dget_dset_ne.
Qed.

Lemma blob_order_nodup : NoDup blob_field_order.
Proof. rewrite blob_order_perm. by apply (bool_decide_unpack _). Qed.

Lemma process_event_data_spec data sid n (p : P) :
  match process_event_data data sid n p with
  | (Ok data', p') =>
      worker p' = worker p
      /\ (forall k, k ∉ BLOB_FIELDS -> k ∉ lifted_keys -> dget k data' = dget k data)
      /\ (forall f, f ∈ BLOB_FIELDS -> if is_none (jget f data) then dget f data' = dget f data
                                       else offloaded (jget f data'))
  | (Err e, _) => is_Exception e = false \/ _lift_raw_fields data = Err e
  end.
Proof.
  unfold process_event_data, mbind, mlift. destruct (_lift_raw_fields data) as [d1|e] eqn:Hlift; [|by right].
  assert (H1 := offload_fields_spec sid n blob_field_order d1 p blob_order_nodup).
  destruct (offload_fields sid n d1 blob_field_order p) as [[d2|e] p2]; [|by left].
  destruct H1 as (Hw & Ho & Hf). assert (Hd := lift_raw_get data d1). split; [done|]. split.
  - intros k Hk Hk'. rewrite Ho by (by rewrite blob_order_perm). by apply Hd.
  - intros f Hin. specialize (Hf f). rewrite blob_order_perm in Hf. specialize (Hf Hin).
    assert (f ∉ lifted_keys).
    { intros Hx. unfold lifted_keys in Hx. unfold BLOB_FIELDS in Hin. set_solver. }
    unfold jget in *. by rewrite Hd in Hf by done.
Qed.

Lemma lift_raw_usage data data' raw ru tu :
  _lift_raw_fields data = Ok data' -> jget "raw" data = JObj raw -> jget "usage" raw = JObj ru ->
  jget "usage" data = JObj tu -> tu <> [] -> dget "usage" data' = Some (JObj (dupdate ru tu)).
Proof.
  unfold _lift_raw_fields. intros Hd Hr Hru Hu Hne. rewrite Hr in Hd. cbv beta iota zeta in Hd. rewrite Hru in Hd. revert Hd.
  assert (Hl : jget "usage" (lift_raw_field raw (lift_raw_field raw data "stop_reason") "finish_reason") = JObj tu).
  { unfold jget in *. by rewrite !lift_raw_field_get. }
  rewrite Hl. unfold py_or. destruct tu; [done|]. intros [= <-]. apply dget_dset_eq.
Qed.

(** Blob offloading is exact.  It replaces every blob field that is present
    by a reference or an error marker, leaves absent ones absent and touches no
    other field except the three it lifts out of [raw], where a top-level usage
    counter wins over the raw one; a failing blob write never aborts the event
    (only a non-[Exception] or an unmergeable top-level [usage] does), and the
    graph side of the worker is untouched. *)
Theorem blob_offload_exact data sid n (p : P) :
  match process_event_data data sid n p with
  | (Ok data', p') =>
      worker p' = worker p
      /\ (forall k, k ∉ BLOB_FIELDS -> k ∉ lifted_keys -> dget k data' = dget k data)
      /\ (forall f, f ∈ BLOB_FIELDS -> if is_none (jget f data) then dget f data' = dget f data
                                       else offloaded (jget f data'))
      /\ (forall raw ru tu, jget "raw" data = JObj raw -> jget "usage" raw = JObj ru ->
            jget "usage" data = JObj tu -> tu <> [] -> jget "usage" data' = JObj (dupdate ru tu))
  | (Err e, _) => is_Exception e = false \/ _lift_raw_fields data = Err e
  end.
Proof.
  assert (Hs := process_event_data_spec data sid n p). revert Hs.
  unfold process_event_data, mbind, mlift. destruct (_lift_raw_fields data) as [d1|e] eqn:Hlift; [|done].
  assert (Hf := offload_fields_spec sid n blob_field_order d1 p blob_order_nodup).
  destruct (offload_fields sid n d1 blob_field_order p) as [[d2|e] p2]; [|done].
  intros (Hw & Ho & Hb). split; [done|]. split; [done|]. split; [done|].
  intros raw ru tu Hr Hru Hu Hne. destruct Hf as (_ & Hf & _). unfold jget.
  rewrite Hf by (rewrite blob_order_perm; by apply (bool_decide_unpack _)).
  by rewrite (lift_raw_usage data d1 raw ru tu).
Qed.
End blobs.

(** ** Every accepted event is recorded *)

Section pipeline.
Context `{!Timestamps} `{!PyRepr} {G : Type} `{!GraphStore G} {B : Type} `{!BlobStore B}.
Abbreviation P := (Pipe G B).
Implicit Types p : P.

Definition store p : G := graph (services (worker p)).
Definition identity_of p : option string := event_identity (services (worker p)).

Lemma on_graph_identity {A} (m : M G A) (s : HookStateService G) :
  event_identity (snd (on_graph m s)) = event_identity s.
Proof. unfold on_graph. by destruct (m (graph s)). Qed.

Lemma ensure_identity sid data wd (s : HookStateService G) :
  event_identity (snd (ensure_session_node sid data wd s)) = event_identity s.
Proof.
  assert (Hk : preserves (fun s' => event_identity s' = event_identity s) (ensure_session_node sid data wd)).
  { unfold ensure_session_node. apply preserves_bind; [apply preserves_get|]. intros s0.
    case_decide; [apply preserves_ret|].
    assert (Hg : forall A (m : M G A), preserves (fun s' => event_identity s' = event_identity s) (on_graph m))
      by (intros A m s1 Hs1; by rewrite on_graph_identity).
    do 2 (apply preserves_bind; [apply Hg|intros ?]). intros s1 Hs1. unfold mark_seen, mmodify. simpl. by case_decide. }
  by apply Hk.
Qed.

Lemma session_of_get data data' :
  dget "session_id" data' = dget "session_id" data -> session_of data' = session_of data.
Proof. unfold session_of, jget. by intros ->. Qed.

(** Blob offloading keeps what identifies the event. *)
Lemma blob_step_keeps sid event ts data p data' p' :
  blob_step sid event ts data p = (Ok data', p') ->
  worker p' = worker p /\ (forall k, k ∈ ["session_id"; "timestamp"; "tool_call_id"] -> dget k data' = dget k data).
Proof.
  unfold blob_step. intros (t & p1 & H1 & Hb)%mbind_ok. apply mbind_ok in Hb as (n & p2 & H2 & Hb).
  assert (worker p2 = worker p) as Hw.
  { unfold mlift in H1. injection H1 as _ <-. unfold on_worker, svc, node_id in H2.
    destruct p as [[s tg dg sk] b]. simpl in H2.
    by injection H2 as _ <-. }
  assert (Hs := process_event_data_spec data sid n p2). rewrite Hb in Hs.
  destruct Hs as (Hw' & Ho & _). split; [congruence|]. intros k Hk.
  apply Ho; intros Hin; unfold BLOB_FIELDS, lifted_keys in *; set_solver.
Qed.

Lemma on_worker_run {A} (m : M (Worker G) A) p r p' :
  on_worker m p = (r, p') -> m (worker p) = (r, worker p').
Proof. unfold on_worker. destruct (m (worker p)) as [r0 w]. by intros [= <- <-]. Qed.

Lemma svc_run {A} (m : M (HookStateService G) A) w r w' :
  svc m w = (r, w') -> m (services w) = (r, services w').
Proof. unfold svc. destruct (m (services w)) as [r0 s]. by intros [= <- <-]. Qed.

(** *** What every event keeps, on every exit *)

Section keep.
Context (Q : G -> Prop) (HQ : Kept Q).
Abbreviation pkeep := (preserves (fun p : P => Q (store p))).

Lemma pkeep_worker {A} (m : M (Worker G) A) :
  preserves (fun w => Q (graph (services w))) m -> pkeep (on_worker m).
Proof.
  intros Hm p Hp. specialize (Hm (worker p) Hp). unfold on_worker. by destruct (m (worker p)) as [r w].
Qed.

Lemma pkeep_blobs {A} (m : M B A) : pkeep (on_blobs m).
Proof. intros p Hp. unfold on_blobs. by destruct (m (blobs p)) as [r b]. Qed.

Lemma pkeep_offload sid node fs data : pkeep (offload_fields sid node data fs).
Proof.
  revert data. induction fs as [|f fs IH]; intros data; simpl; [apply preserves_ret|].
  apply preserves_bind; [|intros d; apply IH]. unfold offload_field. destruct (is_none _); [apply preserves_ret|].
  apply preserves_catch.
  - apply preserves_bind; [apply pkeep_blobs|intros u; apply preserves_ret].
  - intros e. destruct (is_Exception e); [apply preserves_ret|apply preserves_raise].
Qed.

Lemma pkeep_svc {A} (m : M (HookStateService G) A) :
  preserves (fun s => Q (graph s)) m -> pkeep (on_worker (svc m)).
Proof. intros Hm. apply pkeep_worker. intros w Hw. unfold svc.
  specialize (Hm (services w) Hw). by destruct (m (services w)). Qed.

(** The steps after the default handler *)
Lemma pkeep_tail event data sid ts :
  pkeep (on_worker (run_enrichers event data) ;;;
         match sid with
         | Some session_id => mwhen (truthy ts) (on_worker (svc (touch_session session_id ts)))
         | None => mret tt
         end).
Proof.
  apply preserves_bind; [by apply pkeep_worker, wkeep_enrichers|intros _].
  destruct sid; [by apply preserves_when, pkeep_svc, keep_touch|apply preserves_ret].
Qed.

Lemma pkeep_process_event event data wd ident : pkeep (process_event event data wd ident).
Proof.
  assert (Hid : forall i, pkeep (set_event_identity i)) by (intros i; apply pkeep_svc, keep_identity).
  unfold process_event. apply preserves_bind; [apply preserves_get|]. intros p0. cbv zeta.
  apply preserves_bind; [apply Hid|intros _]. apply preserves_bind; [|intros _; apply Hid].
  apply preserves_catch; [|intros e; apply preserves_bind; [apply Hid|intros _; apply preserves_raise]].
  destruct data as [| | | | | |data]; try apply preserves_raise.
  unfold process_steps. apply preserves_bind; [apply preserves_lift|]. intros sid. apply preserves_bind.
  { destruct sid; [by apply pkeep_svc, keep_ensure|apply preserves_ret]. }
  intros _. cbv zeta. apply preserves_bind.
  { destruct sid as [sid|]; [|apply preserves_ret]. destruct (_ && _); [|apply preserves_ret].
    unfold blob_step, process_event_data. apply preserves_bind; [apply preserves_lift|]. intros ts.
    apply preserves_bind; [apply pkeep_svc, keep_node_id|]. intros m.
    apply preserves_bind; [apply preserves_lift|]. intros d. apply pkeep_offload. }
  intros d. apply preserves_bind; [by apply pkeep_svc, keep_default|intros _]. by apply pkeep_tail.
Qed.
End keep.

(** *** The default handler records the event *)

Context `{!LabelStore G}.

Lemma event_not_removable : "Event" ∉ removable.
Proof. by apply (bool_decide_unpack _). Qed.

Lemma default_handler_label event data sid (s s' : HookStateService G) :
  fine (graph s) -> session_of data = Ok (Some sid) -> default_handler event data s = (Ok tt, s') ->
  exists ts n, timestamp_of data = JStr ts
    /\ make_node_id (event_identity s) sid event ts (opt_str (jget "tool_call_id" data)) = Ok n
    /\ fine (graph s') /\ carries n "Event" (graph s').
Proof.
  intros Hf Hsid. unfold default_handler. rewrite Hsid. intros (o & s1 & E1 & H1)%mbind_ok.
  unfold mlift in E1. injection E1 as <- <-.
  apply mbind_ok in H1 as (labels & s1 & E1 & H1). unfold mlift in E1. injection E1 as Hlab <-.
  fold (timestamp_of data) in H1. apply mbind_ok in H1 as (ts & s1 & E1 & H1). unfold mlift in E1.
  injection E1 as Hts <-. destruct (timestamp_of data) as [| | | |ts0| |] eqn:Ht; try done.
  injection Hts as ->. apply mbind_ok in H1 as (n & s1 & E1 & H1). unfold node_id in E1. injection E1 as Hn <-.
  exists ts, n. split; [done|]. split; [done|].
  apply mbind_ok in H1 as ([] & s1 & E1 & H1).
  assert (Hev : fine (graph s1) /\ carries n "Event" (graph s1)).
  { split.
    - by apply (preserves_run _ _ _ _ _ (keep_upsert _ kept_fine n _) Hf E1).
    - unfold on_graph in E1. destruct (upsert_node n _ (graph s)) as [r g] eqn:Eu. injection E1 as -> <-.
      eapply upsert_gives; [exact Hf| | |exact Eu].
      + rewrite dget_dset_ne by done. rewrite dget_dupdate_notin; [done|].
        apply lift_all_reserved. by apply (bool_decide_unpack _).
      + unfold derive_labels in Hlab. destruct (forallb _ _); [|done]. injection Hlab as <-. simpl.
        rewrite !elem_of_cons. auto. }
  by apply (preserves_run _ _ _ _ _ (keep_edge _ (kept_carries n "Event" event_not_removable) _ _ _) Hev H1).
Qed.

(** An event that is processed has a dict for its data and a valid session. *)
Lemma process_event_object event data wd ident p p' :
  process_event event data wd ident p = (Ok tt, p') -> exists o, data = JObj o /\ is_ok (session_of o) = true.
Proof.
  unfold process_event, set_event_identity, on_worker, svc, mmodify. simpl. unfold mbind, mget, mcatch. simpl.
  destruct data as [| | | | | |o]; try done. intros Hr. exists o. split; [done|].
  unfold process_steps, mbind, mlift in Hr. by destruct (session_of o).
Qed.

Lemma process_event_recorded event data wd ident p p' sid :
  fine (store p) ->
  process_event event (JObj data) wd ident p = (Ok tt, p') -> session_of data = Ok (Some sid) ->
  exists ts n, timestamp_of data = JStr ts
    /\ make_node_id ident sid event ts (opt_str (jget "tool_call_id" data)) = Ok n
    /\ carries n "Event" (store p').
Proof.
  intros Hfine. unfold process_event, set_event_identity, on_worker, svc, mmodify. simpl. unfold mbind, mget, mcatch.
  simpl. set (p0 := MkPipe _ _). destruct (process_steps event data wd p0) as [[[]|e] p1] eqn:Hst; simpl; [|done].
  intros [= <-] Hsid. unfold store. simpl.
  unfold process_steps in Hst. apply mbind_ok in Hst as (o & q1 & H1 & Hst).
  unfold mlift in H1. injection H1 as H1 <-. rewrite Hsid in H1. injection H1 as <-.
  apply mbind_ok in Hst as (u1 & q2 & Hens & Hst).
  assert (Hid2 : identity_of q2 = ident).
  { apply on_worker_run, svc_run in Hens. assert (He := ensure_identity sid data wd (services (worker p0))).
    rewrite Hens in He. exact He. }
  assert (Hf2 : fine (store q2)).
  { apply (preserves_run _ _ p0 _ _ (pkeep_svc fine _ (keep_ensure _ kept_fine sid data wd))) in Hens; done. }
  cbv zeta in Hst. apply mbind_ok in Hst as (data' & q3 & Hblob & Hst).
  assert (Hkeep : worker q3 = worker q2
    /\ forall k, k ∈ ["session_id"; "timestamp"; "tool_call_id"] -> dget k data' = dget k data).
  { destruct (truthy _ && _); [by apply blob_step_keeps in Hblob|]. unfold mret in Hblob. by simplify_eq. }
  destruct Hkeep as [Hw3 Hdata].
  apply mbind_ok in Hst as ([] & q4 & Hdef & Htail).
  assert (Hsid' : session_of data' = Ok (Some sid)).
  { rewrite <- Hsid. apply session_of_get, Hdata. by apply (bool_decide_unpack _). }
  apply on_worker_run, svc_run in Hdef. rewrite Hw3 in Hdef.
  destruct (default_handler_label event data' sid _ _ Hf2 Hsid' Hdef) as (ts & n & Hts & Hn & Hlab).
  exists ts, n. unfold timestamp_of, jget_default, jget in *.
  rewrite !Hdata in Hts, Hn by (by apply (bool_decide_unpack _)).
  split; [done|]. split; [by rewrite <- Hid2|].
  by apply (preserves_run _ _ _ _ _ (pkeep_tail _ (kept_carries n "Event" event_not_removable) _ _ (Some sid) _) Hlab Htail).
Qed.

(** No accepted event is lost by the pipeline.  If [process_event] returns
    normally for an event with a session, then the event's node, whose id is
    determined by session, event name, timestamp, tool call and queue identity,
    is in the graph with the [Event] label, whatever the enrichers did
    afterwards; and on every exit, normal or exceptional, the event identity
    scope is back to what it was. *)
Theorem process_event_records event data wd ident p :
  fine (store p) ->
  let '(r, p') := process_event event (JObj data) wd ident p in
  identity_of p' = identity_of p
  /\ (r = Ok tt -> forall sid, session_of data = Ok (Some sid) ->
        exists ts n, timestamp_of data = JStr ts
          /\ make_node_id ident sid event ts (opt_str (jget "tool_call_id" data)) = Ok n
          /\ carries n "Event" (store p')).
Proof.
  intros Hf.
  assert (Hid : forall p', identity_of (snd (process_event event (JObj data) wd ident p')) = identity_of p').
  { intros p'. unfold process_event, set_event_identity, on_worker, svc, mmodify. simpl. unfold mbind, mget, mcatch.
    simpl. by destruct (process_steps event data wd _) as [[[]|e] p1]. }
  specialize (Hid p). destruct (process_event event (JObj data) wd ident p) as [r p'] eqn:Hr.
  split; [exact Hid|]. intros -> sid Hsid. by eapply process_event_recorded.
Qed.
End pipeline.

(** ** Tool results behind a blob store *)

Section tools.
Context `{!Timestamps} `{!PyRepr} {B : Type} `{!BlobStore B}.
Implicit Types p : Pipe GraphState B.

Lemma offloaded_no_key j k : offloaded j -> k <> "$blob_ref" -> k <> "$blob_error" ->
  exists o, j = JObj o /\ jget k o = JNull.
Proof.
  intros [[uri ->]|[e ->]] H1 H2; unfold blob_ref, blob_error; eexists; (split; [done|]);
    unfold jget; simpl; by rewrite decide_False.
Qed.

Lemma tool_post_props sid tid ts data r (s s' : HookStateService GraphState) :
  jget_default "result" (JObj []) data = JObj r -> jget "error" r = JNull -> jget "output" r = JNull ->
  tool_handle_post sid tid ts data s = (Ok tt, s') ->
  exists o, dget tid (_nodes (graph s')) = Some o /\ dget "result_success" o = Some (JBool true)
    /\ dget "result_output" o = Some JNull /\ dget "result_error" o = Some JNull.
Proof.
  intros Hr He Ho. unfold tool_handle_post. rewrite Hr. unfold mbind at 1, mlift at 1. cbn [as_dict].
  rewrite He, Ho. intros (u & s1 & H1 & H2)%mbind_ok.
  assert (Hn : _nodes (graph s') = _nodes (graph s1)).
  { revert H2. unfold sourced_from. intros (t & s2 & Ht & H2)%mbind_ok. apply mbind_ok in H2 as (n & s3 & Hn & H2).
    unfold mlift in Ht. injection Ht as _ <-. unfold node_id in Hn. injection Hn as _ <-.
    unfold on_graph in H2. simpl in H2. by simplify_eq. }
  unfold on_graph in H1. simpl in H1. injection H1 as _ <-. rewrite Hn. simpl.
  rewrite dget_dset_eq. eexists. split; [done|].
  split_and!; (apply merge_node_prop; [by apply (bool_decide_unpack _)|done|in_props|done]).
Qed.

(** With a blob store the outcome of a tool is lost.  The pipeline offloads
    the [result] field before the handlers run, so the tool handler sees a
    reference instead of the result: whatever the tool returned, an error
    included, the [ToolCall] node is written with [result_success] true, no
    output and no error. *)
Theorem tool_post_always_success data blob_sid blob_node p data' p1 sid tid
    (w w' : Worker GraphState) :
  process_event_data data blob_sid blob_node p = (Ok data', p1) ->
  is_none (jget "result" data) = false ->
  session_of data = Ok (Some sid) -> str_field "tool_call_id" data = Ok (Some tid) ->
  tool_call_handler "tool:post" data' w = (Ok tt, w') ->
  exists o, dget tid (_nodes (graph (services w'))) = Some o
    /\ dget "result_success" o = Some (JBool true)
    /\ dget "result_output" o = Some JNull /\ dget "result_error" o = Some JNull.
Proof.
  intros Hp Hres Hsid Htid Hrun. assert (Hs := process_event_data_spec data blob_sid blob_node p).
  rewrite Hp in Hs. destruct Hs as (_ & Ho & Hf). specialize (Hf "result").
  rewrite Hres in Hf. specialize (Hf ltac:(by apply (bool_decide_unpack _))).
  destruct (offloaded_no_key _ "error" Hf) as (r & Hr & Herr); [done..|].
  destruct (offloaded_no_key _ "output" Hf) as (r' & Hr' & Hout); [done..|].
  rewrite Hr in Hr'. injection Hr' as <-.
  assert (Hs' : session_of data' = Ok (Some sid)).
  { rewrite <- Hsid. apply session_of_get, Ho; by apply (bool_decide_unpack _). }
  assert (Ht' : str_field "tool_call_id" data' = Ok (Some tid)).
  { rewrite <- Htid. unfold str_field, jget. rewrite Ho; [done|by apply (bool_decide_unpack _)..]. }
  unfold tool_call_handler, mbind, mlift in Hrun. rewrite Hs', Ht' in Hrun.
  rewrite !decide_False in Hrun by done. cbv zeta in Hrun. apply svc_run in Hrun.
  eapply tool_post_props; [|exact Herr|exact Hout|exact Hrun].
  unfold jget in Hr. unfold jget_default. by destruct (dget "result" data').
Qed.
End tools.

(** ** A concrete run *)

#[local] Existing Instance demo_timestamps.
#[local] Instance demo_repr : PyRepr := fun _ => "".
#[local] Instance demo_blobs : BlobStore (list (string * json)) := {|
  blob_write := fun sid key v b => (Ok ("ci-blob://" +:+ sid +:+ "/" +:+ key), dset key v b);
  blob_enabled := true; blob_field_order := BLOB_FIELDS; blob_order_perm := Permutation_refl BLOB_FIELDS;
  exn_str := fun _ => "error";
|}.

Definition failing_tool : obj :=
  [("session_id", JStr "s"); ("timestamp", JStr "5"); ("tool_call_id", JStr "t");
   ("result", JObj [("error", JStr "boom")])].
Definition demo_pipe : Pipe GraphState (list (string * json)) := MkPipe (new_worker (MkGraph "w" None [] [])) [].

Lemma tool_post_always_success_witness :
  exists data' p1 w' o,
    process_event_data failing_tool "s" "n" demo_pipe = (Ok data', p1)
    /\ tool_call_handler "tool:post" data' (worker demo_pipe) = (Ok tt, w')
    /\ dget "t" (_nodes (graph (services w'))) = Some o /\ dget "result_success" o = Some (JBool true).
Proof.
  destruct (process_event_data failing_tool "s" "n" demo_pipe) as [[data'|e] p1] eqn:Hp; [|done].
  assert (Hp' := Hp). vm_compute in Hp'. injection Hp' as Hd _.
  destruct (tool_call_handler "tool:post" data' (worker demo_pipe)) as [r w'] eqn:Hr.
  assert (Hok : r = Ok tt) by (subst data'; vm_compute in Hr; congruence). subst r.
  destruct (tool_post_always_success failing_tool "s" "n" demo_pipe data' p1 "s" "t" (worker demo_pipe) w'
    Hp eq_refl eq_refl eq_refl Hr) as (o & Ho & Hs & _).
  exists data', p1, w', o. auto.
Defined.

Lemma process_event_records_witness :
  exists n p', process_event "tool:post" (JObj failing_tool) None (Some "q1") demo_pipe = (Ok tt, p')
    /\ make_node_id (Some "q1") "s" "tool:post" "5" (Some "t") = Ok n /\ has_label n "Event" (store p').
Proof.
  assert (Hrec := process_event_records "tool:post" failing_tool None (Some "q1") demo_pipe I).
  destruct (process_event "tool:post" (JObj failing_tool) None (Some "q1") demo_pipe) as [r p'] eqn:Hr.
  assert (Hok : r = Ok tt) by (vm_compute in Hr; congruence). subst r.
  destruct Hrec as [_ Hrec]. destruct (Hrec eq_refl "s" eq_refl) as (ts & n & Hts & Hn & Hl).
  vm_compute in Hts. injection Hts as <-. exists n, p'. auto.
Defined.
