(* ===== verification/Layer3Spec.v ===== *)
(** * Delegations and parallel groups

    The bounded walk that resolves a [self] delegation finds the nearest
    ancestor with a real agent; calls announced in one parallel group end up
    pairwise connected. *)
From stdpp Require Import base list gmap strings sorting.
From Stdlib Require Import ZArith Lia.
From S2P Require Import Prelude PyText Sha256 Utils Json QueueFiles QueueManager.
From S2P Require Import GraphStore Services DefaultHandler Layer2 Layer3.

(** ** Resolving [self] *)

Definition spawner (g : GraphState) (s : string) : option obj :=
  List.find (is_delegation_of s) (map snd (_nodes g)).
Definition is_self (d : obj) : bool := jstr_is "self" (jget "agent" d).

(** The chain of [self] delegations from session [s] ends after [k] hops with
    answer [v]: at a session nobody delegated to, at a delegation to a real
    agent, or at one whose own parent is unknown. *)
Inductive nearest (g : GraphState) : string -> nat -> json -> Prop :=
  | near_root s : spawner g s = None ->
      nearest g s 0 (JStr (_discriminate_root_vs_unresolved (dget s (_nodes g))))
  | near_agent s d : spawner g s = Some d -> is_self d = false ->
      nearest g s 0 (py_or (jget "agent" d) (JStr "unresolved"))
  | near_lost s d : spawner g s = Some d -> is_self d = true ->
      str_field "parent_session_id" d = Ok None -> nearest g s 0 (JStr "unresolved")
  | near_hop s d s' k v : spawner g s = Some d -> is_self d = true ->
      str_field "parent_session_id" d = Ok (Some s') -> nearest g s' k v -> nearest g s (S k) v.

Lemma nearest_det g s k v k' v' : nearest g s k v -> nearest g s k' v' -> k = k' /\ v = v'.
Proof.
  intros H. revert k' v'. induction H as [s Hs|s d Hs Ha|s d Hs Ha Hp|s d s' k v Hs Ha Hp Hn IH];
    intros k' v' Hn'; destruct Hn'; simplify_eq; try congruence; [done..|].
  assert (Heq : s' = s'0) by congruence. subst s'0.
  by destruct (IH _ _ Hn') as [-> ->].
Qed.

Lemma resolve_loop_step fuel ws s vis g :
  resolve_loop (S fuel) ws s vis g =
  if decide (s ∈ vis) then (Ok (JStr "unresolved"), g) else
  match spawner g s with
  | None => (Ok (JStr (_discriminate_root_vs_unresolved (dget s (_nodes g)))), g)
  | Some d => if is_self d then
      match str_field "parent_session_id" d with
      | Ok None => (Ok (JStr "unresolved"), g)
      | Ok (Some n) => resolve_loop fuel ws n (s :: vis) g
      | Err e => (Err e, g)
      end
    else (Ok (py_or (jget "agent" d) (JStr "unresolved")), g)
  end.
Proof.
  simpl. case_decide; [done|]. unfold mbind. simpl. unfold gs_find_delegation, spawner, is_self.
  destruct (List.find _ _) as [d|]; [|done]. destruct (jstr_is "self" (jget "agent" d)); [|done].
  unfold mlift. by destruct (str_field "parent_session_id" d) as [[|]|].
Qed.

(** A finite chain is never cut by the cycle guard, only by the depth cap. *)
Lemma resolve_loop_nearest g ws fuel s vis k v :
  nearest g s k v -> (forall x, x ∈ vis -> exists j u, nearest g x j u /\ k < j) ->
  resolve_loop fuel ws s vis g = (Ok (if k <? fuel then v else JStr "unresolved"), g).
Proof.
  revert s vis k. induction fuel as [|fuel IH]; intros s vis k Hn Hvis; [done|].
  rewrite resolve_loop_step. rewrite decide_False.
  2: { intros Hin. destruct (Hvis s Hin) as (j & u & Hj & Hlt).
       destruct (nearest_det g s k v j u Hn Hj). lia. }
  destruct Hn as [s Hs|s d Hs Ha|s d Hs Ha Hp|s d s' k v Hs Ha Hp Hn]; rewrite Hs, ?Ha, ?Hp; try done.
  rewrite (IH s' (s :: vis) k Hn); [done|]. intros x [->|Hx]%elem_of_cons.
  - exists (S k), v. split; [by eapply near_hop|lia].
  - destruct (Hvis x Hx) as (j & u & Hj & Hlt). exists j, u. split; [done|lia].
Qed.

Lemma discriminate_not_self o : _discriminate_root_vs_unresolved o <> "self".
Proof. unfold _discriminate_root_vs_unresolved. by repeat case_bool_decide. Qed.

Lemma resolve_loop_safe g ws fuel s vis :
  (resolve_loop fuel ws s vis g).2 = g /\ (resolve_loop fuel ws s vis g).1 <> Ok (JStr "self").
Proof.
  revert s vis. induction fuel as [|fuel IH]; intros s vis; [done|]. rewrite resolve_loop_step.
  case_decide; [done|]. destruct (spawner g s) as [d|].
  - destruct (is_self d) eqn:Hs; [destruct (str_field _ d) as [[n|]|]; [apply IH|done..]|].
    split; [done|]. simpl. unfold is_self in Hs. unfold py_or.
    destruct (jget "agent" d); simpl in *; try done; try (by case_match).
    destruct (negb _); [|done]. apply bool_decide_eq_false in Hs. congruence.
  - split; [done|]. simpl. intros [= Heq]. by apply discriminate_not_self in Heq.
Qed.

(** Resolving a [self] delegation.  The walk only reads, never answers
    [self], and whenever the chain of [self] delegations is finite it answers
    exactly what stands at its end (the real agent, the root or fork marker, or
    unresolved) if that is at most seven hops away and [unresolved] beyond the
    depth cap; the cycle guard never cuts a chain that ends. *)
Theorem resolve_self_agent_correct (g : GraphState) (s workspace : string) :
  let '(r, g') := resolve_self_agent s workspace g in
  g' = g /\ r <> Ok (JStr "self")
  /\ forall k v, nearest g s k v ->
       r = Ok (if k <? _MAX_SELF_DELEGATION_DEPTH then v else JStr "unresolved").
Proof.
  unfold resolve_self_agent. assert (Hs := resolve_loop_safe g workspace _MAX_SELF_DELEGATION_DEPTH s []).
  assert (Hn := fun k v H => resolve_loop_nearest g workspace _MAX_SELF_DELEGATION_DEPTH s [] k v H
                  (fun x Hx => match not_elem_of_nil x Hx with end)).
  destruct (resolve_loop _ _ _ _ g) as [r g']. destruct Hs as [Hg Hr]. simpl in Hg, Hr.
  split; [done|]. split; [done|]. intros k v Hk. specialize (Hn k v Hk). by simplify_eq.
Qed.

(** ** Parallel groups *)

Section parallel.
Context `{!Timestamps} `{!PyRepr}.
Implicit Types w : Worker GraphState.

Definition parallel w (a b : string) : Prop :=
  exists e, dget (a, b) (_edges (graph (services w))) = Some e
    /\ dget "type" e = Some (JStr "PARALLEL_EXECUTION").
Definition members w (group : string) : list string := group_members group (tool_parallel_groups w).

Lemma par_edge_step w t b :
  let '(r, w') := svc (sst_edge t b "PARALLEL_EXECUTION" "NEAR") w in
  r = Ok tt /\ parallel w' t b /\ tool_parallel_groups w' = tool_parallel_groups w
  /\ forall x y, parallel w x y -> parallel w' x y.
Proof.
  unfold svc, sst_edge, on_graph. simpl. split; [done|].
  assert (Hnew : forall e : obj, dget "type" (dset "sst_semantic" (JStr "NEAR")
    (dset "type" (JStr "PARALLEL_EXECUTION") e)) = Some (JStr "PARALLEL_EXECUTION")).
  { intros e. rewrite dget_dset_ne by done. apply dget_dset_eq. }
  split; [|split; [done|]].
  - eexists. simpl. rewrite dget_dset_eq. split; [done|]. apply Hnew.
  - intros x y (e & He & Hty). unfold parallel. simpl. rewrite dget_dset.
    case_decide; [|by exists e]. eexists. split; [done|]. apply Hnew.
Qed.

Lemma par_edges t ms w :
  let '(r, w') := mfor ms (fun m => svc (sst_edge t m "PARALLEL_EXECUTION" "NEAR")) w in
  r = Ok tt /\ (forall m, m ∈ ms -> parallel w' t m) /\ tool_parallel_groups w' = tool_parallel_groups w
  /\ forall x y, parallel w x y -> parallel w' x y.
Proof.
  revert w. induction ms as [|m ms IH]; intros w; simpl.
  { split; [done|]. split; [intros m Hm; by apply elem_of_nil in Hm|done]. }
  unfold mbind. assert (H1 := par_edge_step w t m).
  destruct (svc _ w) as [r w1]. destruct H1 as (-> & Hp & Hg & Hk).
  specialize (IH w1). destruct (mfor ms _ w1) as [r w2]. destruct IH as (-> & Hp2 & Hg2 & Hk2).
  split; [done|]. split; [|split; [congruence|auto]].
  intros x [->|Hx]%elem_of_cons; auto.
Qed.

Lemma join_group group t w :
  let '(r, w') := join_tool_group group t w in
  r = Ok tt /\ members w' group = members w group ++ [t]
  /\ (forall m, m ∈ members w group -> parallel w' t m) /\ forall x y, parallel w x y -> parallel w' x y.
Proof.
  unfold join_tool_group, mbind, mget, mmodify. fold (members w group).
  set (w1 := with_tool_groups _ w). assert (H1 := par_edges t (members w group) w1).
  destruct (mfor _ _ w1) as [r w2]. destruct H1 as (-> & Hp & Hg & Hk).
  split; [done|]. split; [|split; [exact Hp|exact Hk]].
  unfold members at 1, group_members. simpl. by rewrite dget_dset_eq.
Qed.

(** Tool calls announced in one parallel group are pairwise connected.
    Joining calls one after another to a new group always succeeds, remembers
    them in order, and leaves a [PARALLEL_EXECUTION] edge from every later call
    to every earlier one. *)
Theorem parallel_group_pairwise w group ts :
  members w group = [] ->
  exists w', mfor ts (join_tool_group group) w = (Ok tt, w')
    /\ members w' group = ts
    /\ forall i j a b, i < j -> ts !! i = Some a -> ts !! j = Some b -> parallel w' b a.
Proof.
  intros Hm. assert (Hgen : forall ts w ds,
    members w group = ds ->
    (forall i j a b, i < j -> ds !! i = Some a -> ds !! j = Some b -> parallel w b a) ->
    exists w', mfor ts (join_tool_group group) w = (Ok tt, w') /\ members w' group = ds ++ ts
      /\ forall i j a b, i < j -> (ds ++ ts) !! i = Some a -> (ds ++ ts) !! j = Some b -> parallel w' b a).
  { clear. induction ts as [|t ts IH]; intros w ds Hd Hp; simpl.
    { rewrite app_nil_r. by exists w. }
    unfold mbind. assert (H1 := join_group group t w). destruct (join_tool_group group t w) as [r w1].
    destruct H1 as (-> & Hmem & Hnew & Hkeep). rewrite Hd in Hmem, Hnew.
    destruct (IH w1 (ds ++ [t]) Hmem) as (w' & Hr & Hm' & Hp').
    { intros i j a b Hij Hi Hj. destruct (decide (j < length ds)) as [Hlt|Hge].
      - rewrite lookup_app_l in Hi, Hj by lia. apply Hkeep. exact (Hp i j a b Hij Hi Hj).
      - apply lookup_lt_Some in Hj as Hlen. rewrite length_app in Hlen. simpl in Hlen.
        assert (j = length ds) by lia. subst j. rewrite lookup_app_l in Hi by lia.
        rewrite lookup_app_r, Nat.sub_diag in Hj by lia. simplify_eq/=.
        apply Hnew. exact (list_elem_of_lookup_2 _ _ _ Hi). }
    rewrite <- app_assoc in Hm', Hp'. exists w'. done. }
  destruct (Hgen ts w [] Hm) as (w' & Hr & Hmem & Hp); [intros i j a b _ Hi; by rewrite lookup_nil in Hi|].
  by exists w'.
Qed.
End parallel.

#[local] Existing Instance demo_timestamps.
#[local] Instance demo_repr : PyRepr := fun _ => "".

Lemma parallel_group_pairwise_witness :
  exists w', mfor ["a"; "b"; "c"] (join_tool_group "g") (new_worker (MkGraph "w" None [] [])) = (Ok tt, w')
    /\ parallel w' "c" "a".
Proof.
  destruct (parallel_group_pairwise (new_worker (MkGraph "w" None [] [])) "g" ["a"; "b"; "c"] eq_refl)
    as (w' & Hr & _ & Hp).
  exists w'. split; [exact Hr|]. apply (Hp 0 2 "a" "c"); [lia|reflexivity|reflexivity].
Defined.

(** A chain of two [self] delegations below a real agent *)
Example resolve_chain :
  let del s p a := [("labels", jstrs ["Delegation"]); ("agent", JStr a); ("sub_session_id", JStr s);
                    ("parent_session_id", JStr p)] in
  let g := MkGraph "w" None [("d1", del "s1" "s0" "coder"); ("d2", del "s2" "s1" "self");
                             ("d3", del "s3" "s2" "self"); ("s0", [("labels", jstrs ["RootSession"])])] [] in
  fst (resolve_self_agent "s3" "w" g) = Ok (JStr "coder")
  /\ fst (resolve_self_agent "s0" "w" g) = Ok (JStr "root").
Proof. split; vm_compute; reflexivity. Qed.
