(* ===== verification/BlobKeys.v ===== *)
(** * Blob addresses ([blob_keys.py])

    The single map from logical blob names to physical file names.  An
    ordinary name keeps its historical layout ([ci-blob://<session>/<name>],
    stored as [<name>.json]); a name that cannot be one filename component is
    stored under the digest of the name, in a namespace of its own.  The
    operations are pure and raise [ValueError]; names are UTF-8 strings
    (PyText), so [encode] never fails here.

    The theorems: formatting and parsing are inverse on every valid address
    (URI and directory entry), hence the two namespaces are disjoint and no two
    addresses share a file; a written name is read back through exactly the
    address it was written to; every name fits the file system's limit with
    room for the temporary suffix; and writing fails only for an unsafe session
    or a reserved name. *)
From stdpp Require Import base list strings sets.
From Stdlib Require Import ZArith Lia.
From Stdlib Require Strings.Byte.
From S2P Require Import Prelude PyText Sha256 Utils.

#[local] Open Scope string_scope.

Definition LOCK : string := ".ci-blob-retention.lock".
Definition METADATA : string := ".ci-blob-retention".
Definition MAPPED_MARKER : string := "~ci-key-v1".
Definition _SCHEME : string := "ci-blob://".
Definition _DIGEST_DOMAIN : bytes := bytes_of "ci-blob-event-key:v1" ++ [Byte.x00].
Definition MAX_SESSION_BYTES : Z := 255.
Definition MAX_KEY_BYTES : Z := 242.
Definition MAX_PHYSICAL_KEY_BYTES : Z := 250.

Definition slash : byte := Byte.x2f.
Definition backslash : byte := Byte.x5c.

(** [ord(c) < 32 or ord(c) == 127] *)
Definition is_control (b : byte) : bool := (bZ b <? 32)%Z || (bZ b =? 127)%Z.

(** The characters [component] refuses. *)
Definition bad_char (b : byte) : bool :=
  bool_decide (b = slash) || bool_decide (b = backslash) || is_control b.

Definition component (value : string) : result string :=
  if bool_decide (value = "")
     || bool_decide (value ∈ ["."; ".."; LOCK; METADATA])
     || existsb bad_char (bytes_of value)
  then Err ValueError
  else Ok value.

(** [re.fullmatch("[0-9a-f]{64}", name)] *)
Definition _HEX64 (name : string) : bool :=
  (String.length name =? 64)%nat && forallb is_hex (bytes_of name).

(** The host: [os.sep], [os.altsep], [os.name]. *)
Class Os := {
  os_sep : string;
  os_altsep : option string;
  os_name : string;
}.

(** [value.split("/")] *)
Fixpoint split_byte (sep : byte) (l : bytes) : list bytes :=
  match l with
  | [] => [[]]
  | b :: l' =>
    if decide (b = sep) then [] :: split_byte sep l'
    else match split_byte sep l' with
         | [] => [[b]]
         | part :: parts => (b :: part) :: parts
         end
  end.

Definition starts_with (p s : string) : bool := bool_decide (bytes_of p `prefix_of` bytes_of s).

(** [uri[len(_SCHEME):].split("/")] *)
Definition uri_parts (uri : string) : list string :=
  map str_of (split_byte slash (drop (String.length _SCHEME) (bytes_of uri))).

(** A validated physical address; [mk_address] is the dataclass constructor
    with its [__post_init__]. *)
Record BlobAddress := Address {
  ba_session : string;
  ba_name : string;
  ba_mapped : bool;
}.

#[export] Instance BlobAddress_eq_dec : EqDecision BlobAddress.
Proof. solve_decision. Defined.

(** [re.escape(MAPPED_MARKER) + "~([0-9a-f]{64})\.blob"], [match[1]] *)
Definition _MAPPED_FILENAME (filename : string) : option string :=
  let b := bytes_of filename in
  let digest := str_of (take 64 (drop 11 b)) in
  if bool_decide (take 11 b = bytes_of (MAPPED_MARKER +:+ "~"))
     && _HEX64 digest && bool_decide (drop 75 b = bytes_of ".blob")
  then Some digest else None.

Section blob_keys.
Context `{Os}.

Definition _legacy_backslash_supported : bool :=
  bool_decide (os_sep = "/") && bool_decide (os_altsep = None) && negb (bool_decide (os_name = "nt")).

Definition _ordinary_stem (value : string) : result string :=
  if bool_decide (backslash ∈ bytes_of value) && _legacy_backslash_supported then
    let? _ := component (str_of (replace_byte backslash Byte.x5f (bytes_of value))) in Ok value
  else component value.

Definition mk_address (session name : string) (mapped : bool) : result BlobAddress :=
  let? _ := component session in
  if mapped then
    if _HEX64 name then Ok (Address session name true) else Err ValueError
  else
    let? _ := _ordinary_stem name in Ok (Address session name false).

Definition ba_uri (a : BlobAddress) : string :=
  if ba_mapped a then _SCHEME +:+ ba_session a +:+ "/" +:+ MAPPED_MARKER +:+ "/" +:+ ba_name a
  else _SCHEME +:+ ba_session a +:+ "/" +:+ ba_name a.

Definition ba_stem (a : BlobAddress) : string :=
  if ba_mapped a then MAPPED_MARKER +:+ "~" +:+ ba_name a else ba_name a.

Definition ba_filename (a : BlobAddress) : string :=
  if ba_mapped a then ba_stem a +:+ ".blob" else ba_stem a +:+ ".json".

Definition _mapped (session logical_name : string) : result BlobAddress :=
  mk_address session (str_of (sha256_hexdigest (_DIGEST_DOMAIN ++ bytes_of logical_name))) true.

Definition reserved_key (name : string) : bool :=
  bool_decide (name ∈ [""; "."; ".."; LOCK; METADATA]).

Definition write_address (session_id logical_name : string) : result BlobAddress :=
  let? session_id := component session_id in
  let session := fold_name session_id MAX_SESSION_BYTES in
  if reserved_key logical_name then Err ValueError
  else match component logical_name with
       | Err _ => _mapped session logical_name
       | Ok _ => mk_address session (fold_name logical_name MAX_KEY_BYTES) false
       end.

Definition exact_address (uri : string) : result BlobAddress :=
  if negb (starts_with _SCHEME uri) then Err ValueError
  else match uri_parts uri with
       | [s; n] => mk_address s n false
       | [s; m; d] => if bool_decide (m = MAPPED_MARKER) then mk_address s d true else Err ValueError
       | _ => Err ValueError
       end.

Definition parse_address (uri : string) : result BlobAddress :=
  let? addr := exact_address uri in
  let session := fold_name (ba_session addr) MAX_SESSION_BYTES in
  if ba_mapped addr then mk_address session (ba_name addr) true
  else mk_address session (fold_name (ba_name addr) MAX_KEY_BYTES) false.

Definition parse_uri (uri : string) : result (string * string) :=
  let? addr := exact_address uri in
  Ok (ba_session addr,
      if ba_mapped addr then MAPPED_MARKER +:+ "/" +:+ ba_name addr else ba_name addr).

Definition address_from_filename (session filename : string) : result (option BlobAddress) :=
  if str_ends_with ".json" filename then
    let? a := mk_address session (drop_suffix 5 filename) false in Ok (Some a)
  else match _MAPPED_FILENAME filename with
       | Some digest => let? a := mk_address session digest true in Ok (Some a)
       | None => Ok None
       end.

(** [for stem in stems: try candidate = BlobAddress(...) except ValueError:
    continue; if candidate not in addresses: append] *)
Fixpoint collect_addresses (session : string) (stems : list string) (acc : list BlobAddress)
    : list BlobAddress :=
  match stems with
  | [] => acc
  | stem :: stems' =>
    match mk_address session stem false with
    | Err _ => collect_addresses session stems' acc
    | Ok candidate =>
      collect_addresses session stems'
        (if bool_decide (candidate ∈ acc) then acc else (acc ++ [candidate])%list)
    end
  end.

Definition legacy_addresses (session_id logical_name : string) : result (list BlobAddress) :=
  let? session_id := component session_id in
  let session := fold_name session_id MAX_SESSION_BYTES in
  if reserved_key logical_name then Ok []
  else
    let exact :=
      if (Z.of_nat (length (bytes_of logical_name)) <=? MAX_PHYSICAL_KEY_BYTES)%Z
      then [logical_name] else [] in
    Ok (collect_addresses session (exact ++ [fold_name logical_name MAX_KEY_BYTES])%list []).

Definition legacy_address (session_id logical_name : string) : result (option BlobAddress) :=
  let? addresses := legacy_addresses session_id logical_name in Ok (head addresses).

(** [tuple(dict.fromkeys(l))]: the first occurrences, in order. *)
Fixpoint from_keys (l acc : list BlobAddress) : list BlobAddress :=
  match l with
  | [] => acc
  | a :: l' => from_keys l' (if bool_decide (a ∈ acc) then acc else (acc ++ [a])%list)
  end.

Definition read_candidates (uri : string) : result (list BlobAddress) :=
  let? addr := exact_address uri in
  if ba_mapped addr then let? a := parse_address uri in Ok [a]
  else
    let? canonical := write_address (ba_session addr) (ba_name addr) in
    let? legacy := legacy_addresses (ba_session addr) (ba_name addr) in
    Ok (from_keys (legacy ++ [canonical])%list []).

End blob_keys.

(** ** Components *)

Lemma component_spec v w :
  component v = Ok w <->
  w = v /\ v <> "" /\ v ∉ ["."; ".."; LOCK; METADATA]
  /\ Forall (fun b => bad_char b = false) (bytes_of v).
Proof.
  unfold component.
  destruct (bool_decide (v = "")) eqn:H1; [apply bool_decide_eq_true in H1; naive_solver|].
  destruct (bool_decide (v ∈ _)) eqn:H2; [apply bool_decide_eq_true in H2; naive_solver|].
  apply bool_decide_eq_false in H1, H2. cbn [orb].
  destruct (existsb bad_char (bytes_of v)) eqn:H3.
  - split; [done|]. intros (_ & _ & _ & Hf). apply existsb_exists in H3 as (b & Hb & Hbad).
    apply list_elem_of_In in Hb. rewrite Forall_forall in Hf. by rewrite (Hf b Hb) in Hbad.
  - assert (Forall (fun b => bad_char b = false) (bytes_of v)); [|naive_solver].
    apply Forall_forall. intros b Hb. destruct (bad_char b) eqn:Hbad; [|done].
    rewrite <- H3. symmetry. apply existsb_exists. exists b. by rewrite <- list_elem_of_In.
Qed.

Lemma component_Ok v w : component v = Ok w -> w = v.
Proof. by intros [-> _]%component_spec. Qed.

(** A byte [component] refuses is in no component. *)
Lemma component_notin v b : component v = Ok v -> bad_char b = true -> b ∉ bytes_of v.
Proof.
  intros (_ & _ & _ & Hf)%component_spec Hb Hin. rewrite Forall_forall in Hf.
  rewrite (Hf b Hin) in Hb. done.
Qed.

Lemma str_of_inj a b : str_of a = str_of b -> a = b.
Proof. intros Heq. rewrite <- (bytes_of_str_of a), <- (bytes_of_str_of b). by rewrite Heq. Qed.
Lemma bytes_of_inj s t : bytes_of s = bytes_of t -> s = t.
Proof. intros Heq. rewrite <- (str_of_bytes_of s), <- (str_of_bytes_of t). by rewrite Heq. Qed.

Lemma trunc_valid_take n e : exists k, trunc_valid n e = take k e.
Proof.
  induction n as [|n IH]; [by exists 0|]. cbn [trunc_valid]. case_match; eauto.
Qed.

(** A name over the budget becomes a sanitised prefix of itself and the suffix. *)
Lemma fold_name_bytes value max :
  (max < Z.of_nat (String.length value))%Z ->
  exists k, bytes_of (fold_name value max)
            = (sanitize (take k (bytes_of value)) ++ fold_suffix (bytes_of value))%list.
Proof.
  intros Hlen. unfold fold_name. rewrite length_bytes_of.
  destruct (Z.leb_spec (Z.of_nat (String.length value)) max); [lia|].
  rewrite bytes_of_str_of, length_fold_suffix. unfold slice_to.
  case_match;
    (edestruct trunc_valid_take as [j ->]; rewrite take_take; eexists; reflexivity).
Qed.

Lemma replace_byte_Forall (P : byte -> Prop) a b l :
  P b -> Forall P l -> Forall P (replace_byte a b l).
Proof.
  intros Hb Hl. unfold replace_byte. apply Forall_map. eapply Forall_impl; [exact Hl|].
  intros x Hx. simpl. by case_decide.
Qed.

(** Sanitising removes separators whatever it is given. *)
Lemma sanitize_bad l :
  Forall (fun b => is_control b = false) l ->
  Forall (fun b => bad_char b = false) (sanitize l).
Proof.
  intros Hl. apply Forall_forall. intros b Hb. unfold bad_char.
  assert (Hc : Forall (fun b => is_control b = false) (sanitize l)).
  { unfold sanitize. by repeat apply replace_byte_Forall. }
  rewrite (proj1 (Forall_forall _ _) Hc b Hb), orb_false_r.
  rewrite !bool_decide_eq_false_2; [done|intros ->..];
    revert Hb; apply sanitize_safe; unfold path_unsafe, backslash, slash; set_solver.
Qed.

Lemma fold_suffix_bad e : Forall (fun b => bad_char b = false) (fold_suffix e).
Proof.
  eapply Forall_impl; [apply fold_suffix_chars|]. intros b Hb. unfold bad_char, is_control.
  rewrite !bool_decide_eq_false_2.
  - destruct (Z.ltb_spec (bZ b) 32), (Z.eqb_spec (bZ b) 127); simpl in *; try lia; done.
  - intros ->. unfold bZ in Hb. simpl in Hb. lia.
  - intros ->. unfold bZ in Hb. simpl in Hb. lia.
Qed.

Lemma tilde_not_reserved v :
  Byte.x7e ∈ bytes_of v -> v <> "" /\ v ∉ ["."; ".."; LOCK; METADATA].
Proof.
  assert (Hno : forall w, w ∈ [""; "."; ".."; LOCK; METADATA] -> Byte.x7e ∉ bytes_of w).
  { intros w Hw. rewrite !elem_of_cons, elem_of_nil in Hw.
    destruct Hw as [->|[->|[->|[->|[->|[]]]]]]; apply (bool_decide_unpack _); vm_compute; exact I. }
  intros Hin. split; [intros ->|intros Hv]; by eapply Hno; [|exact Hin]; set_solver.
Qed.

(** Folding an ordinary stem yields a component: the prefix is sanitised, and
    the suffix keeps the result away from the reserved names. *)
Lemma fold_name_over_component v max :
  (max < Z.of_nat (String.length v))%Z ->
  Forall (fun b => is_control b = false) (bytes_of v) ->
  component (fold_name v max) = Ok (fold_name v max).
Proof.
  intros Hlen Hv. destruct (fold_name_bytes v max Hlen) as [k Hk].
  apply component_spec. split; [done|].
  assert (Hbad : Forall (fun b => bad_char b = false) (bytes_of (fold_name v max))).
  { rewrite Hk. apply Forall_app. split; [|apply fold_suffix_bad].
    by apply sanitize_bad, Forall_take. }
  destruct (tilde_not_reserved (fold_name v max)) as [H1 H2]; [|done].
  rewrite Hk. apply elem_of_app. right. apply elem_of_app. left. set_solver.
Qed.

Lemma bad_char_control b : bad_char b = false -> is_control b = false.
Proof. unfold bad_char. by intros [_ ?]%orb_false_iff. Qed.

Lemma component_fold v max :
  component v = Ok v -> component (fold_name v max) = Ok (fold_name v max).
Proof.
  intros Hc. destruct (Z.leb_spec (Z.of_nat (String.length v)) max) as [Hle|Hlt].
  - by rewrite fold_name_id.
  - apply fold_name_over_component; [done|].
    apply component_spec in Hc as (_ & _ & _ & Hf). eapply Forall_impl; [exact Hf|].
    intros b. apply bad_char_control.
Qed.

(** ** Splitting at separators *)

Lemma split_byte_notin sep l : sep ∉ l -> split_byte sep l = [l].
Proof.
  induction l as [|b l IH]; [done|]. intros [Hb Hl]%not_elem_of_cons. cbn [split_byte].
  rewrite decide_False by congruence. by rewrite IH.
Qed.

Lemma split_byte_app sep a l :
  sep ∉ a -> split_byte sep (a ++ sep :: l)%list = a :: split_byte sep l.
Proof.
  induction a as [|b a IH]; cbn [app split_byte]; [by rewrite decide_True|].
  intros [Hb Ha]%not_elem_of_cons. rewrite decide_False by congruence. by rewrite IH.
Qed.

(** [sep.join(parts)] *)
Fixpoint join_bytes (sep : byte) (parts : list bytes) : bytes :=
  match parts with
  | [] => []
  | [p] => p
  | p :: parts' => (p ++ sep :: join_bytes sep parts')%list
  end.

Lemma join_split sep l : join_bytes sep (split_byte sep l) = l.
Proof.
  induction l as [|b l IH]; [done|]. cbn [split_byte]. case_decide.
  - subst b. destruct (split_byte sep l) eqn:Hs; [by destruct l; simpl in *; repeat case_match|].
    cbn [join_bytes]. cbn [join_bytes] in IH. by rewrite IH.
  - destruct (split_byte sep l) as [|p ps] eqn:Hs; [by rewrite <- IH|].
    rewrite <- IH. destruct ps; done.
Qed.

Section addresses.
Context `{Os}.

Lemma ordinary_stem_spec v w :
  _ordinary_stem v = Ok w ->
  w = v /\ slash ∉ bytes_of v /\ Forall (fun b => is_control b = false) (bytes_of v).
Proof.
  unfold _ordinary_stem. destruct (_ && _).
  - intros (r & Hr & [= ->])%rbind_ok. split; [done|].
    pose proof (component_Ok _ _ Hr) as ->. split.
    + intros Hin. eapply (component_notin _ slash Hr); [done|]. rewrite bytes_of_str_of.
      apply list_elem_of_fmap. exists slash. by rewrite decide_False.
    + apply component_spec in Hr as (_ & _ & _ & Hf). rewrite bytes_of_str_of in Hf.
      apply Forall_map in Hf. eapply Forall_impl; [exact Hf|]. simpl. intros b.
      case_decide; [by subst b|apply bad_char_control].
  - intros Hc. pose proof (component_Ok _ _ Hc) as ->. split; [done|]. split.
    + by apply component_notin.
    + apply component_spec in Hc as (_ & _ & _ & Hf). eapply Forall_impl; [exact Hf|].
      intros b. apply bad_char_control.
Qed.

Lemma component_ordinary v : component v = Ok v -> _ordinary_stem v = Ok v.
Proof.
  intros Hc. unfold _ordinary_stem. rewrite bool_decide_eq_false_2; [done|].
  by apply component_notin.
Qed.

Lemma ordinary_fold v max :
  _ordinary_stem v = Ok v -> _ordinary_stem (fold_name v max) = Ok (fold_name v max).
Proof.
  intros Hv. destruct (Z.leb_spec (Z.of_nat (String.length v)) max) as [Hle|Hlt].
  - by rewrite fold_name_id.
  - apply component_ordinary, fold_name_over_component; [done|].
    by apply ordinary_stem_spec in Hv as (_ & _ & ?).
Qed.

Lemma mk_address_spec s n m a :
  mk_address s n m = Ok a <->
  a = Address s n m /\ component s = Ok s
  /\ (if m then _HEX64 n = true else _ordinary_stem n = Ok n).
Proof.
  unfold mk_address. destruct (component s) as [s'|e] eqn:Hs; cbn [rbind]; [|naive_solver].
  pose proof (component_Ok _ _ Hs) as ->. destruct m.
  - destruct (_HEX64 n); naive_solver.
  - destruct (_ordinary_stem n) as [n'|e] eqn:Hn; cbn [rbind]; [|naive_solver].
    apply ordinary_stem_spec in Hn as [-> _]. naive_solver.
Qed.

(** An address the constructor accepts. *)
Definition valid_address (a : BlobAddress) : Prop :=
  mk_address (ba_session a) (ba_name a) (ba_mapped a) = Ok a.

Lemma mk_address_valid s n m a :
  mk_address s n m = Ok a -> valid_address a /\ a = Address s n m.
Proof. intros Ha. pose proof Ha as [-> _]%mk_address_spec. done. Qed.

Lemma hex64_bytes n : _HEX64 n = true -> Forall (fun b => is_hex b = true) (bytes_of n).
Proof. unfold _HEX64. intros [_ Hf]%andb_true_iff. apply Forall_forall. intros b Hb%list_elem_of_In. by apply (proj1 (forallb_forall _ _) Hf).
Qed.

Lemma hex64_length n : _HEX64 n = true -> String.length n = 64%nat.
Proof. unfold _HEX64. by intros [?%Nat.eqb_eq _]%andb_true_iff. Qed.

Lemma hex64_no_slash n : _HEX64 n = true -> slash ∉ bytes_of n.
Proof.
  intros Hn%hex64_bytes Hin. by apply (proj1 (Forall_forall _ _) Hn) in Hin.
Qed.

Lemma starts_with_app p s : starts_with p (p +:+ s) = true.
Proof. unfold starts_with. rewrite bytes_of_app. by apply bool_decide_eq_true, prefix_app_r. Qed.

Lemma uri_parts_app s : uri_parts (_SCHEME +:+ s) = map str_of (split_byte slash (bytes_of s)).
Proof. unfold uri_parts. by rewrite bytes_of_app, <- length_bytes_of, drop_app_length. Qed.

Lemma exact_uri a : valid_address a -> exact_address (ba_uri a) = Ok a.
Proof.
  destruct a as [s n m]. unfold valid_address. cbn [ba_session ba_name ba_mapped].
  intros Hv. pose proof Hv as (_ & Hs & Hn)%mk_address_spec.
  assert (slash ∉ bytes_of s) by (by apply component_notin).
  unfold exact_address, ba_uri. cbn [ba_session ba_name ba_mapped].
  destruct m; rewrite starts_with_app, uri_parts_app, !bytes_of_app; cbn [negb];
    change (bytes_of "/") with [slash]; cbn [app]; rewrite split_byte_app by done.
  - rewrite split_byte_app by (apply (bool_decide_unpack _); vm_compute; exact I).
    rewrite split_byte_notin by (by apply hex64_no_slash). cbn [map].
    by rewrite !str_of_bytes_of, bool_decide_eq_true_2.
  - apply ordinary_stem_spec in Hn as (_ & Hn & _).
    rewrite split_byte_notin by done. cbn [map]. by rewrite !str_of_bytes_of.
Qed.

Lemma starts_with_uri uri :
  starts_with _SCHEME uri = true ->
  uri = _SCHEME +:+ str_of (join_bytes slash (map bytes_of (uri_parts uri))).
Proof.
  unfold starts_with, uri_parts. intros [r Hr]%bool_decide_eq_true. apply bytes_of_inj.
  rewrite bytes_of_app, bytes_of_str_of, map_map, Hr. f_equal.
  rewrite <- length_bytes_of, drop_app_length.
  rewrite (map_ext _ id) by apply bytes_of_str_of. by rewrite map_id, join_split.
Qed.

Lemma exact_address_inv uri a :
  exact_address uri = Ok a -> valid_address a /\ ba_uri a = uri.
Proof.
  unfold exact_address. destruct (starts_with _SCHEME uri) eqn:Hst; [|done].
  apply starts_with_uri in Hst. cbn [negb]. revert Hst.
  destruct (uri_parts uri) as [|s [|m [|d [|]]]]; try done; cbn [map join_bytes]; intros ->.
  - intros [Hv ->]%mk_address_valid. split; [done|]. unfold ba_uri. cbn [ba_mapped ba_session ba_name].
    change (slash :: bytes_of m) with (bytes_of "/" ++ bytes_of m)%list.
    by rewrite !str_of_app, !str_of_bytes_of.
  - case_bool_decide as Hm; [|done]. subst m. intros [Hv ->]%mk_address_valid.
    split; [done|]. unfold ba_uri. cbn [ba_mapped ba_session ba_name].
    change (slash :: bytes_of d) with (bytes_of "/" ++ bytes_of d)%list.
    change (slash :: ?l) with (bytes_of "/" ++ l)%list.
    by rewrite !str_of_app, !str_of_bytes_of.
Qed.

(** ** Directory entries *)

Lemma ends_with_app s suf : str_ends_with suf (s +:+ suf) = true.
Proof. unfold str_ends_with. rewrite bytes_of_app. by apply bool_decide_eq_true, suffix_app_r. Qed.

Lemma str_ends_with_inv suf f :
  str_ends_with suf f = true -> f = drop_suffix (String.length suf) f +:+ suf.
Proof.
  unfold str_ends_with. intros [p Hp]%bool_decide_eq_true.
  assert (f = str_of p +:+ suf) as ->.
  { apply bytes_of_inj. by rewrite bytes_of_app, bytes_of_str_of. }
  by rewrite drop_suffix_app.
Qed.

Lemma mapped_filename_spec f d :
  _MAPPED_FILENAME f = Some d <->
  _HEX64 d = true /\ f = MAPPED_MARKER +:+ "~" +:+ d +:+ ".blob".
Proof.
  unfold _MAPPED_FILENAME. split.
  - intros Hm. case_match eqn:Hc; [|done]. simplify_eq.
    apply andb_true_iff in Hc as [[Ht Hh]%andb_true_iff Hd].
    apply bool_decide_eq_true in Ht, Hd. split; [done|]. apply bytes_of_inj.
    rewrite !bytes_of_app, <- Hd, bytes_of_str_of, app_assoc, <- bytes_of_app, <- Ht.
    rewrite <- (take_drop 11 (bytes_of f)) at 1. f_equal.
    rewrite <- (take_drop 64 (drop 11 (bytes_of f))) at 1. f_equal. by rewrite drop_drop.
  - intros [Hh ->]. pose proof (hex64_length d Hh) as Hlen.
    assert (Hb : bytes_of (MAPPED_MARKER +:+ "~" +:+ d +:+ ".blob")
                 = (bytes_of (MAPPED_MARKER +:+ "~") ++ bytes_of d ++ bytes_of ".blob")%list).
    { by rewrite !bytes_of_app, app_assoc. }
    rewrite Hb. rewrite <- length_bytes_of in Hlen.
    set (pre := bytes_of (MAPPED_MARKER +:+ "~")).
    assert (Hp : length pre = 11%nat) by reflexivity.
    rewrite (take_app_length' pre _ 11), (drop_app_length' pre _ 11) by done.
    rewrite (take_app_length' (bytes_of d)) by done. rewrite str_of_bytes_of, Hh.
    change 75%nat with (11 + 64)%nat. rewrite <- drop_drop, (drop_app_length' pre _ 11) by done.
    rewrite (drop_app_length' (bytes_of d)) by done.
    by rewrite !bool_decide_eq_true_2.
Qed.

Lemma blob_not_json s : str_ends_with ".json" (s +:+ ".blob") = false.
Proof.
  apply bool_decide_eq_false. rewrite bytes_of_app. intros [p Hp].
  apply app_inj_2 in Hp as [_ Hp]; [|reflexivity]. discriminate Hp.
Qed.

Lemma address_from_filename_spec session filename a :
  address_from_filename session filename = Ok (Some a)
  <-> valid_address a /\ ba_session a = session /\ ba_filename a = filename.
Proof.
  split.
  - unfold address_from_filename. destruct (str_ends_with ".json" filename) eqn:Hj.
    + intros (a' & [Hv ->]%mk_address_valid & [= <-])%rbind_ok. repeat split; [done|].
      unfold ba_filename, ba_stem. cbn [ba_mapped ba_name]. symmetry.
      exact (str_ends_with_inv ".json" filename Hj).
    + destruct (_MAPPED_FILENAME filename) as [d|] eqn:Hm; [|done].
      apply mapped_filename_spec in Hm as [Hh ->].
      intros (a' & [Hv ->]%mk_address_valid & [= <-])%rbind_ok. done.
  - intros (Hv & <- & <-). destruct a as [s n m]. unfold valid_address in Hv.
    unfold address_from_filename, ba_filename, ba_stem in *. cbn [ba_session ba_name ba_mapped] in *.
    destruct m.
    + rewrite blob_not_json.
      rewrite (proj2 (mapped_filename_spec _ n)); [by rewrite Hv|].
      by apply mk_address_spec in Hv as (_ & _ & ?).
    + rewrite ends_with_app. change 5%nat with (String.length ".json").
      by rewrite drop_suffix_app, Hv.
Qed.

(** No two valid addresses of a session share a file. *)
Lemma address_file_inj a b :
  valid_address a -> valid_address b -> ba_session a = ba_session b ->
  ba_filename a = ba_filename b -> a = b.
Proof.
  intros Ha Hb Hs Hf.
  assert (H1 : address_from_filename (ba_session b) (ba_filename b) = Ok (Some a))
    by (by apply address_from_filename_spec).
  assert (H2 : address_from_filename (ba_session b) (ba_filename b) = Ok (Some b))
    by (by apply address_from_filename_spec).
  congruence.
Qed.

(** C39: blob URIs and blob files are two faithful spellings of a valid address:
    a URI parses to [a] exactly when it is the URI of the valid address [a], and
    a directory entry is recognised as [a] exactly when it is the file of the
    valid address [a] in that session.  Parsing and printing are therefore
    inverse in both directions, and no two addresses, ordinary or mapped, share
    a URI or a file. *)
Theorem blob_address_roundtrip (uri session filename : string) (a : BlobAddress) :
  (exact_address uri = Ok a <-> valid_address a /\ ba_uri a = uri)
  /\ (address_from_filename session filename = Ok (Some a)
      <-> valid_address a /\ ba_session a = session /\ ba_filename a = filename).
Proof.
  split; [|apply address_from_filename_spec]. split; [apply exact_address_inv|].
  intros [Hv <-]. by apply exact_uri.
Qed.

(** ** Writing and reading back *)

Lemma hexdigest_HEX64 m : _HEX64 (str_of (sha256_hexdigest m)) = true.
Proof.
  unfold _HEX64. rewrite <- length_bytes_of, bytes_of_str_of, length_hexdigest. cbn [andb Nat.eqb].
  change ((64 =? 64)%nat) with true. apply forallb_forall.
  intros b Hb%list_elem_of_In. by apply (proj1 (Forall_forall _ _) (hexdigest_hex m)).
Qed.

(** Where a write goes, as a table. *)
Lemma write_address_spec s n :
  write_address s n =
  match component s with
  | Err e => Err e
  | Ok _ =>
    if reserved_key n then Err ValueError
    else Ok (if component n then Address (fold_name s MAX_SESSION_BYTES) (fold_name n MAX_KEY_BYTES) false
             else Address (fold_name s MAX_SESSION_BYTES)
                    (str_of (sha256_hexdigest (_DIGEST_DOMAIN ++ bytes_of n)%list)) true)
  end.
Proof.
  unfold write_address. destruct (component s) as [s'|e] eqn:Hs; cbn [rbind]; [|done].
  pose proof (component_Ok _ _ Hs) as ->. destruct (reserved_key n); [done|].
  apply (component_fold _ MAX_SESSION_BYTES) in Hs.
  destruct (component n) as [n'|e] eqn:Hn.
  - pose proof (component_Ok _ _ Hn) as ->. apply mk_address_spec. split; [done|].
    split; [done|]. by apply component_ordinary, component_fold.
  - unfold _mapped. apply mk_address_spec. split; [done|]. split; [done|]. apply hexdigest_HEX64.
Qed.

(** Folding both components of a valid address gives the canonical address. *)
Definition canonical (a : BlobAddress) : BlobAddress :=
  Address (fold_name (ba_session a) MAX_SESSION_BYTES)
    (if ba_mapped a then ba_name a else fold_name (ba_name a) MAX_KEY_BYTES) (ba_mapped a).

Lemma canonical_valid a : valid_address a -> valid_address (canonical a).
Proof.
  destruct a as [s n m]. unfold valid_address, canonical. cbn [ba_session ba_name ba_mapped].
  intros (_ & Hs & Hn)%mk_address_spec. apply mk_address_spec. split; [done|].
  split; [by apply component_fold|]. destruct m; [done|]. by apply ordinary_fold.
Qed.

Lemma fold_name_idem v max : (17 <= max)%Z -> fold_name (fold_name v max) max = fold_name v max.
Proof. intros Hmax. apply fold_name_id. by apply fold_name_length_le. Qed.

Lemma canonical_idem a : canonical (canonical a) = canonical a.
Proof.
  destruct a as [s n m]. unfold canonical. cbn [ba_session ba_name ba_mapped].
  rewrite fold_name_idem by (unfold MAX_SESSION_BYTES; lia). f_equal.
  destruct m; [done|]. apply fold_name_idem. unfold MAX_KEY_BYTES. lia.
Qed.

Lemma parse_address_canonical uri a :
  exact_address uri = Ok a -> parse_address uri = Ok (canonical a).
Proof.
  intros Ha. pose proof Ha as [Hv _]%exact_address_inv. apply canonical_valid in Hv.
  unfold parse_address. rewrite Ha. cbn [rbind]. unfold valid_address, canonical in *.
  cbn [ba_session ba_name ba_mapped] in *. destruct (ba_mapped a); exact Hv.
Qed.

Lemma reserved_key_spec n : reserved_key n = false <-> n <> "" /\ n ∉ ["."; ".."; LOCK; METADATA].
Proof.
  unfold reserved_key. rewrite bool_decide_eq_false. rewrite (not_elem_of_cons _ n ""). done.
Qed.

Lemma ordinary_not_reserved n : _ordinary_stem n = Ok n -> reserved_key n = false.
Proof.
  unfold _ordinary_stem. destruct (bool_decide (backslash ∈ bytes_of n)) eqn:Hb; cbn [andb].
  - intros _. apply bool_decide_eq_true in Hb. apply bool_decide_eq_false. intros Hin.
    rewrite !elem_of_cons, elem_of_nil in Hin.
    destruct Hin as [->|[->|[->|[->|[->|[]]]]]]; by revert Hb; apply (bool_decide_unpack _).
  - intros (_ & H1 & H2 & _)%component_spec. by apply reserved_key_spec.
Qed.

Lemma collect_addresses_spec s stems acc a :
  a ∈ collect_addresses s stems acc <->
  a ∈ acc \/ exists stem, stem ∈ stems /\ mk_address s stem false = Ok a.
Proof.
  revert acc. induction stems as [|x stems IH]; intros acc; cbn [collect_addresses].
  - set_solver.
  - destruct (mk_address s x false) as [c|e] eqn:Hx; rewrite IH.
    + assert (Hacc : a ∈ (if bool_decide (c ∈ acc) then acc else (acc ++ [c])%list)
                     <-> a ∈ acc \/ a = c) by (case_bool_decide; set_solver).
      rewrite Hacc. setoid_rewrite elem_of_cons. split.
      * intros [[?| ->]|(y & ? & ?)]; [by left|right; by exists x; auto|right; by exists y; auto].
      * intros [?|(y & [->|?] & ?)]; [auto|left; right; congruence|right; eauto].
    + setoid_rewrite elem_of_cons. split.
      * intros [?|(y & ? & ?)]; [by left|right; by exists y; auto].
      * intros [?|(y & [->|?] & ?)]; [auto|congruence|right; eauto].
Qed.

Lemma from_keys_spec l acc a : a ∈ from_keys l acc <-> a ∈ acc \/ a ∈ l.
Proof.
  revert acc. induction l as [|x l IH]; intros acc; cbn [from_keys]; [set_solver|].
  rewrite IH. case_bool_decide; set_solver.
Qed.

Lemma NoDup_snoc {A} (l : list A) x : NoDup l -> x ∉ l -> NoDup (l ++ [x])%list.
Proof. intros Hl Hx. apply NoDup_app. repeat split; [done|set_solver|apply NoDup_singleton]. Qed.

Lemma from_keys_head a l : head (from_keys (a :: l) []) = Some a.
Proof.
  assert (Hk : forall l acc b, head acc = Some b -> head (from_keys l acc) = Some b).
  { clear. intros l. induction l as [|x l IH]; intros acc b Hb; cbn [from_keys]; [done|].
    apply IH. case_bool_decide; [done|]. by destruct acc. }
  cbn [from_keys]. rewrite bool_decide_eq_false_2 by apply not_elem_of_nil. by apply Hk.
Qed.

Lemma from_keys_NoDup l acc : NoDup acc -> NoDup (from_keys l acc).
Proof.
  revert acc. induction l as [|x l IH]; intros acc Hacc; cbn [from_keys]; [done|].
  apply IH. case_bool_decide; [done|]. by apply NoDup_snoc.
Qed.

Lemma legacy_addresses_spec s n :
  component s = Ok s -> reserved_key n = false ->
  exists l, legacy_addresses s n = Ok l
    /\ forall a, a ∈ l <->
       (mk_address (fold_name s MAX_SESSION_BYTES) (fold_name n MAX_KEY_BYTES) false = Ok a
        \/ ((Z.of_nat (String.length n) <= MAX_PHYSICAL_KEY_BYTES)%Z
            /\ mk_address (fold_name s MAX_SESSION_BYTES) n false = Ok a)).
Proof.
  intros Hs Hn. unfold legacy_addresses. rewrite Hs, Hn. cbn [rbind]. eexists. split; [done|].
  intros a. rewrite collect_addresses_spec, length_bytes_of.
  destruct (Z.leb_spec (Z.of_nat (String.length n)) MAX_PHYSICAL_KEY_BYTES); cbn [app].
  - rewrite elem_of_nil. split.
    + intros [[]|(x & Hx & Ha)]. rewrite !elem_of_cons, elem_of_nil in Hx.
      destruct Hx as [->|[->|[]]]; tauto.
    + intros [Ha|[_ Ha]]; right; eexists; (split; [|exact Ha]); set_solver.
  - rewrite elem_of_nil. split.
    + intros [[]|(x & Hx & Ha)]. rewrite !elem_of_cons, elem_of_nil in Hx.
      destruct Hx as [->|[]]; tauto.
    + intros [Ha|[? Ha]]; [|lia]. right. eexists. split; [|exact Ha]. set_solver.
Qed.

(** Reading never misses what a URI names.  For every URI that parses, the
    candidates to read are computed without error, without duplicates and all
    valid; they contain the canonical address, the address a write of the same
    name goes to and, when its stem fits an existing file, the exact address. *)
Theorem read_candidates_complete (uri : string) (a : BlobAddress) :
  exact_address uri = Ok a ->
  exists cs, read_candidates uri = Ok cs /\ NoDup cs /\ Forall valid_address cs
    /\ canonical a ∈ cs
    /\ (ba_mapped a = false ->
        (exists w, write_address (ba_session a) (ba_name a) = Ok w /\ w ∈ cs)
        /\ ((Z.of_nat (String.length (ba_session a)) <= MAX_SESSION_BYTES)%Z ->
            (Z.of_nat (String.length (ba_name a)) <= MAX_PHYSICAL_KEY_BYTES)%Z -> a ∈ cs)).
Proof.
  intros Ha. pose proof Ha as [Hv _]%exact_address_inv.
  pose proof (canonical_valid a Hv) as Hcv. unfold read_candidates.
  rewrite (parse_address_canonical uri a Ha), Ha. cbn [rbind].
  destruct (ba_mapped a) eqn:Hm.
  { exists [canonical a]. repeat split; [apply NoDup_singleton|by repeat constructor|set_solver|done..]. }
  pose proof Hv as (_ & Hs & Hn)%mk_address_spec. rewrite Hm in Hn.
  assert (Hr := ordinary_not_reserved _ Hn).
  assert (Hw : exists w, write_address (ba_session a) (ba_name a) = Ok w /\ valid_address w).
  { rewrite write_address_spec, Hs, Hr. eexists. split; [done|].
    apply (component_fold _ MAX_SESSION_BYTES) in Hs. unfold valid_address.
    destruct (component (ba_name a)); apply mk_address_spec; cbn [ba_session ba_name ba_mapped];
      repeat split; try done; [by apply ordinary_fold|apply hexdigest_HEX64]. }
  destruct Hw as (w & Hw & Hwv). rewrite Hw. cbn [rbind].
  destruct (legacy_addresses_spec _ _ Hs Hr) as (l & -> & Hl). cbn [rbind].
  eexists. split; [done|]. split; [apply from_keys_NoDup, NoDup_nil_2|].
  assert (Hin : forall b, b ∈ from_keys (l ++ [w])%list [] <-> b ∈ l \/ b = w).
  { intros b. rewrite from_keys_spec. set_solver. }
  split; [|split].
  - apply Forall_forall. intros b [Hb| ->]%Hin; [|done].
    apply Hl in Hb as [[? _]%mk_address_valid|[_ [? _]%mk_address_valid]]; done.
  - apply Hin. left. apply Hl. left. unfold valid_address, canonical in Hcv.
    unfold canonical. rewrite Hm in *. exact Hcv.
  - intros _. split; [exists w; split; [done|]; apply Hin; by right|].
    intros Hsl Hnl. apply Hin. left. apply Hl. right. split; [done|].
    rewrite fold_name_id by done. unfold valid_address in Hv. by rewrite Hm in Hv.
Qed.

Lemma hex64_not_reserved d : _HEX64 d = true -> reserved_key d = false.
Proof.
  intros Hl%hex64_length. apply reserved_key_spec. split; [by intros ->|].
  rewrite !elem_of_cons, elem_of_nil. by intros [->|[->|[->|[->|[]]]]].
Qed.

Lemma write_address_canonical s n a :
  write_address s n = Ok a ->
  valid_address a /\ canonical a = a /\ reserved_key (ba_name a) = false
  /\ (ba_mapped a = false -> component (ba_name a) = Ok (ba_name a)).
Proof.
  rewrite write_address_spec. destruct (component s) as [s'|e] eqn:Hs; [|done].
  pose proof (component_Ok _ _ Hs) as ->. destruct (reserved_key n); [done|].
  apply (component_fold _ MAX_SESSION_BYTES) in Hs. unfold valid_address, canonical.
  destruct (component n) as [n'|e] eqn:Hn; intros [= <-]; cbn [ba_session ba_name ba_mapped];
    rewrite !fold_name_idem by (compute; congruence).
  - pose proof (component_Ok _ _ Hn) as ->. apply (component_fold _ MAX_KEY_BYTES) in Hn.
    pose proof (component_ordinary _ Hn) as Ho.
    repeat split; [by apply mk_address_spec|by apply ordinary_not_reserved|done].
  - repeat split; [by apply mk_address_spec; repeat split; [|apply hexdigest_HEX64]| |done].
    apply hex64_not_reserved, hexdigest_HEX64.
Qed.

(** A canonical ordinary address is the only candidate of its own URI: the
    exact, the folded and the written spelling coincide. *)
Lemma read_candidates_canonical a :
  valid_address a -> canonical a = a -> reserved_key (ba_name a) = false ->
  (ba_mapped a = false -> component (ba_name a) = Ok (ba_name a)) ->
  read_candidates (ba_uri a) = Ok [a].
Proof.
  intros Hv Hcan Hr Hn. pose proof (exact_uri a Hv) as Hex. unfold read_candidates.
  rewrite (parse_address_canonical _ _ Hex), Hcan, Hex. cbn [rbind].
  destruct a as [s n [|]]; [done|]. unfold canonical, valid_address in *.
  cbn [ba_session ba_name ba_mapped] in *. specialize (Hn eq_refl).
  pose proof Hv as (_ & Hs & _)%mk_address_spec. injection Hcan as Hfs Hfn.
  assert (Hlen : (Z.of_nat (String.length n) <= MAX_PHYSICAL_KEY_BYTES)%Z).
  { rewrite <- Hfn. etransitivity; [by apply fold_name_length_le|by compute]. }
  rewrite write_address_spec, Hs, Hr, Hn. unfold legacy_addresses. rewrite Hs, Hr. cbn [rbind].
  rewrite Hfs, Hfn, length_bytes_of, (proj2 (Z.leb_le _ _) Hlen).
  cbn [app collect_addresses]. rewrite Hv. generalize (Address s n false). intros b.
  rewrite (bool_decide_eq_false_2 (b ∈ [])) by apply not_elem_of_nil. cbn [app].
  rewrite (bool_decide_eq_true_2 (b ∈ [b])) by left. cbn [app from_keys].
  rewrite (bool_decide_eq_false_2 (b ∈ [])) by apply not_elem_of_nil. cbn [app].
  by rewrite (bool_decide_eq_true_2 (b ∈ [b])) by left.
Qed.

Lemma write_address_bounds s n a :
  write_address s n = Ok a ->
  (Z.of_nat (String.length (ba_session a)) <= 255)%Z
  /\ (Z.of_nat (String.length (ba_filename a)) <= 255)%Z
  /\ (Z.of_nat (String.length (ba_stem a)) + 13 <= 255)%Z.
Proof.
  rewrite write_address_spec. destruct (component s); [|done].
  destruct (reserved_key n); [done|]. unfold ba_filename, ba_stem.
  pose proof (fold_name_length_le s MAX_SESSION_BYTES ltac:(compute; congruence)) as Hsl.
  pose proof (fold_name_length_le n MAX_KEY_BYTES ltac:(compute; congruence)) as Hkl.
  unfold MAX_SESSION_BYTES, MAX_KEY_BYTES in *.
  destruct (component n); intros [= <-]; cbn [ba_session ba_name ba_mapped];
    rewrite !str_app_length; [|rewrite (hex64_length _ (hexdigest_HEX64 _))]; simpl; lia.
Qed.

(** A write goes through unless the session is unsafe or the name reserved;
    the URI it hands out parses back, exactly and canonically, to the address
    that was written; that address is the only candidate a reader tries; and
    the session directory, the file and its temporary sibling ([.<8 chars>.tmp])
    all fit in a 255-byte name. *)
Theorem write_address_readable (s n : string) :
  match write_address s n with
  | Ok a => exact_address (ba_uri a) = Ok a /\ parse_address (ba_uri a) = Ok a
            /\ read_candidates (ba_uri a) = Ok [a]
            /\ (Z.of_nat (String.length (ba_session a)) <= 255)%Z
            /\ (Z.of_nat (String.length (ba_filename a)) <= 255)%Z
            /\ (Z.of_nat (String.length (ba_stem a)) + 13 <= 255)%Z
  | Err e => e = ValueError /\ (component s = Err ValueError \/ reserved_key n = true)
  end.
Proof.
  destruct (write_address s n) as [a|e] eqn:Hw.
  - destruct (write_address_canonical s n a Hw) as (Hv & Hcan & Hr & Hn).
    pose proof (exact_uri a Hv) as Hex. split; [done|].
    split; [by rewrite (parse_address_canonical _ _ Hex), Hcan|].
    split; [by apply read_candidates_canonical|]. by apply write_address_bounds in Hw.
  - rewrite write_address_spec in Hw. destruct (component s) eqn:Hs.
    + destruct (reserved_key n); simplify_eq. eauto.
    + unfold component in Hs. case_match; simplify_eq. eauto.
Qed.
End addresses.

(** A POSIX host, and the three kinds of name. *)
Definition posix : Os := {| os_sep := "/"; os_altsep := None; os_name := "posix" |}.
#[local] Existing Instance posix.

Lemma read_candidates_complete_witness :
  let a := Address "s1" "a\b" false in
  exact_address "ci-blob://s1/a\b" = Ok a
  /\ exists cs, read_candidates "ci-blob://s1/a\b" = Ok cs /\ NoDup cs
       /\ exists w, write_address "s1" "a\b" = Ok w /\ ba_mapped w = true /\ a ∈ cs /\ w ∈ cs.
Proof.
  set (a := Address "s1" "a\b" false). split; [by vm_compute|].
  destruct (read_candidates_complete "ci-blob://s1/a\b" a) as (cs & Hcs & Hnd & _ & _ & Hord);
    [by vm_compute|].
  destruct (Hord eq_refl) as [(w & Hw & Hwin) Hexact].
  exists cs. split; [exact Hcs|]. split; [exact Hnd|]. exists w. split; [exact Hw|].
  split; [|split; [by apply Hexact; compute|exact Hwin]].
  assert (Hm : (let? w := write_address "s1" "a\b" in Ok (ba_mapped w)) = Ok true)
    by (vm_compute; reflexivity).
  change (ba_name a) with "a\b" in Hw. change (ba_session a) with "s1" in Hw.
  rewrite Hw in Hm. by injection Hm.
Defined.

Example write_address_ordinary :
  (let? a := write_address "s1" "result" in Ok (ba_uri a, ba_filename a))
  = Ok ("ci-blob://s1/result", "result.json").
Proof. by vm_compute. Qed.

Example write_address_mapped :
  (let? a := write_address "s1" "a/b" in Ok (ba_mapped a, String.length (ba_filename a)))
  = Ok (true, 80%nat).
Proof. by vm_compute. Qed.
