(* ===== verification/BlobDisk.v ===== *)
(** * The blob store on disk ([blob_store.py], and the file layer of
    [blob_retention.py])

    A blob root: session directories that hold a [blobs] directory of inodes,
    and the expiry ledger of the retention tool (a table of tombstones, absent
    until the first prune).  Operations run under the root lock and a
    filesystem lease (BlobLease), so each is one atomic step; the checks that
    the root and its directories were not replaced behind the server's back are
    not modelled, nor is a busy lock.  What the operating system chooses (random
    temporary names, metadata of new inodes, a failing write) is an argument.

    The theorems: a written value is read back through the URI that [write]
    returned, and nothing else in the store changes; a failed write leaves every
    blob as it was; a recorded expiry blocks both rehydration and reading. *)
From stdpp Require Import base list strings gmap sorting.
From Stdlib Require Import ZArith Lia.
From S2P Require Import Prelude PyText Utils Json JsonParse BlobKeys.

#[local] Open Scope string_scope.

(** [fingerprint]: [st_dev], [st_ino], [st_size], [st_mtime_ns], [st_ctime_ns] *)
Record Fp := MkFp { fp_dev : Z; fp_ino : Z; fp_size : Z; fp_mtime : Z; fp_ctime : Z }.
#[export] Instance Fp_eq_dec : EqDecision Fp.
Proof. solve_decision. Defined.

(** A directory entry: a regular file, a symbolic link, or anything else. *)
Inductive kind := KReg | KLink | KOther.
#[export] Instance kind_eq_dec : EqDecision kind.
Proof. solve_decision. Defined.

Record Inode := MkInode {
  in_kind : kind;
  in_nlink : Z;
  in_fp : Fp;
  in_blocks : Z;
  in_data : bytes;
}.

Abbreviation directory := (gmap string Inode).

(** A child of the root: a directory, with or without [blobs], or not one. *)
Inductive SessionEntry :=
  | SDir (blobs : option directory)
  | SOther.

(** A row of the expiry ledger. *)
Record Row := MkRow { row_fp : Fp; row_expired_ns : Z; row_pending : bool }.

Record BlobRoot := MkRoot {
  sessions : gmap string SessionEntry;
  ledger : option (gmap string Row);
}.

Definition with_sessions (r : BlobRoot) (m : gmap string SessionEntry) : BlobRoot :=
  MkRoot m (ledger r).

(** [S_ISREG(st.st_mode) and st.st_nlink == 1] *)
Definition _regular (i : Inode) : bool :=
  bool_decide (in_kind i = KReg) && (in_nlink i =? 1)%Z.

(** [Root.blobs(session)] *)
Definition blobs_dir (session : string) (r : BlobRoot) : result directory :=
  let? s := component session in
  match sessions r !! s with
  | Some (SDir (Some d)) => Ok d
  | Some (SDir None) | None => Err FileNotFoundError
  | Some SOther => Err OSError
  end.

Definition set_dir (session : string) (d : directory) (r : BlobRoot) : BlobRoot :=
  with_sessions r (<[session := SDir (Some d)]> (sessions r)).

(** [Root.blobs(session, create=True)] *)
Definition create_blobs (session : string) (r : BlobRoot) : result directory * BlobRoot :=
  match component session with
  | Err e => (Err e, r)
  | Ok s =>
    match sessions r !! s with
    | Some (SDir (Some d)) => (Ok d, r)
    | Some (SDir None) | None => (Ok ∅, set_dir s ∅ r)
    | Some SOther => (Err OSError, r)
    end
  end.

Section blob_store.
Context `{Os} `{FloatRepr}.

(** [Ledger.contains], through [expired(root, uri)] *)
Definition expired (r : BlobRoot) (uri : string) : result bool :=
  let? _ := exact_address uri in
  Ok match ledger r with
     | None => false
     | Some rows => bool_decide (is_Some (rows !! uri))
     end.

Definition _fold_session_id (session_id : string) : result string :=
  let? s := component session_id in Ok (fold_name s MAX_SESSION_BYTES).

Definition handle_of (a : BlobAddress) : string :=
  if ba_mapped a then MAPPED_MARKER +:+ "/" +:+ ba_name a else ba_name a.

Definition _parse_uri (uri : string) : result (string * string) :=
  let? a := parse_address uri in Ok (ba_session a, handle_of a).

Definition _address (session_id key : string) : result BlobAddress :=
  if starts_with (MAPPED_MARKER +:+ "/") key then
    match (let? s := _fold_session_id session_id in exact_address (_SCHEME +:+ s +:+ "/" +:+ key)) with
    | Ok a => Ok a
    | Err _ => write_address session_id key
    end
  else write_address session_id key.

(** [<root>/<session>/blobs/<filename>], as its two variable components *)
Definition _blob_path (session_id key : string) : result (string * string) :=
  let? s := _fold_session_id session_id in
  let? a := _address session_id key in
  Ok (s, ba_filename a).

Definition _recognised (session : string) (entries : list (string * Inode)) : list BlobAddress :=
  omap (fun e => if bool_decide (in_kind e.2 = KReg)
                 then match address_from_filename session e.1 with Ok o => o | Err _ => None end
                 else None) entries.

(** [os.open(..., O_NOFOLLOW)] of the first candidate that exists. *)
Fixpoint _open_first (d : directory) (candidates : list BlobAddress)
    : result (option (Inode * BlobAddress)) :=
  match candidates with
  | [] => Ok None
  | c :: cs =>
    match d !! ba_filename c with
    | None => _open_first d cs
    | Some i => if bool_decide (in_kind i = KLink) then Err OSError else Ok (Some (i, c))
    end
  end.

Definition _check_payload (i : Inode) : result unit :=
  if bool_decide (in_kind i = KReg) then Ok tt else Err ValueError.

(** Every candidate is absent: a recorded expiry, else not found. *)
Fixpoint _raise_missing {A} (r : BlobRoot) (candidates : list BlobAddress) : result A :=
  match candidates with
  | [] => Err FileNotFoundError
  | c :: cs =>
    let? e := expired r (ba_uri c) in
    if e then Err BlobExpiredError else _raise_missing r cs
  end.

(** The first candidate with a recorded expiry. *)
Fixpoint first_expired (r : BlobRoot) (candidates : list BlobAddress) : result (option BlobAddress) :=
  match candidates with
  | [] => Ok None
  | c :: cs =>
    let? e := expired r (ba_uri c) in
    if e then Ok (Some c) else first_expired r cs
  end.

(** What the operating system decides during one [write]: the random parts of
    the temporary names, a failure of the write, flush, sync or rename, and the
    metadata of the new inode. *)
Record WriteEnv := MkWriteEnv {
  we_tokens : list string;
  we_fault : option exn;
  we_fp : Fp;
  we_blocks : Z;
}.

(** [for _ in range(100): os.open(tmp_name, O_CREAT | O_EXCL)] *)
Fixpoint alloc_tmp (n : nat) (stem : string) (tokens : list string) (d : directory) : result string :=
  match n, tokens with
  | S n', token :: tokens' =>
    let tmp_name := stem +:+ "." +:+ token +:+ ".tmp" in
    match d !! tmp_name with
    | Some _ => alloc_tmp n' stem tokens' d
    | None => Ok tmp_name
    end
  | _, _ => Err OSError
  end.

Definition new_inode (env : WriteEnv) (data : bytes) : Inode :=
  MkInode KReg 1 (we_fp env) (we_blocks env) data.

Definition blob_write (session_id key : string) (value : json) (env : WriteEnv)
    : M BlobRoot string := fun r =>
  match (let? canonical := write_address session_id key in
         let? legacy := legacy_addresses session_id key in
         let? hit := first_expired r (from_keys (canonical :: legacy) []) in
         Ok (canonical, hit)) with
  | Err e => (Err e, r)
  | Ok (_, Some candidate) => (Ok (ba_uri candidate), r)
  | Ok (canonical, None) =>
    match create_blobs (ba_session canonical) r with
    | (Err e, r1) => (Err e, r1)
    | (Ok d, r1) =>
      let data := json_dumps value in
      match alloc_tmp 100 (ba_stem canonical) (we_tokens env) d with
      | Err e => (Err e, r1)
      | Ok tmp =>
        let d1 := <[tmp := new_inode env data]> d in
        match we_fault env with
        | Some e => (Err e, set_dir (ba_session canonical) (delete tmp d1) r1)
        | None =>
          (Ok (ba_uri canonical),
           set_dir (ba_session canonical)
             (<[ba_filename canonical := new_inode env data]> (delete tmp d1)) r1)
        end
      end
    end
  end.

(** [try: with root.blobs(...): k except FileNotFoundError: pass; missing] *)
Definition with_blobs {A} (session : string) (r : BlobRoot) (k : directory -> result (option A))
    (missing : result A) : result A :=
  match (let? d := blobs_dir session r in k d) with
  | Ok (Some a) => Ok a
  | Ok None | Err FileNotFoundError => missing
  | Err e => Err e
  end.

Definition blob_read (uri : string) (r : BlobRoot) : result json :=
  let? candidates := read_candidates uri in
  match candidates with
  | [] => Err IndexError
  | first :: _ =>
    with_blobs (ba_session first) r
      (fun d => let? opened := _open_first d candidates in
                match opened with
                | None => Ok None
                | Some (i, _) =>
                  let? _ := _check_payload i in
                  let? v := loads_bytes (in_data i) in Ok (Some v)
                end)
      (_raise_missing r candidates)
  end.

Definition blob_list (session_id : string) (r : BlobRoot) : result (list string) :=
  let? session := _fold_session_id session_id in
  with_blobs session r
    (fun d => Ok (Some (py_sorted (map ba_uri (_recognised session (map_to_list d))))))
    (Ok []).

(** [os.stat] of the first candidate that exists. *)
Fixpoint stat_first (d : directory) (candidates : list BlobAddress) : result (option Z) :=
  match candidates with
  | [] => Ok None
  | c :: cs =>
    match d !! ba_filename c with
    | None => stat_first d cs
    | Some i => if bool_decide (in_kind i = KReg) then Ok (Some (fp_size (in_fp i))) else Err ValueError
    end
  end.

Definition blob_size (uri : string) (r : BlobRoot) : result Z :=
  let? candidates := read_candidates uri in
  match candidates with
  | [] => Err IndexError
  | first :: _ => with_blobs (ba_session first) r (fun d => stat_first d candidates) (Ok 0%Z)
  end.

Definition blob_delete_session (session_id : string) : M BlobRoot Z := fun r =>
  match _fold_session_id session_id with
  | Err e => (Err e, r)
  | Ok session =>
    match blobs_dir session r with
    | Ok d =>
      (Ok (Z.of_nat (length (_recognised session (map_to_list d)))),
       with_sessions r (delete session (sessions r)))
    | Err FileNotFoundError => (Ok 0%Z, r)
    | Err e => (Err e, r)
    end
  end.

(** [dump]: the copy is named after the physical file; [dest] is the
    destination directory, whose files are created with [meta]. *)
Definition blob_dump (uri : string) (meta : Inode) (r : BlobRoot) : M directory string := fun dest =>
  match (let? candidates := read_candidates uri in
         match candidates with
         | [] => Err IndexError
         | first :: _ =>
           with_blobs (ba_session first) r
             (fun d => let? opened := _open_first d candidates in
                       match opened with
                       | None => Ok None
                       | Some (i, selected) => let? _ := _check_payload i in Ok (Some (i, selected))
                       end)
             (_raise_missing r candidates)
         end) with
  | Err e => (Err e, dest)
  | Ok (i, selected) =>
    let name := ba_filename selected in
    let out := default meta (dest !! name) in
    if bool_decide (in_kind out = KLink) then (Err OSError, dest)
    else if negb (bool_decide (in_kind out = KReg)) then (Err ValueError, <[name := out]> dest)
    else if bool_decide ((fp_dev (in_fp out), fp_ino (in_fp out)) = (fp_dev (in_fp i), fp_ino (in_fp i)))
    then (Err OSError, <[name := out]> dest)
    else (Ok name,
          <[name := MkInode KReg (in_nlink out)
              (MkFp (fp_dev (in_fp out)) (fp_ino (in_fp out)) (fp_size (in_fp i))
                 (fp_mtime (in_fp i)) (fp_ctime (in_fp out)))
              (in_blocks out) (in_data i)]> dest)
  end.

End blob_store.

(** ** What is stored where *)

(** The inode at [<root>/<session>/blobs/<file>]. *)
Definition file_at (r : BlobRoot) (session file : string) : option Inode :=
  match sessions r !! session with
  | Some (SDir (Some d)) => d !! file
  | _ => None
  end.

Lemma file_at_set_dir r s d s' f :
  file_at (set_dir s d r) s' f = if decide (s' = s) then d !! f else file_at r s' f.
Proof.
  unfold file_at, set_dir, with_sessions. cbn [sessions]. case_decide as Hs.
  - subst s'. by rewrite lookup_insert_eq.
  - by rewrite lookup_insert_ne.
Qed.

Section store_facts.
Context `{Os} `{FloatRepr}.

Lemma blobs_dir_set s d r : component s = Ok s -> blobs_dir s (set_dir s d r) = Ok d.
Proof.
  intros Hs. unfold blobs_dir, set_dir, with_sessions. rewrite Hs. cbn [rbind sessions].
  by rewrite lookup_insert_eq.
Qed.

(** Creating the directories changes no file. *)
Lemma create_blobs_spec s r :
  match create_blobs s r with
  | (Ok d, r') => component s = Ok s /\ blobs_dir s r' = Ok d /\ ledger r' = ledger r
                  /\ (forall s' f, file_at r' s' f = file_at r s' f) /\ (forall f, file_at r s f = d !! f)
  | (Err _, r') => r' = r
  end.
Proof.
  unfold create_blobs. destruct (component s) as [s0|e] eqn:Hs; [|done].
  pose proof (component_Ok _ _ Hs) as ->.
  assert (Hempty : (forall f, file_at r s f = None) ->
            component s = Ok s /\ blobs_dir s (set_dir s ∅ r) = Ok ∅ /\ ledger (set_dir s ∅ r) = ledger r
            /\ (forall s' f, file_at (set_dir s ∅ r) s' f = file_at r s' f)
            /\ (forall f, file_at r s f = (∅ : directory) !! f)).
  { intros Hn. split; [done|]. split; [by apply blobs_dir_set|]. split; [done|]. split.
    - intros s' f. rewrite file_at_set_dir. case_decide; [subst s'; rewrite Hn; apply lookup_empty|done].
    - intros f. rewrite Hn. symmetry. apply lookup_empty. }
  destruct (sessions r !! s) as [[[d|]|]|] eqn:Hr.
  - split; [done|]. unfold blobs_dir, file_at. rewrite Hs. cbn [rbind]. by rewrite Hr.
  - refine (conj eq_refl (proj2 (Hempty _))). intros f. unfold file_at. by rewrite Hr.
  - done.
  - refine (conj eq_refl (proj2 (Hempty _))). intros f. unfold file_at. by rewrite Hr.
Qed.

Lemma first_expired_spec r cs c :
  first_expired r cs = Ok (Some c) -> c ∈ cs /\ expired r (ba_uri c) = Ok true.
Proof.
  induction cs as [|x cs IH]; cbn [first_expired]; [done|].
  intros (e & He & Hk)%rbind_ok. destruct e.
  - injection Hk as ->. split; [left|done].
  - destruct (IH Hk) as [? ?]. split; [by right|done].
Qed.

Lemma alloc_tmp_spec n stem tokens d tmp : alloc_tmp n stem tokens d = Ok tmp -> d !! tmp = None.
Proof.
  revert tokens. induction n as [|n IH]; intros [|token tokens]; cbn [alloc_tmp]; try done.
  destruct (d !! (stem +:+ _)) eqn:Hd; [apply IH|by intros [= <-]].
Qed.

(** The store after [write] put [i] at the canonical address. *)
Lemma blob_read_back a v i d r :
  valid_address a -> canonical a = a -> reserved_key (ba_name a) = false ->
  (ba_mapped a = false -> component (ba_name a) = Ok (ba_name a)) ->
  in_kind i = KReg -> loads_bytes (in_data i) = Ok v -> d !! ba_filename a = Some i ->
  blob_read (ba_uri a) (set_dir (ba_session a) d r) = Ok v.
Proof.
  intros Hv Hcan Hr Hn Hi Hl Hd. unfold blob_read. rewrite read_candidates_canonical by done.
  cbn [rbind]. unfold with_blobs. pose proof Hv as (_ & Hs & _)%mk_address_spec.
  rewrite blobs_dir_set by done. cbn [rbind _open_first]. rewrite Hd.
  rewrite bool_decide_eq_false_2 by (rewrite Hi; done). cbn [rbind]. unfold _check_payload.
  rewrite bool_decide_eq_true_2 by done. cbn [rbind]. by rewrite Hl.
Qed.

(** [write] is exact and atomic.  When it returns, either the URI it returns
    has a recorded expiry and the store is untouched (pruned data is never
    rehydrated), or reading that URI gives back the value written and no other
    file of any session changed.  When it raises, no file changed at all.  The
    expiry ledger is never touched. *)
Theorem blob_write_spec (s k : string) (v : json) (env : WriteEnv) (r : BlobRoot) :
  match blob_write s k v env r with
  | (Ok uri, r') =>
    exists a, write_address s k = Ok a /\ ledger r' = ledger r
    /\ ((expired r uri = Ok true /\ r' = r)
        \/ (uri = ba_uri a
            /\ (json_ok v -> floats_ok v = true -> blob_read uri r' = Ok v)
            /\ forall s' f, (s', f) <> (ba_session a, ba_filename a) -> file_at r' s' f = file_at r s' f))
  | (Err _, r') => ledger r' = ledger r /\ forall s' f, file_at r' s' f = file_at r s' f
  end.
Proof.
  unfold blob_write. destruct (write_address s k) as [a|e] eqn:Ha; [|done]. cbn [rbind].
  destruct (legacy_addresses s k) as [legacy|e]; [|done]. cbn [rbind].
  destruct (first_expired r _) as [[c|]|e] eqn:Hx; cbn [rbind]; [| |done].
  { exists a. split; [done|]. split; [done|]. left. by apply first_expired_spec in Hx as [_ ?]. }
  pose proof (create_blobs_spec (ba_session a) r) as Hc.
  destruct (create_blobs (ba_session a) r) as [[d|e] r1]; [|by subst r1].
  destruct Hc as (Hs & Hdir & Hled & Hsame & Hfiles).
  destruct (alloc_tmp _ _ _ d) as [tmp|e] eqn:Htmp; [|done].
  apply alloc_tmp_spec in Htmp. cbv zeta.
  assert (Hdel : forall i, delete tmp (<[tmp := i]> d) = d) by (intros i; by apply delete_insert_id).
  rewrite Hdel.
  destruct (we_fault env) as [e|].
  - split; [done|]. intros s' f. rewrite file_at_set_dir. case_decide; [by subst s'; rewrite Hfiles|done].
  - exists a. split; [done|]. split; [done|]. right. split; [done|]. split.
    + intros Hj Hf. destruct (write_address_canonical _ _ _ Ha) as (Hv & Hcan & Hr & Hn).
      apply (blob_read_back a v (new_inode env (json_dumps v))); try done;
        [by apply loads_bytes_dumps|apply lookup_insert_eq].
    + intros s' f Hne. rewrite file_at_set_dir. case_decide as Hs'; [subst s'|apply Hsame].
      rewrite lookup_insert_ne by congruence. by rewrite Hfiles.
Qed.

(** Deleting a session removes all its files, and only those. *)
Lemma blob_delete_session_spec s r n r' :
  blob_delete_session s r = (Ok n, r') ->
  exists s', _fold_session_id s = Ok s' /\ ledger r' = ledger r
    /\ (forall f, file_at r' s' f = None)
    /\ (forall s0 f, s0 <> s' -> file_at r' s0 f = file_at r s0 f)
    /\ (0 <= n)%Z.
Proof.
  unfold blob_delete_session. destruct (_fold_session_id s) as [s'|e] eqn:Hs; [|done].
  assert (Hmissing : blobs_dir s' r = Err FileNotFoundError -> forall f, file_at r s' f = None).
  { unfold blobs_dir, _fold_session_id in *. apply rbind_ok in Hs as (s1 & Hs1 & [= <-]).
    pose proof (component_Ok _ _ Hs1) as ->. rewrite component_fold by done. cbn [rbind].
    unfold file_at. intros Hd f. destruct (sessions r !! _) as [[[]|]|]; done. }
  destruct (blobs_dir s' r) as [d|e] eqn:Hd.
  - intros [= <- <-]. exists s'. split; [done|]. split; [done|].
    unfold file_at, with_sessions. cbn [sessions]. split; [by rewrite lookup_delete_eq|].
    split; [|lia]. intros s0 f Hne. by rewrite lookup_delete_ne.
  - destruct e; try done. intros [= <- <-]. exists s'. split; [done|]. split; [done|].
    split; [by apply Hmissing|]. split; [done|lia].
Qed.
End store_facts.
