(* ===== verification/BlobLease.v ===== *)
(** * Filesystem leases ([blob_coordination.py])

    [Coordinator.lease]: a reader/writer lease over a blob root with one FIFO
    queue.  Every iteration of the admission loop runs under the coordinator's
    condition, so it is one step; [wait] gives the lock up, so between two
    iterations any other thread may step.  Tokens ([object()]) are numbers.

    The state of the system is the coordinator, the leases that are held (the
    threads between [yield] and [finally]) and the next token.  The theorems are
    about every interleaving: exclusion, no overtaking of a waiting writer by
    anything that queued after it, and progress from every reachable state. *)
From stdpp Require Import base list relations sets strings.
From Stdlib Require Import ZArith Lia.
From S2P Require Import Prelude.

Module Coordinator.

Record t := Make {
  queue : list (nat * bool);   (** token, exclusive *)
  readers : Z;
  writer : bool;
}.

Definition init : t := Make [] 0 false.

(** The loop over the queue up to the caller's own entry. *)
Fixpoint preceding_writer (token : nat) (q : list (nat * bool)) : bool :=
  match q with
  | [] => false
  | (queued, write) :: q' =>
    if decide (queued = token) then false else write || preceding_writer token q'
  end.

(** [self.queue[0][0] is token] *)
Definition at_head (token : nat) (q : list (nat * bool)) : bool :=
  match q with
  | [] => false
  | (queued, _) :: _ => bool_decide (queued = token)
  end.

(** [deque.remove]: the first equal entry. *)
Fixpoint remove_entry (e : nat * bool) (q : list (nat * bool)) : list (nat * bool) :=
  match q with
  | [] => []
  | x :: q' => if decide (x = e) then q' else x :: remove_entry e q'
  end.

Definition enqueue (token : nat) (exclusive : bool) (c : t) : t :=
  Make (queue c ++ [(token, exclusive)]) (readers c) (writer c).

Definition admissible (token : nat) (exclusive : bool) (c : t) : bool :=
  negb (writer c) && negb (preceding_writer token (queue c))
  && (negb exclusive || (at_head token (queue c) && (readers c =? 0)%Z)).

(** One iteration of the admission loop: admitted, or back to [wait]. *)
Definition try_admit (token : nat) (exclusive : bool) (c : t) : option t :=
  if admissible token exclusive c then
    let q := remove_entry (token, exclusive) (queue c) in
    Some (if exclusive then Make q (readers c) true else Make q (readers c + 1)%Z (writer c))
  else None.

(** The [except BaseException] branch: a cancelled waiter leaves the queue. *)
Definition withdraw (token : nat) (exclusive : bool) (c : t) : t :=
  Make (remove_entry (token, exclusive) (queue c)) (readers c) (writer c).

(** The [finally] of the lease. *)
Definition release (exclusive : bool) (c : t) : t :=
  if exclusive then Make (queue c) (readers c) false
  else Make (queue c) (readers c - 1)%Z (writer c).

End Coordinator.
Import Coordinator.

(** The registry of [coordinator_for]: one coordinator per canonical path;
    [resolve] is [Path.expanduser().resolve()]. *)
Definition coordinator_for {P : Type} `{EqDecision P} (resolve : string -> P) (path : string)
    (registry : list (P * nat)) (fresh : nat) : nat * list (P * nat) :=
  match dget (resolve path) registry with
  | Some c => (c, registry)
  | None => (fresh, dset (resolve path) fresh registry)
  end.

(** Aliases of a path share one admission queue. *)
Lemma coordinator_for_alias {P} `{EqDecision P} (resolve : string -> P) p p' reg n n' :
  resolve p = resolve p' ->
  fst (coordinator_for resolve p' (snd (coordinator_for resolve p reg n)) n')
  = fst (coordinator_for resolve p reg n).
Proof.
  unfold coordinator_for. intros Heq. destruct (dget (resolve p) reg) as [c|] eqn:Hc; cbn [fst snd].
  - by rewrite <- Heq, Hc.
  - by rewrite <- Heq, dget_dset_eq.
Qed.

(** ** Every interleaving *)

Record sys := Sys {
  co : Coordinator.t;
  held : list (nat * bool);
  next : nat;
}.

Definition sys0 : sys := Sys init [] 0.

Inductive step : sys -> sys -> Prop :=
  | step_enqueue s exclusive :
      step s (Sys (enqueue (next s) exclusive (co s)) (held s) (S (next s)))
  | step_admit s token exclusive c' :
      (token, exclusive) ∈ queue (co s) ->
      try_admit token exclusive (co s) = Some c' ->
      step s (Sys c' ((token, exclusive) :: held s) (next s))
  | step_cancel s token exclusive :
      (token, exclusive) ∈ queue (co s) ->
      step s (Sys (withdraw token exclusive (co s)) (held s) (next s))
  | step_release s token exclusive :
      (token, exclusive) ∈ held s ->
      step s (Sys (release exclusive (co s)) (remove_entry (token, exclusive) (held s)) (next s)).

(** ** Lists of entries *)

Definition tokens (l : list (nat * bool)) : list nat := map fst l.

Lemma tokens_app l l' : tokens (l ++ l') = tokens l ++ tokens l'.
Proof. apply map_app. Qed.

Lemma elem_tokens e l : e ∈ l -> e.1 ∈ tokens l.
Proof. apply (list_elem_of_fmap_2 fst). Qed.

Lemma elem_tokens_inv k l : k ∈ tokens l -> exists b, (k, b) ∈ l.
Proof. intros ([k' b] & -> & He)%list_elem_of_fmap. eauto. Qed.

Lemma remove_entry_split e l :
  e ∈ l -> exists l1 l2, l = l1 ++ e :: l2 /\ e ∉ l1 /\ remove_entry e l = l1 ++ l2.
Proof.
  induction l as [|x l IH]; [by intros ?%elem_of_nil|]. cbn [remove_entry].
  intros Hin. destruct (decide (x = e)) as [->|Hne].
  - exists [], l. split; [done|]. split; [apply not_elem_of_nil|done].
  - apply elem_of_cons in Hin as [->|Hin]; [done|].
    destruct (IH Hin) as (l1 & l2 & -> & Hn & ->). exists (x :: l1), l2.
    split; [done|]. split; [|done]. apply not_elem_of_cons. split; [congruence|done].
Qed.

(** In a list without repeated tokens, a token names one entry. *)
Lemma token_unique l k b b' :
  NoDup (tokens l) -> (k, b) ∈ l -> (k, b') ∈ l -> b = b'.
Proof.
  intros Hnd H1 H2. apply (elem_dget k b l Hnd) in H1. apply (elem_dget k b' l Hnd) in H2. congruence.
Qed.

Lemma preceding_writer_spec k l1 e l2 :
  k ∉ tokens l1 -> e.1 = k ->
  preceding_writer k (l1 ++ e :: l2) = existsb snd l1.
Proof.
  intros Hk He. induction l1 as [|[k' w] l1 IH]; cbn [app preceding_writer existsb snd].
  - destruct e as [k' w]. by rewrite decide_True.
  - apply not_elem_of_cons in Hk as [Hne Hk]. rewrite decide_False by (simpl in *; congruence).
    by rewrite IH.
Qed.

Lemma existsb_snd_false l : existsb snd l = false <-> Forall (fun e : nat * bool => e.2 = false) l.
Proof.
  induction l as [|[k w] l IH]; cbn [existsb snd]; [by split|].
  rewrite orb_false_iff, IH, Forall_cons. done.
Qed.

(** ** The invariant *)

Definition shared (l : list (nat * bool)) : list (nat * bool) := filter (fun e => e.2 = false) l.

Record inv (s : sys) : Prop := {
  inv_unique : NoDup (tokens (queue (co s) ++ held s));
  inv_fresh : Forall (fun k => k < next s) (tokens (queue (co s) ++ held s));
  inv_readers : readers (co s) = Z.of_nat (length (shared (held s)));
  inv_excl : if writer (co s) then exists k, held s = [(k, true)]
             else Forall (fun e => e.2 = false) (held s);
}.

Lemma shared_all l : Forall (fun e : nat * bool => e.2 = false) l -> shared l = l.
Proof. induction 1 as [|[k w] l Hw Hl IH]; [done|]. unfold shared in *. by rewrite filter_cons_True, IH. Qed.

Lemma nodup_drop_mid (a b c : list (nat * bool)) e :
  NoDup (tokens ((a ++ e :: b) ++ c)) -> NoDup (tokens ((a ++ b) ++ c)).
Proof.
  rewrite <- !app_assoc, !(tokens_app a). cbn [app tokens map].
  rewrite <- Permutation_middle. by intros [_ ?]%NoDup_cons.
Qed.

Lemma forall_drop_mid P (a b c : list (nat * bool)) e :
  Forall P (tokens ((a ++ e :: b) ++ c)) -> Forall P (tokens ((a ++ b) ++ c)).
Proof. rewrite !tokens_app. cbn [tokens map]. rewrite !Forall_app, Forall_cons. tauto. Qed.

Lemma inv_enqueue s ex :
  inv s -> inv (Sys (enqueue (next s) ex (co s)) (held s) (S (next s))).
Proof.
  intros [Hu Hf Hr He].
  assert (Hn : next s ∉ tokens (queue (co s) ++ held s)).
  { intros Hin. rewrite Forall_forall in Hf. specialize (Hf _ Hin). lia. }
  assert (Hp : tokens ((queue (co s) ++ [(next s, ex)]) ++ held s)
               ≡ₚ next s :: tokens (queue (co s) ++ held s)).
  { rewrite !tokens_app. cbn [tokens map fst]. rewrite <- app_assoc. symmetry.
    apply Permutation_middle. }
  constructor; cbn [co held next enqueue queue readers writer]; [..|done|done].
  - rewrite Hp. by apply NoDup_cons.
  - rewrite Hp. apply Forall_cons. split; [lia|]. eapply Forall_impl; [exact Hf|]. simpl. lia.
Qed.

Lemma inv_admit s k ex c' :
  inv s -> (k, ex) ∈ queue (co s) -> try_admit k ex (co s) = Some c' ->
  inv (Sys c' ((k, ex) :: held s) (next s)).
Proof.
  intros [Hu Hf Hr He] Hq Hadm. unfold try_admit in Hadm.
  destruct (admissible k ex (co s)) eqn:Ha; [|done]. simplify_eq.
  unfold admissible in Ha. apply andb_true_iff in Ha as [[Hw _]%andb_true_iff Hx].
  apply negb_true_iff in Hw. rewrite Hw in He.
  apply remove_entry_split in Hq as (q1 & q2 & Hq & _ & Hrm). rewrite Hrm.
  assert (Hp : tokens ((q1 ++ q2) ++ (k, ex) :: held s) ≡ₚ tokens (queue (co s) ++ held s)).
  { rewrite Hq. unfold tokens. apply fmap_Permutation. rewrite <- !app_assoc.
    apply Permutation_app_head. cbn [app]. symmetry. apply Permutation_middle. }
  destruct ex; constructor; cbn [co held next queue readers writer];
    try (by rewrite Hp); unfold shared.
  - rewrite filter_cons_False by done. exact Hr.
  - apply orb_true_iff in Hx as [?|[_ Hz%Z.eqb_eq]%andb_true_iff]; [done|].
    rewrite (shared_all _ He) in Hr. exists k. f_equal. apply nil_length_inv. lia.
  - rewrite filter_cons_True by done. cbn [length]. unfold shared in Hr. lia.
  - rewrite Hw. by apply Forall_cons.
Qed.

Lemma inv_cancel s k ex :
  inv s -> (k, ex) ∈ queue (co s) -> inv (Sys (withdraw k ex (co s)) (held s) (next s)).
Proof.
  intros [Hu Hf Hr He] (q1 & q2 & Hq & _ & Hrm)%remove_entry_split. rewrite Hq in Hu, Hf.
  constructor; cbn [co held next withdraw queue readers writer]; [..|done|done]; rewrite Hrm.
  - by apply nodup_drop_mid in Hu.
  - by apply forall_drop_mid in Hf.
Qed.

Lemma inv_release s k ex :
  inv s -> (k, ex) ∈ held s ->
  inv (Sys (release ex (co s)) (remove_entry (k, ex) (held s)) (next s)).
Proof.
  intros [Hu Hf Hr He] (h1 & h2 & Hh & _ & Hrm)%remove_entry_split. rewrite Hrm. clear Hrm.
  assert (Hq : queue (release ex (co s)) = queue (co s)) by (by destruct ex).
  rewrite Hh, app_assoc, <- (app_nil_r (_ ++ _ :: _)) in Hu, Hf.
  apply nodup_drop_mid in Hu. apply forall_drop_mid in Hf.
  rewrite app_nil_r, <- app_assoc in Hu, Hf. rewrite Hh in He, Hr.
  constructor; cbn [co held next]; rewrite ?Hq; try done.
  - destruct ex; cbn [release readers]; rewrite Hr; unfold shared; rewrite !filter_app.
    + by rewrite filter_cons_False.
    + rewrite filter_cons_True, !length_app by done. cbn [length]. lia.
  - destruct ex; cbn [release writer]; destruct (writer (co s)).
    + destruct He as [k' He]. destruct h1 as [|? [|]]; simplify_list_eq. constructor.
    + rewrite Forall_app, Forall_cons in He. naive_solver.
    + destruct He as [k' He]. destruct h1 as [|? [|]]; simplify_list_eq.
    + rewrite Forall_app, Forall_cons in *. tauto.
Qed.

Lemma inv_step s s' : inv s -> step s s' -> inv s'.
Proof.
  intros Hinv Hstep. destruct Hstep;
    eauto using inv_enqueue, inv_admit, inv_cancel, inv_release.
Qed.

Lemma inv_reachable s : rtc step sys0 s -> inv s.
Proof.
  intros Hr. apply (rtc_ind_r inv sys0) in Hr; [done| |].
  - constructor; cbn; [apply NoDup_nil_2|constructor|done|constructor].
  - intros y z _ Hyz Hy. by eapply inv_step.
Qed.

(** In every reachable state of every interleaving of enqueueing, admission,
    cancellation and release, the coordinator's counters tell the truth and
    exclude: [writer] is set exactly when one exclusive lease is held, and then
    it is the only lease held at all; otherwise every held lease is shared and
    [readers] is their number. *)
Theorem lease_exclusion (s : sys) :
  rtc step sys0 s ->
  (writer (co s) = true <-> exists k, (k, true) ∈ held s)
  /\ (forall k e, (k, true) ∈ held s -> e ∈ held s -> e = (k, true))
  /\ readers (co s) = Z.of_nat (length (filter (fun e => e.2 = false) (held s)))
  /\ NoDup (tokens (queue (co s) ++ held s)).
Proof.
  intros [Hu _ Hr He]%inv_reachable.
  split; [|split; [|split; [exact Hr|exact Hu]]]; destruct (writer (co s)).
  - split; [|done]. destruct He as [k ->]. intros _. exists k. left.
  - split; [done|]. intros [k Hk]. by apply (proj1 (Forall_forall _ _) He) in Hk.
  - destruct He as [k' ->]. intros k e ->%list_elem_of_singleton ->%list_elem_of_singleton. done.
  - intros k e Hk. by apply (proj1 (Forall_forall _ _) He) in Hk.
Qed.

(** ** No overtaking *)

(** A token that left the queue never comes back. *)
Lemma left_queue_forever s s' k e :
  inv s -> step s s' -> k < next s -> (k, e) ∈ queue (co s') -> (k, e) ∈ queue (co s).
Proof.
  intros Hinv [s0 ex|s0 k0 ex c' Hq Hadm|s0 k0 ex Hq|s0 k0 ex Hh] Hk; cbn [co].
  - cbn [enqueue queue]. intros [?|?%list_elem_of_singleton]%elem_of_app; [done|]. simplify_eq. lia.
  - unfold try_admit in Hadm. case_match; [|done]. simplify_eq.
    apply remove_entry_split in Hq as (q1 & q2 & Hq & _ & Hrm). rewrite Hrm, Hq.
    destruct ex; cbn [queue]; set_solver.
  - apply remove_entry_split in Hq as (q1 & q2 & Hq & _ & Hrm). cbn [withdraw queue].
    rewrite Hrm, Hq. set_solver.
  - by destruct ex.
Qed.

(** The writer [w] still waits; [ahead] were queued before it, [old] held. *)
Definition waiting_behind (w : nat) (ahead : list nat) (old : list (nat * bool)) (s : sys) : Prop :=
  exists q1 q2, queue (co s) = q1 ++ (w, true) :: q2
    /\ (forall k, k ∈ tokens q1 -> k ∈ ahead)
    /\ (forall k b, (k, b) ∈ held s -> (k, b) ∈ old \/ k ∈ ahead).

Lemma admitted_not_behind k ex c w q1 q2 c' :
  NoDup (tokens (queue c)) -> queue c = q1 ++ (w, true) :: q2 ->
  try_admit k ex c = Some c' -> (k, ex) ∈ queue c -> k ∈ tokens q1 \/ k = w.
Proof.
  intros Hnd Hq Hadm Hin. unfold try_admit in Hadm. case_match eqn:Ha; [|done].
  unfold admissible in Ha. apply andb_true_iff in Ha as [[_ Hp%negb_true_iff]%andb_true_iff _].
  destruct (decide (k ∈ tokens q1)) as [|Hn1]; [by left|].
  destruct (decide (k = w)) as [|Hne]; [by right|]. exfalso.
  rewrite Hq in Hin. apply elem_of_app in Hin as [Hin%elem_tokens|Hin]; [done|].
  apply elem_of_cons in Hin as [?|Hin]; [congruence|].
  apply list_elem_of_split in Hin as (r1 & r2 & ->).
  assert (Hk1 : k ∉ tokens (q1 ++ (w, true) :: r1)).
  { rewrite Hq in Hnd. rewrite app_comm_cons, app_assoc, tokens_app in Hnd.
    apply NoDup_app in Hnd as (_ & Hd & _). intros Hin. apply (Hd _ Hin). left. }
  rewrite Hq, app_comm_cons, app_assoc in Hp.
  rewrite (preceding_writer_spec k _ (k, ex)) in Hp by done.
  apply existsb_snd_false in Hp. rewrite Forall_app, Forall_cons in Hp. naive_solver.
Qed.

Lemma remove_other (e e' : nat * bool) q1 q2 :
  e <> e' -> e ∈ q1 ++ e' :: q2 ->
  exists r1 r2, remove_entry e (q1 ++ e' :: q2) = r1 ++ e' :: r2
    /\ (forall x, x ∈ r1 -> x ∈ q1).
Proof.
  intros Hne. induction q1 as [|x q1 IH]; cbn [app remove_entry].
  - rewrite decide_False by congruence. intros _. exists [], (remove_entry e q2). set_solver.
  - destruct (decide (x = e)) as [->|Hx]; intros Hin.
    + exists q1, q2. set_solver.
    + apply elem_of_cons in Hin as [?|Hin]; [congruence|].
      destruct (IH Hin) as (r1 & r2 & -> & Hr). exists (x :: r1), r2. set_solver.
Qed.

Lemma removed_gone e q : NoDup (tokens q) -> e ∈ q -> e ∉ remove_entry e q.
Proof.
  intros Hnd (r1 & r2 & -> & _ & ->)%remove_entry_split. rewrite tokens_app in Hnd.
  cbn [tokens map] in Hnd. rewrite <- Permutation_middle in Hnd.
  apply NoDup_cons in Hnd as [Hn _]. intros Hin%elem_tokens. by rewrite tokens_app in Hin.
Qed.

Lemma waiting_behind_step w ahead old s s' :
  inv s -> step s s' -> waiting_behind w ahead old s -> (w, true) ∈ queue (co s') ->
  waiting_behind w ahead old s'.
Proof.
  intros Hinv Hstep (q1 & q2 & Hq & Ha & Ho) Hw.
  assert (Hdup : NoDup (tokens (queue (co s)))).
  { destruct Hinv as [Hu _ _ _]. rewrite tokens_app in Hu. by apply NoDup_app in Hu as [? _]. }
  destruct Hstep as [s ex|s k ex c' Hk Hadm|s k ex Hk|s k ex Hh].
  - exists q1, (q2 ++ [(next s, ex)]). cbn [co held enqueue queue].
    rewrite Hq, <- app_assoc. done.
  - pose proof (admitted_not_behind k ex (co s) w q1 q2 c' Hdup Hq Hadm Hk) as Hpos.
    unfold try_admit in Hadm. case_match; [|done]. simplify_eq.
    assert (Hwq : (w, true) ∈ remove_entry (k, ex) (queue (co s))) by (by destruct ex).
    assert (Hne : (k, ex) <> (w, true)).
    { intros Heq. rewrite Heq in Hwq, Hk. by apply (removed_gone (w, true) (queue (co s))). }
    destruct Hpos as [Hpos| ->].
    2: { exfalso. apply Hne. f_equal. eapply token_unique; [exact Hdup|exact Hk|].
         rewrite Hq. set_solver. }
    rewrite Hq in Hk. destruct (remove_other _ _ q1 q2 Hne Hk) as (r1 & r2 & Hr & Hsub).
    exists r1, r2. split; [destruct ex; cbn [co queue]; by rewrite Hq|]. split.
    + intros x (b & Hb)%elem_tokens_inv. by apply Ha, (elem_tokens (x, b)), Hsub.
    + cbn [held]. intros x b [?|Hx]%elem_of_cons; [simplify_eq; right; by apply Ha|by apply Ho].
  - assert (Hne : (k, ex) <> (w, true)).
    { intros [= -> ->]. by apply (removed_gone (w, true) (queue (co s))). }
    rewrite Hq in Hk. destruct (remove_other _ _ q1 q2 Hne Hk) as (r1 & r2 & Hr & Hsub).
    exists r1, r2. split; [cbn [co withdraw queue]; by rewrite Hq|]. split; [|done].
    intros x (b & Hb)%elem_tokens_inv. by apply Ha, (elem_tokens (x, b)), Hsub.
  - exists q1, q2. split; [by destruct ex|]. split; [done|]. cbn [held]. intros x b Hx. apply Ho.
    apply remove_entry_split in Hh as (h1 & h2 & Hh & _ & Hrm). rewrite Hrm in Hx. rewrite Hh.
    set_solver.
Qed.

Lemma next_mono s s' : rtc step s s' -> next s <= next s'.
Proof.
  induction 1 as [|x y z Hs _ IH]; [done|]. etransitivity; [|exact IH].
  destruct Hs; cbn [next]; lia.
Qed.

Lemma queued_fresh s k e : inv s -> (k, e) ∈ queue (co s) -> k < next s.
Proof.
  intros [_ Hf _ _] Hin. rewrite tokens_app in Hf. apply Forall_app in Hf as [Hf _].
  rewrite Forall_forall in Hf. by apply Hf, (elem_tokens (k, e)).
Qed.

(** No overtaking.  While a writer waits, nothing that queued after it is
    ever admitted: in any later state in which it is still queued, every held
    lease was already held when the wait began or was queued ahead of it. *)
Theorem writer_not_overtaken (s s' : sys) (w : nat) (q1 q2 : list (nat * bool)) :
  rtc step sys0 s -> queue (co s) = q1 ++ (w, true) :: q2 ->
  rtc step s s' -> (w, true) ∈ queue (co s') ->
  forall k b, (k, b) ∈ held s' -> (k, b) ∈ held s \/ k ∈ tokens q1.
Proof.
  intros Hreach Hq Hrun Hw k b Hk.
  assert (Hlt : w < next s).
  { apply (queued_fresh s w true); [by apply inv_reachable|]. rewrite Hq. set_solver. }
  assert (Hwait : waiting_behind w (tokens q1) (held s) s').
  { revert Hw. clear Hk.
    apply (rtc_ind_r (R := step) (fun s' => (w, true) ∈ queue (co s') -> waiting_behind w (tokens q1) (held s) s') s);
      [intros _; by exists q1, q2; auto| |exact Hrun].
    intros y z Hy Hyz IH Hw. assert (Hinv : inv y) by (apply inv_reachable; by etransitivity).
    pose proof (next_mono _ _ Hy).
    apply (waiting_behind_step w _ _ y z Hinv Hyz); [|exact Hw]. apply IH.
    apply (left_queue_forever y z w true Hinv Hyz); [lia|exact Hw]. }
  destruct Hwait as (r1 & r2 & _ & _ & Ho). by apply Ho in Hk.
Qed.

(** ** Progress *)

(** The head of the queue is admitted as soon as nothing is held. *)
Lemma idle_head_admitted s k ex q :
  inv s -> held s = [] -> queue (co s) = (k, ex) :: q -> is_Some (try_admit k ex (co s)).
Proof.
  intros [_ _ Hr He] Hh Hq. unfold try_admit, admissible. rewrite Hq, Hh in *.
  cbn [preceding_writer at_head]. rewrite decide_True, bool_decide_eq_true_2 by done.
  destruct (writer (co s)); [by destruct He|]. rewrite Hr. cbn. rewrite orb_true_r. eauto.
Qed.

Lemma release_all s :
  inv s -> exists s', rtc step s s' /\ inv s' /\ held s' = [] /\ queue (co s') = queue (co s).
Proof.
  remember (length (held s)) as n eqn:Hn. revert s Hn.
  induction n as [|n IH]; intros s Hn Hinv.
  - exists s. split; [apply rtc_refl|]. split; [done|]. split; [by apply nil_length_inv|done].
  - destruct (held s) as [|[k ex] h] eqn:Hh; [done|].
    assert (Hin : (k, ex) ∈ held s) by (rewrite Hh; left).
    pose proof (step_release s k ex Hin) as Hstep. pose proof (inv_step _ _ Hinv Hstep) as Hinv'.
    assert (Hlen : n = length (remove_entry (k, ex) (held s))).
    { rewrite Hh. unfold remove_entry. destruct (decide _) as [_|[]]; [|done]. by injection Hn. }
    destruct (IH (Sys (release ex (co s)) (remove_entry (k, ex) (held s)) (next s)) Hlen Hinv') as (s' & Hrun & Hi & Hhe & Hq).
    exists s'. split; [by eapply rtc_l|]. split; [done|]. split; [done|].
    rewrite Hq. by destruct ex.
Qed.

(** No deadlock.  From every reachable state with somebody waiting, letting
    the current holders finish admits the longest waiter, whoever it is, before
    anybody else. *)
Theorem lease_progress (s : sys) (k : nat) (ex : bool) (q : list (nat * bool)) :
  rtc step sys0 s -> queue (co s) = (k, ex) :: q ->
  exists s', rtc step s s' /\ held s' = [(k, ex)] /\ queue (co s') = q.
Proof.
  intros Hreach%inv_reachable Hq.
  destruct (release_all s Hreach) as (s1 & Hrun & Hinv & Hh & Hq1). rewrite Hq in Hq1.
  destruct (idle_head_admitted s1 k ex q Hinv Hh Hq1) as [c' Hc'].
  exists (Sys c' ((k, ex) :: held s1) (next s1)). cbn [held co]. rewrite Hh. split; [|split; [done|]].
  - eapply rtc_r; [exact Hrun|]. rewrite <- Hh. apply step_admit; [|done]. rewrite Hq1. left.
  - unfold try_admit in Hc'. case_match; [|done]. rewrite Hq1 in Hc'. cbn [remove_entry] in Hc'.
    rewrite decide_True in Hc' by done. destruct ex; by simplify_eq.
Qed.

(** ** A run: a reader holds, a writer waits, a second reader queues behind it *)

Definition demo : sys :=
  Sys (Make [(1, true); (2, false)] 1 false) [(0, false)] 3.

Lemma demo_reachable : rtc step sys0 demo.
Proof.
  eapply rtc_l; [apply (step_enqueue _ false)|].
  eapply rtc_l; [apply (step_admit _ 0 false); [left|reflexivity]|].
  eapply rtc_l; [apply (step_enqueue _ true)|].
  eapply rtc_l; [apply (step_enqueue _ false)|]. apply rtc_refl.
Qed.

Lemma lease_exclusion_witness :
  rtc step sys0 demo /\ readers (co demo) = Z.of_nat (length (filter (fun e => e.2 = false) (held demo))).
Proof. split; [exact demo_reachable|]. apply (lease_exclusion demo), demo_reachable. Defined.

Lemma writer_not_overtaken_witness :
  rtc step sys0 demo /\ try_admit 2 false (co demo) = None
  /\ forall s', rtc step demo s' -> (1, true) ∈ queue (co s') -> (2, false) ∉ held s'.
Proof.
  split; [exact demo_reachable|]. split; [reflexivity|]. intros s' Hrun Hw Hin.
  destruct (writer_not_overtaken demo s' 1 [] [(2, false)] demo_reachable eq_refl Hrun Hw 2 false Hin)
    as [Hx|Hx].
  - by apply list_elem_of_singleton in Hx.
  - by apply elem_of_nil in Hx.
Defined.

Lemma lease_progress_witness :
  queue (co demo) = [(1, true); (2, false)] /\ exists s', rtc step demo s' /\ held s' = [(1, true)].
Proof.
  split; [reflexivity|].
  destruct (lease_progress demo 1 true [(2, false)] demo_reachable eq_refl) as (s' & Hr & Hh & _). eauto.
Defined.
