(* ===== verification/Idempotency.v ===== *)
(** * The ingest de-duplication cache ([idempotency.py])

    [EventIdempotencyCache]: an ordered dict from idempotency keys to the time
    they were first seen, oldest position first.  A check purges expired
    entries from the front, then either reports a duplicate (and moves it to
    the end, keeping its time) or stores the key and trims the cache to its
    capacity.  Clock readings are integer ticks.

    The theorems: the cache never exceeds its capacity and never holds a key
    twice; a key accepted once is refused again throughout its window, whatever
    other keys arrive in between; and a key that never arrived is accepted. *)
From stdpp Require Import base list strings sets.
From Stdlib Require Import ZArith Lia.
From S2P Require Import Prelude.

#[local] Open Scope Z_scope.

(** [_ttl_seconds], [_max_entries] and [_seen]. *)
Record EventIdempotencyCache := {
  ic_ttl : Z;
  ic_max : Z;
  ic_seen : list (string * Z);
}.

Definition with_seen (c : EventIdempotencyCache) (l : list (string * Z)) : EventIdempotencyCache :=
  {| ic_ttl := ic_ttl c; ic_max := ic_max c; ic_seen := l |}.

Definition default_ttl : Z := 7 * 24 * 60 * 60.
Definition default_max : Z := 100000.
Definition new_cache (ttl max : Z) : EventIdempotencyCache :=
  {| ic_ttl := ttl; ic_max := max; ic_seen := [] |}.

(** [while self._seen: ... if now - seen_at < ttl: break; popitem(last=False)] *)
Fixpoint _purge (ttl now : Z) (l : list (string * Z)) : list (string * Z) :=
  match l with
  | [] => []
  | (_, seen_at) :: l' => if now - seen_at <? ttl then l else _purge ttl now l'
  end.

(** [while len(self._seen) > max: self._seen.popitem(last=False)]; popping an
    empty dict raises. *)
Fixpoint _trim (max : Z) (l : list (string * Z)) : result (list (string * Z)) :=
  if Z.of_nat (length l) >? max then
    match l with
    | [] => Err KeyError
    | _ :: l' => _trim max l'
    end
  else Ok l.

(** [OrderedDict.move_to_end] *)
Definition move_to_end (k : string) (l : list (string * Z)) : list (string * Z) :=
  match dget k l with
  | Some v => ddel k l ++ [(k, v)]
  | None => l
  end.

Definition check_and_store (k : string) (now : Z) : M EventIdempotencyCache bool := fun c =>
  let seen := _purge (ic_ttl c) now (ic_seen c) in
  if dmem k seen then (Ok false, with_seen c (move_to_end k seen))
  else
    let stored := move_to_end k (dset k now seen) in
    match _trim (ic_max c) stored with
    | Ok trimmed => (Ok true, with_seen c trimmed)
    | Err e => (Err e, with_seen c [])
    end.

Definition clear : M EventIdempotencyCache unit := mmodify (fun c => with_seen c []).

(** A sequence of arrivals: the verdicts are ignored here, an exception stops. *)
Fixpoint arrivals (cs : list (string * Z)) : M EventIdempotencyCache unit :=
  match cs with
  | [] => mret tt
  | (k, now) :: cs' => check_and_store k now ;;; arrivals cs'
  end.

(** ** Suffixes: what purging and trimming can remove *)

Lemma purge_suffix ttl now l : _purge ttl now l `suffix_of` l.
Proof.
  induction l as [|[k t] l IH]; cbn [_purge]; [done|]. case_match; [done|]. by apply suffix_cons_r.
Qed.

Lemma trim_spec max l :
  0 <= max ->
  _trim max l = Ok (drop (length l - Z.to_nat max) l).
Proof.
  intros Hm. induction l as [|x l IH]; cbn [_trim].
  - destruct (Z.gtb_spec (Z.of_nat (length (@nil (string * Z)))) max); [simpl in *; lia|].
    by rewrite drop_nil.
  - destruct (Z.gtb_spec (Z.of_nat (length (x :: l))) max); cbn [length] in *.
    + rewrite IH. replace (S (length l) - Z.to_nat max)%nat with (S (length l - Z.to_nat max)) by lia.
      done.
    + by replace (S (length l) - Z.to_nat max)%nat with O by lia.
Qed.

(** An entry that has not expired is still there after a purge, with all that
    came after it. *)
Lemma purge_keeps ttl now a k t b :
  now - t < ttl -> exists a', _purge ttl now (a ++ (k, t) :: b) = a' ++ (k, t) :: b.
Proof.
  intros Ht. induction a as [|[k' t'] a IH]; cbn [app _purge].
  - destruct (Z.ltb_spec (now - t) ttl); [by exists []|lia].
  - case_match; [by exists ((k', t') :: a)|exact IH].
Qed.

(** ** Moving a key to the end *)

Lemma dset_new {V} k (v : V) (l : list (string * V)) : dget k l = None -> dset k v l = l ++ [(k, v)].
Proof.
  induction l as [|[k' v'] l IH]; cbn [dget dset app]; [done|].
  case_decide; [done|]. intros Hl. by rewrite IH.
Qed.

Lemma ddel_app {V} k (a b : list (string * V)) : ddel k (a ++ b) = ddel k a ++ ddel k b.
Proof. apply filter_app. Qed.

Lemma length_ddel {V} k (l : list (string * V)) : (length (ddel k l) <= length l)%nat.
Proof. apply length_filter. Qed.

(** Storing a new key puts it last. *)
Lemma store_new k now l : dget k l = None -> move_to_end k (dset k now l) = l ++ [(k, now)].
Proof.
  intros Hk. unfold move_to_end. rewrite dget_dset_eq, dset_new by done.
  rewrite ddel_app, ddel_notin by done. unfold ddel at 1.
  rewrite filter_cons_False by (simpl; tauto). by rewrite filter_nil, app_nil_r.
Qed.

Lemma dkeys_app {V} (a b : list (string * V)) : dkeys (a ++ b) = dkeys a ++ dkeys b.
Proof. apply map_app. Qed.

Lemma NoDup_move_to_end k l : NoDup (dkeys l) -> NoDup (dkeys (move_to_end k l)).
Proof.
  intros Hnd. unfold move_to_end. destruct (dget k l) as [v|]; [|done].
  rewrite dkeys_app. apply NoDup_app. split; [by apply NoDup_ddel|]. split.
  - intros x Hx. cbn [dkeys map fst]. intros ->%list_elem_of_singleton.
    revert Hx. apply dget_None_keys, dget_ddel_eq.
  - apply NoDup_singleton.
Qed.

Lemma length_move_to_end k l : NoDup (dkeys l) -> (length (move_to_end k l) <= length l)%nat.
Proof.
  intros Hnd. unfold move_to_end. destruct (dget k l) as [v|] eqn:Hk; [|done].
  apply dget_elem, list_elem_of_split in Hk as (a & b & ->).
  rewrite dkeys_app in Hnd. apply NoDup_app in Hnd as (_ & Ha & Hb).
  rewrite ddel_app. unfold ddel at 2. rewrite filter_cons_False by (simpl; tauto).
  pose proof (length_ddel k a). pose proof (length_filter (fun kv : string * Z => kv.1 <> k) b).
  rewrite !length_app in *. cbn [length] in *. lia.
Qed.

(** ** The state invariant *)

Definition cache_ok (c : EventIdempotencyCache) : Prop :=
  0 <= ic_max c /\ NoDup (dkeys (ic_seen c)) /\ Z.of_nat (length (ic_seen c)) <= ic_max c.

Lemma suffix_NoDup {V} (a b : list (string * V)) :
  a `suffix_of` b -> NoDup (dkeys b) -> NoDup (dkeys a).
Proof. intros [p ->]. rewrite dkeys_app, NoDup_app. tauto. Qed.

(** What one check does, on a healthy cache: never an exception. *)
Lemma check_and_store_cases k now c :
  cache_ok c ->
  let seen := _purge (ic_ttl c) now (ic_seen c) in
  check_and_store k now c =
  if dmem k seen then (Ok false, with_seen c (move_to_end k seen))
  else (Ok true, with_seen c (drop (S (length seen) - Z.to_nat (ic_max c)) (seen ++ [(k, now)]))).
Proof.
  intros (Hm & Hnd & Hlen). cbv zeta. unfold check_and_store.
  destruct (dmem k _) eqn:Hk; [done|]. unfold dmem in Hk. case_match; [done|].
  rewrite store_new, trim_spec, length_app by done. cbn [length].
  by rewrite Nat.add_1_r.
Qed.

Lemma purge_ok c now :
  cache_ok c -> let seen := _purge (ic_ttl c) now (ic_seen c) in
  NoDup (dkeys seen) /\ Z.of_nat (length seen) <= ic_max c.
Proof.
  intros (Hm & Hnd & Hlen). pose proof (purge_suffix (ic_ttl c) now (ic_seen c)) as Hs.
  split; [by eapply suffix_NoDup|]. apply suffix_length in Hs. lia.
Qed.

Lemma check_and_store_ok k now c :
  cache_ok c ->
  exists v c', check_and_store k now c = (Ok v, c') /\ cache_ok c'
               /\ ic_ttl c' = ic_ttl c /\ ic_max c' = ic_max c.
Proof.
  intros Hc. rewrite check_and_store_cases by done. destruct (purge_ok c now Hc) as [Hnd Hlen].
  destruct Hc as (Hm & _ & _). set (seen := _purge _ _ _) in *.
  destruct (dmem k seen) eqn:Hk; do 2 eexists; (split; [done|]); (split; [|done]);
    unfold cache_ok, with_seen; cbn [ic_max ic_seen]; (split; [done|]).
  - split; [by apply NoDup_move_to_end|]. pose proof (length_move_to_end k seen Hnd). lia.
  - unfold dmem in Hk. case_match eqn:Hget; [done|]. apply dget_None_keys in Hget. split.
    + eapply suffix_NoDup; [eexists; symmetry; apply take_drop|]. rewrite dkeys_app.
      apply NoDup_app. split; [done|]. split; [|apply NoDup_singleton].
      intros x Hx ->%list_elem_of_singleton. done.
    + rewrite length_drop, length_app. cbn [length]. lia.
Qed.

Lemma arrivals_ok cs c :
  cache_ok c ->
  exists c', arrivals cs c = (Ok tt, c') /\ cache_ok c'
             /\ ic_ttl c' = ic_ttl c /\ ic_max c' = ic_max c.
Proof.
  revert c. induction cs as [|[k now] cs IH]; intros c Hc; cbn [arrivals]; [by exists c|].
  destruct (check_and_store_ok k now c Hc) as (v & c1 & Hstep & Hc1 & Ht & Hm).
  destruct (IH c1 Hc1) as (c2 & Hrun & Hc2 & Ht2 & Hm2). exists c2.
  unfold mbind. rewrite Hstep. repeat split; [done|apply Hc2..|congruence|congruence].
Qed.

(** ** The window of a key *)

(** [k] was stored at [t] and at most [n] entries are behind it. *)
Definition within (k : string) (t : Z) (n : nat) (c : EventIdempotencyCache) : Prop :=
  exists a b, ic_seen c = a ++ (k, t) :: b /\ (length b <= n)%nat.

Lemma dget_mid {V} (k : string) (v : V) a b : k ∉ dkeys a -> dget k (a ++ (k, v) :: b) = Some v.
Proof.
  induction a as [|[k' v'] a IH]; cbn [app dget dkeys map fst]; [by rewrite decide_True|].
  intros [Hk Ha]%not_elem_of_cons. rewrite decide_False by done. by apply IH.
Qed.

Lemma within_move k t a b k' :
  NoDup (dkeys (a ++ (k, t) :: b)) ->
  exists a' b', move_to_end k' (a ++ (k, t) :: b) = a' ++ (k, t) :: b'
                /\ (length b' <= S (length b))%nat.
Proof.
  intros Hnd. unfold move_to_end. destruct (dget k' _) as [v|] eqn:Hget; [|by eauto with lia].
  destruct (decide (k' = k)) as [->|Hne].
  - rewrite dget_mid in Hget; [simplify_eq|].
    + eexists _, []. split; [reflexivity|simpl; lia].
    + rewrite dkeys_app in Hnd. apply NoDup_app in Hnd as (_ & Hd & _). intros Hin.
      eapply Hd; [exact Hin|]. left.
  - rewrite ddel_app. unfold ddel at 2. rewrite filter_cons_True by done.
    fold (ddel k' b). exists (ddel k' a), (ddel k' b ++ [(k', v)]).
    split; [by rewrite <- app_assoc|]. rewrite length_app. pose proof (length_ddel k' b). simpl. lia.
Qed.

Lemma within_step k t n c k' now :
  cache_ok c -> within k t n c -> now - t < ic_ttl c -> Z.of_nat n + 2 <= ic_max c ->
  exists v c', check_and_store k' now c = (Ok v, c') /\ within k t (S n) c' /\ (k' = k -> v = false).
Proof.
  intros Hc (a & b & Hseen & Hb) Ht Hn. rewrite check_and_store_cases by done.
  destruct (purge_ok c now Hc) as [Hnd _]. rewrite Hseen in *.
  destruct (purge_keeps (ic_ttl c) now a k t b Ht) as [a' Ha']. rewrite Ha' in *.
  assert (Hk : k ∉ dkeys a').
  { rewrite dkeys_app in Hnd. apply NoDup_app in Hnd as (_ & Hd & _). intros Hin.
    eapply Hd; [exact Hin|]. left. }
  destruct (dmem k' _) eqn:Hmem; do 2 eexists; (split; [done|]).
  - split; [|done]. destruct (within_move k t a' b k' Hnd) as (a2 & b2 & Hm & Hb2).
    exists a2, b2. unfold with_seen. cbn [ic_seen]. split; [exact Hm|lia].
  - split.
    + exists (drop (S (length (a' ++ (k, t) :: b)) - Z.to_nat (ic_max c)) a'), (b ++ [(k', now)]).
      unfold with_seen. cbn [ic_seen]. rewrite <- app_assoc, drop_app_le.
      * split; [done|]. rewrite length_app. simpl. lia.
      * rewrite length_app. simpl. lia.
    + intros ->. unfold dmem in Hmem. by rewrite dget_mid in Hmem.
Qed.

Lemma within_arrivals k t cs n c :
  cache_ok c -> within k t n c ->
  Forall (fun x => x.2 - t < ic_ttl c) cs -> Z.of_nat (n + length cs) + 1 <= ic_max c ->
  exists c', arrivals cs c = (Ok tt, c') /\ cache_ok c' /\ within k t (n + length cs) c'
             /\ ic_ttl c' = ic_ttl c /\ ic_max c' = ic_max c.
Proof.
  revert n c. induction cs as [|[k' now] cs IH]; intros n c Hc Hw Hcs Hn; cbn [arrivals].
  { exists c. rewrite Nat.add_0_r. done. }
  apply Forall_cons in Hcs as [Hnow Hcs]. cbn [length snd] in *.
  destruct (within_step k t n c k' now Hc Hw Hnow ltac:(lia)) as (v & c1 & Hs & Hw1 & _).
  destruct (check_and_store_ok k' now c Hc) as (v' & c1' & Hs' & Hc1 & Ht & Hm).
  rewrite Hs in Hs'. simplify_eq. rewrite <- Ht in Hcs.
  destruct (IH (S n) c1' Hc1 Hw1 Hcs ltac:(lia)) as (c2 & Hr & Hc2 & Hw2 & Ht2 & Hm2).
  exists c2. unfold mbind. rewrite Hs. repeat split; [done|apply Hc2..| |congruence|congruence].
  by replace (n + S (length cs))%nat with (S n + length cs)%nat by lia.
Qed.

(** An accepted idempotency key is refused for its whole window: once a
    check has accepted [k] at time [t], any later check of [k] less than the
    time to live after [t] reports a duplicate, whatever other keys were checked
    in between, as long as there were fewer of those checks than the cache's
    capacity.  No check ever raises, and the cache stays within its capacity
    without repeated keys. *)
Theorem accepted_key_refused (c c1 : EventIdempotencyCache) (k : string) (t t' : Z)
    (cs : list (string * Z)) :
  cache_ok c -> check_and_store k t c = (Ok true, c1) ->
  Forall (fun x => x.2 - t < ic_ttl c) cs -> t' - t < ic_ttl c ->
  Z.of_nat (length cs) + 2 <= ic_max c ->
  exists c2 c3, arrivals cs c1 = (Ok tt, c2) /\ check_and_store k t' c2 = (Ok false, c3)
                /\ cache_ok c2 /\ cache_ok c3.
Proof.
  intros Hc Hacc Hcs Ht' Hlen.
  destruct (check_and_store_ok k t c Hc) as (v & c1' & Heq & Hc1 & Ht & Hm).
  rewrite Hacc in Heq. simplify_eq.
  assert (Hw : within k t 0 c1').
  { rewrite check_and_store_cases in Hacc by done. destruct (dmem k _); simplify_eq.
    exists (drop (S (length (_purge (ic_ttl c) t (ic_seen c))) - Z.to_nat (ic_max c))
              (_purge (ic_ttl c) t (ic_seen c))), [].
    unfold with_seen. cbn [ic_seen]. split; [|simpl; lia]. apply drop_app_le. lia. }
  rewrite <- Ht in Hcs, Ht'.
  destruct (within_arrivals k t cs 0 c1' Hc1 Hw Hcs ltac:(simpl; lia))
    as (c2 & Hr & Hc2 & Hw2 & Ht2 & Hm2).
  destruct (within_step k t _ c2 k t' Hc2 Hw2 ltac:(congruence) ltac:(lia)) as (v & c3 & Hs & _ & Hv).
  destruct (check_and_store_ok k t' c2 Hc2) as (v' & c3' & Hs' & Hc3 & _).
  rewrite Hs in Hs'. simplify_eq. exists c2, c3'. rewrite Hv in Hs by done. done.
Qed.

Lemma accepted_key_refused_witness :
  let c := new_cache 10 3 in
  exists c1 c2 c3, check_and_store "k" 0 c = (Ok true, c1)
    /\ arrivals [("other", 4)] c1 = (Ok tt, c2) /\ check_and_store "k" 9 c2 = (Ok false, c3)
    /\ length (ic_seen c3) = 2%nat.
Proof.
  set (c := new_cache 10 3). eexists.
  destruct (accepted_key_refused c (with_seen c [("k", 0)]) "k" 0 9 [("other", 4)])
    as (c2 & c3 & H1 & H2 & _ & _).
  - split; [vm_compute; discriminate|]. split; [apply NoDup_nil_2|vm_compute; discriminate].
  - reflexivity.
  - repeat constructor.
  - vm_compute. reflexivity.
  - vm_compute. discriminate.
  - exists c2, c3. split; [reflexivity|]. split; [exact H1|]. split; [exact H2|].
    vm_compute in H1. injection H1 as <-. vm_compute in H2. by injection H2 as <-.
Defined.

(** A key the cache does not hold is accepted, and is then the newest entry. *)
Lemma unseen_key_accepted k now c :
  cache_ok c -> k ∉ dkeys (ic_seen c) -> 0 < ic_max c ->
  exists c', check_and_store k now c = (Ok true, c') /\ last (ic_seen c') = Some (k, now).
Proof.
  intros Hc Hk Hmax. rewrite check_and_store_cases by done.
  assert (Hn : dmem k (_purge (ic_ttl c) now (ic_seen c)) = false).
  { unfold dmem. rewrite (proj2 (dget_None_keys k _)); [done|].
    destruct (purge_suffix (ic_ttl c) now (ic_seen c)) as [p Hp]. rewrite Hp, dkeys_app in Hk.
    set_solver. }
  rewrite Hn. eexists. split; [done|]. cbn [with_seen ic_seen].
  rewrite drop_app_le; [apply last_snoc|]. destruct Hc as (_ & _ & Hlen).
  pose proof (suffix_length _ _ (purge_suffix (ic_ttl c) now (ic_seen c))). lia.
Qed.

(** A duplicate is moved to the end without refreshing its time, so an expired
    entry can sit behind a live one and still be reported as seen. *)
Example expired_key_survives :
  let c := new_cache 10 3 in
  let run := check_and_store "a" 0 ;;; check_and_store "b" 1 ;;; check_and_store "a" 5 ;;;
             check_and_store "a" 10 in
  fst (run c) = Ok false.
Proof. reflexivity. Qed.
