(* ===== verification/Retention.v ===== *)
(** * Blob retention ([blob_retention.py])

    Pruning old blobs by storage age: preview, confirmation, a durable journal
    of tombstones, and only then the unlinks.  The state is the blob root
    (BlobDisk) with the committed ledger, the ledger as the open transaction
    sees it, the report being filled, and a crash budget: every durable action
    (committing the ledger, unlinking a file) spends one unit, and the process
    dies where the budget ends.  A property of all exits for all budgets is
    therefore a property of every crash point.  Directory scans see the files
    as they are when the scan starts (the files unlinked meanwhile were already
    yielded); the checks that the root was not replaced are not modelled.

    The theorems: at every crash point a file is still there or was old, matched
    its fingerprint and has a committed tombstone; declining changes nothing;
    recovery terminates; a pruned blob reads as expired and is not rehydrated. *)
From stdpp Require Import base list strings gmap sorting.
From Stdlib Require Import ZArith Lia.
From S2P Require Import Prelude PyText Utils Json JsonParse BlobKeys BlobDisk.

#[local] Open Scope list_scope.
#[local] Open Scope Z_scope.

(** ** Ages *)

Definition unit_seconds (b : byte) : option Z :=
  if decide (b = Byte.x73) then Some 1
  else if decide (b = Byte.x6d) then Some 60
  else if decide (b = Byte.x68) then Some 3600
  else if decide (b = Byte.x64) then Some 86400
  else if decide (b = Byte.x77) then Some 604800
  else None.

(** [re.fullmatch("([1-9][0-9]*)([smhdw])", value)] *)
Definition duration_match (value : string) : option (bytes * Z) :=
  match rev (bytes_of value) with
  | u :: ds =>
    match unit_seconds u, rev ds with
    | Some sec, d :: digits =>
      if in_range 49 57 d && forallb is_digit digits then Some (d :: digits, sec) else None
    | _, _ => None
    end
  | [] => None
  end.

Definition duration_ns (value : string) : result Z :=
  match duration_match value with
  | None => Err ValueError
  | Some (digits, sec) =>
    if (18 <? length digits)%nat then Err ValueError
    else match parse_int digits with
         | None => Err ValueError
         | Some n =>
           let result := n * sec * 10 ^ 9 in
           if result >? 2 ^ 63 - 1 then Err ValueError else Ok result
         end
  end.

Definition cutoff_for (age_ns now_ns : Z) : result Z :=
  let cutoff := now_ns - age_ns in
  if (cutoff <? 0) || (age_ns <=? 0) then Err ValueError else Ok cutoff.

(** ** Candidates and reports *)

Record Candidate := MkCand { c_uri : string; c_fp : Fp; c_allocated : Z }.

Record Report := MkReport {
  rp_cutoff : Z;
  rp_files : Z;
  rp_logical : Z;
  rp_allocated : Z;
  rp_retained : Z;
  rp_skipped : Z;
  rp_changed : Z;
  rp_errors : Z;
  rp_deleted : Z;
  rp_samples : list string;
}.

Definition new_report (cutoff : Z) : Report := MkReport cutoff 0 0 0 0 0 0 0 0 [].

Definition bump_skipped (p : Report) : Report :=
  MkReport (rp_cutoff p) (rp_files p) (rp_logical p) (rp_allocated p) (rp_retained p)
    (rp_skipped p + 1) (rp_changed p) (rp_errors p) (rp_deleted p) (rp_samples p).
Definition bump_retained (p : Report) : Report :=
  MkReport (rp_cutoff p) (rp_files p) (rp_logical p) (rp_allocated p) (rp_retained p + 1)
    (rp_skipped p) (rp_changed p) (rp_errors p) (rp_deleted p) (rp_samples p).
Definition bump_changed (p : Report) : Report :=
  MkReport (rp_cutoff p) (rp_files p) (rp_logical p) (rp_allocated p) (rp_retained p)
    (rp_skipped p) (rp_changed p + 1) (rp_errors p) (rp_deleted p) (rp_samples p).
Definition bump_errors (p : Report) : Report :=
  MkReport (rp_cutoff p) (rp_files p) (rp_logical p) (rp_allocated p) (rp_retained p)
    (rp_skipped p) (rp_changed p) (rp_errors p + 1) (rp_deleted p) (rp_samples p).
Definition bump_deleted (p : Report) : Report :=
  MkReport (rp_cutoff p) (rp_files p) (rp_logical p) (rp_allocated p) (rp_retained p)
    (rp_skipped p) (rp_changed p) (rp_errors p) (rp_deleted p + 1) (rp_samples p).
Definition add_file (c : Candidate) (p : Report) : Report :=
  MkReport (rp_cutoff p) (rp_files p + 1) (rp_logical p + fp_size (c_fp c))
    (rp_allocated p + c_allocated c) (rp_retained p) (rp_skipped p) (rp_changed p)
    (rp_errors p) (rp_deleted p)
    (if (length (rp_samples p) <? 5)%nat then rp_samples p ++ [c_uri c] else rp_samples p).

Definition BATCH_SIZE : nat := 512.

Section retention.
Context `{Os}.

(** One directory entry of a session's [blobs]. *)
Definition scan_file (cutoff : Z) (session : string) (e : string * Inode)
    (acc : list Candidate * Report) : list Candidate * Report :=
  let '(items, p) := acc in
  match address_from_filename session e.1 with
  | Err _ | Ok None => (items, bump_skipped p)
  | Ok (Some a) =>
    if negb (_regular e.2) then (items, bump_skipped p)
    else if cutoff <=? fp_mtime (in_fp e.2) then (items, bump_retained p)
    else let c := MkCand (ba_uri a) (in_fp e.2) (in_blocks e.2 * 512) in
         (items ++ [c], add_file c p)
  end.

(** One child of the root. *)
Definition scan_session (cutoff : Z) (e : string * SessionEntry)
    (acc : list Candidate * Report) : list Candidate * Report :=
  let '(items, p) := acc in
  if bool_decide (e.1 ∈ [LOCK; METADATA]) then acc
  else match component e.1, e.2 with
       | Err _, _ | Ok _, SOther | Ok _, SDir None => (items, bump_skipped p)
       | Ok session, SDir (Some d) =>
         foldl (fun acc e => scan_file cutoff session e acc) acc (map_to_list d)
       end.

Definition candidates (r : BlobRoot) (cutoff : Z) (p : Report) : list Candidate * Report :=
  foldl (fun acc e => scan_session cutoff e acc) ([], p) (map_to_list (sessions r)).

Definition _preview_root (r : BlobRoot) (cutoff : Z) : Report :=
  snd (candidates r cutoff (new_report cutoff)).

(** ** The prune state *)

Record RState := MkRState {
  rs_root : BlobRoot;             (** the files and the committed ledger *)
  rs_txn : gmap string Row;       (** the ledger inside the open transaction *)
  rs_report : Report;
  rs_budget : nat;                (** durable actions before the crash *)
}.

Definition with_report (f : Report -> Report) : M RState unit :=
  mmodify (fun s => MkRState (rs_root s) (rs_txn s) (f (rs_report s)) (rs_budget s)).

(** A durable action, or the crash before it. *)
Definition durable (f : RState -> RState) : M RState unit := fun s =>
  match rs_budget s with
  | O => (Err CancelledError, s)
  | S n => let s' := f s in
           (Ok tt, MkRState (rs_root s') (rs_txn s') (rs_report s') n)
  end.

(** [Ledger.commit] *)
Definition commit : M RState unit :=
  durable (fun s => MkRState (MkRoot (sessions (rs_root s)) (Some (rs_txn s)))
                      (rs_txn s) (rs_report s) (rs_budget s)).

Definition set_txn (f : gmap string Row -> gmap string Row) : M RState unit :=
  mmodify (fun s => MkRState (rs_root s) (f (rs_txn s)) (rs_report s) (rs_budget s)).

(** [INSERT OR IGNORE INTO expiry VALUES (..., 1)] *)
Definition insert_or_ignore (now : Z) (c : Candidate) (rows : gmap string Row) : gmap string Row :=
  match rows !! c_uri c with
  | Some _ => rows
  | None => <[c_uri c := MkRow (c_fp c) now true]> rows
  end.

(** [Ledger.journal]: committed before the first unlink. *)
Definition journal (now : Z) (items : list Candidate) : M RState unit :=
  set_txn (fun rows => foldl (fun rows c => insert_or_ignore now c rows) rows items) ;;;
  commit.

(** [Ledger.contains] inside the writable transaction *)
Definition ledger_contains (uri : string) : M RState bool :=
  mlift (exact_address uri) ;;;
  let! s := mget in mret (bool_decide (is_Some (rs_txn s !! uri))).

Definition _matches (item : Candidate) : M RState bool :=
  let! a := mlift (exact_address (c_uri item)) in
  let! s := mget in
  match blobs_dir (ba_session a) (rs_root s) with
  | Err FileNotFoundError => mret false
  | Err e => mraise e
  | Ok d =>
    match d !! ba_filename a with
    | None => mret false
    | Some i => mret (_regular i && bool_decide (in_fp i = c_fp item))
    end
  end.

Definition unlink_file (session file : string) : M RState unit :=
  durable (fun s => MkRState
    (with_sessions (rs_root s)
      (alter (fun e => match e with SDir (Some d) => SDir (Some (delete file d)) | _ => e end)
        session (sessions (rs_root s))))
    (rs_txn s) (rs_report s) (rs_budget s)).

(** [UPDATE expiry SET pending=0 WHERE uri=?] *)
Definition clear_pending (uri : string) : M RState unit :=
  set_txn (alter (fun row => MkRow (row_fp row) (row_expired_ns row) false) uri).

Definition _unlink (item : Candidate) : M RState unit :=
  let! s := mget in
  match rs_txn s !! c_uri item with
  | None => with_report bump_changed
  | Some row =>
    if negb (bool_decide (row_fp row = c_fp item)) || negb (row_pending row)
    then with_report bump_changed
    else
      let! a := mlift (exact_address (c_uri item)) in
      match blobs_dir (ba_session a) (rs_root s) with
      | Err FileNotFoundError => mret tt
      | Err _ => with_report bump_errors
      | Ok d =>
        match d !! ba_filename a with
        | None => clear_pending (c_uri item)
        | Some i =>
          if negb (_regular i) || negb (bool_decide (in_fp i = c_fp item))
          then with_report bump_changed
          else unlink_file (ba_session a) (ba_filename a) ;;;
               with_report bump_deleted ;;; clear_pending (c_uri item)
        end
      end
  end.

(** ** Recovery of pending tombstones: keyset pagination *)

Definition uri_after (after uri : string) : bool := negb (String.leb uri after).

(** [SELECT ... WHERE pending=1 AND mtime_ns<? AND uri>? ORDER BY uri LIMIT ?] *)
Definition pending_page (rows : gmap string Row) (cutoff : Z) (after : string) : list Candidate :=
  take BATCH_SIZE
    (omap (fun uri => match rows !! uri with
                      | Some row => if row_pending row && (fp_mtime (row_fp row) <? cutoff)
                                       && uri_after after uri
                                    then Some (MkCand uri (row_fp row) 0) else None
                      | None => None
                      end)
      (py_sorted (map fst (map_to_list rows)))).

Fixpoint _recover (fuel : nat) (after : string) : M RState unit :=
  match fuel with
  | O => mraise OverflowError
  | S fuel' =>
    let! s := mget in
    match pending_page (rs_txn s) (rp_cutoff (rs_report s)) after with
    | [] => mret tt
    | item :: items =>
      mfor (item :: items) _unlink ;;;
      commit ;;;
      _recover fuel' (c_uri (List.last items item))
    end
  end.

(** ** Apply *)

Definition stage (item : Candidate) (ready : list Candidate) : M RState (list Candidate) :=
  let! present := ledger_contains (c_uri item) in
  if present : bool then with_report bump_skipped ;;; mret ready
  else
    let! same := _matches item in
    if same : bool then mret (ready ++ [item]) else with_report bump_changed ;;; mret ready.

Fixpoint stage_all (items ready : list Candidate) : M RState (list Candidate) :=
  match items with
  | [] => mret ready
  | item :: items' => let! ready' := stage item ready in stage_all items' ready'
  end.

(** [flush()]: the candidates that are unchanged and not yet recorded are
    journalled, and only then unlinked. *)
Definition flush (now : Z) (batch : list Candidate) : M RState unit :=
  let! ready := stage_all batch [] in
  journal now ready ;;;
  mfor ready _unlink ;;;
  commit.

(** Batches of [BATCH_SIZE], and the rest if there is one. *)
Fixpoint flush_all (fuel : nat) (now : Z) (items : list Candidate) : M RState unit :=
  match fuel, items with
  | _, [] => mret tt
  | O, _ :: _ => mraise OverflowError
  | S fuel', _ :: _ =>
    flush now (take BATCH_SIZE items) ;;; flush_all fuel' now (drop BATCH_SIZE items)
  end.

(** [with Ledger(root, writable=True)]: the table exists afterwards. *)
Definition open_ledger : M RState unit := fun s =>
  match ledger (rs_root s) with
  | Some rows => (Ok tt, MkRState (rs_root s) rows (rs_report s) (rs_budget s))
  | None => commit (MkRState (rs_root s) ∅ (rs_report s) (rs_budget s))
  end.

Definition apply (cutoff now : Z) (confirm : Report -> bool) : M RState unit :=
  let! s := mget in
  if negb (confirm (_preview_root (rs_root s) cutoff)) then mraise RetentionError
  else
    with_report (fun _ => new_report cutoff) ;;;
    open_ledger ;;;
    let! s1 := mget in
    _recover (S (size (rs_txn s1))) "" ;;;
    let! s2 := mget in
    let '(items, p) := candidates (rs_root s2) cutoff (rs_report s2) in
    with_report (fun _ => p) ;;;
    flush_all (length items) now items.

(** ** The online variant *)

(** [recovery_page]: at most 512 rows, the next key, how many were read. *)
Definition recovery_page (r : BlobRoot) (after : string) (cutoff started : Z)
    : string * list Candidate * Z :=
  match ledger r with
  | None => (after, [], 0)
  | Some rows =>
    let page := take 512 (filter (fun uri => uri_after after uri = true)
                            (py_sorted (map fst (map_to_list rows)))) in
    (default after (last page),
     omap (fun uri => match rows !! uri with
                      | Some row => if row_pending row && (fp_mtime (row_fp row) <? cutoff)
                                       && (fp_ctime (row_fp row) <=? started)
                                    then Some (MkCand uri (row_fp row) 0) else None
                      | None => None
                      end) page,
     Z.of_nat (length page))
  end.

Fixpoint stage_batch (recovery : bool) (cutoff : Z) (items ready : list Candidate)
    : M RState (list Candidate) :=
  match items with
  | [] => mret ready
  | item :: items' =>
    if cutoff <=? fp_mtime (c_fp item) then mraise RetentionError
    else let! ready' := (if recovery then mret (ready ++ [item]) else stage item ready) in
         stage_batch recovery cutoff items' ready'
  end.

Definition apply_batch (now : Z) (items : list Candidate) (recovery : bool) : M RState unit :=
  if (64 <? length items)%nat then mraise RetentionError
  else
    open_ledger ;;;
    let! s := mget in
    let! ready := stage_batch recovery (rp_cutoff (rs_report s)) items [] in
    mwhen (negb recovery) (journal now ready) ;;;
    mfor ready _unlink ;;;
    commit.

End retention.

(** ** Ledgers up to the pending flag *)

Definition same_fp (a b : gmap string Row) : Prop := forall u, row_fp <$> a !! u = row_fp <$> b !! u.

(** Every tombstone of [a] is in [b], for the same version of the file. *)
Definition ext_fp (a b : gmap string Row) : Prop :=
  forall u row, a !! u = Some row -> exists row', b !! u = Some row' /\ row_fp row' = row_fp row.

Lemma ext_fp_refl a : ext_fp a a.
Proof. intros u row Hu. eauto. Qed.

Lemma ext_fp_trans a b c : ext_fp a b -> ext_fp b c -> ext_fp a c.
Proof.
  intros Hab Hbc u row Hu. destruct (Hab u row Hu) as (row' & Hu' & Hf).
  destruct (Hbc u row' Hu') as (row'' & Hu'' & Hf'). exists row''. split; [done|congruence].
Qed.

Lemma same_ext a b : same_fp a b -> ext_fp a b.
Proof.
  intros Hs u row Hu. specialize (Hs u). rewrite Hu in Hs. destruct (b !! u) as [row'|]; [|done].
  exists row'. split; [done|]. by injection Hs.
Qed.

Lemma insert_or_ignore_ext now c rows : ext_fp rows (insert_or_ignore now c rows).
Proof.
  unfold insert_or_ignore. destruct (rows !! c_uri c) eqn:Hc; [apply ext_fp_refl|].
  intros u row Hu. exists row. rewrite lookup_insert_ne by congruence. done.
Qed.

Lemma insert_all_ext now items rows :
  ext_fp rows (foldl (fun rows c => insert_or_ignore now c rows) rows items).
Proof.
  revert rows. induction items as [|c items IH]; intros rows; cbn [foldl]; [apply ext_fp_refl|].
  eapply ext_fp_trans; [apply insert_or_ignore_ext|apply IH].
Qed.

Lemma clear_pending_fp uri rows :
  same_fp (alter (fun row => MkRow (row_fp row) (row_expired_ns row) false) uri rows) rows.
Proof.
  intros u. destruct (decide (u = uri)) as [->|].
  - rewrite lookup_alter_eq. by destruct (rows !! uri).
  - by rewrite lookup_alter_ne.
Qed.

(** ** Safety at every crash point *)

Section safety.
Context `{Os} (r0 : BlobRoot) (cutoff : Z).

(** The file was old, and its tombstone for exactly this version is committed. *)
Definition recorded (r : BlobRoot) (session file : string) (i : Inode) : Prop :=
  _regular i = true /\ fp_mtime (in_fp i) < cutoff
  /\ exists a rows row, valid_address a /\ ba_session a = session /\ ba_filename a = file
       /\ ledger r = Some rows /\ rows !! ba_uri a = Some row /\ row_fp row = in_fp i.

Record Safe (r : BlobRoot) : Prop := {
  safe_files : forall session file,
    match file_at r0 session file with
    | None => file_at r session file = None
    | Some i => file_at r session file = Some i
                \/ (file_at r session file = None /\ recorded r session file i)
    end;
  safe_ledger : forall rows0, ledger r0 = Some rows0 ->
    exists rows, ledger r = Some rows /\ ext_fp rows0 rows;
  safe_dirs : forall s, sessions r !! s = Some SOther -> sessions r0 !! s = Some SOther;
}.

Lemma Safe_refl : Safe r0.
Proof. constructor; [intros s f; destruct (file_at r0 s f); auto|eauto using ext_fp_refl|done]. Qed.

(** Extending the committed ledger keeps every record. *)
Lemma Safe_extend r rows' :
  (forall rows, ledger r = Some rows -> ext_fp rows rows') ->
  Safe r -> Safe (MkRoot (sessions r) (Some rows')).
Proof.
  intros Hext [Hf Hl Hd]. constructor; [| |exact Hd].
  - intros s f. specialize (Hf s f). change (file_at (MkRoot (sessions r) (Some rows')) s f) with (file_at r s f).
    destruct (file_at r0 s f) as [i|]; [|done]. destruct Hf as [?|[Hn (Hr & Hm & a & rows & row & Hv & Hs & Hfn & Hrows & Hu & Hfp)]]; [by left|right].
    split; [done|]. split; [done|]. split; [done|].
    destruct (Hext rows Hrows _ _ Hu) as (row' & Hu' & Hfp').
    exists a, rows', row'. repeat split; try done. congruence.
  - intros rows0 H0. destruct (Hl rows0 H0) as (rows & Hrows & He). exists rows'. split; [done|].
    eapply ext_fp_trans; [exact He|by apply Hext].
Qed.

(** The transaction and the committed ledger record the same versions. *)
Definition Sync (s : RState) : Prop :=
  Safe (rs_root s) /\ exists rows, ledger (rs_root s) = Some rows /\ same_fp (rs_txn s) rows.

(** Every exceptional exit is safe, and none is the fuel running out. *)
Definition Crash (e : exn) (s : RState) : Prop := Safe (rs_root s) /\ e <> OverflowError.

Lemma Sync_Safe s : Sync s -> Safe (rs_root s).
Proof. by intros [? _]. Qed.

Lemma triple_report f : triple Sync (with_report f) (fun _ => Sync) Crash.
Proof. apply triple_modify. done. Qed.

Lemma triple_clear_pending uri : triple Sync (clear_pending uri) (fun _ => Sync) Crash.
Proof.
  apply triple_modify. intros s [Hs (rows & Hr & Hf)]. split; [done|]. exists rows. split; [done|].
  intros u. cbn [rs_txn]. rewrite clear_pending_fp. apply Hf.
Qed.

(** Committing an extension of the committed ledger. *)
Lemma triple_commit_ext :
  triple (fun s => Safe (rs_root s) /\ forall rows, ledger (rs_root s) = Some rows -> ext_fp rows (rs_txn s))
    commit (fun _ => Sync) Crash.
Proof.
  intros s [Hs Hext]. unfold commit, durable. destruct (rs_budget s); [by split|]. cbn.
  split; cbn [rs_root]; [by apply Safe_extend|]. eexists. split; [done|]. intros u. done.
Qed.

Lemma triple_ledger_commit : triple Sync commit (fun _ => Sync) Crash.
Proof.
  intros s [Hs (rows & Hr & Hf)]. apply triple_commit_ext. split; [done|].
  intros rows' Hr'. rewrite Hr in Hr'. injection Hr' as <-. apply same_ext.
  intros u. symmetry. apply Hf.
Qed.

Lemma triple_journal now items : triple Sync (journal now items) (fun _ => Sync) Crash.
Proof.
  unfold journal. eapply triple_bind; [apply triple_modify|intros u; apply triple_commit_ext].
  intros s [Hs (rows & Hr & Hf)]. cbn [rs_root rs_txn]. split; [done|].
  intros rows' Hr'. rewrite Hr in Hr'. injection Hr' as <-.
  eapply ext_fp_trans; [|apply insert_all_ext]. apply same_ext. intros u. symmetry. apply Hf.
Qed.

Lemma file_at_unlink r session file s f :
  file_at (with_sessions r (alter (fun e => match e with SDir (Some d) => SDir (Some (delete file d)) | _ => e end)
             session (sessions r))) s f
  = if decide ((s, f) = (session, file)) then None else file_at r s f.
Proof.
  unfold file_at, with_sessions. cbn [sessions]. destruct (decide (s = session)) as [->|Hs].
  - rewrite lookup_alter_eq. destruct (sessions r !! session) as [[[d|]|]|]; cbn; try (by case_decide).
    case_decide as Hd; [injection Hd as ->; apply lookup_delete_eq|].
    apply lookup_delete_ne. congruence.
  - rewrite lookup_alter_ne by done. rewrite decide_False by congruence. done.
Qed.

(** Unlinking a recorded old version keeps safety. *)
Lemma triple_unlink_file a i row :
  valid_address a -> _regular i = true -> fp_mtime (in_fp i) < cutoff -> row_fp row = in_fp i ->
  triple (fun s => Sync s /\ rs_txn s !! ba_uri a = Some row
                   /\ file_at (rs_root s) (ba_session a) (ba_filename a) = Some i)
    (unlink_file (ba_session a) (ba_filename a)) (fun _ => Sync) Crash.
Proof.
  intros Hv Hreg Hm Hrow s ([Hs (rows & Hr & Hf)] & Hu & Hi). unfold unlink_file, durable.
  destruct (rs_budget s); [by split|]. cbn. split; cbn [rs_root rs_txn]; [|eauto].
  destruct (same_ext _ _ Hf _ _ Hu) as (row' & Hu' & Hrow').
  destruct Hs as [Hfiles Hled Hdirs]. constructor; [|exact Hled|].
  2: { intros s1. cbn [rs_root with_sessions sessions]. rewrite lookup_alter. case_decide; [|by apply Hdirs].
       subst s1. intros Ho. apply Hdirs. by destruct (sessions _ !! _) as [[[]|]|]. }
  intros session file. rewrite file_at_unlink. specialize (Hfiles session file).
  destruct (decide _) as [[= -> ->]|Hne].
  - destruct (file_at r0 _ _) as [i0|]; [|done].
    destruct Hfiles as [Hcur|[Hcur _]]; rewrite Hi in Hcur; [injection Hcur as <-|done].
    right. split; [done|]. split; [done|]. split; [done|]. exists a, rows, row'.
    repeat split; try done. congruence.
  - destruct (file_at r0 session file) as [i0|]; [|done].
    destruct Hfiles as [?|[? Hrec]]; [by left|right]. split; [done|exact Hrec].
Qed.

Lemma triple_pre_ret {A} (P : RState -> Prop) (a : A) : triple P (mret a) (fun _ => P) Crash.
Proof. by intros s Hs. Qed.

Lemma blobs_dir_file a r d f i :
  blobs_dir (ba_session a) r = Ok d -> d !! f = Some i -> file_at r (ba_session a) f = Some i.
Proof.
  unfold blobs_dir, file_at. intros (s & Hs & Hd)%rbind_ok. pose proof (component_Ok _ _ Hs) as ->.
  by destruct (sessions r !! _) as [[[]|]|]; simplify_eq.
Qed.

Lemma component_err v e : component v = Err e -> e = ValueError.
Proof. unfold component. case_match; [by intros [= <-]|done]. Qed.

Lemma mk_address_err s n m e : mk_address s n m = Err e -> e = ValueError.
Proof.
  unfold mk_address, _ordinary_stem, rbind. intros Hm.
  repeat (case_match; simplify_eq); eauto using component_err.
Qed.

Lemma exact_address_err u e : exact_address u = Err e -> e = ValueError.
Proof.
  unfold exact_address. intros Hm. repeat (case_match; simplify_eq); eauto using mk_address_err.
Qed.

Lemma triple_unlink item :
  fp_mtime (c_fp item) < cutoff -> triple Sync (_unlink item) (fun _ => Sync) Crash.
Proof.
  intros Hm s HS. unfold _unlink, mbind at 1, mget.
  destruct (rs_txn s !! c_uri item) as [row|] eqn:Hrow; [|by apply triple_report].
  destruct (bool_decide (row_fp row = c_fp item)) eqn:Hfp; [|by apply triple_report].
  apply bool_decide_eq_true in Hfp. destruct (row_pending row); [|by apply triple_report]. cbn [negb orb].
  unfold mbind at 1, mlift. destruct (exact_address (c_uri item)) as [a|e] eqn:Ha.
  2: { split; [apply HS|]. by rewrite (exact_address_err _ _ Ha). }
  apply exact_address_inv in Ha as [Hv Huri].
  destruct (blobs_dir (ba_session a) (rs_root s)) as [d|e] eqn:Hd.
  2: { destruct e; try (by apply triple_report). exact HS. }
  destruct (d !! ba_filename a) as [i|] eqn:Hi; [|by apply triple_clear_pending].
  destruct (_regular i) eqn:Hreg; [|by apply triple_report].
  destruct (bool_decide (in_fp i = c_fp item)) eqn:Hfi; [|by apply triple_report].
  apply bool_decide_eq_true in Hfi. cbn [negb orb].
  assert (Ht : triple (fun s => Sync s /\ rs_txn s !! ba_uri a = Some row
                 /\ file_at (rs_root s) (ba_session a) (ba_filename a) = Some i)
    (unlink_file (ba_session a) (ba_filename a) ;;; with_report bump_deleted ;;; clear_pending (c_uri item))
    (fun _ => Sync) Crash).
  { eapply triple_bind; [apply (triple_unlink_file a i row); [done..|congruence|congruence]|].
    intros u. eapply triple_bind; [apply triple_report|]. intros u'. apply triple_clear_pending. }
  apply Ht. split; [exact HS|]. split; [by rewrite Huri|]. by eapply blobs_dir_file.
Qed.

Lemma triple_unlinks items :
  Forall (fun c => fp_mtime (c_fp c) < cutoff) items ->
  triple Sync (mfor items _unlink) (fun _ => Sync) Crash.
Proof.
  induction 1 as [|c items Hc Hitems IH]; [apply triple_pre_ret|].
  cbn [mfor]. eapply triple_bind; [by apply triple_unlink|]. intros u. apply IH.
Qed.

(** ** Candidates are old *)

Lemma pending_page_old rows after :
  Forall (fun c => fp_mtime (c_fp c) < cutoff) (pending_page rows cutoff after).
Proof.
  unfold pending_page. apply Forall_take, Forall_forall. intros c (u & _ & Hu)%list_elem_of_omap.
  repeat (case_match; try done). simplify_eq. cbn [c_fp].
  repeat match goal with Hx : _ && _ = true |- _ => apply andb_true_iff in Hx as [? ?] end.
  by apply Z.ltb_lt.
Qed.

Definition old_items (items : list Candidate) : Prop :=
  Forall (fun c => fp_mtime (c_fp c) < cutoff) items.

Lemma scan_file_old session e acc : old_items acc.1 -> old_items (scan_file cutoff session e acc).1.
Proof.
  destruct acc as [items p]. unfold scan_file, old_items. cbn [fst]. intros Hi.
  destruct (address_from_filename session e.1) as [[a|]|]; try done.
  destruct (negb _); [done|]. destruct (Z.leb_spec cutoff (fp_mtime (in_fp e.2))); [done|].
  cbn [fst]. apply Forall_app. split; [done|]. by constructor.
Qed.

Lemma foldl_inv {A B} (P : A -> Prop) (f : A -> B -> A) l a :
  (forall a b, P a -> P (f a b)) -> P a -> P (foldl f a l).
Proof. intros Hf. revert a. induction l as [|b l IH]; intros a Ha; cbn [foldl]; auto. Qed.

Lemma candidates_old r p : old_items (candidates r cutoff p).1.
Proof.
  unfold candidates. apply (foldl_inv (fun acc : list Candidate * Report => old_items acc.1)); [|constructor].
  intros acc e Ha. unfold scan_session. destruct acc as [items q]. case_bool_decide; [done|].
  destruct (component e.1); [|done]. destruct e.2 as [[d|]|]; [|done..].
  apply (foldl_inv (fun acc : list Candidate * Report => old_items acc.1)); [|done].
  intros acc f. apply scan_file_old.
Qed.

(** ** The frame of the loops: the cutoff and the set of tombstones *)

Definition Frame (c : Z) (D : gset string) (s : RState) : Prop :=
  rp_cutoff (rs_report s) = c /\ dom (rs_txn s) = D.

Definition framed {A} (m : M RState A) : Prop := forall c D, preserves (Frame c D) m.

Lemma framed_report f : (forall p, rp_cutoff (f p) = rp_cutoff p) -> framed (with_report f).
Proof. intros Hf c D s [Hc HD]. unfold with_report, mmodify. cbn. split; cbn; [by rewrite Hf|done]. Qed.

Lemma framed_durable f :
  (forall s, rs_report (f s) = rs_report s /\ rs_txn (f s) = rs_txn s) -> framed (durable f).
Proof.
  intros Hf c D s [Hc HD]. unfold durable. destruct (rs_budget s); [done|].
  destruct (Hf s) as [H1 H2]. split; cbn; [by rewrite H1|by rewrite H2].
Qed.

Lemma framed_clear uri : framed (clear_pending uri).
Proof. intros c D s [Hc HD]. split; cbn; [done|]. by rewrite dom_alter_L. Qed.

Lemma framed_unlink item : framed (_unlink item).
Proof.
  intros c D s Hs. unfold _unlink, mbind at 1, mget.
  repeat match goal with
  | |- context [match ?x with _ => _ end] => destruct x eqn:?
  | |- context [mbind (mlift ?r) _ s] => unfold mbind at 1, mlift; destruct r; [|exact Hs]
  end; try (by apply framed_report); try (by apply framed_clear); try exact Hs.
  refine (preserves_bind _ _ _ _ _ s Hs); [by apply framed_durable|]. intros u.
  apply preserves_bind; [by apply framed_report|]. intros u'. apply framed_clear.
Qed.

Lemma framed_unlinks items : framed (mfor items _unlink).
Proof. intros c D. apply preserves_for. intros x. apply framed_unlink. Qed.

Lemma framed_commit : framed commit.
Proof. by apply framed_durable. Qed.

Lemma triple_framed {A} c D (m : M RState A) :
  framed m -> triple Sync m (fun _ => Sync) Crash ->
  triple (fun s => Sync s /\ Frame c D s) m (fun _ s => Sync s /\ Frame c D s) Crash.
Proof.
  intros Hk Ht s [HS Hc]. specialize (Ht s HS). specialize (Hk c D s Hc).
  destruct (m s) as [[a|e] s']; [by split|done].
Qed.

(** ** Recovery: safety and termination of the pagination *)

(** The tombstones a page can still reach. *)
Definition remaining (after : string) (D : gset string) : gset string :=
  filter (fun u => uri_after after u = true) D.

Lemma uri_after_spec a u : uri_after a u = true <-> ~ String.le u a.
Proof.
  unfold uri_after, String.le. rewrite negb_true_iff. destruct (String.leb u a); cbn; naive_solver.
Qed.

Lemma pending_page_elem rows after c :
  c ∈ pending_page rows cutoff after -> c_uri c ∈ remaining after (dom rows).
Proof.
  unfold pending_page. intros (j & Hc%list_elem_of_lookup_2 & _)%elem_of_take. apply list_elem_of_omap in Hc as (u & _ & Hu).
  destruct (rows !! u) as [row|] eqn:Hrow; [|done]. case_match eqn:Hcond; [|done]. simplify_eq. cbn [c_uri].
  apply andb_true_iff in Hcond as [_ Hafter]. apply elem_of_filter. split; [done|].
  apply elem_of_dom. eauto.
Qed.

Lemma remaining_shrinks after u D :
  u ∈ remaining after D -> (size (remaining u D) < size (remaining after D))%nat.
Proof.
  intros Hu. apply subset_size. apply elem_of_filter in Hu as [Ha%uri_after_spec HD]. split.
  - intros x [Hx%uri_after_spec HxD]%elem_of_filter. apply elem_of_filter. split; [|done].
    apply uri_after_spec. intros Hle. apply Hx. etransitivity; [exact Hle|].
    destruct (String.le_total u after); done.
  - intros Hsub. assert (Hin : u ∈ remaining u D).
    { apply Hsub, elem_of_filter. by rewrite uri_after_spec. }
    apply elem_of_filter in Hin as [Hn%uri_after_spec _]. by apply Hn.
Qed.

Lemma last_in (items : list Candidate) item : List.last items item ∈ item :: items.
Proof.
  induction items as [|x items IH]; [left|]. cbn [List.last].
  destruct items as [|y items]; [right; left|].
  apply elem_of_cons in IH as [->|IH]; [left|right; by right].
Qed.

Lemma triple_recover D fuel after :
  (size (remaining after D) < fuel)%nat ->
  triple (fun s => Sync s /\ Frame cutoff D s) (_recover fuel after)
    (fun _ s => Sync s /\ Frame cutoff D s) Crash.
Proof.
  revert after. induction fuel as [|fuel IH]; intros after Hfuel; [lia|]. cbn [_recover].
  apply triple_pre. intros s0 [HS [Hcut HD]]. intros s ->. unfold mbind at 1, mget.
  rewrite Hcut. pose proof (pending_page_old (rs_txn s0) after) as Hold.
  pose proof (pending_page_elem (rs_txn s0) after) as Hin.
  destruct (pending_page (rs_txn s0) cutoff after) as [|item items]; [done|].
  assert (Hlast : (size (remaining (c_uri (List.last items item)) D) < fuel)%nat).
  { specialize (Hin _ (last_in items item)). rewrite HD in Hin.
    apply remaining_shrinks in Hin. lia. }
  assert (Ht : triple (fun s => Sync s /\ Frame cutoff D s)
      (mfor (item :: items) _unlink ;;; commit ;;; _recover fuel (c_uri (List.last items item)))
      (fun _ s => Sync s /\ Frame cutoff D s) Crash).
  { eapply triple_bind; [apply triple_framed; [apply framed_unlinks|by apply triple_unlinks]|].
    intros u. eapply triple_bind; [apply triple_framed; [apply framed_commit|apply triple_ledger_commit]|].
    intros u'. by apply IH. }
  by apply Ht.
Qed.

(** ** Flushing batches *)

Lemma triple_stage item ready :
  fp_mtime (c_fp item) < cutoff -> old_items ready ->
  triple Sync (stage item ready) (fun ready' s => Sync s /\ old_items ready') Crash.
Proof.
  intros Hi Hready s HS. unfold stage, ledger_contains, _matches.
  unfold mbind, mlift, mget, mret, with_report, mmodify, mraise.
  destruct (exact_address (c_uri item)) as [a|e] eqn:Ha.
  2: { split; [apply HS|]. by rewrite (exact_address_err _ _ Ha). }
  destruct (bool_decide _); [by split|].
  destruct (blobs_dir (ba_session a) (rs_root s)) as [d|e] eqn:Hd.
  - destruct (d !! ba_filename a) as [i|]; [|by split].
    destruct (_ && _); [|by split]. split; [done|]. apply Forall_app. split; [done|by constructor].
  - assert (He : e = FileNotFoundError \/ e <> OverflowError).
    { right. unfold blobs_dir in Hd. destruct (component _) eqn:Hc; cbn [rbind] in Hd.
      - repeat case_match; by simplify_eq.
      - injection Hd as <-. by rewrite (component_err _ _ Hc). }
    destruct e; try (by split; [apply HS|]); try (by split); destruct He; done.
Qed.

Lemma triple_stage_all items ready :
  old_items items -> old_items ready ->
  triple Sync (stage_all items ready) (fun ready' s => Sync s /\ old_items ready') Crash.
Proof.
  intros Hi. revert ready. induction Hi as [|c items Hc Hi IH]; intros ready Hready; cbn [stage_all].
  - by intros s HS.
  - eapply triple_bind; [by apply triple_stage|]. intros ready'.
    intros s [HS Hold]. by apply IH.
Qed.

Lemma triple_flush_batch now batch :
  old_items batch -> triple Sync (flush now batch) (fun _ => Sync) Crash.
Proof.
  intros Hb. unfold flush. eapply triple_bind; [by apply triple_stage_all; [|constructor]|].
  intros ready s [HS Hold]. revert s HS. change (triple Sync (journal now ready ;;; mfor ready _unlink ;;; commit) (fun _ => Sync) Crash).
  eapply triple_bind; [apply triple_journal|]. intros u.
  eapply triple_bind; [by apply triple_unlinks|]. intros u'. apply triple_ledger_commit.
Qed.

Lemma triple_flush_all fuel now items :
  (length items <= fuel)%nat -> old_items items ->
  triple Sync (flush_all fuel now items) (fun _ => Sync) Crash.
Proof.
  revert items. induction fuel as [|fuel IH]; intros [|c items] Hlen Hold; cbn [flush_all];
    try (by intros s HS); [cbn [length] in Hlen; lia|].
  eapply triple_bind; [apply triple_flush_batch; by apply Forall_take|]. intros u.
  apply IH; [|by apply Forall_drop]. rewrite length_drop. cbn [length] in *. unfold BATCH_SIZE. lia.
Qed.

Lemma triple_open_ledger :
  triple (fun s => rs_root s = r0 /\ rp_cutoff (rs_report s) = cutoff) open_ledger
    (fun _ s => Sync s /\ rp_cutoff (rs_report s) = cutoff) Crash.
Proof.
  intros s [Hr Hc]. unfold open_ledger. pose proof Safe_refl as Hsafe.
  destruct (ledger (rs_root s)) as [rows|] eqn:Hl.
  - cbn. split; [|done]. split; cbn; [by rewrite Hr|]. exists rows. by split.
  - unfold commit, durable. cbn. destruct (rs_budget s); cbn; [by rewrite Hr; split|].
    split; [|done]. split; cbn; [|by eexists]. apply Safe_extend; [|by rewrite Hr].
    intros rows. by rewrite Hl.
Qed.
End safety.

(** A prune from any state: safe on every exit, and it always ends. *)
Lemma apply_safe `{Os} cutoff now confirm s :
  let '(res, s') := apply cutoff now confirm s in
  Safe (rs_root s) cutoff (rs_root s') /\ res <> Err OverflowError.
Proof.
  set (r0 := rs_root s).
  assert (Ht : triple (fun t => t = s) (apply cutoff now confirm)
                 (fun _ t => Sync r0 cutoff t) (Crash r0 cutoff)).
  { intros t ->. unfold apply, mbind at 1, mget. destruct (confirm _); cbn [negb].
    2: { split; [apply Safe_refl|done]. }
    revert s r0. intros s r0.
    assert (Hmain : triple (fun t => rs_root t = r0)
      (with_report (fun _ => new_report cutoff) ;;; open_ledger ;;;
       let! s1 := mget in _recover (S (size (rs_txn s1))) "" ;;;
       let! s2 := mget in
       let '(items, p) := candidates (rs_root s2) cutoff (rs_report s2) in
       with_report (fun _ => p) ;;; flush_all (length items) now items)
      (fun _ t => Sync r0 cutoff t) (Crash r0 cutoff)); [|by apply Hmain].
    eapply triple_bind with (Q := fun _ t => rs_root t = r0 /\ rp_cutoff (rs_report t) = cutoff);
      [by apply triple_modify|]. intros u.
    eapply triple_bind; [apply triple_open_ledger|]. intros u'.
    apply triple_pre. intros s1 [HS1 Hc1] t ->. unfold mbind at 1, mget.
    assert (Hrec : triple (fun t => Sync r0 cutoff t /\ Frame cutoff (dom (rs_txn s1)) t)
      (_recover (S (size (rs_txn s1))) "" ;;;
       let! s2 := mget in
       let '(items, p) := candidates (rs_root s2) cutoff (rs_report s2) in
       with_report (fun _ => p) ;;; flush_all (length items) now items)
      (fun _ t => Sync r0 cutoff t) (Crash r0 cutoff)); [|by apply Hrec].
    eapply triple_bind; [apply triple_recover|].
    { rewrite <- size_dom. apply Nat.lt_succ_r, subseteq_size. intros x [_ ?]%elem_of_filter. done. }
    intros u''. intros s2 [HS2 _]. unfold mbind at 1, mget.
    pose proof (candidates_old cutoff (rs_root s2) (rs_report s2)) as Hold.
    destruct (candidates (rs_root s2) cutoff (rs_report s2)) as [items p]. cbn [fst] in Hold.
    assert (Hfl : triple (Sync r0 cutoff) (with_report (fun _ => p) ;;; flush_all (length items) now items)
              (fun _ t => Sync r0 cutoff t) (Crash r0 cutoff)); [|by apply Hfl].
    eapply triple_bind; [apply triple_report|]. intros v. by apply triple_flush_all. }
  specialize (Ht s eq_refl). destruct (apply cutoff now confirm s) as [[[]|e] s'].
  - split; [by apply Sync_Safe|done].
  - destruct Ht as [? Hne]. split; [done|congruence].
Qed.

(** C31: pruning is crash-safe.  Wherever the process stops (the budget is
    arbitrary), every blob that was stored is still there, unchanged, or it was a
    regular file older than the cutoff and a tombstone for exactly that version
    of it is committed; nothing is created and no earlier tombstone is lost or
    replaced.  A declined prune changes nothing, and the recovery and batch loops
    always end. *)
Theorem prune_crash_safe `{Os} (cutoff now : Z) (confirm : Report -> bool) (s : RState) :
  let '(res, s') := apply cutoff now confirm s in
  (forall session file,
     match file_at (rs_root s) session file with
     | None => file_at (rs_root s') session file = None
     | Some i => file_at (rs_root s') session file = Some i
                 \/ (file_at (rs_root s') session file = None
                     /\ recorded cutoff (rs_root s') session file i)
     end)
  /\ (forall rows0, ledger (rs_root s) = Some rows0 ->
        exists rows, ledger (rs_root s') = Some rows /\ ext_fp rows0 rows)
  /\ (confirm (_preview_root (rs_root s) cutoff) = false -> res = Err RetentionError /\ s' = s)
  /\ res <> Err OverflowError.
Proof.
  pose proof (apply_safe cutoff now confirm s) as Hsafe.
  assert (Hno : confirm (_preview_root (rs_root s) cutoff) = false ->
                apply cutoff now confirm s = (Err RetentionError, s)).
  { intros Hc. unfold apply, mbind at 1, mget. by rewrite Hc. }
  destruct (apply cutoff now confirm s) as [res s']. destruct Hsafe as [[Hf Hl _] Hres].
  repeat split; [exact Hf|exact Hl|by injection (Hno H0)|by injection (Hno H0)|exact Hres].
Qed.

Section expired_blobs.
Context `{Os} `{FloatRepr}.

Lemma tombstone_expired r rows uri row a :
  ledger r = Some rows -> rows !! uri = Some row -> exact_address uri = Ok a ->
  expired r uri = Ok true.
Proof.
  intros Hl Hu Ha. unfold expired. rewrite Ha, Hl. cbn [rbind]. by rewrite bool_decide_eq_true_2 by eauto.
Qed.

(** A tombstone blocks rehydration and is what a reader is told. *)
Lemma tombstone_blocks s k a v env r rows row :
  write_address s k = Ok a -> ledger r = Some rows -> rows !! ba_uri a = Some row ->
  blob_write s k v env r = (Ok (ba_uri a), r)
  /\ (file_at r (ba_session a) (ba_filename a) = None ->
      sessions r !! ba_session a <> Some SOther -> blob_read (ba_uri a) r = Err BlobExpiredError).
Proof.
  intros Hw Hl Hu. destruct (write_address_canonical _ _ _ Hw) as (Hv & Hcan & Hr & Hn).
  pose proof (tombstone_expired r rows (ba_uri a) row a Hl Hu (exact_uri a Hv)) as Hx. split.
  - unfold blob_write. rewrite Hw. cbn [rbind].
    assert (Hleg : exists l, legacy_addresses s k = Ok l).
    { rewrite write_address_spec in Hw. destruct (component s) as [s'|e] eqn:Hs; [|done].
      pose proof (component_Ok _ _ Hs) as ->.
      destruct (reserved_key k) eqn:Hk; [done|].
      destruct (legacy_addresses_spec s k Hs Hk) as (l & Hl' & _). eauto. }
    destruct Hleg as [l ->]. cbn [rbind]. destruct (from_keys (a :: l) []) as [|b bs] eqn:Hb.
    { exfalso. assert (Hin : a ∈ from_keys (a :: l) []) by (apply from_keys_spec; right; left).
      rewrite Hb in Hin. by apply elem_of_nil in Hin. }
    assert (b = a) as ->.
    { pose proof (from_keys_head a l) as Hh. rewrite Hb in Hh. by injection Hh. }
    cbn [first_expired]. rewrite Hx. cbn [rbind]. done.
  - intros Hf Hdir. unfold blob_read. rewrite read_candidates_canonical by done. cbn [rbind].
    assert (Hmiss : _raise_missing (A := json) r [a] = Err BlobExpiredError).
    { cbn [_raise_missing]. rewrite Hx. done. }
    unfold with_blobs, blobs_dir. pose proof Hv as (_ & Hs & _)%mk_address_spec. rewrite Hs. cbn [rbind].
    unfold file_at in Hf. destruct (sessions r !! ba_session a) as [[[d|]|]|]; cbn [rbind]; try done.
    cbn [_open_first]. rewrite Hf. cbn [rbind]. exact Hmiss.
Qed.

(** What a prune removed stays removed.  If a prune, completed or interrupted
    anywhere, removed the blob of a name, then replaying the write of that name
    returns the same URI and stores nothing, and reading the URI reports the
    expiry. *)
Theorem pruned_blob_stays_expired (cutoff now : Z) (confirm : Report -> bool) (s s' : RState)
    (res : result unit) (session_id key : string) (a : BlobAddress) (i : Inode) (v : json)
    (env : WriteEnv) :
  apply cutoff now confirm s = (res, s') ->
  write_address session_id key = Ok a ->
  file_at (rs_root s) (ba_session a) (ba_filename a) = Some i ->
  file_at (rs_root s') (ba_session a) (ba_filename a) = None ->
  blob_write session_id key v env (rs_root s') = (Ok (ba_uri a), rs_root s')
  /\ blob_read (ba_uri a) (rs_root s') = Err BlobExpiredError.
Proof.
  intros Hrun Hw Hi Hn. pose proof (apply_safe cutoff now confirm s) as Hsafe. rewrite Hrun in Hsafe.
  destruct Hsafe as [[Hf _ Hd] _]. specialize (Hf (ba_session a) (ba_filename a)). rewrite Hi, Hn in Hf.
  destruct Hf as [?|[_ (_ & _ & b & rows & row & Hv & Hbs & Hbf & Hl & Hu & _)]]; [done|].
  destruct (write_address_canonical _ _ _ Hw) as (Hva & _).
  pose proof (address_file_inj b a Hv Hva Hbs Hbf) as ->.
  destruct (tombstone_blocks session_id key a v env _ rows row Hw Hl Hu) as [Hwr Hrd].
  split; [exact Hwr|]. apply Hrd; [exact Hn|]. intros Ho%Hd. unfold file_at in Hi. by rewrite Ho in Hi.
Qed.
End expired_blobs.

(** ** The online batch *)

Section online.
Context `{Os} (r0 : BlobRoot) (cutoff : Z).

Lemma triple_stage_batch recovery items ready :
  old_items cutoff ready ->
  triple (Sync r0 cutoff) (stage_batch recovery cutoff items ready)
    (fun ready' s => Sync r0 cutoff s /\ old_items cutoff ready') (Crash r0 cutoff).
Proof.
  revert ready. induction items as [|c items IH]; intros ready Hready; cbn [stage_batch].
  - by intros s HS.
  - destruct (Z.leb_spec cutoff (fp_mtime (c_fp c))); [intros s HS; split; [apply HS|done]|].
    apply triple_bind with (Q := fun ready' s => Sync r0 cutoff s /\ old_items cutoff ready').
    + destruct recovery; [|by apply triple_stage]. intros s HS. split; [done|].
      apply Forall_app. split; [done|by constructor].
    + intros ready' s [HS Hold]. by apply IH.
Qed.

(** The online batch has the same safety as the offline prune. *)
Lemma apply_batch_safe now items recovery s :
  rs_root s = r0 -> rp_cutoff (rs_report s) = cutoff ->
  let '(res, s') := apply_batch now items recovery s in
  Safe r0 cutoff (rs_root s') /\ res <> Err OverflowError.
Proof.
  intros Hr Hc. assert (Ht : triple (fun s => rs_root s = r0 /\ rp_cutoff (rs_report s) = cutoff)
    (apply_batch now items recovery) (fun _ => Sync r0 cutoff) (Crash r0 cutoff)).
  { unfold apply_batch. case_match; [intros t [Ht _]; split; [rewrite Ht; apply Safe_refl|done]|].
    eapply triple_bind; [apply triple_open_ledger|]. intros u. apply triple_pre.
    intros s1 [HS1 Hc1] t ->. unfold mbind at 1, mget. rewrite Hc1.
    assert (Hmain : triple (Sync r0 cutoff)
      (let! ready := stage_batch recovery cutoff items [] in
       mwhen (negb recovery) (journal now ready) ;;; mfor ready _unlink ;;; commit)
      (fun _ => Sync r0 cutoff) (Crash r0 cutoff)); [|by apply Hmain].
    eapply triple_bind; [by apply triple_stage_batch; constructor|]. intros ready t [HS Hold].
    revert t HS. change (triple (Sync r0 cutoff) (mwhen (negb recovery) (journal now ready) ;;;
      mfor ready _unlink ;;; commit) (fun _ => Sync r0 cutoff) (Crash r0 cutoff)).
    eapply triple_bind with (Q := fun _ => Sync r0 cutoff).
    - destruct recovery; cbn [negb mwhen]; [by intros t HS|apply triple_journal].
    - intros u'. eapply triple_bind; [by apply triple_unlinks|]. intros u''. apply triple_ledger_commit. }
  specialize (Ht s (conj Hr Hc)). destruct (apply_batch now items recovery s) as [[[]|e] s'].
  - split; [by apply Sync_Safe|done].
  - destruct Ht as [? Hne]. split; [done|congruence].
Qed.
End online.

(** ** Ages: the nanoseconds fit a signed 64-bit integer *)

Lemma duration_ns_bounds value n : duration_ns value = Ok n -> n <= 2 ^ 63 - 1.
Proof.
  unfold duration_ns. repeat (case_match; try done). intros [= <-].
  match goal with Hg : (_ >? _) = false |- _ => rewrite Z.gtb_ltb in Hg; apply Z.ltb_ge in Hg end. lia.
Qed.

Example duration_week : duration_ns "2w" = Ok (2 * 604800 * 10 ^ 9).
Proof. vm_compute. reflexivity. Qed.
Example duration_zero : duration_ns "0s" = Err ValueError.
Proof. vm_compute. reflexivity. Qed.
Example duration_overflow : duration_ns "99999w" = Err ValueError.
Proof. vm_compute. reflexivity. Qed.

(** ** A prune of one old and one recent blob, interrupted before the unlink *)

#[local] Existing Instance posix.
#[local] Instance demo_float : FloatRepr := fun s => s.

Definition demo_inode (mtime : Z) : Inode := MkInode KReg 1 (MkFp 1 2 3 mtime mtime) 8 (json_dumps (JArr [])).
Definition demo_root : BlobRoot :=
  MkRoot (<["s1" := SDir (Some (<["old.json" := demo_inode 5]> (<["new.json" := demo_inode 50]> ∅)))]> ∅) None.
Definition demo_state (budget : nat) : RState := MkRState demo_root ∅ (new_report 10) budget.

Example prune_counts :
  let '(res, s') := apply 10 100 (fun p => rp_files p =? 1) (demo_state 100) in
  res = Ok tt /\ rp_deleted (rs_report s') = 1 /\ rp_retained (rs_report s') = 1
  /\ file_at (rs_root s') "s1" "old.json" = None
  /\ file_at (rs_root s') "s1" "new.json" = Some (demo_inode 50).
Proof. vm_compute. done. Qed.

Example prune_crash_before_unlink :
  let '(res, s') := apply 10 100 (fun _ => true) (demo_state 2) in
  res = Err CancelledError /\ file_at (rs_root s') "s1" "old.json" = Some (demo_inode 5).
Proof. vm_compute. done. Qed.

Lemma pruned_blob_stays_expired_witness :
  let s' := snd (apply 10 100 (fun _ => true) (demo_state 100)) in
  blob_read "ci-blob://s1/old" (rs_root s') = Err BlobExpiredError.
Proof.
  cbv zeta. pose (a := Address "s1" "old" false).
  change "ci-blob://s1/old"%string with (ba_uri a).
  refine (proj2 (pruned_blob_stays_expired 10 100 (fun _ => true) (demo_state 100)
    (snd (apply 10 100 (fun _ => true) (demo_state 100))) (Ok tt) "s1" "old" a (demo_inode 5)
    (JArr []) (MkWriteEnv [] None (MkFp 0 0 0 0 0) 0) _ _ _ _)); vm_compute; reflexivity.
Defined.
