(* ===== verification/SessionClaims.v ===== *)
(** * Session claims ([session_claims.py])

    The SQLite table of session owners and the table of storage bindings that
    keeps two sessions from sharing a queue or a blob directory after their
    names are folded.  Every operation is one [BEGIN IMMEDIATE] transaction, so
    it is a function on the database; a database error rolls back and is not
    modelled.  [reservation_token = None] is SQL [NULL]: a committed claim.  A
    binding of [None] is the sticky ambiguity marker.

    The theorems: a committed claim is permanent and exclusive under every
    sequence of operations; reserving and releasing is a no-op; the backfill of
    an old database does not depend on the order of its rows. *)
From stdpp Require Import base list strings gmap.
From Stdlib Require Import ZArith Lia.
From S2P Require Import Prelude PyText Utils QueueFiles Json JsonParse BlobKeys BlobDisk.

#[local] Open Scope list_scope.

Record Claim := MkClaim {
  cl_contributor : string;
  cl_workspace : string;
  cl_token : option string;
}.
#[export] Instance Claim_eq_dec : EqDecision Claim.
Proof. solve_decision. Defined.

Inductive storage := SQueue | SBlob.
#[export] Instance storage_eq_dec : EqDecision storage.
Proof. solve_decision. Defined.
#[export] Instance storage_countable : Countable storage.
Proof.
  refine (inj_countable' (fun k => match k with SQueue => true | SBlob => false end)
            (fun b => if b then SQueue else SBlob) _). by intros [].
Qed.

Abbreviation component_key := (storage * string)%type.
Abbreviation bindings_table := (gmap (storage * string) (option string)).

(** The two tables; [None] when [storage_bindings] does not exist yet. *)
Record Db := MkDb {
  claims : gmap string Claim;
  bindings : option bindings_table;
}.

(** The Python object: the database and the [_initialized] flag. *)
Record SessionClaimStore := MkStore {
  db : Db;
  _initialized : bool;
}.

Inductive RecoveryReservationResult := Reserved | ExistingReservation | Committed | Conflict.
#[export] Instance rrr_eq_dec : EqDecision RecoveryReservationResult.
Proof. solve_decision. Defined.

Definition _storage_components (session_id : string) : list component_key :=
  (SQueue, fold_worker_key session_id)
  :: match _fold_session_id session_id with
     | Ok c => [(SBlob, c)]
     | Err _ => []
     end.

(** [INSERT ... ON CONFLICT DO UPDATE SET session_id = CASE WHEN equal THEN it
    ELSE NULL END] *)
Definition backfill_one (session_id : string) (b : bindings_table) (key : component_key) : bindings_table :=
  match b !! key with
  | None => <[key := Some session_id]> b
  | Some owner =>
    <[key := if bool_decide (owner = Some session_id) then Some session_id else None]> b
  end.

Definition backfill_session (b : bindings_table) (session_id : string) : bindings_table :=
  foldl (backfill_one session_id) b (_storage_components session_id).

(** The rows in the order [SELECT] yields them. *)
Definition backfill (rows : list string) : bindings_table := foldl backfill_session ∅ rows.

Definition _initialize_locked (s : SessionClaimStore) : SessionClaimStore :=
  if _initialized s then s
  else
    let b := match bindings (db s) with
             | Some b => b
             | None => backfill (map fst (map_to_list (claims (db s))))
             end in
    MkStore (MkDb (claims (db s)) (Some b)) true.

Definition bindings_of (s : SessionClaimStore) : bindings_table := default ∅ (bindings (db s)).

Definition set_claims (f : gmap string Claim -> gmap string Claim) (s : SessionClaimStore) : SessionClaimStore :=
  MkStore (MkDb (f (claims (db s))) (bindings (db s))) (_initialized s).
Definition set_bindings (b : bindings_table) (s : SessionClaimStore) : SessionClaimStore :=
  MkStore (MkDb (claims (db s)) (Some b)) (_initialized s).

Definition _bindings_match (s : SessionClaimStore) (session_id : string) : bool :=
  let components := _storage_components session_id in
  (length components =? 2)%nat
  && forallb (fun key => bool_decide (bindings_of s !! key = Some (Some session_id))) components.

(** [INSERT OR IGNORE] *)
Definition insert_ignore (session_id : string) (b : bindings_table) (key : component_key) : bindings_table :=
  match b !! key with Some _ => b | None => <[key := Some session_id]> b end.

Definition _bind (s : SessionClaimStore) (session_id : string) : bool * SessionClaimStore :=
  let components := _storage_components session_id in
  if negb (length components =? 2)%nat then (false, s)
  else if existsb (fun key => match bindings_of s !! key with
                              | Some owner => negb (bool_decide (owner = Some session_id))
                              | None => false
                              end) components
  then (false, s)
  else (true, set_bindings (foldl (insert_ignore session_id) (bindings_of s) components) s).

Definition owner_is (row : Claim) (contributor_id workspace : string) : bool :=
  bool_decide (cl_contributor row = contributor_id) && bool_decide (cl_workspace row = workspace).

Definition claim (session_id contributor_id workspace : string) (s0 : SessionClaimStore)
    : bool * SessionClaimStore :=
  let s := _initialize_locked s0 in
  match claims (db s) !! session_id with
  | Some row =>
    if bool_decide (is_Some (cl_token row)) || negb (owner_is row contributor_id workspace)
    then (false, s)
    else let '(ok, s1) := _bind s session_id in
         if ok then (bool_decide (cl_token row = None) && owner_is row contributor_id workspace, s1)
         else (false, s1)
  | None =>
    let '(ok, s1) := _bind s session_id in
    if ok then (true, set_claims (insert session_id (MkClaim contributor_id workspace None)) s1)
    else (false, s1)
  end.

Definition reserve_recovery (session_id contributor_id workspace token : string)
    (s0 : SessionClaimStore) : RecoveryReservationResult * SessionClaimStore :=
  let s := _initialize_locked s0 in
  match claims (db s) !! session_id with
  | Some row =>
    if negb (owner_is row contributor_id workspace)
       || negb (bool_decide (cl_token row = None) || bool_decide (cl_token row = Some token))
    then (Conflict, s)
    else let '(ok, s1) := _bind s session_id in
         if negb ok then (Conflict, s1)
         else if negb (owner_is row contributor_id workspace) then (Conflict, s1)
         else if bool_decide (cl_token row = None) then (Committed, s1)
         else if bool_decide (cl_token row = Some token) then (ExistingReservation, s1)
         else (Conflict, s1)
  | None =>
    let '(ok, s1) := _bind s session_id in
    if negb ok then (Conflict, s1)
    else (Reserved, set_claims (insert session_id (MkClaim contributor_id workspace (Some token))) s1)
  end.

Definition finalize_recovery (session_id contributor_id workspace token : string)
    (s0 : SessionClaimStore) : bool * SessionClaimStore :=
  let s := _initialize_locked s0 in
  match claims (db s) !! session_id with
  | None => (false, s)
  | Some row =>
    if negb (owner_is row contributor_id workspace) || negb (_bindings_match s session_id)
    then (false, s)
    else if bool_decide (cl_token row = None) then (true, s)
    else if negb (bool_decide (cl_token row = Some token)) then (false, s)
    else (true, set_claims (insert session_id (MkClaim contributor_id workspace None)) s)
  end.

Definition release_recovery (session_id contributor_id workspace token : string)
    (s0 : SessionClaimStore) : unit * SessionClaimStore :=
  let s := _initialize_locked s0 in
  match claims (db s) !! session_id with
  | Some row =>
    if owner_is row contributor_id workspace && bool_decide (cl_token row = Some token) then
      (tt, set_bindings (filter (fun kv => kv.2 <> Some session_id) (bindings_of s))
             (set_claims (delete session_id) s))
    else (tt, s)
  | None => (tt, s)
  end.

Definition committed_row (s : SessionClaimStore) (session_id : string) : option Claim :=
  match claims (db s) !! session_id with
  | Some row => if bool_decide (cl_token row = None) then Some row else None
  | None => None
  end.

Definition storage_identity_matches (session_id : string) (s0 : SessionClaimStore)
    : bool * SessionClaimStore :=
  let s := _initialize_locked s0 in
  (bool_decide (is_Some (committed_row s session_id)) && _bindings_match s session_id, s).

Definition get_blob_workspace (session_id : string) (s0 : SessionClaimStore)
    : option string * SessionClaimStore :=
  match _fold_session_id session_id with
  | Err _ => (None, s0)
  | Ok component =>
    let s := _initialize_locked s0 in
    match bindings_of s !! (SBlob, component) with
    | Some (Some owner) => (cl_workspace <$> committed_row s owner, s)
    | _ => (None, s)
    end
  end.

Definition get_workspace (session_id : string) (s0 : SessionClaimStore)
    : option string * SessionClaimStore :=
  let s := _initialize_locked s0 in
  (cl_workspace <$> committed_row s session_id, s).

(** Every operation a client can make, in any order. *)
Inductive op :=
  | OClaim (session contributor workspace : string)
  | OReserve (session contributor workspace token : string)
  | OFinalize (session contributor workspace token : string)
  | ORelease (session contributor workspace token : string)
  | OMatches (session : string)
  | OBlobWorkspace (session : string)
  | OWorkspace (session : string).

Definition run_op (o : op) (s : SessionClaimStore) : SessionClaimStore :=
  match o with
  | OClaim a b c => snd (claim a b c s)
  | OReserve a b c d => snd (reserve_recovery a b c d s)
  | OFinalize a b c d => snd (finalize_recovery a b c d s)
  | ORelease a b c d => snd (release_recovery a b c d s)
  | OMatches a => snd (storage_identity_matches a s)
  | OBlobWorkspace a => snd (get_blob_workspace a s)
  | OWorkspace a => snd (get_workspace a s)
  end.

Definition run_ops (os : list op) (s : SessionClaimStore) : SessionClaimStore :=
  foldl (fun s o => run_op o s) s os.

(** ** Bindings *)

Lemma insert_ignore_all sid l b key :
  foldl (insert_ignore sid) b l !! key
  = match b !! key with
    | Some o => Some o
    | None => if decide (key ∈ l) then Some (Some sid) else None
    end.
Proof.
  revert b. induction l as [|k l IH]; intros b; cbn [foldl].
  - rewrite decide_False by apply not_elem_of_nil. by destruct (b !! key).
  - rewrite IH. unfold insert_ignore. destruct (b !! k) as [o|] eqn:Hk.
    + destruct (b !! key) eqn:Hkey; [done|]. assert (key <> k) by congruence.
      destruct (decide (key ∈ l)), (decide (key ∈ k :: l)); set_solver.
    + destruct (decide (key = k)) as [->|Hne].
      * rewrite lookup_insert_eq, Hk. rewrite decide_True by left. done.
      * rewrite lookup_insert_ne by done. destruct (b !! key); [done|].
        destruct (decide (key ∈ l)), (decide (key ∈ k :: l)); set_solver.
Qed.

Lemma bindings_match_spec s sid :
  _bindings_match s sid = true <->
  length (_storage_components sid) = 2%nat
  /\ forall key, key ∈ _storage_components sid -> bindings_of s !! key = Some (Some sid).
Proof.
  unfold _bindings_match. rewrite andb_true_iff, Nat.eqb_eq, forallb_forall.
  split; intros [Hl Hf]; (split; [done|]); intros key Hk.
  - apply list_elem_of_In in Hk. specialize (Hf key Hk). by apply bool_decide_eq_true in Hf.
  - apply list_elem_of_In in Hk. by apply bool_decide_eq_true, Hf.
Qed.

(** Binding either changes nothing, or makes both names the session's without
    taking any name from anybody. *)
Lemma bind_spec s sid ok s' :
  _bind s sid = (ok, s') ->
  claims (db s') = claims (db s) /\ (is_Some (bindings (db s)) -> is_Some (bindings (db s')))
  /\ (forall key o, bindings_of s !! key = Some o -> bindings_of s' !! key = Some o)
  /\ (if ok then _bindings_match s' sid = true
                  /\ (forall key, key ∈ _storage_components sid -> bindings_of s !! key = None \/ bindings_of s !! key = Some (Some sid))
                  /\ (forall key, key ∉ _storage_components sid -> bindings_of s' !! key = bindings_of s !! key)
      else s' = s).
Proof.
  unfold _bind. destruct (length (_storage_components sid) =? 2)%nat eqn:Hlen; cbn [negb];
    [|by intros [= <- <-]]. apply Nat.eqb_eq in Hlen.
  destruct (existsb _ (_storage_components sid)) eqn:Hex; [by intros [= <- <-]|].
  intros [<- <-]%pair_equal_spec.
  assert (Hfree : forall key, key ∈ _storage_components sid ->
            bindings_of s !! key = None \/ bindings_of s !! key = Some (Some sid)).
  { intros key Hk. destruct (bindings_of s !! key) as [o|] eqn:Ho; [|by left]. right.
    destruct (bool_decide (o = Some sid)) eqn:Hb; [apply bool_decide_eq_true in Hb; by subst o|].
    exfalso. assert (Ht : existsb (fun key => match bindings_of s !! key with
       | Some owner => negb (bool_decide (owner = Some sid)) | None => false end) (_storage_components sid) = true).
    { apply existsb_exists. exists key. split; [by apply list_elem_of_In|]. by rewrite Ho, Hb. }
    by rewrite Ht in Hex. }
  set (b' := foldl (insert_ignore sid) (bindings_of s) (_storage_components sid)).
  change (bindings_of (set_bindings b' s)) with b'.
  split; [done|]. split; [intros _; cbn; eauto|]. unfold b'. split; [|split; [|split]].
  - intros key o Ho. by rewrite insert_ignore_all, Ho.
  - apply bindings_match_spec. split; [done|]. intros key Hk.
    transitivity (b' !! key); [reflexivity|]. unfold b'. rewrite insert_ignore_all.
    destruct (Hfree key Hk) as [-> | ->]; [by rewrite decide_True|done].
  - exact Hfree.
  - intros key Hk. rewrite insert_ignore_all. destruct (bindings_of s !! key); [done|].
    by rewrite decide_False.
Qed.

Lemma init_spec s :
  is_Some (bindings (db s)) ->
  claims (db (_initialize_locked s)) = claims (db s)
  /\ bindings (db (_initialize_locked s)) = bindings (db s).
Proof. intros [b Hb]. unfold _initialize_locked. destruct (_initialized s); [done|]. by rewrite Hb. Qed.

(** A table exists after any operation once the store is initialised. *)
Definition has_table (s : SessionClaimStore) : Prop := is_Some (bindings (db s)).

(** The flag is only ever set together with the table. *)
Definition store_ok (s : SessionClaimStore) : Prop := _initialized s = true -> has_table s.

Lemma init_table s : store_ok s -> has_table (_initialize_locked s).
Proof.
  intros Hs. unfold _initialize_locked. destruct (_initialized s) eqn:Hi; [by apply Hs|].
  unfold has_table. cbn. eauto.
Qed.

(** ** Permanence of a committed claim *)

(** [sid] is committed to [row] and owns both of its storage names. *)
Definition owns (sid : string) (row : Claim) (s : SessionClaimStore) : Prop :=
  has_table s /\ cl_token row = None /\ claims (db s) !! sid = Some row
  /\ _bindings_match s sid = true.

Lemma owns_init sid row s : owns sid row s -> owns sid row (_initialize_locked s).
Proof.
  intros (Ht & Hn & Hc & Hm). destruct (init_spec s Ht) as [Hc' Hb'].
  assert (Hbo : bindings_of (_initialize_locked s) = bindings_of s) by (unfold bindings_of; by rewrite Hb').
  repeat split; [unfold has_table; by rewrite Hb'|done|by rewrite Hc'|].
  apply bindings_match_spec. rewrite Hbo. by apply bindings_match_spec.
Qed.

Lemma owns_bind sid row s sid' ok s' : owns sid row s -> _bind s sid' = (ok, s') -> owns sid row s'.
Proof.
  intros (Ht & Hn & Hc & Hm) (Hc' & Ht' & Hmono & _)%bind_spec.
  repeat split; [by apply Ht'|done|by rewrite Hc'|]. apply bindings_match_spec in Hm as [Hl Hk].
  apply bindings_match_spec. split; [done|]. intros key Hin. by apply Hmono, Hk.
Qed.

Lemma owns_set_claims sid row f s :
  owns sid row s -> f (claims (db s)) !! sid = Some row -> owns sid row (set_claims f s).
Proof. intros (Ht & Hn & Hc & Hm) Hf. repeat split; [done|done|done|exact Hm]. Qed.

Lemma owns_step sid row o s : owns sid row s -> owns sid row (run_op o s).
Proof.
  intros Ho. pose proof (owns_init _ _ _ Ho) as Hi. pose proof Hi as (Ht & Hn & Hc & Hm).
  destruct o as [a b c|a b c d|a b c d|a b c d|a|a|a]; cbn [run_op].
  - unfold claim. destruct (claims _ !! a) as [r|] eqn:Ha.
    + destruct (_ || _); [done|]. destruct (_bind _ a) as [ok s1] eqn:Hb.
      pose proof (owns_bind _ _ _ _ _ _ Hi Hb). by destruct ok.
    + destruct (_bind _ a) as [ok s1] eqn:Hb. pose proof (owns_bind _ _ _ _ _ _ Hi Hb) as Ho1.
      destruct ok; [|done]. apply owns_set_claims; [done|]. pose proof Ho1 as (_ & _ & Hc1 & _).
      rewrite lookup_insert_ne by congruence. done.
  - unfold reserve_recovery. destruct (claims _ !! a) as [r|] eqn:Ha.
    + destruct (_ || _); [done|]. destruct (_bind _ a) as [ok s1] eqn:Hb.
      pose proof (owns_bind _ _ _ _ _ _ Hi Hb). by repeat case_match.
    + destruct (_bind _ a) as [ok s1] eqn:Hb. pose proof (owns_bind _ _ _ _ _ _ Hi Hb) as Ho1.
      destruct ok; [|done]. apply owns_set_claims; [done|]. pose proof Ho1 as (_ & _ & Hc1 & _).
      rewrite lookup_insert_ne by congruence. done.
  - unfold finalize_recovery. destruct (claims _ !! a) as [r|] eqn:Ha; [|done].
    destruct (_ || _); [done|]. destruct (bool_decide (cl_token r = None)) eqn:Htok; [done|].
    destruct (negb _); [done|]. apply owns_set_claims; [done|]. apply bool_decide_eq_false in Htok.
    rewrite lookup_insert_ne; [done|]. congruence.
  - unfold release_recovery. destruct (claims _ !! a) as [r|] eqn:Ha; [|done].
    destruct (_ && _) eqn:Hcond; [|done]. apply andb_true_iff in Hcond as [_ Htok%bool_decide_eq_true].
    assert (Hne : a <> sid) by congruence. cbn [snd]. repeat split.
    + unfold has_table. cbn. eauto.
    + done.
    + cbn. by rewrite lookup_delete_ne.
    + apply bindings_match_spec in Hm as [Hl Hk]. apply bindings_match_spec. split; [done|].
      intros key Hin. unfold bindings_of at 1. cbn [db bindings set_bindings default from_option].
      apply map_lookup_filter_Some. split; [by apply Hk|]. cbn. congruence.
  - done.
  - unfold get_blob_workspace. cbv zeta. by repeat case_match.
  - done.
Qed.

Lemma owns_run sid row os s : owns sid row s -> owns sid row (run_ops os s).
Proof.
  revert s. induction os as [|o os IH]; intros s Ho; cbn [run_ops foldl]; [done|].
  by apply IH, owns_step.
Qed.

Lemma owner_is_refl c w t : owner_is (MkClaim c w t) c w = true.
Proof. unfold owner_is. cbn. by rewrite !bool_decide_eq_true_2. Qed.

(** A granted claim owns its names. *)
Lemma claim_owns sid c w s s1 :
  store_ok s -> claim sid c w s = (true, s1) -> owns sid (MkClaim c w None) s1.
Proof.
  intros Hok. pose proof (init_table s Hok) as Ht. unfold claim.
  destruct (claims _ !! sid) as [row|] eqn:Hrow.
  - destruct (_ || _) eqn:Hcond; [done|]. apply orb_false_iff in Hcond as [Htok Hown].
    apply bool_decide_eq_false in Htok. apply negb_false_iff in Hown.
    destruct (_bind _ sid) as [[|] s'] eqn:Hb; [|done]. intros [= _ <-].
    apply bind_spec in Hb as (Hc & Htab & _ & Hm & _). unfold owner_is in Hown.
    apply andb_true_iff in Hown as [<-%bool_decide_eq_true <-%bool_decide_eq_true].
    destruct row as [c w [t|]]; cbn in *; [by destruct Htok|]. repeat split; [by apply Htab|by rewrite Hc|done].
  - destruct (_bind _ sid) as [[|] s'] eqn:Hb; [|done]. intros [= <-].
    apply bind_spec in Hb as (Hc & Htab & _ & Hm & _). repeat split; [by apply Htab| |exact Hm].
    cbn. apply lookup_insert_eq.
Qed.

(** Its owner can claim it again. *)
Lemma owns_claims_again sid c w s : owns sid (MkClaim c w None) s -> fst (claim sid c w s) = true.
Proof.
  intros (Ht & _ & Hci & Hmi)%owns_init. unfold claim. rewrite Hci, owner_is_refl. cbn [cl_token negb].
  change (bool_decide (is_Some (@None string))) with false. cbn [orb].
  destruct (_bind _ sid) as [[|] s2] eqn:Hb; [done|]. exfalso.
  unfold _bind in Hb. apply bindings_match_spec in Hmi as [Hl Hk].
  rewrite (proj2 (Nat.eqb_eq _ 2) Hl) in Hb. cbn [negb] in Hb. case_match eqn:Hex; [|done].
  apply existsb_exists in Hex as (key & Hin%list_elem_of_In & Hx). rewrite (Hk key Hin) in Hx.
  by rewrite bool_decide_eq_true_2 in Hx.
Qed.

Lemma bind_conflict s sid sid' key :
  _bindings_match s sid = true -> sid' <> sid ->
  key ∈ _storage_components sid -> key ∈ _storage_components sid' -> fst (_bind s sid') = false.
Proof.
  intros [_ Hk]%bindings_match_spec Hne H1 H2. destruct (_bind s sid') as [[|] s'] eqn:Hb; [|done].
  apply bind_spec in Hb as (_ & _ & _ & _ & Hfree & _). specialize (Hk key H1).
  destruct (Hfree key H2) as [He|He]; rewrite He in Hk; congruence.
Qed.

Lemma owns_refuses sid row s sid' c' w' key :
  owns sid row s -> sid' <> sid ->
  key ∈ _storage_components sid -> key ∈ _storage_components sid' ->
  fst (claim sid' c' w' s) = false /\ forall token, fst (reserve_recovery sid' c' w' token s) = Conflict.
Proof.
  intros Ho%owns_init Hne H1 H2. destruct Ho as (_ & _ & _ & Hm).
  pose proof (bind_conflict _ _ _ _ Hm Hne H1 H2) as Hb.
  unfold claim, reserve_recovery. destruct (_bind _ sid') as [ok s1]. cbn [fst] in Hb. subst ok.
  destruct (claims _ !! sid') as [r|]; [|done]. split; [by destruct (_ || _)|].
  intros token. by destruct (_ || _).
Qed.

(** C38: a granted claim is permanent and exclusive.  Once [claim] has returned
    true for a session, then after any sequence of claims, reservations,
    finalisations and releases of any sessions by anybody: the session is still
    committed to the same contributor and workspace and still owns both of its
    storage names; repeating the claim succeeds; claiming or reserving it for
    anybody else is refused; and so is any other session whose queue key or blob
    directory would fold to one of its names. *)
Theorem claim_permanent (s s1 : SessionClaimStore) (sid c w : string) (os : list op) :
  store_ok s -> claim sid c w s = (true, s1) ->
  let s' := run_ops os s1 in
  claims (db s') !! sid = Some (MkClaim c w None)
  /\ fst (get_workspace sid s') = Some w
  /\ fst (storage_identity_matches sid s') = true
  /\ fst (claim sid c w s') = true
  /\ (forall c' w', (c', w') <> (c, w) ->
        fst (claim sid c' w' s') = false /\ forall t, fst (reserve_recovery sid c' w' t s') = Conflict)
  /\ (forall sid' c' w' key, sid' <> sid ->
        key ∈ _storage_components sid -> key ∈ _storage_components sid' ->
        fst (claim sid' c' w' s') = false /\ forall t, fst (reserve_recovery sid' c' w' t s') = Conflict).
Proof.
  intros Hok Hcl s'. pose proof (owns_run sid _ os s1 (claim_owns _ _ _ _ _ Hok Hcl)) as Ho.
  fold s' in Ho. pose proof (owns_init _ _ _ Ho) as (Ht & _ & Hci & Hmi).
  split; [apply Ho|]. split; [|split; [|split; [|split]]].
  - unfold get_workspace, committed_row. cbn [fst]. rewrite Hci. done.
  - unfold storage_identity_matches, committed_row. cbn [fst]. rewrite Hci, Hmi. done.
  - by apply owns_claims_again.
  - intros c' w' Hne. unfold claim, reserve_recovery. rewrite Hci.
    assert (Hown : owner_is (MkClaim c w None) c' w' = false).
    { unfold owner_is. cbn. destruct (bool_decide (c = c')) eqn:H1, (bool_decide (w = w')) eqn:H2; try done.
      apply bool_decide_eq_true in H1, H2. congruence. }
    rewrite Hown. cbn [negb]. split; [by rewrite orb_true_r|done].
  - intros sid' c' w' key Hne H1 H2. by apply (owns_refuses sid (MkClaim c w None) s' sid' c' w' key).
Qed.

(** ** Recovery reservations *)

(** Every name bound to a session belongs to it, and the session has a claim. *)
Definition bindings_ok (s : SessionClaimStore) : Prop :=
  forall key sid, bindings_of s !! key = Some (Some sid) ->
    key ∈ _storage_components sid /\ is_Some (claims (db s) !! sid).

Lemma filter_insert_ignore (sid : string) (l : list component_key) (b : bindings_table) :
  (forall key, b !! key <> Some (Some sid)) ->
  filter (fun kv => kv.2 <> Some sid) (foldl (insert_ignore sid) b l) = b.
Proof.
  intros Hn. apply map_eq. intros key. destruct (b !! key) as [o|] eqn:Hb.
  - apply map_lookup_filter_Some. split; [by rewrite insert_ignore_all, Hb|]. cbn. intros ->.
    by apply (Hn key).
  - apply map_lookup_filter_None. right. intros o. rewrite insert_ignore_all, Hb.
    case_decide; [|done]. intros [= <-]. cbn. tauto.
Qed.

Lemma bind_flag s sid ok s' : _bind s sid = (ok, s') -> _initialized s' = _initialized s.
Proof. unfold _bind. repeat case_match; by intros [<- <-]%pair_equal_spec. Qed.

(** Deleting the claim and its bindings undoes a successful binding. *)
Lemma unbind_restores s0 sid c w t s' :
  has_table s0 -> (forall key, bindings_of s0 !! key <> Some (Some sid)) ->
  claims (db s0) !! sid = None -> _bind s0 sid = (true, s') ->
  let s1 := set_claims (insert sid (MkClaim c w t)) s' in
  set_bindings (filter (fun kv => kv.2 <> Some sid) (bindings_of s1)) (set_claims (delete sid) s1) = s0.
Proof.
  intros [b Hb] Hunb Hnone Hbind. unfold _bind in Hbind.
  destruct (negb _); [done|]. destruct (existsb _ _); [done|].
  apply pair_equal_spec in Hbind as [_ <-]. cbv zeta.
  destruct s0 as [[cl bo] fl]. unfold set_bindings, set_claims, bindings_of in *.
  cbn [db claims bindings _initialized default from_option] in *. subst bo. f_equal. f_equal.
  - rewrite delete_insert_id by done. done.
  - f_equal. by apply filter_insert_ignore.
Qed.

(** A recovery reservation is provisional and undone exactly.  Reserving a
    session nobody has claimed grants the reservation and hides the session from
    readers; releasing it with the same token restores the database as it was,
    and finalising it instead commits the claim for good, after which releasing
    changes nothing. *)
Theorem reservation_protocol (s s1 : SessionClaimStore) (sid c w token : string) :
  store_ok s -> bindings_ok (_initialize_locked s) ->
  claims (db (_initialize_locked s)) !! sid = None ->
  reserve_recovery sid c w token s = (Reserved, s1) ->
  fst (get_workspace sid s1) = None
  /\ fst (claim sid c w s1) = false
  /\ snd (release_recovery sid c w token s1) = _initialize_locked s
  /\ exists s2, finalize_recovery sid c w token s1 = (true, s2)
      /\ owns sid (MkClaim c w None) s2
      /\ snd (release_recovery sid c w token s2) = s2.
Proof.
  intros Hok Hb Hnone Hres. unfold reserve_recovery in Hres. rewrite Hnone in Hres.
  destruct (_bind _ sid) as [[|] s'] eqn:Hbind; cbn [negb] in Hres; [|done].
  apply pair_equal_spec in Hres as [_ <-].
  pose proof (init_table s Hok) as Htab0. set (s0 := _initialize_locked s) in *.
  assert (Hflag : _initialized s' = true).
  { rewrite (bind_flag _ _ _ _ Hbind). unfold s0, _initialize_locked. by destruct (_initialized s) eqn:Hi. }
  set (s1 := set_claims _ s'). assert (Hinit : _initialize_locked s1 = s1).
  { unfold _initialize_locked. cbn [s1 set_claims _initialized]. by rewrite Hflag. }
  assert (Hrow : claims (db s1) !! sid = Some (MkClaim c w (Some token))) by apply lookup_insert_eq.
  pose proof (bind_spec _ _ _ _ Hbind) as (Hc & Htab & _ & Hm & _).
  split; [|split; [|split]].
  - unfold get_workspace, committed_row. by rewrite Hinit, Hrow.
  - unfold claim. by rewrite Hinit, Hrow.
  - unfold release_recovery. rewrite Hinit, Hrow, owner_is_refl. cbn [cl_token andb].
    rewrite bool_decide_eq_true_2 by done. cbn [snd].
    apply (unbind_restores s0 sid c w (Some token) s'); try done.
    intros key Hk. destruct (Hb _ _ Hk) as [_ [r Hr]]. by rewrite Hnone in Hr.
  - exists (set_claims (insert sid (MkClaim c w None)) s1).
    unfold finalize_recovery. rewrite Hinit, Hrow, owner_is_refl.
    change (_bindings_match s1 sid) with (_bindings_match s' sid). rewrite Hm. cbn [negb orb cl_token].
    rewrite bool_decide_eq_false_2, bool_decide_eq_true_2 by done. cbn [negb]. split; [done|].
    assert (Hrow2 : claims (db (set_claims (insert sid (MkClaim c w None)) s1)) !! sid = Some (MkClaim c w None))
      by apply lookup_insert_eq.
    split; [repeat split; [by apply Htab|done|exact Hm]|].
    unfold release_recovery. assert (Hi2 : forall t : SessionClaimStore, _initialized t = true -> _initialize_locked t = t).
    { intros t Ht. unfold _initialize_locked. by rewrite Ht. }
    rewrite Hi2 by done. rewrite Hrow2. cbn [cl_token].
    rewrite (bool_decide_eq_false_2 (None = Some token)) by done. by rewrite andb_false_r.
Qed.

(** ** Backfilling the bindings of an old database *)

Lemma components_NoDup sid : NoDup (_storage_components sid).
Proof.
  unfold _storage_components. destruct (_fold_session_id sid).
  - apply NoDup_cons. split; [|apply NoDup_singleton]. intros Hin%list_elem_of_singleton. done.
  - apply NoDup_singleton.
Qed.

Definition merge_owner (o : option (option string)) (sid : string) : option string :=
  match o with
  | None => Some sid
  | Some owner => if bool_decide (owner = Some sid) then Some sid else None
  end.

Lemma backfill_one_merge sid b key : backfill_one sid b key = <[key := merge_owner (b !! key) sid]> b.
Proof. unfold backfill_one, merge_owner. by destruct (b !! key). Qed.

Lemma backfill_keys (sid : string) (l : list component_key) (b : bindings_table) (key : component_key) :
  NoDup l ->
  foldl (backfill_one sid) b l !! key
  = if decide (key ∈ l) then Some (merge_owner (b !! key) sid) else b !! key.
Proof.
  intros Hl. revert b. induction Hl as [|k l Hk Hl IH]; intros b; cbn [foldl].
  - by rewrite decide_False by apply not_elem_of_nil.
  - rewrite IH, backfill_one_merge. destruct (decide (key = k)) as [->|Hne].
    + rewrite decide_False, decide_True by (done || left). apply lookup_insert_eq.
    + rewrite lookup_insert_ne by done. destruct (decide (key ∈ l)), (decide (key ∈ k :: l)); set_solver.
Qed.

(** The sessions of [rows] that use a storage name. *)
Definition users (key : component_key) (rows : list string) : list string :=
  filter (fun sid => key ∈ _storage_components sid) rows.

(** A name used once is bound to its user, a name used twice to nobody. *)
Definition sole_owner (l : list string) : option (option string) :=
  match l with
  | [] => None
  | [sid] => Some (Some sid)
  | _ => Some None
  end.

Lemma merge_sole l sid : sid ∉ l -> Some (merge_owner (sole_owner l) sid) = sole_owner (l ++ [sid]).
Proof.
  intros Hn. destruct l as [|x [|y l]]; cbn; [done| |done].
  rewrite bool_decide_eq_false_2; [done|]. intros [= ->]. apply Hn. left.
Qed.

Lemma backfill_from (rows pre : list string) (b : bindings_table) (key : component_key) :
  NoDup (pre ++ rows) -> b !! key = sole_owner (users key pre) ->
  foldl backfill_session b rows !! key = sole_owner (users key (pre ++ rows)).
Proof.
  revert pre b. induction rows as [|sid rows IH]; intros pre b Hnd Hb; cbn [foldl].
  - by rewrite app_nil_r.
  - assert (Hsid : sid ∉ users key pre).
    { intros [_ Hin]%list_elem_of_filter. apply NoDup_app in Hnd as (_ & Hd & _). apply (Hd _ Hin). left. }
    replace (pre ++ sid :: rows) with ((pre ++ [sid]) ++ rows) in * by (by rewrite <- app_assoc).
    apply IH; [done|]. unfold backfill_session. rewrite backfill_keys by apply components_NoDup.
    unfold users. rewrite filter_app. fold (users key pre). rewrite Hb.
    case_decide as Hk.
    + rewrite filter_cons_True by done. by apply merge_sole.
    + rewrite filter_cons_False by done. by rewrite filter_nil, app_nil_r.
Qed.

Lemma backfill_spec rows key : NoDup rows -> backfill rows !! key = sole_owner (users key rows).
Proof. intros Hnd. by apply (backfill_from rows [] ∅ key). Qed.

(** Migrating an old database never picks a winner.  The backfilled bindings
    do not depend on the order in which the claims are read; a storage name is
    bound to a session exactly when that session is the only claimed one using
    it, and a name that two claimed sessions share is marked ambiguous, so that
    neither can use it. *)
Theorem backfill_unambiguous (rows rows' : list string) :
  NoDup rows -> rows ≡ₚ rows' ->
  backfill rows = backfill rows'
  /\ forall key, match backfill rows !! key with
     | None => forall sid, sid ∈ rows -> key ∉ _storage_components sid
     | Some (Some sid) => sid ∈ rows /\ key ∈ _storage_components sid
         /\ forall sid', sid' ∈ rows -> key ∈ _storage_components sid' -> sid' = sid
     | Some None => exists sid sid', sid <> sid' /\ sid ∈ rows /\ sid' ∈ rows
         /\ key ∈ _storage_components sid /\ key ∈ _storage_components sid'
     end.
Proof.
  intros Hnd Hp. assert (Hnd' : NoDup rows') by (by rewrite <- Hp). split.
  - apply map_eq. intros key. rewrite !backfill_spec by done.
    assert (Hu : users key rows ≡ₚ users key rows') by (by apply filter_Permutation).
    destruct (users key rows) as [|x [|y l]] eqn:He.
    + apply Permutation_nil in Hu. by rewrite Hu.
    + apply Permutation_singleton_l in Hu. by rewrite Hu.
    + pose proof (Permutation_length Hu) as Hl. destruct (users key rows') as [|? [|? ?]]; done.
  - intros key. rewrite backfill_spec by done.
    assert (Hin : forall sid, sid ∈ users key rows <-> key ∈ _storage_components sid /\ sid ∈ rows)
      by (intros sid; apply (list_elem_of_filter (fun sid => key ∈ _storage_components sid))).
    destruct (users key rows) as [|x [|y l]] eqn:He; cbn [sole_owner].
    + intros sid Hs Hk. assert (Hx : sid ∈ @nil string) by (by apply Hin). by apply elem_of_nil in Hx.
    + assert (Hx : x ∈ [x]) by left. apply Hin in Hx as [? ?]. split; [done|]. split; [done|].
      intros sid' ? ?. apply list_elem_of_singleton, Hin. done.
    + assert (Hx : x ∈ x :: y :: l) by left. assert (Hy : y ∈ x :: y :: l) by (right; left).
      apply Hin in Hx as [? ?], Hy as [? ?]. exists x, y. repeat split; try done.
      assert (Hd : NoDup (users key rows)) by (by apply NoDup_filter). rewrite He in Hd.
      apply NoDup_cons in Hd as [Hd _]. intros ->. apply Hd. left.
Qed.

(** ** Witnesses: a session id that equals the folded key of a longer one *)

Definition long_sid : string := str_of (repeat Byte.x61 300).
Definition alias_sid : string := fold_worker_key long_sid.
Definition empty_store : SessionClaimStore := MkStore (MkDb ∅ None) false.

Lemma alias_shares :
  alias_sid <> long_sid /\ (SQueue, alias_sid) ∈ _storage_components long_sid
  /\ (SQueue, alias_sid) ∈ _storage_components alias_sid.
Proof.
  split; [vm_compute; discriminate|]. split; [left|].
  assert (Hf : fold_worker_key alias_sid = alias_sid) by (vm_compute; reflexivity).
  unfold _storage_components at 1. rewrite Hf. left.
Qed.

Lemma claim_permanent_witness :
  let s1 := snd (claim "s" "alice" "ws" empty_store) in
  claim "s" "alice" "ws" empty_store = (true, s1)
  /\ fst (claim "s" "bob" "ws" (run_ops [ORelease "s" "alice" "ws" "t"] s1)) = false.
Proof.
  cbv zeta. split; [vm_compute; reflexivity|].
  destruct (claim_permanent empty_store (snd (claim "s" "alice" "ws" empty_store)) "s" "alice" "ws"
    [ORelease "s" "alice" "ws" "t"]) as (_ & _ & _ & _ & Hx & _).
  - by intros [=].
  - vm_compute. reflexivity.
  - exact (proj1 (Hx "bob"%string "ws"%string ltac:(congruence))).
Defined.

Lemma reservation_protocol_witness :
  let s1 := snd (reserve_recovery "s" "alice" "ws" "t" empty_store) in
  snd (release_recovery "s" "alice" "ws" "t" s1) = _initialize_locked empty_store.
Proof.
  cbv zeta.
  refine (proj1 (proj2 (proj2 (reservation_protocol empty_store
    (snd (reserve_recovery "s" "alice" "ws" "t" empty_store)) "s" "alice" "ws" "t" _ _ _ _)))).
  - by intros [=].
  - intros key sid Hk. vm_compute in Hk. discriminate Hk.
  - reflexivity.
  - vm_compute. reflexivity.
Defined.

Lemma backfill_unambiguous_witness :
  NoDup [long_sid; alias_sid] /\ backfill [long_sid; alias_sid] = backfill [alias_sid; long_sid].
Proof.
  assert (Hnd : NoDup [long_sid; alias_sid]).
  { apply NoDup_cons. split; [|apply NoDup_singleton]. intros Hin%list_elem_of_singleton.
    destruct alias_shares as [Hne _]. by apply Hne. }
  split; [exact Hnd|].
  exact (proj1 (backfill_unambiguous [long_sid; alias_sid] [alias_sid; long_sid] Hnd
    (perm_swap alias_sid long_sid []))).
Defined.
