(* ===== verification/Deletion.v ===== *)
(** * Deleting a session graph ([deletion.py])

    [DeletionService] composes the three stores: it resolves the whole graph of
    a session (GraphDelete), refuses while any of its sessions has queued
    records (QueueManager), and otherwise deletes queue files, graph and blobs
    (BlobDisk), in that order.  While it awaits a queue operation the ingest
    path may append: the state carries a script of changes to the queue
    directory, one taken before each queue operation.  The set of session ids
    is iterated in an arbitrary order (the order of its list); [storage_guard]
    is the optional callback.

    The theorems: under any interference a refused deletion leaves graph and
    blobs untouched, and a completed one removes exactly the graph's nodes and
    the blobs of its sessions; without interference a refusal changes nothing
    and a deletion removes exactly the sessions' queue files. *)
From stdpp Require Import base list strings gmap sorting relations.
From Stdlib Require Import ZArith Lia.
From S2P Require Import Prelude PyText Utils Json QueueFiles QueueManager GraphStore GraphDelete JsonParse BlobKeys BlobDisk.

#[local] Open Scope string_scope.
#[local] Open Scope list_scope.

Record DelState := MkDel {
  ds_queue : dir;
  ds_graph : GraphState;
  ds_blobs : BlobRoot;
  ds_env : list (dir -> dir);
}.

(** One awaited queue operation: first whatever happened meanwhile. *)
Definition on_queue {A} (m : M dir A) : M DelState A := fun s =>
  let '(d, env) := match ds_env s with
                   | f :: env => (f (ds_queue s), env)
                   | [] => (ds_queue s, [])
                   end in
  let '(r, d') := m d in (r, MkDel d' (ds_graph s) (ds_blobs s) env).

Definition on_blobs {A} (m : M BlobRoot A) : M DelState A := fun s =>
  let '(r, b) := m (ds_blobs s) in (r, MkDel (ds_queue s) (ds_graph s) b (ds_env s)).

Definition on_graph {A} (m : M GraphState A) : M DelState A := fun s =>
  let '(r, g) := m (ds_graph s) in (r, MkDel (ds_queue s) g (ds_blobs s) (ds_env s)).

Fixpoint pending_among (sids : list string) : M DelState (list string) :=
  match sids with
  | [] => mret []
  | sid :: sids' =>
    let! n := on_queue (fun d => (pending_count (fold_worker_key sid) d, d)) in
    let! rest := pending_among sids' in
    mret (if (0 <? n)%nat then sid :: rest else rest)
  end.

Definition _pending_sessions (session_ids : list string) : M DelState (list string) :=
  pending_among (py_sorted session_ids).

(** [total_blob_size] ([services.py]) *)
Fixpoint total_blob_size `{Os} (r : BlobRoot) (uris : list string) : result Z :=
  match uris with
  | [] => Ok 0%Z
  | uri :: uris' =>
    let? n := blob_size uri r in
    let? rest := total_blob_size r uris' in Ok (n + rest)%Z
  end.

Fixpoint list_all `{Os} (r : BlobRoot) (sids : list string) : result (list string) :=
  match sids with
  | [] => Ok []
  | sid :: sids' =>
    let? us := blob_list sid r in
    let? rest := list_all r sids' in Ok (us ++ rest)
  end.

Definition _blob_stats `{Os} (r : BlobRoot) (sids : list string) : result (Z * Z) :=
  let? uris := list_all r sids in
  let? total := total_blob_size r uris in Ok (Z.of_nat (length uris), total).

(** [for sid in session_ids: ... delete_session(fold_worker_key(sid))], with the
    [RuntimeError] of a queue that is no longer drained translated. *)
Fixpoint clean_queues (sids : list string) : M DelState Z :=
  match sids with
  | [] => mret 0%Z
  | sid :: sids' =>
    let! existed := mcatch (on_queue (delete_session (fold_worker_key sid)))
                      (fun e => mraise (if decide (e = RuntimeError) then SessionsPendingError else e)) in
    let! n := clean_queues sids' in
    mret (if existed : bool then n + 1 else n)%Z
  end.

Fixpoint delete_blobs `{Os} (sids : list string) : M DelState Z :=
  match sids with
  | [] => mret 0%Z
  | sid :: sids' =>
    let! n := on_blobs (blob_delete_session sid) in
    let! m := delete_blobs sids' in mret (n + m)%Z
  end.

Section service.
Context `{Timestamps} `{Os}.

(** [storage_guard(session_ids)] *)
Context (storage_guard : option (list string -> DelState -> result unit)).

Record DeletionPreview := MkPreview {
  pv_graph : SessionGraph;
  pv_blob_count : Z;
  pv_blob_bytes : Z;
  pv_deletable : bool;
  pv_pending_sessions : list string;
}.

Record DeletionResult := MkResult {
  dr_root_id : string;
  dr_session_count : nat;
  dr_nodes_deleted : nat;
  dr_relationships_deleted : nat;
  dr_blobs_deleted : Z;
  dr_queue_sessions_cleaned : Z;
}.

Definition guard (sids : list string) : M DelState unit := fun s =>
  match storage_guard with
  | None => (Ok tt, s)
  | Some g => (g sids s, s)
  end.

Definition preview (session_id : string) : M DelState (option DeletionPreview) :=
  let! s := mget in
  let! graph := mlift (resolve_session_graph (ds_graph s) session_id) in
  match graph with
  | None => mret None
  | Some gr =>
    guard (session_ids gr) ;;;
    let! pending := _pending_sessions (session_ids gr) in
    let! s1 := mget in
    let! stats := mlift (_blob_stats (ds_blobs s1) (session_ids gr)) in
    mret (Some (MkPreview gr (fst stats) (snd stats) (bool_decide (pending = [])) pending))
  end.

Definition apply (session_id : string) : M DelState (option DeletionResult) :=
  let! s := mget in
  let! graph := mlift (resolve_session_graph (ds_graph s) session_id) in
  match graph with
  | None => mret None
  | Some gr =>
    guard (session_ids gr) ;;;
    let! pending := _pending_sessions (session_ids gr) in
    if negb (bool_decide (pending = [])) then mraise SessionsPendingError
    else
      let! cleaned := clean_queues (session_ids gr) in
      let! res := on_graph (delete_session_graph session_id (Some gr)) in
      match res with
      | None => mraise RuntimeError
      | Some res =>
        let! blobs := delete_blobs (session_ids gr) in
        mret (Some (MkResult (root_id gr) (length (session_ids gr)) (nodes_deleted res)
                      (relationships_deleted res) blobs cleaned))
      end
  end.
End service.

(** ** What each stage leaves alone *)

Definition gb_is (g : GraphState) (b : BlobRoot) (s : DelState) : Prop :=
  ds_graph s = g /\ ds_blobs s = b.

Lemma on_queue_gb {A} (m : M dir A) g b : preserves (gb_is g b) (on_queue m).
Proof.
  intros s Hs. unfold on_queue. destruct (ds_env s); cbv beta iota zeta;
    match goal with |- context [m ?d] => destruct (m d) end; exact Hs.
Qed.

Lemma pending_among_gb sids g b : preserves (gb_is g b) (pending_among sids).
Proof.
  induction sids as [|sid sids IH]; cbn [pending_among]; [apply preserves_ret|].
  apply preserves_bind; [apply on_queue_gb|]. intros n.
  apply preserves_bind; [exact IH|]. intros rest. apply preserves_ret.
Qed.

Lemma clean_queues_gb sids g b : preserves (gb_is g b) (clean_queues sids).
Proof.
  induction sids as [|sid sids IH]; cbn [clean_queues]; [apply preserves_ret|].
  apply preserves_bind; [apply preserves_catch; [apply on_queue_gb|intros e; apply preserves_raise]|].
  intros existed. apply preserves_bind; [exact IH|]. intros n. apply preserves_ret.
Qed.

Section blobs.
Context `{Os}.

(** After deleting the blobs of some sessions. *)
Definition blobs_removed (sids : list string) (r r' : BlobRoot) : Prop :=
  ledger r' = ledger r
  /\ (forall sid, sid ∈ sids -> exists d, _fold_session_id sid = Ok d /\ forall f, file_at r' d f = None)
  /\ (forall d f, (forall sid, sid ∈ sids -> _fold_session_id sid <> Ok d) -> file_at r' d f = file_at r d f).

Lemma delete_blobs_spec sids s n s' :
  delete_blobs sids s = (Ok n, s') ->
  ds_queue s' = ds_queue s /\ ds_graph s' = ds_graph s
  /\ blobs_removed sids (ds_blobs s) (ds_blobs s')
  /\ (forall d f, file_at (ds_blobs s) d f = None -> file_at (ds_blobs s') d f = None).
Proof.
  revert s n s'. induction sids as [|sid sids IH]; intros s n s'; cbn [delete_blobs].
  - intros [= _ <-]. split; [done|]. split; [done|]. split; [|done]. split; [done|].
    split; [|done]. intros sid Hs. by apply elem_of_nil in Hs.
  - unfold mbind at 1, on_blobs.
    destruct (blob_delete_session sid (ds_blobs s)) as [[k|e] b] eqn:Hd; [|done].
    intros Hrun. apply mbind_ok in Hrun as (m & s2 & Hrest & Hret). injection Hret as _ <-.
    apply IH in Hrest as (Hq & Hg & (Hl & Hin & Hout) & Hmono). cbn [ds_queue ds_graph ds_blobs] in *.
    apply blob_delete_session_spec in Hd as (d & Hfold & Hl1 & Hgone & Hother & _).
    split; [done|]. split; [done|]. split; [split; [congruence|split]|].
    + intros sid' [->|Hs]%elem_of_cons; [|by apply Hin]. exists d. split; [done|].
      intros f. by apply Hmono, Hgone.
    + intros d' f Hn. rewrite Hout by (intros sid' Hs; apply Hn; by right). apply Hother.
      intros ->. by apply (Hn sid); [left|].
    + intros d' f Hf. apply Hmono. destruct (decide (d' = d)) as [->|]; [apply Hgone|].
      by rewrite Hother.
Qed.

Lemma delete_blobs_queue sids s : ds_queue (snd (delete_blobs sids s)) = ds_queue s.
Proof.
  revert s. induction sids as [|sid sids IH]; intros s; cbn [delete_blobs]; [done|].
  unfold mbind at 1, on_blobs. destruct (blob_delete_session sid (ds_blobs s)) as [[k|e'] b]; [|done].
  unfold mbind. specialize (IH (MkDel (ds_queue s) (ds_graph s) b (ds_env s))).
  by destruct (delete_blobs sids _) as [[m|e'] s2].
Qed.

(** A blob deletion fails with a file-system or naming error only. *)
Lemma delete_blobs_err sids s e s' :
  delete_blobs sids s = (Err e, s') -> e <> SessionsPendingError.
Proof.
  revert s. induction sids as [|sid sids IH]; intros s; cbn [delete_blobs]; [done|].
  unfold mbind at 1, on_blobs.
  destruct (blob_delete_session sid (ds_blobs s)) as [[k|e'] b] eqn:Hd.
  - unfold mbind. destruct (delete_blobs sids _) as [[m|e'] s2] eqn:Hrest; [done|].
    intros [= <- <-]. by apply IH in Hrest.
  - intros [= <- _] ->. revert Hd. unfold blob_delete_session, blobs_dir, _fold_session_id, component, rbind.
    by repeat case_match; intros; simplify_eq.
Qed.
End blobs.

Section service_facts.
Context `{Timestamps} `{Os} (storage_guard : option (list string -> DelState -> result unit)).

Lemma guard_state sids s r s' : guard storage_guard sids s = (r, s') -> s' = s.
Proof. unfold guard. destruct storage_guard; by intros [= _ <-]. Qed.

Lemma delete_resolved g s gr :
  resolve_session_graph g s = Ok (Some gr) ->
  delete_session_graph s (Some gr) g = delete_session_graph s None g.
Proof. intros Hr. unfold delete_session_graph. by rewrite Hr. Qed.

(** Whatever is appended meanwhile, a graph is never half-deleted.  If [apply]
    reports that sessions are still pending, or does not know the session, graph
    and blobs are untouched.  If it succeeds, exactly the nodes owned by the
    resolved graph are gone (its counts say so), every blob of every session of
    the graph is gone, and the blobs of all other sessions are intact. *)
Theorem deletion_never_partial (session_id : string) (s : DelState) :
  match apply storage_guard session_id s with
  | (Err SessionsPendingError, s') | (Ok None, s') =>
      ds_graph s' = ds_graph s /\ ds_blobs s' = ds_blobs s
  | (Ok (Some res), s') =>
      exists gr, resolve_session_graph (ds_graph s) session_id = Ok (Some gr)
      /\ (forall n, dget n (_nodes (ds_graph s'))
            = if decide (n ∈ owned_nodes (ds_graph s) (session_ids gr)) then None
              else dget n (_nodes (ds_graph s)))
      /\ (dr_nodes_deleted res + length (concept_nodes (ds_graph s) (session_ids gr)))%nat = node_count gr
      /\ dr_session_count res = length (session_ids gr)
      /\ blobs_removed (session_ids gr) (ds_blobs s) (ds_blobs s')
  | (Err _, _) => True
  end.
Proof.
  unfold apply, mbind at 1, mget. unfold mbind at 1, mlift.
  destruct (resolve_session_graph (ds_graph s) session_id) as [[gr|]|e] eqn:Hr; [|done|by destruct e].
  unfold mbind at 1. destruct (guard storage_guard (session_ids gr) s) as [[u|e] s0] eqn:Hg;
    apply guard_state in Hg as ->; [|by destruct e].
  unfold mbind at 1, _pending_sessions.
  pose proof (pending_among_gb (py_sorted (session_ids gr)) (ds_graph s) (ds_blobs s) s (conj eq_refl eq_refl)) as Hgb1.
  destruct (pending_among _ s) as [[pending|e] s1]; [|by destruct e; try exact Hgb1].
  destruct (bool_decide (pending = [])); cbn [negb]; [|exact Hgb1].
  unfold mbind at 1. pose proof (clean_queues_gb (session_ids gr) (ds_graph s) (ds_blobs s) s1 Hgb1) as [Hg2 Hb2].
  destruct (clean_queues _ s1) as [[cleaned|e] s2]; cbn [snd] in *; [|by destruct e].
  unfold mbind at 1, on_graph. rewrite Hg2, (delete_resolved _ _ _ Hr).
  destruct (delete_session_graph_spec _ _ _ Hr) as (res & g' & -> & Hn & _ & _ & Hcount).
  unfold mbind at 1. destruct (delete_blobs _ _) as [[blobs|e] s3] eqn:Hdel.
  2: { apply delete_blobs_err in Hdel. by destruct e. }
  apply delete_blobs_spec in Hdel as (_ & Hg3 & Hb3 & _). cbn [ds_queue ds_graph ds_blobs] in *.
  exists gr. split; [done|]. rewrite Hg3. split; [exact Hn|]. split; [exact Hcount|]. split; [done|].
  by rewrite <- Hb2.
Qed.
End service_facts.

(** ** Without interference *)

Definition queue_files (k : string) : list string := [_log_path k; _offset_path k; _dead_path k].

Lemma last_path (k : string) (suf : string) b l :
  bytes_of suf = l ++ [b] -> last (bytes_of (k +:+ suf)) = Some b.
Proof. intros Hs. rewrite bytes_of_app, Hs, app_assoc. apply last_snoc. Qed.

(** Files of different keys have different names. *)
Lemma queue_files_disjoint k k' p : p ∈ queue_files k -> p ∈ queue_files k' -> k = k'.
Proof.
  assert (Hl : forall k, last (bytes_of (_log_path k)) = Some Byte.x67)
    by (intros x; by apply (last_path x ".log" _ [Byte.x2e; Byte.x6c; Byte.x6f])).
  assert (Ho : forall k, last (bytes_of (_offset_path k)) = Some Byte.x74)
    by (intros x; by apply (last_path x ".offset" _ [Byte.x2e; Byte.x6f; Byte.x66; Byte.x66; Byte.x73; Byte.x65])).
  assert (Hd : forall k, last (bytes_of (_dead_path k)) = Some Byte.x6c)
    by (intros x; by apply (last_path x ".dead.jsonl" _
         [Byte.x2e; Byte.x64; Byte.x65; Byte.x61; Byte.x64; Byte.x2e; Byte.x6a; Byte.x73; Byte.x6f; Byte.x6e])).
  assert (Hinj : forall suf, k +:+ suf = k' +:+ suf -> k = k').
  { intros suf Heq. apply bytes_of_inj. apply (f_equal bytes_of) in Heq. rewrite !bytes_of_app in Heq.
    by apply app_inv_tail in Heq. }
  unfold queue_files. rewrite !elem_of_cons, elem_of_nil.
  intros [->|[->|[->|[]]]] [Heq|[Heq|[Heq|[]]]]; try (by eapply Hinj, Heq);
    apply (f_equal (fun x => last (bytes_of x))) in Heq; rewrite ?Hl, ?Ho, ?Hd in Heq; discriminate Heq.
Qed.

Lemma pending_count_ext k d d' :
  (forall p, p ∈ queue_files k -> d' !! p = d !! p) -> pending_count k d' = pending_count k d.
Proof.
  intros Hext. assert (Hlog : d' !! _log_path k = d !! _log_path k) by (apply Hext; left).
  assert (Hoff : d' !! _offset_path k = d !! _offset_path k) by (apply Hext; right; left).
  unfold pending_count, pending_of, _read_committed_offset, _count_newlines, _complete_data_end.
  by rewrite ?Hlog, ?Hoff.
Qed.

(** A drained queue is deleted, its three files and nothing else. *)
Lemma delete_drained_queue k d :
  pending_count k d = Ok 0 ->
  exists existed d', delete_session k d = (Ok existed, d')
    /\ forall p, d' !! p = if decide (p ∈ queue_files k) then None else d !! p.
Proof.
  unfold pending_count, delete_session. destruct (_validate_session_id k); [|done]. intros ->.
  do 2 eexists. split; [reflexivity|]. intros p. cbn [foldl]. rewrite !lookup_delete.
  unfold queue_files. repeat case_decide; set_solver.
Qed.

Lemma deleted_queue_drained k d :
  _validate_session_id k = true -> (forall p, p ∈ queue_files k -> d !! p = None) -> pending_count k d = Ok 0.
Proof.
  intros Hk Hn. unfold pending_count, pending_of, _read_committed_offset, _count_newlines, _complete_data_end.
  rewrite Hk.
  rewrite (Hn (_offset_path k)) by (right; left). rewrite (Hn (_log_path k)) by left. reflexivity.
Qed.

(** The queue files of a set of sessions. *)
Definition session_files (sids : list string) : list string :=
  concat (map (fun sid => queue_files (fold_worker_key sid)) sids).

Lemma elem_session_files p sids :
  p ∈ session_files sids <-> exists sid, sid ∈ sids /\ p ∈ queue_files (fold_worker_key sid).
Proof.
  unfold session_files. induction sids as [|sid sids IH]; cbn [map concat].
  - split; [by intros ?%elem_of_nil|]. intros (sid & Hs & _). by apply elem_of_nil in Hs.
  - rewrite elem_of_app, IH. setoid_rewrite elem_of_cons. split.
    + intros [Hp|(sid' & Hs & Hp)]; eauto.
    + intros (sid' & [->|Hs] & Hp); eauto.
Qed.

Lemma clean_quiet sids s :
  ds_env s = [] ->
  (forall sid, sid ∈ sids -> pending_count (fold_worker_key sid) (ds_queue s) = Ok 0) ->
  exists n s', clean_queues sids s = (Ok n, s') /\ ds_env s' = []
    /\ forall p, ds_queue s' !! p = if decide (p ∈ session_files sids) then None else ds_queue s !! p.
Proof.
  revert s. induction sids as [|sid sids IH]; intros s He Hp; cbn [clean_queues].
  - do 2 eexists. split; [done|]. split; [done|]. intros p. by rewrite decide_False by apply not_elem_of_nil.
  - destruct (delete_drained_queue _ _ (Hp sid ltac:(left))) as (ex & d & Hd & Hfiles).
    assert (Hstep : on_queue (delete_session (fold_worker_key sid)) s
                    = (Ok ex, MkDel d (ds_graph s) (ds_blobs s) [])).
    { unfold on_queue. rewrite He, Hd. done. }
    destruct (IH (MkDel d (ds_graph s) (ds_blobs s) []) eq_refl) as (n & s' & Hrun & He' & Hq).
    { intros sid' Hs. cbn [ds_queue]. pose proof (Hp sid' ltac:(by right)) as Hp'.
      destruct (decide (fold_worker_key sid' = fold_worker_key sid)) as [Heq|Hne].
      - rewrite Heq in *. apply deleted_queue_drained.
        + unfold pending_count in Hp'. by destruct (_validate_session_id _).
        + intros p Hin. by rewrite Hfiles, decide_True.
      - rewrite <- Hp'. apply pending_count_ext. intros p Hin. rewrite Hfiles, decide_False; [done|].
        intros Hin'. by apply Hne, (queue_files_disjoint _ _ p). }
    exists (if ex then n + 1 else n)%Z, s'. split; [|split; [done|]].
    + unfold mcatch, mbind, mret. rewrite Hstep, Hrun. done.
    + intros p. rewrite Hq. cbn [ds_queue]. rewrite Hfiles.
      assert (Hiff : p ∈ session_files (sid :: sids)
                     <-> p ∈ queue_files (fold_worker_key sid) \/ p ∈ session_files sids) by apply elem_of_app.
      repeat case_decide; try done; tauto.
Qed.

Lemma pending_quiet sids s f :
  ds_env s = [] ->
  (forall sid, sid ∈ sids -> pending_count (fold_worker_key sid) (ds_queue s) = Ok (f sid)) ->
  pending_among sids s = (Ok (filter (fun sid => 0 < f sid)%nat sids), s).
Proof.
  intros He. induction sids as [|sid sids IH]; intros Hp; cbn [pending_among]; [done|].
  unfold mbind at 1, on_queue. rewrite He, (Hp sid) by left.
  destruct s as [q g b env]. cbn [ds_env ds_queue ds_graph ds_blobs] in *. subst env.
  unfold mbind. rewrite IH by (intros; apply Hp; by right). unfold mret. rewrite filter_cons.
  destruct (Nat.ltb_spec 0 (f sid)), (decide (0 < f sid)%nat); by try lia.
Qed.

Section quiet.
Context `{Timestamps} `{Os} (storage_guard : option (list string -> DelState -> result unit)).

Lemma elem_py_sorted (x : string) l : x ∈ py_sorted l <-> x ∈ l.
Proof. unfold py_sorted. by rewrite merge_sort_Permutation. Qed.

(** With nothing appended meanwhile, the drain precondition decides.  If any
    session of the graph has an unacknowledged record, [apply] refuses and the
    state is exactly what it was; otherwise it deletes the queue files of
    exactly the graph's sessions, and however the rest ends, no other queue
    file is touched. *)
Theorem deletion_requires_drained (session_id : string) (s : DelState) (gr : SessionGraph)
    (f : string -> nat) :
  resolve_session_graph (ds_graph s) session_id = Ok (Some gr) ->
  guard storage_guard (session_ids gr) s = (Ok tt, s) -> ds_env s = [] ->
  (forall sid, sid ∈ session_ids gr -> pending_count (fold_worker_key sid) (ds_queue s) = Ok (f sid)) ->
  ((exists sid, sid ∈ session_ids gr /\ (0 < f sid)%nat) ->
     apply storage_guard session_id s = (Err SessionsPendingError, s))
  /\ ((forall sid, sid ∈ session_ids gr -> f sid = 0%nat) ->
     forall p, ds_queue (snd (apply storage_guard session_id s)) !! p
               = if decide (p ∈ session_files (session_ids gr)) then None else ds_queue s !! p).
Proof.
  intros Hr Hg He Hp.
  assert (Hpend : pending_among (py_sorted (session_ids gr)) s
                  = (Ok (filter (fun sid => 0 < f sid)%nat (py_sorted (session_ids gr))), s)).
  { apply (pending_quiet _ s f He). intros sid Hs. apply Hp. by apply elem_py_sorted. }
  split; [intros (sid & Hs & Hf)|intros Hz p];
    unfold apply, mbind at 1, mget, mbind at 1, mlift; rewrite Hr;
    unfold mbind at 1; rewrite Hg; unfold mbind at 1, _pending_sessions; rewrite Hpend.
  - rewrite bool_decide_eq_false_2; [done|]. intros Hnil.
    assert (Hin : sid ∈ filter (fun sid => 0 < f sid)%nat (py_sorted (session_ids gr)))
      by (apply list_elem_of_filter; by rewrite elem_py_sorted).
    rewrite Hnil in Hin. by apply elem_of_nil in Hin.
  - rewrite bool_decide_eq_true_2.
    2: { apply elem_of_nil_inv. intros sid [Hf Hs]%list_elem_of_filter. rewrite elem_py_sorted in Hs.
         rewrite (Hz sid Hs) in Hf. lia. }
    cbn [negb]. unfold mbind at 1.
    destruct (clean_quiet (session_ids gr) s He) as (n & s1 & Hrun & _ & Hq).
    { intros sid Hs. by rewrite Hp, Hz. }
    rewrite Hrun. unfold mbind at 1, on_graph.
    destruct (delete_session_graph session_id (Some gr) (ds_graph s1)) as [[[res|]|e] g']; try apply Hq.
    unfold mbind, mret. pose proof (delete_blobs_queue (session_ids gr) (MkDel (ds_queue s1) g' (ds_blobs s1) (ds_env s1))) as Hdq.
    destruct (delete_blobs _ _) as [[blobs|e] s3]; cbn [snd ds_queue] in *; by rewrite Hdq.
Qed.
End quiet.

(** ** Instances *)

#[local] Existing Instance demo_timestamps.
#[local] Existing Instance posix.

Definition demo_state (q : dir) (env : list (dir -> dir)) : DelState :=
  MkDel q demo_graph (MkRoot ∅ None) env.

(** One session of the graph has an undelivered record. *)
Definition demo_pending : dir := <["s.log" := [Byte.x78; nl]]> (<["r.dead.jsonl" := [Byte.x64; nl]]> ∅).

Lemma deletion_requires_drained_witness :
  apply None "s" (demo_state demo_pending []) = (Err SessionsPendingError, demo_state demo_pending []).
Proof.
  refine (proj1 (deletion_requires_drained None "s" (demo_state demo_pending []) demo_resolved
    (fun sid => if decide (sid = "s") then 1 else 0) _ _ _ _) _).
  - reflexivity.
  - reflexivity.
  - reflexivity.
  - intros sid Hs. unfold demo_resolved in Hs. cbn [session_ids] in Hs.
    rewrite !elem_of_cons, elem_of_nil in Hs. by destruct Hs as [->|[->|[->|[]]]]; vm_compute.
  - exists "s". split; [right; left|vm_compute; lia].
Defined.

(** A record that arrives between the check and the deletion: the refusal comes
    after the queue files of an earlier session, its dead letters included,
    were removed. *)
Definition arrives_late : list (dir -> dir) :=
  [id; id; id; id; (fun d => <["s.log" := [Byte.x78; nl]]> d)].

Example late_refusal_drops_dead_letters :
  let s := demo_state (<["r.dead.jsonl" := [Byte.x64; nl]]> ∅) arrives_late in
  let '(res, s') := apply None "s" s in
  res = Err SessionsPendingError /\ ds_queue s' !! "r.dead.jsonl" = None
  /\ ds_graph s' = ds_graph s.
Proof. vm_compute. done. Qed.
