(* ===== verification/Authz.v ===== *)
(** * Authorization gates ([authz.py])

    The FastAPI dependencies that guard the routes, as decisions over the
    request's scope state (set by the authentication middleware) and the
    application state (set from the configuration).  [None] of an optional
    field is an attribute or key that is absent, so that the code's defaults
    apply; [Denied] is [HTTPException(403)].

    The theorems: scoped mode fails closed; which gates imply which, in each
    mode; and access to a claimed session follows the workspace the session was
    claimed for, through every later history of the claim store. *)
From stdpp Require Import base list strings gmap.
From Stdlib Require Import ZArith Lia.
From S2P Require Import Prelude PyText Utils QueueFiles Json JsonParse BlobKeys BlobDisk SessionClaims.

#[local] Open Scope string_scope.
#[local] Open Scope list_scope.

Inductive gate := Allowed | Denied.
#[export] Instance gate_eq_dec : EqDecision gate.
Proof. solve_decision. Defined.

(** A contributor's grant ([config.py]); [workspaces] may be absent. *)
Record Grant := MkGrant {
  gr_capabilities : list string;
  gr_all_workspaces : bool;
  gr_workspaces : option (list string);
}.

(** [request.scope["state"]] *)
Record ScopeState := MkScope {
  st_is_service : option bool;
  st_is_admin : option bool;
  st_roles : option (list string);
  st_contributor_id : option string;
}.

(** [request.app.state] *)
Record AppState := MkApp {
  app_mode : option string;                      (** [access_control_mode] *)
  app_service_data_role : option string;
  app_reader_role : option string;
  app_entra_admin_role : option string;
  app_grants : list (string * Grant);            (** [contributor_grants] *)
  app_recovery_permit_required : option bool;
  app_session_claims : option SessionClaimStore;
}.

Record Request := MkReq { req_state : ScopeState; req_app : AppState }.

Definition scoped (a : AppState) : bool := bool_decide (default "compatibility" (app_mode a) = "scoped").
Definition roles (s : ScopeState) : list string := default [] (st_roles s).
(** [bool(role) and role in roles] *)
Definition holds_role (role : option string) (s : ScopeState) : bool :=
  let r := default "" role in negb (bool_decide (r = "")) && bool_decide (r ∈ roles s).

(** [grants.get(contributor_id)]; an empty or missing id finds nothing. *)
Definition grant_of (r : Request) : option Grant :=
  match st_contributor_id (req_state r) with
  | Some c => if bool_decide (c = "") then None else dget c (app_grants (req_app r))
  | None => None
  end.

Definition _has_capability (r : Request) (capability : string) : bool :=
  match grant_of r with
  | Some g => bool_decide (capability ∈ gr_capabilities g)
  | None => false
  end.

Definition _is_operator (r : Request) : bool :=
  default false (st_is_admin (req_state r))
  || holds_role (app_entra_admin_role (req_app r)) (req_state r).

Definition _is_write_capable (r : Request) : bool :=
  if scoped (req_app r) then
    if _is_operator r then true else _has_capability r "live:write"
  else if negb (default false (st_is_service (req_state r))) then true
  else holds_role (app_service_data_role (req_app r)) (req_state r).

Definition require_write (r : Request) : gate :=
  if _is_write_capable r then Allowed else Denied.

Definition require_read (r : Request) : gate :=
  if scoped (req_app r) then
    if _is_operator r || _has_capability r "data:read" then Allowed else Denied
  else if _is_write_capable r then Allowed
  else if holds_role (app_reader_role (req_app r)) (req_state r) then Allowed
  else Denied.

Definition require_recovery_write (r : Request) : gate :=
  if negb (scoped (req_app r)) then require_write r
  else if negb (_has_capability r "recovery:write") then Denied
  else if default false (app_recovery_permit_required (req_app r)) then require_write r
  else Allowed.

(** [grants.get(state.get("contributor_id"))]: here without the emptiness test,
    so an empty id is looked up like any other key. *)
Definition raw_grant_of (r : Request) : option Grant :=
  match st_contributor_id (req_state r) with
  | Some c => dget c (app_grants (req_app r))
  | None => None
  end.

Definition require_workspace_access (r : Request) (workspace capability : string) : gate :=
  if negb (scoped (req_app r)) then Allowed
  else match raw_grant_of r with
       | None => Denied
       | Some g =>
         if negb (bool_decide (capability ∈ gr_capabilities g)) then Denied
         else if negb (gr_all_workspaces g)
                 && negb (bool_decide (workspace ∈ default [] (gr_workspaces g)))
         then Denied
         else Allowed
       end.

Definition require_arbitrary_data_read (r : Request) : gate :=
  if negb (scoped (req_app r)) then Allowed
  else match raw_grant_of r with
       | None => Denied
       | Some g => if bool_decide ("data:read" ∈ gr_capabilities g) && gr_all_workspaces g
                   then Allowed else Denied
       end.

Definition require_claimed_session_access (r : Request) (session_id capability : string) : gate :=
  if negb (scoped (req_app r)) then Allowed
  else match app_session_claims (req_app r) with
       | None => Denied
       | Some claims =>
         let '(workspace, claims) := get_workspace session_id claims in
         match workspace with
         | None => Denied
         | Some w => if fst (storage_identity_matches session_id claims)
                     then require_workspace_access r w capability else Denied
         end
       end.

Definition require_claimed_blob_access (r : Request) (session_id capability : string) : gate :=
  if negb (scoped (req_app r)) then Allowed
  else match app_session_claims (req_app r) with
       | None => Denied
       | Some claims =>
         match fst (get_blob_workspace session_id claims) with
         | None => Denied
         | Some w => require_workspace_access r w capability
         end
       end.

(** ** What the gates imply *)

(** The capability and workspace test of a grant. *)
Definition grants_workspace (r : Request) (workspace capability : string) : Prop :=
  exists g, raw_grant_of r = Some g /\ capability ∈ gr_capabilities g
            /\ (gr_all_workspaces g = true \/ workspace ∈ default [] (gr_workspaces g)).

Lemma require_workspace_access_spec r w cap :
  scoped (req_app r) = true ->
  require_workspace_access r w cap = Allowed <-> grants_workspace r w cap.
Proof.
  intros Hs. unfold require_workspace_access, grants_workspace. rewrite Hs. cbn [negb].
  destruct (raw_grant_of r) as [g|]; [|split; [done|by intros (? & [=] & _)]].
  destruct (bool_decide (cap ∈ gr_capabilities g)) eqn:Hc; cbn [negb].
  2: { apply bool_decide_eq_false in Hc. split; [done|]. by intros (? & [= <-] & ? & _). }
  apply bool_decide_eq_true in Hc. destruct (gr_all_workspaces g) eqn:Ha; cbn [negb andb].
  { split; [|done]. intros _. exists g. auto. }
  destruct (bool_decide (w ∈ _)) eqn:Hw; cbn [negb].
  - apply bool_decide_eq_true in Hw. split; [|done]. intros _. exists g. auto.
  - apply bool_decide_eq_false in Hw. split; [done|]. intros (? & [= <-] & _ & [?|?]); congruence.
Qed.

(** In compatibility mode read access includes write access.  In scoped mode
    every gate fails closed: a principal without a grant that is not an operator
    passes none of them, reading raw data is never wider than reading any one
    workspace, and recovery writes need their own capability even of operators. *)
Theorem gates_fail_closed (r : Request) (session_id workspace capability : string) :
  (scoped (req_app r) = false -> require_write r = Allowed -> require_read r = Allowed)
  /\ (scoped (req_app r) = true -> raw_grant_of r = None ->
      (_is_operator r = false -> require_write r = Denied /\ require_read r = Denied)
      /\ require_recovery_write r = Denied
      /\ require_workspace_access r workspace capability = Denied
      /\ require_arbitrary_data_read r = Denied
      /\ require_claimed_session_access r session_id capability = Denied
      /\ require_claimed_blob_access r session_id capability = Denied)
  /\ (require_arbitrary_data_read r = Allowed -> require_workspace_access r workspace "data:read" = Allowed).
Proof.
  split; [|split].
  - unfold require_write, require_read. intros ->. by destruct (_is_write_capable r).
  - intros Hs Hg.
    assert (Hcap : forall c, _has_capability r c = false).
    { intros c. unfold _has_capability, grant_of. unfold raw_grant_of in Hg.
      destruct (st_contributor_id (req_state r)) as [i|]; [|done]. by rewrite Hg; case_bool_decide. }
    assert (Hws : forall w c, require_workspace_access r w c = Denied).
    { intros w c. unfold require_workspace_access. by rewrite Hs, Hg. }
    split; [|repeat split].
    + intros Ho. unfold require_write, require_read, _is_write_capable. by rewrite Hs, Ho, !Hcap.
    + unfold require_recovery_write. by rewrite Hs, Hcap.
    + apply Hws.
    + unfold require_arbitrary_data_read. by rewrite Hs, Hg.
    + unfold require_claimed_session_access. rewrite Hs. cbn [negb].
      destruct (app_session_claims (req_app r)) as [claims|]; [|done].
      destruct (get_workspace session_id claims) as [[w|] claims']; [|done].
      destruct (fst _); [apply Hws|done].
    + unfold require_claimed_blob_access. rewrite Hs. cbn [negb].
      destruct (app_session_claims (req_app r)) as [claims|]; [|done].
      destruct (fst _); [apply Hws|done].
  - unfold require_arbitrary_data_read, require_workspace_access. destruct (scoped (req_app r)); [|done].
    cbn [negb]. destruct (raw_grant_of r) as [g|]; [|done].
    destruct (bool_decide ("data:read" ∈ gr_capabilities g)); [|done]. cbn [negb andb].
    by destruct (gr_all_workspaces g).
Qed.

(** Access to a session's data follows its claim for ever.  Once a session has
    been claimed for workspace [w], then after any history of the claim store a
    scoped request passes the session gate exactly when its contributor's grant
    has the capability and covers [w]; nothing anybody claims, reserves or
    releases later moves the session to another workspace. *)
Theorem claimed_access_follows_workspace (r : Request) (s s1 : SessionClaimStore)
    (sid c w capability : string) (os : list op) :
  store_ok s -> claim sid c w s = (true, s1) ->
  scoped (req_app r) = true -> app_session_claims (req_app r) = Some (run_ops os s1) ->
  require_claimed_session_access r sid capability = Allowed <-> grants_workspace r w capability.
Proof.
  intros Hok Hcl Hs Happ. pose proof (owns_run sid _ os s1 (claim_owns _ _ _ _ _ Hok Hcl)) as Ho.
  pose proof (owns_init _ _ _ Ho) as Ho1. pose proof (owns_init _ _ _ Ho1) as (_ & _ & Hc2 & Hm2).
  destruct Ho1 as (_ & _ & Hc1 & _).
  unfold require_claimed_session_access. rewrite Hs, Happ. cbn [negb]. unfold get_workspace.
  unfold committed_row at 1. rewrite Hc1. cbn [cl_token cl_workspace].
  rewrite bool_decide_eq_true_2 by done. cbn [fmap option_fmap option_map cl_workspace].
  unfold storage_identity_matches, committed_row. cbn [fst]. rewrite Hc2, Hm2. cbn [cl_token].
  rewrite (bool_decide_eq_true_2 (None = None)) by done.
  rewrite bool_decide_eq_true_2 by eauto. cbn [andb]. by apply require_workspace_access_spec.
Qed.

(** ** A request of a contributor limited to one workspace *)

Definition demo_request (claims : SessionClaimStore) : Request :=
  MkReq (MkScope None None None (Some "alice"))
    (MkApp (Some "scoped") None None None
       [("alice", MkGrant ["data:read"; "live:write"] false (Some ["ws"]))] None (Some claims)).

Lemma claimed_access_follows_workspace_witness :
  let s1 := snd (claim "s" "alice" "ws" empty_store) in
  require_claimed_session_access (demo_request (run_ops [OClaim "t" "bob" "other"] s1)) "s" "data:read" = Allowed.
Proof.
  cbv zeta. set (s1 := snd (claim "s" "alice" "ws" empty_store)).
  apply (claimed_access_follows_workspace (demo_request (run_ops [OClaim "t" "bob" "other"] s1))
    empty_store s1 "s" "alice" "ws" "data:read" [OClaim "t" "bob" "other"]).
  - by intros [=].
  - vm_compute. reflexivity.
  - reflexivity.
  - reflexivity.
  - eexists. split; [reflexivity|]. split; [left|]. right. left.
Defined.

(** In scoped mode write access does not include read access. *)
Example scoped_write_without_read :
  let r := MkReq (MkScope None None None (Some "alice"))
    (MkApp (Some "scoped") None None None [("alice", MkGrant ["live:write"] true None)] None None) in
  require_write r = Allowed /\ require_read r = Denied.
Proof. done. Qed.

Lemma gates_fail_closed_witness :
  let r := MkReq (MkScope (Some true) None None (Some "mallory"))
    (MkApp (Some "scoped") None None None [("alice", MkGrant ["live:write"] true None)] None None) in
  require_write r = Denied /\ require_claimed_session_access r "s" "data:read" = Denied.
Proof.
  set (r := MkReq _ _). destruct (gates_fail_closed r "s" "ws" "data:read") as (_ & Hx & _).
  destruct (Hx eq_refl eq_refl) as (Hw & _ & _ & _ & Hs & _). split; [apply Hw; reflexivity|exact Hs].
Defined.
