(* ===== verification/Registry.v ===== *)
(** * Drain supervision ([registry.py])

    The registry of session workers around the drain loop (Drain): who is
    registered, which worker has which task, what a finished task leaves behind.
    asyncio runs one callback or coroutine step at a time, so the methods
    without an [await] ([start_drain], [get_or_create], [_deregister],
    [_on_drain_done]) are single steps; a drain task is abstracted to the points
    where it touches the registry: it marks its store closed, deregisters and
    returns, returns early, or dies.  Worker objects and tasks live in a heap,
    because the table, the tasks and the pending callbacks share them.

    The theorems: a session has at most one live drainer, which drains through
    an open store of its registered worker; a dead drainer's teardown removes
    exactly its own worker; and an ingested event always finds a live drainer or
    one whose teardown is already scheduled.  [remove], which the server never
    calls, is shown to break the first. *)
From stdpp Require Import ssreflect base list strings gmap relations.
From Stdlib Require Import ZArith Lia.
From S2P Require Import Prelude.

#[local] Open Scope string_scope.
#[local] Open Scope list_scope.

(** [asyncio.Task] as the registry sees it: [done()], [exception()]. *)
Inductive status := Running | Finished | Failed.
#[export] Instance status_eq_dec : EqDecision status.
Proof. solve_decision. Defined.

Record task := MkTask { tk_worker : nat; tk_status : status }.

(** The fields of [SessionWorker] that supervision reads. *)
Record worker := MkWorker {
  wk_session : string;
  wk_task : option nat;
  wk_closed : bool;       (** [store_closed] *)
}.

Record registry := MkReg {
  _workers : gmap string nat;
  objs : gmap nat worker;
  tasks : gmap nat task;
  callbacks : list nat;   (** failed tasks whose done-callback is scheduled *)
  closing : list nat;     (** workers of [_close_tasks] *)
  next_worker : nat;
  next_task : nat;
}.

Definition empty_registry : registry := MkReg ∅ ∅ ∅ [] [] 0 0.

Definition set_obj (w : nat) (o : worker) (r : registry) : registry :=
  MkReg (_workers r) (<[w := o]> (objs r)) (tasks r) (callbacks r) (closing r) (next_worker r) (next_task r).
Definition set_status (t : nat) (s : status) (r : registry) : registry :=
  MkReg (_workers r) (objs r)
    (alter (fun tk => MkTask (tk_worker tk) s) t (tasks r))
    (callbacks r) (closing r) (next_worker r) (next_task r).

(** [_task_failure(task) is not None] *)
Definition _task_failure (tk : task) : bool := bool_decide (tk_status tk = Failed).
Definition task_done (tk : task) : bool := negb (bool_decide (tk_status tk = Running)).

(** [asyncio.create_task(self.drain_worker(worker))] *)
Definition spawn (w : nat) (o : worker) (r : registry) : registry :=
  MkReg (_workers r) (<[w := MkWorker (wk_session o) (Some (next_task r)) (wk_closed o)]> (objs r))
    (<[next_task r := MkTask w Running]> (tasks r))
    (callbacks r) (closing r) (next_worker r) (S (next_task r)).

Definition start_drain (w : nat) (r : registry) : registry :=
  match objs r !! w with
  | None => r
  | Some o =>
    if wk_closed o then r
    else match wk_task o with
         | None => spawn w o r
         | Some t =>
           match tasks r !! t with
           | None => r
           | Some tk => if negb (task_done tk) then r
                        else if _task_failure tk then r
                        else spawn w o r
           end
         end
  end.

Definition get_or_create (session_id : string) (r : registry) : registry :=
  match _workers r !! session_id with
  | None =>
    let w := next_worker r in
    start_drain w
      (MkReg (<[session_id := w]> (_workers r)) (<[w := MkWorker session_id None false]> (objs r))
         (tasks r) (callbacks r) (closing r) (S w) (next_task r))
  | Some w => start_drain w r
  end.

Definition _deregister (session_id : string) (r : registry) : registry :=
  MkReg (delete session_id (_workers r)) (objs r) (tasks r) (callbacks r) (closing r)
    (next_worker r) (next_task r).

(** The first statement of [_safe_close]. *)
Definition mark_closed (w : nat) (r : registry) : registry :=
  match objs r !! w with
  | Some o => set_obj w (MkWorker (wk_session o) (wk_task o) true) r
  | None => r
  end.

(** The done-callback of a failed task: deregister, then schedule the close. *)
Definition _on_drain_done (t w : nat) (o : worker) (r : registry) : registry :=
  let r1 := _deregister (wk_session o) r in
  MkReg (_workers r1) (objs r1) (tasks r1) (filter (fun x => x <> t) (callbacks r1))
    (w :: closing r1) (next_worker r1) (next_task r1).

(** [remove]: pop and cancel; the cancelled task finishes later. *)
Definition remove (session_id : string) (r : registry) : registry := _deregister session_id r.

(** An exception escapes the drain task: asyncio schedules its done-callback. *)
Definition task_dies (t : nat) (r : registry) : registry :=
  let r1 := set_status t Failed r in
  MkReg (_workers r1) (objs r1) (tasks r1) (t :: callbacks r1) (closing r1)
    (next_worker r1) (next_task r1).

(** ** The steps of the system *)

Inductive rstep : registry -> registry -> Prop :=
  | r_ingest r sid : rstep r (get_or_create sid r)
  | r_close r t tk :
      tasks r !! t = Some tk -> tk_status tk = Running ->
      rstep r (mark_closed (tk_worker tk) r)
  | r_finish r t tk o :
      (** finalised, reaped or cancelled: closed, deregistered, returned *)
      tasks r !! t = Some tk -> tk_status tk = Running ->
      objs r !! tk_worker tk = Some o -> wk_closed o = true ->
      rstep r (set_status t Finished (_deregister (wk_session o) r))
  | r_return r t tk o :
      (** a tail flush failed: returned early, still registered *)
      tasks r !! t = Some tk -> tk_status tk = Running ->
      objs r !! tk_worker tk = Some o -> wk_closed o = false ->
      rstep r (set_status t Finished r)
  | r_die r t tk :
      tasks r !! t = Some tk -> tk_status tk = Running ->
      rstep r (task_dies t r)
  | r_callback r t tk o :
      t ∈ callbacks r -> tasks r !! t = Some tk -> objs r !! tk_worker tk = Some o ->
      rstep r (_on_drain_done t (tk_worker tk) o r)
  | r_close_task r w :
      w ∈ closing r -> rstep r (mark_closed w r).

(** ** The invariant *)

(** Task [t] is the task of worker [w], and [w] is registered. *)
Definition attached (r : registry) (t w : nat) : Prop :=
  exists o, objs r !! w = Some o /\ wk_task o = Some t /\ _workers r !! wk_session o = Some w.

Record rinv (r : registry) : Prop := {
  (** a live task belongs to a registered worker that knows it *)
  inv_live : forall t tk, tasks r !! t = Some tk -> tk_status tk = Running -> attached r t (tk_worker tk);
  (** so does a dead one until its callback has run *)
  inv_dead : forall t tk, tasks r !! t = Some tk -> tk_status tk = Failed ->
    t ∈ callbacks r <-> attached r t (tk_worker tk);
  (** the table is consistent with the objects *)
  inv_table : forall sid w, _workers r !! sid = Some w ->
    exists o, objs r !! w = Some o /\ wk_session o = sid
      /\ (forall t, wk_task o = Some t -> exists tk, tasks r !! t = Some tk /\ tk_worker tk = w)
      /\ (wk_closed o = true -> exists t tk, wk_task o = Some t /\ tasks r !! t = Some tk /\ tk_status tk <> Finished);
  (** workers being closed after a death are no longer registered *)
  inv_closing : forall w, w ∈ closing r ->
    w < next_worker r /\ forall sid, _workers r !! sid <> Some w;
  inv_fresh_w : forall w, is_Some (objs r !! w) -> w < next_worker r;
  inv_fresh_t : forall t, is_Some (tasks r !! t) -> t < next_task r;
  inv_callbacks : forall t, t ∈ callbacks r -> exists tk, tasks r !! t = Some tk /\ tk_status tk = Failed;
}.

(** ** Preservation *)

Lemma attached_fun r t w t' w' o o' :
  attached r t w -> attached r t' w' ->
  objs r !! w = Some o -> objs r !! w' = Some o' -> wk_session o = wk_session o' ->
  w = w' /\ t = t'.
Proof.
  intros (a & Ha & Ht & Hw) (b & Hb & Ht' & Hw') Ho Ho' Hs. simplify_eq.
  rewrite Hs in Hw. assert (w = w') by congruence. subst. simplify_eq. done.
Qed.

Lemma attached_of r t w o :
  attached r t w -> objs r !! w = Some o -> wk_task o = Some t /\ _workers r !! wk_session o = Some w.
Proof. intros (a & Ha & Ht & Hw) Ho. by simplify_eq. Qed.

Lemma rinv_empty : rinv empty_registry.
Proof.
  split; simpl; intros *; rewrite ?lookup_empty ?elem_of_nil; try done; by intros [? ?].
Qed.

Lemma attached_mark_closed w r t w' : attached (mark_closed w r) t w' <-> attached r t w'.
Proof.
  unfold mark_closed, attached. destruct (objs r !! w) as [o|] eqn:Ho; [|done]. simpl.
  destruct (decide (w' = w)) as [->|Hne].
  - rewrite lookup_insert_eq Ho. split; intros (a & [= <-] & ? & ?); eauto.
  - by rewrite lookup_insert_ne.
Qed.

Lemma rinv_mark_closed w r :
  rinv r ->
  (forall sid, _workers r !! sid = Some w -> exists t tk o,
     objs r !! w = Some o /\ wk_task o = Some t /\ tasks r !! t = Some tk /\ tk_status tk <> Finished) ->
  rinv (mark_closed w r).
Proof.
  intros [L D T C Fw Ft B] Hreg.
  assert (Hf : _workers (mark_closed w r) = _workers r /\ tasks (mark_closed w r) = tasks r
    /\ callbacks (mark_closed w r) = callbacks r /\ closing (mark_closed w r) = closing r
    /\ next_worker (mark_closed w r) = next_worker r /\ next_task (mark_closed w r) = next_task r)
    by (unfold mark_closed; destruct (objs r !! w); done).
  destruct Hf as (E1 & E2 & E3 & E4 & E5 & E6).
  split; rewrite ?E1 ?E2 ?E3 ?E4 ?E5 ?E6; try done.
  - intros. rewrite attached_mark_closed. eauto.
  - intros. rewrite attached_mark_closed. eauto.
  - intros sid w' Hw'. destruct (T _ _ Hw') as (o & Ho & Hs & Hk & Hc).
    unfold mark_closed. destruct (objs r !! w) as [ow|] eqn:How; [|by eauto 6]. simpl.
    destruct (decide (w' = w)) as [->|Hne].
    + rewrite lookup_insert_eq. eexists; split; [done|]. simplify_eq. simpl.
      split; [done|]. split; [done|]. intros _.
      destruct (Hreg _ Hw') as (t & tk & o' & ? & ? & ? & ?). simplify_eq. eauto.
    + rewrite lookup_insert_ne; [|done]. eauto 6.
  - intros w'. unfold mark_closed. destruct (objs r !! w) as [ow|] eqn:How; [|by apply Fw]. simpl.
    destruct (decide (w' = w)) as [->|Hne]; [|rewrite lookup_insert_ne; [|done]; apply Fw].
    intros _. apply Fw. by rewrite How.
Qed.

Lemma lookup_set_status t s r t' :
  tasks (set_status t s r) !! t' =
    if decide (t' = t) then (fun tk => MkTask (tk_worker tk) s) <$> tasks r !! t else tasks r !! t'.
Proof.
  simpl. case_decide; [subst; by rewrite lookup_alter_eq|by rewrite lookup_alter_ne].
Qed.

(** A task ends without touching the table. *)
Lemma rinv_return t tk o r :
  rinv r -> tasks r !! t = Some tk -> tk_status tk = Running ->
  objs r !! tk_worker tk = Some o -> wk_closed o = false ->
  rinv (set_status t Finished r).
Proof.
  intros [L D T C Fw Ft B] Ht Hs Ho Hc.
  split; try done.
  - intros t' tk'. rewrite lookup_set_status. case_decide; [rewrite Ht; simpl; by intros [= <-]|apply L].
  - intros t' tk'. rewrite lookup_set_status. case_decide; [rewrite Ht; simpl; by intros [= <-]|apply D].
  - intros sid w Hw. destruct (T _ _ Hw) as (o' & Ho' & Hse & Hk & Hcl).
    exists o'. split_and!; [done|done| |].
    + intros t' Ht'. destruct (Hk _ Ht') as (tk' & E & Ew). rewrite lookup_set_status.
      case_decide; [subst; rewrite E; simpl; eauto|eauto].
    + intros Hc'. destruct (Hcl Hc') as (t' & tk' & E1 & E2 & E3). exists t', tk'.
      rewrite lookup_set_status. case_decide; [|done]. subst t'.
      destruct (Hk _ E1) as (tk'' & Et & Ew). exfalso. congruence.
  - intros t'. rewrite lookup_set_status. case_decide; [subst; rewrite Ht; intros _; apply Ft; eauto|apply Ft].
  - intros t' Hin. destruct (B _ Hin) as (tk' & E & Es). rewrite lookup_set_status.
    case_decide; [subst; congruence|eauto].
Qed.

(** A task dies: its callback is scheduled. *)
Lemma rinv_die t tk r :
  rinv r -> tasks r !! t = Some tk -> tk_status tk = Running ->
  rinv (task_dies t r).
Proof.
  intros [L D T C Fw Ft B] Ht Hs.
  assert (HA : attached r t (tk_worker tk)) by eauto.
  set (r' := task_dies t r).
  assert (Ha : forall t' w, attached r' t' w <-> attached r t' w) by done.
  assert (Hl : forall t', tasks r' !! t' = if decide (t' = t) then Some (MkTask (tk_worker tk) Failed) else tasks r !! t').
  { intros t'. pose proof (lookup_set_status t Failed r t') as E. rewrite Ht in E. exact E. }
  split; try done.
  - intros t' tk'. rewrite Hl Ha. case_decide; [by intros [= <-]|apply L].
  - intros t' tk'. rewrite Hl Ha. simpl. rewrite elem_of_cons.
    case_decide; [subst; intros [= <-] _; simpl; tauto|]. intros. rewrite -D; [tauto|done|done].
  - intros sid w Hw. destruct (T _ _ Hw) as (o' & Ho' & Hse & Hk & Hcl).
    exists o'. split_and!; [done|done| |].
    + intros t' Ht'. destruct (Hk _ Ht') as (tk' & E & Ew). rewrite Hl.
      case_decide; [subst; simplify_eq; eauto|eauto].
    + intros Hc'. destruct (Hcl Hc') as (t' & tk' & E1 & E2 & E3). exists t'. rewrite Hl.
      case_decide; eauto.
  - intros t'. rewrite Hl. case_decide; [subst; intros _; apply Ft; eauto|apply Ft].
  - intros t' Hin. rewrite Hl. case_decide; [eauto|]. apply B. simpl in Hin.
    apply elem_of_cons in Hin as [|]; [done|done].
Qed.

(** The table entry of task [t]'s worker is dropped, and only that task is detached. *)
Lemma attached_deregister r t tk o t' w' :
  rinv r -> tasks r !! t = Some tk -> attached r t (tk_worker tk) -> objs r !! tk_worker tk = Some o ->
  attached (_deregister (wk_session o) r) t' w' <-> attached r t' w' /\ t' <> t.
Proof.
  intros I Htk HA Ho. split.
  - intros (a & Ha & Ht & Hw). simpl in *. apply lookup_delete_Some in Hw as [Hne Hw].
    split; [by exists a|]. intros ->.
    destruct (inv_table _ I _ _ Hw) as (o' & Ho' & _ & Hk & _). rewrite Ha in Ho'. injection Ho' as <-.
    destruct (Hk _ Ht) as (tk' & E & Ew). congruence.
  - intros [HA' Hne]. pose proof HA' as (a & Ha & Ht & Hw). exists a. simpl. split_and!; [done|done|].
    apply lookup_delete_Some. split; [|done]. intros Hs. apply Hne. symmetry.
    by eapply (attached_fun r t (tk_worker tk) t' w').
Qed.

Lemma rinv_deregister_table r t tk o :
  rinv r -> tasks r !! t = Some tk -> attached r t (tk_worker tk) -> objs r !! tk_worker tk = Some o ->
  (forall sid w, _workers (_deregister (wk_session o) r) !! sid = Some w ->
     _workers r !! sid = Some w /\ w <> tk_worker tk)
  /\ (forall w o', _workers r !! wk_session o' = Some w -> objs r !! w = Some o' ->
       wk_task o' = Some t -> w = tk_worker tk).
Proof.
  intros I Ht HA Ho. pose proof (attached_of _ _ _ _ HA Ho) as [HA1 HA2]. split.
  - simpl. intros sid w [Hne Hw]%lookup_delete_Some. split; [done|]. intros ->.
    destruct (inv_table _ I _ _ Hw) as (o' & Ho' & Hs & _). congruence.
  - intros w o' Hw Ho' Hto. destruct (inv_table _ I _ _ Hw) as (o'' & Ho'' & _ & Hk & _).
    simplify_eq. destruct (Hk _ Hto) as (tk' & E & Ew). congruence.
Qed.

(** The task closed its store, deregistered and returned. *)
Lemma rinv_finish t tk o r :
  rinv r -> tasks r !! t = Some tk -> tk_status tk = Running -> objs r !! tk_worker tk = Some o ->
  rinv (set_status t Finished (_deregister (wk_session o) r)).
Proof.
  intros I Ht Hs Ho. pose proof I as [L D T C Fw Ft B].
  assert (HA : attached r t (tk_worker tk)) by eauto.
  destruct (rinv_deregister_table _ _ _ _ I Ht HA Ho) as [HT HW].
  assert (Ha : forall t' w, attached (set_status t Finished (_deregister (wk_session o) r)) t' w
                <-> attached r t' w /\ t' <> t).
  { intros t' w. exact (attached_deregister r t tk o t' w I Ht HA Ho). }
  split; try done.
  - intros t' tk'. rewrite Ha lookup_set_status. case_decide; [simpl; rewrite Ht; simpl; by intros [= <-]|].
    intros. split; [by apply L|done].
  - intros t' tk'. rewrite Ha lookup_set_status. case_decide; [simpl; rewrite Ht; simpl; by intros [= <-]|].
    intros Ht' Hs'. simpl in *. rewrite (D t' tk' Ht' Hs'). tauto.
  - intros sid w Hw. destruct (HT _ _ Hw) as [Hw' Hne].
    destruct (T _ _ Hw') as (o' & Ho' & Hse & Hk & Hcl). exists o'.
    assert (Hnt : wk_task o' <> Some t).
    { intros E. apply Hne. apply (HW _ o'); [by rewrite Hse|done|done]. }
    split_and!; [done|done| |].
    + intros t' Ht'. rewrite lookup_set_status. case_decide; [congruence|]. by apply Hk.
    + intros Hc. destruct (Hcl Hc) as (t' & tk' & E1 & E2 & E3). exists t', tk'.
      rewrite lookup_set_status. case_decide; [congruence|done].
  - intros w Hin. destruct (C _ Hin) as [Hlt Hn]. split; [done|].
    intros sid Hw. destruct (HT _ _ Hw) as [Hw' _]. by eapply Hn.
  - intros t'. rewrite lookup_set_status. case_decide; [subst; intros _; apply Ft; eauto|apply Ft].
  - intros t' Hin. destruct (B _ Hin) as (tk' & E & Es). rewrite lookup_set_status.
    case_decide; [subst; congruence|eauto].
Qed.

(** The done-callback of a dead task. *)
Lemma rinv_callback t tk o r :
  rinv r -> t ∈ callbacks r -> tasks r !! t = Some tk -> objs r !! tk_worker tk = Some o ->
  rinv (_on_drain_done t (tk_worker tk) o r).
Proof.
  intros I Hin Ht Ho. pose proof I as [L D T C Fw Ft B].
  destruct (B _ Hin) as (tk0 & Ht0 & Hs). rewrite Ht in Ht0. injection Ht0 as <-.
  assert (HA : attached r t (tk_worker tk)) by (by apply D).
  destruct (rinv_deregister_table _ _ _ _ I Ht HA Ho) as [HT HW].
  assert (Ha : forall t' w, attached (_on_drain_done t (tk_worker tk) o r) t' w
                <-> attached r t' w /\ t' <> t).
  { intros t' w. exact (attached_deregister r t tk o t' w I Ht HA Ho). }
  split; try done.
  - intros t' tk' Ht' Hs'. apply Ha. split; [by apply L|]. intros ->. simpl in Ht'. congruence.
  - intros t' tk' Ht' Hs'. rewrite Ha. simpl. rewrite list_elem_of_filter (D t' tk' Ht' Hs'). tauto.
  - intros sid w Hw. destruct (HT _ _ Hw) as [Hw' Hne]. exact (T _ _ Hw').
  - intros w. simpl. rewrite elem_of_cons. intros [->|Hw].
    + split; [apply Fw; eauto|]. intros sid Hw. destruct (HT _ _ Hw) as [_ Hne]. done.
    + destruct (C _ Hw) as [Hlt Hn]. split; [done|]. intros sid Hs'. destruct (HT _ _ Hs') as [Hs2 _].
      by eapply Hn.
  - intros t'. simpl. rewrite list_elem_of_filter. intros [_ Hin']. by apply B.
Qed.

(** No task of a worker without a running or dead one is attached. *)
Lemma attached_spawn w o r t' w' :
  _workers r !! wk_session o = Some w ->
  attached (spawn w o r) t' w' <-> (w' = w /\ t' = next_task r) \/ (w' <> w /\ attached r t' w').
Proof.
  intros Hw. unfold attached. simpl. destruct (decide (w' = w)) as [->|Hne].
  - rewrite lookup_insert_eq. split.
    + intros (a & [= <-] & [= <-] & _). auto.
    + intros [[_ ->]|[? _]]; [|done]. eexists; split_and!; [done|done|done].
  - rewrite lookup_insert_ne; [|done]. split; [auto|intros [[? _]|[_ ?]]; done].
Qed.

Lemma rinv_spawn w o r :
  rinv r -> _workers r !! wk_session o = Some w -> objs r !! w = Some o -> wk_closed o = false ->
  (forall t, wk_task o = Some t -> exists tk, tasks r !! t = Some tk /\ tk_status tk = Finished) ->
  rinv (spawn w o r).
Proof.
  intros I Hw Ho Hc Hfin. pose proof I as [L D T C Fw Ft B].
  assert (Hnew : tasks r !! next_task r = None).
  { destruct (tasks r !! next_task r) eqn:E; [|done].
    assert (next_task r < next_task r) by (apply Ft; eauto). lia. }
  assert (Hother : forall t tk, tasks r !! t = Some tk -> tk_status tk <> Finished ->
            attached r t (tk_worker tk) -> tk_worker tk <> w).
  { intros t tk Ht Hs (a & Ha & Hta & _) E0. rewrite E0 Ho in Ha. injection Ha as <-.
    destruct (Hfin _ Hta) as (tk' & E & Es). congruence. }
  split.
  - intros t tk. rewrite attached_spawn; [|done]. simpl.
    destruct (decide (t = next_task r)) as [->|Hne].
    + rewrite lookup_insert_eq. intros [= <-] _. auto.
    + rewrite lookup_insert_ne; [|done]. intros Ht Hs. right. pose proof (L _ _ Ht Hs).
      split; [|done]. eapply Hother; [done| |done]. by rewrite Hs.
  - intros t tk. rewrite attached_spawn; [|done]. simpl.
    destruct (decide (t = next_task r)) as [->|Hne].
    + rewrite lookup_insert_eq. by intros [= <-].
    + rewrite lookup_insert_ne; [|done]. intros Ht Hs. rewrite (D _ _ Ht Hs). split.
      * intros HA. right. split; [|done]. eapply Hother; [done| |done]. by rewrite Hs.
      * intros [[_ ?]|[_ ?]]; done.
  - simpl. intros sid w' Hw'. destruct (T _ _ Hw') as (o' & Ho' & Hse & Hk & Hcl).
    destruct (decide (w' = w)) as [->|Hne].
    + rewrite lookup_insert_eq. simplify_eq. eexists; split_and!; [done|done| |simpl; congruence].
      simpl. intros t [= <-]. rewrite lookup_insert_eq. eauto.
    + rewrite lookup_insert_ne; [|done]. exists o'. split_and!; [done|done| |].
      * intros t Ht. destruct (Hk _ Ht) as (tk & E & Ew). rewrite lookup_insert_ne; [eauto|congruence].
      * intros Hcl'. destruct (Hcl Hcl') as (t & tk & E1 & E2 & E3). exists t, tk.
        rewrite lookup_insert_ne; [done|congruence].
  - exact C.
  - simpl. intros w' [a Ha]. destruct (decide (w' = w)) as [->|Hne]; [apply Fw; eauto|].
    rewrite lookup_insert_ne in Ha; [|done]. apply Fw; eauto.
  - simpl. intros t [a Ha]. destruct (decide (t = next_task r)) as [->|Hne]; [lia|].
    rewrite lookup_insert_ne in Ha; [|done]. assert (t < next_task r) by (apply Ft; eauto). lia.
  - simpl. intros t Hin. destruct (B _ Hin) as (tk & E & Es). exists tk.
    rewrite lookup_insert_ne; [done|congruence].
Qed.

Lemma rinv_start_drain sid w r :
  rinv r -> _workers r !! sid = Some w -> rinv (start_drain w r).
Proof.
  intros I Hw. destruct (inv_table _ I _ _ Hw) as (o & Ho & Hs & Hk & _).
  unfold start_drain. rewrite Ho. destruct (wk_closed o) eqn:Hc; [done|].
  rewrite -Hs in Hw.
  destruct (wk_task o) as [t|] eqn:Ht; [|apply rinv_spawn; congruence].
  destruct (Hk _ eq_refl) as (tk & E & Ew). rewrite E.
  unfold task_done, _task_failure. repeat case_bool_decide; simpl; try done.
  apply rinv_spawn; [done..|]. intros t' Ht'. exists tk. split; [congruence|].
  by destruct (tk_status tk).
Qed.

(** A new worker is registered without a task. *)
Definition register_new (sid : string) (r : registry) : registry :=
  MkReg (<[sid := next_worker r]> (_workers r)) (<[next_worker r := MkWorker sid None false]> (objs r))
    (tasks r) (callbacks r) (closing r) (S (next_worker r)) (next_task r).

Lemma rinv_register sid r : rinv r -> _workers r !! sid = None -> rinv (register_new sid r).
Proof.
  intros I Hsid. pose proof I as [L D T C Fw Ft B].
  assert (Hnew : forall w, _workers r !! sid <> Some w) by (intros; congruence).
  assert (Hfresh : objs r !! next_worker r = None).
  { destruct (objs r !! next_worker r) eqn:E; [|done].
    assert (next_worker r < next_worker r) by (apply Fw; eauto). lia. }
  assert (Ha : forall t w, attached (register_new sid r) t w <-> attached r t w).
  { intros t w. unfold attached. simpl. destruct (decide (w = next_worker r)) as [->|Hne].
    - rewrite lookup_insert_eq Hfresh. split; [by intros (a & [= <-] & ? & _)|by intros (a & ? & _)].
    - rewrite lookup_insert_ne; [|done].
      split; intros (a & ? & ? & Hl); exists a; (split_and!; [done|done|]).
      + destruct (decide (wk_session a = sid)) as [E|]; [|by rewrite lookup_insert_ne in Hl].
        rewrite E lookup_insert_eq in Hl. congruence.
      + rewrite lookup_insert_ne; [done|]. intros ->. congruence. }
  split; try done.
  - intros t tk. rewrite Ha. apply L.
  - intros t tk. rewrite Ha. apply D.
  - simpl. intros sid' w. destruct (decide (sid' = sid)) as [->|Hne].
    + rewrite lookup_insert_eq. intros [= <-]. rewrite lookup_insert_eq. by eexists; split_and!.
    + rewrite lookup_insert_ne; [|done]. intros Hw. destruct (T _ _ Hw) as (o & Ho & ?).
      rewrite lookup_insert_ne; [eauto|congruence].
  - simpl. intros w Hw. destruct (C _ Hw) as [Hlt Hn]. split; [lia|].
    intros sid'. destruct (decide (sid' = sid)) as [->|Hne].
    + rewrite lookup_insert_eq. intros [= ?]. lia.
    + rewrite lookup_insert_ne; [apply Hn|done].
  - simpl. intros w [a Ha']. destruct (decide (w = next_worker r)) as [->|Hne]; [lia|].
    rewrite lookup_insert_ne in Ha'; [|done]. assert (w < next_worker r) by (apply Fw; eauto). lia.
Qed.

Lemma rinv_get_or_create sid r : rinv r -> rinv (get_or_create sid r).
Proof.
  intros I. unfold get_or_create. destruct (_workers r !! sid) as [w|] eqn:Hw.
  - by eapply rinv_start_drain.
  - eapply (rinv_start_drain sid (next_worker r) (register_new sid r)); [by apply rinv_register|].
    apply lookup_insert_eq.
Qed.

Lemma rinv_step r r' : rinv r -> rstep r r' -> rinv r'.
Proof.
  intros I. destruct 1 as [r sid|r t tk Ht Hs|r t tk o Ht Hs Ho Hc|r t tk o Ht Hs Ho Hc|r t tk Ht Hs
                          |r t tk o Hin Ht Ho|r w Hin].
  - by apply rinv_get_or_create.
  - apply rinv_mark_closed; [done|]. intros sid Hw.
    destruct (inv_live _ I _ _ Ht Hs) as (o & Ho & Hto & _). exists t, tk, o.
    split_and!; [done..|congruence].
  - by eapply rinv_finish.
  - by eapply rinv_return.
  - by eapply rinv_die.
  - by eapply rinv_callback.
  - apply rinv_mark_closed; [done|]. intros sid Hw. by destruct (inv_closing _ I _ Hin) as [_ []%(fun H => H sid)].
Qed.

Lemma rinv_reachable r : rtc rstep empty_registry r -> rinv r.
Proof.
  apply (rtc_ind_r (R := rstep) rinv); [apply rinv_empty|]. intros r1 r2 _ Hs I. by eapply rinv_step.
Qed.

(** ** What supervision guarantees *)

(** Whether a session has a drainer, or one whose teardown is scheduled. *)
Definition drained_by (r : registry) (sid : string) (t w : nat) : Prop :=
  _workers r !! sid = Some w /\ attached r t w
  /\ exists tk, tasks r !! t = Some tk /\ tk_worker tk = w
       /\ (tk_status tk = Running \/ tk_status tk = Failed /\ t ∈ callbacks r).

Lemma running_or_dead r t tk w :
  rinv r -> tasks r !! t = Some tk -> tk_worker tk = w -> attached r t w -> tk_status tk <> Finished ->
  tk_status tk = Running \/ tk_status tk = Failed /\ t ∈ callbacks r.
Proof.
  intros I Ht <- HA Hs. destruct (tk_status tk) eqn:E; [by left|done|].
  right. split; [done|]. by apply (inv_dead _ I _ _ Ht E).
Qed.

Lemma start_drain_drains sid w r :
  rinv r -> _workers r !! sid = Some w -> exists t, drained_by (start_drain w r) sid t w.
Proof.
  intros I Hw. pose proof (inv_table _ I _ _ Hw) as (o & Ho & Hs & Hk & Hcl).
  assert (Hatt : forall t, wk_task o = Some t -> attached r t w).
  { intros t Ht. exists o. split_and!; [done|done|by rewrite Hs]. }
  assert (Hspawn : drained_by (spawn w o r) sid (next_task r) w).
  { split; [done|]. split; [apply attached_spawn; [by rewrite Hs|by left]|].
    eexists. simpl. rewrite lookup_insert_eq. split_and!; [done|done|by left]. }
  unfold start_drain. rewrite Ho. destruct (wk_closed o) eqn:Hc.
  { destruct (Hcl eq_refl) as (t & tk & E1 & E2 & E3). exists t. split; [done|].
    destruct (Hk _ E1) as (tk' & E & Ew). rewrite E2 in E. injection E as <-.
    split; [by apply Hatt|]. exists tk. split_and!; [done..|]. by eapply running_or_dead; eauto. }
  destruct (wk_task o) as [t|] eqn:Ht; [|by eauto].
  destruct (Hk _ eq_refl) as (tk & E & Ew). rewrite E. unfold task_done, _task_failure.
  repeat case_bool_decide; simpl; [by destruct (tk_status tk)| | |by eauto].
  all: exists t; split; [done|]; split; [by apply Hatt|]; exists tk; split_and!; [done..|];
    eapply running_or_dead; eauto; congruence.
Qed.

(** C30: a session never has two drainers.  In every state the server can reach,
    a live drain task belongs to the worker the registry holds for its session
    and is the task that worker records; two live tasks of one session are the
    same task, and no worker that is being closed after a death is still
    registered. *)
Theorem single_drainer (r : registry) :
  rtc rstep empty_registry r ->
  (forall t tk, tasks r !! t = Some tk -> tk_status tk = Running -> attached r t (tk_worker tk))
  /\ (forall t t' tk tk' o o',
       tasks r !! t = Some tk -> tk_status tk = Running -> objs r !! tk_worker tk = Some o ->
       tasks r !! t' = Some tk' -> tk_status tk' = Running -> objs r !! tk_worker tk' = Some o' ->
       wk_session o = wk_session o' -> t = t')
  /\ (forall w, w ∈ closing r -> forall sid, _workers r !! sid <> Some w).
Proof.
  intros I%rinv_reachable. split; [apply I|]. split.
  - intros t t' tk tk' o o' Ht Hs Ho Ht' Hs' Ho' E.
    by eapply (attached_fun r t (tk_worker tk) t' (tk_worker tk')); eauto; apply I.
  - intros w Hw. by destruct (inv_closing _ I _ Hw).
Qed.

(** An accepted event never waits on nobody.  After the ingest path's
    [get_or_create], the session's registered worker has a task that is running,
    or that died and whose done-callback is scheduled; and once that callback
    has run, the next [get_or_create] starts a running task on a worker whose
    store is open. *)
Theorem ingest_finds_drainer (r : registry) (sid : string) :
  rtc rstep empty_registry r ->
  exists t w, drained_by (get_or_create sid r) sid t w
    /\ (t ∈ callbacks (get_or_create sid r) -> exists o,
          objs (get_or_create sid r) !! w = Some o
          /\ let r' := get_or_create sid (_on_drain_done t w o (get_or_create sid r)) in
             exists t' w' o', _workers r' !! sid = Some w' /\ objs r' !! w' = Some o'
               /\ wk_task o' = Some t' /\ wk_closed o' = false
               /\ tasks r' !! t' = Some (MkTask w' Running)).
Proof.
  intros I%rinv_reachable.
  assert (exists t w, drained_by (get_or_create sid r) sid t w) as (t & w & H).
  { unfold get_or_create. destruct (_workers r !! sid) as [w|] eqn:Hw.
    - destruct (start_drain_drains _ _ _ I Hw) as [t Ht]. eauto.
    - destruct (start_drain_drains sid (next_worker r) (register_new sid r)) as [t Ht];
        [by apply rinv_register|apply lookup_insert_eq|]. eauto. }
  exists t, w. split; [done|]. intros _. destruct H as (Hw & (o & Ho & Hto & Hreg) & _).
  exists o. split; [done|].
  destruct (inv_table _ (rinv_get_or_create sid r I) _ _ Hw) as (o2 & Ho2 & Hs & _).
  rewrite Ho in Ho2. injection Ho2 as <-.
  cbv zeta. generalize (get_or_create sid r). intros r0. unfold get_or_create, _on_drain_done. simpl.
  rewrite Hs lookup_delete_eq. unfold start_drain. simpl. rewrite lookup_insert_eq. simpl.
  exists (next_task r0), (next_worker r0). eexists. rewrite !lookup_insert_eq. by split_and!.
Qed.


Lemma single_drainer_witness :
  let r := get_or_create "s" empty_registry in
  (forall w, w ∈ closing r -> forall sid, _workers r !! sid <> Some w)
  /\ attached r 0 0.
Proof.
  assert (H : rtc rstep empty_registry (get_or_create "s" empty_registry))
    by (apply rtc_once, r_ingest).
  split; [exact (proj2 (proj2 (single_drainer _ H)))|].
  exact (proj1 (single_drainer _ H) 0 (MkTask 0 Running) eq_refl eq_refl).
Defined.

Lemma ingest_finds_drainer_witness :
  exists t w, drained_by (get_or_create "s" empty_registry) "s" t w.
Proof.
  destruct (ingest_finds_drainer empty_registry "s" (rtc_refl _ _)) as (t & w & H & _). eauto.
Defined.

(** A death, its callback and the next event: a second worker takes over. *)
Example revival :
  let r1 := task_dies 0 (get_or_create "s" empty_registry) in
  let r2 := _on_drain_done 0 0 (MkWorker "s" (Some 0) false) r1 in
  let r3 := get_or_create "s" (mark_closed 0 r2) in
  rtc rstep empty_registry r3
  /\ _workers (get_or_create "s" r1) !! "s" = Some 0
  /\ _workers r3 !! "s" = Some 1 /\ tasks r3 !! 1 = Some (MkTask 1 Running).
Proof.
  split; [|vm_compute; done].
  eapply rtc_l; [apply (r_ingest _ "s")|].
  eapply rtc_l; [eapply (r_die _ 0); vm_compute; reflexivity|].
  eapply rtc_l; [eapply (r_callback _ 0 (MkTask 0 Failed)); [left|vm_compute; reflexivity..]|].
  eapply rtc_l; [apply (r_close_task _ 0); left|].
  apply rtc_once, (r_ingest _ "s").
Qed.

(** [remove] pops the entry while the cancelled task still runs: an event in
    between starts a second drainer, and the first one's cancellation handler,
    which deregisters by session id, then drops the second one's entry. *)
Example remove_breaks_single_drainer :
  let r1 := get_or_create "s" (remove "s" (get_or_create "s" empty_registry)) in
  tasks r1 !! 0 = Some (MkTask 0 Running) /\ tasks r1 !! 1 = Some (MkTask 1 Running)
  /\ _workers r1 !! "s" = Some 1
  /\ _workers (set_status 0 Finished (_deregister "s" (mark_closed 0 r1))) !! "s" = None.
Proof. vm_compute. done. Qed.
