(* ===== verification/RegistryMetrics.v ===== *)
(** * Flush gate and conservation counters ([registry.py], [routers/queues.py])

    Module [Gate] is [LiveFirstFlushGate]: a counting permit in which queued live
    writers outrank recovery writers.  [asyncio.Condition] gives each entry and
    exit of [acquire] its critical section, so arriving, being admitted, giving
    up and releasing are single steps; which waiter is woken when is left open.

    Module [Counters] is the block of conservation counters and the health
    verdict [pipeline_metrics] derives from it. *)
From stdpp Require Import ssreflect base list relations.
From Stdlib Require Import ZArith Lia.
From S2P Require Import Prelude.

#[local] Open Scope list_scope.

Module Gate.

Record LiveFirstFlushGate := MkGate { _capacity : nat; _active : nat; _live_waiters : nat }.

Definition new_gate (capacity : nat) : LiveFirstFlushGate := MkGate capacity 0 0.

(** [acquire] up to its [wait_for]. *)
Definition arrive (recovery : bool) (g : LiveFirstFlushGate) : LiveFirstFlushGate :=
  if recovery then g else MkGate (_capacity g) (_active g) (S (_live_waiters g)).
(** The predicate of [wait_for]. *)
Definition may_enter (recovery : bool) (g : LiveFirstFlushGate) : bool :=
  (_active g <? _capacity g) && (negb recovery || (_live_waiters g =? 0)).
(** The [finally] of the wait: reached by an admission and by a cancellation. *)
Definition stop_waiting (recovery : bool) (g : LiveFirstFlushGate) : LiveFirstFlushGate :=
  if recovery then g else MkGate (_capacity g) (_active g) (pred (_live_waiters g)).
Definition enter (recovery : bool) (g : LiveFirstFlushGate) : LiveFirstFlushGate :=
  stop_waiting recovery (MkGate (_capacity g) (S (_active g)) (_live_waiters g)).
Definition leave (g : LiveFirstFlushGate) : LiveFirstFlushGate :=
  MkGate (_capacity g) (pred (_active g)) (_live_waiters g).

(** The gate with the coroutines inside [acquire]: the ones waiting (with their
    class) and the ones flushing. *)
Record sys := MkSys { gate : LiveFirstFlushGate; waiting : list (nat * bool); flushing : list (nat * bool) }.

Inductive step : sys -> sys -> Prop :=
  | s_arrive g ws fs i rec :
      step (MkSys g ws fs) (MkSys (arrive rec g) ((i, rec) :: ws) fs)
  | s_enter g ws1 ws2 fs i rec :
      may_enter rec g = true ->
      step (MkSys g (ws1 ++ (i, rec) :: ws2) fs) (MkSys (enter rec g) (ws1 ++ ws2) ((i, rec) :: fs))
  | s_cancel g ws1 ws2 fs i rec :
      step (MkSys g (ws1 ++ (i, rec) :: ws2) fs) (MkSys (stop_waiting rec g) (ws1 ++ ws2) fs)
  | s_leave g ws fs1 fs2 i rec :
      step (MkSys g ws (fs1 ++ (i, rec) :: fs2)) (MkSys (leave g) ws (fs1 ++ fs2)).

Definition live (p : nat * bool) : Prop := p.2 = false.
#[export] Instance live_dec p : Decision (live p).
Proof. unfold live. apply _. Defined.

(** The counters count what they are named after, and permits are bounded. *)
Definition ok (c : nat) (s : sys) : Prop :=
  _capacity (gate s) = c /\ _active (gate s) = length (flushing s)
  /\ _live_waiters (gate s) = length (filter live (waiting s)) /\ _active (gate s) <= c.

Lemma live_middle (ws1 ws2 : list (nat * bool)) i rec :
  length (filter live (ws1 ++ (i, rec) :: ws2))
  = (if rec then 0 else 1) + length (filter live (ws1 ++ ws2)).
Proof.
  rewrite !filter_app filter_cons. unfold live at 2. simpl.
  destruct rec; case_decide; simplify_eq/=; rewrite !length_app; simpl; lia.
Qed.

Lemma ok_step c s s' : step s s' -> ok c s -> ok c s'.
Proof.
  unfold ok. destruct 1 as [g ws fs i [|]|g ws1 ws2 fs i rec Hm|g ws1 ws2 fs i rec|g ws fs1 fs2 i rec];
    cbn [gate waiting flushing]; intros (Hc & Ha & Hl & Hb).
  - pose proof (live_middle [] ws i true). simpl in *. lia.
  - pose proof (live_middle [] ws i false). simpl in *. lia.
  - apply andb_true_iff in Hm as [Hm%Nat.ltb_lt _]. rewrite live_middle in Hl.
    destruct rec; simpl in *; lia.
  - rewrite live_middle in Hl. destruct rec; simpl in *; lia.
  - rewrite !length_app in Ha |- *. simpl in *. lia.
Qed.

Lemma ok_reachable c s : rtc step (MkSys (new_gate c) [] []) s -> ok c s.
Proof.
  apply (rtc_ind_r (R := step) (ok c)); [unfold ok; simpl; lia|].
  intros s1 s2 _ Hs. by apply ok_step.
Qed.

(** The flush gate bounds concurrency and puts live writers first.  In every
    reachable state at most [capacity] coroutines flush at once; while a live
    writer waits no recovery writer can be admitted; and the gate never wedges:
    with a free permit, a waiting live writer may enter, and so may a recovery
    writer when no live writer waits. *)
Theorem flush_gate_live_first (c : nat) (s : sys) :
  rtc step (MkSys (new_gate c) [] []) s ->
  length (flushing s) <= c
  /\ (forall i, (i, false) ∈ waiting s -> may_enter true (gate s) = false)
  /\ (length (flushing s) < c ->
      (forall i, (i, false) ∈ waiting s -> may_enter false (gate s) = true)
      /\ (Forall (fun p => p.2 = true) (waiting s) -> may_enter true (gate s) = true)).
Proof.
  intros (Hc & Ha & Hl & Hb)%ok_reachable. unfold may_enter. split; [lia|]. split.
  - intros i Hi. apply andb_false_iff. right. apply Nat.eqb_neq.
    assert (Hin : (i, false) ∈ filter live (waiting s)) by by apply list_elem_of_filter.
    destruct (filter live (waiting s)); [by apply elem_of_nil in Hin|simpl in Hl; lia].
  - intros Hlt. rewrite Hc Ha. rewrite (proj2 (Nat.ltb_lt _ _) Hlt). split; [done|].
    intros Hall. simpl. apply Nat.eqb_eq. rewrite Hl.
    clear Hl. induction Hall as [|[j b] l Hb' _ IH]; [done|].
    rewrite filter_cons_False; [done|unfold live; simpl in *; by rewrite Hb'].
Qed.

Lemma flush_gate_live_first_witness :
  let s := MkSys (MkGate 1 1 1) [(2, false); (1, true)] [(0, true)] in
  rtc step (MkSys (new_gate 1) [] []) s /\ may_enter true (gate s) = false.
Proof.
  assert (H : rtc step (MkSys (new_gate 1) [] []) (MkSys (MkGate 1 1 1) [(2, false); (1, true)] [(0, true)])).
  { eapply rtc_l; [apply (s_arrive _ _ _ 0 true)|].
    eapply rtc_l; [apply (s_enter _ [] []); reflexivity|].
    eapply rtc_l; [apply (s_arrive _ _ _ 1 true)|].
    apply rtc_once. exact (s_arrive (MkGate 1 1 0) [(1, true)] [(0, true)] 2 false). }
  split; [exact H|].
  apply (proj1 (proj2 (flush_gate_live_first 1 _ H)) 2). left.
Defined.
End Gate.

Module Counters.

#[local] Open Scope Z_scope.

Record t := MkCounters {
  _accepted_total : Z; _written_total : Z; _replayed_total : Z; _write_retries_total : Z;
  _residual_positive_since : option Z;   (** [time.monotonic()], in nanoseconds *)
}.

Definition new_counters : t := MkCounters 0 0 0 0 None.

Definition record_accepted (n : Z) (c : t) : t :=
  MkCounters (_accepted_total c + n) (_written_total c) (_replayed_total c) (_write_retries_total c)
    (_residual_positive_since c).
Definition record_written (n : Z) (c : t) : t :=
  MkCounters (_accepted_total c) (_written_total c + n) (_replayed_total c) (_write_retries_total c)
    (_residual_positive_since c).
Definition record_replayed (n : Z) (c : t) : t :=
  MkCounters (_accepted_total c) (_written_total c) (_replayed_total c + n) (_write_retries_total c)
    (_residual_positive_since c).
Definition record_purged (n : Z) (c : t) : t :=
  if n <=? 0 then c
  else MkCounters (Z.max (_written_total c) (_accepted_total c - n)) (_written_total c)
         (_replayed_total c) (_write_retries_total c) (_residual_positive_since c).
Definition seed_counters (accepted written : Z) (c : t) : t :=
  MkCounters (_accepted_total c + accepted) (_written_total c + written) (_replayed_total c)
    (_write_retries_total c) (_residual_positive_since c).

(** 15 seconds *)
Definition _RESIDUAL_DEGRADED_GRACE : Z := 15 * 1000000000.

(** What [QueueManager.derive_all_stats] reports from its cache. *)
Record stats := MkStats { in_queue_total : Z; dead_total : Z; stats_available : bool }.

Record metrics := MkMetrics {
  m_accepted : Z; m_written : Z; m_replayed : Z; m_retries : Z;
  m_in_queue : Z; m_dead : Z; m_residual : option Z; m_degraded : bool; m_available : bool;
}.

Definition residual_of (agg : stats) (c : t) : Z :=
  _accepted_total c - _written_total c - in_queue_total agg - dead_total agg.

Definition pipeline_metrics (agg : stats) (now : Z) (c : t) : metrics * t :=
  let residual := residual_of agg c in
  let lost := if stats_available agg then Z.max 0 residual else 0 in
  let '(since, sustained) :=
    if 0 <? lost
    then let since := match _residual_positive_since c with None => now | Some t0 => t0 end in
         (Some since, _RESIDUAL_DEGRADED_GRACE <=? now - since)
    else (None, false) in
  let degraded := stats_available agg && ((0 <? dead_total agg) || sustained) in
  (MkMetrics (_accepted_total c) (_written_total c) (_replayed_total c) (_write_retries_total c)
     (in_queue_total agg) (dead_total agg)
     (if stats_available agg then Some residual else None) degraded (stats_available agg),
   MkCounters (_accepted_total c) (_written_total c) (_replayed_total c) (_write_retries_total c) since).

(** ** The ledger the counters account for

    Each accepted event is in the queue, written or dead; these are the moves
    the server makes, with the counter each one bumps. *)
Record ledger := MkLedger { counters : t; queued : Z; dead : Z }.

Inductive move : ledger -> ledger -> Prop :=
  | mv_accept c q d : move (MkLedger c q d) (MkLedger (record_accepted 1 c) (q + 1) d)
  | mv_write c q d n : 0 <= n <= q ->
      move (MkLedger c q d) (MkLedger (record_written n c) (q - n) d)
  | mv_dead_letter c q d : 0 < q -> move (MkLedger c q d) (MkLedger c (q - 1) (d + 1))
  | mv_replay c q d : move (MkLedger c q d) (MkLedger (record_replayed d c) (q + d) 0)
  | mv_purge c q d : move (MkLedger c q d) (MkLedger (record_purged d c) q 0).

Definition conserved (l : ledger) : Prop :=
  residual_of (MkStats (queued l) (dead l) true) (counters l) = 0 /\ 0 <= queued l /\ 0 <= dead l.

Lemma conserved_move l l' : move l l' -> conserved l -> conserved l'.
Proof.
  unfold conserved, residual_of. destruct 1; simpl; intros; try lia.
  unfold record_purged. destruct (d <=? 0) eqn:E; [apply Z.leb_le in E|apply Z.leb_gt in E]; simpl; lia.
Qed.

(** The residual is a sound loss signal.  From a baseline seeded with what
    the spool holds, every sequence of accepts, writes, quarantines, replays and
    purges keeps [accepted - written - in_queue - dead] at zero (the clamp of
    [record_purged] never distorts it), so [pipeline_metrics] on exact
    statistics reports residual zero and is degraded exactly when dead letters
    exist, whatever it had latched before. *)
Theorem residual_conserved (in_queue dead0 written now : Z) (l : ledger) :
  0 <= in_queue -> 0 <= dead0 -> 0 <= written ->
  rtc move (MkLedger (seed_counters (written + in_queue + dead0) written new_counters) in_queue dead0) l ->
  let '(m, c') := pipeline_metrics (MkStats (queued l) (dead l) true) now (counters l) in
  m_residual m = Some 0 /\ m_degraded m = (0 <? dead l) /\ _residual_positive_since c' = None.
Proof.
  intros Hq Hd Hw Hr.
  assert (Hc : conserved l).
  { revert Hr. apply (rtc_ind_r (R := move) conserved).
    - unfold conserved, residual_of. simpl. lia.
    - intros l1 l2 _ Hm. by apply conserved_move. }
  destruct Hc as (E & _). unfold pipeline_metrics. cbn [stats_available]. rewrite E. simpl.
  by rewrite orb_false_r.
Qed.

Lemma residual_conserved_witness :
  let l := MkLedger (record_purged 1 (record_accepted 1 (seed_counters 6 3 new_counters))) 3 0 in
  let '(m, _) := pipeline_metrics (MkStats (queued l) (dead l) true) 7 (counters l) in
  m_residual m = Some 0 /\ m_degraded m = false.
Proof.
  assert (H := residual_conserved 2 1 3 7
    (MkLedger (record_purged 1 (record_accepted 1 (seed_counters 6 3 new_counters))) 3 0)).
  assert (Hr : rtc move (MkLedger (seed_counters (3 + 2 + 1) 3 new_counters) 2 1)
    (MkLedger (record_purged 1 (record_accepted 1 (seed_counters 6 3 new_counters))) 3 0)).
  { eapply rtc_l; [apply mv_accept|]. apply rtc_once, mv_purge. }
  specialize (H ltac:(lia) ltac:(lia) ltac:(lia) Hr). cbv zeta.
  destruct (pipeline_metrics _ _ _) as [m c']. exact (conj (proj1 H) (proj1 (proj2 H))).
Defined.

End Counters.
