(* ===== verification/Neo4jStore.v ===== *)
(** * The Neo4j store ([neo4j_store.py])

    The production graph store: an in-memory buffer of node upserts, edge upserts
    and label patches, written to the database by [flush] in bounded chunks, one
    transaction each.

    The queries of [_write_batch] are translated to functions on a database: the
    nodes that carry the universal label [Node], keyed by identity (node id and
    workspace), with labels and properties; and the relationships, keyed by
    endpoints, type and workspace.  [MERGE], [ON CREATE SET], [SET n += map],
    [SET n:L], [REMOVE n:L], [coalesce] and [FOREACH] are read as Cypher defines
    them.  A transaction commits, rolls back, or commits although the driver
    reports an error; the outcomes are a script.  No handler buffers a property
    [node_id] (the lifters reserve it), so identity never changes. *)
From stdpp Require Import base list gmap strings sorting.
From Stdlib Require Import ZArith Lia.
From S2P Require Import Prelude PyText Sha256 Utils Json QueueFiles QueueManager GraphStore DefaultHandler.

#[local] Open Scope string_scope.
#[local] Open Scope list_scope.

(** ** The database *)

Section store.
Context `{!Timestamps}.

(** A property value: JSON, or a [datetime] after temporal conversion. *)
Inductive pval := PJson (j : json) | PDate (d : datetime).

Record dbnode := MkDbNode { n_props : gmap string pval; n_labels : gset string }.
Abbreviation node_key := (string * string)%type.
Abbreviation edge_key := (string * string * string * string)%type.
Record graph := MkDb { db_nodes : gmap node_key dbnode; db_edges : gmap edge_key (gmap string pval) }.

(** ** Properties *)

Definition TEMPORAL_PROPS : list string :=
  ["started_at"; "ended_at"; "occurred_at"; "completed_at"; "last_updated"; "resumed_at";
   "cancelled_at"; "last_loop_iteration_at"; "loop_completed_at"].

(** One property of [_convert_temporal_props]. *)
Definition convert_temporal (key : string) (value : json) : pval :=
  if decide (key ∈ TEMPORAL_PROPS) then
    match value with
    | JStr s => if decide (s = "") then PJson value
                else match fromisoformat s with Some d => PDate d | None => PJson value end
    | _ => PJson value
    end
  else PJson value.
Definition _convert_temporal_props (props : obj) : list (string * pval) :=
  map (fun kv => (kv.1, convert_temporal kv.1 kv.2)) props.

(** [isinstance(item, (str, int, float, bool))] *)
Definition is_primitive (j : json) : bool :=
  match j with JBool _ | JInt _ | JFloat _ | JStr _ => true | _ => false end.

Definition sanitize_value (key : string) (value : pval) : option pval :=
  match value with
  | PDate _ => Some value
  | PJson JNull => None
  | PJson (JStr s) => if bool_decide (s = "") && str_ends_with "_at" key then None else Some value
  | PJson (JBool _) | PJson (JInt _) | PJson (JFloat _) => Some value
  | PJson (JArr l) => if forallb is_primitive l then Some value
                      else Some (PJson (JStr (str_of (json_dumps (JArr l)))))
  | PJson (JObj o) => Some (PJson (JStr (str_of (json_dumps (JObj o)))))
  end.
Definition _sanitize_properties (props : list (string * pval)) : list (string * pval) :=
  omap (fun kv => v ← sanitize_value kv.1 kv.2; Some (kv.1, v)) props.

Definition held_out : list string := ["labels"; "created_by"; "working_dir"; "status_if_absent"].

Definition _build_node_props (data : obj) (workspace : string) : list (string * pval) :=
  let raw := base.filter (fun kv => kv.1 ∉ held_out) data in
  dset "workspace" (PJson (JStr workspace)) (_sanitize_properties (_convert_temporal_props raw)).

Definition _build_edge_props (data : obj) (src dst workspace : string) : list (string * pval) :=
  let edge_props := base.filter (fun kv => kv.1 <> "type" /\ kv.1 <> "created_by") data in
  let props := _sanitize_properties (_convert_temporal_props edge_props) in
  dset "dst_id" (PJson (JStr dst)) (dset "src_id" (PJson (JStr src))
    (dset "workspace" (PJson (JStr workspace)) props)).

(** ** Identifiers *)

(** [_SAFE_IDENTIFIER_RE.match]: Python's [$] also matches before a final
    newline, which Cypher then reads as white space. *)
Definition chop_nl (l : bytes) : bytes :=
  match rev l with b :: l' => if decide (b = nl) then rev l' else l | [] => l end.
Definition _validate_identifier (name : string) : result unit :=
  if label_safe (chop_nl (bytes_of name)) then Ok tt else Err ValueError.
(** The name Cypher reads. *)
Definition cypher_name (name : string) : string := str_of (chop_nl (bytes_of name)).

Definition _TERMINAL_LABELS : list string := ["ForkedSession"; "SubSession"; "RootSession"].
Definition is_terminal_label (l : string) : bool := bool_decide (l ∈ _TERMINAL_LABELS).

Definition _LATTICE_NORMALIZATION (ls : gset string) : gset string :=
  let ls := if decide ("ForkedSession" ∈ ls) then ls ∖ {["SubSession"]} ∖ {["RootSession"]} else ls in
  if decide ("SubSession" ∈ ls) then ls ∖ {["RootSession"]} else ls.

(** ** The statements of a batch *)

Definition map_props (f : gmap string pval -> gmap string pval) (n : dbnode) : dbnode :=
  MkDbNode (f (n_props n)) (n_labels n).
Definition map_labels (f : gset string -> gset string) (n : dbnode) : dbnode :=
  MkDbNode (n_props n) (f (n_labels n)).

(** [SET n += props] *)
Definition set_props (props : list (string * pval)) (m : gmap string pval) : gmap string pval :=
  list_to_map props ∪ m.
(** [SET n.key = coalesce(n.key, value)] *)
Definition coalesce (key : string) (value : option json) (m : gmap string pval) : gmap string pval :=
  match m !! key, value with
  | None, Some j => <[key := PJson j]> m
  | _, _ => m
  end.

(** The node a [MERGE] finds or creates; [ON CREATE SET created_by]. *)
Definition merged (k : node_key) (created_by : option string) (x : option dbnode) : dbnode :=
  match x with
  | Some n => n
  | None =>
    let base := {["node_id" := PJson (JStr k.1); "workspace" := PJson (JStr k.2)]} in
    MkDbNode (match created_by with
              | Some c => <["created_by" := PJson (JStr c)]> base
              | None => base
              end) {["Node"]}
  end.

Record row := MkRow {
  row_node_id : string; row_props : list (string * pval);
  row_working_dir : option json; row_status_if_absent : option json;
}.

Definition on_node (k : node_key) (f : option dbnode -> option dbnode) (g : graph) : graph :=
  MkDb (partial_alter f k (db_nodes g)) (db_edges g).

Definition merge_session_row (workspace : string) (created_by : option string) (r : row) : graph -> graph :=
  let k := (row_node_id r, workspace) in
  on_node k (fun x => Some
    (map_props (fun m => coalesce "status" (row_status_if_absent r)
                           (coalesce "working_dir" (row_working_dir r) (set_props (row_props r) m)))
      (map_labels (fun ls => ls ∪ {["Session"]}) (merged k created_by x)))).
Definition merge_node_row (workspace : string) (created_by : option string) (r : row) : graph -> graph :=
  let k := (row_node_id r, workspace) in
  on_node k (fun x => Some (map_props (set_props (row_props r)) (merged k created_by x))).

(** [MATCH (n:Node {...}) SET n:A:B...], normalised when a label is terminal *)
Definition set_node_labels (workspace node_id : string) (labels : list string) : graph -> graph :=
  on_node (node_id, workspace) (option_map (map_labels (fun ls =>
    let ls := ls ∪ list_to_set (map cypher_name labels) in
    if existsb is_terminal_label labels then _LATTICE_NORMALIZATION ls else ls))).
Definition remove_node_label (workspace node_id label : string) : graph -> graph :=
  on_node (node_id, workspace) (option_map (map_labels (fun ls => ls ∖ {[cypher_name label]}))).

(** [_edge_merge_cypher]: both endpoints are merged, then the relationship. *)
Definition merge_edge_row (workspace type : string) (created_by : option string)
    (src dst : string) (props : list (string * pval)) (g : graph) : graph :=
  let g := on_node (src, workspace) (fun x => Some (merged (src, workspace) None x)) g in
  let g := on_node (dst, workspace) (fun x => Some (merged (dst, workspace) None x)) g in
  let key := (src, dst, cypher_name type, workspace) in
  let old := match db_edges g !! key with
             | Some m => m
             | None => match created_by with
                       | Some c => {["created_by" := PJson (JStr c)]}
                       | None => ∅
                       end
             end in
  MkDb (db_nodes g) (<[key := set_props props old]> (db_edges g)).

(** ** [_write_batch] *)

Record patch := MkPatch { p_node : string; p_remove : list string; p_add : list string }.
Abbreviation node_dict := (list (string * obj)).
Abbreviation edge_dict := (list ((string * string) * obj)).

Definition le_fst {A} (a b : string * A) : Prop := String.le a.1 b.1.
#[export] Instance le_fst_dec {A} : RelDecision (@le_fst A).
Proof. intros a b. unfold le_fst. apply _. Defined.
Definition le_key {A} (a b : (string * string) * A) : Prop :=
  if decide (a.1.1 = b.1.1) then String.le a.1.2 b.1.2 else String.le a.1.1 b.1.1.
#[export] Instance le_key_dec {A} : RelDecision (@le_key A).
Proof. intros a b. unfold le_key. destruct (decide _); apply _. Defined.

Definition is_session (data : obj) : bool := bool_decide ("Session" ∈ labels_of data).
Definition nonempty (j : json) : option json := if truthy j then Some j else None.
Definition row_of (workspace : string) (nd : string * obj) : row :=
  MkRow nd.1 (_build_node_props nd.2 workspace)
    (if is_session nd.2 then nonempty (jget "working_dir" nd.2) else None)
    (if is_session nd.2 then nonempty (jget "status_if_absent" nd.2) else None).
(** [sorted(set(labels))] *)
Definition label_set (data : obj) : list string := py_sorted (remove_dups (labels_of data)).

Definition write_nodes (nodes : node_dict) (workspace : string) (created_by : option string) : M graph unit :=
  mfor nodes (fun nd => mfor (labels_of nd.2) (fun l => mlift (_validate_identifier l))) ;;;
  mfor (merge_sort le_fst (base.filter (fun nd => is_session nd.2 = true) nodes))
    (fun nd => mmodify (merge_session_row workspace created_by (row_of workspace nd))) ;;;
  mfor (merge_sort le_fst (base.filter (fun nd => is_session nd.2 = false) nodes))
    (fun nd => mmodify (merge_node_row workspace created_by (row_of workspace nd))) ;;;
  mfor (merge_sort le_fst (base.filter (fun nd => labels_of nd.2 <> []) nodes))
    (fun nd => mmodify (set_node_labels workspace nd.1 (label_set nd.2))).

Definition write_patch (workspace : string) (lp : patch) : M graph unit :=
  mfor (p_remove lp) (fun l =>
    mlift (_validate_identifier l) ;;; mmodify (remove_node_label workspace (p_node lp) l)) ;;;
  mfor (p_add lp) (fun l =>
    mlift (_validate_identifier l) ;;; mmodify (set_node_labels workspace (p_node lp) [l])).

Definition _DEFAULT_EDGE_TYPE : string := "RELATED".
Definition edge_type_of (data : obj) : result string :=
  match dget "type" data with
  | None => Ok _DEFAULT_EDGE_TYPE
  | Some (JStr s) => Ok s
  | Some _ => Err TypeError
  end.

(** [edge_groups]: type -> rows, in first-seen order *)
Fixpoint group_edges (edges : edge_dict) (groups : list (string * edge_dict))
    : result (list (string * edge_dict)) :=
  match edges with
  | [] => Ok groups
  | e :: edges =>
    let? t := edge_type_of e.2 in
    group_edges edges (dset t ((match dget t groups with Some rs => rs | None => [] end) ++ [e]) groups)
  end.

Definition write_edges (edges : edge_dict) (workspace : string) (created_by : option string) : M graph unit :=
  let! groups := mlift (group_edges edges []) in
  mfor groups (fun grp =>
    mlift (_validate_identifier grp.1) ;;;
    mfor (merge_sort le_key grp.2) (fun e =>
      mmodify (merge_edge_row workspace grp.1 created_by e.1.1 e.1.2
                 (_build_edge_props e.2 e.1.1 e.1.2 workspace)))).

Definition _write_batch (nodes : node_dict) (edges : edge_dict) (patches : list patch)
    (workspace : string) (created_by : option string) : M graph unit :=
  write_nodes nodes workspace created_by ;;;
  mfor patches (write_patch workspace) ;;;
  write_edges edges workspace created_by.

(** ** Chunks *)

(** [len(json.dumps(value))]: the output is ASCII. *)
Definition _serialized_row_size (value : json) : nat := length (json_dumps value).

(** [_chunk_dict] and [_chunk_list]: the chunk being built, its byte count and
    the rest; the row count is the chunk's length. *)
Section chunks.
Context {A : Type} (size : A -> nat) (max_rows max_bytes : nat).
Fixpoint chunk_loop (chunk : list A) (cur_bytes : nat) (items : list A) : list (list A) :=
  match items with
  | [] => match chunk with [] => [] | _ => [chunk] end
  | x :: items =>
    match chunk with
    | [] => chunk_loop [x] (size x) items
    | _ => if Nat.ltb max_rows (S (length chunk)) || Nat.ltb max_bytes (cur_bytes + size x)
           then chunk :: chunk_loop [x] (size x) items
           else chunk_loop (chunk ++ [x]) (cur_bytes + size x) items
    end
  end.
Definition chunks (items : list A) : list (list A) := chunk_loop [] 0 items.
End chunks.

Definition patch_json (lp : patch) : json :=
  JObj [("node_id", JStr (p_node lp)); ("remove", jstrs (p_remove lp)); ("add", jstrs (p_add lp))].
Definition _chunk_dict {K} (d : list (K * obj)) (max_rows max_bytes : nat) : list (list (K * obj)) :=
  chunks (fun kv => _serialized_row_size (JObj kv.2)) max_rows max_bytes d.
Definition _chunk_list (l : list patch) (max_rows max_bytes : nat) : list (list patch) :=
  chunks (fun lp => _serialized_row_size (patch_json lp)) max_rows max_bytes l.

(** ** The store *)

Record Neo4jGraphStore := MkStore {
  s_workspace : option string;
  s_created_by : option string;
  _node_buffer : node_dict;
  _edge_buffer : edge_dict;
  _label_patches : list patch;
  _schema_initialized : bool;
  _flush_chunk_rows : nat;
  _flush_chunk_bytes : nat;
}.

Definition new_store (workspace : option string) (flush_chunk_rows flush_chunk_bytes : nat) : Neo4jGraphStore :=
  MkStore workspace None [] [] [] false (Nat.max 1 flush_chunk_rows) (Nat.max 1 flush_chunk_bytes).

Definition workspace_of (st : Neo4jGraphStore) : string :=
  match s_workspace st with Some w => w | None => "default" end.

Definition set_buffers (n : node_dict) (e : edge_dict) (p : list patch) (st : Neo4jGraphStore) : Neo4jGraphStore :=
  MkStore (s_workspace st) (s_created_by st) n e p (_schema_initialized st)
    (_flush_chunk_rows st) (_flush_chunk_bytes st).

Definition buffered (st : Neo4jGraphStore) (node_id : string) : obj :=
  match dget node_id (_node_buffer st) with Some o => o | None => [] end.

(** Labels are united in insertion order. *)
Definition append_labels (existing new : list string) : list string :=
  fold_left (fun acc l => if decide (l ∈ acc) then acc else acc ++ [l]) new existing.

Definition n4_merge (existing data : obj) : obj :=
  let existing := match dget "labels" data with
                  | Some ls => dset "labels" (jstrs (append_labels (labels_of existing) (str_items ls))) existing
                  | None => existing
                  end in
  fold_left (fun o kv => if decide (kv.1 = "labels") then o else dset kv.1 kv.2 o) data existing.

Definition n4_upsert_node (node_id : string) (data : obj) (st : Neo4jGraphStore) : Neo4jGraphStore :=
  set_buffers (dset node_id (n4_merge (buffered st node_id) data) (_node_buffer st))
    (_edge_buffer st) (_label_patches st) st.

Definition n4_upsert_edge (src dst : string) (data : obj) (st : Neo4jGraphStore) : Neo4jGraphStore :=
  let old := match dget (src, dst) (_edge_buffer st) with Some e => e | None => [] end in
  set_buffers (_node_buffer st) (dset (src, dst) (dupdate old data) (_edge_buffer st)) (_label_patches st) st.

Definition n4_remove_edge (src dst : string) (st : Neo4jGraphStore) : Neo4jGraphStore :=
  set_buffers (_node_buffer st) (ddel (src, dst) (_edge_buffer st)) (_label_patches st) st.

Definition n4_set_labels (node_id : string) (remove_labels add_labels : list string) (st : Neo4jGraphStore)
    : Neo4jGraphStore :=
  let existing := buffered st node_id in
  let kept := base.filter (fun l => l ∉ remove_labels) (labels_of existing) in
  set_buffers (dset node_id (dset "labels" (jstrs (label_union kept add_labels)) existing) (_node_buffer st))
    (_edge_buffer st) (_label_patches st ++ [MkPatch node_id remove_labels add_labels]) st.

Definition n4_discard_buffer (st : Neo4jGraphStore) : Neo4jGraphStore := set_buffers [] [] [] st.

(** ** Flushing *)

(** The process: schema latch, time of the last schema attempt, database, and
    what the driver will do: the next transactions' outcomes, the results of the
    next schema passes, the clock. *)
Inductive tx_outcome := TxCommit | TxRollback (e : exn) | TxLost (e : exn).
Record world := MkWorld {
  w_graph : graph;
  w_ready : bool;
  w_last_attempt : option Z;
  w_txs : list tx_outcome;
  w_schema : list (result bool);
  w_clock : list Z;
}.
Abbreviation FM := (M (Neo4jGraphStore * world)).

(** [execute_write(work, ...)]: when the script ends, transactions commit. *)
Definition execute_write (work : M graph unit) : FM unit := fun '(st, w) =>
  let '(out, txs) := match w_txs w with [] => (TxCommit, []) | o :: os => (o, os) end in
  let w' g := MkWorld g (w_ready w) (w_last_attempt w) txs (w_schema w) (w_clock w) in
  match work (w_graph w) with
  | (Err e, _) => (Err e, (st, w' (w_graph w)))
  | (Ok _, g) =>
    match out with
    | TxCommit => (Ok tt, (st, w' g))
    | TxRollback e => (Err e, (st, w' (w_graph w)))
    | TxLost e => (Err e, (st, w' g))
    end
  end.

(** 30 seconds, in nanoseconds *)
Definition _SCHEMA_RETRY_BACKOFF : Z := 30 * 1000000000.

Definition _schema_retry_allowed (w : world) : bool * world :=
  let '(now, clock) := match w_clock w with [] => (0%Z, []) | t :: ts => (t, ts) end in
  let w' last := MkWorld (w_graph w) (w_ready w) last (w_txs w) (w_schema w) clock in
  match w_last_attempt w with
  | Some t => if (now - t <? _SCHEMA_RETRY_BACKOFF)%Z then (false, w' (w_last_attempt w)) else (true, w' (Some now))
  | None => (true, w' (Some now))
  end.

Definition latch (st : Neo4jGraphStore) : Neo4jGraphStore :=
  MkStore (s_workspace st) (s_created_by st) (_node_buffer st) (_edge_buffer st) (_label_patches st) true
    (_flush_chunk_rows st) (_flush_chunk_bytes st).

(** [ensure_neo4j_schema] touches no data; its results are a script. *)
Definition _ensure_schema : FM unit := fun '(st, w) =>
  if _schema_initialized st || w_ready w then (Ok tt, (st, w))
  else
    let '(allowed, w) := _schema_retry_allowed w in
    if negb allowed then (Ok tt, (st, w))
    else
      let '(res, rest) := match w_schema w with [] => (Ok true, []) | r :: rs => (r, rs) end in
      let w' ready := MkWorld (w_graph w) ready (w_last_attempt w) (w_txs w) rest (w_clock w) in
      match res with
      | Ok true => (Ok tt, (latch st, w' true))
      | Ok false => (Ok tt, (st, w' (w_ready w)))
      | Err e => (Err e, (st, w' (w_ready w)))
      end.

Definition on_store (f : Neo4jGraphStore -> Neo4jGraphStore) : FM unit := fun '(st, w) => (Ok tt, (f st, w)).

(** The [finally] of a failed flush: the snapshot under whatever was buffered
    since, entry by entry. *)
Definition restore (n : node_dict) (e : edge_dict) (p : list patch) (st : Neo4jGraphStore) : Neo4jGraphStore :=
  set_buffers (dupdate n (_node_buffer st)) (dupdate e (_edge_buffer st)) (p ++ _label_patches st) st.

Definition write_chunks (n : node_dict) (e : edge_dict) (p : list patch) (st : Neo4jGraphStore) : FM unit :=
  let rows := _flush_chunk_rows st in
  let byts := _flush_chunk_bytes st in
  let ws := workspace_of st in
  let cb := s_created_by st in
  mfor (_chunk_dict (merge_sort le_fst n) rows byts) (fun c => execute_write (_write_batch c [] [] ws cb)) ;;;
  mfor (_chunk_list p rows byts) (fun c => execute_write (_write_batch [] [] c ws cb)) ;;;
  mfor (_chunk_dict (merge_sort le_key e) rows byts) (fun c => execute_write (_write_batch [] c [] ws cb)).

Definition _flush_body : FM unit := fun '(st, w) =>
  let n := _node_buffer st in
  let e := _edge_buffer st in
  let p := _label_patches st in
  match n, e, p with
  | [], [], [] => (Ok tt, (st, w))
  | _, _, _ =>
    (on_store (set_buffers [] [] []) ;;;
     mcatch (_ensure_schema ;;; write_chunks n e p st)
       (fun x => on_store (restore n e p) ;;; mraise x)) (st, w)
  end.

(** [flush] takes the lock, which serializes flushes of one store. *)
Definition flush : FM unit := _flush_body.

(** [close]: a failed final flush is logged, not raised. *)
Definition close : FM unit :=
  mcatch flush (fun e => if is_Exception e then mret tt else mraise e).

(** ** Reads *)

(** The query's answer; [None] where it fails with [Neo4jError]. *)
Definition get_node_db (node_id : string) (st : Neo4jGraphStore) (w : world) : option (gmap string pval * gset string) :=
  n ← db_nodes (w_graph w) !! (node_id, workspace_of st); Some (n_props n, n_labels n).

(** What [get_node] returns: a buffered entry as it is, otherwise the database's. *)
Inductive node_view := Buffered (o : obj) | Stored (props : gmap string pval) (labels : gset string).
Definition n4_get_node (node_id : string) (query_ok : bool) (st : Neo4jGraphStore) (w : world) : option node_view :=
  match dget node_id (_node_buffer st) with
  | Some o => Some (Buffered o)
  | None => if query_ok then (fun pl => Stored pl.1 pl.2) <$> get_node_db node_id st w else None
  end.
End store.
