(* ===== verification/Neo4jSpec.v ===== *)
(** * What a flush writes

    [_write_batch] is reduced to two lists of keyed operations, one on nodes and
    one on relationships; what a list does to one key depends on that key's
    operations alone.  From there: chunking does not change what is written, a
    failed flush keeps the buffer and a retry converges to what one successful
    flush writes, and a node never ends with two terminal session labels. *)
From stdpp Require Import ssreflect base list gmap strings sorting.
From Stdlib Require Import ZArith Lia.
From S2P Require Import Prelude PyText Sha256 Utils Json QueueFiles QueueManager GraphStore DefaultHandler.
From S2P Require Import Layer2 Neo4jStore.

#[local] Open Scope string_scope.
#[local] Open Scope list_scope.

(** ** Lists with distinct keys *)

Section keyed.
Context {K A : Type} `{EqDecision K}.
Implicit Types l : list (K * A).

Definition at_key (k : K) l : list (K * A) := base.filter (fun x => x.1 = k) l.

Lemma at_key_app k l1 l2 : at_key k (l1 ++ l2) = at_key k l1 ++ at_key k l2.
Proof. apply filter_app. Qed.

Lemma at_key_cons_eq k a l : at_key k ((k, a) :: l) = (k, a) :: at_key k l.
Proof. unfold at_key. by rewrite filter_cons_True. Qed.
Lemma at_key_cons_ne k k' a l : k' <> k -> at_key k ((k', a) :: l) = at_key k l.
Proof. intros H. unfold at_key. by rewrite filter_cons_False. Qed.

Lemma at_key_notin k l : k ∉ map fst l -> at_key k l = [].
Proof.
  induction l as [|[k' a] l IH]; simpl; [done|]. rewrite elem_of_cons. intros Hk.
  rewrite at_key_cons_ne; [apply IH; tauto|]. intros ->. tauto.
Qed.

(** A permutation of distinct keys gives every key the same entries. *)
Lemma at_key_perm k l l' : l ≡ₚ l' -> NoDup (map fst l) -> at_key k l = at_key k l'.
Proof.
  intros Hp Hn.
  assert (Hp' : at_key k l ≡ₚ at_key k l') by (unfold at_key; by rewrite Hp).
  assert (Hle : length (at_key k l) <= 1).
  { clear -Hn. induction l as [|[k' a] l IH]; simpl in *; [simpl; lia|].
    apply NoDup_cons in Hn as [H1 H2]. destruct (decide (k' = k)) as [->|Hne].
    - rewrite at_key_cons_eq at_key_notin; [simpl; lia|done].
    - rewrite at_key_cons_ne; [by apply IH|done]. }
  destruct (at_key k l) as [|x [|]]; [|..|simpl in Hle; lia].
  - by apply Permutation_nil_l in Hp'.
  - by apply Permutation_singleton_l in Hp'.
Qed.

Lemma at_key_prefix k l l' : l `prefix_of` l' -> at_key k l `prefix_of` at_key k l'.
Proof. intros [m ->]. rewrite at_key_app. by eexists. Qed.
End keyed.

Lemma elem_dkeys {K A} (x : K * A) l : x ∈ l -> x.1 ∈ dkeys l.
Proof. apply list_elem_of_fmap_2. Qed.

(** Operations on single keys of a map, run in order. *)
Section run.
Context {K O V : Type} `{Countable K} (ap : K -> O -> option V -> option V).

Definition run (ops : list (K * O)) (m : gmap K V) : gmap K V :=
  foldl (fun m o => partial_alter (ap o.1 o.2) o.1 m) m ops.
Definition run1 (k : K) (ops : list (K * O)) (x : option V) : option V :=
  foldl (fun y o => ap k o.2 y) x ops.

Lemma run_app l1 l2 m : run (l1 ++ l2) m = run l2 (run l1 m).
Proof. apply foldl_app. Qed.
Lemma run1_app k l1 l2 x : run1 k (l1 ++ l2) x = run1 k l2 (run1 k l1 x).
Proof. apply foldl_app. Qed.

Lemma run_lookup ops m k : run ops m !! k = run1 k (at_key k ops) (m !! k).
Proof.
  revert m. induction ops as [|[k' o] ops IH]; intros m; [done|]. simpl. rewrite IH.
  destruct (decide (k' = k)) as [->|Hne].
  - by rewrite at_key_cons_eq lookup_partial_alter_eq.
  - by rewrite at_key_cons_ne ?lookup_partial_alter_ne.
Qed.

Lemma run_ext ops ops' m :
  (forall k x, run1 k (at_key k ops) x = run1 k (at_key k ops') x) -> run ops m = run ops' m.
Proof. intros Hk. apply map_eq. intros k. by rewrite !run_lookup. Qed.

(** Running a prefix first changes nothing. *)
Definition absorbs (k : K) (ops : list (K * O)) : Prop :=
  forall p x, p `prefix_of` ops -> run1 k ops (run1 k p x) = run1 k ops x.

Lemma run_absorb ops p m :
  (forall k, absorbs k (at_key k ops)) -> p `prefix_of` ops -> run ops (run p m) = run ops m.
Proof. intros Ha Hp. apply map_eq. intros k. rewrite !run_lookup. by apply Ha, at_key_prefix. Qed.
End run.

(** ** Loops of the effect monad *)

Lemma mfor_modify {St A} (f : A -> St -> St) xs s :
  mfor xs (fun x => mmodify (f x)) s = (Ok tt, foldl (fun s x => f x s) s xs).
Proof. revert s. induction xs as [|x xs IH]; intros s; [done|]. apply IH. Qed.

(** [m] succeeds exactly when [P], and then does [F]. *)
Definition does {St} (m : M St unit) (P : Prop) (F : St -> St) : Prop :=
  forall s r s', m s = (r, s') -> (r = Ok tt <-> P) /\ (r = Ok tt -> s' = F s).

Lemma does_modify {St} (F : St -> St) : does (mmodify F) True F.
Proof. intros s r s' [= <- <-]. done. Qed.
Lemma does_check {St} (v : result unit) : does (St := St) (mlift v) (v = Ok tt) id.
Proof. intros s r s' [= <- <-]. done. Qed.
Lemma does_bind {St} (m1 m2 : M St unit) P1 P2 F1 F2 :
  does m1 P1 F1 -> does m2 P2 F2 -> does (m1 ;;; m2) (P1 /\ P2) (fun s => F2 (F1 s)).
Proof.
  intros H1 H2 s r s'. unfold mbind. destruct (m1 s) as [[[]|e] s1] eqn:E1.
  - intros [Hr Hs]%H2. destruct (H1 _ _ _ E1) as [E2 E3]. rewrite (E3 eq_refl) in Hs.
    split; [rewrite Hr; tauto|done].
  - intros [= <- <-]. destruct (H1 _ _ _ E1) as [E2 _]. split; [|done].
    split; [done|]. intros [HP _]. by apply E2 in HP.
Qed.
Lemma does_for {St A} (f : A -> M St unit) (P : A -> Prop) (F : A -> St -> St) xs :
  (forall x, does (f x) (P x) (F x)) -> does (mfor xs f) (Forall P xs) (fun s => foldl (fun s x => F x s) s xs).
Proof.
  intros Hf. induction xs as [|x xs IH]; intros s r s'; cbn [mfor]; [intros [= <- <-]; by split|].
  intros [Hr Hs]%(does_bind _ _ _ _ _ _ (Hf x) IH). split; [by rewrite Forall_cons|exact Hs].
Qed.
Lemma does_ext {St} (m : M St unit) (P P' : Prop) (F F' : St -> St) :
  does m P F -> (P <-> P') -> (forall s, P -> F s = F' s) -> does m P' F'.
Proof.
  intros Hm HP HF s r s' Hr. destruct (Hm s r s' Hr) as [H1 H2]. split; [by rewrite H1|].
  intros Hok. rewrite H2; [|done]. by apply HF, H1.
Qed.
Lemma foldl_id {St A} (xs : list A) (s : St) : foldl (fun s _ => id s) s xs = s.
Proof. revert s. by induction xs. Qed.

(** ** The operations of a batch *)

Section flush.
Context `{!Timestamps}.
Abbreviation node_key := (string * string)%type.
Abbreviation edge_key := (string * string * string * string)%type.
Abbreviation node_dict := (list (string * obj)).
Abbreviation edge_dict := (list ((string * string) * obj)).

Inductive nop :=
  | OSession (cb : option string) (r : row)
  | OOther (cb : option string) (r : row)
  | OLabels (ls : list string)
  | OPatch (lp : patch)
  | OEnsure.

Definition labels_effect (labels : list string) (ls : gset string) : gset string :=
  let ls := ls ∪ list_to_set (map cypher_name labels) in
  if existsb is_terminal_label labels then _LATTICE_NORMALIZATION ls else ls.
Definition patch_effect (lp : patch) (ls : gset string) : gset string :=
  foldl (fun ls l => labels_effect [l] ls)
    (foldl (fun ls l => ls ∖ {[cypher_name l]}) ls (p_remove lp)) (p_add lp).
Definition session_props (r : row) (m : gmap string pval) : gmap string pval :=
  coalesce "status" (row_status_if_absent r)
    (coalesce "working_dir" (row_working_dir r) (set_props (row_props r) m)).

Definition apply_nop (k : node_key) (o : nop) (x : option dbnode) : option dbnode :=
  match o with
  | OSession cb r => Some (map_props (session_props r) (map_labels (fun ls => ls ∪ {["Session"]}) (merged k cb x)))
  | OOther cb r => Some (map_props (set_props (row_props r)) (merged k cb x))
  | OLabels ls => option_map (map_labels (labels_effect ls)) x
  | OPatch lp => option_map (map_labels (patch_effect lp)) x
  | OEnsure => Some (merged k None x)
  end.

Definition edge_new (cb : option string) : gmap string pval :=
  match cb with Some c => {["created_by" := PJson (JStr c)]} | None => ∅ end.
Definition apply_eop (k : edge_key) (o : option string * list (string * pval)) (x : option (gmap string pval))
    : option (gmap string pval) :=
  Some (set_props o.2 (match x with Some m => m | None => edge_new o.1 end)).

Abbreviation run_n := (run apply_nop).
Abbreviation run_e := (run apply_eop).

Section batch.
Context (ws : string) (cb : option string).

Definition row_op (nd : string * obj) : node_key * nop :=
  ((nd.1, ws), if is_session nd.2 then OSession cb (row_of ws nd) else OOther cb (row_of ws nd)).
Definition label_op (nd : string * obj) : node_key * nop := ((nd.1, ws), OLabels (label_set nd.2)).
Definition node_ops (nd : string * obj) : list (node_key * nop) :=
  row_op nd :: (match labels_of nd.2 with [] => [] | _ => [label_op nd] end).
Definition patch_op (lp : patch) : node_key * nop := ((p_node lp, ws), OPatch lp).
Definition etype (e : (string * string) * obj) : string :=
  match edge_type_of e.2 with Ok t => t | Err _ => "" end.
Definition endpoint_ops (e : (string * string) * obj) : list (node_key * nop) :=
  [((e.1.1, ws), OEnsure); ((e.1.2, ws), OEnsure)].
Definition edge_op (e : (string * string) * obj) : edge_key * (option string * list (string * pval)) :=
  ((e.1.1, e.1.2, cypher_name (etype e), ws), (cb, _build_edge_props e.2 e.1.1 e.1.2 ws)).

Definition nops (n : node_dict) (p : list patch) (e : edge_dict) : list (node_key * nop) :=
  concat (map node_ops n) ++ map patch_op p ++ concat (map endpoint_ops e).
Definition eops (e : edge_dict) : list (edge_key * (option string * list (string * pval))) := map edge_op e.

(** *** The node phase *)

Lemma foldl_run {A} (f : A -> graph -> graph) (op : A -> node_key * nop) xs g :
  (forall x g, x ∈ xs -> f x g = MkDb (run_n [op x] (db_nodes g)) (db_edges g)) ->
  foldl (fun g x => f x g) g xs = MkDb (run_n (map op xs) (db_nodes g)) (db_edges g).
Proof.
  revert g. induction xs as [|x xs IH]; intros g Hf; [by destruct g|]. simpl.
  rewrite IH; [|intros; apply Hf; by right]. rewrite Hf; [done|by left].
Qed.

Lemma at_key_map_op (op : string * obj -> node_key * nop) (l l' : node_dict) k :
  (forall nd, (op nd).1 = (nd.1, ws)) -> l ≡ₚ l' -> NoDup (dkeys l) ->
  at_key k (map op l) = at_key k (map op l').
Proof.
  intros Hop Hp Hn. apply at_key_perm; [by rewrite Hp|].
  rewrite map_map. rewrite (map_ext _ (fun nd => (nd.1, ws))); [|done].
  rewrite -(map_map fst (fun i => (i, ws))). apply NoDup_fmap_2; [|done]. by intros ?? [= ->].
Qed.

Definition labelled (nd : string * obj) : Prop := labels_of nd.2 <> [].

Lemma at_key_absent (op : string * obj -> node_key * nop) (l : node_dict) k :
  (forall nd, (op nd).1 = (nd.1, ws)) -> k.1 ∉ dkeys l -> at_key k (map op l) = [].
Proof.
  intros Hop Hk. apply at_key_notin. rewrite map_map. intros Hin. apply Hk.
  apply list_elem_of_fmap in Hin as (nd & -> & Hin). rewrite Hop. by apply (elem_dkeys nd).
Qed.

Lemma dkeys_filter (P : string * obj -> Prop) `{forall x, Decision (P x)} (l : node_dict) i :
  i ∉ dkeys l -> i ∉ dkeys (base.filter P l).
Proof.
  intros Hi Hin. apply Hi. apply list_elem_of_fmap in Hin as (nd & -> & [_ Hin]%list_elem_of_filter).
  by apply elem_dkeys.
Qed.

Lemma map_filter_cons {B} (op : string * obj -> B) (P : string * obj -> Prop) `{forall x, Decision (P x)} nd n :
  map op (base.filter P (nd :: n)) = (if decide (P nd) then [op nd] else []) ++ map op (base.filter P n).
Proof. rewrite filter_cons. by destruct (decide (P nd)). Qed.

(** Sessions first, then the others, then the labels: for each node the same as
    node by node. *)
Lemma at_key_phases (n : node_dict) k :
  NoDup (dkeys n) ->
  at_key k (map row_op (base.filter (fun nd => is_session nd.2 = true) n)
            ++ map row_op (base.filter (fun nd => is_session nd.2 = false) n)
            ++ map label_op (base.filter labelled n))
  = at_key k (concat (map node_ops n)).
Proof.
  induction n as [|nd n IH]; intros Hn; [done|].
  apply NoDup_cons in Hn as [Hnew Hn]. specialize (IH Hn).
  change (concat (map node_ops (nd :: n))) with (node_ops nd ++ concat (map node_ops n)).
  rewrite !map_filter_cons !at_key_app -IH !at_key_app. clear IH.
  destruct (decide ((nd.1, ws) = k)) as [Hk|Hne].
  - assert (Hf : forall (P : string * obj -> Prop) (dec : forall x, Decision (P x))
        (op : string * obj -> node_key * nop),
      (forall nd, (op nd).1 = (nd.1, ws)) -> at_key k (map op (base.filter P n)) = []).
    { intros P dec op Hop. apply at_key_absent; [done|]. rewrite -Hk. by apply dkeys_filter. }
    rewrite !(Hf _ _ row_op) ?(Hf _ _ label_op); [|done..]. unfold node_ops, labelled.
    rewrite !app_nil_r.
    destruct (is_session nd.2) eqn:Es; destruct (labels_of nd.2) eqn:El;
      rewrite ?decide_True ?decide_False //; unfold at_key; rewrite ?filter_cons; 
      unfold row_op, label_op; cbn [fst]; by repeat case_decide.
  - unfold node_ops, labelled, row_op, label_op.
    destruct (is_session nd.2) eqn:Es; destruct (labels_of nd.2) eqn:El;
      repeat case_decide; rewrite ?at_key_cons_ne //.
Qed.
(** *** The phases as operations *)

Abbreviation on_nodes := (fun ops g => MkDb (run_n ops (db_nodes g)) (db_edges g)).

Definition valid_name (l : string) : Prop := _validate_identifier l = Ok tt.
Definition node_valid (nd : string * obj) : Prop := Forall valid_name (labels_of nd.2).
Definition patch_valid (lp : patch) : Prop := Forall valid_name (p_remove lp) /\ Forall valid_name (p_add lp).
Definition edge_valid (e : (string * string) * obj) : Prop :=
  exists t, edge_type_of e.2 = Ok t /\ valid_name t.

Lemma write_nodes_does n :
  NoDup (dkeys n) -> does (write_nodes n ws cb) (Forall node_valid n) (on_nodes (concat (map node_ops n))).
Proof.
  intros Hn. eapply does_ext.
  - unfold write_nodes. apply does_bind; [|apply does_bind; [|apply does_bind]].
    + apply does_for. intros nd. apply (does_for _ valid_name (fun _ => id)). intros l. apply does_check.
    + apply does_for. intros nd. apply does_modify.
    + apply does_for. intros nd. apply does_modify.
    + apply does_for. intros nd. apply does_modify.
  - split; [by intros [? _]|]. intros Hv. split_and!; [exact Hv|by apply Forall_true..].
  - intros g _. cbv beta.
    assert (E : foldl (fun (s : graph) (nd : string * obj) => foldl (fun s _ => id s) s (labels_of nd.2)) g n = g).
    { clear. induction n as [|nd n IH]; cbn [foldl]; [done|]. by rewrite foldl_id. }
    rewrite E. clear E.
    rewrite (foldl_run (fun nd => merge_session_row ws cb (row_of ws nd)) row_op); last first.
    { intros nd g' Hin. rewrite merge_sort_Permutation in Hin. apply list_elem_of_filter in Hin as [Hs _].
      unfold row_op. by rewrite Hs. }
    rewrite (foldl_run (fun nd => merge_node_row ws cb (row_of ws nd)) row_op); last first.
    { intros nd g' Hin. rewrite merge_sort_Permutation in Hin. apply list_elem_of_filter in Hin as [Hs _].
      unfold row_op. by rewrite Hs. }
    rewrite (foldl_run (fun nd => set_node_labels ws nd.1 (label_set nd.2)) label_op); [|done].
    cbn [db_nodes db_edges]. rewrite -!run_app. f_equal. apply run_ext. intros k x. f_equal.
    rewrite -at_key_phases // !at_key_app -?app_assoc.
    assert (Hk : forall (P : string * obj -> Prop) (dec : forall x, Decision (P x)) (op : string * obj -> node_key * nop),
      (forall nd, (op nd).1 = (nd.1, ws)) ->
      at_key k (map op (merge_sort le_fst (base.filter P n))) = at_key k (map op (base.filter P n))).
    { intros P dec op Hop. apply at_key_map_op; [done|apply merge_sort_Permutation|].
      unfold dkeys. rewrite merge_sort_Permutation. eapply sublist_NoDup; [exact Hn|].
      apply fmap_sublist. apply sublist_filter. }
    by rewrite !Hk.
Qed.
Lemma on_node_id k (f : option dbnode -> option dbnode) g : (forall x, f x = x) -> on_node k f g = g.
Proof.
  intros Hf. destruct g as [ns es]. unfold on_node. simpl. f_equal. apply map_eq. intros k'.
  destruct (decide (k = k')) as [->|]; [by rewrite lookup_partial_alter_eq|by rewrite lookup_partial_alter_ne].
Qed.

Lemma foldl_labels k (F : string -> gset string -> gset string) xs g :
  foldl (fun g x => on_node k (option_map (map_labels (F x))) g) g xs
  = on_node k (option_map (map_labels (fun ls => foldl (fun ls x => F x ls) ls xs))) g.
Proof.
  revert g. induction xs as [|x xs IH]; intros g.
  - symmetry. apply on_node_id. by intros [[]|].
  - cbn [foldl]. rewrite IH. unfold on_node. simpl. f_equal.
    rewrite partial_alter_partial_alter_eq. apply partial_alter_ext. by intros [n|] _.
Qed.

Lemma write_patch_does lp : does (write_patch ws lp) (patch_valid lp) (on_nodes [patch_op lp]).
Proof.
  eapply does_ext.
  - unfold write_patch. apply does_bind; apply (does_for _ valid_name); intros l;
      (eapply does_ext; [apply does_bind; [apply does_check|apply does_modify]|unfold valid_name; tauto|]);
      intros g _; unfold id; reflexivity.
  - done.
  - intros g _. cbv beta. unfold remove_node_label, set_node_labels.
    rewrite (foldl_labels _ (fun l ls => ls ∖ {[cypher_name l]})) (foldl_labels _ (fun l => labels_effect [l])).
    unfold on_node. simpl. f_equal. rewrite partial_alter_partial_alter_eq.
    apply partial_alter_ext. by intros [n|] _.
Qed.

Lemma on_nodes_foldl {A} (op : A -> node_key * nop) xs g :
  foldl (fun g x => on_nodes [op x] g) g xs = on_nodes (map op xs) g.
Proof. rewrite (foldl_run (fun x => on_nodes [op x]) op); [done|]. by intros x [? ?]. Qed.

Lemma write_patches_does p : does (mfor p (write_patch ws)) (Forall patch_valid p) (on_nodes (map patch_op p)).
Proof.
  eapply does_ext; [apply does_for; intros lp; apply write_patch_does|done|].
  intros g _. apply on_nodes_foldl.
Qed.

(** *** The edge phase *)

Lemma dset_group t (e : (string * string) * obj) (gr : list (string * edge_dict)) :
  concat (map snd (dset t ((match dget t gr with Some rs => rs | None => [] end) ++ [e]) gr))
  ≡ₚ concat (map snd gr) ++ [e].
Proof.
  induction gr as [|[t' rs] gr IH]; simpl; [done|]. destruct (decide (t = t')) as [->|Hne]; simpl.
  - rewrite -!app_assoc. apply Permutation_app_head. apply Permutation_app_comm.
  - by rewrite IH app_assoc.
Qed.

Lemma elem_dset_group {V} (t : string) (v : V) gr x : x ∈ dset t v gr -> x = (t, v) \/ x ∈ gr.
Proof.
  induction gr as [|[t' v'] gr IH]; simpl; [intros ->%list_elem_of_singleton; by left|].
  destruct (decide (t = t')) as [->|]; rewrite !elem_of_cons; [tauto|]. intros [?|[?|?]%IH]; tauto.
Qed.

Definition group_ok (grp : string * edge_dict) : Prop :=
  grp.2 <> [] /\ Forall (fun e => edge_type_of e.2 = Ok grp.1) grp.2.

Lemma group_edges_spec edges : forall gr, Forall group_ok gr ->
  match group_edges edges gr with
  | Ok gr' => concat (map snd gr') ≡ₚ concat (map snd gr) ++ edges /\ Forall group_ok gr'
  | Err _ => ~ Forall edge_valid edges
  end.
Proof.
  induction edges as [|e edges IH]; intros gr Hgr; simpl; [by rewrite app_nil_r|].
  destruct (edge_type_of e.2) as [t|x] eqn:Et; simpl.
  - set (rs := match dget t gr with Some rs => rs | None => [] end ++ [e]).
    assert (Hg : Forall group_ok (dset t rs gr)).
    { apply Forall_forall. intros grp [->|Hin]%elem_dset_group; [|by eapply Forall_forall in Hgr].
      split; [unfold rs; simpl; by destruct (match dget t gr with Some rs => rs | None => [] end)|].
      simpl. unfold rs. apply Forall_app. split; [|by apply Forall_singleton].
      destruct (dget t gr) as [rs0|] eqn:E; [|by apply Forall_nil_2]. apply dget_elem in E.
      eapply Forall_forall in Hgr as [_ Hgr]; [|exact E]. exact Hgr. }
    specialize (IH (dset t rs gr) Hg). destruct (group_edges edges (dset t rs gr)).
    + destruct IH as [Hp Ho]. split; [|done]. rewrite Hp. unfold rs. rewrite dset_group.
      by rewrite -app_assoc.
    + intros [_ He]%Forall_cons. by apply IH.
  - intros [(t & E & _) _]%Forall_cons. congruence.
Qed.
Definition edge_step (e : (string * string) * obj) (g : graph) : graph :=
  MkDb (run_n (endpoint_ops e) (db_nodes g)) (run_e [edge_op e] (db_edges g)).
Definition on_edges (es : edge_dict) (g : graph) : graph :=
  MkDb (run_n (concat (map endpoint_ops es)) (db_nodes g)) (run_e (eops es) (db_edges g)).

Lemma merge_edge_step t e g :
  edge_type_of e.2 = Ok t ->
  merge_edge_row ws t cb e.1.1 e.1.2 (_build_edge_props e.2 e.1.1 e.1.2 ws) g = edge_step e g.
Proof.
  intros Et. unfold merge_edge_row, edge_step, edge_op, etype. rewrite Et. simpl. f_equal.
  apply map_eq. intros k. destruct (decide ((e.1.1, e.1.2, cypher_name t, ws) = k)) as [<-|Hne].
  - by rewrite lookup_insert_eq lookup_partial_alter_eq.
  - by rewrite lookup_insert_ne // lookup_partial_alter_ne.
Qed.

Lemma foldl_edge_step es g : foldl (fun g e => edge_step e g) g es = on_edges es g.
Proof.
  revert g. induction es as [|e es IH]; intros g; [by destruct g|]. cbn [foldl]. rewrite IH.
  unfold on_edges, edge_step. cbn [db_nodes db_edges].
  change (concat (map endpoint_ops (e :: es))) with (endpoint_ops e ++ concat (map endpoint_ops es)).
  by rewrite run_app.
Qed.

Lemma foldl_groups {A B} (f : B -> A -> A) (groups : list (string * list B)) g
    (srt : list B -> list B) :
  foldl (fun g grp => foldl (fun g e => f e g) g (srt grp.2)) g groups
  = foldl (fun g e => f e g) g (concat (map (fun grp => srt grp.2) groups)).
Proof.
  revert g. induction groups as [|grp groups IH]; intros g; [done|]. simpl. by rewrite foldl_app IH.
Qed.

Lemma const_perm {A} (c : A) l l' : (forall x, x ∈ l -> x = c) -> l ≡ₚ l' -> l = l'.
Proof.
  intros Hc Hp. induction Hp as [|x l l' _ IH|x y l|l1 l2 l3 H1 IH1 H2 IH2]; [done| | |].
  - f_equal. apply IH. intros y Hy. apply Hc. by right.
  - assert (x = c) as -> by (apply Hc; right; left). by assert (y = c) as -> by (apply Hc; left).
  - rewrite IH1 //. apply IH2. intros x Hx. apply Hc. by rewrite H1.
Qed.

Lemma elem_endpoints k es o : o ∈ at_key k (concat (map endpoint_ops es)) -> o = (k, OEnsure).
Proof.
  destruct o as [k' o]. intros [Hk Hin]%list_elem_of_filter. simpl in Hk. subst k'. f_equal.
  apply list_elem_of_In, in_concat in Hin as (ops & Hops & Hin).
  apply in_map_iff in Hops as (e & <- & _). by destruct Hin as [[= _ <-]|[[= _ <-]|[]]].
Qed.

Lemma eops_NoDup es : NoDup (dkeys es) -> NoDup (map fst (eops es)).
Proof.
  intros Hn. apply (NoDup_fmap_1 (fun k : edge_key => (k.1.1.1, k.1.1.2))).
  assert (E : map (fun k : edge_key => (k.1.1.1, k.1.1.2)) (map fst (map edge_op es)) = dkeys es).
  { rewrite !map_map. apply map_ext. by intros [[? ?] ?]. }
  exact (eq_ind_r (fun l => NoDup l) Hn E).
Qed.

(** The order of the edges does not matter. *)
Lemma on_edges_perm es es' g : es ≡ₚ es' -> NoDup (dkeys es) -> on_edges es g = on_edges es' g.
Proof.
  intros Hp Hn. unfold on_edges. f_equal.
  - apply run_ext. intros k x. f_equal. apply (const_perm (k, OEnsure)).
    + intros o. apply elem_endpoints.
    + unfold at_key. by rewrite Hp.
  - apply run_ext. intros k x. f_equal. unfold eops. apply at_key_perm; [by rewrite Hp|].
    by apply eops_NoDup.
Qed.
Lemma groups_does groups :
  Forall group_ok groups ->
  does (mfor groups (fun grp =>
          mlift (_validate_identifier grp.1) ;;;
          mfor (merge_sort le_key grp.2) (fun e =>
            mmodify (merge_edge_row ws grp.1 cb e.1.1 e.1.2 (_build_edge_props e.2 e.1.1 e.1.2 ws)))))
    (Forall (fun grp => valid_name grp.1) groups)
    (on_edges (concat (map (fun grp => merge_sort le_key grp.2) groups))).
Proof.
  intros Ho. eapply does_ext; [apply (does_for _ (fun grp => valid_name grp.1)); intros grp;
      eapply does_ext; [apply does_bind; [apply does_check|apply does_for; intros e; apply does_modify]| |]|done|].
  - split; [by intros [? _]|]. intros Hv. split; [exact Hv|by apply Forall_true].
  - intros g0 _. unfold id. reflexivity.
  - intros g0 _. cbv beta. rewrite -foldl_edge_step -(foldl_groups edge_step).
    revert g0. induction Ho as [|grp groups [_ Ht] _ IH]; intros g0; [done|].
    cbn [foldl]. rewrite IH. f_equal.
    assert (Hs : Forall (fun e => edge_type_of e.2 = Ok grp.1) (merge_sort le_key grp.2))
      by by rewrite merge_sort_Permutation.
    clear -Hs. revert g0. induction Hs as [|e l He _ IH]; intros g0; [done|].
    cbn [foldl]. by rewrite merge_edge_step.
Qed.

Lemma write_edges_does es :
  NoDup (dkeys es) -> does (write_edges es ws cb) (Forall edge_valid es) (on_edges es).
Proof.
  intros Hn g r g'. unfold write_edges. unfold mbind at 1, mlift at 1.
  pose proof (group_edges_spec es [] (Forall_nil_2 _)) as Hg.
  destruct (group_edges es []) as [groups|x]; [|intros [= <- <-]; by split].
  destruct Hg as [Hp Ho]. simpl in Hp.
  assert (Hall : Forall (fun grp => valid_name grp.1) groups <-> Forall edge_valid es).
  { rewrite -Hp. rewrite Forall_concat Forall_map !Forall_forall.
    split; intros Hv grp Hin; eapply Forall_forall in Ho as [Hne Ht]; [|exact Hin| |exact Hin].
    - eapply Forall_impl; [exact Ht|]. intros e Ee. exists grp.1. split; [exact Ee|by apply Hv].
    - specialize (Hv grp Hin). destruct (grp.2) as [|e l] eqn:E; [done|].
      apply Forall_cons in Hv as [(t & E1 & E2) _]. apply Forall_cons in Ht as [E3 _]. congruence. }
  intros [Hr Hs]%(groups_does groups Ho). split; [by rewrite Hr|]. intros Hok. rewrite Hs //.
  symmetry. apply on_edges_perm; [|done].
  rewrite -{1}Hp. clear. induction groups as [|grp groups IH]; [done|]. simpl.
  by rewrite merge_sort_Permutation IH.
Qed.

(** The whole batch: it succeeds exactly when every name is a valid identifier,
    and then runs its operations. *)
Definition batch_valid (n : node_dict) (es : edge_dict) (p : list patch) : Prop :=
  Forall node_valid n /\ Forall patch_valid p /\ Forall edge_valid es.
Definition batch_effect (n : node_dict) (es : edge_dict) (p : list patch) (g : graph) : graph :=
  MkDb (run_n (nops n p es) (db_nodes g)) (run_e (eops es) (db_edges g)).

Lemma write_batch_does n es p :
  NoDup (dkeys n) -> NoDup (dkeys es) ->
  does (_write_batch n es p ws cb) (batch_valid n es p) (batch_effect n es p).
Proof.
  intros Hn He. eapply does_ext.
  - apply does_bind; [by apply write_nodes_does|]. apply does_bind; [apply write_patches_does|].
    by apply write_edges_does.
  - done.
  - intros g _. unfold on_edges, batch_effect, nops. simpl. by rewrite !run_app.
Qed.
End batch.

(** ** Label effects

    What the label statements of a flush do to a node's labels: plain labels are
    cleared and set; terminal labels only move up the lattice. *)

Definition T : gset string := list_to_set _TERMINAL_LABELS.
Definition rank (ls : gset string) : nat :=
  if decide ("ForkedSession" ∈ ls) then 3 else if decide ("SubSession" ∈ ls) then 2
  else if decide ("RootSession" ∈ ls) then 1 else 0.
Definition top (r : nat) : gset string :=
  match r with 0 => ∅ | 1 => {["RootSession"]} | 2 => {["SubSession"]} | _ => {["ForkedSession"]} end.

Definition eff (c s : gset string) (r : nat) (ls : gset string) : gset string :=
  ((ls ∖ T) ∖ c ∪ s) ∪ (if decide (r = 0) then ls ∩ T else top (Nat.max (rank ls) r)).
(** [f] clears and sets plain labels and raises the terminal label. *)
Definition is_eff (f : gset string -> gset string) : Prop :=
  exists c s r, s ## T /\ r <= 3 /\ forall ls, f ls = eff c s r ls.

Lemma elem_T x : x ∈ T <-> x = "ForkedSession" \/ x = "SubSession" \/ x = "RootSession".
Proof. unfold T, _TERMINAL_LABELS. simpl. rewrite !elem_of_union !elem_of_singleton elem_of_empty. tauto. Qed.

Lemma rank_le ls : rank ls <= 3.
Proof. unfold rank. repeat case_decide; lia. Qed.
Lemma top_T r : top r ⊆ T.
Proof. intros x. rewrite elem_T. destruct r as [|[|[|]]]; simpl; rewrite ?elem_of_empty ?elem_of_singleton; tauto. Qed.
Lemma rank_top r : r <= 3 -> rank (top r) = r.
Proof.
  intros Hr. do 4 (destruct r as [|r]; [vm_compute; done|]). lia.
Qed.
(** The rank only looks at the terminal labels. *)
Lemma rank_ext a b : a ∩ T = b ∩ T -> rank a = rank b.
Proof.
  intros E. assert (Hx : forall x, x ∈ T -> (x ∈ a <-> x ∈ b)).
  { intros x Hx. assert (Hi : x ∈ a ∩ T <-> x ∈ b ∩ T) by by rewrite E.
    rewrite !elem_of_intersection in Hi. tauto. }
  pose proof (Hx "ForkedSession" (proj2 (elem_T _) (or_introl eq_refl))).
  pose proof (Hx "SubSession" (proj2 (elem_T _) (or_intror (or_introl eq_refl)))).
  pose proof (Hx "RootSession" (proj2 (elem_T _) (or_intror (or_intror eq_refl)))).
  unfold rank. repeat case_decide; tauto.
Qed.

Lemma eff_terminal c s r ls : s ## T ->
  eff c s r ls ∩ T = if decide (r = 0) then ls ∩ T else top (Nat.max (rank ls) r).
Proof.
  intros Hs. unfold eff. pose proof (top_T (Nat.max (rank ls) r)). case_decide; set_solver.
Qed.
Lemma eff_plain c s r ls : s ## T -> eff c s r ls ∖ T = (ls ∖ T) ∖ c ∪ s.
Proof.
  intros Hs. unfold eff. pose proof (top_T (Nat.max (rank ls) r)). case_decide; set_solver.
Qed.
Lemma rank_eff c s r ls : s ## T -> r <= 3 -> rank (eff c s r ls) = if decide (r = 0) then rank ls else Nat.max (rank ls) r.
Proof.
  intros Hs Hr. pose proof (rank_le ls). case_decide as Hd.
  - apply rank_ext. rewrite eff_terminal //. by rewrite decide_True.
  - rewrite -(rank_top (Nat.max (rank ls) r)); [|lia]. apply rank_ext. rewrite eff_terminal // decide_False //.
    pose proof (top_T (Nat.max (rank ls) r)). set_solver.
Qed.
Lemma is_eff_id : is_eff id.
Proof.
  exists ∅, ∅, 0. split_and!; [set_solver|lia|]. intros ls. apply set_eq. intros x. unfold eff, id. simpl.
  destruct (decide (x ∈ T)); set_solver.
Qed.

Lemma eff_eff c1 s1 r1 c2 s2 r2 ls :
  s1 ## T -> r1 <= 3 ->
  eff c2 s2 r2 (eff c1 s1 r1 ls) = eff (c1 ∪ c2) (s1 ∖ c2 ∪ s2) (Nat.max r1 r2) ls.
Proof.
  intros Hs1 Hr1. unfold eff at 1. rewrite eff_plain // eff_terminal // rank_eff //.
  unfold eff. f_equal; [set_solver|].
  pose proof (rank_le ls). repeat case_decide; try lia; try done; f_equal; lia.
Qed.

Lemma is_eff_comp f g : is_eff f -> is_eff g -> is_eff (fun ls => g (f ls)).
Proof.
  intros (c1 & s1 & r1 & Hs1 & Hr1 & H1) (c2 & s2 & r2 & Hs2 & Hr2 & H2).
  exists (c1 ∪ c2), (s1 ∖ c2 ∪ s2), (Nat.max r1 r2). split_and!; [set_solver|lia|].
  intros ls. rewrite H1 H2. by apply eff_eff.
Qed.

Lemma eff_idem f : is_eff f -> forall ls, f (f ls) = f ls.
Proof.
  intros (c & s & r & Hs & Hr & Hf) ls. rewrite !Hf. unfold eff at 1.
  rewrite eff_plain // eff_terminal // rank_eff //. unfold eff. f_equal; [set_solver|].
  case_decide; [done|]. f_equal. lia.
Qed.

Lemma norm_spec (x : gset string) : rank x <> 0 -> _LATTICE_NORMALIZATION x = (x ∖ T) ∪ top (rank x).
Proof.
  intros Hr. unfold _LATTICE_NORMALIZATION.
  assert (HT : forall l, l ∈ T <-> _) by exact elem_T.
  apply set_eq. intros l. rewrite elem_of_union elem_of_difference HT.
  unfold rank in *. destruct (decide ("ForkedSession" ∈ x)) as [Hf|Hf].
  - rewrite decide_False; [|rewrite !elem_of_difference !elem_of_singleton; tauto]. simpl.
    rewrite !elem_of_difference !elem_of_singleton.
    destruct (decide (l = "ForkedSession")) as [->|]; [|tauto]. split; [by right|]. intros _. done.
  - destruct (decide ("SubSession" ∈ x)) as [Hs|Hs].
    + simpl. rewrite elem_of_difference !elem_of_singleton.
      destruct (decide (l = "SubSession")) as [->|]; [split; [by right|done]|].
      destruct (decide (l = "ForkedSession")) as [->|]; tauto.
    + destruct (decide ("RootSession" ∈ x)) as [Hro|Hro]; [|done]. simpl. rewrite elem_of_singleton.
      destruct (decide (l = "RootSession")) as [->|]; [split; [by right|done]|].
      destruct (decide (l = "ForkedSession")) as [->|]; [tauto|].
      destruct (decide (l = "SubSession")) as [->|]; tauto.
Qed.

Lemma rank_union a b : rank (a ∪ b) = Nat.max (rank a) (rank b).
Proof. unfold rank. repeat case_decide; set_solver by lia. Qed.
(** A label Cypher reads as it is written. *)
Definition plain (l : string) : Prop := cypher_name l = l.

Lemma map_plain ls : Forall plain ls -> map cypher_name ls = ls.
Proof. induction 1 as [|l ls Hl _ IH]; simpl; [done|]. by rewrite Hl IH. Qed.

Lemma rank_list (ls : list string) : rank (list_to_set ls) <> 0 <-> existsb is_terminal_label ls = true.
Proof.
  rewrite existsb_exists. setoid_rewrite <- list_elem_of_In.
  assert (Ht : forall x, is_terminal_label x = true <-> x ∈ T).
  { intros x. unfold is_terminal_label, T. by rewrite bool_decide_eq_true elem_of_list_to_set. }
  setoid_rewrite Ht. unfold rank. split.
  - setoid_rewrite <- (elem_of_list_to_set (C := gset string)).
    repeat case_decide; intros Hr; [exists "ForkedSession"|exists "SubSession"|exists "RootSession"|done];
      (split; [done|apply elem_T; auto]).
  - intros (x & Hx & Hx'%elem_T). rewrite -(elem_of_list_to_set (C := gset string)) in Hx.
    repeat case_decide; [done..|]. destruct Hx' as [->|[->| ->]]; done.
Qed.

Lemma labels_eff ls x :
  Forall plain ls -> labels_effect ls x = eff ∅ (list_to_set ls ∖ T) (rank (list_to_set ls)) x.
Proof.
  intros Hp. unfold labels_effect. rewrite map_plain //.
  destruct (existsb is_terminal_label ls) eqn:Et.
  - apply rank_list in Et. unfold eff. rewrite decide_False // norm_spec; [|rewrite rank_union; lia].
    rewrite rank_union. f_equal. set_solver.
  - assert (Hr : rank (list_to_set ls) = 0).
    { destruct (decide (rank (list_to_set ls) = 0)) as [|Hn]; [done|].
      apply rank_list in Hn. congruence. }
    unfold eff. rewrite Hr /=.
    assert (HT : (list_to_set ls : gset string) ∩ T = ∅).
    { unfold rank in Hr. apply set_eq. intros y. rewrite elem_of_intersection elem_T elem_of_empty.
      split; [|done]. intros [Hy [->|[->| ->]]]; repeat case_decide; done. }
    apply set_eq. intros y. destruct (decide (y ∈ T)); set_solver.
Qed.

Lemma foldl_is_eff {A} (F : A -> gset string -> gset string) xs :
  (forall x, x ∈ xs -> is_eff (F x)) -> is_eff (fun ls => foldl (fun ls x => F x ls) ls xs).
Proof.
  induction xs as [|x xs IH]; intros HF; simpl; [exact is_eff_id|].
  apply (is_eff_comp (F x) (fun ls => foldl (fun ls x => F x ls) ls xs)); [apply HF; by left|]. apply IH. intros y Hy. apply HF. by right.
Qed.

(** A patch takes a terminal label away only when it adds a higher one. *)
Definition rank1 (l : string) : nat := rank {[l]}.
Definition patch_allowed (lp : patch) : Prop :=
  forall l, l ∈ p_remove lp -> l ∈ T -> exists l', l' ∈ p_add lp /\ rank1 l < rank1 l'.
Lemma foldl_remove xs (ls : gset string) :
  foldl (fun ls l => ls ∖ {[cypher_name l]}) ls xs = ls ∖ list_to_set (map cypher_name xs).
Proof.
  revert ls. induction xs as [|l xs IH]; intros ls; simpl; [set_solver|]. rewrite IH. set_solver.
Qed.

Lemma rank_mono a b : a ⊆ b -> rank a <= rank b.
Proof. intros Hab. unfold rank. repeat case_decide; try lia; set_solver. Qed.

(** Adding labels one by one adds their plain part and raises to their top. *)
Lemma adds_eff xs ls :
  Forall plain xs ->
  foldl (fun ls l => labels_effect [l] ls) ls xs
  = eff ∅ (list_to_set xs ∖ T) (rank (list_to_set xs)) ls.
Proof.
  intros Hp. revert ls. induction Hp as [|l xs Hl Hp IH]; intros ls; cbn [foldl].
  - symmetry. unfold eff. simpl. apply set_eq. intros y. destruct (decide (y ∈ T)); set_solver.
  - rewrite IH labels_eff; [|by apply Forall_singleton]. rewrite eff_eff; [|set_solver|apply rank_le].
    rewrite -rank_union /= !(right_id_L ∅ (∪)) difference_empty_L difference_union_distr_l_L. done.
Qed.

Lemma patch_eff lp ls :
  Forall plain (p_remove lp) -> Forall plain (p_add lp) -> patch_allowed lp ->
  patch_effect lp ls
  = eff (list_to_set (p_remove lp) ∖ T) (list_to_set (p_add lp) ∖ T) (rank (list_to_set (p_add lp))) ls.
Proof.
  intros Hr Ha Hal. unfold patch_effect. rewrite foldl_remove map_plain // adds_eff //.
  set (R := list_to_set (p_remove lp) : gset string). set (A := list_to_set (p_add lp) : gset string).
  assert (Hhigh : forall l, l ∈ R -> l ∈ T -> rank1 l < rank A).
  { intros l Hl HlT. destruct (Hal l) as (l' & Hl' & Hlt); [by apply elem_of_list_to_set in Hl|done|].
    eapply Nat.lt_le_trans; [exact Hlt|]. apply rank_mono. intros y ->%elem_of_singleton.
    by apply elem_of_list_to_set. }
  unfold eff. f_equal; [set_solver|]. case_decide as H0.
  - apply set_eq. intros y. rewrite !elem_of_intersection elem_of_difference.
    split; [tauto|]. intros [Hy HyT]. split_and!; [done| |done]. intros HyR.
    specialize (Hhigh y HyR HyT). lia.
  - f_equal. pose proof (rank_mono (ls ∖ R) ls ltac:(set_solver)) as Hm.
    destruct (decide (rank ls <= rank A)) as [|Hgt]; [lia|].
    assert (Hk : forall l, l ∈ T -> rank A <= rank1 l -> (l ∈ ls ∖ R <-> l ∈ ls)).
    { intros l HlT Hle. rewrite elem_of_difference. split; [tauto|]. intros Hl. split; [done|].
      intros HlR. specialize (Hhigh l HlR HlT). lia. }
    assert (E : rank (ls ∖ R) = rank ls); [|by rewrite E].
    pose proof (Hk "ForkedSession" (proj2 (elem_T _) (or_introl eq_refl))) as KF.
    pose proof (Hk "SubSession" (proj2 (elem_T _) (or_intror (or_introl eq_refl)))) as KS.
    pose proof (Hk "RootSession" (proj2 (elem_T _) (or_intror (or_intror eq_refl)))) as KR.
    change (rank1 "ForkedSession") with 3 in KF. change (rank1 "SubSession") with 2 in KS.
    change (rank1 "RootSession") with 1 in KR.
    clearbody A. pose proof (rank_le A). specialize (KF ltac:(lia)).
    generalize dependent (rank A). intros a. intros. clear -KF KS KR Hgt Hm.
    unfold rank in *. repeat case_decide; try done; try lia; exfalso; first [tauto|specialize (KS ltac:(lia)); tauto|specialize (KR ltac:(lia)); tauto].
Qed.
(** ** Repeating a prefix of a flush changes nothing *)

Definition label_op_ok (o : nop) : Prop :=
  match o with
  | OSession _ _ | OOther _ _ => False
  | OLabels ls => Forall plain ls
  | OPatch lp => Forall plain (p_remove lp) /\ Forall plain (p_add lp) /\ patch_allowed lp
  | OEnsure => True
  end.

Lemma run_label_ops k (ops : list (node_key * nop)) :
  Forall (fun o => label_op_ok o.2) ops ->
  exists E, is_eff E /\ forall n, run1 apply_nop k ops (Some n) = Some (map_labels E n).
Proof.
  induction 1 as [|[k' o] ops Ho _ (E & HE & IH)]; [exists id; split; [apply is_eff_id|by intros []]|].
  assert (exists E1, is_eff E1 /\ forall n, apply_nop k o (Some n) = Some (map_labels E1 n)) as (E1 & H1 & H2).
  { destruct o as [| |ls|lp|]; simpl in Ho; [done|done| | |].
    - exists (labels_effect ls). split; [|done]. eexists _, _, _. split_and!; [| |intros; by apply labels_eff];
        [set_solver|apply rank_le].
    - destruct Ho as (Hr & Ha & Hal). exists (patch_effect lp). split; [|done].
      eexists _, _, _. split_and!; [| |intros; by apply patch_eff]; [set_solver|apply rank_le].
    - exists id. split; [apply is_eff_id|]. by intros []. }
  exists (fun ls => E (E1 ls)). split; [by apply is_eff_comp|]. intros n. simpl. rewrite H2 IH. done.
Qed.

Lemma lookup_coalesce key v (m : gmap string pval) k :
  coalesce key v m !! k = if decide (k = key) then match m !! k with Some x => Some x | None => PJson <$> v end else m !! k.
Proof.
  unfold coalesce. destruct (decide (k = key)) as [->|Hne].
  - destruct (m !! key) eqn:E, v; simpl; rewrite ?lookup_insert_eq ?E //.
  - destruct (m !! key), v; rewrite ?lookup_insert_ne //.
Qed.

Lemma set_props_idem P (m : gmap string pval) : set_props P (set_props P m) = set_props P m.
Proof.
  apply map_eq. intros k. unfold set_props. rewrite !lookup_union.
  by destruct (list_to_map P !! k), (m !! k).
Qed.

Lemma session_props_idem r m : session_props r (session_props r m) = session_props r m.
Proof.
  apply map_eq. intros k. unfold session_props, set_props.
  repeat first [rewrite lookup_coalesce|rewrite lookup_union].
  destruct (list_to_map (row_props r) !! k) as [v|] eqn:E; simpl.
  - repeat case_decide; destruct (m !! k); done.
  - repeat case_decide; destruct (m !! k); simpl;
      try destruct (row_working_dir r); try destruct (row_status_if_absent r); simpl; done.
Qed.

Definition is_row (o : nop) : Prop := match o with OSession _ _ | OOther _ _ => True | _ => False end.

Lemma row_effect k o : is_row o ->
  exists h E, (forall m, h (h m) = h m) /\ is_eff E
    /\ (forall n, apply_nop k o (Some n) = Some (map_props h (map_labels E n)))
    /\ (exists n0, apply_nop k o None = apply_nop k o (Some n0)).
Proof.
  destruct o as [cb r|cb r|ls|lp|]; try done; intros _.
  - exists (session_props r), (fun ls => ls ∪ {["Session"]}). split_and!; [apply session_props_idem| |done|].
    + exists ∅, {["Session"]}, 0. split_and!; [|lia|].
      * intros x ->%elem_of_singleton Hx. by apply elem_T in Hx as [?|[?|?]].
      * intros ls. unfold eff. simpl. apply set_eq. intros y. destruct (decide (y ∈ T)); set_solver.
    + by exists (merged k cb None).
  - exists (set_props (row_props r)), id. split_and!; [apply set_props_idem|apply is_eff_id| |].
    + by intros [].
    + by exists (merged k cb None).
Qed.

Lemma absorbs_idem k (ops : list (node_key * nop)) :
  (forall p x, p `prefix_of` ops -> run1 apply_nop k p (run1 apply_nop k p x) = run1 apply_nop k p x) ->
  absorbs apply_nop k ops.
Proof. intros Hi p x Hp. pose proof Hp as [q ->]. by rewrite !run1_app Hi. Qed.

Lemma absorbs_node k (r : node_key * nop) rest :
  is_row r.2 -> Forall (fun o => label_op_ok o.2) rest -> absorbs apply_nop k (r :: rest).
Proof.
  intros Hr Hrest. apply absorbs_idem. intros p x Hp.
  destruct p as [|r' p]; [done|]. pose proof (prefix_cons_inv_1 _ _ _ _ Hp) as ->.
  apply prefix_cons_inv_2 in Hp as [q Hq]. rewrite Hq in Hrest. apply Forall_app in Hrest as [Hp _].
  destruct (row_effect k r.2 Hr) as (h & E & Hh & HE & Ha & n0 & Hn0).
  destruct (run_label_ops k p Hp) as (E2 & HE2 & H2). simpl.
  assert (exists n, apply_nop k r.2 x = apply_nop k r.2 (Some n)) as [n ->] by (destruct x; eauto).
  rewrite Ha H2 Ha H2. unfold map_labels, map_props. simpl. rewrite Hh. f_equal. f_equal.
  apply (eff_idem (fun ls => E2 (E ls))). by apply is_eff_comp.
Qed.

Lemma absorbs_ensure k (ops : list (node_key * nop)) :
  Forall (fun o => o.2 = OEnsure) ops -> absorbs apply_nop k ops.
Proof.
  intros Ho. apply absorbs_idem. intros p x [q ->]. apply Forall_app in Ho as [Ho _].
  assert (Hs : forall n, run1 apply_nop k p (Some n) = Some n).
  { induction Ho as [|[k' o] p Hk _ IH]; [done|]. intros n. simpl in *. by rewrite Hk /= IH. }
  destruct x as [n|]; [by rewrite !Hs|]. destruct Ho as [|[k' o] p Hk Hp]; [done|]. simpl in *. subst o.
  assert (Hs' : run1 apply_nop k p (Some (merged k None None)) = Some (merged k None None)).
  { specialize (Hs (merged k None None)). simpl in Hs. exact Hs. }
  unfold run1 in *. simpl in *. rewrite Hs'. simpl. exact Hs'.
Qed.
(** The buffers as the store's operations keep them, with plain labels and
    patches that respect the lattice. *)
Record buffers_ok (n : node_dict) (e : edge_dict) (p : list patch) : Prop := {
  ok_nodes : NoDup (dkeys n);
  ok_edges : NoDup (dkeys e);
  ok_patched : Forall (fun lp => p_node lp ∈ dkeys n) p;
  ok_labels : Forall (fun nd => Forall plain (labels_of nd.2)) n;
  ok_patches : Forall (fun lp => label_op_ok (OPatch lp)) p;
}.

Section absorb.
Context (ws : string) (cb : option string).

Lemma at_key_nodes (n : node_dict) k :
  NoDup (dkeys n) ->
  at_key k (concat (map (node_ops ws cb) n))
  = match (if decide (k.2 = ws) then dget k.1 n else None) with
    | Some d => node_ops ws cb (k.1, d)
    | None => []
    end.
Proof.
  induction n as [|[i d] n IH]; intros Hn; [by case_decide|].
  apply NoDup_cons in Hn as [Hnew Hn].
  change (concat (map (node_ops ws cb) ((i, d) :: n))) with (node_ops ws cb (i, d) ++ concat (map (node_ops ws cb) n)).
  rewrite at_key_app IH //. simpl dget.
  assert (Hops : at_key k (node_ops ws cb (i, d)) = if decide (k = (i, ws)) then node_ops ws cb (i, d) else []).
  { unfold node_ops, row_op, label_op. simpl. destruct (decide (k = (i, ws))) as [->|Hk].
    - destruct (labels_of d); rewrite ?at_key_cons_eq; done.
    - destruct (labels_of d); rewrite ?at_key_cons_ne; done. }
  rewrite Hops. destruct k as [ki kw]. simpl. destruct (decide (kw = ws)) as [->|Hw].
  - destruct (decide (ki = i)) as [->|Hne].
    + rewrite decide_True //. assert (dget i n = None) as ->; [|by rewrite app_nil_r].
      by apply dget_None_keys.
    + rewrite decide_False //. congruence.
  - rewrite decide_False //. congruence.
Qed.

Lemma nops_absorb n e p k : buffers_ok n e p -> absorbs apply_nop k (at_key k (nops ws cb n p e)).
Proof.
  intros [Hn He Hpn Hl Hp]. unfold nops. rewrite !at_key_app.
  assert (Hens : Forall (fun o => o.2 = OEnsure) (at_key k (concat (map (endpoint_ops ws) e)))).
  { apply Forall_forall. by intros o ->%elem_endpoints. }
  rewrite at_key_nodes //. destruct (if decide (k.2 = ws) then dget k.1 n else None) as [d|] eqn:Ed.
  - apply absorbs_node; [unfold row_op; simpl; by destruct (is_session d)|].
    apply Forall_app. split.
    + assert (Hd : (k.1, d) ∈ n) by (case_decide; [by apply dget_elem|done]).
      rewrite Forall_forall in Hl. specialize (Hl _ Hd). simpl in Hl. unfold label_op. simpl.
      destruct (labels_of d) eqn:E; [by apply Forall_nil_2|]. apply Forall_singleton. simpl.
      apply Forall_forall. intros x Hin. unfold label_set, py_sorted in Hin.
      rewrite merge_sort_Permutation elem_of_remove_dups E in Hin. by eapply Forall_forall in Hl.
    + apply Forall_app. split.
      * apply Forall_forall. intros o [_ Hin]%list_elem_of_filter.
        apply list_elem_of_fmap in Hin as (lp & -> & Hin). rewrite Forall_forall in Hp. exact (Hp _ Hin).
      * eapply Forall_impl; [exact Hens|]. intros o Ho. simpl in Ho. by rewrite Ho.
  - apply absorbs_ensure. cbn [app]. apply Forall_app. split; [|done].
    apply Forall_forall. intros o [Hk Hin]%list_elem_of_filter.
    apply list_elem_of_fmap in Hin as (lp & -> & Hin). exfalso. rewrite Forall_forall in Hpn.
    specialize (Hpn _ Hin). rewrite -Hk /= decide_True // in Ed. by apply dget_None_keys in Ed.
Qed.

Lemma eop_absorb k (ops : list (edge_key * (option string * list (string * pval)))) :
  NoDup (map fst ops) -> absorbs apply_eop k (at_key k ops).
Proof.
  intros Hn. assert (at_key k ops = [] \/ exists o, at_key k ops = [o]) as [->|[o ->]].
  { induction ops as [|[k' o] ops IH]; [by left|]. apply NoDup_cons in Hn as [H1 H2].
    destruct (decide (k' = k)) as [->|Hne].
    - right. rewrite at_key_cons_eq at_key_notin //. eauto.
    - rewrite at_key_cons_ne //. by apply IH. }
  - intros p x ->%prefix_nil_inv. done.
  - intros p x Hp. destruct p as [|o' p]; [done|]. pose proof (prefix_cons_inv_1 _ _ _ _ Hp) as ->.
    apply prefix_cons_inv_2 in Hp as ->%prefix_nil_inv. simpl. unfold apply_eop. by rewrite set_props_idem.
Qed.

End absorb.
(** ** Chunks *)

Section chunk_facts.
Context {A : Type} (size : A -> nat) (max_rows max_bytes : nat).
Abbreviation sum := (fun l => list_sum (map size l)).

Definition chunk_ok (c : list A) : Prop :=
  c <> [] /\ length c <= max_rows /\ (sum c <= max_bytes \/ length c = 1).

Lemma chunk_loop_spec items : forall chunk cur_bytes,
  1 <= max_rows -> (chunk = [] \/ chunk_ok chunk) -> cur_bytes = sum chunk ->
  concat (chunk_loop size max_rows max_bytes chunk cur_bytes items) = chunk ++ items
  /\ Forall chunk_ok (chunk_loop size max_rows max_bytes chunk cur_bytes items).
Proof.
  induction items as [|x items IH]; intros chunk cur Hr Hc Hs; cbn [chunk_loop].
  - destruct chunk; [done|]. destruct Hc as [|Hc]; [done|]. simpl. split; [done|by apply Forall_singleton].
  - assert (H1 : chunk_ok [x]) by (split_and!; [done|done|by right]).
    destruct chunk as [|y chunk].
    { destruct (IH [x] (size x) Hr) as [E F]; [by right|simpl; lia|]. by rewrite E. }
    destruct Hc as [|Hc]; [done|]. destruct (Nat.ltb_spec max_rows (S (length (y :: chunk)))) as [|Hrows]; simpl orb; cbv iota.
    { destruct (IH [x] (size x) Hr) as [E F]; [by right|simpl; lia|]. cbn [concat]. rewrite E.
      split; [done|by apply Forall_cons]. }
    destruct (Nat.ltb_spec max_bytes (cur + size x)) as [|Hbytes]; cbv iota.
    { destruct (IH [x] (size x) Hr) as [E F]; [by right|simpl; lia|]. cbn [concat]. rewrite E.
      split; [done|by apply Forall_cons]. }
    assert (Hsum : sum ((y :: chunk) ++ [x]) = cur + size x).
    { rewrite map_app list_sum_app Hs. simpl. lia. }
    destruct (IH ((y :: chunk) ++ [x]) (cur + size x) Hr) as [E F]; [|done|].
    + right. split_and!; [done|rewrite length_app; simpl in *; lia|left; lia].
    + rewrite E -app_assoc. done.
Qed.

Lemma chunks_spec items :
  1 <= max_rows ->
  concat (chunks size max_rows max_bytes items) = items
  /\ Forall chunk_ok (chunks size max_rows max_bytes items).
Proof. intros Hr. by apply chunk_loop_spec; [|left|]. Qed.
End chunk_facts.
(** ** Transactions *)

Abbreviation batch_ops := (list (node_key * nop) * list (edge_key * (option string * list (string * pval))))%type.
Abbreviation FM := (M (Neo4jGraphStore * world)).

Definition effect (o : batch_ops) (g : graph) : graph := MkDb (run_n o.1 (db_nodes g)) (run_e o.2 (db_edges g)).
Definition effects (os : list batch_ops) (g : graph) : graph := foldl (fun g o => effect o g) g os.
Definition ops_concat (os : list batch_ops) : batch_ops := (concat (map fst os), concat (map snd os)).

Lemma effects_concat os g : effects os g = effect (ops_concat os) g.
Proof.
  revert g. unfold effects. induction os as [|o os IH]; intros g; [by destruct g|]. cbn [foldl]. rewrite IH.
  unfold effect, ops_concat. simpl. by rewrite !run_app.
Qed.

(** [m] commits the batches [os] one after another, or a prefix of them when it
    fails; it succeeds only if [P].  The store is not touched. *)
Definition commits (m : FM unit) (P : Prop) (os : list batch_ops) : Prop :=
  forall st w r st' w', m (st, w) = (r, (st', w')) ->
  st' = st /\ exists ys, ys `prefix_of` os /\ w_graph w' = effects ys (w_graph w)
    /\ (r = Ok tt -> P /\ ys = os).

Lemma commits_write work P o : does work P (effect o) -> commits (execute_write work) P [o].
Proof.
  intros Hd st w r st' w'. unfold execute_write.
  destruct (match w_txs w with [] => (TxCommit, []) | o :: os => (o, os) end) as [out txs].
  destruct (work (w_graph w)) as [[[]|e] g] eqn:E.
  - destruct (Hd _ _ _ E) as [HP Hg]. specialize (Hg eq_refl). destruct HP as [HP _]. specialize (HP eq_refl).
    destruct out; intros [= <- <- <-]; (split; [done|]).
    + exists [o]. split_and!; [done|by simpl|done].
    + exists []. split_and!; [apply prefix_nil|done|done].
    + exists [o]. split_and!; [done|by simpl|done].
  - intros [= <- <- <-]. split; [done|]. exists []. split_and!; [apply prefix_nil|done|done].
Qed.

Lemma commits_nil : commits (mret tt) True [].
Proof. intros st w r st' w' [= <- <- <-]. split; [done|]. by exists []. Qed.

Lemma commits_bind m1 m2 P1 P2 o1 o2 :
  commits m1 P1 o1 -> commits m2 P2 o2 -> commits (m1 ;;; m2) (P1 /\ P2) (o1 ++ o2).
Proof.
  intros H1 H2 st w r st' w'. unfold mbind. destruct (m1 (st, w)) as [[[]|e] [st1 w1]] eqn:E1.
  - intros E2. destruct (H1 _ _ _ _ _ E1) as (-> & ys & Hys & Hg & Hok). destruct (Hok eq_refl) as [HP ->].
    destruct (H2 _ _ _ _ _ E2) as (-> & zs & Hzs & Hg2 & Hok2). split; [done|]. exists (o1 ++ zs). split_and!.
    + by apply prefix_app.
    + rewrite Hg2 Hg. unfold effects. by rewrite foldl_app.
    + intros Hr. destruct (Hok2 Hr) as [HP2 ->]. done.
  - intros [= <- <- <-]. destruct (H1 _ _ _ _ _ E1) as (-> & ys & Hys & Hg & _). split; [done|].
    exists ys. split_and!; [by apply prefix_app_r|done|done].
Qed.

Lemma commits_for {A} (xs : list A) (work : A -> M graph unit) (P : A -> Prop) (op : A -> batch_ops) :
  (forall x, x ∈ xs -> does (work x) (P x) (effect (op x))) ->
  commits (mfor xs (fun x => execute_write (work x))) (Forall P xs) (map op xs).
Proof.
  induction xs as [|x xs IH]; intros Hd.
  - intros st w r st' w' E. destruct (commits_nil _ _ _ _ _ E) as (-> & ys & ? & ? & ?).
    split; [done|]. exists ys. split_and!; [done..|]. naive_solver.
  - intros st w r st' w' E.
    destruct (commits_bind _ _ _ _ [op x] (map op xs)
      (commits_write _ _ _ (Hd x ltac:(by left))) (IH (fun y Hy => Hd y ltac:(by right))) _ _ _ _ _ E)
      as (-> & ys & Hys & Hg & Hok).
    split; [done|]. exists ys. split_and!; [done..|]. intros Hr. destruct (Hok Hr) as [[Hx Hxs] ->].
    split; [by apply Forall_cons|done].
Qed.
(** ** Flushing *)

Section flushing.
Context (ws : string) (cb : option string).

Lemma concat_NoDup {K V} (l : list (K * V)) ls :
  concat ls = l -> NoDup (dkeys l) -> forall c, c ∈ ls -> NoDup (dkeys c).
Proof.
  intros <- Hn c Hc. apply list_elem_of_split in Hc as (l1 & l2 & ->). unfold dkeys in *.
  rewrite concat_app map_app in Hn. simpl in Hn. rewrite map_app in Hn.
  apply NoDup_app in Hn as (_ & _ & Hn). by apply NoDup_app in Hn as (Hn & _).
Qed.

Definition node_batch (c : node_dict) : batch_ops := (nops ws cb c [] [], []).
Definition patch_batch (c : list patch) : batch_ops := (nops ws cb [] c [], []).
Definition edge_batch (c : edge_dict) : batch_ops := (nops ws cb [] [] c, eops ws cb c).

Lemma concat_map_concat {A B} (f : A -> list B) (ls : list (list A)) :
  concat (map (fun c => concat (map f c)) ls) = concat (map f (concat ls)).
Proof. induction ls as [|c ls IH]; [done|]. simpl. by rewrite IH map_app concat_app. Qed.
Lemma map_concat {A B} (f : A -> B) (ls : list (list A)) :
  concat (map (fun c => map f c) ls) = map f (concat ls).
Proof. induction ls as [|c ls IH]; [done|]. simpl. by rewrite IH map_app. Qed.
Lemma concat_nils {A B} (ls : list A) : concat (map (fun _ => []) ls) = ([] : list B).
Proof. by induction ls. Qed.

Lemma all_batches nch pch ech :
  ops_concat (map node_batch nch ++ map patch_batch pch ++ map edge_batch ech)
  = (nops ws cb (concat nch) (concat pch) (concat ech), eops ws cb (concat ech)).
Proof.
  unfold ops_concat. rewrite !map_app !concat_app !map_map /=.
  unfold nops, eops. simpl. rewrite !concat_nils. f_equal.
  - f_equal; [|f_equal].
    + rewrite -concat_map_concat. f_equal. apply map_ext. intros c. by rewrite app_nil_r.
    + rewrite -map_concat. f_equal. apply map_ext. intros c. by rewrite app_nil_r.
    + by rewrite -concat_map_concat.
  - simpl. by rewrite -map_concat.
Qed.

Lemma batch_empty_valid : batch_valid [] [] [].
Proof. split_and!; apply Forall_nil_2. Qed.
End flushing.

Section stores.
Context (st0 : Neo4jGraphStore).
Abbreviation ws := (workspace_of st0).
Abbreviation cb := (s_created_by st0).
Abbreviation rows := (_flush_chunk_rows st0).
Abbreviation byts := (_flush_chunk_bytes st0).

Lemma write_chunks_commits n e p :
  1 <= rows -> NoDup (dkeys n) -> NoDup (dkeys e) ->
  exists os, commits (write_chunks n e p st0) (batch_valid n e p) os
    /\ ops_concat os = (nops ws cb (merge_sort le_fst n) p (merge_sort le_key e), eops ws cb (merge_sort le_key e)).
Proof.
  intros Hrows Hn He.
  destruct (chunks_spec (fun kv : string * obj => _serialized_row_size (JObj kv.2)) rows byts (merge_sort le_fst n) Hrows) as [En _].
  destruct (chunks_spec (fun lp => _serialized_row_size (patch_json lp)) rows byts p Hrows) as [Ep _].
  destruct (chunks_spec (fun kv : (string * string) * obj => _serialized_row_size (JObj kv.2)) rows byts (merge_sort le_key e) Hrows) as [Ee _].
  set (nch := chunks _ rows byts (merge_sort le_fst n)) in En.
  set (pch := chunks _ rows byts p) in Ep.
  set (ech := chunks _ rows byts (merge_sort le_key e)) in Ee.
  exists (map (node_batch ws cb) nch ++ map (patch_batch ws cb) pch ++ map (edge_batch ws cb) ech).
  split; [|by rewrite all_batches En Ep Ee].
  assert (Hsn : NoDup (dkeys (merge_sort le_fst n))) by (unfold dkeys; by rewrite merge_sort_Permutation).
  assert (Hse : NoDup (dkeys (merge_sort le_key e))) by (unfold dkeys; by rewrite merge_sort_Permutation).
  assert (C1 : commits (mfor nch (fun c => execute_write (_write_batch c [] [] ws cb)))
                 (Forall (fun c => batch_valid c [] []) nch) (map (node_batch ws cb) nch)).
  { apply commits_for. intros c Hc. apply write_batch_does; [by eapply concat_NoDup|constructor]. }
  assert (C2 : commits (mfor pch (fun c => execute_write (_write_batch [] [] c ws cb)))
                 (Forall (fun c => batch_valid [] [] c) pch) (map (patch_batch ws cb) pch)).
  { apply commits_for. intros c Hc. apply write_batch_does; constructor. }
  assert (C3 : commits (mfor ech (fun c => execute_write (_write_batch [] c [] ws cb)))
                 (Forall (fun c => batch_valid [] c []) ech) (map (edge_batch ws cb) ech)).
  { apply commits_for. intros c Hc. apply write_batch_does; [constructor|by eapply concat_NoDup]. }
  intros st w r st' w' Hrun.
  destruct (commits_bind _ _ _ _ _ _ C1 (commits_bind _ _ _ _ _ _ C2 C3) _ _ _ _ _ Hrun) as (-> & ys & Hys & Hg & Hok).
  split; [done|]. exists ys. split_and!; [done..|]. intros Hr. destruct (Hok Hr) as [(V1 & V2 & V3) ->].
  split; [|done]. split_and!.
  - rewrite -(merge_sort_Permutation le_fst n) -En Forall_concat. eapply Forall_impl; [exact V1|]. by intros c (? & _).
  - rewrite -Ep Forall_concat. eapply Forall_impl; [exact V2|]. by intros c (_ & ? & _).
  - rewrite -(merge_sort_Permutation le_key e) -Ee Forall_concat. eapply Forall_impl; [exact V3|]. by intros c (_ & _ & ?).
Qed.

(** The order of the buffers does not matter. *)
Lemma nops_sorted n e p m :
  NoDup (dkeys n) -> run_n (nops ws cb (merge_sort le_fst n) p (merge_sort le_key e)) m = run_n (nops ws cb n p e) m.
Proof.
  intros Hn. apply run_ext. intros k x. f_equal. unfold nops. rewrite !at_key_app. f_equal; [|f_equal].
  - rewrite -!at_key_phases //; [|unfold dkeys; by rewrite merge_sort_Permutation].
    rewrite !at_key_app. f_equal; [|f_equal]; (apply (at_key_map_op ws); [done| |]).
    all: try by rewrite merge_sort_Permutation.
    all: unfold dkeys; rewrite merge_sort_Permutation; (eapply sublist_NoDup; [exact Hn|]);
      apply fmap_sublist, sublist_filter.
  - apply (const_perm (k, OEnsure)).
    + intros o. apply elem_endpoints.
    + unfold at_key. by rewrite merge_sort_Permutation.
Qed.
End stores.

Definition buffers_of (st : Neo4jGraphStore) : node_dict * edge_dict * list patch :=
  (_node_buffer st, _edge_buffer st, _label_patches st).
(** What a flush never changes. *)
Definition config_of (st : Neo4jGraphStore) : string * option string * nat * nat :=
  (workspace_of st, s_created_by st, _flush_chunk_rows st, _flush_chunk_bytes st).

Lemma ensure_schema_quiet st w r st' w' :
  _ensure_schema (st, w) = (r, (st', w')) ->
  w_graph w' = w_graph w /\ config_of st' = config_of st /\ buffers_of st' = buffers_of st.
Proof.
  unfold _ensure_schema, _schema_retry_allowed.
  destruct (_schema_initialized st || w_ready w); [by intros [= <- <- <-]|].
  destruct (w_clock w), (w_last_attempt w); repeat case_match; intros; simplify_eq/=; done.
Qed.

Lemma flush_cases st w :
  (buffers_of st = ([], [], []) /\ flush (st, w) = (Ok tt, (st, w)))
  \/ flush (st, w) =
     (on_store (set_buffers [] [] []) ;;;
      mcatch (_ensure_schema ;;; write_chunks (_node_buffer st) (_edge_buffer st) (_label_patches st) st)
        (fun x => on_store (restore (_node_buffer st) (_edge_buffer st) (_label_patches st)) ;;; mraise x)) (st, w).
Proof.
  unfold flush, _flush_body, buffers_of.
  destruct (_node_buffer st), (_edge_buffer st), (_label_patches st); by [left|right].
Qed.

Definition flush_ops (st : Neo4jGraphStore) : batch_ops :=
  (nops (workspace_of st) (s_created_by st) (merge_sort le_fst (_node_buffer st))
     (_label_patches st) (merge_sort le_key (_edge_buffer st)),
   eops (workspace_of st) (s_created_by st) (merge_sort le_key (_edge_buffer st))).

Lemma prefix_concat {A} (l l' : list (list A)) : l `prefix_of` l' -> concat l `prefix_of` concat l'.
Proof. intros [k ->]. rewrite concat_app. by eexists. Qed.
Lemma prefix_map {A B} (f : A -> B) (l l' : list A) : l `prefix_of` l' -> map f l `prefix_of` map f l'.
Proof. intros [k ->]. rewrite map_app. by eexists. Qed.

(** Every outcome of a flush. *)
Lemma flush_outcome st w r st' w' :
  1 <= _flush_chunk_rows st -> NoDup (dkeys (_node_buffer st)) -> NoDup (dkeys (_edge_buffer st)) ->
  flush (st, w) = (r, (st', w')) ->
  config_of st' = config_of st
  /\ exists ys, ys.1 `prefix_of` (flush_ops st).1 /\ ys.2 `prefix_of` (flush_ops st).2
     /\ w_graph w' = effect ys (w_graph w)
     /\ match r with
        | Ok _ => buffers_of st' = ([], [], []) /\ ys = flush_ops st
                  /\ batch_valid (_node_buffer st) (_edge_buffer st) (_label_patches st)
        | Err _ => buffers_of st' = buffers_of st
        end.
Proof.
  intros Hrows Hn He Hf. destruct (flush_cases st w) as [[Hb E]|E]; rewrite E in Hf; clear E.
  - injection Hf as <- <- <-. split; [done|]. unfold buffers_of in Hb. injection Hb as E1 E2 E3.
    unfold flush_ops. rewrite E1 E2 E3. exists ([], []).
    split_and!; [done|done|by destruct (w_graph w)| |done|apply batch_empty_valid].
    unfold buffers_of. by rewrite E1 E2 E3.
  - destruct (write_chunks_commits st _ _ (_label_patches st) Hrows Hn He) as (os & Hc & Ho).
    unfold mbind, on_store in Hf. unfold mcatch in Hf.
    destruct (_ensure_schema (set_buffers [] [] [] st, w)) as [[[]|x] [st1 w1]] eqn:Es;
      destruct (ensure_schema_quiet _ _ _ _ _ Es) as (Hg1 & Hcfg & Hb1).
    + destruct (write_chunks _ _ _ st (st1, w1)) as [r2 [st2 w2]] eqn:Ew.
      destruct (Hc _ _ _ _ _ Ew) as (-> & ys & Hys & Hg & Hok).
      assert (Hpre : (ops_concat ys).1 `prefix_of` (flush_ops st).1 /\ (ops_concat ys).2 `prefix_of` (flush_ops st).2).
      { unfold flush_ops. rewrite -Ho. split; by apply prefix_concat, prefix_map. }
      destruct r2 as [[]|x].
      * injection Hf as <- <- <-. destruct (Hok eq_refl) as [Hv ->]. split; [done|].
        exists (ops_concat os). split_and!; [apply Hpre|apply Hpre| |done|exact Ho|exact Hv].
        by rewrite Hg Hg1 effects_concat.
      * injection Hf as <- <- <-. split; [done|].
        exists (ops_concat ys). split_and!; [apply Hpre|apply Hpre| |].
        -- by rewrite Hg Hg1 effects_concat.
        -- unfold buffers_of in *. injection Hb1 as F1 F2 F3. unfold restore. simpl. by rewrite F1 F2 F3 app_nil_r.
    + injection Hf as <- <- <-. split; [done|]. exists ([], []). split_and!; [apply prefix_nil|apply prefix_nil| |].
      * rewrite Hg1. by destruct (w_graph w).
      * unfold buffers_of in *. injection Hb1 as F1 F2 F3. unfold restore. simpl. by rewrite F1 F2 F3 app_nil_r.
Qed.

Lemma eops_sorted ws cb e m :
  NoDup (dkeys e) -> run_e (eops ws cb (merge_sort le_key e)) m = run_e (eops ws cb e) m.
Proof.
  intros Hn. apply run_ext. intros k x. f_equal. unfold eops. apply at_key_perm; [by rewrite merge_sort_Permutation|].
  apply (eops_NoDup ws cb). unfold dkeys. by rewrite merge_sort_Permutation.
Qed.

Lemma effect_flush st g :
  NoDup (dkeys (_node_buffer st)) -> NoDup (dkeys (_edge_buffer st)) ->
  effect (flush_ops st) g
  = batch_effect (workspace_of st) (s_created_by st) (_node_buffer st) (_edge_buffer st) (_label_patches st) g.
Proof. intros Hn He. unfold effect, batch_effect, flush_ops. simpl. by rewrite nops_sorted // eops_sorted. Qed.

Lemma batch_runs ws cb n e p g :
  NoDup (dkeys n) -> NoDup (dkeys e) -> batch_valid n e p ->
  _write_batch n e p ws cb g = (Ok tt, batch_effect ws cb n e p g).
Proof.
  intros Hn He Hv. destruct (_write_batch n e p ws cb g) as [r g'] eqn:E.
  destruct (write_batch_does ws cb n e p Hn He _ _ _ E) as [Hok Hg].
  apply Hok in Hv as ->. by rewrite Hg.
Qed.

(** C23: chunking is invisible.  Whatever the row and byte limits, a flush that
    succeeds leaves the buffers empty and the database exactly as one
    transaction writing the whole buffer at once would: the order of the rows,
    the cuts between chunks and the grouping by type make no difference. *)
Theorem flush_equals_one_batch (st st' : Neo4jGraphStore) (w w' : world) :
  1 <= _flush_chunk_rows st -> NoDup (dkeys (_node_buffer st)) -> NoDup (dkeys (_edge_buffer st)) ->
  flush (st, w) = (Ok tt, (st', w')) ->
  (_node_buffer st', _edge_buffer st', _label_patches st') = ([], [], [])
  /\ _write_batch (_node_buffer st) (_edge_buffer st) (_label_patches st) (workspace_of st) (s_created_by st) (w_graph w)
     = (Ok tt, w_graph w').
Proof.
  intros Hr Hn He Hf. destruct (flush_outcome _ _ _ _ _ Hr Hn He Hf) as (_ & ys & _ & _ & Hg & Hb & -> & Hv).
  split; [exact Hb|]. rewrite Hg effect_flush //. by apply batch_runs.
Qed.

(** A flush that failed is tried again, until one succeeds. *)
Inductive attempts : Neo4jGraphStore * world -> Neo4jGraphStore * world -> Prop :=
  | att_ok s s' : flush s = (Ok tt, s') -> attempts s s'
  | att_retry s s1 s' e : flush s = (Err e, s1) -> attempts s1 s' -> attempts s s'.

Lemma buffers_ok_sorted n e p :
  buffers_ok n e p -> buffers_ok (merge_sort le_fst n) (merge_sort le_key e) p.
Proof.
  intros [H1 H2 H3 H4 H5]. split; unfold dkeys in *; rewrite ?merge_sort_Permutation //.
  eapply Forall_impl; [exact H3|]. intros lp. by rewrite merge_sort_Permutation.
Qed.

(** Whatever a failed flush committed, the next one writes over it. *)
Lemma effect_absorb st ys g :
  buffers_ok (_node_buffer st) (_edge_buffer st) (_label_patches st) ->
  ys.1 `prefix_of` (flush_ops st).1 -> ys.2 `prefix_of` (flush_ops st).2 ->
  effect (flush_ops st) (effect ys g) = effect (flush_ops st) g.
Proof.
  intros Hok H1 H2. unfold effect. simpl. f_equal; apply run_absorb; try done.
  - intros k. by apply nops_absorb, buffers_ok_sorted.
  - intros k. apply eop_absorb, eops_NoDup. unfold dkeys. rewrite merge_sort_Permutation. apply Hok.
Qed.

(** C22: a failed flush loses nothing and repeating it is harmless.  A flush that
    raises (a rolled back or lost transaction, a schema failure, an invalid
    name) leaves exactly the buffers it found; and if flushing is repeated until
    it succeeds, the database is what one successful flush from the start would
    have made of it, however many chunks earlier attempts had committed. *)
Theorem flush_retry_converges (st : Neo4jGraphStore) (w : world) (s' : Neo4jGraphStore * world) :
  1 <= _flush_chunk_rows st -> buffers_ok (_node_buffer st) (_edge_buffer st) (_label_patches st) ->
  (forall e st1 w1, flush (st, w) = (Err e, (st1, w1)) ->
     _node_buffer st1 = _node_buffer st /\ _edge_buffer st1 = _edge_buffer st
     /\ _label_patches st1 = _label_patches st)
  /\ (attempts (st, w) s' ->
      (_node_buffer s'.1, _edge_buffer s'.1, _label_patches s'.1) = ([], [], [])
      /\ _write_batch (_node_buffer st) (_edge_buffer st) (_label_patches st) (workspace_of st) (s_created_by st) (w_graph w)
         = (Ok tt, w_graph s'.2)).
Proof.
  intros Hr Hok. split.
  - intros e st1 w1 Hf. destruct (flush_outcome _ _ _ _ _ Hr (ok_nodes _ _ _ Hok) (ok_edges _ _ _ Hok) Hf)
      as (_ & _ & _ & _ & _ & Hb). unfold buffers_of in Hb. by injection Hb.
  - intros Ha. remember (st, w) as s0 eqn:Es. revert st w Es Hr Hok.
    induction Ha as [s s1 Hf|s s1 s2 e Hf _ IH]; intros st w -> Hr Hok; destruct s1 as [st1 w1].
    + by apply flush_equals_one_batch; [|apply Hok|apply Hok|].
    + destruct (flush_outcome _ _ _ _ _ Hr (ok_nodes _ _ _ Hok) (ok_edges _ _ _ Hok) Hf)
        as (Hc & ys & Hp1 & Hp2 & Hg & Hb).
      unfold buffers_of, config_of in Hb, Hc. injection Hb as E1 E2 E3. injection Hc as C1 C2 C3 C4.
      destruct (IH st1 w1 eq_refl) as [Hempty Hw]; [by rewrite C3|by rewrite E1 E2 E3|].
      split; [exact Hempty|]. rewrite E1 E2 E3 C1 C2 in Hw.
      pose proof (write_batch_does (workspace_of st) (s_created_by st) _ _ (_label_patches st)
        (ok_nodes _ _ _ Hok) (ok_edges _ _ _ Hok) _ _ _ Hw) as [[Hv _] He].
      rewrite (He eq_refl) -effect_flush; [|apply Hok..]. rewrite Hg effect_absorb //.
      rewrite effect_flush; [|apply Hok..]. apply batch_runs; [apply Hok|apply Hok|by apply Hv].
Qed.

(** ** The buffers a store can hold *)

Inductive store_op :=
  | SUpsertNode (node_id : string) (data : obj)
  | SUpsertEdge (src dst : string) (data : obj)
  | SRemoveEdge (src dst : string)
  | SSetLabels (node_id : string) (remove add : list string)
  | SDiscard.
Definition run_store_op (o : store_op) (st : Neo4jGraphStore) : Neo4jGraphStore :=
  match o with
  | SUpsertNode i d => n4_upsert_node i d st
  | SUpsertEdge a b d => n4_upsert_edge a b d st
  | SRemoveEdge a b => n4_remove_edge a b st
  | SSetLabels i r a => n4_set_labels i r a st
  | SDiscard => n4_discard_buffer st
  end.
Definition store_op_ok (o : store_op) : Prop :=
  match o with
  | SUpsertNode _ d => Forall plain (labels_of d)
  | SSetLabels i r a => label_op_ok (OPatch (MkPatch i r a))
  | _ => True
  end.

Lemma elem_dkeys_dset {K V} `{EqDecision K} (k : K) (v : V) d x : x ∈ dkeys (dset k v d) <-> x = k \/ x ∈ dkeys d.
Proof.
  induction d as [|[k' v'] d IH]; simpl; [rewrite list_elem_of_singleton elem_of_nil; tauto|].
  destruct (decide (k = k')) as [->|]; simpl; rewrite !elem_of_cons; [tauto|]. rewrite IH. tauto.
Qed.

Lemma Forall_dset {K V} `{EqDecision K} (P : K * V -> Prop) (k : K) (v : V) d :
  P (k, v) -> Forall P d -> Forall P (dset k v d).
Proof.
  intros Hv Hd. induction Hd as [|[k' v'] d Hx Hd IH]; simpl; [by apply Forall_singleton|].
  destruct (decide (k = k')) as [<-|]; apply Forall_cons; by split.
Qed.

Lemma Forall_append_labels P existing new :
  Forall P existing -> Forall P new -> Forall P (append_labels existing new).
Proof.
  intros He Hn. unfold append_labels. revert existing He. induction Hn as [|l new Hl _ IH]; intros existing He; [done|].
  simpl. apply IH. case_decide; [done|]. apply Forall_app. split; [done|by apply Forall_singleton].
Qed.

Lemma labels_n4_merge existing data :
  labels_of (n4_merge existing data)
  = match dget "labels" data with
    | Some ls => append_labels (labels_of existing) (str_items ls)
    | None => labels_of existing
    end.
Proof.
  unfold n4_merge. set (e := match dget "labels" data with Some _ => _ | None => _ end).
  assert (E : forall d (o : obj), labels_of (fold_left (fun o kv => if decide (kv.1 = "labels") then o else dset kv.1 kv.2 o) d o)
              = labels_of o).
  { intros d. induction d as [|[k v] d IH]; intros o; [done|]. simpl. rewrite IH. case_decide; [done|].
    unfold labels_of, jget_default. by rewrite dget_dset_ne. }
  rewrite E. unfold e. destruct (dget "labels" data); [|done].
  unfold labels_of at 1, jget_default. by rewrite dget_dset_eq str_items_jstrs.
Qed.

Lemma buffered_plain st i :
  Forall (fun nd => Forall plain (labels_of nd.2)) (_node_buffer st) -> Forall plain (labels_of (buffered st i)).
Proof.
  intros Hl. unfold buffered. destruct (dget i (_node_buffer st)) as [o|] eqn:E; [|by apply Forall_nil_2].
  apply dget_elem in E. rewrite Forall_forall in Hl. exact (Hl _ E).
Qed.

Lemma buffers_ok_op st o :
  buffers_ok (_node_buffer st) (_edge_buffer st) (_label_patches st) -> store_op_ok o ->
  let st' := run_store_op o st in
  buffers_ok (_node_buffer st') (_edge_buffer st') (_label_patches st').
Proof.
  intros [H1 H2 H3 H4 H5] Ho. destruct o as [i d|a b d|a b|i r a|]; simpl in *.
  - split; [by apply NoDup_dset|done| | |done].
    + eapply Forall_impl; [exact H3|]. intros lp Hlp. apply elem_dkeys_dset. by right.
    + apply Forall_dset; [|done]. simpl. rewrite labels_n4_merge. pose proof (buffered_plain st i H4).
      destruct (dget "labels" d) as [ls|] eqn:E; [|done]. apply Forall_append_labels; [done|].
      unfold labels_of, jget_default in Ho. by rewrite E in Ho.
  - split; [done|by apply NoDup_dset|done..].
  - split; [done|by apply NoDup_ddel|done..].
  - split; [by apply NoDup_dset|done| | |].
    + apply Forall_app. split; [|apply Forall_singleton, elem_dkeys_dset; by left].
      eapply Forall_impl; [exact H3|]. intros lp Hlp. apply elem_dkeys_dset. by right.
    + apply Forall_dset; [|done]. simpl. unfold labels_of at 1, jget_default. rewrite dget_dset_eq str_items_jstrs.
      apply Forall_forall. intros l [Hl|Hl]%elem_of_label_union.
      * apply list_elem_of_filter in Hl as [_ Hl]. pose proof (buffered_plain st i H4) as Hb.
        rewrite Forall_forall in Hb. by apply Hb.
      * destruct Ho as (_ & Ha & _). rewrite Forall_forall in Ha. by apply Ha.
    + apply Forall_app. split; [done|by apply Forall_singleton].
  - split; constructor.
Qed.

Lemma buffers_ok_ops st os :
  buffers_ok (_node_buffer st) (_edge_buffer st) (_label_patches st) -> Forall store_op_ok os ->
  let st' := foldl (fun st o => run_store_op o st) st os in
  buffers_ok (_node_buffer st') (_edge_buffer st') (_label_patches st').
Proof.
  intros Hok Hos. revert st Hok. induction Hos as [|o os Ho _ IH]; intros st Hok; [done|].
  simpl. apply IH. by apply buffers_ok_op.
Qed.

Definition patch_checked (lp : patch) : bool :=
  forallb (fun l => bool_decide (plain l)) (p_remove lp ++ p_add lp)
  && forallb (fun l => negb (is_terminal_label l) || existsb (fun l' => Nat.ltb (rank1 l) (rank1 l')) (p_add lp))
       (p_remove lp).

Lemma patch_checked_ok lp : patch_checked lp = true -> label_op_ok (OPatch lp).
Proof.
  unfold patch_checked. intros [Hp Ha]%andb_true_iff. rewrite forallb_app in Hp.
  apply andb_true_iff in Hp as [Hr Hp].
  assert (Hf : forall ls, forallb (fun l => bool_decide (plain l)) ls = true -> Forall plain ls).
  { intros ls Hls. rewrite forallb_forall in Hls. apply Forall_forall. intros x Hx%list_elem_of_In.
    by apply (bool_decide_eq_true_1 _), Hls. }
  split_and!; [by apply Hf..|]. intros l Hl HT. rewrite forallb_forall in Ha.
  specialize (Ha l (proj1 (list_elem_of_In _ _) Hl)).
  assert (Ht : is_terminal_label l = true).
  { unfold is_terminal_label. apply bool_decide_eq_true. unfold T in HT. by apply elem_of_list_to_set in HT. }
  rewrite Ht /= in Ha. apply existsb_exists in Ha as (l' & Hl'%list_elem_of_In & Hlt%Nat.ltb_lt). eauto.
Qed.

(** The patches of the session handler respect the lattice. *)
Lemma classify_patch_ok current event has_parent tr node_id :
  classify current event has_parent = Ok tr -> store_op_ok (SSetLabels node_id (remove tr) (add tr)).
Proof.
  unfold classify, no_transition. intros Hc. apply patch_checked_ok.
  repeat case_decide; destruct has_parent, current as [t|]; repeat case_decide; simplify_eq; try (vm_compute; done).
  all: match goal with H : _ \/ _ |- _ => destruct H; simplify_eq end; vm_compute; done.
Qed.

(** ** One session type per node *)

Definition one_terminal (ls : gset string) : Prop := forall a b, a ∈ ls ∩ T -> b ∈ ls ∩ T -> a = b.

(** One statement of one transaction, of any writer. *)
Inductive statement : graph -> graph -> Prop :=
  | st_session ws cb r g : statement g (merge_session_row ws cb r g)
  | st_node ws cb r g : statement g (merge_node_row ws cb r g)
  | st_labels ws i ls g : Forall plain ls -> statement g (set_node_labels ws i ls g)
  | st_remove ws i l g : statement g (remove_node_label ws i l g)
  | st_edge ws t cb a b props g : statement g (merge_edge_row ws t cb a b props g).

Lemma one_terminal_sub a b : a ∩ T ⊆ b ∩ T -> one_terminal b -> one_terminal a.
Proof. intros Hs Hb x y Hx Hy. apply Hb; by apply Hs. Qed.
Lemma top_unique r a b : a ∈ top r -> b ∈ top r -> a = b.
Proof. destruct r as [|[|[|]]]; simpl; rewrite ?elem_of_empty ?elem_of_singleton; congruence || done. Qed.

Lemma one_terminal_labels ls x : Forall plain ls -> one_terminal x -> one_terminal (labels_effect ls x).
Proof.
  intros Hp Hx. rewrite labels_eff //. intros a b. rewrite eff_terminal; [|set_solver].
  case_decide; [apply Hx|apply top_unique].
Qed.

Definition well_typed (g : graph) : Prop := forall k n, db_nodes g !! k = Some n -> one_terminal (n_labels n).

Lemma well_typed_on_node k f g :
  (forall x n, f x = Some n -> (forall n0, x = Some n0 -> one_terminal (n_labels n0)) -> one_terminal (n_labels n)) ->
  well_typed g -> well_typed (on_node k f g).
Proof.
  intros Hf Hg k' n. unfold on_node. simpl. destruct (decide (k = k')) as [->|Hne].
  - rewrite lookup_partial_alter_eq. intros Hn. eapply Hf; [exact Hn|]. intros n0. apply Hg.
  - rewrite lookup_partial_alter_ne //. apply Hg.
Qed.

Lemma one_terminal_merged k cb x :
  (forall n0, x = Some n0 -> one_terminal (n_labels n0)) -> one_terminal (n_labels (merged k cb x)).
Proof.
  destruct x as [n|]; simpl; intros Hx; [by apply Hx|]. intros a b [Ha Ha']%elem_of_intersection.
  apply elem_of_singleton in Ha as ->. by apply elem_T in Ha' as [?|[?|?]].
Qed.

Lemma well_typed_step g g' : statement g g' -> well_typed g -> well_typed g'.
Proof.
  destruct 1 as [ws cb r g|ws cb r g|ws i ls g Hp|ws i l g|ws t cb a b props g]; intros Hg.
  - apply well_typed_on_node; [|done]. intros x n [= <-] Hx. simpl.
    eapply one_terminal_sub; [|by apply one_terminal_merged, Hx].
    intros y [Hy HyT]%elem_of_intersection. apply elem_of_union in Hy as [Hy|Hy]; [by apply elem_of_intersection|].
    apply elem_of_singleton in Hy as ->. by apply elem_T in HyT as [?|[?|?]].
  - apply well_typed_on_node; [|done]. intros x n [= <-] Hx. simpl. by apply one_terminal_merged.
  - apply well_typed_on_node; [|done]. intros [n0|] n [= <-] Hx. simpl. by apply one_terminal_labels, Hx.
  - apply well_typed_on_node; [|done]. intros [n0|] n [= <-] Hx. simpl.
    eapply one_terminal_sub; [|by apply Hx]. set_solver.
  - assert (He : forall k, well_typed g -> forall g, well_typed g -> well_typed (on_node k (fun x => Some (merged k None x)) g)).
    { intros k _ g0 Hg0. apply well_typed_on_node; [|done]. intros x n [= <-]. apply one_terminal_merged. }
    intros k n. unfold merge_edge_row. simpl. apply (He (b, ws) Hg (on_node (a, ws) _ g)). by apply He.
Qed.

(** C24: a session node has one type.  In any interleaving of the statements of any
    number of flushes, of any writers, a database whose nodes carry at most one
    terminal session label keeps it so; and setting a terminal label leaves
    exactly the higher of the old and the new one (forked over sub over root). *)
Theorem one_session_type (g g' : graph) :
  rtc statement g g' -> well_typed g ->
  well_typed g'
  /\ forall ws node_id labels n, Forall plain labels -> existsb is_terminal_label labels = true ->
     db_nodes g' !! (node_id, ws) = Some n ->
     exists n', db_nodes (set_node_labels ws node_id labels g') !! (node_id, ws) = Some n'
       /\ n_labels n' ∩ T = top (Nat.max (rank (n_labels n)) (rank (list_to_set labels))).
Proof.
  intros Hr Hg. split; [by induction Hr; eauto using well_typed_step|].
  intros ws i ls n Hp Ht Hn. exists (map_labels (labels_effect ls) n). split.
  - unfold set_node_labels, on_node. simpl. by rewrite lookup_partial_alter_eq Hn.
  - simpl. rewrite labels_eff // eff_terminal; [|set_solver]. apply rank_list in Ht. by rewrite decide_False.
Qed.

(** ** What is stored *)

(** A value Neo4j can store: a primitive, a list of primitives, or a datetime. *)
Definition storable (v : pval) : bool :=
  match v with
  | PDate _ => true
  | PJson (JArr l) => forallb is_primitive l
  | PJson j => is_primitive j
  end.

Lemma sanitize_storable key v v' :
  sanitize_value key v = Some v' ->
  storable v' = true /\ (str_ends_with "_at" key = true -> v' <> PJson (JStr "")).
Proof.
  destruct v as [[| | | |s|l|o]|d]; simpl; try (by intros [= <-]).
  - destruct (bool_decide (s = "")) eqn:E; simpl.
    + destruct (str_ends_with "_at" key); [done|]. by intros [= <-].
    + intros [= <-]. split; [done|]. intros _ [= ->]. by rewrite bool_decide_eq_true_2 in E.
  - destruct (forallb is_primitive l) eqn:E; intros [= <-]; (split; [done|]); intros _; [done|].
    unfold json_dumps. cbn [dumps]. by rewrite /str_of.
Qed.

(** C25: only storable values reach the database.  Every property of a node row is
    a primitive, a list of primitives or a datetime, never null; a property whose
    name ends in [_at] is never the empty string, so it cannot erase a valid
    timestamp ([last_updated] has no such guard); the row carries the
    store's workspace; and labels, provenance, working directory and the
    provisional status travel outside the properties. *)
Theorem node_row_well_typed (data : obj) (workspace : string) :
  (forall key v, (key, v) ∈ _build_node_props data workspace ->
     storable v = true
     /\ (str_ends_with "_at" key = true -> v <> PJson (JStr ""))
     /\ key ∉ held_out)
  /\ dget "workspace" (_build_node_props data workspace) = Some (PJson (JStr workspace)).
Proof.
  split; [|apply dget_dset_eq]. intros key v [Hw|Hk]%elem_dset_group.
  - injection Hw as -> ->. split_and!; [done|done|]. by apply (bool_decide_unpack _).
  - unfold _sanitize_properties in Hk. apply list_elem_of_omap in Hk as ([k1 v1] & Hk & E).
    simpl in E. destruct (sanitize_value k1 v1) eqn:Es; [|done]. injection E as <- <-.
    destruct (sanitize_storable _ _ _ Es) as [H1 H2]. split_and!; [done|done|].
    unfold _convert_temporal_props in Hk. apply list_elem_of_fmap in Hk as ([k2 v2] & [= -> ->] & Hk).
    by apply list_elem_of_filter in Hk as [Hk _].
Qed.

(** The guard goes by the name: [last_updated] is a temporal property too, and an
    empty one is written as it is. *)
Example empty_last_updated_kept (workspace : string) :
  "last_updated" ∈ TEMPORAL_PROPS
  /\ dget "last_updated" (_build_node_props [("last_updated", JStr "")] workspace) = Some (PJson (JStr ""))
  /\ dget "started_at" (_build_node_props [("started_at", JStr "")] workspace) = None.
Proof. split_and!; [by apply (bool_decide_unpack _)|reflexivity|reflexivity]. Qed.

(** Chunks are exact and bounded.  The chunks of a list, concatenated, are the
    list; none is empty, none has more than [max_rows] rows, and one exceeds
    [max_bytes] only if it is a single oversized row. *)
Theorem chunks_bounded {A : Type} (size : A -> nat) (max_rows max_bytes : nat) (items : list A) :
  1 <= max_rows ->
  concat (chunks size max_rows max_bytes items) = items
  /\ Forall (fun c => c <> [] /\ length c <= max_rows
               /\ (list_sum (map size c) <= max_bytes \/ length c = 1))
       (chunks size max_rows max_bytes items).
Proof. apply chunks_spec. Qed.

(** *** The schema pass *)

(** Once latched, in the store or the process, a flush never touches the schema;
    and an attempt less than the back-off after the last one is skipped. *)
Lemma ensure_schema_latched st w :
  _schema_initialized st || w_ready w = true -> _ensure_schema (st, w) = (Ok tt, (st, w)).
Proof. intros H0. unfold _ensure_schema. by rewrite H0. Qed.

Lemma ensure_schema_throttled st w t now rest :
  _schema_initialized st || w_ready w = false -> w_last_attempt w = Some t -> w_clock w = now :: rest ->
  (now - t < _SCHEMA_RETRY_BACKOFF)%Z ->
  exists w', _ensure_schema (st, w) = (Ok tt, (st, w')) /\ w_schema w' = w_schema w /\ w_last_attempt w' = Some t.
Proof.
  intros H0 Ht Hc Hlt. unfold _ensure_schema, _schema_retry_allowed. rewrite H0 Hc Ht.
  rewrite (proj2 (Z.ltb_lt _ _) Hlt). simpl. eauto.
Qed.
End flush.

(** ** A concrete store *)

#[local] Existing Instance demo_timestamps.

Definition demo_ops : list store_op :=
  [SUpsertNode "s" [("labels", jstrs ["Session"; "RootSession"]); ("status_if_absent", JStr "running")];
   SUpsertNode "e" [("labels", jstrs ["Event"]); ("occurred_at", JStr "5"); ("x", JArr [JNull])];
   SUpsertEdge "s" "e" [("type", JStr "HAS_EVENT")];
   SSetLabels "s" ["RootSession"] ["ForkedSession"]].
Definition demo_store : Neo4jGraphStore := foldl (fun st o => run_store_op o st) (new_store (Some "w") 1 64) demo_ops.
Definition demo_world (txs : list tx_outcome) : world := MkWorld (MkDb ∅ ∅) true None txs [] [].

Lemma demo_store_ok :
  buffers_ok (_node_buffer demo_store) (_edge_buffer demo_store) (_label_patches demo_store).
Proof.
  apply buffers_ok_ops; [split; constructor|].
  repeat apply Forall_cons_2; [..|apply Forall_nil_2]; try done; try (by repeat constructor).
  by apply patch_checked_ok.
Qed.

Lemma flush_equals_one_batch_witness :
  fst (_write_batch (_node_buffer demo_store) (_edge_buffer demo_store) (_label_patches demo_store)
         "w" None (MkDb ∅ ∅)) = Ok tt.
Proof.
  destruct (flush (demo_store, demo_world [])) as [r [st' w']] eqn:E.
  assert (r = Ok tt) as -> by (by change r with (fst (r, (st', w'))); rewrite -E; vm_compute).
  pose proof (flush_equals_one_batch demo_store st' (demo_world []) w' (le_n 1)
    (ok_nodes _ _ _ demo_store_ok) (ok_edges _ _ _ demo_store_ok) E) as [_ H].
  exact (f_equal fst H).
Defined.

(** The second transaction is rolled back, the retry's first one is lost after
    its commit, the third attempt succeeds. *)
Lemma flush_retry_converges_witness :
  exists s', attempts (demo_store, demo_world [TxCommit; TxRollback TransientInfra; TxLost TransientInfra]) s'
    /\ _write_batch (_node_buffer demo_store) (_edge_buffer demo_store) (_label_patches demo_store)
         "w" None (MkDb ∅ ∅) = (Ok tt, w_graph s'.2).
Proof.
  destruct (flush (demo_store, demo_world [TxCommit; TxRollback TransientInfra; TxLost TransientInfra]))
    as [r1 s1] eqn:E1.
  destruct (flush s1) as [r2 s2] eqn:E2. destruct (flush s2) as [r3 s3] eqn:E3.
  assert (Hr1 : r1 = Err TransientInfra) by (change r1 with (fst (r1, s1)); rewrite -E1; by vm_compute).
  assert (Hr2 : r2 = Err TransientInfra).
  { change r2 with (fst (r2, s2)). rewrite -E2. change s1 with (snd (r1, s1)). rewrite -E1. by vm_compute. }
  assert (Hr3 : r3 = Ok tt).
  { change r3 with (fst (r3, s3)). rewrite -E3. change s2 with (snd (r2, s2)). rewrite -E2.
    change s1 with (snd (r1, s1)). rewrite -E1. by vm_compute. }
  subst. exists s3. assert (Ha : attempts (demo_store, demo_world [TxCommit; TxRollback TransientInfra; TxLost TransientInfra]) s3).
  { eapply att_retry; [exact E1|]. eapply att_retry; [exact E2|]. by apply att_ok. }
  split; [exact Ha|].
  exact (proj2 (proj2 (flush_retry_converges demo_store _ s3 (le_n 1) demo_store_ok) Ha)).
Defined.

Lemma chunks_bounded_witness : concat (chunks (fun n => n) 2 5 [1; 2; 9; 4]) = [1; 2; 9; 4].
Proof. exact (proj1 (chunks_bounded (fun n => n) 2 5 [1; 2; 9; 4] (le_S _ _ (le_n 1)))). Defined.

Lemma one_session_type_witness :
  well_typed (set_node_labels "w" "s" ["RootSession"] (merge_node_row "w" None (MkRow "s" [] None None) (MkDb ∅ ∅))).
Proof.
  apply (one_session_type (MkDb ∅ ∅)).
  - eapply rtc_l; [apply st_node|]. apply rtc_once, st_labels. by repeat constructor.
  - intros k n. simpl. by rewrite lookup_empty.
Defined.

(** A node first created as an edge endpoint is never attributed: the later
    typed write finds it and does not stamp [created_by]. *)
Example placeholder_never_attributed :
  let g := merge_edge_row "w" "SOURCED_FROM" (Some "bob") "a" "b" [] (MkDb ∅ ∅) in
  let g' := merge_node_row "w" (Some "alice") (MkRow "b" [] None None) g in
  (n ← db_nodes g' !! ("b", "w"); n_props n !! "created_by") = None.
Proof. by vm_compute. Qed.

(** [restore] keeps one entry per node: what was buffered during a failing flush
    replaces the snapshot's entry of the same node instead of joining it. *)
Example restore_replaces_entry :
  _node_buffer (restore [("n", [("a", JInt 1)])] [] [] (n4_upsert_node "n" [("b", JInt 2)] (new_store None 1 1)))
  = [("n", [("b", JInt 2)])].
Proof. by vm_compute. Qed.

(** Python's [$] accepts a final newline. *)
Example identifier_with_newline :
  _validate_identifier ("Foo" +:+ str_of [nl]) = Ok tt /\ _validate_identifier "Foo Bar" = Err ValueError.
Proof. by vm_compute. Qed.
