(* ===== verification/Neo4jLabels.v ===== *)
(** * The Neo4j store behind the handlers

    [Neo4jGraphStore] as an implementation of the store interface the handlers
    are written against, and its promise about labels: what a handler labelled
    is buffered or in the database, a failed flush keeps it so, and a flush that
    succeeds puts it into the database. *)
From stdpp Require Import ssreflect base list gmap strings sorting.
From Stdlib Require Import ZArith Lia.
From S2P Require Import Prelude PyText Sha256 Utils Json QueueFiles QueueManager GraphStore Services DefaultHandler.
From S2P Require Import Layer2 Layer3 Pipeline PipelineSpec Neo4jStore Neo4jSpec.

#[local] Open Scope string_scope.
#[local] Open Scope list_scope.

Section store.
Context `{!Timestamps}.

(** The store, the process and database it writes to, and what the next read
    queries of the driver give after [except Neo4jError]: a record's
    properties, nothing, or an exception of another class. *)
Record Neo4jSide := MkSide {
  gstore : Neo4jGraphStore;
  gworld : world;
  gqueries : list (result (option obj));
}.

Definition n4_query : M Neo4jSide (option obj) := fun g =>
  match gqueries g with
  | [] => (Ok None, g)
  | q :: qs => (q, MkSide (gstore g) (gworld g) qs)
  end.

Definition on_buffers (f : Neo4jGraphStore -> Neo4jGraphStore) : M Neo4jSide unit :=
  mmodify (fun g => MkSide (f (gstore g)) (gworld g) (gqueries g)).

(** Buffer first, then the database *)
Definition n4_get (node_id : string) : M Neo4jSide (option obj) :=
  let! g := mget in
  match dget node_id (_node_buffer (gstore g)) with
  | Some o => mret (Some o)
  | None => n4_query
  end.
Definition n4_get_edge (src dst : string) : M Neo4jSide (option obj) :=
  let! g := mget in
  match dget (src, dst) (_edge_buffer (gstore g)) with
  | Some o => mret (Some o)
  | None => n4_query
  end.
Definition n4_find_delegation (sub_session_id workspace : string) : M Neo4jSide (option obj) :=
  let! g := mget in
  match List.find (is_delegation_of sub_session_id) (map snd (_node_buffer (gstore g))) with
  | Some o => mret (Some o)
  | None => n4_query
  end.

#[export] Instance Neo4j_store : GraphStore Neo4jSide := {|
  upsert_node := fun n data => on_buffers (n4_upsert_node n data);
  get_node := n4_get;
  upsert_edge := fun a b data => on_buffers (n4_upsert_edge a b data);
  get_edge := n4_get_edge;
  find_delegation_by_sub_session := n4_find_delegation;
  find_owner_in_buffer := fun dst type g => find_owner dst type (_edge_buffer (gstore g));
  remove_edge := fun a b => on_buffers (n4_remove_edge a b);
  set_labels := fun n rem ad => on_buffers (n4_set_labels n rem ad);
  graph_workspace := fun g => workspace_of (gstore g);
|}.

(** [flush] and [close] of the store object *)
Definition on_db (m : M (Neo4jGraphStore * world) unit) : M Neo4jSide unit := fun g =>
  let '(r, (st, w)) := m (gstore g, gworld g) in (r, MkSide st w (gqueries g)).
Definition n4_flush : M Neo4jSide unit := on_db flush.
Definition n4_close : M Neo4jSide unit := on_db close.
Definition n4_discard (g : Neo4jSide) : Neo4jSide :=
  MkSide (n4_discard_buffer (gstore g)) (gworld g) (gqueries g).

(** ** The invariant *)

Record store_fine (st : Neo4jGraphStore) : Prop := {
  sf_rows : 1 <= _flush_chunk_rows st;
  sf_nodes : NoDup (dkeys (_node_buffer st));
  sf_edges : NoDup (dkeys (_edge_buffer st));
  sf_patches : Forall (fun lp => p_remove lp ⊆ removable) (_label_patches st);
}.

(** Node [n] waits in the buffer with label [l]; it is in the database with it. *)
Definition awaits (n l : string) (st : Neo4jGraphStore) : Prop :=
  exists o, dget n (_node_buffer st) = Some o /\ l ∈ labels_of o.
Definition has (l : string) (x : option dbnode) : Prop := exists d, x = Some d /\ l ∈ n_labels d.
Definition stored (n l : string) (g : Neo4jSide) : Prop :=
  has l (db_nodes (w_graph (gworld g)) !! (n, workspace_of (gstore g))).
Definition n4_carries (n l : string) (g : Neo4jSide) : Prop := awaits n l (gstore g) \/ stored n l g.

Lemma fine_upsert i data st : store_fine st -> store_fine (n4_upsert_node i data st).
Proof. intros [H1 H2 H3 H4]. split; simpl; [done|by apply NoDup_dset|done..]. Qed.
Lemma fine_edge a b data st : store_fine st -> store_fine (n4_upsert_edge a b data st).
Proof. intros [H1 H2 H3 H4]. split; simpl; [done..|by apply NoDup_dset|done]. Qed.
Lemma fine_remove_edge a b st : store_fine st -> store_fine (n4_remove_edge a b st).
Proof. intros [H1 H2 H3 H4]. split; simpl; [done..|by apply NoDup_ddel|done]. Qed.
Lemma fine_set_labels i rem ad st : rem ⊆ removable -> store_fine st -> store_fine (n4_set_labels i rem ad st).
Proof.
  intros Hr [H1 H2 H3 H4]. split; simpl; [done|by apply NoDup_dset|done|].
  apply Forall_app. split; [done|by apply Forall_singleton].
Qed.

Lemma elem_append_labels l a b : l ∈ append_labels a b <-> l ∈ a \/ l ∈ b.
Proof.
  unfold append_labels. revert a. induction b as [|x b IH]; intros a; simpl; [rewrite elem_of_nil; tauto|].
  rewrite IH elem_of_cons. case_decide; [|rewrite elem_of_app list_elem_of_singleton; tauto].
  split; [tauto|]. intros [?|[->|?]]; tauto.
Qed.

Lemma awaits_upsert n l i data st : awaits n l st -> awaits n l (n4_upsert_node i data st).
Proof.
  intros (o & Ho & Hl). unfold awaits. simpl. rewrite dget_dset. case_decide as Hi; [subst i|by exists o].
  eexists. split; [done|]. unfold buffered. rewrite Ho labels_n4_merge. destruct (dget "labels" data); [|done].
  apply elem_append_labels. by left.
Qed.
Lemma awaits_set n l i rem ad st :
  l ∉ removable -> rem ⊆ removable -> awaits n l st -> awaits n l (n4_set_labels i rem ad st).
Proof.
  intros Hl Hr (o & Ho & Hlo). unfold awaits. simpl. rewrite dget_dset. case_decide as Hi; [subst i|by exists o].
  eexists. split; [done|]. unfold buffered. rewrite Ho. unfold labels_of at 1, jget_default.
  rewrite dget_dset_eq str_items_jstrs elem_of_label_union list_elem_of_filter. left. split; [|done].
  intros Hin. by apply Hl, Hr.
Qed.

(** The store operations change the buffers only, the reads change nothing. *)
Lemma kept_side (I : Neo4jGraphStore -> world -> Prop) :
  (forall i data st w, I st w -> I (n4_upsert_node i data st) w) ->
  (forall a b data st w, I st w -> I (n4_upsert_edge a b data st) w) ->
  (forall a b st w, I st w -> I (n4_remove_edge a b st) w) ->
  (forall i rem ad st w, rem ⊆ removable -> I st w -> I (n4_set_labels i rem ad st) w) ->
  Kept (fun g => I (gstore g) (gworld g)).
Proof.
  intros H1 H2 H3 H4.
  assert (Hq : preserves (fun g => I (gstore g) (gworld g)) n4_query).
  { intros g Hg. unfold n4_query. by destruct (gqueries g). }
  split; simpl.
  - intros i data g. apply H1.
  - intros a b data g. apply H2.
  - intros a b g. apply H3.
  - intros i. apply preserves_bind; [apply preserves_get|]. intros g.
    destruct (dget i _); [apply preserves_ret|exact Hq].
  - intros i w. apply preserves_bind; [apply preserves_get|]. intros g.
    destruct (List.find _ _); [apply preserves_ret|exact Hq].
  - intros i rem ad Hr g. by apply H4.
Qed.

Lemma kept_store_fine : Kept (fun g => store_fine (gstore g)).
Proof.
  apply (kept_side (fun st _ => store_fine st)); intros;
    auto using fine_upsert, fine_edge, fine_remove_edge, fine_set_labels.
Qed.

Lemma kept_stored n l : Kept (stored n l).
Proof. by apply (kept_side (fun st w => has l (db_nodes (w_graph w) !! (n, workspace_of st)))). Qed.

Lemma kept_n4_carries n l : l ∉ removable -> Kept (fun g => store_fine (gstore g) /\ n4_carries n l g).
Proof.
  intros Hl. apply (kept_side (fun st w => store_fine st /\
    (awaits n l st \/ has l (db_nodes (w_graph w) !! (n, workspace_of st))))).
  - intros i data st w [Hf [Hp|Hs]]; (split; [by apply fine_upsert|]); [left; by apply awaits_upsert|by right].
  - intros a b data st w [Hf Hc]. split; [by apply fine_edge|exact Hc].
  - intros a b st w [Hf Hc]. split; [by apply fine_remove_edge|exact Hc].
  - intros i rem ad st w Hr [Hf [Hp|Hs]]; (split; [by apply fine_set_labels|]); [left; by apply awaits_set|by right].
Qed.

#[export] Instance Neo4j_labels : LabelStore Neo4jSide.
Proof.
  refine {| fine := fun g => store_fine (gstore g); carries := n4_carries; kept_fine := kept_store_fine;
            kept_carries := kept_n4_carries |}.
  intros n data ls l g g' _ Hd Hl [= <-]. left. unfold awaits. simpl. rewrite dget_dset_eq.
  eexists. split; [done|]. rewrite labels_n4_merge Hd elem_append_labels str_items_jstrs. by right.
Defined.

(** ** Flushing *)

Definition keeps_label (l : string) (o : nop) : Prop :=
  match o with OPatch lp => p_remove lp ⊆ removable | _ => True end.

Lemma lattice_keeps l ls : l ∉ removable -> l ∈ ls -> l ∈ _LATTICE_NORMALIZATION ls.
Proof.
  unfold removable. intros Hl Hin. assert (l <> "RootSession" /\ l <> "SubSession") as [H1 H2] by set_solver.
  unfold _LATTICE_NORMALIZATION. repeat case_decide; set_solver.
Qed.

Lemma labels_effect_keeps l labels ls : l ∉ removable -> l ∈ ls -> l ∈ labels_effect labels ls.
Proof.
  intros Hl Hin. unfold labels_effect. destruct (existsb _ _); [apply lattice_keeps; [done|]|]; set_solver.
Qed.

Lemma removable_plain r : r ∈ removable -> cypher_name r = r.
Proof.
  unfold removable. rewrite !elem_of_cons elem_of_nil. intros [->|[->|[->|[]]]]; vm_compute; reflexivity.
Qed.

Lemma patch_effect_keeps l lp ls : l ∉ removable -> p_remove lp ⊆ removable -> l ∈ ls -> l ∈ patch_effect lp ls.
Proof.
  intros Hl Hr Hin. unfold patch_effect.
  assert (H1 : l ∈ foldl (fun ls l => ls ∖ {[cypher_name l]}) ls (p_remove lp)).
  { revert ls Hin. induction (p_remove lp) as [|r rs IH]; intros ls Hin; [done|]. simpl. apply IH; [set_solver|].
    assert (Hrr : r ∈ removable) by set_solver. rewrite removable_plain //. assert (l <> r) by (by intros ->). set_solver. }
  revert H1. generalize (foldl (fun ls l => ls ∖ {[cypher_name l]}) ls (p_remove lp)).
  induction (p_add lp) as [|a xs IH]; intros ls' H1; [done|]. simpl. by apply IH, labels_effect_keeps.
Qed.

Lemma nop_keeps l k o x : l ∉ removable -> keeps_label l o -> has l x -> has l (apply_nop k o x).
Proof.
  intros Hl Ho (d & -> & Hd). destruct o; simpl; eexists; (split; [done|]); simpl; try done; [set_solver|..].
  - by apply labels_effect_keeps.
  - by apply patch_effect_keeps.
Qed.

Lemma run1_keeps l k ops x :
  l ∉ removable -> Forall (fun o => keeps_label l o.2) ops -> has l x -> has l (run1 apply_nop k ops x).
Proof.
  intros Hl Hops. revert x. induction Hops as [|o ops Ho _ IH]; intros x Hx; [done|]. simpl. by apply IH, nop_keeps.
Qed.

Lemma nops_keep l ws cb n p e :
  Forall (fun lp => p_remove lp ⊆ removable) p -> Forall (fun o => keeps_label l o.2) (nops ws cb n p e).
Proof.
  intros Hp. unfold nops. rewrite !Forall_app. split_and!.
  - apply Forall_concat, Forall_map, Forall_true. intros nd. unfold node_ops, row_op, label_op.
    destruct (is_session nd.2), (labels_of nd.2); repeat constructor.
  - by apply Forall_map.
  - apply Forall_concat, Forall_map, Forall_true. intros ed. repeat constructor.
Qed.

Lemma Forall_prefix {A} (P : A -> Prop) l l' : l `prefix_of` l' -> Forall P l' -> Forall P l.
Proof. intros [k ->] HP. by apply Forall_app in HP as [? _]. Qed.

Lemma Forall_at_key (P : nop -> Prop) (k : string * string) ops :
  Forall (fun o => P o.2) ops -> Forall (fun o => P o.2) (at_key k ops).
Proof. intros HP. apply Forall_forall. intros o [_ Ho]%list_elem_of_filter. rewrite Forall_forall in HP. by apply HP. Qed.

(** Whatever part of a flush was committed, a label in the database stays. *)
Lemma effect_keeps l st ys g k :
  l ∉ removable -> store_fine st -> ys.1 `prefix_of` (flush_ops st).1 ->
  has l (db_nodes g !! k) -> has l (db_nodes (effect ys g) !! k).
Proof.
  intros Hl Hf Hpre Hh. unfold effect. simpl. rewrite run_lookup. apply run1_keeps; [done| |done].
  apply Forall_at_key. eapply Forall_prefix; [exact Hpre|]. apply nops_keep, (sf_patches _ Hf).
Qed.

(** A whole flush writes the labels that were waiting. *)
Lemma effect_writes l st g n :
  l ∉ removable -> plain l -> store_fine st -> awaits n l st ->
  has l (db_nodes (effect (flush_ops st) g) !! (n, workspace_of st)).
Proof.
  intros Hl Hpl Hf (o & Ho & Hlo). rewrite effect_flush; [|apply Hf..]. unfold batch_effect. simpl.
  rewrite run_lookup. unfold nops. rewrite !at_key_app at_key_nodes; [|apply Hf].
  rewrite /= decide_True // Ho !run1_app. apply run1_keeps; [done| |apply run1_keeps; [done| |]].
  - apply (Forall_at_key (keeps_label l)). exact (nops_keep l (workspace_of st) (s_created_by st) [] [] (_edge_buffer st) (Forall_nil_2 _)).
  - apply (Forall_at_key (keeps_label l)). apply Forall_map. exact (sf_patches _ Hf).
  - unfold node_ops. simpl. destruct (labels_of o) as [|l0 ls] eqn:El; [by apply elem_of_nil in Hlo|].
    rewrite -El in Hlo. assert (Hset : l ∈ label_set o).
    { unfold label_set, py_sorted. by rewrite merge_sort_Permutation elem_of_remove_dups. }
    assert (Hin : forall ls', l ∈ labels_effect (label_set o) ls').
    { intros ls'. unfold labels_effect.
      assert (Hu : l ∈ ls' ∪ list_to_set (map cypher_name (label_set o))).
      { apply elem_of_union_r, elem_of_list_to_set, list_elem_of_fmap. exists l. by split. }
      destruct (existsb _ _); [by apply lattice_keeps|done]. }
    destruct (is_session o); simpl; eexists; (split; [done|]); simpl; apply Hin.
Qed.

(** What a flush does to a label, whatever the transactions do. *)
Lemma flush_promise g r g' :
  store_fine (gstore g) -> n4_flush g = (r, g') ->
  store_fine (gstore g')
  /\ forall n l, l ∉ removable -> plain l ->
     (stored n l g -> stored n l g') /\ (n4_carries n l g -> n4_carries n l g')
     /\ (r = Ok tt -> n4_carries n l g -> stored n l g').
Proof.
  intros Hf. unfold n4_flush, on_db. destruct (flush (gstore g, gworld g)) as [r0 [st w]] eqn:E. intros [= <- <-].
  destruct (flush_outcome _ _ _ _ _ (sf_rows _ Hf) (sf_nodes _ Hf) (sf_edges _ Hf) E)
    as (Hcfg & ys & Hp1 & _ & Hg & Hr).
  unfold config_of in Hcfg. injection Hcfg as C1 C2 C3 C4. simpl.
  assert (Hkeep : forall n l, l ∉ removable -> stored n l g -> stored n l (MkSide st w (gqueries g))).
  { intros n l Hl Hs. unfold stored in *. simpl. rewrite C1 Hg. by eapply effect_keeps. }
  destruct r0 as [[]|x].
  - destruct Hr as (Hb & -> & _). unfold buffers_of in Hb. injection Hb as E1 E2 E3. split.
    { split; [rewrite C3; apply Hf|rewrite E1; constructor|rewrite E2; constructor|rewrite E3; constructor]. }
    intros n l Hl Hpl.
    assert (Hw : n4_carries n l g -> stored n l (MkSide st w (gqueries g))).
    { intros [Hp|Hs]; [|by apply Hkeep]. unfold stored. simpl. rewrite C1 Hg. by apply effect_writes. }
    split; [by apply Hkeep|]. split; [intros Hc; right; by apply Hw|auto].
  - unfold buffers_of in Hr. injection Hr as E1 E2 E3. split.
    { split; [rewrite C3; apply Hf|rewrite E1; apply Hf|rewrite E2; apply Hf|rewrite E3; apply Hf]. }
    intros n l Hl Hpl. split; [by apply Hkeep|]. split; [|done].
    intros [(o & Ho & Hlo)|Hs]; [left|right; by apply Hkeep]. exists o. simpl. by rewrite E1.
Qed.

(** [close] flushes once more and hides a failure. *)
Lemma close_promise g r g' :
  store_fine (gstore g) -> n4_close g = (r, g') ->
  store_fine (gstore g')
  /\ forall n l, l ∉ removable -> plain l -> (stored n l g -> stored n l g') /\ (n4_carries n l g -> n4_carries n l g').
Proof.
  intros Hf Hc. destruct (n4_flush g) as [r1 g1] eqn:E. destruct (flush_promise g r1 g1 Hf E) as [Hf1 Hl1].
  assert (g' = g1) as ->.
  { revert Hc E. unfold n4_close, n4_flush, on_db, close, mcatch.
    destruct (flush (gstore g, gworld g)) as [[[]|x] [st w]]; [|destruct (is_Exception x)]; simpl; congruence. }
  split; [done|]. intros n l Hl Hpl. destruct (Hl1 n l Hl Hpl) as (H1 & H2 & _). by split.
Qed.
End store.
