(* ===== verification/Server.v ===== *)
(** * The ingest path end to end

    The drain worker of [Drain] run with the real pipeline of [Pipeline] on the
    Neo4j store of [Neo4jStore]: pipeline and store discharge the promise of
    [DrainRecorded], so an acknowledged event is a node of the database, or in
    the dead-letter file, for every behaviour of the database transactions, the
    operating system, the hooks and the clocks. *)
From stdpp Require Import base list gmap strings sorting.
From Stdlib Require Import ZArith Lia.
From S2P Require Import Prelude PyText Sha256 Utils Json QueueFiles QueueManager QueueSpec.
From S2P Require Import GraphStore Services DefaultHandler Layer2 Layer3 Pipeline PipelineSpec.
From S2P Require Import Drain DrainDemo DrainSpec DrainRecorded Neo4jStore Neo4jSpec Neo4jLabels.

Section server.
Context `{!Timestamps} `{!PyRepr} {B : Type} `{!BlobStore B}.
Context {X : Type} (E : DrainEnv X).
Abbreviation St := (Pipe Neo4jSide B * X)%type.

Definition on_pipe {A} (m : M (Pipe Neo4jSide B) A) : M St A := fun s =>
  let '(r, p) := m s.1 in (r, (p, s.2)).
Definition on_env {A} (m : M X A) : M St A := fun s =>
  let '(r, x) := m s.2 in (r, (s.1, x)).
Definition env_fn {A} (f : X -> A * X) (s : St) : A * St := let '(a, x) := f s.2 in (a, (s.1, x)).

(** [services.graph], the store object *)
Definition on_graph_store {A} (m : M Neo4jSide A) : M St A := on_pipe (on_worker (svc (on_graph m))).

(** [pipeline.process_event] as the worker calls it.  The event name of an
    accepted request is a string.  The environment may make the call fail
    before it has done anything. *)
Definition dispatch_event (event data : json) (wd : option json) (ident : option string) : M St unit :=
  on_env (@Drain.process_event X E event data wd ident) ;;;
  match event with
  | JStr e => on_pipe (Pipeline.process_event e data wd ident)
  | _ => mraise TypeError
  end.

Definition discard_graph (s : St) : St :=
  let '(_, s) := on_graph_store (mmodify n4_discard) s in (s.1, discard_buffer s.2).

(** The worker's environment: the pipeline on a [Neo4jGraphStore], whose
    [flush], [close] and [discard_buffer] are the store's own, under an
    arbitrary [E], which may also fail a flush before it starts. *)
#[local] Instance server_env : DrainEnv St := {|
  json_loads := json_loads;
  Drain.process_event := dispatch_event;
  graph_flush := on_env graph_flush ;;; on_graph_store n4_flush;
  discard_buffer := discard_graph;
  graph_close := on_graph_store n4_close ;;; on_env graph_close;
  flush_permit := on_env flush_permit; recovery_guard := on_env recovery_guard;
  is_recovery := is_recovery; drain_batch_size := drain_batch_size;
  max_delivery_attempts := max_delivery_attempts;
  pre_flush := option_map on_env pre_flush;
  before_recovery_flush := option_map (fun f r => on_env (f r)) before_recovery_flush;
  on_batch_flushed := option_map (fun f r => on_env (f r)) on_batch_flushed;
  on_batch_written := option_map (fun f r => on_env (f r)) on_batch_written;
  on_post_commit_failure := option_map on_env on_post_commit_failure;
  on_record_quarantined := option_map (fun f r => on_env (f r)) on_record_quarantined;
  os_write := env_fn os_write; os_commit := env_fn os_commit; os_unlink := env_fn os_unlink;
  read_fault := on_env read_fault; interfere := env_fn interfere;
  monotonic := env_fn monotonic; wall_time := env_fn wall_time;
  time_repr := fun s => time_repr s.2;
  sleep := fun t => on_env (sleep t); wait_for_change := fun t => on_env (wait_for_change t);
  exn_text := exn_text; flush_timeout := flush_timeout; stale_session_timeout := stale_session_timeout;
|}.

(** What it means for node [n] to carry the [Event] label: in the database, or
    at least waiting in the store's buffer. *)
Definition in_database (s : St) (n : string) : Prop := stored n "Event" (store s.1).
Definition in_store (s : St) (n : string) : Prop := carries n "Event" (store s.1).

(** The record is an event, and it either names no session, in which case the
    default handler drops it by design, or has its node, under the id its
    session, name, timestamp, tool call and queue identity determine. *)
Definition event_at (there : string -> Prop) (r : LogRecord) : Prop :=
  exists event w wd data ident,
    _parse_line (raw r) = Ok (JStr event, w, wd, JObj data, ident)
    /\ (session_of data = Ok None
        \/ exists sid ts n, session_of data = Ok (Some sid) /\ timestamp_of data = JStr ts
             /\ make_node_id ident sid event ts (opt_str (jget "tool_call_id" data)) = Ok n
             /\ there n).
Definition in_graph (s : St) (r : LogRecord) : Prop := event_at (in_database s) r.

#[local] Instance server_recorder : Recorder St := {|
  sound := fun s => fine (store s.1);
  held := fun s r => event_at (in_store s) r;
  recorded := in_graph;
|}.

Lemma event_at_mono (P Q : string -> Prop) r : (forall n, P n -> Q n) -> event_at P r -> event_at Q r.
Proof.
  intros HPQ (ev & w & wd & data & ident & Hp & Hs). exists ev, w, wd, data, ident. split; [done|].
  destruct Hs as [|(sid & ts & n & H1 & H2 & H3 & H4)]; [by left|right]. exists sid, ts, n. auto.
Qed.

(** Growth, read off the store alone *)
Lemma grows_store (s s' : St) :
  (fine (store s.1) -> fine (store s'.1)
     /\ forall n, (stored n "Event" (store s.1) -> stored n "Event" (store s'.1))
               /\ (carries n "Event" (store s.1) -> carries n "Event" (store s'.1))) ->
  grows s s'.
Proof.
  intros Hg Hs. destruct (Hg Hs) as [Hs' Hn]. split; [done|].
  split; intros r; apply event_at_mono; intros n; apply Hn.
Qed.

Lemma steady_env {A} (m : M X A) : steady (on_env m).
Proof. intros s. apply grows_store. unfold on_env. by destruct (m s.2). Qed.
Lemma steady_env_fn {A} (f : X -> A * X) : steady_fn (env_fn f).
Proof. intros s. apply grows_store. unfold env_fn. by destruct (f s.2). Qed.
Lemma steady_bind {A C} (m : M St A) (k : A -> M St C) : steady m -> (forall a, steady (k a)) -> steady (mbind m k).
Proof.
  intros Hm Hk s. unfold mbind. specialize (Hm s). destruct (m s) as [[a|x] s1]; [|exact Hm].
  etrans; [exact Hm|apply Hk].
Qed.

(** A step of the store object *)
Lemma graph_store_run {A} (m : M Neo4jSide A) (s : St) :
  exists s', on_graph_store m s = (fst (m (store s.1)), s') /\ store s'.1 = snd (m (store s.1)) /\ s'.2 = s.2.
Proof.
  unfold on_graph_store, on_pipe, on_worker, svc, on_graph, store.
  destruct (m (Services.graph (services (Pipeline.worker s.1)))) as [r g]. by eexists.
Qed.

(** A run of the pipeline *)
Lemma steady_pipe event data wd ident : steady (on_pipe (Pipeline.process_event event data wd ident)).
Proof.
  intros s. apply grows_store. intros Hf. unfold on_pipe.
  destruct (Pipeline.process_event event data wd ident s.1) as [r p] eqn:Hr. simpl.
  assert (Hk : forall Q, Kept Q -> Q (store s.1) -> Q (store p)).
  { intros Q HQ HQs. exact (preserves_run _ _ _ _ _ (pkeep_process_event Q HQ event data wd ident) HQs Hr). }
  split; [exact (Hk _ kept_store_fine Hf)|]. intros n. split; [apply (Hk _ (kept_stored n "Event"))|].
  intros Hc. by apply (Hk _ (kept_n4_carries n "Event" event_not_removable)).
Qed.

Lemma steady_dispatch event data wd ident : steady (dispatch_event event data wd ident).
Proof.
  apply steady_bind; [apply steady_env|]. intros _.
  destruct event; try (intros s; reflexivity). apply steady_pipe.
Qed.

Lemma event_plain : plain "Event".
Proof. vm_compute. reflexivity. Qed.

Lemma steady_flush : steady (on_graph_store n4_flush).
Proof.
  intros s. apply grows_store. intros Hf. destruct (graph_store_run n4_flush s) as (s' & -> & Hs & _). simpl.
  destruct (n4_flush (store s.1)) as [r g] eqn:E0. simpl in Hs. rewrite Hs.
  destruct (flush_promise _ _ _ Hf E0) as [Hf' Hn]. split; [done|]. intros n.
  destruct (Hn n "Event" event_not_removable event_plain) as (H1 & H2 & _). by split.
Qed.

Lemma steady_close : steady (on_graph_store n4_close).
Proof.
  intros s. apply grows_store. intros Hf. destruct (graph_store_run n4_close s) as (s' & -> & Hs & _). simpl.
  destruct (n4_close (store s.1)) as [r g] eqn:E0. simpl in Hs. rewrite Hs.
  destruct (close_promise _ _ _ Hf E0) as [Hf' Hn]. split; [done|]. intros n.
  by apply Hn; [apply event_not_removable|apply event_plain].
Qed.

Lemma discard_promise s : fine (store s.1) ->
  fine (store (discard_graph s).1) /\ forall r, in_graph s r -> in_graph (discard_graph s) r.
Proof.
  intros Hf. unfold discard_graph. destruct (graph_store_run (mmodify n4_discard) s) as (s' & -> & Hs & _).
  simpl in Hs |- *. unfold in_graph, in_database. simpl. rewrite Hs. split; [|done].
  split; [apply (sf_rows _ Hf)|constructor..].
Qed.

Lemma flush_writes r s s' : fine (store s.1) ->
  (on_env graph_flush ;;; on_graph_store n4_flush) s = (Ok tt, s') -> event_at (in_store s) r -> in_graph s' r.
Proof.
  intros Hf (u & s1 & H1 & H2)%mbind_ok. unfold on_env in H1.
  destruct (graph_flush s.2) as [r0 x]. injection H1 as -> <-.
  destruct (graph_store_run n4_flush (s.1, x)) as (s2 & E2 & Hs & _). rewrite E2 in H2. injection H2 as H2 <-.
  simpl in Hs, H2. destruct (n4_flush (store s.1)) as [r1 g] eqn:E0. simpl in Hs, H2. subst r1.
  destruct (flush_promise _ _ _ Hf E0) as [_ Hn]. apply event_at_mono. intros n. unfold in_database. rewrite Hs.
  by apply (Hn n "Event" event_not_removable event_plain).
Qed.

(** What a dispatched record leaves in the store *)
Lemma dispatch_holds r ev w wd data ident s s' : fine (store s.1) ->
  _parse_line (raw r) = Ok (ev, w, wd, data, ident) ->
  dispatch_event ev data wd ident s = (Ok tt, s') -> event_at (in_store s') r.
Proof.
  intros Hf Hp Hrun. unfold dispatch_event in Hrun. apply mbind_ok in Hrun as (u & s1 & H1 & Hrun).
  assert (Hf1 : fine (store s1.1)).
  { unfold on_env in H1. destruct (Drain.process_event ev data wd ident s.2). by injection H1 as _ <-. }
  destruct ev as [| | | |event| |]; try done. unfold on_pipe in Hrun.
  destruct (Pipeline.process_event event data wd ident s1.1) as [r1 p1] eqn:Hpe. injection Hrun as -> <-.
  destruct (process_event_object _ _ _ _ _ _ Hpe) as (o & -> & Ho).
  exists event, w, wd, o, ident. split; [done|]. destruct (session_of o) as [[sid|]|x] eqn:Hsid; [|by left|done].
  right. destruct (process_event_recorded event o wd ident s1.1 p1 sid Hf1 Hpe Hsid) as (ts & n & Hts & Hn & Hc).
  exists sid, ts, n. auto.
Qed.

Lemma server_steady : Steady (S := St).
Proof.
  split; simpl; intros;
    try apply steady_env; try apply steady_env_fn; try apply steady_dispatch;
    try (match goal with |- steady_opt (option_map _ ?h) => destruct h; simpl; [apply steady_env|done] end);
    try (match goal with |- steady_hook (option_map _ ?h) => destruct h; simpl; [intros ?; apply steady_env|done] end).
  - apply steady_bind; [apply steady_env|intros _; apply steady_flush].
  - apply steady_bind; [apply steady_close|intros _; apply steady_env].
  - by apply discard_promise.
  - match goal with Hs : store_fine _ |- _ => eapply dispatch_holds; [exact Hs|done|done] end.
  - match goal with Hs : store_fine _ |- _ => eapply flush_writes; [exact Hs|done|done] end.
Qed.

(** C1: acknowledged means in the graph.  Run with the real pipeline and the
    Neo4j store, whatever the database transactions, the operating system, the
    hooks, the clocks and concurrent appends do: whenever the drain worker
    stops, every record its committed offset moved past is in the dead-letter
    file, or is an event that names no session (which the default handler drops
    with a warning), or has its node in the database, labelled [Event], under
    the id its session, name, timestamp, tool call and queue identity
    determine.  The worker starts as the registry creates it: an empty buffer
    and a chunk size of at least one row. *)
Theorem acked_event_in_graph k ws fuel (st : DState St) :
  _validate_session_id k = true -> Inv k st -> Drain.buffered st = [] -> durable st = [] ->
  buffers_of (gstore (store (env st).1)) = ([], [], []) -> 1 <= _flush_chunk_rows (gstore (store (env st).1)) ->
  let '(_, st') := drain_worker k ws fuel st in
  Forall (fun r => r ∈ dead st' \/ in_graph (env st') r) (acked st').
Proof.
  intros Hk Hi Hb Hd Hbuf Hrows. apply (acked_recorded k ws server_steady); [done|done|].
  unfold Rec. rewrite Hb, Hd. split; [|split; apply Forall_nil_2].
  unfold buffers_of in Hbuf. injection Hbuf as E1 E2 E3. split; [done|rewrite E1|rewrite E2|rewrite E3]; constructor.
Qed.
End server.


(** ** A concrete server *)

#[local] Existing Instance demo_timestamps.
#[local] Instance demo_repr : PyRepr := fun _ => "".
#[local] Instance demo_blobs : BlobStore unit := {|
  blob_write := fun _ key _ => mret key; blob_enabled := true; blob_field_order := BLOB_FIELDS;
  blob_order_perm := Permutation_refl BLOB_FIELDS; exn_str := fun _ => "error";
|}.

(** A line is the name of an event of session [s] at time 5; [stray] names no
    session and [x] is not JSON. *)
Definition line_loads (line : bytes) : result json :=
  if decide (line = bytes_of "x") then Err ValueError
  else Ok (JObj [("event", JStr (str_of line));
                 ("data", JObj (if decide (line = bytes_of "stray") then []
                                else [("session_id", JStr "s"); ("timestamp", JStr "5")]))]).
Definition line_env : DrainEnv unit := {|
  json_loads := line_loads; Drain.process_event := fun _ _ _ _ => mret tt;
  graph_flush := mret tt; discard_buffer := id; graph_close := mret tt;
  flush_permit := mret tt; recovery_guard := mret tt;
  is_recovery := false; drain_batch_size := 10; max_delivery_attempts := 1;
  pre_flush := None; before_recovery_flush := None; on_batch_flushed := None;
  on_batch_written := None; on_post_commit_failure := None; on_record_quarantined := None;
  os_write := fun s => (WriteScript true [], false, s); os_commit := fun s => (CommitOk, "0", false, s);
  os_unlink := fun s => (UnlinkOk, false, s);
  read_fault := mret tt; interfere := fun s => ([], s);
  monotonic := fun s => (0%Z, s); wall_time := fun s => (0%Z, s); time_repr := fun _ => "0.0";
  sleep := fun _ => mret tt; wait_for_change := fun _ => mret tt;
  exn_text := fun _ => "error"; flush_timeout := 600; stale_session_timeout := 6000;
|}.
Definition server_state (lines : list string) (txs : list tx_outcome) : DState (Pipe Neo4jSide unit * unit) :=
  MkD (MkPipe (new_worker (MkSide (new_store (Some "w") 100 1000) (demo_world txs) [])) tt, tt)
    (demo_log "k" lines) demo_worker true 0 0 [] [] [] [] [] [].

(** Although the database first rolls a transaction back, the worker writes the
    event, quarantines the broken line, drops the event without a session and
    finishes with the session. *)
Definition demo_lines : list string := ["ping"; "x"; "stray"; "session:end"].
Definition server_demo : DState (Pipe Neo4jSide unit * unit) :=
  snd (@drain_worker _ (server_env line_env) "k" "w" 8 (server_state demo_lines [TxRollback TransientInfra])).

Lemma server_demo_run :
  map raw (acked server_demo) = map bytes_of demo_lines /\ map raw (dead server_demo) = [bytes_of "x"]
  /\ map_size (db_nodes (w_graph (gworld (store (env server_demo).1)))) = 3.
Proof. vm_compute. auto. Qed.

Lemma acked_event_in_graph_witness :
  map raw (acked server_demo) = map bytes_of demo_lines
  /\ Forall (fun r => r ∈ dead server_demo \/ in_graph line_env (env server_demo) r) (acked server_demo).
Proof.
  split; [apply server_demo_run|]. unfold server_demo.
  assert (H := acked_event_in_graph line_env "k" "w" 8 (server_state demo_lines [TxRollback TransientInfra])).
  destruct (drain_worker "k" "w" 8 _) as [r st']. apply H; [reflexivity| |reflexivity|reflexivity|reflexivity|].
  - exists (AQ (map bytes_of demo_lines) 0). split; [|split; [apply prefix_nil|apply Forall_nil_2]].
    exists []. by apply demo_log_implements.
  - simpl. lia.
Defined.
