(* ===== verification/Auth.v ===== *)
(** * Authentication ([auth.py], [require_admin] of [routers/admin.py])

    The bearer middleware as a decision over one ASGI scope: which requests are
    forwarded to the application, with which identity in the scope state, and
    which are answered with an error status (the texts of the answers are not
    modelled).  PyJWT and its JWKS client are not part of the repository: they
    are the class [Jwt], whose two operations return, raise a [PyJWTError] or
    raise anything else.  [str.lower] on text outside ASCII follows the Unicode
    tables and is the class [PyLower].

    The theorems compare the code with a declarative account of who is admitted:
    [Admits] for the middleware, and [admin_reached] for the administration
    routes, where the middleware and [require_admin] act together. *)
From stdpp Require Import base list strings.
From Stdlib Require Import ZArith Lia.
From S2P Require Import Prelude PyText Sha256 Json.

#[local] Open Scope string_scope.
#[local] Open Scope list_scope.

(** [str.lower()]; ASCII text is lowered byte by byte. *)
Class PyLower := {
  lower : string -> string;
  lower_ascii s : Forall (fun b => in_range 0 127 b = true) (bytes_of s) ->
                  lower s = str_of (map to_lower (bytes_of s)) }.

(** What a third-party call did. *)
Inductive jwt_result (A : Type) :=
  | JwtOk (a : A)
  | PyJWTError
  | JwtRaise (e : exn).     (** any other exception *)
Arguments JwtOk {A} a.
Arguments PyJWTError {A}.
Arguments JwtRaise {A} e.

Class Jwt := {
  jwt_key : Type;
  get_signing_key_from_jwt : string -> jwt_result jwt_key;
  jwt_decode : string -> jwt_key -> list string -> list string -> string -> list string ->
               jwt_result (list (string * json)) }.

(** ** Text helpers *)

(** [bytes.decode("latin-1")] as a string of this development (UTF-8). *)
Definition latin1 (b : bytes) : string := str_of (utf8_encode (map bZ b)).

Definition starts_with (pre s : string) : bool := bool_decide (bytes_of pre `prefix_of` bytes_of s).

(** [str.split()]: maximal runs of characters that are not white space. *)
Fixpoint words (cs cur : list Z) : list (list Z) :=
  let flush := if bool_decide (cur = []) then [] else [rev cur] in
  match cs with
  | [] => flush
  | c :: cs => if py_isspace c then flush ++ words cs [] else words cs (c :: cur)
  end.

Definition py_split (s : string) : list string :=
  match utf8_decode (bytes_of s) with
  | Some cs => map (fun w => str_of (utf8_encode w)) (words cs [])
  | None => []
  end.

(** [isinstance(v, str)] with the string as it is, else [""]. *)
Definition str_or_empty (v : json) : string := match v with JStr s => s | _ => "" end.

(** [isinstance(v, str) and v.strip()] *)
Definition nonblank (v : json) : option string :=
  match v with
  | JStr s => if bool_decide (py_strip s = "") then None else Some s
  | _ => None
  end.

(** ** Resolvers *)

(** [AuthError(status_code, reason)] is a value here; [AuthRaise] is any other
    exception a resolver lets through. *)
Inductive auth_result (A : Type) :=
  | AuthOk (a : A)
  | AuthError (status_code : Z)
  | AuthRaise (e : exn).
Arguments AuthOk {A} a.
Arguments AuthError {A} status_code.
Arguments AuthRaise {A} e.

(** [(contributor_id, roles, is_service)].  The identity maps hand out whatever
    the store file holds, so a contributor id is a dynamic value. *)
Record Principal := MkPrincipal {
  pr_contributor : json;
  pr_roles : list string;
  pr_is_service : bool;
}.

Abbreviation idmap := (list (string * json)).

Definition _EXEMPT_PATHS : list string := ["/status"; "/version"; "/docs"; "/openapi.json"].
Definition _EXEMPT_PREFIXES : list string := [].
Definition _ADMIN_ROUTE_PREFIX : string := "/admin".
Definition _is_admin_route (path : string) : bool :=
  bool_decide (path = _ADMIN_ROUTE_PREFIX) || starts_with (_ADMIN_ROUTE_PREFIX +:+ "/") path.

Definition token_digest (token : string) : string := str_of (sha256_hexdigest (bytes_of token)).

Definition _resolve_token (token : string) (keystore : idmap) : option json :=
  dget (token_digest token) keystore.

(** [StaticKeyResolver.resolve]; [None] is a miss. *)
Definition static_resolve (keystore : idmap) (token : string) (admin_path : bool) : option Principal :=
  match _resolve_token token keystore with
  | None => None
  | Some contributor_id => Some (MkPrincipal contributor_id [] false)
  end.

Record EntraResolver := MkEntra {
  en_client_id : string;
  en_tenant_id : string;
  en_identity_map : idmap;
  en_service_identity_map : idmap;
  en_service_data_role : string;
  en_reader_role : string;
  en_entra_admin_role : string;
}.

Definition expected_aud (e : EntraResolver) : list string :=
  [en_client_id e; "api://" +:+ en_client_id e].
Definition expected_issuer (e : EntraResolver) : string :=
  "https://login.microsoftonline.com/" +:+ en_tenant_id e +:+ "/v2.0".

Section resolve.
Context `{PyLower, Jwt}.

(** Signature, algorithm, audience, issuer and required claims. *)
Definition verified_claims (e : EntraResolver) (token : string) : auth_result (list (string * json)) :=
  match get_signing_key_from_jwt token with
  | PyJWTError => AuthError 401
  | JwtRaise x => AuthRaise x
  | JwtOk key =>
    match jwt_decode token key ["RS256"] (expected_aud e) (expected_issuer e) ["exp"; "iss"; "aud"] with
    | JwtOk claims => AuthOk claims
    | PyJWTError => AuthError 401
    | JwtRaise x => AuthRaise x
    end
  end.

(** The delegated branch: the scope names at least one permission. *)
Definition user_branch (e : EntraResolver) (claims : list (string * json)) (scp : string)
    (admin_path : bool) : auth_result Principal :=
  if negb (bool_decide ("access_as_user" ∈ py_split scp)) then AuthError 401
  else match nonblank (jget "oid" claims) with
  | None => AuthError 401
  | Some oid =>
    let oid_lower := lower oid in
    let roles := str_items (jget "roles" claims) in
    match dget oid_lower (en_identity_map e) with
    | Some contributor_id => AuthOk (MkPrincipal contributor_id roles false)
    | None => if negb admin_path then AuthError 403
              else AuthOk (MkPrincipal (JStr oid_lower) roles false)
    end
  end.

(** [role and role in roles] *)
Definition role_in (role : string) (roles : list string) : bool :=
  negb (bool_decide (role = "")) && bool_decide (role ∈ roles).

(** The application branch: no scope at all. *)
Definition service_branch (e : EntraResolver) (claims : list (string * json)) : auth_result Principal :=
  let roles := str_items (jget "roles" claims) in
  let authorized := role_in (en_service_data_role e) roles || role_in (en_reader_role e) roles
                    || role_in (en_entra_admin_role e) roles in
  if negb authorized then AuthError 403
  else
    let oid_str := default "" (nonblank (jget "oid" claims)) in
    let oid_lower := lower oid_str in
    let mapped := if bool_decide (oid_lower = "") then None
                  else dget oid_lower (en_service_identity_map e) in
    match mapped with
    | None => AuthError 403
    | Some contributor_id => AuthOk (MkPrincipal contributor_id roles true)
    end.

Definition idtyp_of (claims : list (string * json)) : string :=
  match jget "idtyp" claims with JStr s => lower (py_strip s) | _ => "" end.

(** [EntraResolver.resolve] *)
Definition entra_resolve (e : EntraResolver) (token : string) (admin_path : bool)
    : auth_result Principal :=
  match verified_claims e token with
  | AuthError n => AuthError n
  | AuthRaise x => AuthRaise x
  | AuthOk claims =>
    if negb (bool_decide (str_or_empty (jget "tid" claims) = en_tenant_id e)
             && match jget "tid" claims with JStr _ => true | _ => false end) then AuthError 401
    else
      let scp := str_or_empty (jget "scp" claims) in
      let has_scp := negb (bool_decide (py_split scp = [])) in
      if has_scp && bool_decide (idtyp_of claims = "app") then AuthError 401
      else if has_scp then user_branch e claims scp admin_path
      else service_branch e claims
  end.

(** The [PrincipalResolver] protocol and its two implementations. *)
Inductive Resolver := StaticKeyResolver (keystore : idmap) | Entra (e : EntraResolver).

Definition auth_enabled (r : Resolver) : bool :=
  match r with
  | StaticKeyResolver keystore => negb (bool_decide (keystore = []))
  | Entra _ => true
  end.

Definition resolve (r : Resolver) (token : string) (admin_path : bool) : auth_result (option Principal) :=
  match r with
  | StaticKeyResolver keystore => AuthOk (static_resolve keystore token admin_path)
  | Entra e => match entra_resolve e token admin_path with
               | AuthOk p => AuthOk (Some p)
               | AuthError n => AuthError n
               | AuthRaise x => AuthRaise x
               end
  end.

(** ** The middleware *)

(** What the middleware stores in [scope["state"]]. *)
Record AuthState := MkAuth {
  as_contributor_id : json;
  as_is_admin : bool;
  as_roles : list string;
  as_is_service : bool;
}.

Record Scope := MkAsgi {
  sc_type : string;
  sc_path : string;
  sc_headers : list (bytes * bytes);
}.

(** [identity_gate]: absent, or the answer it gives to this request. *)
Record Middleware := MkMw {
  mw_resolver : Resolver;
  mw_exempt_paths : list string;
  mw_admin_api_key_digest : option string;
  mw_allow_unauthenticated : bool;
  mw_identity_gate : option bool;
}.

Inductive outcome :=
  | Forward (injected : option AuthState)   (** [self.app(scope, ...)] *)
  | Reply (status : Z).                     (** [_send_error] *)

Fixpoint _extract_bearer_token (headers : list (bytes * bytes)) : option string :=
  match headers with
  | [] => None
  | (name, value) :: headers =>
    if bool_decide (map to_lower name = bytes_of "authorization")
       && bool_decide (bytes_of "Bearer " `prefix_of` value)
    then Some (latin1 (drop 7 value))
    else _extract_bearer_token headers
  end.

Definition exempt (m : Middleware) (path : string) : bool :=
  bool_decide (path ∈ mw_exempt_paths m) || existsb (fun p => starts_with p path) _EXEMPT_PREFIXES.

(** The admin key, on administration routes only. *)
Definition admin_key_matches (m : Middleware) (path token : string) : bool :=
  match mw_admin_api_key_digest m with
  | Some digest => _is_admin_route path && bool_decide (token_digest token = digest)
  | None => false
  end.

Definition mw_resolve (m : Middleware) (path token : string) : outcome :=
  match resolve (mw_resolver m) token (_is_admin_route path) with
  | AuthError n => Reply n
  | AuthRaise e => Reply 401
  | AuthOk None => Reply 401
  | AuthOk (Some p) => Forward (Some (MkAuth (pr_contributor p) false (pr_roles p) (pr_is_service p)))
  end.

(** [BearerTokenMiddleware.__call__] *)
Definition mw_call (m : Middleware) (s : Scope) : outcome :=
  if negb (bool_decide (sc_type s = "http")) then Forward None
  else if negb (exempt m (sc_path s)) && negb (default true (mw_identity_gate m)) then Reply 503
  else if mw_allow_unauthenticated m && negb (auth_enabled (mw_resolver m)) then Forward None
  else if exempt m (sc_path s) then Forward None
  else match _extract_bearer_token (sc_headers s) with
  | None => Reply 401
  | Some token =>
    if admin_key_matches m (sc_path s) token
    then Forward (Some (MkAuth (JStr "admin") true [] false))
    else mw_resolve m (sc_path s) token
  end.

(** ** [require_admin] *)

Record AdminConfig := MkAdmin {
  ad_auth_mode : string;
  ad_admin_api_key_configured : bool;
  ad_entra_admin_role : string;
}.

(** [None]: the request goes on; [Some n]: [HTTPException(n)]. *)
Definition require_admin (a : AdminConfig) (st : option AuthState) : option Z :=
  if bool_decide (ad_auth_mode a = "static") then
    if negb (ad_admin_api_key_configured a) then Some 503%Z
    else if negb (default false (as_is_admin <$> st)) then Some 403%Z else None
  else if bool_decide (ad_entra_admin_role a = "") then Some 503%Z
  else if negb (bool_decide (ad_entra_admin_role a ∈ default [] (as_roles <$> st))) then Some 403%Z
  else None.

End resolve.

(** ** [EntraResolver.__init__]: the JWKS prefetch *)

(** [fetch_data] succeeds or not; [get_jwk_set] is absent, fails, or returns
    that many keys.  Construction raises [RuntimeError] unless keys are there. *)
Inductive jwk_set := NoSuchMethod | JwkRaise (e : exn) | JwkKeys (n : nat).
Definition entra_init (fetch_ok : bool) (keys : jwk_set) (e : EntraResolver) : result EntraResolver :=
  if negb fetch_ok then Err RuntimeError
  else match keys with
  | NoSuchMethod => Ok e
  | JwkRaise x => Err x
  | JwkKeys O => Err RuntimeError
  | JwkKeys (S _) => Ok e
  end.

(** [_assert_admin_not_exempt]: [/admin] is in neither exempt set. *)
Definition _assert_admin_not_exempt (paths prefixes : list string) : result unit :=
  if existsb _is_admin_route paths || existsb _is_admin_route prefixes
  then Err RuntimeError else Ok tt.

(** ** Who is admitted *)

Section spec.
Context `{PyLower, Jwt}.

(** A token that the library verifies for this application and tenant. *)
Definition genuine (e : EntraResolver) (token : string) (claims : list (string * json)) : Prop :=
  exists key, get_signing_key_from_jwt token = JwtOk key
  /\ jwt_decode token key ["RS256"] (expected_aud e) (expected_issuer e) ["exp"; "iss"; "aud"] = JwtOk claims
  /\ jget "tid" claims = JStr (en_tenant_id e).

Definition scopes (claims : list (string * json)) : list string := py_split (str_or_empty (jget "scp" claims)).
Definition token_roles (claims : list (string * json)) : list string := str_items (jget "roles" claims).
(** The principals of an Entra token: a delegated user bound in the map, on an
    administration route also one that is not bound yet, or a service principal
    that holds one of the configured roles and is bound. *)
Inductive Binds (e : EntraResolver) (token : string) (admin_path : bool) : Principal -> Prop :=
  | binds_user claims oid c :
      genuine e token claims -> "access_as_user" ∈ scopes claims -> idtyp_of claims <> "app" ->
      nonblank (jget "oid" claims) = Some oid -> dget (lower oid) (en_identity_map e) = Some c ->
      Binds e token admin_path (MkPrincipal c (token_roles claims) false)
  | binds_bootstrap claims oid :
      genuine e token claims -> "access_as_user" ∈ scopes claims -> idtyp_of claims <> "app" ->
      nonblank (jget "oid" claims) = Some oid -> dget (lower oid) (en_identity_map e) = None ->
      admin_path = true ->
      Binds e token admin_path (MkPrincipal (JStr (lower oid)) (token_roles claims) false)
  | binds_service claims oid c role :
      genuine e token claims -> scopes claims = [] ->
      role ∈ [en_service_data_role e; en_reader_role e; en_entra_admin_role e] -> role <> "" ->
      role ∈ token_roles claims ->
      nonblank (jget "oid" claims) = Some oid -> lower oid <> "" ->
      dget (lower oid) (en_service_identity_map e) = Some c ->
      Binds e token admin_path (MkPrincipal c (token_roles claims) true).

Definition Resolves (r : Resolver) (token : string) (admin_path : bool) (p : Principal) : Prop :=
  match r with
  | StaticKeyResolver ks => exists c, dget (token_digest token) ks = Some c /\ p = MkPrincipal c [] false
  | Entra e => Binds e token admin_path p
  end.

(** The gate is open and this deployment has not opted out of authentication. *)
Definition guarded (m : Middleware) (s : Scope) : Prop :=
  sc_type s = "http" /\ exempt m (sc_path s) = false /\ default true (mw_identity_gate m) = true
  /\ ~ (mw_allow_unauthenticated m = true /\ auth_enabled (mw_resolver m) = false).

Inductive Admits (m : Middleware) (s : Scope) : option AuthState -> Prop :=
  | admits_other : sc_type s <> "http" -> Admits m s None
  | admits_exempt : exempt m (sc_path s) = true -> Admits m s None
  | admits_open :
      default true (mw_identity_gate m) = true ->
      mw_allow_unauthenticated m = true -> auth_enabled (mw_resolver m) = false -> Admits m s None
  | admits_admin_key token :
      guarded m s -> _extract_bearer_token (sc_headers s) = Some token ->
      _is_admin_route (sc_path s) = true -> mw_admin_api_key_digest m = Some (token_digest token) ->
      Admits m s (Some (MkAuth (JStr "admin") true [] false))
  | admits_bound token p :
      guarded m s -> _extract_bearer_token (sc_headers s) = Some token ->
      ~ (_is_admin_route (sc_path s) = true /\ mw_admin_api_key_digest m = Some (token_digest token)) ->
      Resolves (mw_resolver m) token (_is_admin_route (sc_path s)) p ->
      Admits m s (Some (MkAuth (pr_contributor p) false (pr_roles p) (pr_is_service p))).

Lemma role_in_spec role roles : role_in role roles = true <-> role <> "" /\ role ∈ roles.
Proof.
  unfold role_in. rewrite andb_true_iff, negb_true_iff, bool_decide_eq_false, bool_decide_eq_true. done.
Qed.

Lemma verified_claims_spec e token claims :
  verified_claims e token = AuthOk claims
  <-> exists key, get_signing_key_from_jwt token = JwtOk key
      /\ jwt_decode token key ["RS256"] (expected_aud e) (expected_issuer e) ["exp"; "iss"; "aud"] = JwtOk claims.
Proof.
  unfold verified_claims. destruct (get_signing_key_from_jwt token) as [key| |x].
  - destruct (jwt_decode _ _ _ _ _ _) eqn:Hd.
    + split; [intros [= ->]; eauto|]. intros (? & [= <-] & Hk). by rewrite Hd in Hk; injection Hk as ->.
    + split; [done|]. intros (? & [= <-] & Hk). by rewrite Hd in Hk.
    + split; [done|]. intros (? & [= <-] & Hk). by rewrite Hd in Hk.
  - split; [done|]. by intros (? & ? & _).
  - split; [done|]. by intros (? & ? & _).
Qed.

(** The tenant test of the code is equality with the tenant's string. *)
Lemma tid_test v t :
  bool_decide (str_or_empty v = t) && match v with JStr _ => true | _ => false end = true <-> v = JStr t.
Proof.
  rewrite andb_true_iff, bool_decide_eq_true.
  destruct v; cbn [str_or_empty]; try (split; [by intros [_ ?]|done]).
  split; [by intros [-> _]|by intros [= ->]].
Qed.

Lemma user_branch_spec e token claims ap p :
  genuine e token claims -> scopes claims <> [] -> idtyp_of claims <> "app" ->
  user_branch e claims (str_or_empty (jget "scp" claims)) ap = AuthOk p -> Binds e token ap p.
Proof.
  intros Hg Hs Ha. unfold user_branch. fold (scopes claims). fold (token_roles claims).
  case_bool_decide as Hacc; [|done]. cbn [negb]. destruct (nonblank _) as [oid|] eqn:Ho; [|done].
  destruct (dget (lower oid) _) as [c|] eqn:Hm.
  - intros [= <-]. by eapply binds_user.
  - destruct ap; [|done]. intros [= <-]. by eapply binds_bootstrap.
Qed.

Lemma service_branch_spec e token claims ap p :
  genuine e token claims -> scopes claims = [] -> service_branch e claims = AuthOk p -> Binds e token ap p.
Proof.
  intros Hg Hs. unfold service_branch. fold (token_roles claims).
  destruct (role_in _ _ || _ || _) eqn:Hr; [|done]. cbn [negb].
  assert (exists role, role ∈ [en_service_data_role e; en_reader_role e; en_entra_admin_role e]
            /\ role <> "" /\ role ∈ token_roles claims) as (role & Hin & Hne & Hmem).
  { rewrite !orb_true_iff, !role_in_spec in Hr. destruct Hr as [[[? ?]|[? ?]]|[? ?]];
      (eexists; split; [|split; eassumption]); rewrite !elem_of_cons; auto. }
  destruct (nonblank _) as [oid|] eqn:Ho; cbn [from_option id].
  - case_bool_decide as Hl; [done|]. destruct (dget (lower oid) _) as [c|] eqn:Hm; [|done].
    intros [= <-]. by eapply binds_service.
  - rewrite (lower_ascii "") by constructor. by rewrite bool_decide_eq_true_2.
Qed.

(** The code's classification of a verified token. *)
Lemma entra_resolve_genuine e token ap claims :
  genuine e token claims ->
  (idtyp_of claims = "app" -> scopes claims <> [] -> entra_resolve e token ap = AuthError 401)
  /\ (scopes claims <> [] -> idtyp_of claims <> "app" ->
      entra_resolve e token ap = user_branch e claims (str_or_empty (jget "scp" claims)) ap)
  /\ (scopes claims = [] -> entra_resolve e token ap = service_branch e claims).
Proof.
  intros (key & Hk & Hd & Ht). unfold entra_resolve.
  rewrite (proj2 (verified_claims_spec e token claims)) by eauto.
  rewrite (proj2 (tid_test _ _)) by done. cbn [negb]. fold (scopes claims).
  split; [|split].
  - intros -> Hne. rewrite bool_decide_eq_false_2 by done. by rewrite bool_decide_eq_true_2.
  - intros Hne Ha. rewrite !bool_decide_eq_false_2 by done. done.
  - intros ->. by rewrite bool_decide_eq_true_2.
Qed.

Lemma entra_resolve_ok e token ap p :
  entra_resolve e token ap = AuthOk p -> exists claims, genuine e token claims.
Proof.
  unfold entra_resolve. destruct (verified_claims e token) as [claims| |] eqn:Hv; [|done..].
  destruct (bool_decide _ && _) eqn:Ht; [|done]. intros _. exists claims.
  apply verified_claims_spec in Hv as (key & ? & ?). apply tid_test in Ht. by exists key.
Qed.

Lemma entra_resolve_spec e token ap p :
  entra_resolve e token ap = AuthOk p <-> Binds e token ap p.
Proof.
  split.
  - intros Hr. destruct (entra_resolve_ok _ _ _ _ Hr) as [claims Hg].
    destruct (entra_resolve_genuine e token ap claims Hg) as (Hamb & Huser & Hsvc).
    destruct (decide (scopes claims = [])) as [Hs|Hs].
    + rewrite (Hsvc Hs) in Hr. by eapply service_branch_spec.
    + destruct (decide (idtyp_of claims = "app")) as [Ha|Ha].
      * by rewrite (Hamb Ha Hs) in Hr.
      * rewrite (Huser Hs Ha) in Hr. by eapply user_branch_spec.
  - assert (Hscope : forall claims, "access_as_user" ∈ scopes claims -> scopes claims <> []).
    { intros claims Hin Hnil. rewrite Hnil in Hin. by apply elem_of_nil in Hin. }
    destruct 1 as [claims oid c Hg Hacc Ha Ho Hm|claims oid Hg Hacc Ha Ho Hm Hap
                  |claims oid c role Hg Hs Hin Hne Hrole Ho Hl Hm];
      destruct (entra_resolve_genuine e token ap claims Hg) as (_ & Huser & Hsvc).
    + rewrite Huser by eauto. unfold user_branch. fold (scopes claims).
      by rewrite bool_decide_eq_true_2, Ho, Hm.
    + rewrite Huser by eauto. unfold user_branch. fold (scopes claims).
      by rewrite bool_decide_eq_true_2, Ho, Hm, Hap.
    + rewrite Hsvc by done. unfold service_branch. fold (token_roles claims).
      assert (role_in role (token_roles claims) = true) as Hr by by apply role_in_spec.
      assert (role_in (en_service_data_role e) (token_roles claims)
              || role_in (en_reader_role e) (token_roles claims)
              || role_in (en_entra_admin_role e) (token_roles claims) = true) as ->.
      { rewrite !elem_of_cons, elem_of_nil in Hin. rewrite !orb_true_iff.
        destruct Hin as [<-|[<-|[<-|[]]]]; auto. }
      rewrite Ho. cbn [from_option id negb]. by rewrite bool_decide_eq_false_2, Hm.
Qed.

Lemma resolve_spec r token ap p : resolve r token ap = AuthOk (Some p) <-> Resolves r token ap p.
Proof.
  destruct r as [ks|e]; cbn [resolve Resolves].
  - unfold static_resolve, _resolve_token. destruct (dget _ ks) as [c|].
    + split; [intros [= <-]; eauto|]. by intros (? & [= <-] & ->).
    + split; [done|]. by intros (? & ? & _).
  - rewrite <- entra_resolve_spec. destruct (entra_resolve e token ap); split; congruence.
Qed.

Lemma resolve_status r token ap n : resolve r token ap = AuthError n -> n = 401%Z \/ n = 403%Z.
Proof.
  destruct r as [ks|e]; cbn [resolve]; [done|].
  destruct (entra_resolve e token ap) as [|k|] eqn:He; [done| |done]. intros [= <-]. revert He.
  unfold entra_resolve. destruct (verified_claims e token) as [claims|v|] eqn:Hv.
  - unfold user_branch, service_branch. repeat case_match; intros [=]; auto.
  - intros [= <-]. unfold verified_claims in Hv. repeat case_match; by simplify_eq; left.
  - done.
Qed.

Lemma admin_key_matches_spec m path token :
  admin_key_matches m path token = true
  <-> _is_admin_route path = true /\ mw_admin_api_key_digest m = Some (token_digest token).
Proof.
  unfold admin_key_matches. destruct (mw_admin_api_key_digest m) as [d|]; [|split; [done|by intros [_ ?]]].
  rewrite andb_true_iff, bool_decide_eq_true. split; intros [? Hd]; split; congruence.
Qed.

(** Past the gate and the two unauthenticated cases, the token decides. *)
Lemma mw_call_guarded m s :
  guarded m s ->
  mw_call m s = match _extract_bearer_token (sc_headers s) with
                | None => Reply 401
                | Some token => if admin_key_matches m (sc_path s) token
                                then Forward (Some (MkAuth (JStr "admin") true [] false))
                                else mw_resolve m (sc_path s) token
                end.
Proof.
  intros (Ht & He & Hg & Ho). unfold mw_call. rewrite Ht, He, Hg. rewrite bool_decide_eq_true_2 by done.
  cbn [negb andb]. destruct (mw_allow_unauthenticated m); [|done]. cbn [andb].
  destruct (auth_enabled (mw_resolver m)); [done|]. by destruct Ho.
Qed.

(** The four ways a request gets past or stops at the checks before the token. *)
Lemma mw_call_cases m s :
  (sc_type s <> "http" /\ mw_call m s = Forward None)
  \/ (exempt m (sc_path s) = true /\ mw_call m s = Forward None)
  \/ (default true (mw_identity_gate m) = true /\ mw_allow_unauthenticated m = true
      /\ auth_enabled (mw_resolver m) = false /\ mw_call m s = Forward None)
  \/ (sc_type s = "http" /\ exempt m (sc_path s) = false
      /\ default true (mw_identity_gate m) = false /\ mw_call m s = Reply 503)
  \/ guarded m s.
Proof.
  destruct (decide (sc_type s = "http")) as [Ht|Ht].
  2: { left. split; [done|]. unfold mw_call. by rewrite bool_decide_eq_false_2. }
  right. unfold guarded, mw_call. rewrite bool_decide_eq_true_2 by done. cbn [negb].
  destruct (exempt m (sc_path s)); cbn [negb andb]; [left; split; [done|by destruct (_ && _)]|right].
  destruct (default true (mw_identity_gate m)); cbn [negb]; [|right; left; done].
  destruct (mw_allow_unauthenticated m), (auth_enabled (mw_resolver m)); cbn [andb negb]; naive_solver.
Qed.

Lemma mw_call_forward m s st : mw_call m s = Forward st <-> Admits m s st.
Proof.
  split.
  - intros Hc. destruct (mw_call_cases m s)
      as [[? Hx]|[[? Hx]|[(? & ? & ? & Hx)|[(? & ? & ? & Hx)|Hg]]]];
      [rewrite Hx in Hc; injection Hc as <-; eauto using Admits..|by rewrite Hx in Hc|].
    rewrite mw_call_guarded in Hc by done.
    destruct (_extract_bearer_token _) as [token|] eqn:Ht; [|done].
    destruct (admin_key_matches _ _ _) eqn:Hk.
    + apply admin_key_matches_spec in Hk as [? ?]. injection Hc as <-. by eapply admits_admin_key.
    + unfold mw_resolve in Hc. destruct (resolve _ _ _) as [[p|]| |] eqn:Hr; [|done..].
      injection Hc as <-. apply resolve_spec in Hr. eapply admits_bound; [done..| |done].
      rewrite <- admin_key_matches_spec. by rewrite Hk.
  - destruct 1 as [Ht|He|Hg Ha Hd|token Hg Ht Hp Hd|token p Hg Ht Hn Hr].
    + unfold mw_call. by rewrite bool_decide_eq_false_2.
    + unfold mw_call. rewrite He. cbn [negb andb]. by repeat case_match.
    + unfold mw_call. rewrite Hg, Ha, Hd. cbn [negb andb]. rewrite andb_false_r. by case_match.
    + rewrite mw_call_guarded, Ht by done. by rewrite (proj2 (admin_key_matches_spec _ _ _)).
    + rewrite mw_call_guarded, Ht by done. destruct (admin_key_matches _ _ _) eqn:Hk.
      { by apply admin_key_matches_spec in Hk. }
      apply resolve_spec in Hr. unfold mw_resolve. by rewrite Hr.
Qed.

Lemma mw_call_reply m s n : mw_call m s = Reply n -> n ∈ [401; 403; 503]%Z.
Proof.
  intros Hc. rewrite !elem_of_cons. destruct (mw_call_cases m s)
    as [[? Hx]|[[? Hx]|[(? & ? & ? & Hx)|[(? & ? & ? & Hx)|Hg]]]]; try congruence.
  - rewrite Hx in Hc. injection Hc as <-. auto.
  - rewrite mw_call_guarded in Hc by done. unfold mw_resolve in Hc.
    repeat case_match; simplify_eq; auto.
    match goal with H : resolve _ _ _ = AuthError _ |- _ => apply resolve_status in H as [->| ->] end; auto.
Qed.

(** C13: authentication, as the code decides it.  The middleware forwards a request
    exactly when it is not HTTP; or its path is exempt; or, past the readiness gate,
    authentication is opted out of with no credentials configured; or it presents
    the admin key on an administration route; or its bearer token resolves: to a
    static key, to a delegated user in the identity map (on an administration route
    also to one who is not in it yet), or to a service principal that holds a
    configured role and whose [oid] is in the service map.  The admin key opens no
    data route, and [appid] or [azp] identify nobody.  The scope carries exactly
    that principal, and every other request is answered 401, 403 or 503. *)
Theorem middleware_admits (m : Middleware) (s : Scope) (st : option AuthState) :
  (mw_call m s = Forward st <-> Admits m s st)
  /\ ((forall st', ~ Admits m s st') -> exists n, n ∈ [401; 403; 503]%Z /\ mw_call m s = Reply n).
Proof.
  split; [apply mw_call_forward|]. intros Hnone.
  destruct (mw_call m s) as [st'|n] eqn:Hc; [by apply mw_call_forward, Hnone in Hc|].
  exists n. split; [by eapply mw_call_reply|done].
Qed.

(** ** The administration routes *)

(** How the application wires its middleware and [require_admin] together. *)
Inductive wired (m : Middleware) (a : AdminConfig) : Prop :=
  | wired_static ks :
      ad_auth_mode a = "static" -> mw_resolver m = StaticKeyResolver ks ->
      ad_admin_api_key_configured a = bool_decide (mw_admin_api_key_digest m <> None) -> wired m a
  | wired_entra e :
      ad_auth_mode a = "entra" -> mw_resolver m = Entra e -> mw_admin_api_key_digest m = None ->
      ad_entra_admin_role a = en_entra_admin_role e -> wired m a.

(** The request reaches an administration handler. *)
Definition admin_reached (m : Middleware) (a : AdminConfig) (s : Scope) : Prop :=
  exists st, mw_call m s = Forward st /\ require_admin a st = None.

(** The credential that opens the administration routes. *)
Inductive AdminCredential (m : Middleware) (token : string) : Prop :=
  | admin_by_key ks :
      mw_resolver m = StaticKeyResolver ks ->
      mw_admin_api_key_digest m = Some (token_digest token) -> AdminCredential m token
  | admin_by_role e p :
      mw_resolver m = Entra e -> Binds e token true p ->
      en_entra_admin_role e <> "" -> en_entra_admin_role e ∈ pr_roles p -> AdminCredential m token.

Lemma require_admin_static a st :
  ad_auth_mode a = "static" ->
  require_admin a st = None
  <-> ad_admin_api_key_configured a = true /\ default false (as_is_admin <$> st) = true.
Proof.
  intros Hm. unfold require_admin. rewrite bool_decide_eq_true_2 by done.
  destruct (ad_admin_api_key_configured a), (default false (as_is_admin <$> st)); naive_solver.
Qed.

Lemma require_admin_entra a st :
  ad_auth_mode a = "entra" ->
  require_admin a st = None
  <-> ad_entra_admin_role a <> "" /\ ad_entra_admin_role a ∈ default [] (as_roles <$> st).
Proof.
  intros Hm. unfold require_admin. rewrite Hm. cbn [bool_decide decide_rel].
  rewrite bool_decide_eq_false_2 by done. repeat case_bool_decide; naive_solver.
Qed.

(** The start-up assertion is what keeps the administration routes guarded. *)
Lemma admin_not_exempt m path :
  _assert_admin_not_exempt (mw_exempt_paths m) _EXEMPT_PREFIXES = Ok tt ->
  _is_admin_route path = true -> exempt m path = false.
Proof.
  unfold _assert_admin_not_exempt, exempt. cbn [existsb _EXEMPT_PREFIXES]. rewrite !orb_false_r.
  destruct (existsb _is_admin_route _) eqn:He; [done|]. intros _ Hp.
  apply bool_decide_eq_false. intros Hin%list_elem_of_In.
  assert (existsb _is_admin_route (mw_exempt_paths m) = true) by (apply existsb_exists; eauto). congruence.
Qed.

(** The administration routes open for the admin credential and nothing
    else.  With static keys that is the one configured admin key (no data key,
    no opted-out deployment, gets in); with Entra a genuine token carrying the
    configured admin role, of a delegated user whether bound yet or not, or of a
    bound service principal. *)
Theorem admin_surface (m : Middleware) (a : AdminConfig) (s : Scope) :
  wired m a -> _assert_admin_not_exempt (mw_exempt_paths m) _EXEMPT_PREFIXES = Ok tt ->
  sc_type s = "http" -> _is_admin_route (sc_path s) = true ->
  admin_reached m a s
  <-> guarded m s /\ exists token, _extract_bearer_token (sc_headers s) = Some token
                                   /\ AdminCredential m token.
Proof.
  intros Hw Hex Ht Hp. pose proof (admin_not_exempt _ _ Hex Hp) as He. split.
  - intros (st & Hc & Hr). apply mw_call_forward in Hc.
    destruct Hc as [?|?|_ _ Hd|token Hg Htok _ Hdig|token p Hg Htok _ Hres]; [done|congruence|..].
    + exfalso. destruct Hw as [ks Hm _ _|e Hm Hre _ _].
      * by apply require_admin_static in Hr as [_ ?].
      * apply require_admin_entra in Hr as [_ Hin]; [by apply elem_of_nil in Hin|done].
    + split; [done|]. exists token. split; [done|]. destruct Hw; [by eapply admin_by_key|congruence].
    + split; [done|]. exists token. split; [done|]. destruct Hw as [ks Hm _ _|e Hm Hre _ Hrole].
      * by apply require_admin_static in Hr as [_ ?].
      * apply require_admin_entra in Hr as [Hne Hin]; [|done]. rewrite Hre, Hp in Hres.
        rewrite Hrole in Hne, Hin. by eapply admin_by_role.
  - intros (Hg & token & Htok & Hcred). destruct Hw as [ks Hm Hre Hconf|e Hm Hre Hnone Hrole].
    + destruct Hcred as [ks' _ Hd|]; [|congruence].
      exists (Some (MkAuth (JStr "admin") true [] false)). split.
      * apply mw_call_forward. by eapply admits_admin_key.
      * apply require_admin_static; [done|]. by rewrite Hconf, Hd.
    + destruct Hcred as [|e' p He' Hb Hne Hin]; [congruence|].
      assert (e' = e) as -> by congruence.
      exists (Some (MkAuth (pr_contributor p) false (pr_roles p) (pr_is_service p))). split.
      * apply mw_call_forward. eapply admits_bound; [done..| |].
        -- rewrite Hnone. by intros [_ ?].
        -- rewrite Hre, Hp. exact Hb.
      * apply require_admin_entra; [done|]. by rewrite Hrole.
Qed.


End spec.

(** ** Concrete deployments *)

#[export] Program Instance ascii_lower : PyLower := {| lower s := str_of (map to_lower (bytes_of s)) |}.
Next Obligation. done. Qed.

(** A token library that verifies exactly one token. *)
Definition demo_claims : list (string * json) :=
  [("tid", JStr "tenant"); ("scp", JStr "openid access_as_user"); ("oid", JStr "OID-1");
   ("roles", JArr [JStr "IdentityAdmin"; JInt 7])].
#[export] Instance demo_jwt : Jwt := {|
  jwt_key := unit;
  get_signing_key_from_jwt t := if bool_decide (t = "jwt") then JwtOk tt else PyJWTError;
  jwt_decode t _ algs aud iss _ :=
    if bool_decide (algs = ["RS256"] /\ "app" ∈ aud) then JwtOk demo_claims else PyJWTError |}.

Definition demo_entra : EntraResolver :=
  MkEntra "app" "tenant" [] [] "Contributor" "Reader" "IdentityAdmin".
Definition demo_mw (r : Resolver) (digest : option string) : Middleware :=
  MkMw r _EXEMPT_PATHS digest false (Some true).
Definition demo_scope (path token : string) : Scope :=
  MkAsgi "http" path [(bytes_of "Host", bytes_of "x"); (bytes_of "Authorization", bytes_of ("Bearer " +:+ token))].

Lemma admin_surface_witness :
  admin_reached (demo_mw (Entra demo_entra) None) (MkAdmin "entra" false "IdentityAdmin")
    (demo_scope "/admin/identities" "jwt").
Proof.
  apply (admin_surface (demo_mw (Entra demo_entra) None) (MkAdmin "entra" false "IdentityAdmin")
           (demo_scope "/admin/identities" "jwt"));
    [by apply (wired_entra _ _ demo_entra)|reflexivity..|].
  split.
  - repeat split; try reflexivity. by intros [? _].
  - exists "jwt". split; [reflexivity|].
    apply (admin_by_role _ _ demo_entra (MkPrincipal (JStr "oid-1") ["IdentityAdmin"] false));
      [reflexivity| |done|left].
    apply entra_resolve_spec. vm_compute. reflexivity.
Defined.

(** The same unbound token is refused on a data route, and with static keys the
    admin key is no data key. *)
Example unbound_token_refused :
  mw_call (demo_mw (Entra demo_entra) None) (demo_scope "/events" "jwt") = Reply 403.
Proof. vm_compute. reflexivity. Qed.

Example admin_key_is_no_data_key :
  let m := demo_mw (StaticKeyResolver [(token_digest "k", JStr "alice")]) (Some (token_digest "adm")) in
  mw_call m (demo_scope "/events" "adm") = Reply 401
  /\ mw_call m (demo_scope "/admin/keys" "adm") = Forward (Some (MkAuth (JStr "admin") true [] false))
  /\ mw_call m (demo_scope "/events" "k") = Forward (Some (MkAuth (JStr "alice") false [] false)).
Proof. vm_compute. done. Qed.

Lemma middleware_admits_witness :
  exists n, n ∈ [401; 403; 503]%Z /\ mw_call (demo_mw (Entra demo_entra) None) (demo_scope "/events" "none") = Reply n.
Proof.
  apply (middleware_admits (demo_mw (Entra demo_entra) None) (demo_scope "/events" "none") None).
  intros st Ha. apply mw_call_forward in Ha. vm_compute in Ha. discriminate.
Defined.
