(* ===== verification/JsonIndent.v ===== *)
(** * [json.dumps(value, indent=2, ensure_ascii=False)]

    The pretty printer the identity store writes its file with, on code points
    (the file is their UTF-8), and its round trip through [json.loads]
    (JsonParse).  Characters outside ASCII are written as they are; only
    quotes, backslashes and control characters are escaped. *)
From stdpp Require Import base list strings.
From Stdlib Require Import ZArith Lia Bool.
From S2P Require Import Prelude PyText Utils Json JsonParse.

#[local] Open Scope Z_scope.

Definition esc_raw (c : Z) : list Z :=
  if c =? 34 then [92; 34]
  else if c =? 92 then [92; 92]
  else if c =? 10 then [92; 110]
  else if c =? 13 then [92; 114]
  else if c =? 9 then [92; 116]
  else if c =? 8 then [92; 98]
  else if c =? 12 then [92; 102]
  else if c <? 32 then cps (u_escape c)
  else [c].

Definition raw_str (s : string) : list Z :=
  match utf8_decode (bytes_of s) with
  | Some cs => 34 :: concat (map esc_raw cs) ++ [34]
  | None => []
  end.

Definition nl_indent (level : nat) : list Z := 10 :: replicate (2 * level) 32.

Fixpoint join (sep : list Z) (l : list (list Z)) : list Z :=
  match l with
  | [] => []
  | [x] => x
  | x :: l => x ++ sep ++ join sep l
  end.

Fixpoint indent_text (level : nat) (j : json) : list Z :=
  match j with
  | JStr s => raw_str s
  | JArr [] => [91; 93]
  | JArr l => 91 :: nl_indent (S level)
      ++ join (44 :: nl_indent (S level)) (map (indent_text (S level)) l) ++ nl_indent level ++ [93]
  | JObj [] => [123; 125]
  | JObj o => 123 :: nl_indent (S level)
      ++ join (44 :: nl_indent (S level))
           (map (fun kv => raw_str kv.1 ++ 58 :: 32 :: indent_text (S level) kv.2) o)
      ++ nl_indent level ++ [125]
  | scalar_value => cps (json_dumps scalar_value)
  end.

(** The bytes of the file. *)
Definition dumps_indent (j : json) : bytes := utf8_encode (indent_text 0 j).

(** ** Reading it back *)

Lemma nl_indent_ws l : Forall (fun c => ws c = true) (nl_indent l).
Proof. unfold nl_indent. constructor; [done|]. by apply Forall_replicate. Qed.

Lemma parse_esc_raw c rest :
  scalar c = true -> parse_string (esc_raw c ++ rest) = consp c (parse_string rest).
Proof.
  intros Hs%scalar_spec. unfold esc_raw.
  repeat (match goal with |- context [if ?x =? ?k then _ else _] =>
    destruct (Z.eqb_spec x k) as [->|?]; [reflexivity|] end).
  destruct (Z.ltb_spec c 32).
  - apply parse_u_escape; [lia|]. unfold high_surrogate. by destruct (Z.leb_spec 55296 c); [lia|].
  - cbn [app parse_string]. by destruct (Z.eqb_spec c 34), (Z.eqb_spec c 92), (Z.ltb_spec c 32); try lia.
Qed.

Lemma parse_string_raw cs rest :
  Forall (fun c => scalar c = true) cs ->
  parse_string (concat (map esc_raw cs) ++ 34 :: rest) = Some (cs, rest).
Proof.
  induction 1 as [|c cs Hc Hcs IH]; [done|]. cbn [map concat].
  by rewrite <- app_assoc, parse_esc_raw, IH.
Qed.

Lemma parse_raw_str s rest :
  utf8_valid (bytes_of s) = true ->
  exists q, raw_str s = 34 :: q
    /\ exists cs, parse_string (q ++ rest) = Some (cs, rest) /\ str_value cs = Some s.
Proof.
  intros Hv. unfold raw_str, utf8_valid in *.
  destruct (utf8_decode (bytes_of s)) as [cs|] eqn:Hd; [|done].
  eexists. split; [reflexivity|]. exists cs. split; [|by apply str_value_decode].
  rewrite <- app_assoc. apply parse_string_raw. by apply utf8_decode_sound in Hd as [? _].
Qed.

Section roundtrip.
Context `{FloatRepr}.

(** [cs] is a complete spelling of [v] that stops where the text behind it starts. *)
Definition spells (v : json) (cs : list Z) : Prop :=
  (exists c r, cs = c :: r /\ ws c = false /\ c <> 93 /\ c <> 125)
  /\ forall n rest, (length cs < n)%nat -> stops rest -> parse_value n (cs ++ rest) = Some (v, rest).

Lemma stops_ws w c rest :
  Forall (fun c => ws c = true) w -> stops (c :: rest) -> stops (w ++ c :: rest).
Proof.
  destruct 1 as [|x w Hx Hw]; [done|]. intros _. cbn [app stops]. unfold ws in Hx. unfold dig.
  rewrite !orb_true_iff, !Z.eqb_eq in Hx. destruct Hx as [[[->| ->]| ->]| ->]; repeat split; done.
Qed.

Lemma length_join_cons sep x y l :
  length (join sep (x :: y :: l)) = (length x + length sep + length (join sep (y :: l)))%nat.
Proof. cbn [join]. rewrite !length_app. lia. Qed.

(** The head of a joined, non-empty list is the head of its first element. *)
Lemma join_head sep x l rest c r :
  x = c :: r -> exists r', join sep (x :: l) ++ rest = c :: r'.
Proof. intros ->. destruct l; cbn [join app]; eauto. Qed.

Section items.
Context (w wend : list Z) (Hw : Forall (fun c => ws c = true) w) (Hwend : Forall (fun c => ws c = true) wend).

Lemma parse_items_join vs css : Forall2 spells vs css -> forall v cs n acc rest,
  spells v cs -> (length (join (44%Z :: w) (cs :: css)) + 1 < n)%nat ->
  parse_items n (join (44 :: w) (cs :: css) ++ wend ++ 93 :: rest) acc
  = Some (JArr (acc ++ v :: vs), rest).
Proof.
  induction 1 as [|v' cs' vs css Hs' Hss IH]; intros v cs n acc rest [Hh Hp] Hn;
    (destruct n as [|n]; [lia|]).
  - cbn [join parse_items] in *. rewrite Hp by (lia || by apply stops_ws).
    by rewrite skip_ws_app.
  - rewrite length_join_cons in Hn. cbn [length] in Hn.
    change (join (44 :: w) (cs :: cs' :: css)) with (cs ++ (44 :: w) ++ join (44 :: w) (cs' :: css)).
    rewrite <- !app_assoc. cbn [app parse_items]. rewrite Hp by (lia || done).
    rewrite skip_ws_cons by done. cbn [Z.eqb Pos.eqb]. rewrite skip_ws_app by done.
    pose proof Hs' as [(c & r & Hc & Hws & _) _].
    destruct (join_head (44 :: w) cs' css (wend ++ 93 :: rest) c r Hc) as [r' Hr'].
    rewrite Hr', skip_ws_cons, <- Hr' by done.
    rewrite (IH v' cs'); [by rewrite <- app_assoc|done|lia].
Qed.

(** A member: a quoted key, a colon, a space and the value. *)
Definition spells_member (kv : string * json) (cs : list Z) : Prop :=
  utf8_valid (bytes_of kv.1) = true
  /\ exists vs, spells kv.2 vs /\ cs = raw_str kv.1 ++ 58 :: 32 :: vs.

Lemma spells_member_head kv cs : spells_member kv cs -> exists r, cs = 34 :: r.
Proof.
  intros [Hv (vs & _ & ->)]. destruct (parse_raw_str kv.1 [] Hv) as (q & -> & _). cbn [app]. eauto.
Qed.

Lemma parse_one_member kv cs n rest acc :
  spells_member kv cs -> (length cs < n)%nat -> stops rest -> kv.1 ∉ dkeys acc ->
  parse_members (S n) (cs ++ rest) acc =
  match skip_ws rest with
  | c :: r3 => if c =? 44 then parse_members n (skip_ws r3) (acc ++ [kv])
               else if c =? 125 then Some (JObj (acc ++ [kv]), r3) else None
  | [] => None
  end.
Proof.
  intros [Hv (vs & [(c & r & Hc & Hws & _) Hp] & ->)] Hn Hs Hk. rewrite <- app_assoc. cbn [app].
  destruct (parse_raw_str kv.1 (58 :: 32 :: vs ++ rest) Hv) as (q & Hq & cs & Hps & Hcs).
  rewrite length_app, Hq in Hn. cbn [length] in Hn. rewrite Hq. cbn [app parse_members].
  change (34 =? 34) with true. cbn [negb]. rewrite Hps, Hcs.
  rewrite skip_ws_cons by done. change (58 =? 58) with true. cbn [negb].
  change (skip_ws (32 :: vs ++ rest)) with (skip_ws (vs ++ rest)).
  rewrite Hc. cbn [app]. rewrite skip_ws_cons by done. rewrite app_comm_cons, <- Hc.
  rewrite Hp by (done || lia). rewrite dset_fresh by done. by destruct kv.
Qed.

Lemma parse_members_join o css : Forall2 spells_member o css -> forall kv cs n acc rest,
  spells_member kv cs -> NoDup (dkeys (acc ++ kv :: o)) ->
  (length (join (44%Z :: w) (cs :: css)) + 1 < n)%nat ->
  parse_members n (join (44 :: w) (cs :: css) ++ wend ++ 125 :: rest) acc
  = Some (JObj (acc ++ kv :: o), rest).
Proof.
  induction 1 as [|kv' cs' o css Hm' Hms IH]; intros kv cs n acc rest Hm Hnd Hn;
    (destruct n as [|n]; [lia|]);
    assert (Hk : kv.1 ∉ dkeys acc)
      by (unfold dkeys in *; rewrite map_app in Hnd; apply NoDup_app in Hnd as (_ & Hd & _);
          intros Hin; apply (Hd _ Hin); left).
  - cbn [join] in *. rewrite (parse_one_member kv); [|done|lia|by apply stops_ws|done].
    by rewrite skip_ws_app.
  - rewrite length_join_cons in Hn. cbn [length] in Hn.
    change (join (44 :: w) (cs :: cs' :: css)) with (cs ++ (44 :: w) ++ join (44 :: w) (cs' :: css)).
    rewrite <- !app_assoc. rewrite (parse_one_member kv); [|done|lia|done|done].
    cbn [app]. rewrite skip_ws_cons by done. cbn [Z.eqb Pos.eqb]. rewrite skip_ws_app by done.
    destruct (spells_member_head _ _ Hm') as [r Hr].
    destruct (join_head (44 :: w) cs' css (wend ++ 125 :: rest) 34 r Hr) as [r' Hr'].
    rewrite Hr', skip_ws_cons, <- Hr' by done.
    rewrite (IH kv' cs'); [by rewrite <- app_assoc|done|by rewrite <- app_assoc|lia].
Qed.
End items.

Lemma scalar_spells j :
  json_ok j -> match j with JStr _ | JArr _ | JObj _ => False | _ => True end ->
  spells j (cps (json_dumps j)).
Proof.
  intros Hj Hs.
  assert (Hw : Forall (fun c => ws c = true) [32]) by by constructor.
  split.
  - by apply (text_head [Byte.x2c; Byte.x20] [Byte.x3a; Byte.x20]).
  - by apply (dumps_reads_back [Byte.x2c; Byte.x20] [Byte.x3a; Byte.x20] [32] [32]).
Qed.

Lemma str_spells s : utf8_valid (bytes_of s) = true -> spells (JStr s) (raw_str s).
Proof.
  intros Hv. split.
  - destruct (parse_raw_str s [] Hv) as (q & -> & _). by exists 34, q.
  - intros n rest Hn _. destruct n as [|n]; [lia|].
    destruct (parse_raw_str s rest Hv) as (q & -> & cs & Hp & Hcs).
    cbn [app parse_value Z.eqb Pos.eqb]. by rewrite Hp, Hcs.
Qed.

Lemma arr_spells level l :
  Forall (fun x => spells x (indent_text (S level) x)) l -> spells (JArr l) (indent_text level (JArr l)).
Proof.
  intros Hl. destruct Hl as [|x l Hx Hl].
  { split; [by exists 91, [93]|]. intros [|n] rest Hn _; [lia|]. done. }
  split; [by do 2 eexists|]. intros [|n] rest Hn _; [lia|].
  set (css := map (indent_text (S level)) l).
  assert (Hcss : Forall2 spells l css) by (apply Forall2_fmap_r, Forall_Forall2_diag, Hl).
  cbn [indent_text map] in Hn |- *. fold css in Hn |- *.
  cbn [length] in Hn. rewrite !length_app in Hn. cbn [length] in Hn.
  cbn [app parse_value Z.eqb Pos.eqb]. rewrite <- !app_assoc, skip_ws_app by apply nl_indent_ws.
  pose proof Hx as [(c & r & Hc & Hws & H93 & _) _]. cbn [app].
  destruct (join_head (44 :: nl_indent (S level)) (indent_text (S level) x) css (nl_indent level ++ 93 :: rest) c r Hc)
    as [r' Hr'].
  rewrite Hr', skip_ws_cons by done. destruct (Z.eqb_spec c 93); [done|]. rewrite <- Hr'.
  rewrite (parse_items_join (nl_indent (S level)) (nl_indent level) (nl_indent_ws _) (nl_indent_ws _) l css Hcss x);
    [done|done|lia].
Qed.

Lemma obj_spells level o :
  NoDup (dkeys o) ->
  Forall (fun kv => utf8_valid (bytes_of kv.1) = true /\ spells kv.2 (indent_text (S level) kv.2)) o ->
  spells (JObj o) (indent_text level (JObj o)).
Proof.
  intros Hnd Ho. destruct Ho as [|kv o Hkv Ho].
  { split; [by exists 123, [125]|]. intros [|n] rest Hn _; [lia|]. done. }
  split; [by do 2 eexists|]. intros [|n] rest Hn _; [lia|].
  set (mem := fun kv : string * json => raw_str kv.1 ++ 58 :: 32 :: indent_text (S level) kv.2).
  assert (Hmem : forall x, utf8_valid (bytes_of x.1) = true /\ spells x.2 (indent_text (S level) x.2) ->
                 spells_member x (mem x)).
  { intros x [? ?]. split; [done|]. by eexists. }
  assert (Hcss : Forall2 spells_member o (map mem o)).
  { apply Forall2_fmap_r, Forall_Forall2_diag. eapply Forall_impl; [exact Ho|]. exact Hmem. }
  cbn [indent_text map] in Hn |- *. fold mem in Hn |- *. change (raw_str kv.1 ++ _) with (mem kv) in Hn |- *.
  cbn [length] in Hn. rewrite !length_app in Hn. cbn [length] in Hn.
  cbn [app parse_value Z.eqb Pos.eqb]. rewrite <- !app_assoc, skip_ws_app by apply nl_indent_ws. cbn [app].
  destruct (spells_member_head _ _ (Hmem kv Hkv)) as [r Hr].
  destruct (join_head (44 :: nl_indent (S level)) (mem kv) (map mem o) (nl_indent level ++ 125 :: rest) 34 r Hr)
    as [r' Hr'].
  rewrite Hr', skip_ws_cons by done. cbn [Z.eqb Pos.eqb]. rewrite <- Hr'.
  rewrite (parse_members_join (nl_indent (S level)) (nl_indent level) (nl_indent_ws _) (nl_indent_ws _) o _ Hcss kv);
    [done|by apply Hmem|done|lia].
Qed.

Lemma indent_spells j : json_ok j -> forall level, spells j (indent_text level j).
Proof.
  induction j as [|b|z|s|s|l IH|o IH] using json_nested_ind; intros Hj level;
    try by apply scalar_spells.
  - by apply str_spells.
  - apply fold_right_Forall in Hj. apply arr_spells.
    eapply Forall_impl; [apply Forall_and; split; [exact IH|exact Hj]|]. intros x []. auto.
  - destruct Hj as [Hnd Hj]. apply fold_right_Forall in Hj. apply obj_spells; [done|].
    eapply Forall_impl; [apply Forall_and; split; [exact IH|exact Hj]|]. intros x [? []]. auto.
Qed.

Lemma loads_indent j : json_ok j -> loads (indent_text 0 j) = Ok j.
Proof.
  intros Hj. destruct (indent_spells j Hj 0) as [(c & r & Hc & Hws & _) Hp]. unfold loads.
  rewrite Hc, skip_ws_cons, <- Hc by done. rewrite <- (app_nil_r (indent_text 0 j)) at 2.
  by rewrite Hp by (done || lia).
Qed.
End roundtrip.

(** ** The file's bytes *)

Lemma esc_raw_scalar c : scalar c = true -> Forall (fun c => scalar c = true) (esc_raw c).
Proof.
  intros Hs. unfold esc_raw. repeat (case_match; [by repeat constructor|]). case_match; [|by constructor].
  unfold cps. apply Forall_map. eapply Forall_impl; [apply u_escape_printable|].
  intros b Hb. unfold printable in Hb. apply scalar_spec. lia.
Qed.

Ltac decide_bounds :=
  repeat match goal with
  | |- context [?a <=? ?b] => destruct (Z.leb_spec a b); try lia; cbn [andb]
  | |- context [?a <? ?b] => destruct (Z.ltb_spec a b); try lia; cbn [andb]
  | |- context [?a =? ?b] => destruct (Z.eqb_spec a b); try lia; cbn [andb]
  end.

(** UTF-8 decoding inverts encoding. *)
Lemma decode_encode_one c rest :
  scalar c = true -> utf8_decode (utf8_encode_one c ++ rest) = cons c <$> utf8_decode rest.
Proof.
  intros [Hc Hsur]%scalar_spec. unfold utf8_encode_one.
  destruct (Z.ltb_spec c 128); [|destruct (Z.ltb_spec c 2048); [|destruct (Z.ltb_spec c 65536)]];
    cbn [app utf8_decode]; unfold cont, in_range.
  - rewrite bZ_byte_of_Z by lia. by destruct (Z.ltb_spec c 128); [|lia].
  - pose proof (Z.div_mod c 64). pose proof (Z.mod_pos_bound c 64).
    rewrite !bZ_byte_of_Z by lia. decide_bounds. do 2 f_equal. lia.
  - assert (c / 4096 = c / 64 / 64) as -> by (rewrite Z.div_div by lia; done).
    pose proof (Z.div_mod c 64). pose proof (Z.mod_pos_bound c 64).
    pose proof (Z.div_mod (c / 64) 64). pose proof (Z.mod_pos_bound (c / 64) 64).
    rewrite !bZ_byte_of_Z by lia. decide_bounds; (do 2 f_equal; lia).
  - assert (c / 4096 = c / 64 / 64) as -> by (rewrite Z.div_div by lia; done).
    assert (c / 262144 = c / 64 / 64 / 64) as -> by (rewrite !Z.div_div by lia; done).
    pose proof (Z.div_mod c 64). pose proof (Z.mod_pos_bound c 64).
    pose proof (Z.div_mod (c / 64) 64). pose proof (Z.mod_pos_bound (c / 64) 64).
    pose proof (Z.div_mod (c / 64 / 64) 64). pose proof (Z.mod_pos_bound (c / 64 / 64) 64).
    rewrite !bZ_byte_of_Z by lia. decide_bounds; (do 2 f_equal; lia).
Qed.

Lemma decode_encode cs : Forall (fun c => scalar c = true) cs -> utf8_decode (utf8_encode cs) = Some cs.
Proof.
  induction 1 as [|c cs Hc Hcs IH]; [done|]. unfold utf8_encode in *. cbn [map concat].
  by rewrite decode_encode_one, IH.
Qed.

Lemma join_Forall (P : Z -> Prop) sep l : Forall P sep -> Forall (Forall P) l -> Forall P (join sep l).
Proof.
  intros Hsep. induction 1 as [|x l Hx Hl IH]; [constructor|].
  destruct l; [done|]. cbn [join] in *. by repeat (apply Forall_app; split).
Qed.

Lemma raw_str_scalar s : Forall (fun c => scalar c = true) (raw_str s).
Proof.
  unfold raw_str. destruct (utf8_decode _) as [cs|] eqn:Hd; [|constructor].
  apply utf8_decode_sound in Hd as [Hcs _]. constructor; [done|]. apply Forall_app. split; [|by constructor].
  apply Forall_concat, Forall_map. eapply Forall_impl; [exact Hcs|]. apply esc_raw_scalar.
Qed.

Lemma nl_indent_scalar l : Forall (fun c => scalar c = true) (nl_indent l).
Proof. unfold nl_indent. constructor; [done|]. by apply Forall_replicate. Qed.

Lemma cps_scalar b : Forall printable b -> Forall (fun c => scalar c = true) (cps b).
Proof.
  intros Hb. unfold cps. apply Forall_map. eapply Forall_impl; [exact Hb|].
  intros x Hx. unfold printable in Hx. apply scalar_spec. lia.
Qed.

Lemma indent_scalar j : floats_ok j = true -> forall level, Forall (fun c => scalar c = true) (indent_text level j).
Proof.
  assert (Hdump : forall j, floats_ok j = true -> Forall (fun c => scalar c = true) (cps (json_dumps j))).
  { intros x Hx. apply cps_scalar, dumps_printable; [printable_lit..|done]. }
  assert (Hsep : forall l, Forall (fun c => scalar c = true) (44 :: nl_indent l)).
  { intros l. constructor; [done|apply nl_indent_scalar]. }
  induction j as [|b|z|s|s|l IH|o IH] using json_nested_ind; intros Hf level; try by apply Hdump.
  - apply raw_str_scalar.
  - destruct l as [|x l]; [by repeat constructor|]. remember (x :: l) as xs eqn:Hxs.
    assert (Hin : Forall (Forall (fun c => scalar c = true)) (map (indent_text (S level)) xs)).
    { apply Forall_map. cbn [floats_ok] in Hf. rewrite forallb_forall in Hf.
      apply Forall_forall. intros y Hy. apply (proj1 (Forall_forall _ _) IH y Hy).
      apply Hf. by apply list_elem_of_In. }
    assert (Heq : indent_text level (JArr xs) = 91 :: nl_indent (S level)
        ++ join (44 :: nl_indent (S level)) (map (indent_text (S level)) xs) ++ nl_indent level ++ [93])
      by by rewrite Hxs.
    rewrite Heq. constructor; [done|]. repeat (apply Forall_app; split);
      [apply nl_indent_scalar|by apply join_Forall|apply nl_indent_scalar|by constructor].
  - destruct o as [|x o]; [by repeat constructor|]. remember (x :: o) as xs eqn:Hxs.
    set (mem := fun kv : string * json => raw_str kv.1 ++ 58 :: 32 :: indent_text (S level) kv.2).
    assert (Hin : Forall (Forall (fun c => scalar c = true)) (map mem xs)).
    { apply Forall_map. cbn [floats_ok] in Hf. rewrite forallb_forall in Hf.
      apply Forall_forall. intros y Hy. unfold mem. apply Forall_app. split; [apply raw_str_scalar|].
      do 2 (constructor; [done|]). apply (proj1 (Forall_forall _ _) IH y Hy).
      apply (Hf y). by apply list_elem_of_In. }
    assert (Heq : indent_text level (JObj xs) = 123 :: nl_indent (S level)
        ++ join (44 :: nl_indent (S level)) (map mem xs) ++ nl_indent level ++ [125])
      by by rewrite Hxs.
    rewrite Heq. constructor; [done|]. repeat (apply Forall_app; split);
      [apply nl_indent_scalar|by apply join_Forall|apply nl_indent_scalar|by constructor].
Qed.

(** [json.loads(json.dumps(v, indent=2, ensure_ascii=False).encode("utf-8").decode("utf-8")) == v] *)
Lemma loads_bytes_indent `{FloatRepr} j :
  json_ok j -> floats_ok j = true -> loads_bytes (dumps_indent j) = Ok j.
Proof.
  intros Hj Hf. unfold loads_bytes, dumps_indent. rewrite decode_encode by by apply indent_scalar.
  by apply loads_indent.
Qed.

#[local] Instance plain_floats : FloatRepr := fun s => s.
Example indent_demo :
  dumps_indent (JObj [("k", JObj [("i", JStr "v")]); ("e", JArr [])]%string)
  = map byte_of_Z [123; 10; 32; 32; 34; 107; 34; 58; 32; 123; 10; 32; 32; 32; 32; 34; 105; 34; 58; 32;
      34; 118; 34; 10; 32; 32; 125; 44; 10; 32; 32; 34; 101; 34; 58; 32; 91; 93; 10; 125]
  /\ loads_bytes (dumps_indent demo_json) = Ok demo_json.
Proof. vm_compute. done. Qed.
