(* ===== verification/IdentityStore.v ===== *)
(** * The durable identity store ([identity_store.py], [instance_lock.py])

    One JSON file of identities, an in-process copy of it and the flat map the
    resolvers of [Auth] read.  The process owns the file through a sidecar lock
    whose bindings are verified before every operation: a [View] is what the
    kernel reports to those checks (inodes, link counts, the process id), and the
    remaining calls succeed or fail as the environment of the operation says
    ([read_env], [write_env]).  [os.replace] is atomic, and a failure of the
    directory sync after it is the uncertain commit of the code.

    [_start_identity_ownership], [_initialize_identity_store] and
    [_stop_identity_ownership] of [main.py] are here too: they decide when the
    store is loaded, seeded and released. *)
From stdpp Require Import base list strings.
From Stdlib Require Import ZArith Lia.
From S2P Require Import Prelude PyText Json JsonParse JsonIndent.

#[local] Open Scope string_scope.
#[local] Open Scope list_scope.

(** The exceptions that matter here; [CommitUncertain] is an ownership error and
    an [OSError] at once. *)
Inductive iexn := OwnershipError | LockUnavailable | CommitUncertain | IOFailure | OtherFailure.
Definition is_ownership (e : iexn) : bool :=
  match e with OwnershipError | LockUnavailable | CommitUncertain => true | _ => false end.
Definition is_io (e : iexn) : bool := match e with CommitUncertain | IOFailure => true | _ => false end.

Inductive ires (A : Type) := Ret (a : A) | Raise (e : iexn).
Arguments Ret {A} a.
Arguments Raise {A} e.

(** ** [IdentityStoreLock] *)

Inductive entry_stat := EntryAbsent | EntryError | Entry (regular : bool) (nlink : Z).
Record View := MkView {
  v_pid : Z;                              (** [os.getpid()] *)
  v_pinned : option Z;                    (** [fstat] of the pinned directory *)
  v_parent : option Z;                    (** [stat] of its canonical path *)
  v_configured : option Z;                (** [stat] of the configured path *)
  v_held : option (Z * bool * Z);         (** [fstat] of the sidecar: inode, regular, links *)
  v_sidecar : option Z;                   (** [lstat] of the sidecar's name *)
  v_entry : entry_stat;                   (** [lstat] of the store's name *)
}.

(** [lk_pid] is [Some] exactly while the descriptors are open. *)
Record IdentityStoreLock := MkLock { lk_pid : option Z }.
Definition new_lock : IdentityStoreLock := MkLock None.

Definition owned_by_this_process (lk : IdentityStoreLock) (v : View) : bool :=
  bool_decide (lk_pid lk = Some (v_pid v)).

Definition _check_sidecar (v : View) : ires unit :=
  match v_held v, v_sidecar v with
  | Some (ino, regular, nlink), Some named =>
    if negb regular || negb (nlink =? 1)%Z || negb (ino =? named)%Z then Raise OwnershipError else Ret tt
  | _, _ => Raise OwnershipError
  end.

Definition _check_store_entry (v : View) : ires unit :=
  match v_entry v with
  | EntryAbsent => Ret tt
  | EntryError => Raise OwnershipError
  | Entry regular nlink => if negb regular || negb (nlink =? 1)%Z then Raise OwnershipError else Ret tt
  end.

Definition ibind {A B} (r : ires A) (k : A -> ires B) : ires B :=
  match r with Ret a => k a | Raise e => Raise e end.

Definition assert_owned (lk : IdentityStoreLock) (v : View) : ires unit :=
  match lk_pid lk with
  | None => Raise OwnershipError
  | Some pid =>
    if negb (pid =? v_pid v)%Z then Raise OwnershipError
    else match v_pinned v, v_parent v, v_configured v with
    | Some pinned, Some current, Some named =>
      if negb (pinned =? current)%Z then Raise OwnershipError
      else if negb (pinned =? named)%Z then Raise OwnershipError
      else ibind (_check_sidecar v) (fun _ => _check_store_entry v)
    | _, _, _ => Raise OwnershipError
    end
  end.

(** The steps of [acquire] that can go wrong: the directory cannot be opened, the
    sidecar cannot be opened, another process holds the lock; [ac_after] is the
    view once the lock is held. *)
Record acquire_env := MkAcquire {
  ac_view : View;
  ac_dir_ok : bool;
  ac_sidecar_ok : bool;
  ac_contended : bool;
  ac_after : View;
}.

Definition acquire (store_name : string) (lk : IdentityStoreLock) (a : acquire_env)
    : ires unit * IdentityStoreLock :=
  match lk_pid lk with
  | Some pid => if (pid =? v_pid (ac_view a))%Z then (Ret tt, lk) else (Raise OwnershipError, lk)
  | None =>
    if bool_decide (store_name ∈ [""; "."; ".."]) then (Raise OwnershipError, lk)
    else if negb (ac_dir_ok a) then (Raise OwnershipError, lk)
    else match _check_store_entry (ac_view a) with
    | Raise e => (Raise e, lk)
    | Ret _ =>
      if negb (ac_sidecar_ok a) then (Raise OwnershipError, lk)
      else match _check_sidecar (ac_view a) with
      | Raise e => (Raise e, lk)
      | Ret _ =>
        if ac_contended a then (Raise LockUnavailable, lk)
        else match _check_sidecar (ac_after a) with
        | Raise e => (Raise e, lk)
        | Ret _ => (Ret tt, MkLock (Some (v_pid (ac_after a))))
        end
      end
    end
  end.

Definition lock_release (lk : IdentityStoreLock) : IdentityStoreLock := new_lock.

(** Protected I/O on the store file, [None] when it does not exist. *)
Abbreviation disk := (option bytes).

Definition store_exists (lk : IdentityStoreLock) (v : View) (d : disk) : ires bool :=
  ibind (assert_owned lk v) (fun _ => Ret (bool_decide (d <> None))).

Inductive read_env := RdOk | RdSymlink | RdOpenFails | RdIrregular | RdFails.

Definition read_store_bytes (lk : IdentityStoreLock) (v : View) (r : read_env) (d : disk) : ires disk :=
  ibind (assert_owned lk v) (fun _ =>
    match d with
    | None => Ret None
    | Some b => match r with
                | RdOk => Ret (Some b)
                | RdSymlink | RdIrregular => Raise OwnershipError
                | RdOpenFails | RdFails => Raise IOFailure
                end
    end).

(** [WrFailsBefore]: creating, writing or syncing the temporary file or renaming
    it failed; [WrSyncFails]: the rename happened and the directory sync failed. *)
Inductive write_env := WrOk | WrFailsBefore | WrSyncFails.

Definition write_store_atomic (lk : IdentityStoreLock) (v : View) (w : write_env) (payload : bytes)
    (d : disk) : ires unit * disk :=
  match assert_owned lk v with
  | Raise e => (Raise e, d)
  | Ret _ => match w with
             | WrFailsBefore => (Raise IOFailure, d)
             | WrSyncFails => (Raise CommitUncertain, Some payload)
             | WrOk => (Ret tt, Some payload)
             end
  end.

(** ** [IdentityStore] *)

Abbreviation record := (list (string * json)).
Abbreviation idrecords := (list (string * record)).

Record Store := MkStore {
  is_managed : bool;
  is_lock : option IdentityStoreLock;
  is_stopped : bool;
  is_failed : bool;                       (** [_ownership_failed] *)
  is_data : idrecords;
  is_flat : list (string * json);         (** [flat_dict], shared with the resolvers *)
}.
Definition new_store (managed : bool) : Store := MkStore managed None managed false [] [].

Record op_env := MkOp { oe_view : View; oe_read : read_env; oe_write : write_env }.

Definition set_map (data : idrecords) (flat : list (string * json)) (s : Store) : Store :=
  MkStore (is_managed s) (is_lock s) (is_stopped s) (is_failed s) data flat.

(** The [id] of a record when it is truthy. *)
Definition served_id (meta : record) : option json :=
  let c := jget_default "id" (JStr "") meta in if truthy c then Some c else None.
Definition _rebuild_flat (data : idrecords) : list (string * json) :=
  omap (fun kv => pair kv.1 <$> served_id kv.2) data.

Definition attach (lk : IdentityStoreLock) (s : Store) : Store :=
  MkStore (is_managed s) (Some lk) false false (is_data s) (is_flat s).
Definition stop (s : Store) : Store := MkStore (is_managed s) None true (is_failed s) [] [].
Definition _latch (s : Store) : Store :=
  MkStore (is_managed s) (is_lock s) (is_stopped s) true (is_data s) [].

Definition _require_ownership (s : Store) : ires unit :=
  if negb (is_managed s) then Ret tt
  else if is_stopped s then Raise OwnershipError
  else if is_failed s then Raise OwnershipError
  else if bool_decide (is_lock s = None) then Raise OwnershipError else Ret tt.

Definition _guarded {A} (r : ires A) (s : Store) : ires A * Store :=
  match r with
  | Raise e => if is_ownership e then (Raise e, _latch s) else (Raise e, s)
  | Ret a => (Ret a, s)
  end.

Definition healthy (v : View) (s : Store) : bool * Store :=
  if negb (is_managed s) then (true, s)
  else if is_stopped s || is_failed s then (false, s)
  else match is_lock s with
  | None => (false, s)
  | Some lk =>
    if negb (owned_by_this_process lk v) then (false, s)
    else match assert_owned lk v with
    | Ret _ => (true, s)
    | Raise e => (false, _latch s)
    end
  end.

Definition exists_ (e : op_env) (d : disk) (s : Store) : ires bool * Store :=
  match _require_ownership s with
  | Raise x => (Raise x, s)
  | Ret _ => match is_lock s with
             | Some lk => _guarded (store_exists lk (oe_view e) d) s
             | None => (Ret (bool_decide (d <> None)), s)
             end
  end.

Definition _read_text (e : op_env) (d : disk) (s : Store) : ires disk * Store :=
  match is_lock s with
  | Some lk => _guarded (read_store_bytes lk (oe_view e) (oe_read e) d) s
  | None => match d, oe_read e with
            | None, _ => (Ret None, s)
            | Some b, RdOk => (Ret (Some b), s)
            | Some b, _ => (Raise IOFailure, s)
            end
  end.

Section load.
Context `{FloatRepr}.

(** The records of a file's contents: the dictionaries of a top-level object,
    nothing when the text is not a JSON object. *)
Definition records_of (raw : bytes) : idrecords :=
  match loads_bytes raw with
  | Ok (JObj o) => omap (fun kv => match kv.2 with JObj m => Some (kv.1, m) | _ => None end) o
  | _ => []
  end.

Definition _load_locked (e : op_env) (d : disk) (s : Store) : ires unit * Store :=
  match _require_ownership s with
  | Raise x => (Raise x, s)
  | Ret _ =>
    match _read_text e d s with
    | (Ret None, s) => (Ret tt, set_map [] [] s)
    | (Ret (Some raw), s) =>
      let data := records_of raw in (Ret tt, set_map data (_rebuild_flat data) s)
    | (Raise x, s) =>
      if is_ownership x then (Raise x, s)
      else if is_io x then
        let s := set_map [] [] s in if is_managed s then (Raise x, s) else (Ret tt, s)
      else (Raise x, s)
    end
  end.
End load.

(** The bytes of [json.dumps(data, indent=2, ensure_ascii=False)]. *)
Definition dump (data : idrecords) : bytes := dumps_indent (JObj (map (fun kv => (kv.1, JObj kv.2)) data)).

Definition _write_atomic (e : op_env) (data : idrecords) (d : disk) (s : Store)
    : ires unit * Store * disk :=
  match is_lock s with
  | Some lk =>
    let '(r, d) := write_store_atomic lk (oe_view e) (oe_write e) (dump data) d in
    let '(r, s) := _guarded r s in (r, s, d)
  | None => match oe_write e with
            | WrFailsBefore => (Raise IOFailure, s, d)
            | _ => (Ret tt, s, Some (dump data))
            end
  end.

Definition put (e : op_env) (key : string) (value : record) (d : disk) (s : Store)
    : ires unit * Store * disk :=
  match _require_ownership s with
  | Raise x => (Raise x, s, d)
  | Ret _ =>
    let '(r, s, d) := _write_atomic e (dset key value (is_data s)) d s in
    match r with
    | Raise x => (Raise x, s, d)
    | Ret _ =>
      let flat := match served_id value with
                  | Some c => dset key c (is_flat s)
                  | None => ddel key (is_flat s)
                  end in
      (Ret tt, set_map (dset key value (is_data s)) flat s, d)
    end
  end.

Definition delete (e : op_env) (key : string) (d : disk) (s : Store) : ires unit * Store * disk :=
  match _require_ownership s with
  | Raise x => (Raise x, s, d)
  | Ret _ =>
    let '(r, s, d) := _write_atomic e (ddel key (is_data s)) d s in
    match r with
    | Raise x => (Raise x, s, d)
    | Ret _ => (Ret tt, set_map (ddel key (is_data s)) (ddel key (is_flat s)) s, d)
    end
  end.

Definition _seed_locked (e : op_env) (data : idrecords) (d : disk) (s : Store)
    : ires unit * Store * disk :=
  match _require_ownership s with
  | Raise x => (Raise x, s, d)
  | Ret _ =>
    let '(r, s, d) := _write_atomic e data d s in
    match r with
    | Raise x => if is_ownership x || is_managed s then (Raise x, s, d)
                 else (Ret tt, set_map data (_rebuild_flat data) s, d)
    | Ret _ => (Ret tt, set_map data (_rebuild_flat data) s, d)
    end
  end.

Definition store_get (key : string) (s : Store) : option record := dget key (is_data s).

(** ** Start and stop ([main.py]) *)

Record World := MkWorld { w_store : Store; w_lock : IdentityStoreLock; w_disk : disk; w_state : string }.

Definition _release_identity (w : World) : World :=
  MkWorld (stop (w_store w)) (lock_release (w_lock w)) (w_disk w) (w_state w).
Definition with_state (state : string) (w : World) : World :=
  MkWorld (w_store w) (w_lock w) (w_disk w) state.

(** What the environment does during start-up, call by call. *)
Record start_env := MkStart {
  sv_acquire : acquire_env;
  sv_load : op_env;
  sv_exists : op_env;
  sv_seed : op_env;
}.

Section start.
Context `{FloatRepr}.

(** [_initialize_identity_store] of an owned store: load, then on first boot
    (no file) write the configured identities. *)
Definition _initialize_identity_store (seed : idrecords) (v : start_env) (d : disk) (s : Store)
    : ires unit * Store * disk :=
  match _load_locked (sv_load v) d s with
  | (Raise x, s) => (Raise x, s, d)
  | (Ret _, s) =>
    match exists_ (sv_exists v) d s with
    | (Raise x, s) => (Raise x, s, d)
    | (Ret true, s) => (Ret tt, s, d)
    | (Ret false, s) =>
      if bool_decide (seed = []) then (Ret tt, s, d) else _seed_locked (sv_seed v) seed d s
    end
  end.

(** [_start_identity_ownership] of a selected store: any failure stops the store,
    releases the lock and leaves identity unavailable. *)
Definition _start_identity_ownership (name : string) (seed : idrecords) (v : start_env) (w : World) : World :=
  match acquire name (w_lock w) (sv_acquire v) with
  | (Raise x, lk) =>
    with_state "unavailable" (_release_identity (MkWorld (w_store w) lk (w_disk w) (w_state w)))
  | (Ret _, lk) =>
    let '(r, s, d) := _initialize_identity_store seed v (w_disk w) (attach lk (w_store w)) in
    let w := MkWorld s lk d (w_state w) in
    match r with
    | Raise x => with_state "unavailable" (_release_identity w)
    | Ret _ => with_state "ready" w
    end
  end.

Definition _stop_identity_ownership (w : World) : World :=
  _release_identity (with_state "unavailable" w).
End start.

(** ** The life of the store *)

Inductive iop :=
  | OpStart (v : start_env)
  | OpStop
  | OpPut (e : op_env) (key : string) (value : record)
  | OpDelete (e : op_env) (key : string)
  | OpProbe (v : View).

Definition with_store (w : World) (s : Store) (d : disk) : World := MkWorld s (w_lock w) d (w_state w).

Section run.
Context `{FloatRepr}.
Context (name : string) (seed : idrecords).

(** Start-up runs once per life time: on a store that is stopped. *)
Definition run_iop (w : World) (o : iop) : World :=
  match o with
  | OpStart v => if is_stopped (w_store w) then _start_identity_ownership name seed v w else w
  | OpStop => _stop_identity_ownership w
  | OpPut e k x => let '(_, s, d) := put e k x (w_disk w) (w_store w) in with_store w s d
  | OpDelete e k => let '(_, s, d) := delete e k (w_disk w) (w_store w) in with_store w s d
  | OpProbe v => with_store w (snd (healthy v (w_store w))) (w_disk w)
  end.
Definition run_iops : World -> list iop -> World := foldl run_iop.

(** ** Files the store writes are read back *)

Definition good_record (r : record) : Prop := json_ok (JObj r) /\ floats_ok (JObj r) = true.
Definition good (d : idrecords) : Prop :=
  NoDup (dkeys d) /\ Forall (fun kv => utf8_valid (bytes_of kv.1) = true /\ good_record kv.2) d.

Lemma dkeys_wrap (d : idrecords) : dkeys (map (fun kv => (kv.1, JObj kv.2)) d) = dkeys d.
Proof. unfold dkeys. rewrite map_map. done. Qed.

Lemma records_of_dump d : good d -> records_of (dump d) = d.
Proof.
  intros [Hnd Hg]. unfold records_of, dump. rewrite loads_bytes_indent.
  - clear Hnd. induction Hg as [|[k m] d _ _ IH]; [done|]. cbn [map omap list_omap fst snd]. by f_equal.
  - cbn [json_ok]. split; [by rewrite dkeys_wrap|]. apply fold_right_Forall, Forall_map.
    eapply Forall_impl; [exact Hg|]. intros kv (? & ? & _). done.
  - cbn [floats_ok]. apply forallb_forall. intros x (kv & <- & Hin)%in_map_iff.
    apply list_elem_of_In in Hin. by destruct (proj1 (Forall_forall _ _) Hg kv Hin) as (_ & _ & ?).
Qed.

Lemma Forall_dset_record {V} (P : string * V -> Prop) k v d : P (k, v) -> Forall P d -> Forall P (dset k v d).
Proof.
  intros Hk. induction 1 as [|[k' v'] d Hx Hd IH]; cbn [dset]; [by constructor|].
  case_decide; subst; by constructor.
Qed.

Lemma good_dset k v d : utf8_valid (bytes_of k) = true -> good_record v -> good d -> good (dset k v d).
Proof. intros Hk Hv [Hnd Hg]. split; [by apply NoDup_dset|]. by apply Forall_dset_record. Qed.

Lemma good_ddel k d : good d -> good (ddel k d).
Proof.
  intros [Hnd Hg]. split; [by apply NoDup_ddel|]. unfold ddel.
  apply Forall_forall. intros kv [_ Hin]%list_elem_of_filter. by apply (proj1 (Forall_forall _ _) Hg).
Qed.

(** The records on disk; every file the store finds was written by a store. *)
Definition disk_records (d : disk) : idrecords := match d with Some b => records_of b | None => [] end.
Definition durable (d : disk) : Prop := d = None \/ exists r, good r /\ d = Some (dump r).

Lemma durable_good d : durable d -> good (disk_records d).
Proof.
  intros [->|(r & Hr & ->)]; cbn [disk_records]; [repeat constructor|]. by rewrite records_of_dump.
Qed.

Lemma dget_rebuild k data : NoDup (dkeys data) -> dget k (_rebuild_flat data) = (dget k data ≫= served_id).
Proof.
  unfold _rebuild_flat. induction data as [|[k' m] data IH]; [done|].
  unfold dkeys. cbn [map fst]. intros [Hk Hnd]%NoDup_cons.
  cbn [omap list_omap dget fst snd]. destruct (decide (k = k')) as [->|Hne].
  - change (Some m ≫= served_id) with (served_id m). destruct (served_id m) as [c|]; cbn [fmap option_fmap option_map dget].
    + by rewrite decide_True.
    + rewrite IH by done. by rewrite (proj2 (dget_None_keys k' data)).
  - destruct (served_id m) as [c|]; cbn [fmap option_fmap option_map dget]; [rewrite decide_False by done|];
      by apply IH.
Qed.

(** ** The invariant *)

Definition serving (s : Store) : bool := negb (is_stopped s) && negb (is_failed s).

(** While the store serves, the flat map the resolvers read is what the file
    says; otherwise it is empty. *)
Definition world_ok (w : World) : Prop :=
  let s := w_store w in
  is_managed s = true /\ durable (w_disk w)
  /\ (if serving s
      then is_lock s <> None /\ is_data s = disk_records (w_disk w)
           /\ forall k, dget k (is_flat s) = (dget k (disk_records (w_disk w)) ≫= served_id)
      else is_flat s = []).

Lemma world_ok_intro s lk d st :
  is_managed s = true -> durable d ->
  (serving s = true -> is_lock s <> None /\ is_data s = disk_records d
     /\ forall k, dget k (is_flat s) = (dget k (disk_records d) ≫= served_id)) ->
  (serving s = false -> is_flat s = []) -> world_ok (MkWorld s lk d st).
Proof. intros Hm Hd Hs Hn. repeat (split; [done|]). cbn [w_store w_disk]. destruct (serving s); auto. Qed.

Lemma require_serving s : is_managed s = true -> _require_ownership s = Ret tt -> serving s = true.
Proof.
  unfold _require_ownership, serving. intros ->. cbn [negb].
  by destruct (is_stopped s), (is_failed s).
Qed.

Lemma check_sidecar_raises v x : _check_sidecar v = Raise x -> x = OwnershipError.
Proof. unfold _check_sidecar. repeat case_match; congruence. Qed.
Lemma check_entry_raises v x : _check_store_entry v = Raise x -> x = OwnershipError.
Proof. unfold _check_store_entry. repeat case_match; congruence. Qed.
Lemma assert_owned_raises lk v x : assert_owned lk v = Raise x -> x = OwnershipError.
Proof.
  unfold assert_owned, ibind. repeat case_match; try congruence; eauto using check_entry_raises.
  intros [= <-]. by eapply check_sidecar_raises.
Qed.

(** One protected write: it commits, leaves everything as it was, or latches. *)
Lemma write_atomic_cases e data d s lk :
  is_lock s = Some lk ->
  (_write_atomic e data d s = (Ret tt, s, Some (dump data)))
  \/ (exists x, _write_atomic e data d s = (Raise x, s, d) /\ x = IOFailure)
  \/ (exists x d', _write_atomic e data d s = (Raise x, _latch s, d') /\ is_ownership x = true
        /\ (d' = d \/ d' = Some (dump data))).
Proof.
  intros Hl. unfold _write_atomic, write_store_atomic. rewrite Hl.
  destruct (assert_owned lk (oe_view e)) as [[]|x] eqn:Ha.
  - destruct (oe_write e); cbn [_guarded is_ownership]; eauto 10.
  - assert (is_ownership x = true) as Hx.
    { by apply assert_owned_raises in Ha as ->. }
    cbn [_guarded]. rewrite Hx. eauto 10.
Qed.

Lemma latch_not_serving s : serving (_latch s) = false.
Proof. unfold serving, _latch. cbn. by rewrite andb_false_r. Qed.

Lemma durable_dump r : good r -> durable (Some (dump r)).
Proof. right. eauto. Qed.

(** What [put] and [delete] have in common: write the new records, then update
    the maps. *)
Lemma commit_world_ok w lk e new flat :
  world_ok w -> serving (w_store w) = true -> is_lock (w_store w) = Some lk ->
  good new -> (forall k, dget k flat = (dget k new ≫= served_id)) ->
  let '(r, s, d) := _write_atomic e new (w_disk w) (w_store w) in
  world_ok (match r with
            | Ret _ => with_store w (set_map new flat s) d
            | Raise _ => with_store w s d
            end).
Proof.
  intros (Hm & Hd & Hs) Hserv Hl Hnew Hflat. rewrite Hserv in Hs.
  destruct (write_atomic_cases e new (w_disk w) (w_store w) lk Hl)
    as [->|[(x & -> & _)|(x & d' & -> & _ & Hd')]].
  - apply world_ok_intro; cbn [is_managed set_map is_lock is_data is_flat disk_records];
      [done|by apply durable_dump| |].
    + intros _. rewrite records_of_dump by done. split; [by rewrite Hl|]. done.
    + unfold serving, set_map in *. cbn in *. by rewrite Hserv.
  - apply world_ok_intro; [done|done| |by rewrite Hserv]. done.
  - apply world_ok_intro; [done| |by rewrite latch_not_serving|done].
    destruct Hd' as [->| ->]; [done|by apply durable_dump].
Qed.

Definition good_op (o : iop) : Prop :=
  match o with OpPut _ k x => utf8_valid (bytes_of k) = true /\ good_record x | _ => True end.

Lemma write_atomic_ret e data d s lk s' d' :
  is_lock s = Some lk -> _write_atomic e data d s = (Ret tt, s', d') -> s' = s.
Proof.
  intros Hl Hw. destruct (write_atomic_cases e data d s lk Hl)
    as [Hq|[(? & Hq & _)|(? & ? & Hq & _)]]; rewrite Hq in Hw; congruence.
Qed.

(** An operation that needs ownership finds a store that serves the file. *)
Lemma world_ok_owned w :
  world_ok w -> _require_ownership (w_store w) = Ret tt ->
  serving (w_store w) = true /\ (exists lk, is_lock (w_store w) = Some lk)
  /\ is_data (w_store w) = disk_records (w_disk w) /\ good (is_data (w_store w))
  /\ forall k, dget k (is_flat (w_store w)) = (dget k (is_data (w_store w)) ≫= served_id).
Proof.
  intros (Hm & Hd & Hs) Hr. apply require_serving in Hr; [|done]. rewrite Hr in Hs.
  destruct Hs as (Hl & Hdata & Hflat). rewrite Hdata. pose proof (durable_good _ Hd).
  destruct (is_lock (w_store w)); [by eauto 10|done].
Qed.

Lemma put_world_ok w e k x :
  world_ok w -> utf8_valid (bytes_of k) = true -> good_record x -> world_ok (run_iop w (OpPut e k x)).
Proof.
  intros Hw Hk Hx. cbn [run_iop]. unfold put.
  destruct (_require_ownership (w_store w)) as [[]|] eqn:Hr; [|by destruct w].
  destruct (world_ok_owned w Hw Hr) as (Hserv & [lk Hlk] & _ & Hgood & Hflat).
  set (flat := match served_id x with
               | Some c => dset k c (is_flat (w_store w)) | None => ddel k (is_flat (w_store w)) end).
  pose proof (commit_world_ok w lk e (dset k x (is_data (w_store w))) flat Hw Hserv Hlk
                (good_dset _ _ _ Hk Hx Hgood)) as Hc.
  destruct (_write_atomic e _ _ _) as [[r s] d] eqn:Hwr.
  assert (Hnew : forall k', dget k' flat = (dget k' (dset k x (is_data (w_store w))) ≫= served_id)).
  { intros k'. unfold flat. destruct (decide (k = k')) as [<-|Hne].
    - rewrite dget_dset_eq. change (Some x ≫= served_id) with (served_id x).
      destruct (served_id x); [apply dget_dset_eq|apply dget_ddel_eq].
    - rewrite dget_dset_ne by done. rewrite <- Hflat.
      destruct (served_id x); [by apply dget_dset_ne|by apply dget_ddel_ne]. }
  specialize (Hc Hnew). destruct r as [[]|x']; [|done].
  by rewrite (write_atomic_ret _ _ _ _ _ _ _ Hlk Hwr) in *.
Qed.

Lemma delete_world_ok w e k : world_ok w -> world_ok (run_iop w (OpDelete e k)).
Proof.
  intros Hw. cbn [run_iop]. unfold delete.
  destruct (_require_ownership (w_store w)) as [[]|] eqn:Hr; [|by destruct w].
  destruct (world_ok_owned w Hw Hr) as (Hserv & [lk Hlk] & _ & Hgood & Hflat).
  pose proof (commit_world_ok w lk e (ddel k (is_data (w_store w))) (ddel k (is_flat (w_store w)))
                Hw Hserv Hlk (good_ddel _ _ Hgood)) as Hc.
  destruct (_write_atomic e _ _ _) as [[r s] d] eqn:Hwr.
  assert (Hnew : forall k', dget k' (ddel k (is_flat (w_store w)))
                            = (dget k' (ddel k (is_data (w_store w))) ≫= served_id)).
  { intros k'. destruct (decide (k = k')) as [<-|Hne]; [by rewrite !dget_ddel_eq|by rewrite !dget_ddel_ne]. }
  specialize (Hc Hnew). destruct r as [[]|x']; [|done].
  by rewrite (write_atomic_ret _ _ _ _ _ _ _ Hlk Hwr) in *.
Qed.

(** ** Start, stop and the probe *)

Lemma release_world_ok w st : is_managed (w_store w) = true -> durable (w_disk w) ->
  world_ok (with_state st (_release_identity w)).
Proof. intros Hm Hd. by apply world_ok_intro. Qed.

Lemma load_locked_spec e d s lk :
  is_managed s = true -> durable d -> is_lock s = Some lk ->
  match _load_locked e d s with
  | (Ret _, s') => _require_ownership s = Ret tt /\ s' = set_map (disk_records d) (_rebuild_flat (disk_records d)) s
  | (Raise _, s') => is_managed s' = true
  end.
Proof.
  intros Hm Hd Hl. unfold _load_locked. destruct (_require_ownership s) as [[]|]; [|done].
  unfold _read_text. rewrite Hl. destruct (read_store_bytes _ _ _ _) as [d'|x] eqn:Hrd; cbn [_guarded].
  - assert (d' = d) as ->.
    { revert Hrd. unfold read_store_bytes, ibind. repeat case_match; congruence. }
    by destruct d.
  - destruct (is_ownership x) eqn:Hx; [by rewrite Hx|]. rewrite Hx. destruct (is_io x); [|done].
    cbn [is_managed set_map]. by rewrite Hm.
Qed.

Lemma exists_spec e d s lk :
  is_lock s = Some lk ->
  match exists_ e d s with
  | (Ret b, s') => b = bool_decide (d <> None) /\ s' = s
  | (Raise _, s') => is_managed s' = is_managed s
  end.
Proof.
  intros Hl. unfold exists_. destruct (_require_ownership s) as [[]|]; [|done]. rewrite Hl.
  unfold store_exists, ibind. destruct (assert_owned _ _) as [[]|x]; cbn [_guarded]; [done|].
  by destruct (is_ownership x).
Qed.

Lemma set_map_serving data flat s : serving (set_map data flat s) = serving s.
Proof. done. Qed.

Lemma initialize_spec v d s lk :
  is_managed s = true -> durable d -> good seed -> is_lock s = Some lk -> serving s = true ->
  let '(r, s', d') := _initialize_identity_store seed v d s in
  is_managed s' = true /\ durable d'
  /\ (r = Ret tt -> serving s' = true /\ is_lock s' = Some lk /\ is_data s' = disk_records d'
                    /\ is_flat s' = _rebuild_flat (disk_records d')).
Proof.
  intros Hm Hd Hseed Hl Hs. unfold _initialize_identity_store.
  pose proof (load_locked_spec (sv_load v) d s lk Hm Hd Hl) as Hload.
  destruct (_load_locked _ d s) as [[[]|x] s1]; [destruct Hload as [_ ->]|by split].
  set (s1 := set_map _ _ s). pose proof (exists_spec (sv_exists v) d s1 lk Hl) as Hex.
  destruct (exists_ _ d s1) as [[b|x] s2]; [destruct Hex as [-> ->]|].
  2: { split; [by rewrite Hex|]. by split. }
  case_bool_decide as Hd'.
  { split; [done|]. split; [done|]. intros _. by repeat split. }
  case_bool_decide as Hempty.
  { split; [done|]. split; [done|]. intros _. by repeat split. }
  assert (d = None) as -> by by destruct d. unfold _seed_locked.
  destruct (_require_ownership s1) as [[]|x]; [|by repeat split].
  destruct (write_atomic_cases (sv_seed v) seed None s1 lk Hl)
    as [->|[(x & -> & ->)|(x & d' & -> & Hx & Hdd)]].
  - split; [done|]. split; [by apply durable_dump|]. intros _. cbn [disk_records].
    by rewrite records_of_dump.
  - cbn [is_ownership orb]. change (is_managed s1) with (is_managed s). rewrite Hm. by repeat split.
  - rewrite Hx. cbn [orb]. split; [done|]. split; [|done].
    destruct Hdd as [->| ->]; [done|by apply durable_dump].
Qed.

Lemma start_world_ok w v : good seed -> world_ok w -> is_stopped (w_store w) = true ->
  world_ok (_start_identity_ownership name seed v w).
Proof.
  intros Hseed (Hm & Hd & _) Hst. unfold _start_identity_ownership.
  destruct (acquire name (w_lock w) (sv_acquire v)) as [[[]|x] lk].
  2: by apply release_world_ok.
  pose proof (initialize_spec v (w_disk w) (attach lk (w_store w)) lk Hm Hd Hseed eq_refl eq_refl) as Hi.
  destruct (_initialize_identity_store seed v _ _) as [[r s] d]. destruct Hi as (Hm' & Hd' & Hok).
  destruct r as [[]|x]; [|by apply release_world_ok].
  destruct (Hok eq_refl) as (Hserv & Hl & Hdata & Hflat).
  apply world_ok_intro; cbn [w_store w_disk]; [done|done| |intros Hx; congruence].
  intros _. split; [by rewrite Hl|]. split; [done|]. intros k. rewrite Hflat.
  apply dget_rebuild. by apply durable_good.
Qed.

Lemma probe_world_ok w v : world_ok w -> world_ok (run_iop w (OpProbe v)).
Proof.
  intros Hw. pose proof Hw as (Hm & Hd & Hs). cbn [run_iop]. unfold healthy.
  assert (Hlatch : world_ok (with_store w (_latch (w_store w)) (w_disk w))).
  { apply world_ok_intro; [done|done|by rewrite latch_not_serving|done]. }
  assert (Hsame : world_ok (with_store w (w_store w) (w_disk w))) by by destruct w.
  repeat case_match; done.
Qed.

Lemma run_iop_ok w o : good seed -> good_op o -> world_ok w -> world_ok (run_iop w o).
Proof.
  intros Hseed Ho Hw. destruct o as [v| |e k x|e k|v].
  - cbn [run_iop]. destruct (is_stopped (w_store w)) eqn:Hst; [by apply start_world_ok|done].
  - destruct Hw as (? & ? & _). by apply world_ok_intro.
  - destruct Ho. by apply put_world_ok.
  - by apply delete_world_ok.
  - by apply probe_world_ok.
Qed.

(** C16: memory and disk never diverge.  Through every history of starts, stops,
    probes, insertions and deletions, with every call failing at every point and
    commits left uncertain, the map that authenticates requests is exactly the
    one the file holds, or it is empty. *)
Theorem identity_map_durable (w : World) (os : list iop) :
  good seed -> Forall good_op os -> world_ok w ->
  let w' := run_iops w os in
  durable (w_disk w')
  /\ (if serving (w_store w')
      then forall k, dget k (is_flat (w_store w')) = (dget k (disk_records (w_disk w')) ≫= served_id)
      else is_flat (w_store w') = []).
Proof.
  intros Hseed Hos Hw w'. assert (world_ok w') as (_ & Hd & Hs).
  { unfold w', run_iops. clear w'. revert w Hw.
    induction Hos as [|o os Ho Hos IH]; intros w Hw; [done|]. cbn [foldl]. by apply IH, run_iop_ok. }
  split; [done|]. destruct (serving (w_store w')); [by destruct Hs as (_ & _ & ?)|done].
Qed.

(** ** Restarting *)

(** A start during which the lock is free and every check and read succeeds. *)
Definition cooperative (v : start_env) : Prop :=
  exists lk, acquire name new_lock (sv_acquire v) = (Ret tt, lk)
  /\ assert_owned lk (oe_view (sv_load v)) = Ret tt /\ oe_read (sv_load v) = RdOk
  /\ assert_owned lk (oe_view (sv_exists v)) = Ret tt.

Lemma require_attached s lk :
  is_managed s = true -> is_stopped s = false -> is_failed s = false -> is_lock s = Some lk ->
  _require_ownership s = Ret tt.
Proof. intros H1 H2 H3 H4. unfold _require_ownership. by rewrite H1, H2, H3, H4. Qed.

Lemma start_cooperative w v :
  w_lock w = new_lock -> is_managed (w_store w) = true -> w_disk w <> None -> cooperative v ->
  let w' := _start_identity_ownership name seed v w in
  w_state w' = "ready" /\ serving (w_store w') = true /\ w_disk w' = w_disk w
  /\ is_data (w_store w') = disk_records (w_disk w)
  /\ is_flat (w_store w') = _rebuild_flat (disk_records (w_disk w)).
Proof.
  intros Hlk Hm Hd (lk & Hacq & Hl & Hr & He). unfold _start_identity_ownership. rewrite Hlk, Hacq.
  destruct (w_disk w) as [b|]; [|done].
  unfold _initialize_identity_store, _load_locked.
  rewrite (require_attached _ lk) by done. unfold _read_text. cbn [attach is_lock].
  unfold read_store_bytes. rewrite Hl, Hr. cbn [ibind _guarded]. unfold exists_.
  rewrite (require_attached _ lk) by done. cbn [set_map attach is_lock].
  unfold store_exists. rewrite He. done.
Qed.

(** The first boot: no file yet, and writing the seed succeeds too. *)
Definition first_boot (v : start_env) : Prop :=
  exists lk, acquire name new_lock (sv_acquire v) = (Ret tt, lk)
  /\ assert_owned lk (oe_view (sv_load v)) = Ret tt
  /\ assert_owned lk (oe_view (sv_exists v)) = Ret tt
  /\ assert_owned lk (oe_view (sv_seed v)) = Ret tt /\ oe_write (sv_seed v) = WrOk.

Lemma start_first_boot w v :
  w_lock w = new_lock -> is_managed (w_store w) = true -> w_disk w = None -> first_boot v ->
  let w' := _start_identity_ownership name seed v w in
  w_state w' = "ready" /\ serving (w_store w') = true
  /\ is_flat (w_store w') = _rebuild_flat seed.
Proof.
  intros Hlk Hm Hd (lk & Hacq & Hl & He & Hs & Hw). unfold _start_identity_ownership. rewrite Hlk, Hacq, Hd.
  unfold _initialize_identity_store, _load_locked.
  rewrite (require_attached _ lk) by done. unfold _read_text. cbn [attach is_lock].
  unfold read_store_bytes. rewrite Hl. cbn [ibind _guarded]. unfold exists_.
  rewrite (require_attached _ lk) by done. cbn [set_map attach is_lock].
  unfold store_exists. rewrite He. cbn [ibind _guarded]. rewrite bool_decide_eq_false_2 by (intros Hx; done).
  case_bool_decide as Hseed; [by rewrite Hseed|]. unfold _seed_locked.
  rewrite (require_attached _ lk) by done. unfold _write_atomic, write_store_atomic. cbn [set_map attach is_lock].
  rewrite Hs, Hw. done.
Qed.

Lemma put_ret_disk w e k x s d :
  world_ok w -> put e k x (w_disk w) (w_store w) = (Ret tt, s, d) ->
  is_managed s = true /\ d = Some (dump (dset k x (disk_records (w_disk w))))
  /\ good (disk_records (w_disk w))
  /\ forall k', dget k' (is_flat (w_store w)) = (dget k' (disk_records (w_disk w)) ≫= served_id).
Proof.
  intros Hw Hp. unfold put in Hp. destruct (_require_ownership (w_store w)) as [[]|] eqn:Hr; [|done].
  destruct (world_ok_owned w Hw Hr) as (Hserv & [lk Hlk] & Hdata & Hgood & Hflat).
  pose proof Hw as (Hm & _ & _).
  destruct (write_atomic_cases e (dset k x (is_data (w_store w))) (w_disk w) (w_store w) lk Hlk)
    as [Hq|[(x' & Hq & _)|(x' & d' & Hq & _)]]; rewrite Hq in Hp; [|done..].
  injection Hp as <- <-. rewrite Hdata in Hgood, Hflat |- *. do 3 (split; [done|]). exact Hflat.
Qed.

(** A confirmed insertion survives.  After [put] has returned, a stop and a
    restart on the same volume serves the new identity and every older one
    unchanged. *)
Theorem put_survives_restart (w : World) (e : op_env) (k : string) (x : record) (s : Store) (d : disk)
    (v : start_env) :
  world_ok w -> utf8_valid (bytes_of k) = true -> good_record x ->
  put e k x (w_disk w) (w_store w) = (Ret tt, s, d) -> cooperative v ->
  let w' := run_iops (with_store w s d) [OpStop; OpStart v] in
  w_state w' = "ready" /\ serving (w_store w') = true
  /\ forall k', dget k' (is_flat (w_store w'))
                = if decide (k' = k) then served_id x else dget k' (is_flat (w_store w)).
Proof.
  intros Hw Hk Hx Hp Hv. destruct (put_ret_disk w e k x s d Hw Hp) as (Hm & -> & Hgood & Hflat).
  pose proof (good_dset k x _ Hk Hx Hgood) as Hnew. cbn [run_iops foldl run_iop].
  set (w1 := _stop_identity_ownership _). change (is_stopped (w_store w1)) with true. cbv iota.
  destruct (start_cooperative w1 v eq_refl Hm) as (Hst & Hserv & Hd' & _ & Hf); [done|done|].
  split; [done|]. split; [done|]. intros k'. rewrite Hf.
  change (w_disk w1) with (Some (dump (dset k x (disk_records (w_disk w))))). cbn [disk_records].
  rewrite records_of_dump by done. rewrite dget_rebuild by apply Hnew.
  case_decide as Heq; [subst; by rewrite dget_dset_eq|]. by rewrite dget_dset_ne, Hflat.
Qed.
End run.

(** ** A store on an intact volume *)

Definition ok_view : View := MkView 7 (Some 1%Z) (Some 1%Z) (Some 1%Z) (Some (2%Z, true, 1%Z)) (Some 2%Z) EntryAbsent.
Definition ok_env : op_env := MkOp ok_view RdOk WrOk.
Definition ok_start : start_env := MkStart (MkAcquire ok_view true true false ok_view) ok_env ok_env ok_env.
Definition boot_world : World := MkWorld (new_store true) new_lock None "initializing".
#[local] Instance lexeme_floats : FloatRepr := fun s => s.

Lemma boot_world_ok : world_ok boot_world.
Proof. apply world_ok_intro; [done|by left|done|done]. Qed.

Lemma good_id_record c : utf8_valid (bytes_of c) = true -> good_record [("id", JStr c)].
Proof. intros Hc. split; [|done]. cbn [json_ok]. split; [apply NoDup_singleton|]. by repeat split. Qed.

Lemma identity_map_durable_witness :
  is_flat (w_store (run_iops "ids" [] boot_world
    [OpStart ok_start; OpPut ok_env "k" [("id", JStr "alice")];
     OpPut (MkOp ok_view RdOk WrSyncFails) "l" [("id", JStr "bob")]])) = [].
Proof.
  destruct (identity_map_durable "ids" [] boot_world
    [OpStart ok_start; OpPut ok_env "k" [("id", JStr "alice")];
     OpPut (MkOp ok_view RdOk WrSyncFails) "l" [("id", JStr "bob")]]) as [_ Hs].
  - repeat constructor.
  - repeat apply Forall_cons_2; [exact I|split; [reflexivity|by apply good_id_record]..|apply Forall_nil_2].
  - exact boot_world_ok.
  - vm_compute in Hs. vm_compute. exact Hs.
Defined.

Lemma put_survives_restart_witness :
  let w := run_iops "ids" [] boot_world [OpStart ok_start] in
  let '(_, s, d) := put ok_env "k" [("id", JStr "alice")] (w_disk w) (w_store w) in
  dget "k" (is_flat (w_store (run_iops "ids" [] (with_store w s d) [OpStop; OpStart ok_start])))
  = Some (JStr "alice").
Proof.
  cbv zeta. set (w := run_iops "ids" [] boot_world [OpStart ok_start]).
  destruct (put ok_env "k" _ (w_disk w) (w_store w)) as [[r s] d] eqn:Hp.
  assert (r = Ret tt) as -> by (vm_compute in Hp; congruence).
  destruct (put_survives_restart "ids" [] w ok_env "k" [("id", JStr "alice")] s d ok_start) as (_ & _ & Hf).
  - apply run_iop_ok; [repeat constructor|exact I|exact boot_world_ok].
  - reflexivity.
  - by apply good_id_record.
  - exact Hp.
  - exists (MkLock (Some 7%Z)). repeat split.
  - rewrite (Hf "k"). reflexivity.
Defined.

(** A hand-written entry whose [id] is not a string is served as it is, although
    the loader says such entries produce no credential. *)
Example non_string_id_served :
  _rebuild_flat (records_of (dump [("k", [("id", JInt 5)]); ("l", [])])) = [("k", JInt 5)].
Proof. vm_compute. reflexivity. Qed.
