(* ===== verification/Config.v ===== *)
(** * Settings ([config.py]) and the application factory's wiring ([main.py])

    The validators and derived values of [Settings] that decide who may do what:
    key and identity maps, grants, admin credentials, Entra and recovery settings,
    the Neo4j clients, and the numeric limits.  Reading YAML and environment
    variables is pydantic's work; a [Settings] value here is what its field types
    accept.  [validate] applies the field validators and then the cross-field
    ones, in the order of the class.

    The theorems: a validated configuration seeds an identity store with
    well-formed credentials only, wires the middleware the way [Auth] assumes, and
    its configured keys authenticate from the first boot on. *)
From stdpp Require Import base list strings.
From Stdlib Require Import ZArith Lia.
From S2P Require Import Prelude PyText Sha256 Json JsonParse BlobDisk SessionClaims Authz Auth JsonIndent IdentityStore.

#[local] Open Scope string_scope.
#[local] Open Scope list_scope.

Abbreviation meta := (list (string * string)).
Abbreviation metas := (list (string * meta)).

(** ** Identity maps *)

(** [_GUID_RE.fullmatch]: hex groups of 8, 4, 4, 4 and 12. *)
Fixpoint guid_chars (groups : list nat) (l : bytes) : bool :=
  match groups with
  | [] => bool_decide (l = [])
  | [n] => bool_decide (length l = n) && forallb is_hex l
  | n :: groups =>
    bool_decide (n <= length l) && forallb is_hex (take n l)
    && match drop n l with
       | b :: l' => bool_decide (b = Byte.x2d) && guid_chars groups l'
       | [] => false
       end
  end.
Definition _GUID_RE (s : string) : bool := guid_chars [8; 4; 4; 4; 12] (bytes_of s).
Definition _ALL_ZEROS_GUID : string := "00000000-0000-0000-0000-000000000000".

(** [isinstance(id, str) and id.strip()] of [meta.get("id")] *)
Definition valid_id (m : meta) : bool :=
  match dget "id" m with Some i => negb (bool_decide (py_strip i = "")) | None => false end.

Section settings.
Context `{PyLower}.

Fixpoint normalize_identities (v acc : metas) : result metas :=
  match v with
  | [] => Ok acc
  | (oid, m) :: v =>
    let oid_lower := lower oid in
    if negb (_GUID_RE oid_lower) then Err ValueError
    else if bool_decide (oid_lower = _ALL_ZEROS_GUID) then Err ValueError
    else if negb (valid_id m) then Err ValueError
    else normalize_identities v (dset oid_lower m acc)
  end.

Definition _validate_identity_map (v : option metas) (allow_empty : bool) : result (option metas) :=
  match v with
  | None => Ok None
  | Some [] => if allow_empty then Ok (Some []) else Err ValueError
  | Some v => rbind (normalize_identities v []) (fun n => Ok (Some n))
  end.

(** [{oid.lower(): meta["id"] for ...}]; a missing [id] is a [KeyError]. *)
Fixpoint collect_ids (v : metas) (acc : list (string * string)) : result (list (string * string)) :=
  match v with
  | [] => Ok acc
  | (k, m) :: v => match dget "id" m with
                   | Some i => collect_ids v (dset (lower k) i acc)
                   | None => Err KeyError
                   end
  end.
Definition _build_identity_map_from (v : option metas) : result (list (string * string)) :=
  collect_ids (default [] v) [].

(** ** API keys *)

(** [len(d) == 64 and all(c in "0123456789abcdef" for c in d)] *)
Definition is_digest (s : string) : bool :=
  bool_decide (length (bytes_of s) = 64) && forallb is_hex (bytes_of s).

Fixpoint normalize_keys (v acc : metas) : result metas :=
  match v with
  | [] => Ok acc
  | (digest, m) :: v =>
    let digest_lower := lower digest in
    if negb (is_digest digest_lower) then Err ValueError
    else if negb (valid_id m) then Err ValueError
    else normalize_keys v (dset digest_lower m acc)
  end.

Definition _validate_api_keys (v : option metas) : result (option metas) :=
  match v with
  | None => Ok None
  | Some [] => Ok (Some [])
  | Some v => rbind (normalize_keys v []) (fun n => Ok (Some n))
  end.

(** [None if v == "" else v] *)
Definition _normalize_api_key (v : option string) : option string :=
  if bool_decide (v = Some "") then None else v.
(** Empty and blank strings are [None]. *)
Definition _normalize_azure_field (v : option string) : option string :=
  match v with Some s => if bool_decide (py_strip s = "") then None else v | None => None end.

Definition _validate_admin_api_key_sha256 (v : option string) : result (option string) :=
  match v with
  | None => Ok None
  | Some s => let d := lower (py_strip s) in if is_digest d then Ok (Some d) else Err ValueError
  end.

(** ** Grants, clients and limits *)

Definition _validate_workspace_scope (g : Grant) : result unit :=
  if Bool.eqb (gr_all_workspaces g) (bool_decide (gr_workspaces g <> None)) then Err ValueError
  else match gr_workspaces g with
  | None => Ok tt
  | Some ws => if bool_decide (ws = []) || existsb (fun w => bool_decide (py_strip w = "")) ws
               then Err ValueError else Ok tt
  end.

Record RecoveryConfig := MkRecovery {
  rc_enabled : bool;
  rc_permit_required : bool;
  rc_permit_ttl_seconds : Z;
  rc_retry_after_seconds : Z;
}.
Definition _positive_retry_after (v : Z) : result Z := if (v <=? 0)%Z then Err ValueError else Ok v.
Definition _positive_permit_ttl (v : Z) : result Z := if (v <=? 0)%Z then Err ValueError else Ok v.

Record Neo4jClientConfig := MkClient { cl_url : string; cl_username : string; cl_password : string; cl_access_mode : string }.
Definition client_auth (c : Neo4jClientConfig) : option (string * string) :=
  if bool_decide (cl_password c = "") then None else Some (cl_username c, cl_password c).
Record Neo4jConfig := MkNeo4j { n4_admin : Neo4jClientConfig; n4_cypher_query : Neo4jClientConfig }.
Definition _validate_access_modes (c : Neo4jConfig) : result Neo4jConfig :=
  if bool_decide (cl_access_mode (n4_admin c) = "WRITE") && bool_decide (cl_access_mode (n4_cypher_query c) = "READ")
  then Ok c else Err ValueError.

Definition _validate_neo4j_max_connection_pool_size (v : Z) : result Z := if (v <=? 0)%Z then Err ValueError else Ok v.
Definition _validate_crash_recovery_respawn_limit (v : option Z) : result (option Z) :=
  match v with Some n => if (n <? 0)%Z then Err ValueError else Ok v | None => Ok None end.
Definition _validate_crash_recovery_sweep_interval (v : Z) : result Z := if (v <? 0)%Z then Err ValueError else Ok v.

(** ** [Settings] *)

Record Settings := MkSettings {
  se_api_key : option string;
  se_api_keys : option metas;
  se_auth_mode : string;                  (** ["static"] or ["entra"] *)
  se_allow_unauthenticated : bool;
  se_access_control_mode : string;
  se_contributor_grants : list (string * Grant);
  se_recovery : RecoveryConfig;
  se_azure_client_id : option string;
  se_azure_tenant_id : option string;
  se_entra_identities : option metas;
  se_service_identities : option metas;
  se_admin_api_key : option string;
  se_admin_api_key_sha256 : option string;
  se_entra_admin_role : string;
  se_service_data_role : string;
  se_reader_role : string;
  se_neo4j_url : string;
  se_neo4j_user : string;
  se_neo4j_password : string;
  se_neo4j : option Neo4jConfig;
  se_neo4j_require_explicit_clients : bool;
  se_pool_size : Z;
  se_respawn_limit : option Z;
  se_sweep_interval : Z;
}.

Definition build_keystore (s : Settings) : result (list (string * string)) :=
  let ks := match se_api_key s with Some k => [(token_digest k, "owner")] | None => [] end in
  collect_ids (default [] (se_api_keys s)) ks.
Definition build_identity_map (s : Settings) : result (list (string * string)) :=
  _build_identity_map_from (se_entra_identities s).
Definition build_service_identity_map (s : Settings) : result (list (string * string)) :=
  _build_identity_map_from (se_service_identities s).

Definition resolve_admin_api_key_digest (s : Settings) : option string :=
  match se_admin_api_key_sha256 s with
  | Some d => Some d
  | None => token_digest <$> se_admin_api_key s
  end.

Definition _validate_contributor_grants (g : list (string * Grant)) : result (list (string * Grant)) :=
  if existsb (fun kv => bool_decide (py_strip kv.1 = "")) g then Err ValueError else Ok g.
Definition _validate_scoped_access_control (s : Settings) : result unit :=
  if bool_decide (se_access_control_mode s = "scoped") && bool_decide (se_contributor_grants s = [])
  then Err ValueError else Ok tt.
Definition _validate_entra_config (s : Settings) : result unit :=
  if bool_decide (se_auth_mode s = "entra")
     && (bool_decide (se_azure_client_id s = None) || bool_decide (se_azure_tenant_id s = None))
  then Err ValueError else Ok tt.

Fixpoint check_grants (g : list (string * Grant)) : result unit :=
  match g with [] => Ok tt | (_, x) :: g => rbind (_validate_workspace_scope x) (fun _ => check_grants g) end.

(** Construction of a [Settings]: field validators, then the model validators. *)
Definition validate (s : Settings) : result Settings :=
  let? api_keys := _validate_api_keys (se_api_keys s) in
  let? _ := check_grants (se_contributor_grants s) in
  let? grants := _validate_contributor_grants (se_contributor_grants s) in
  let? _ := _positive_retry_after (rc_retry_after_seconds (se_recovery s)) in
  let? _ := _positive_permit_ttl (rc_permit_ttl_seconds (se_recovery s)) in
  let? identities := _validate_identity_map (se_entra_identities s) true in
  let? services := _validate_identity_map (se_service_identities s) true in
  let? admin_digest := _validate_admin_api_key_sha256 (_normalize_api_key (se_admin_api_key_sha256 s)) in
  let? neo4j := match se_neo4j s with
                | Some c => rbind (_validate_access_modes c) (fun c => Ok (Some c))
                | None => Ok None
                end in
  let? pool := _validate_neo4j_max_connection_pool_size (se_pool_size s) in
  let? respawn := _validate_crash_recovery_respawn_limit (se_respawn_limit s) in
  let? sweep := _validate_crash_recovery_sweep_interval (se_sweep_interval s) in
  let s := MkSettings (_normalize_api_key (se_api_key s)) api_keys (se_auth_mode s)
    (se_allow_unauthenticated s) (se_access_control_mode s) grants (se_recovery s)
    (_normalize_azure_field (se_azure_client_id s)) (_normalize_azure_field (se_azure_tenant_id s))
    identities services (_normalize_api_key (se_admin_api_key s)) admin_digest (se_entra_admin_role s)
    (se_service_data_role s) (se_reader_role s) (se_neo4j_url s) (se_neo4j_user s) (se_neo4j_password s)
    neo4j (se_neo4j_require_explicit_clients s) pool respawn sweep in
  let? _ := _validate_scoped_access_control s in
  let? _ := _validate_entra_config s in
  Ok s.

(** [_normalize_entra_admin_role], [_normalize_service_role_fields]: [null] is [""]. *)
Definition normalize_role (v : option string) : string := default "" v.

Definition resolve_neo4j_admin (s : Settings) : Neo4jClientConfig :=
  match se_neo4j s with
  | Some c => n4_admin c
  | None => MkClient (se_neo4j_url s) (se_neo4j_user s) (se_neo4j_password s) "WRITE"
  end.
Definition resolve_neo4j_query (s : Settings) : Neo4jClientConfig :=
  match se_neo4j s with
  | Some c => n4_cypher_query c
  | None => MkClient (se_neo4j_url s) (se_neo4j_user s) (se_neo4j_password s) "READ"
  end.

(** Whether this server can seed or mutate its identity store. *)
Definition identity_store_mutable (s : Settings) : result bool :=
  if bool_decide (se_auth_mode s = "static") then
    let? ks := build_keystore s in
    Ok (negb (bool_decide (ks = [])) || bool_decide (resolve_admin_api_key_digest s <> None))
  else
    let? users := build_identity_map s in
    let? services := build_service_identity_map s in
    Ok (negb (bool_decide (se_entra_admin_role s = "")) || negb (bool_decide (users = []))
        || negb (bool_decide (services = []))).

(** [active_identity_store_path]: [true] when the store is owned by this process. *)
Definition active_identity_store_path (s : Settings) (lstat : entry_stat) : result bool :=
  let? mutable := identity_store_mutable s in
  if mutable then Ok true
  else match lstat with
  | EntryAbsent => Ok false
  | EntryError => Err ValueError
  | Entry _ _ => Ok true
  end.

(** ** The first-boot seed and the application factory *)

Definition id_record (cid : string) : record := [("id", JStr cid)].

(** [rich_seed]: the configured identities in the store's format. *)
Definition rich_seed (s : Settings) : result idrecords :=
  let rich (ids : list (string * string)) := map (fun kv => (kv.1, id_record kv.2)) ids in
  if bool_decide (se_auth_mode s = "entra") then
    let? users := build_identity_map s in
    let? services := build_service_identity_map s in
    Ok (dupdate [] (rich users ++ rich services))
  else
    let? ks := build_keystore s in
    Ok (rich ks).

Definition _assert_neo4j_clients_explicit (s : Settings) : result unit :=
  if se_neo4j_require_explicit_clients s && bool_decide (se_neo4j s = None) then Err RuntimeError else Ok tt.

(** The part of [create_asgi_app] that wires authentication: the resolver reads
    the store's flat map, and [gate] is the readiness gate's answer. *)
Definition create_asgi_app (s : Settings) (jwks_ok : bool) (jwks : jwk_set) (lifespan_active : bool)
    (flat : idmap) (gate : bool) : result (Middleware * AdminConfig) :=
  let? _ := _assert_admin_not_exempt _EXEMPT_PATHS _EXEMPT_PREFIXES in
  if lifespan_active then Err RuntimeError
  else
  let? _ := _assert_neo4j_clients_explicit s in
  let admin := MkAdmin (se_auth_mode s) (bool_decide (resolve_admin_api_key_digest s <> None))
                 (se_entra_admin_role s) in
  if bool_decide (se_auth_mode s = "entra") then
    let? users := build_identity_map s in
    let? services := build_service_identity_map s in
    if existsb (fun k => bool_decide (k ∈ dkeys services)) (dkeys users) then Err RuntimeError
    else
    let? e := entra_init jwks_ok jwks
                (MkEntra (default "" (se_azure_client_id s)) (default "" (se_azure_tenant_id s)) flat flat
                   (se_service_data_role s) (se_reader_role s) (se_entra_admin_role s)) in
    Ok (MkMw (Entra e) _EXEMPT_PATHS None (se_allow_unauthenticated s) (Some gate), admin)
  else
    Ok (MkMw (StaticKeyResolver flat) _EXEMPT_PATHS (resolve_admin_api_key_digest s)
          (se_allow_unauthenticated s) (Some gate), admin).

(** ** What validation establishes *)

Lemma hex_lower l : Forall (fun b => is_hex b = true) l -> map to_lower l = l.
Proof.
  induction 1 as [|b l Hb Hl IH]; [done|]. cbn [map]. rewrite IH. f_equal.
  unfold to_lower, is_upper, in_range. unfold is_hex, in_range in Hb.
  destruct (Z.leb_spec 65 (bZ b)), (Z.leb_spec (bZ b) 90); try done.
  cbn [andb] in *. rewrite orb_true_iff, !andb_true_iff, !Z.leb_le in Hb. lia.
Qed.

(** Lowercase hexadecimal text, dashes included, is its own lower case. *)
Definition lowered (s : string) : Prop :=
  Forall (fun b => is_hex b = true \/ b = Byte.x2d) (bytes_of s).

Lemma lowered_ascii s : lowered s -> Forall (fun b => in_range 0 127 b = true) (bytes_of s).
Proof.
  intros Hs. eapply Forall_impl; [exact Hs|]. intros b [Hb| ->]; [|done].
  unfold is_hex, in_range in *. rewrite orb_true_iff, !andb_true_iff, !Z.leb_le in *. lia.
Qed.

Lemma lower_lowered s : lowered s -> lower s = s.
Proof.
  intros Hs. rewrite lower_ascii by by apply lowered_ascii. rewrite <- (str_of_bytes_of s) at 2. f_equal.
  induction Hs as [|b l [Hb| ->] Hl IH]; cbn [map]; [done| |by rewrite IH].
  rewrite IH. f_equal. assert (map to_lower [b] = [b]) as Hx by (apply hex_lower; by constructor).
  by injection Hx.
Qed.

Lemma ascii_valid l : Forall (fun b => in_range 0 127 b = true) l -> utf8_valid l = true.
Proof.
  intros Hl. unfold utf8_valid. assert (exists cs, utf8_decode l = Some cs) as [cs ->]; [|done].
  induction Hl as [|b l Hb Hl [cs IH]]; [by exists []|]. cbn [utf8_decode]. apply in_range_spec in Hb.
  destruct (Z.ltb_spec (bZ b) 128); [|lia]. rewrite IH. by eexists.
Qed.

Lemma lowered_valid s : lowered s -> utf8_valid (bytes_of s) = true.
Proof. intros Hs. by apply ascii_valid, lowered_ascii. Qed.

Lemma forallb_hex l : forallb is_hex l = true -> Forall (fun b => is_hex b = true \/ b = Byte.x2d) l.
Proof.
  rewrite forallb_forall. intros Hl. apply Forall_forall. intros b Hb%list_elem_of_In. left. by apply Hl.
Qed.

Lemma is_digest_lowered s : is_digest s = true -> lowered s.
Proof. unfold is_digest. intros [_ ?]%andb_true_iff. by apply forallb_hex. Qed.

Lemma guid_lowered s : _GUID_RE s = true -> lowered s.
Proof.
  unfold _GUID_RE, lowered. generalize [8; 4; 4; 4; 12] as groups, (bytes_of s) as l.
  assert (Hgen : forall groups l, guid_chars groups l = true -> Forall (fun b => is_hex b = true \/ b = Byte.x2d) l).
  { induction groups as [|n groups IH]; intros l; cbn [guid_chars].
    - intros ->%bool_decide_eq_true. constructor.
    - destruct groups as [|n' groups].
      + intros [_ Hh]%andb_true_iff. by apply forallb_hex.
      + intros [[_ Hh]%andb_true_iff Hd]%andb_true_iff. rewrite <- (take_drop n l). apply Forall_app.
        split; [by apply forallb_hex|]. destruct (drop n l) as [|b l']; [done|].
        apply andb_true_iff in Hd as [->%bool_decide_eq_true Hr]. constructor; [by right|]. by apply IH. }
  apply Hgen.
Qed.

Lemma token_digest_is_digest t : is_digest (token_digest t) = true.
Proof.
  unfold is_digest, token_digest. rewrite bytes_of_str_of. apply andb_true_iff. split.
  - by apply bool_decide_eq_true.
  - apply forallb_forall. intros b Hb%list_elem_of_In. by apply (proj1 (Forall_forall _ _) (hexdigest_hex (bytes_of t)) b).
Qed.

(** A key with the id it stands for. *)
Definition entry_ok (P : string -> Prop) (kv : string * meta) : Prop := P kv.1 /\ valid_id kv.2 = true.

Lemma normalize_keys_ok v acc n :
  normalize_keys v acc = Ok n -> NoDup (dkeys acc) -> Forall (entry_ok (fun k => is_digest k = true)) acc ->
  NoDup (dkeys n) /\ Forall (entry_ok (fun k => is_digest k = true)) n.
Proof.
  revert acc. induction v as [|[k m] v IH]; intros acc; cbn [normalize_keys].
  - by intros [= <-].
  - destruct (is_digest (lower k)) eqn:Hd; [|done]. destruct (valid_id m) eqn:Hm; [|done]. cbn [negb].
    intros Hn Hnd Hacc. apply (IH _ Hn); [by apply NoDup_dset|by apply Forall_dset_record].
Qed.

Lemma normalize_identities_ok v acc n :
  normalize_identities v acc = Ok n -> NoDup (dkeys acc) -> Forall (entry_ok lowered) acc ->
  NoDup (dkeys n) /\ Forall (entry_ok lowered) n.
Proof.
  revert acc. induction v as [|[k m] v IH]; intros acc; cbn [normalize_identities].
  - by intros [= <-].
  - destruct (_GUID_RE (lower k)) eqn:Hd; [|done]. cbn [negb]. case_bool_decide; [done|].
    destruct (valid_id m) eqn:Hm; [|done]. cbn [negb].
    intros Hn Hnd Hacc. apply (IH _ Hn); [by apply NoDup_dset|apply Forall_dset_record; [|done]].
    split; [by apply guid_lowered|done].
Qed.

(** An identity map: distinct lower-case keys, each with a non-blank id. *)
Definition idents_ok (ids : list (string * string)) : Prop :=
  NoDup (dkeys ids) /\ Forall (fun kv => lowered kv.1 /\ py_strip kv.2 <> "") ids.

Lemma collect_ids_ok v acc :
  Forall (entry_ok lowered) v -> idents_ok acc -> exists ids, collect_ids v acc = Ok ids /\ idents_ok ids.
Proof.
  intros Hv. revert acc. induction Hv as [|[k m] v [Hk Hm] Hv IH]; intros acc [Hnd Hacc]; cbn [collect_ids].
  - by eexists.
  - unfold valid_id in Hm. cbn [snd] in Hm. destruct (dget "id" m) as [i|]; [|done].
    apply negb_true_iff, bool_decide_eq_false in Hm. apply IH. split; [by apply NoDup_dset|].
    apply Forall_dset_record; [|done]. cbn [fst snd] in *. by rewrite lower_lowered.
Qed.

Lemma validate_api_keys_ok v v' : _validate_api_keys v = Ok v' -> Forall (entry_ok lowered) (default [] v').
Proof.
  destruct v as [[|x v]|]; cbn [_validate_api_keys]; [by intros [= <-]; constructor| |by intros [= <-]; constructor].
  intros (n & Hn & [= <-])%rbind_ok. apply normalize_keys_ok in Hn as [_ Hn]; [|constructor..].
  eapply Forall_impl; [exact Hn|]. intros kv [Hk Hm]. split; [by apply is_digest_lowered|done].
Qed.

Lemma validate_identity_map_ok v v' :
  _validate_identity_map v true = Ok v' -> Forall (entry_ok lowered) (default [] v').
Proof.
  destruct v as [[|x v]|]; cbn [_validate_identity_map]; [by intros [= <-]; constructor| |by intros [= <-]; constructor].
  intros (n & Hn & [= <-])%rbind_ok. by apply normalize_identities_ok in Hn as [_ Hn]; [|constructor..].
Qed.

(** The maps of a validated configuration. *)
Lemma validate_maps s s' :
  validate s = Ok s' ->
  Forall (entry_ok lowered) (default [] (se_api_keys s'))
  /\ Forall (entry_ok lowered) (default [] (se_entra_identities s'))
  /\ Forall (entry_ok lowered) (default [] (se_service_identities s')).
Proof.
  unfold validate. intros (keys & Hkeys & Hv)%rbind_ok.
  apply rbind_ok in Hv as (_ & _ & Hv). apply rbind_ok in Hv as (grants & _ & Hv).
  apply rbind_ok in Hv as (_ & _ & Hv). apply rbind_ok in Hv as (_ & _ & Hv).
  apply rbind_ok in Hv as (users & Husers & Hv). apply rbind_ok in Hv as (services & Hservices & Hv).
  do 5 (apply rbind_ok in Hv as (? & _ & Hv)). do 2 (apply rbind_ok in Hv as (? & _ & Hv)).
  injection Hv as <-. cbn [se_api_keys se_entra_identities se_service_identities].
  split; [by eapply validate_api_keys_ok|]. split; by eapply validate_identity_map_ok.
Qed.

(** Validated maps build without error; keys that come from the legacy single
    key are digests like the others. *)
Lemma validated_identities s s' :
  validate s = Ok s' ->
  (exists ks, build_keystore s' = Ok ks /\ idents_ok ks)
  /\ (exists us, build_identity_map s' = Ok us /\ idents_ok us)
  /\ (exists vs, build_service_identity_map s' = Ok vs /\ idents_ok vs).
Proof.
  intros (Hk & Hu & Hv)%validate_maps.
  assert (Hnil : idents_ok []) by (split; constructor).
  split; [|split; by apply collect_ids_ok]. apply collect_ids_ok; [done|].
  destruct (se_api_key s') as [t|]; [|done]. split; [apply NoDup_singleton|].
  apply Forall_singleton. split; [by apply is_digest_lowered, token_digest_is_digest|done].
Qed.

Context `{FloatRepr}.

(** Configured ids are text. *)
Definition ids_text (ids : list (string * string)) : Prop := Forall (fun kv => utf8_valid (bytes_of kv.2) = true) ids.

Lemma served_id_record c : py_strip c <> "" -> served_id (id_record c) = Some (JStr c).
Proof.
  intros Hc. unfold served_id, id_record, jget_default. cbn [dget].
  rewrite decide_True by done. cbn [truthy]. rewrite bool_decide_eq_false_2; [done|]. by intros ->.
Qed.

Abbreviation rich ids := (map (fun kv : string * string => (kv.1, id_record kv.2)) ids).

Lemma good_rich ids : idents_ok ids -> ids_text ids -> good (rich ids).
Proof.
  intros [Hnd Hf] Ht. split.
  - unfold dkeys in *. by rewrite map_map.
  - apply Forall_map. apply Forall_forall. intros kv Hin. cbn [fst snd].
    split; [apply lowered_valid; by apply (proj1 (Forall_forall _ _) Hf kv Hin)|].
    apply good_id_record. by apply (proj1 (Forall_forall _ _) Ht kv Hin).
Qed.

Lemma dget_rich ids k :
  idents_ok ids -> (dget k (rich ids) ≫= served_id) = JStr <$> dget k ids.
Proof.
  intros [_ Hf]. induction ids as [|[k' c] ids IH]; [done|]. apply Forall_cons in Hf as [[_ Hc] Hf].
  cbn [map dget fst snd]. case_decide; [|by apply IH].
  change (Some (id_record c) ≫= served_id) with (served_id (id_record c)). by rewrite served_id_record.
Qed.

Lemma good_dupdate a b : good a -> Forall (fun kv => utf8_valid (bytes_of kv.1) = true /\ good_record kv.2) b ->
  good (dupdate a b).
Proof.
  unfold dupdate. intros Ha Hb. revert a Ha. induction Hb as [|kv b [Hk Hr] Hb IH]; intros a Ha; [done|].
  cbn [fold_left]. apply IH. by apply good_dset.
Qed.

(** Every id a configuration names is text. *)
Definition settings_text (s : Settings) : Prop :=
  (forall ks, build_keystore s = Ok ks -> ids_text ks)
  /\ (forall us, build_identity_map s = Ok us -> ids_text us)
  /\ (forall vs, build_service_identity_map s = Ok vs -> ids_text vs).

(** A validated configuration always yields a seed, and the seed is fit for the
    store. *)
Lemma validated_seed s s' :
  validate s = Ok s' -> settings_text s' -> exists seed, rich_seed s' = Ok seed /\ good seed.
Proof.
  intros Hv (Tk & Tu & Ts). destruct (validated_identities s s' Hv) as ((ks & Hk & Gk) & (us & Hu & Gu) & vs & Hs & Gs).
  unfold rich_seed. case_bool_decide.
  - rewrite Hu, Hs. cbn [rbind]. eexists. split; [done|]. apply good_dupdate; [split; constructor|].
    apply Forall_app. split; by apply good_rich; eauto.
  - rewrite Hk. cbn [rbind]. eexists. split; [done|]. apply good_rich; eauto.
Qed.

Lemma create_asgi_app_wired `{Jwt} s jwks_ok jwks active flat gate m a :
  se_auth_mode s ∈ ["static"; "entra"] -> create_asgi_app s jwks_ok jwks active flat gate = Ok (m, a) ->
  wired m a /\ _assert_admin_not_exempt (mw_exempt_paths m) _EXEMPT_PREFIXES = Ok tt.
Proof.
  intros Hmode. unfold create_asgi_app. cbn [rbind]. intros (? & _ & Hc)%rbind_ok.
  destruct active; [done|]. apply rbind_ok in Hc as (_ & _ & Hc). case_bool_decide as Hm.
  - apply rbind_ok in Hc as (us & _ & Hc). apply rbind_ok in Hc as (vs & _ & Hc).
    destruct (existsb _ _); [done|]. apply rbind_ok in Hc as (e & He & [= <- <-]). split; [|done].
    assert (en_entra_admin_role e = se_entra_admin_role s) as Hr.
    { revert He. unfold entra_init. destruct jwks_ok; [|done]. by destruct jwks as [| |[]]; intros [= <-]. }
    by apply (wired_entra _ _ e).
  - injection Hc as <- <-. rewrite !elem_of_cons, elem_of_nil in Hmode.
    destruct Hmode as [Hs|[Hs|[]]]; [|done]. split; [|done]. by apply (wired_static _ _ flat).
Qed.

(** Configured keys authenticate from the first boot on, and nothing else
    does.  With a validated static configuration, on a fresh volume, every data
    request is decided by the configured key map: the bearer of a configured key
    enters as that key's contributor, anybody else is answered 401. *)
Theorem first_boot_authenticates `{Jwt} (s0 s : Settings) (seed : idrecords) (v : start_env) (w : World)
    (name : string) (jwks_ok : bool) (jwks : jwk_set) (m : Middleware) (a : AdminConfig)
    (ks : list (string * string)) (scope : Scope) :
  validate s0 = Ok s -> settings_text s -> se_auth_mode s = "static" ->
  se_allow_unauthenticated s = false -> build_keystore s = Ok ks ->
  rich_seed s = Ok seed -> w = boot_world -> first_boot name v ->
  create_asgi_app s jwks_ok jwks false
    (is_flat (w_store (_start_identity_ownership name seed v w))) true = Ok (m, a) ->
  sc_type scope = "http" -> sc_path scope ∉ _EXEMPT_PATHS -> _is_admin_route (sc_path scope) = false ->
  mw_call m scope = match _extract_bearer_token (sc_headers scope) ≫= (fun t => dget (token_digest t) ks) with
                    | Some c => Forward (Some (MkAuth (JStr c) false [] false))
                    | None => Reply 401
                    end.
Proof.
  intros Hv Htext Hmode Hun Hks Hseed -> Hboot Happ Htype Hpath Hadm.
  destruct (validated_identities s0 s Hv) as ((ks' & Hks' & Hids) & _).
  assert (ks' = ks) as -> by congruence.
  unfold rich_seed in Hseed. rewrite bool_decide_eq_false_2 in Hseed by by rewrite Hmode.
  rewrite Hks in Hseed. cbn [rbind] in Hseed. injection Hseed as <-.
  destruct (start_first_boot name (rich ks) boot_world v eq_refl eq_refl eq_refl Hboot) as (_ & _ & Hflat).
  rewrite Hflat in Happ. unfold create_asgi_app in Happ. cbn [rbind] in Happ.
  apply rbind_ok in Happ as (_ & _ & Happ). apply rbind_ok in Happ as (_ & _ & Happ).
  rewrite bool_decide_eq_false_2 in Happ by by rewrite Hmode. injection Happ as <- <-.
  rewrite mw_call_guarded.
  2: { split; [done|]. split; [|split; [done|]].
       - unfold exempt. cbn [mw_exempt_paths existsb _EXEMPT_PREFIXES]. by rewrite bool_decide_eq_false_2.
       - cbn [mw_allow_unauthenticated]. rewrite Hun. by intros [? _]. }
  destruct (_extract_bearer_token _) as [t|]; [|done].
  change (Some t ≫= ?f) with (f t). cbv beta.
  assert (admin_key_matches _ (sc_path scope) t = false) as ->.
  { unfold admin_key_matches. rewrite Hadm. by case_match. }
  unfold mw_resolve. cbn [resolve mw_resolver]. unfold static_resolve, _resolve_token.
  rewrite dget_rebuild by apply (good_rich ks Hids (proj1 Htext ks Hks)). rewrite dget_rich by done.
  by destruct (dget (token_digest t) ks).
Qed.

End settings.

(** ** A small deployment *)

Definition demo_settings : Settings :=
  MkSettings (Some "s3cret") (Some [("BA7816BF8F01CFEA414140DE5DAE2223B00361A396177A9CB410FF61F20015AD", [("id", "alice")])])
    "static" false "compatibility" [] (MkRecovery false true 15 2) None None None None None None
    "IdentityAdmin" "Contributor" "Reader" "neo4j://neo4j:7687" "neo4j" "password" None false 50 None 300.

Definition demo_validated : Settings := match validate demo_settings with Ok s => s | Err _ => demo_settings end.
#[local] Instance config_floats : FloatRepr := fun s => s.

(** The upper-case digest of [abc] was normalized, and both keys work. *)
Lemma first_boot_authenticates_witness :
  let seed := match rich_seed demo_validated with Ok x => x | Err _ => [] end in
  let flat := is_flat (w_store (_start_identity_ownership "keys" seed ok_start boot_world)) in
  match create_asgi_app demo_validated true NoSuchMethod false flat true with
  | Ok (m, _) => mw_call m (demo_scope "/events" "abc") = Forward (Some (MkAuth (JStr "alice") false [] false))
                 /\ mw_call m (demo_scope "/events" "nope") = Reply 401
  | Err _ => False
  end.
Proof.
  cbv zeta.
  destruct (rich_seed demo_validated) as [seed|] eqn:Hseed; [|vm_compute in Hseed; discriminate].
  destruct (build_keystore demo_validated) as [ks|] eqn:Hks; [|vm_compute in Hks; discriminate].
  assert (Hboot : first_boot "keys" ok_start) by (exists (MkLock (Some 7%Z)); repeat split).
  assert (Hv : validate demo_settings = Ok demo_validated) by (vm_compute; reflexivity).
  assert (Htext : settings_text demo_validated).
  { split; [|split]; intros x Hx; vm_compute in Hx; injection Hx as <-; repeat constructor. }
  destruct (create_asgi_app demo_validated true NoSuchMethod false _ true) as [[m a]|] eqn:Happ.
  - pose proof (fun sc => first_boot_authenticates demo_settings demo_validated seed ok_start boot_world "keys"
      true NoSuchMethod m a ks sc Hv Htext eq_refl eq_refl Hks Hseed eq_refl Hboot Happ) as Hall.
    vm_compute in Hks. injection Hks as <-. split.
    + rewrite (Hall (demo_scope "/events" "abc")); [vm_compute; reflexivity|reflexivity| |reflexivity].
      refine (bool_decide_eq_false_1 _ _). reflexivity.
    + rewrite (Hall (demo_scope "/events" "nope")); [vm_compute; reflexivity|reflexivity| |reflexivity].
      refine (bool_decide_eq_false_1 _ _). reflexivity.
  - vm_compute in Hseed. injection Hseed as <-. vm_compute in Happ. discriminate.
Defined.
