(* ===== verification/Admin.v ===== *)
(** * The administration endpoints ([routers/admin.py])

    Creating, listing and deleting identities and API keys at run time, on the
    identity store of [IdentityStore].  The trail of audit lines is part of the
    state.  [require_admin], which guards the whole router, is in [Auth].

    The theorems connect the endpoints to authentication: the resolvers of [Auth]
    read the store's flat map, so an answered [PUT] or [DELETE] takes effect on
    the next request, and the admin key's own digest cannot be touched. *)
From stdpp Require Import base list strings.
From Stdlib Require Import ZArith Lia.
From S2P Require Import Prelude PyText Sha256 Json JsonParse JsonIndent BlobDisk SessionClaims Authz Auth IdentityStore Config.

#[local] Open Scope string_scope.
#[local] Open Scope list_scope.

(** A handler answers 200 with a body, raises [HTTPException(status)], or lets a
    store exception through. *)
Inductive http (A : Type) := Answer (a : A) | HttpError (status : Z) | Unhandled (e : iexn).
Arguments Answer {A} a.
Arguments HttpError {A} status.
Arguments Unhandled {A} e.

(** One audit line; [old] is set when a different contributor is overwritten. *)
Inductive audit :=
  | AuditPut (target contributor : string) (old : option json) (who : json)
  | AuditDelete (target : string) (who : json).

Record Admin := MkAdminState { am_world : World; am_audit : list audit }.

Definition _MAX_CONTRIBUTOR_LEN : nat := 256.
(** [len(v)] counts characters. *)
Definition py_len (s : string) : nat :=
  match utf8_decode (bytes_of s) with Some cs => length cs | None => length (bytes_of s) end.

(** Body validation; [false] is answered 422 by the framework. *)
Definition id_must_be_valid (v : string) : bool :=
  negb (bool_decide (py_strip v = "")) && (py_len v <=? _MAX_CONTRIBUTOR_LEN)%nat
  && negb (bool_decide (Byte.x00 ∈ bytes_of v)).

Definition _validate_oid (oid : string) : option Z :=
  if negb (_GUID_RE oid) then Some 422%Z
  else if bool_decide (oid = _ALL_ZEROS_GUID) then Some 422%Z else None.
Definition _validate_hash (h : string) : option Z := if is_digest h then None else Some 422%Z.

Definition _audit_put (target contributor : string) (old : option json) (who : json) (a : Admin) : Admin :=
  let old := match old with
             | Some o => if is_none o || bool_decide (str_or_empty o = contributor)
                            && match o with JStr _ => true | _ => false end
                         then None else Some o
             | None => None
             end in
  MkAdminState (am_world a) (am_audit a ++ [AuditPut target contributor old who]).
Definition _audit_delete (target : string) (who : json) (a : Admin) : Admin :=
  MkAdminState (am_world a) (am_audit a ++ [AuditDelete target who]).

(** [existing.get("id")] of a present record; Python's [None] is JSON [null]. *)
Definition old_contributor (key : string) (s : Store) : option json := jget "id" <$> store_get key s.

(** [store.put] and [store.delete] inside a handler. *)
Definition do_put (e : op_env) (key : string) (value : record) (resp : json) (a : Admin) : http json * Admin :=
  let w := am_world a in
  let '(r, s, d) := put e key value (w_disk w) (w_store w) in
  let a := MkAdminState (with_store w s d) (am_audit a) in
  match r with Ret _ => (Answer resp, a) | Raise x => (Unhandled x, a) end.
Definition do_delete (e : op_env) (key : string) (resp : json) (a : Admin) : http json * Admin :=
  let w := am_world a in
  let '(r, s, d) := delete e key (w_disk w) (w_store w) in
  let a := MkAdminState (with_store w s d) (am_audit a) in
  match r with Ret _ => (Answer resp, a) | Raise x => (Unhandled x, a) end.

Section endpoints.
(** The calling administrator, and [app.state.admin_api_key_digest]. *)
Context (who : json) (admin_digest : option string).

(** [PUT /admin/identities/{oid}] *)
Definition put_identity (e : op_env) (oid id : string) (display_name : option string) (a : Admin)
    : http json * Admin :=
  if negb (id_must_be_valid id) then (HttpError 422, a)
  else match _validate_oid oid with
  | Some n => (HttpError n, a)
  | None =>
    let record := ("id", JStr id) :: match display_name with Some d => [("display_name", JStr d)] | None => [] end in
    let a := _audit_put oid id (old_contributor oid (w_store (am_world a))) who a in
    do_put e oid record (JObj (("oid", JStr oid) :: record)) a
  end.

(** [DELETE /admin/identities/{oid}] *)
Definition delete_identity (e : op_env) (oid : string) (a : Admin) : http json * Admin :=
  match _validate_oid oid with
  | Some n => (HttpError n, a)
  | None =>
    match store_get oid (w_store (am_world a)) with
    | None => (HttpError 404, a)
    | Some _ => do_delete e oid (JObj [("oid", JStr oid); ("deleted", JBool true)]) (_audit_delete oid who a)
    end
  end.

(** [GET /admin/identities] *)
Definition list_identities (a : Admin) : json :=
  JObj [("identities", JArr (map (fun kv => JObj (dupdate [("oid", JStr kv.1)] kv.2))
                                 (is_data (w_store (am_world a)))))].

Definition is_admin_digest (h : string) : bool := bool_decide (admin_digest = Some h).

(** [PUT /admin/keys/{sha256hash}] *)
Definition put_key (e : op_env) (h id : string) (a : Admin) : http json * Admin :=
  if negb (id_must_be_valid id) then (HttpError 422, a)
  else match _validate_hash h with
  | Some n => (HttpError n, a)
  | None =>
    if is_admin_digest h then (HttpError 409, a)
    else let a := _audit_put h id (old_contributor h (w_store (am_world a))) who a in
         do_put e h [("id", JStr id)] (JObj [("hash", JStr h); ("id", JStr id)]) a
  end.

(** [DELETE /admin/keys/{sha256hash}] *)
Definition delete_key (e : op_env) (h : string) (a : Admin) : http json * Admin :=
  match _validate_hash h with
  | Some n => (HttpError n, a)
  | None =>
    if is_admin_digest h then (HttpError 409, a)
    else match store_get h (w_store (am_world a)) with
    | None => (HttpError 404, a)
    | Some _ => do_delete e h (JObj [("hash", JStr h); ("deleted", JBool true)]) (_audit_delete h who a)
    end
  end.

(** [GET /admin/keys] *)
Definition list_keys (a : Admin) : json :=
  JObj [("keys", JArr (map (fun kv => JObj [("hash", JStr kv.1); ("id", jget_default "id" (JStr "") kv.2)])
                           (is_data (w_store (am_world a)))))].

(** ** Effect on authentication *)

Context `{FloatRepr}.
Abbreviation flat a := (is_flat (w_store (am_world a))).

(** An answered request changed exactly one entry; any other outcome left the
    served map as it was, or emptied it because the store latched. *)
Definition changed (r : http json) (k : string) (new : option json) (a a' : Admin) : Prop :=
  match r with
  | Answer _ => forall k', dget k' (flat a') = if decide (k' = k) then new else dget k' (flat a)
  | _ => flat a' = flat a \/ (flat a' = [] /\ serving (w_store (am_world a')) = false)
  end.

Lemma put_outcome w e k x r s d :
  world_ok w -> put e k x (w_disk w) (w_store w) = (r, s, d) ->
  match r with
  | Ret _ => forall k', dget k' (is_flat s) = if decide (k' = k) then served_id x else dget k' (is_flat (w_store w))
  | Raise _ => is_flat s = is_flat (w_store w) \/ (is_flat s = [] /\ serving s = false)
  end.
Proof.
  intros Hw Hp. unfold put in Hp. destruct (_require_ownership (w_store w)) as [[]|] eqn:Hr.
  2: { injection Hp as <- <- <-. by left. }
  destruct (world_ok_owned w Hw Hr) as (_ & [lk Hlk] & _ & _ & _).
  destruct (write_atomic_cases e (dset k x (is_data (w_store w))) (w_disk w) _ lk Hlk)
    as [Hq|[(x' & Hq & _)|(x' & d' & Hq & _)]]; rewrite Hq in Hp; injection Hp as <- <- <-.
  - cbn [is_flat set_map]. intros k'. case_decide as Hk.
    + subst. destruct (served_id x); [apply dget_dset_eq|apply dget_ddel_eq].
    + destruct (served_id x); [by apply dget_dset_ne|by apply dget_ddel_ne].
  - by left.
  - right. split; [done|apply latch_not_serving].
Qed.

Lemma delete_outcome w e k r s d :
  world_ok w -> delete e k (w_disk w) (w_store w) = (r, s, d) ->
  match r with
  | Ret _ => forall k', dget k' (is_flat s) = if decide (k' = k) then None else dget k' (is_flat (w_store w))
  | Raise _ => is_flat s = is_flat (w_store w) \/ (is_flat s = [] /\ serving s = false)
  end.
Proof.
  intros Hw Hp. unfold delete in Hp. destruct (_require_ownership (w_store w)) as [[]|] eqn:Hr.
  2: { injection Hp as <- <- <-. by left. }
  destruct (world_ok_owned w Hw Hr) as (_ & [lk Hlk] & _ & _ & _).
  destruct (write_atomic_cases e (ddel k (is_data (w_store w))) (w_disk w) _ lk Hlk)
    as [Hq|[(x' & Hq & _)|(x' & d' & Hq & _)]]; rewrite Hq in Hp; injection Hp as <- <- <-.
  - cbn [is_flat set_map]. intros k'. case_decide as Hk; [subst; apply dget_ddel_eq|by apply dget_ddel_ne].
  - by left.
  - right. split; [done|apply latch_not_serving].
Qed.

Lemma do_put_changed e k x resp a r a' :
  world_ok (am_world a) -> do_put e k x resp a = (r, a') -> changed r k (served_id x) a a'.
Proof.
  intros Hw. unfold do_put. destruct (put e k x _ _) as [[r0 s] d] eqn:Hp.
  pose proof (put_outcome (am_world a) e k x r0 s d Hw Hp) as Ho.
  by destruct r0; intros [= <- <-].
Qed.

Lemma do_delete_changed e k resp a r a' :
  world_ok (am_world a) -> do_delete e k resp a = (r, a') -> changed r k None a a'.
Proof.
  intros Hw. unfold do_delete. destruct (delete e k _ _) as [[r0 s] d] eqn:Hp.
  pose proof (delete_outcome (am_world a) e k r0 s d Hw Hp) as Ho.
  by destruct r0; intros [= <- <-].
Qed.

Lemma valid_id_served id : id_must_be_valid id = true -> served_id [("id", JStr id)] = Some (JStr id).
Proof.
  unfold id_must_be_valid. intros [[Hs _]%andb_true_iff _]%andb_true_iff.
  apply negb_true_iff, bool_decide_eq_false in Hs. by apply served_id_record.
Qed.

Lemma put_key_changed e h id a r a' :
  world_ok (am_world a) -> put_key e h id a = (r, a') ->
  changed r h (Some (JStr id)) a a' /\ (admin_digest = Some h -> flat a' = flat a).
Proof.
  intros Hw. unfold put_key. destruct (id_must_be_valid id) eqn:Hid; cbn [negb].
  2: { intros [= <- <-]. split; [by left|done]. }
  destruct (_validate_hash h); [intros [= <- <-]; split; [by left|done]|].
  unfold is_admin_digest. case_bool_decide as Hd; [intros [= <- <-]; split; [by left|done]|].
  intros Hp. split; [|by intros ?]. rewrite <- (valid_id_served id Hid).
  by apply do_put_changed in Hp.
Qed.

Lemma delete_key_changed e h a r a' :
  world_ok (am_world a) -> delete_key e h a = (r, a') ->
  changed r h None a a' /\ (admin_digest = Some h -> flat a' = flat a).
Proof.
  intros Hw. unfold delete_key.
  destruct (_validate_hash h); [intros [= <- <-]; split; [by left|done]|].
  unfold is_admin_digest. case_bool_decide as Hd; [intros [= <- <-]; split; [by left|done]|].
  destruct (store_get h _); [|intros [= <- <-]; split; [by left|done]].
  intros Hp. split; [|by intros ?]. by apply do_delete_changed in Hp.
Qed.

(** The endpoints keep the store's invariant. *)
Lemma put_key_world_ok e h id a r a' :
  utf8_valid (bytes_of id) = true -> world_ok (am_world a) -> put_key e h id a = (r, a') -> world_ok (am_world a').
Proof.
  intros Hu Hw. unfold put_key. destruct (id_must_be_valid id); cbn [negb]; [|by intros [= <- <-]].
  unfold _validate_hash. destruct (is_digest h) eqn:Hh; [|by intros [= <- <-]].
  destruct (is_admin_digest h); [by intros [= <- <-]|]. unfold do_put. cbn [am_world _audit_put].
  pose proof (put_world_ok "" [] (am_world a) e h [("id", JStr id)] Hw
                (lowered_valid h (is_digest_lowered h Hh)) (good_id_record id Hu)) as Hok.
  cbn [run_iop] in Hok. destruct (put e h _ _ _) as [[[[]|x] s] d]; by intros [= <- <-].
Qed.

(** The resolver after a change of the map it reads. *)
Definition keys_of (a : Admin) (token : string) : option Principal := static_resolve (flat a) token false.

(** Key administration takes effect at once and touches nothing else.  An
    answered [PUT] makes the key's bearer that contributor, an answered [DELETE]
    locks the bearer out, and every other bearer is resolved as before; a request
    that is not answered changes no bearer's fate, unless the store has latched,
    when nobody is admitted; and no request ever changes the admin key's own
    entry. *)
Theorem key_administration (e : op_env) (h id token : string) (a a1 a2 : Admin) (r1 r2 : http json) :
  world_ok (am_world a) -> put_key e h id a = (r1, a1) -> delete_key e h a = (r2, a2) ->
  (forall b, r1 = Answer b ->
     keys_of a1 token = if decide (token_digest token = h) then Some (MkPrincipal (JStr id) [] false)
                        else keys_of a token)
  /\ (forall b, r2 = Answer b ->
     keys_of a2 token = if decide (token_digest token = h) then None else keys_of a token)
  /\ ((forall b, r1 <> Answer b) ->
      keys_of a1 token = keys_of a token
      \/ (forall t, keys_of a1 t = None) /\ serving (w_store (am_world a1)) = false)
  /\ (admin_digest = Some h -> flat a1 = flat a /\ flat a2 = flat a).
Proof.
  intros Hw Hp Hd. destruct (put_key_changed _ _ _ _ _ _ Hw Hp) as [Hcp Hap].
  destruct (delete_key_changed _ _ _ _ _ Hw Hd) as [Hcd Had].
  unfold keys_of, static_resolve, _resolve_token. split; [|split; [|split]].
  - intros b ->. cbn [changed] in Hcp. rewrite Hcp. by case_decide.
  - intros b ->. cbn [changed] in Hcd. rewrite Hcd. by case_decide.
  - intros Hno. assert (flat a1 = flat a \/ (flat a1 = [] /\ serving (w_store (am_world a1)) = false)) as [->|[-> Hs]].
    { destruct r1; [by destruct (Hno a0)|exact Hcp|exact Hcp]. }
    + by left.
    + by right.
  - auto.
Qed.
End endpoints.

(** ** A key's life *)

#[local] Instance admin_floats : FloatRepr := fun s => s.
Definition started : Admin := MkAdminState (run_iops "keys" [] boot_world [OpStart ok_start]) [].
Definition disk_full : op_env := MkOp ok_view RdOk WrFailsBefore.

Lemma started_ok : world_ok (am_world started).
Proof. apply run_iop_ok; [repeat constructor|exact I|exact boot_world_ok]. Qed.

Lemma key_administration_witness :
  let h := token_digest "abc" in
  let '(r1, a1) := put_key (JStr "admin") (Some (token_digest "root")) ok_env h "alice" started in
  let '(r2, a2) := delete_key (JStr "admin") (Some (token_digest "root")) ok_env h a1 in
  keys_of a1 "abc" = Some (MkPrincipal (JStr "alice") [] false) /\ keys_of a2 "abc" = None.
Proof.
  cbv zeta. set (h := token_digest "abc"). set (ad := Some (token_digest "root")).
  destruct (put_key (JStr "admin") ad ok_env h "alice" started) as [r1 a1] eqn:H1.
  destruct (delete_key (JStr "admin") ad ok_env h started) as [r2 a2] eqn:H2.
  destruct (delete_key (JStr "admin") ad ok_env h a1) as [r3 a3] eqn:H3.
  destruct (put_key (JStr "admin") ad ok_env h "alice" a1) as [r4 a4] eqn:H4.
  pose proof (put_key_world_ok (JStr "admin") ad ok_env h "alice" started r1 a1 eq_refl started_ok H1) as Hw1.
  destruct (key_administration (JStr "admin") ad ok_env h "alice" "abc" started a1 a2 r1 r2 started_ok H1 H2) as (Hp & _).
  destruct (key_administration (JStr "admin") ad ok_env h "alice" "abc" a1 a4 a3 r4 r3 Hw1 H4 H3) as (_ & Hd & _).
  assert (fst (put_key (JStr "admin") ad ok_env h "alice" started)
          = Answer (JObj [("hash", JStr h); ("id", JStr "alice")])) as R1 by (vm_compute; reflexivity).
  assert (fst (delete_key (JStr "admin") ad ok_env h
            (snd (put_key (JStr "admin") ad ok_env h "alice" started)))
          = Answer (JObj [("hash", JStr h); ("deleted", JBool true)])) as R3 by (vm_compute; reflexivity).
  rewrite H1 in R1, R3. cbn [fst snd] in R1, R3. rewrite H3 in R3. cbn [fst] in R3.
  split.
  - rewrite (Hp _ R1). apply decide_True. reflexivity.
  - rewrite (Hd _ R3). apply decide_True. reflexivity.
Defined.

(** The audit line precedes the write, so a deletion that fails is in the trail
    all the same. *)
Example failed_delete_is_audited :
  let '(_, a1) := put_key (JStr "admin") None ok_env (token_digest "abc") "alice" started in
  let '(r, a2) := delete_key (JStr "admin") None disk_full (token_digest "abc") a1 in
  r = Unhandled IOFailure /\ keys_of a2 "abc" <> None
  /\ am_audit a2 = am_audit a1 ++ [AuditDelete (token_digest "abc") (JStr "admin")].
Proof. vm_compute. done. Qed.
