(* ===== verification/Receipts.v ===== *)
(** * Recovery receipts and permits ([recovery.py])

    Native recovery re-admits captured events.  Its ledger is a SQLite database
    whose tables are lists here (in row order); a transaction is a function of
    the database.  Times are arguments, random tokens too.

    - payload sanitation, canonical digests, source capabilities and identities;
    - [RecoveryReceiptStore]: classification, admission, the monotone state
      machine of a receipt, quarantine and retry, the scrubbing rebuild;
    - [RecoveryAdmissionGate]: single-use permits bound to one event.

    The theorems are in [ReceiptSpec] (at most one receipt is ever outstanding; a
    receipt is admitted once; its state only moves forward) and [RecoveryGate] (a
    permit admits at most one event, the one it was issued for). *)
From stdpp Require Import base list strings.
From Stdlib Require Import ZArith Lia.
From S2P Require Import Prelude PyText Sha256 Utils Json JsonParse JsonIndent QueueFiles Auth Config.

#[local] Open Scope string_scope.
#[local] Open Scope list_scope.

(** ** Payloads *)

(** Local working directories are removed at every depth. *)
Fixpoint sanitize_recovery_payload (v : json) : json :=
  match v with
  | JObj o => JObj (omap (fun kv => if decide (kv.1 = "working_dir") then None
                                    else Some (kv.1, sanitize_recovery_payload kv.2)) o)
  | JArr l => JArr (map sanitize_recovery_payload l)
  | v => v
  end.

(** [sort_keys=True]: keys in the order of their code points, at every depth. *)
Fixpoint insert_key (kv : string * json) (l : list (string * json)) : list (string * json) :=
  match l with
  | [] => [kv]
  | x :: l' => if String.leb kv.1 x.1 then kv :: l else x :: insert_key kv l'
  end.
Fixpoint sort_keys (v : json) : json :=
  match v with
  | JObj o => JObj (foldr insert_key [] (map (fun kv => (kv.1, sort_keys kv.2)) o))
  | JArr l => JArr (map sort_keys l)
  | v => v
  end.

(** [separators=(",", ":"), ensure_ascii=False] *)
Fixpoint compact_text (v : json) : list Z :=
  match v with
  | JStr s => raw_str s
  | JArr l => [91]%Z ++ join [44]%Z (map compact_text l) ++ [93]%Z
  | JObj o => [123]%Z ++ join [44]%Z (map (fun kv => raw_str kv.1 ++ [58]%Z ++ compact_text kv.2) o) ++ [125]%Z
  | v => cps (json_dumps_compact v)
  end.

Definition hex_of (b : bytes) : string := str_of (sha256_hexdigest b).
Definition canonical_payload_digest (payload : json) : string := hex_of (utf8_encode (compact_text (sort_keys payload))).
(** [json.dumps(v, sort_keys=True, separators=(",", ":"))] *)
Definition sorted_dumps (v : json) : bytes := json_dumps_compact (sort_keys v).

(** ** Source capabilities and identities *)

Definition domain (s : string) : bytes := bytes_of s ++ [Byte.x00].
Definition _SOURCE_HANDLE_DOMAIN : bytes := domain "context-intelligence/recovery/source-handle/v1".
Definition _DESCRIPTOR_DOMAIN : bytes := domain "context-intelligence/recovery/source-descriptor/v1".
Definition _LEGACY_HANDLE_DOMAIN : bytes := domain "context-intelligence/recovery/legacy-source/v1".
Definition _EVENT_IDENTITY_DOMAIN : bytes := domain "context-intelligence/recovery/event-identity/v1".

(** The value of a base64url digit. *)
Definition b64url_digit (b : byte) : option Z :=
  let v := bZ b in
  if is_upper b then Some (v - 65)%Z
  else if is_lower b then Some (v - 71)%Z
  else if is_digit b then Some (v + 4)%Z
  else if (v =? 45)%Z then Some 62%Z
  else if (v =? 95)%Z then Some 63%Z
  else None.

(** Groups of four digits; a last group of three stands for two bytes, and its
    spare bits are ignored, as [b64decode] does. *)
Fixpoint b64url_bytes (ds : list Z) : list Z :=
  match ds with
  | a :: b :: c :: d :: ds =>
    (a * 4 + Z.shiftr b 4)%Z :: (Z.land b 15 * 16 + Z.shiftr c 2)%Z :: (Z.land c 3 * 64 + d)%Z :: b64url_bytes ds
  | [a; b; c] => [(a * 4 + Z.shiftr b 4)%Z; (Z.land b 15 * 16 + Z.shiftr c 2)%Z]
  | _ => []
  end.

Definition source_handle_from_capability (capability : option string) : option string :=
  match capability with
  | None => None
  | Some c =>
    if negb (bool_decide (length (bytes_of c) = 43)) then None
    else match mapM b64url_digit (bytes_of c) with
         | Some ds => Some (hex_of (_SOURCE_HANDLE_DOMAIN ++ map byte_of_Z (b64url_bytes ds)))
         | None => None
         end
  end.

Definition _SHA256_HEX (s : string) : bool := is_digest s.

Definition recovery_event_identity (source_handle : string) (ordinal : Z) : result string :=
  if negb (_SHA256_HEX source_handle) || (ordinal <? 0)%Z then Err ValueError
  else Ok ("recovery-" +:+ hex_of (_EVENT_IDENTITY_DOMAIN ++ utf8_encode (compact_text (sort_keys
             (JObj [("ordinal", JInt ordinal); ("source_handle", JStr source_handle)]))))).

Definition source_descriptor_digest (descriptor : json) : string :=
  hex_of (_DESCRIPTOR_DOMAIN ++ sorted_dumps descriptor).

Definition zeros64 : string := str_of (replicate 64 Byte.x30).
(** [origin.get(k, default)] *)
Definition legacy_source_descriptor (origin : list (string * json)) : json :=
  JObj [("protocol", JStr "legacy-recovery-lease-v1");
        ("session_id", jget_default "session_id" (JStr "legacy-unknown") origin);
        ("source_stream_sha256", jget_default "source_stream_sha256" (JStr zeros64) origin);
        ("source_sha256", jget_default "source_stream_sha256" (JStr zeros64) origin);
        ("record_count", JInt 0)].
Definition legacy_source_handle (origin : list (string * json)) : string :=
  hex_of (_LEGACY_HANDLE_DOMAIN ++ sorted_dumps (legacy_source_descriptor origin)).

Definition _QUARANTINED_SOURCE_SESSION : string := "quarantined-invalid-source-v1".
Definition _quarantined_source_descriptor : json :=
  JObj [("protocol", JStr "native-recovery-source-v1"); ("session_id", JStr _QUARANTINED_SOURCE_SESSION);
        ("source_stream_sha256", JStr zeros64); ("source_sha256", JStr zeros64); ("record_count", JInt 0)].

Definition safe_id (v : json) : bool := match v with JStr s => is_safe_session_id s | _ => false end.
Definition hex_field (v : json) : bool := match v with JStr s => _SHA256_HEX s | _ => false end.

(** [isinstance(n, int) and n >= 0]; a [bool] is an [int]. *)
Definition nat_field (v : json) : bool :=
  match v with JInt n => (0 <=? n)%Z | JBool _ => true | _ => false end.

Definition str_is (v : json) (s : string) : bool := match v with JStr x => bool_decide (x = s) | _ => false end.

Definition descriptor_keys : list string :=
  ["protocol"; "session_id"; "source_stream_sha256"; "source_sha256"; "record_count"].
Definition _valid_source_descriptor (v : json) : bool :=
  match v with
  | JObj o =>
    forallb (fun k => dmem k o) descriptor_keys && forallb (fun kv => bool_decide (kv.1 ∈ descriptor_keys)) o
    && (str_is (jget "protocol" o) "native-recovery-source-v1" || str_is (jget "protocol" o) "legacy-recovery-lease-v1")
    && safe_id (jget "session_id" o) && hex_field (jget "source_stream_sha256" o)
    && hex_field (jget "source_sha256" o) && nat_field (jget "record_count" o)
  | _ => false
  end.

(** ** Stored payloads *)

(** Equality of dynamic values that share their key order. *)
Fixpoint json_eqb (a b : json) {struct a} : bool :=
  match a, b with
  | JNull, JNull => true
  | JBool x, JBool y => Bool.eqb x y
  | JInt x, JInt y => (x =? y)%Z
  | JFloat x, JFloat y => bool_decide (x = y)
  | JStr x, JStr y => bool_decide (x = y)
  | JArr x, JArr y =>
    (fix go l m := match l, m with
                   | [], [] => true
                   | a :: l, b :: m => json_eqb a b && go l m
                   | _, _ => false
                   end) x y
  | JObj x, JObj y =>
    (fix go l m := match l, m with
                   | [], [] => true
                   | (k, a) :: l, (k', b) :: m => bool_decide (k = k') && json_eqb a b && go l m
                   | _, _ => false
                   end) x y
  | _, _ => false
  end.

Section payload.
Context `{Timestamps}.

Definition _has_replayable_envelope (payload : list (string * json)) : bool :=
  match jget "event" payload, jget "workspace" payload with
  | JStr _, JStr w =>
    if bool_decide (py_strip w = "") then false
    else match jget "idempotency_key" payload with
    | JNull | JStr _ =>
      match jget "data" payload with
      | JObj d =>
        match jget "timestamp" d with
        | JStr t => negb (bool_decide (py_strip t = ""))
                    && match fromisoformat t with Some _ => true | None => false end
        | _ => false
        end
      | _ => false
      end
    | _ => false
    end
  | _, _ => false
  end.

(** The scrubbed payload, and whether it must not be replayed. *)
Definition _sanitize_stored_payload (v : json) : list (string * json) * bool :=
  match sanitize_recovery_payload v with
  | JObj o =>
    let '(o, invalid) :=
      match jget "data" o with
      | JObj d => if safe_id (jget "session_id" d) then (o, false)
                  else (dset "data" (JObj (ddel "session_id" d)) o, true)
      | _ => (o, true)
      end in
    (o, invalid || negb (_has_replayable_envelope o))
  | _ => ([], true)
  end.
End payload.

(** ** The ledger *)

Inductive rstate :=
  | PendingEnqueue | RetryPending | Enqueued | CommittedPending | Written | Quarantined
  | Queued.                              (** only in databases of older versions *)
#[export] Instance rstate_eq_dec : EqDecision rstate.
Proof. solve_decision. Defined.

Definition _PENDING : list rstate := [PendingEnqueue; RetryPending; Enqueued; CommittedPending].
Definition pending (st : rstate) : bool := bool_decide (st ∈ _PENDING).

(** A row of [recovery_receipts]; [re_payload] is JSON text, empty once written. *)
Record Receipt := MkReceipt {
  re_handle : string;
  re_ordinal : Z;
  re_line : string;
  re_actor : string;
  re_workspace : string;
  re_digest : string;
  re_payload : bytes;
  re_state : rstate;
}.
Definition re_key (r : Receipt) : string * Z := (re_handle r, re_ordinal r).

Record Conflict := MkConflict {
  co_stored_descriptor : option string; co_received_descriptor : option string;
  co_stored_line : option string; co_received_line : option string;
  co_stored_payload : option string; co_received_payload : option string;
}.

Record Ledger := MkLedger {
  db_sources : list (string * (string * bytes));         (** handle, digest, descriptor text *)
  db_receipts : list Receipt;                            (** in rowid order *)
  db_conflicts : list ((string * string * Z) * Conflict);
  db_leases : list string;
}.
Definition empty_ledger : Ledger := MkLedger [] [] [] [].

Definition with_receipts (rs : list Receipt) (db : Ledger) : Ledger :=
  MkLedger (db_sources db) rs (db_conflicts db) (db_leases db).

Definition find_receipt (h : string) (n : Z) (rs : list Receipt) : option Receipt :=
  head (filter (fun r => re_key r = (h, n)) rs).
Definition any_pending (rs : list Receipt) : bool := existsb (fun r => pending (re_state r)) rs.

(** [INSERT ... ON CONFLICT DO UPDATE]: only what was received is refreshed. *)
Definition merge_conflict (old new : Conflict) : Conflict :=
  let coalesce (a b : option string) := match a with Some _ => a | None => b end in
  MkConflict (co_stored_descriptor old) (coalesce (co_received_descriptor new) (co_received_descriptor old))
    (co_stored_line old) (coalesce (co_received_line new) (co_received_line old))
    (co_stored_payload old) (coalesce (co_received_payload new) (co_received_payload old)).
Definition _record_conflict (h kind : string) (n : Z) (c : Conflict) (db : Ledger) : Ledger :=
  let key := (h, kind, n) in
  let c := match dget key (db_conflicts db) with Some old => merge_conflict old c | None => c end in
  MkLedger (db_sources db) (db_receipts db) (dset key c (db_conflicts db)) (db_leases db).

Inductive classification := New | Duplicate | ConflictFound | Foreign.
Inductive admission := Accepted | AdmitDuplicate | AdmitConflict | Busy.

(** The event of a capture: its ordinal and the digest of its line. *)
Record Origin := MkOrigin { or_ordinal : Z; or_line : string }.

(** [_source_state]: [true] when the handle is bound to another descriptor. *)
Definition _source_state (h : string) (descriptor : json) (db : Ledger) : bool * Ledger :=
  let digest := source_descriptor_digest descriptor in
  match dget h (db_sources db) with
  | Some (stored, _) =>
    if bool_decide (stored = digest) then (false, db)
    else (true, _record_conflict h "descriptor" (-1)
                  (MkConflict (Some stored) (Some digest) None None None None) db)
  | None => (false, db)
  end.

Definition ordinal_conflict (r : Receipt) (o : Origin) (digest : string) : Conflict :=
  MkConflict None None (Some (re_line r)) (Some (or_line o)) (Some (re_digest r)) (Some digest).

Definition classify_source (h : string) (descriptor : json) (o : Origin) (actor workspace digest : string)
    (db : Ledger) : classification * Ledger :=
  let '(bad, db) := _source_state h descriptor db in
  if bad then (ConflictFound, db)
  else match find_receipt h (or_ordinal o) (db_receipts db) with
  | None => (New, db)
  | Some r =>
    if bool_decide (re_line r = or_line o) && bool_decide (re_digest r = digest) then
      (if bool_decide (re_actor r = actor) && bool_decide (re_workspace r = workspace) then Duplicate else Foreign, db)
    else (ConflictFound, _record_conflict h "ordinal" (or_ordinal o) (ordinal_conflict r o digest) db)
  end.

(** [admit_source]; [lease] is [_allowed_lease_id(lease_path)]. *)
Definition admit_source (h : string) (descriptor : json) (o : Origin) (actor workspace : string) (payload : json)
    (lease : option string) (require_lease : bool) (db : Ledger) : admission * Ledger :=
  let payload := sanitize_recovery_payload payload in
  let encoded := sorted_dumps payload in
  let digest := canonical_payload_digest payload in
  let '(bad, db) := _source_state h descriptor db in
  if bad then (AdmitConflict, db)
  else match find_receipt h (or_ordinal o) (db_receipts db) with
  | Some r =>
    if bool_decide (re_line r = or_line o) && bool_decide (re_digest r = digest) then
      (if bool_decide (re_actor r = actor) && bool_decide (re_workspace r = workspace) then AdmitDuplicate else Busy, db)
    else (AdmitConflict, _record_conflict h "ordinal" (or_ordinal o) (ordinal_conflict r o digest) db)
  | None =>
    if any_pending (db_receipts db) then (Busy, db)
    else
      let consumed := if require_lease then
                        match lease with
                        | None => None
                        | Some l => if bool_decide (l ∈ db_leases db) then None else Some (db_leases db ++ [l])
                        end
                      else Some (db_leases db) in
      match consumed with
      | None => (Busy, db)
      | Some leases =>
        let sources := match dget h (db_sources db) with
                       | Some _ => db_sources db
                       | None => db_sources db ++ [(h, (source_descriptor_digest descriptor, sorted_dumps descriptor))]
                       end in
        (Accepted, MkLedger sources
           (db_receipts db ++ [MkReceipt h (or_ordinal o) (or_line o) actor workspace digest encoded PendingEnqueue])
           (db_conflicts db) leases)
      end
  end.

Definition has_pending (db : Ledger) : bool := any_pending (db_receipts db).

(** [mark]: which states may precede the new one. *)
Definition allowed_previous (st : rstate) : list rstate :=
  match st with
  | PendingEnqueue => [PendingEnqueue; RetryPending; Enqueued]
  | RetryPending => [RetryPending]
  | Enqueued => [PendingEnqueue; RetryPending; Enqueued]
  | CommittedPending => [Enqueued; CommittedPending]
  | Written => [PendingEnqueue; RetryPending; Enqueued; CommittedPending; Written]
  | Quarantined => [PendingEnqueue; RetryPending; Enqueued; CommittedPending; Quarantined]
  | Queued => []
  end.

Definition set_state (st : rstate) (r : Receipt) : Receipt :=
  MkReceipt (re_handle r) (re_ordinal r) (re_line r) (re_actor r) (re_workspace r) (re_digest r)
    (if decide (st = Written) then [] else re_payload r) st.
(** [UPDATE ... WHERE source_handle=? AND ordinal=? AND state IN (...)] *)
Definition update_where (h : string) (n : Z) (from : list rstate) (st : rstate) (rs : list Receipt) : list Receipt :=
  map (fun r => if bool_decide (re_key r = (h, n)) && bool_decide (re_state r ∈ from) then set_state st r else r) rs.
Definition row_in (h : string) (n : Z) (from : list rstate) (rs : list Receipt) : bool :=
  match find_receipt h n rs with Some r => bool_decide (re_state r ∈ from) | None => false end.

Definition mark (h : string) (n : Z) (st : rstate) (db : Ledger) : result bool * Ledger :=
  match find_receipt h n (db_receipts db) with
  | None => (Err RuntimeError, db)
  | Some _ => (Ok (row_in h n (allowed_previous st) (db_receipts db)),
               with_receipts (update_where h n (allowed_previous st) st (db_receipts db)) db)
  end.

Definition is_flushable (h : string) (n : Z) (db : Ledger) : bool := row_in h n (Written :: _PENDING) (db_receipts db).

(** Reset one quarantined receipt when nothing is outstanding. *)
Definition requeue_quarantined (h : string) (n : Z) (db : Ledger) : bool * Ledger :=
  if any_pending (db_receipts db) then (false, db)
  else (row_in h n [Quarantined] (db_receipts db),
        with_receipts (update_where h n [Quarantined] RetryPending (db_receipts db)) db).

Definition quarantine_pending (h : string) (n : Z) (db : Ledger) : Ledger :=
  with_receipts (update_where h n _PENDING Quarantined (db_receipts db)) db.

(** [status()]: how many receipts are in each state. *)
Definition status_count (st : rstate) (db : Ledger) : nat := length (filter (fun r => re_state r = st) (db_receipts db)).
Definition pending_receipts (db : Ledger) : list (string * Z * rstate) :=
  map (fun r => (re_handle r, re_ordinal r, re_state r)) (filter (fun r => pending (re_state r) = true) (db_receipts db)).

(** ** Reading the outbox *)

Section reading.
Context `{FloatRepr, Timestamps}.

Record Outbox := MkOutbox {
  ob_handle : string;
  ob_source : list (string * json);
  ob_origin : Origin;
  ob_actor : string;
  ob_workspace : string;
  ob_payload : list (string * json);
  ob_state : rstate;
}.

(** A stored text as an object; anything else is inert. *)
Definition obj_text (b : bytes) : option (list (string * json)) :=
  match loads_bytes b with Ok (JObj o) => Some o | _ => None end.

Definition origin_of (r : Receipt) : Origin := MkOrigin (re_ordinal r) (re_line r).

Definition _pending_outbox_row (descriptor : bytes) (r : Receipt) : option Outbox :=
  match obj_text descriptor, obj_text (re_payload r) with
  | Some source, Some payload =>
    Some (MkOutbox (re_handle r) source (origin_of r) (re_actor r) (re_workspace r) payload (re_state r))
  | _, _ => None
  end.

(** The pending receipts joined with their sources, in row order. *)
Definition pending_outbox (db : Ledger) : list Outbox :=
  omap (fun r => if pending (re_state r) then
                   match dget (re_handle r) (db_sources db) with
                   | Some (_, descriptor) => _pending_outbox_row descriptor r
                   | None => None
                   end
                 else None) (db_receipts db).

(** The oldest quarantined receipt that may be replayed. *)
Definition next_quarantined (db : Ledger) : option (Receipt * list (string * json)) :=
  head (omap (fun r => if decide (re_state r = Quarantined) then
                         match loads_bytes (re_payload r) with
                         | Ok v => let '(payload, unsafe) := _sanitize_stored_payload v in
                                   if unsafe then None else Some (r, payload)
                         | Err _ => None
                         end
                       else None) (db_receipts db)).

Definition pending_receipt (h : string) (n : Z) (db : Ledger) : option (Receipt * list (string * json)) :=
  match find_receipt h n (db_receipts db) with
  | Some r => if pending (re_state r) then pair r <$> obj_text (re_payload r) else None
  | None => None
  end.

(** [_allowed_lease_id]: the contents of the lease file, and whether a number
    lies after the present time. *)
Definition _allowed_lease_id (file : option bytes) (after_now : json -> bool) : option string :=
  match file ≫= obj_text with
  | Some o =>
    match jget "allow" o, jget "expires_at" o, jget "lease_id" o with
    | JBool true, (JInt _ | JFloat _ | JBool _) as e, JStr l =>
      if after_now e && negb (bool_decide (l = "")) then Some l else None
    | _, _, _ => None
    end
  | None => None
  end.

(** ** Scrubbing an existing database *)

Definition needs_scrub (r : Receipt) : bool :=
  match re_payload r with
  | [] => pending (re_state r)
  | b => match loads_bytes b with
         | Err _ => true
         | Ok v => let '(o, invalid) := _sanitize_stored_payload v in invalid || negb (json_eqb (JObj o) v)
         end
  end.

Definition valid_stored_descriptor (text : bytes) : bool :=
  match loads_bytes text with Ok v => _valid_source_descriptor v | Err _ => false end.

Definition _current_database_needs_sanitization_locked (db : Ledger) : bool :=
  existsb (fun s => negb (valid_stored_descriptor s.2.2)) (db_sources db) || existsb needs_scrub (db_receipts db).

Definition scrub_source (s : string * (string * bytes)) : result (string * (string * bytes)) :=
  if negb (_SHA256_HEX s.1) then Err RuntimeError
  else
    let descriptor := match loads_bytes s.2.2 with
                      | Ok v => if _valid_source_descriptor v then v else _quarantined_source_descriptor
                      | Err _ => _quarantined_source_descriptor
                      end in
    Ok (s.1, (source_descriptor_digest descriptor, sorted_dumps descriptor)).

(** The state a scrubbed receipt is stored with. *)
Definition scrubbed_state (st : rstate) (bad : bool) : rstate :=
  let st := if decide (st = Queued) then PendingEnqueue else st in
  if pending st && bad then Quarantined else st.

Definition scrub_receipt (sources : list (string * (string * bytes))) (r : Receipt) : result Receipt :=
  match dget (re_handle r) sources with
  | None => Err RuntimeError
  | Some (_, descriptor) =>
    if (re_ordinal r <? 0)%Z || negb (_SHA256_HEX (re_line r)) || negb (_SHA256_HEX (re_digest r)) then Err RuntimeError
    else
      let '(payload, digest, invalid) :=
        match re_payload r with
        | [] => ([], re_digest r, negb (bool_decide (re_state r = Written)))
        | b => let '(o, invalid) := match loads_bytes b with
                                    | Ok v => _sanitize_stored_payload v
                                    | Err _ => ([], true)
                                    end in
               (sorted_dumps (JObj o), canonical_payload_digest (JObj o), invalid)
        end in
      Ok (MkReceipt (re_handle r) (re_ordinal r) (re_line r) (re_actor r) (re_workspace r) digest payload
            (scrubbed_state (re_state r) (negb (valid_stored_descriptor descriptor) || invalid)))
  end.

(** Rows in order; the first failure aborts the rebuild. *)
Fixpoint rmap {A B} (f : A -> result B) (l : list A) : result (list B) :=
  match l with
  | [] => Ok []
  | x :: l => let? y := f x in let? ys := rmap f l in Ok (y :: ys)
  end.

Definition opt_hex (v : option string) : bool := match v with Some s => _SHA256_HEX s | None => true end.
Definition conflict_ok (c : (string * string * Z) * Conflict) : bool :=
  let '((h, _, n), x) := c in
  _SHA256_HEX h && (-1 <=? n)%Z && opt_hex (co_stored_descriptor x) && opt_hex (co_received_descriptor x)
  && opt_hex (co_stored_line x) && opt_hex (co_received_line x)
  && opt_hex (co_stored_payload x) && opt_hex (co_received_payload x).

(** The replacement database; the old one stays in place when this fails. *)
Definition _rebuild_current_database_locked (db : Ledger) : result Ledger :=
  let? sources := rmap scrub_source (db_sources db) in
  let? receipts := rmap (scrub_receipt (db_sources db)) (db_receipts db) in
  if negb (forallb conflict_ok (db_conflicts db)) then Err RuntimeError
  else if existsb (fun l => bool_decide (l = "")) (db_leases db) then Err RuntimeError
  else Ok (MkLedger sources receipts (db_conflicts db) (db_leases db)).

(** A row of the schema before source capabilities. *)
Record LegacyRow := MkLegacy {
  lg_session : string; lg_stream : string; lg_ordinal : Z; lg_line : string; lg_actor : string;
  lg_workspace : string; lg_digest : string; lg_payload : bytes; lg_state : rstate;
}.

Definition legacy_origin (g : LegacyRow) : list (string * json) :=
  [("session_id", JStr (lg_session g)); ("source_stream_sha256", JStr (lg_stream g));
   ("ordinal", JInt (lg_ordinal g)); ("source_line_sha256", JStr (lg_line g))].

Definition migrate_row (g : LegacyRow) : result ((string * (string * bytes)) * Receipt) :=
  let handle := legacy_source_handle (legacy_origin g) in
  let bad_source := negb (is_safe_session_id (lg_session g)) in
  let descriptor := if bad_source then _quarantined_source_descriptor
                    else legacy_source_descriptor (legacy_origin g) in
  let state := if decide (lg_state g = Queued) then PendingEnqueue else lg_state g in
  let? row :=
    match lg_payload g with
    | [] => if decide (state = Written) then Ok ([], lg_digest g, false) else Err RuntimeError
    | b => match loads_bytes b with
           | Ok (JObj o) => let '(o, invalid) := _sanitize_stored_payload (JObj o) in
                            Ok (sorted_dumps (JObj o), canonical_payload_digest (JObj o), invalid)
           | _ => Err RuntimeError
           end
    end in
  let '(payload, digest, invalid) := row in
  Ok ((handle, (source_descriptor_digest descriptor, sorted_dumps descriptor)),
      MkReceipt handle (lg_ordinal g) (lg_line g) (lg_actor g) (lg_workspace g) digest payload
        (scrubbed_state state (bad_source || invalid))).

(** Insert the migrated rows one by one; a second row with the same key is an
    integrity error. *)
Fixpoint migrate_rows (gs : list LegacyRow) (db : Ledger) : result Ledger :=
  match gs with
  | [] => Ok db
  | g :: gs =>
    let? sr := migrate_row g in
    let '(s, r) := sr in
    if bool_decide (re_key r ∈ map re_key (db_receipts db)) then Err OtherError
    else
      let sources := match dget s.1 (db_sources db) with Some _ => db_sources db | None => db_sources db ++ [s] end in
      migrate_rows gs (MkLedger sources (db_receipts db ++ [r]) (db_conflicts db) (db_leases db))
  end.

Definition _rebuild_legacy_database_locked (gs : list LegacyRow) (leases : list string) : result Ledger :=
  let? db := migrate_rows gs empty_ledger in
  if existsb (fun l => bool_decide (l = "")) leases then Err RuntimeError
  else Ok (MkLedger (db_sources db) (db_receipts db) [] leases).

(** [_create_current_schema_locked] also renames the one old state. *)
Definition _create_current_schema_locked (db : Ledger) : Ledger :=
  with_receipts (map (fun r => if decide (re_state r = Queued) then set_state PendingEnqueue r else r) (db_receipts db)) db.

(** What is on disk at start-up. *)
Inductive stored_db := NoDatabase | LegacyDb (rows : list LegacyRow) (leases : list string) | CurrentDb (db : Ledger).
Definition _initialize_locked (s : stored_db) : result Ledger :=
  let? db := match s with
             | NoDatabase => Ok empty_ledger
             | LegacyDb rows leases => _rebuild_legacy_database_locked rows leases
             | CurrentDb db => if _current_database_needs_sanitization_locked db
                               then _rebuild_current_database_locked db else Ok db
             end in
  Ok (_create_current_schema_locked db).
End reading.
