(* ===== verification/Payloads.v ===== *)
(** * Recovery payloads that survive the scrub

    What a stored payload or descriptor is after being sanitised, written with
    sorted keys, read back and scrubbed once more: writing sorts, sorting twice is
    sorting once, and a value without working directories is left alone. *)
From stdpp Require Import base list gmap strings sorting.
From Stdlib Require Import ZArith Lia Sorted.
From S2P Require Import Prelude PyText Sha256 Utils Json JsonParse JsonIndent QueueFiles Auth Config Receipts.

#[local] Open Scope string_scope.
#[local] Open Scope list_scope.

Lemma map_id_in {A} (f : A -> A) l : (forall x, x ∈ l -> f x = x) -> map f l = l.
Proof.
  induction l as [|x l IH]; intros Hf; [done|]. cbn [map]. rewrite Hf by left. f_equal. apply IH.
  intros y Hy. apply Hf. by right.
Qed.

Section stored.
Context `{FloatRepr}.

(** A value that survives being written and read. *)
Definition wire (v : json) : Prop := json_ok v /\ floats_ok v = true.

Lemma wire_arr l : wire (JArr l) <-> Forall wire l.
Proof.
  unfold wire. cbn [json_ok floats_ok]. rewrite fold_right_Forall, forallb_forall, !Forall_forall.
  setoid_rewrite <- list_elem_of_In. naive_solver.
Qed.
Lemma wire_obj o : wire (JObj o) <-> NoDup (dkeys o) /\ Forall (fun kv => utf8_valid (bytes_of kv.1) = true /\ wire kv.2) o.
Proof.
  unfold wire. cbn [json_ok floats_ok]. rewrite fold_right_Forall, forallb_forall, !Forall_forall.
  setoid_rewrite <- list_elem_of_In. naive_solver.
Qed.

Definition kept (kv : string * json) : option (string * json) :=
  if decide (kv.1 = "working_dir") then None else Some (kv.1, sanitize_recovery_payload kv.2).
Definition sanitized (o : list (string * json)) : list (string * json) := omap kept o.
Lemma sanitize_obj o : sanitize_recovery_payload (JObj o) = JObj (sanitized o).
Proof. reflexivity. Qed.

Lemma dkeys_sanitized o : dkeys (sanitized o) = base.filter (fun k => k <> "working_dir") (dkeys o).
Proof.
  induction o as [|[k v] o IH]; [done|]. cbn [dkeys map fst]. fold (dkeys o). rewrite filter_cons, <- IH.
  unfold sanitized. cbn [omap list_omap]. unfold kept at 1. cbn [fst snd]. destruct (decide (k = "working_dir")) as [E|E].
  - by rewrite decide_False by (by intros []).
  - by rewrite decide_True.
Qed.

Lemma wire_sanitize v : wire v -> wire (sanitize_recovery_payload v).
Proof.
  induction v as [|b|z|s|s|l IH|o IH] using json_nested_ind; try done.
  - cbn [sanitize_recovery_payload]. rewrite !wire_arr. intros Hl. apply Forall_map.
    eapply Forall_impl; [apply Forall_and; split; [exact IH|exact Hl]|]. intros x []. auto.
  - rewrite sanitize_obj, !wire_obj. intros [Hnd Ho].
    split; [rewrite dkeys_sanitized; by apply NoDup_filter|]. apply Forall_forall. intros kv Hin.
    apply list_elem_of_omap in Hin as (x & Hin & Hkv). unfold kept in Hkv. case_decide; [done|]. simplify_eq.
    rewrite Forall_forall in IH, Ho. destruct (Ho _ Hin). split; [done|]. by apply (IH _ Hin).
Qed.

Lemma dget_sanitized k o : k <> "working_dir" -> dget k (sanitized o) = sanitize_recovery_payload <$> dget k o.
Proof.
  intros Hk. induction o as [|[k0 v] o IH]; [done|]. unfold sanitized in *. cbn [omap list_omap].
  unfold kept at 1. cbn [fst snd]. destruct (decide (k0 = "working_dir")) as [->|Hne].
  - rewrite IH. cbn [dget]. by rewrite decide_False by congruence.
  - cbn [dget]. case_decide; [done|exact IH].
Qed.

Definition sorted (o : list (string * json)) : list (string * json) :=
  foldr insert_key [] (map (fun kv => (kv.1, sort_keys kv.2)) o).
Lemma sort_obj o : sort_keys (JObj o) = JObj (sorted o).
Proof. reflexivity. Qed.

Lemma insert_key_perm kv l : insert_key kv l ≡ₚ kv :: l.
Proof.
  induction l as [|x l IH]; [done|]. cbn [insert_key]. case_match; [done|]. rewrite IH. constructor.
Qed.

Lemma sorted_perm (o : list (string * json)) : sorted o ≡ₚ map (fun kv => (kv.1, sort_keys kv.2)) o.
Proof.
  unfold sorted. induction o as [|kv o IH]; [done|]. cbn [map foldr]. by rewrite insert_key_perm, IH.
Qed.

Lemma dkeys_mapped (o : list (string * json)) : dkeys (map (fun kv => (kv.1, sort_keys kv.2)) o) = dkeys o.
Proof. unfold dkeys. rewrite map_map. done. Qed.

Lemma sorted_nodup (o : list (string * json)) : NoDup (dkeys o) -> NoDup (dkeys (sorted o)).
Proof.
  intros Hnd. assert (Hp : dkeys (sorted o) ≡ₚ dkeys o).
  { rewrite <- (dkeys_mapped o). unfold dkeys. apply Permutation_map, sorted_perm. }
  by rewrite Hp.
Qed.

Lemma wire_sort v : wire v -> wire (sort_keys v).
Proof.
  induction v as [|b|z|s|s|l IH|o IH] using json_nested_ind; try done.
  - cbn [sort_keys]. rewrite !wire_arr. intros Hl. apply Forall_map.
    eapply Forall_impl; [apply Forall_and; split; [exact IH|exact Hl]|]. intros x []. auto.
  - rewrite sort_obj, !wire_obj. intros [Hnd Ho]. split; [by apply sorted_nodup|]. rewrite sorted_perm.
    apply Forall_map. rewrite Forall_forall in IH, Ho |- *. intros kv Hin. destruct (Ho _ Hin). split; [done|]. by apply (IH _ Hin).
Qed.

Lemma dget_perm {A} k (l l' : list (string * A)) : NoDup (dkeys l) -> l ≡ₚ l' -> dget k l = dget k l'.
Proof.
  intros Hnd Hp. assert (Hnd' : NoDup (dkeys l')) by (unfold dkeys in *; by rewrite <- (Permutation_map fst Hp)).
  destruct (dget k l) as [v|] eqn:Hg.
  - apply dget_elem in Hg. rewrite Hp in Hg. symmetry. by apply elem_dget.
  - destruct (dget k l') as [v|] eqn:Hg'; [|done]. apply dget_elem in Hg'. rewrite <- Hp in Hg'.
    apply elem_dget in Hg'; [congruence|done].
Qed.

Lemma dget_sorted k (o : list (string * json)) : NoDup (dkeys o) -> dget k (sorted o) = sort_keys <$> dget k o.
Proof.
  intros Hnd. rewrite (dget_perm k (sorted o) (map (fun kv => (kv.1, sort_keys kv.2)) o)); [| |apply sorted_perm].
  - clear Hnd. induction o as [|[k0 v] o IH]; [done|]. cbn [map dget fst snd]. case_decide; [done|exact IH].
  - by apply sorted_nodup.
Qed.

(** ** Sorting twice *)

Definition key_le (a b : string * json) : Prop := String.leb a.1 b.1 = true.

Lemma insert_key_sorted kv l : Sorted key_le l -> Sorted key_le (insert_key kv l).
Proof.
  induction 1 as [|x l Hl IH Hx]; cbn [insert_key]; [by repeat constructor|].
  destruct (String.leb kv.1 x.1) eqn:E; [repeat constructor; done|].
  assert (Hxk : key_le x kv) by (destruct (String.leb_total kv.1 x.1); [congruence|done]).
  constructor; [done|]. destruct l as [|y l]; cbn [insert_key]; [by constructor|].
  destruct (String.leb kv.1 y.1); constructor; [done|]. by inversion Hx.
Qed.

Lemma sorted_Sorted o : Sorted key_le (sorted o).
Proof. unfold sorted. induction o as [|kv o IH]; cbn [map foldr]; [constructor|by apply insert_key_sorted]. Qed.

Lemma insert_keys_id l : Sorted key_le l -> foldr insert_key [] l = l.
Proof.
  induction 1 as [|x l Hl IH Hx]; [done|]. cbn [foldr]. rewrite IH. destruct Hx as [|y l Hy]; [done|].
  cbn [insert_key]. unfold key_le in Hy. by rewrite Hy.
Qed.

Lemma sort_keys_idem v : sort_keys (sort_keys v) = sort_keys v.
Proof.
  induction v as [|b|z|s|s|l IH|o IH] using json_nested_ind; try done.
  - cbn [sort_keys]. f_equal. rewrite map_map. apply map_ext_Forall. exact IH.
  - rewrite !sort_obj. f_equal. unfold sorted at 1.
    assert (E : map (fun kv => (kv.1, sort_keys kv.2)) (sorted o) = sorted o).
    { apply map_id_in. intros kv Hin. rewrite sorted_perm in Hin. apply list_elem_of_fmap in Hin as (x & -> & Hx).
      cbn [fst snd]. rewrite Forall_forall in IH. by rewrite (IH _ Hx). }
    rewrite E. apply insert_keys_id, sorted_Sorted.
Qed.

(** ** What the scrub leaves alone *)

(** No working directory at any depth. *)
Fixpoint clean (v : json) : Prop :=
  match v with
  | JArr l => fold_right (fun x P => clean x /\ P) True l
  | JObj o => fold_right (fun kv P => (kv.1 <> "working_dir" /\ clean kv.2) /\ P) True o
  | _ => True
  end.
Lemma clean_obj o : clean (JObj o) <-> Forall (fun kv => kv.1 <> "working_dir" /\ clean kv.2) o.
Proof. cbn [clean]. apply fold_right_Forall. Qed.
Lemma clean_arr l : clean (JArr l) <-> Forall clean l.
Proof. cbn [clean]. apply fold_right_Forall. Qed.

Lemma clean_sanitize v : clean (sanitize_recovery_payload v).
Proof.
  induction v as [|b|z|s|s|l IH|o IH] using json_nested_ind; try done.
  - cbn [sanitize_recovery_payload]. rewrite clean_arr. by apply Forall_map.
  - rewrite sanitize_obj, clean_obj. apply Forall_forall. intros kv Hin.
    apply list_elem_of_omap in Hin as (x & Hin & Hkv). unfold kept in Hkv. case_decide; [done|]. simplify_eq.
    rewrite Forall_forall in IH. split; [done|]. by apply (IH _ Hin).
Qed.

Lemma clean_sort v : clean v -> clean (sort_keys v).
Proof.
  induction v as [|b|z|s|s|l IH|o IH] using json_nested_ind; try done.
  - cbn [sort_keys]. rewrite !clean_arr. intros Hl. apply Forall_map.
    eapply Forall_impl; [apply Forall_and; split; [exact IH|exact Hl]|]. intros x []. auto.
  - rewrite sort_obj, !clean_obj. intros Ho. rewrite sorted_perm. apply Forall_map.
    rewrite Forall_forall in IH, Ho |- *. intros kv Hin. destruct (Ho _ Hin). split; [done|]. by apply (IH _ Hin).
Qed.

Lemma clean_fixed v : clean v -> sanitize_recovery_payload v = v.
Proof.
  induction v as [|b|z|s|s|l IH|o IH] using json_nested_ind; try done.
  - cbn [sanitize_recovery_payload]. rewrite clean_arr. intros Hl. f_equal. apply map_id_in. intros x Hx.
    rewrite Forall_forall in IH, Hl. auto.
  - rewrite sanitize_obj, clean_obj. intros Ho. f_equal. unfold sanitized.
    induction Ho as [|[k v] o [Hk Hv] Ho IHo]; [done|]. apply Forall_cons in IH as [IHv IH].
    cbn [omap list_omap]. unfold kept at 1. cbn [fst snd] in *. rewrite decide_False by done. by rewrite IHv, IHo.
Qed.
End stored.

(** ** Rows the scrub leaves alone *)

Section scrub.
Context `{FloatRepr, Timestamps}.

Lemma read_sorted v : wire v -> loads_bytes (sorted_dumps v) = Ok (sort_keys v).
Proof.
  intros [Hj Hf]%wire_sort. unfold loads_bytes, sorted_dumps.
  rewrite decode_printable by (apply dumps_printable; [printable_lit..|done]). by apply loads_dumps_compact.
Qed.

Lemma jget_sorted k o : NoDup (dkeys o) -> jget k (sorted o) = sort_keys (jget k o).
Proof. intros Ho. unfold jget. rewrite dget_sorted by done. by destruct (dget k o). Qed.
Lemma jget_sanitized k o : k <> "working_dir" -> jget k (sanitized o) = sanitize_recovery_payload (jget k o).
Proof. intros Hk. unfold jget. rewrite dget_sanitized by done. by destruct (dget k o). Qed.

Lemma valid_sorted d : wire d -> _valid_source_descriptor d = true -> _valid_source_descriptor (sort_keys d) = true.
Proof.
  destruct d as [| | | | | |o]; try done. rewrite sort_obj. intros [Hnd _]%wire_obj.
  unfold _valid_source_descriptor. rewrite !jget_sorted by done.
  assert (Hs : forall v s, str_is (sort_keys v) s = str_is v s) by (intros [] ?; done).
  assert (Hi : forall v, safe_id (sort_keys v) = safe_id v) by (intros []; done).
  assert (Hh : forall v, hex_field (sort_keys v) = hex_field v) by (intros []; done).
  assert (Hn : forall v, nat_field (sort_keys v) = nat_field v) by (intros []; done).
  rewrite !Hs, Hi, !Hh, Hn, !andb_true_iff. intros [[[[[[H1 H2] H3] H4] H5] H6] H7]. split_and!; try done.
  - rewrite forallb_forall in H1 |- *. intros k Hk. specialize (H1 k Hk). unfold dmem in *. rewrite dget_sorted by done.
    by destruct (dget k o).
  - rewrite forallb_forall in H2 |- *. intros kv Hin%list_elem_of_In. rewrite sorted_perm in Hin.
    apply list_elem_of_fmap in Hin as (x & -> & Hx). apply (H2 x). by apply list_elem_of_In.
Qed.

(** A source row with a valid descriptor. *)
Lemma scrub_source_fixed h d s' :
  wire d -> _valid_source_descriptor d = true ->
  scrub_source (h, (source_descriptor_digest d, sorted_dumps d)) = Ok s' ->
  s' = (h, (source_descriptor_digest d, sorted_dumps d)).
Proof.
  intros Hw Hv. unfold scrub_source. cbn [fst snd]. destruct (negb _); [done|].
  rewrite read_sorted, valid_sorted by done. intros [= <-].
  unfold source_descriptor_digest, sorted_dumps. by rewrite sort_keys_idem.
Qed.

(** The session the event's data names, if the data is an object, is a safe id. *)
Definition session_kept (o : list (string * json)) : bool :=
  match jget "data" o with JObj d => safe_id (jget "session_id" d) | _ => true end.

(** A receipt row whose payload names a safe session. *)
Lemma scrub_payload_fixed o :
  wire (JObj o) -> session_kept o = true ->
  exists v o', loads_bytes (sorted_dumps (sanitize_recovery_payload (JObj o))) = Ok v
    /\ fst (_sanitize_stored_payload v) = o'
    /\ sorted_dumps (JObj o') = sorted_dumps (sanitize_recovery_payload (JObj o))
    /\ canonical_payload_digest (JObj o') = canonical_payload_digest (sanitize_recovery_payload (JObj o)).
Proof.
  intros Hw Hs. pose proof (wire_sanitize _ Hw) as Hw'. rewrite sanitize_obj in *.
  exists (JObj (sorted (sanitized o))), (sorted (sanitized o)). split; [by rewrite read_sorted|].
  split; [|split].
  - unfold _sanitize_stored_payload.
    rewrite clean_fixed by (rewrite <- sort_obj; apply clean_sort; rewrite <- sanitize_obj; apply clean_sanitize).
    rewrite jget_sorted by (by apply wire_obj in Hw' as [? _]). rewrite jget_sanitized by done.
    unfold session_kept in Hs. destruct (jget "data" o) as [| | | | | |d] eqn:Hd; try done.
    rewrite sanitize_obj, sort_obj.
    assert (Hdw : wire (JObj (sanitized d))).
    { rewrite <- sanitize_obj. apply wire_sanitize. unfold jget in Hd. destruct (dget "data" o) as [x|] eqn:Hg; [|done].
      subst x. apply dget_elem in Hg. apply wire_obj in Hw as [_ Hw]. rewrite Forall_forall in Hw. by apply (Hw _ Hg). }
    assert (Hsafe : safe_id (jget "session_id" (sorted (sanitized d))) = true).
    { rewrite jget_sorted by (by apply wire_obj in Hdw as [? _]). rewrite jget_sanitized by done.
      by destruct (jget "session_id" d). }
    by rewrite Hsafe.
  - unfold sorted_dumps. by rewrite <- (sort_obj (sanitized o)), sort_keys_idem.
  - unfold canonical_payload_digest. by rewrite <- (sort_obj (sanitized o)), sort_keys_idem.
Qed.
End scrub.

(** Concrete JSON can be written and read. *)
Ltac wire_lit :=
  split; [|by vm_compute];
  cbn [json_ok fold_right fst snd dkeys map];
  repeat match goal with
         | |- _ /\ _ => split
         | |- NoDup _ => apply (bool_decide_eq_true_1 _); by vm_compute
         | |- digits_ok _ => vm_compute; lia
         | |- _ => by vm_compute
         end.
