(* ===== verification/ReceiptSpec.v ===== *)
(** * Theorems on recovery receipts and permits

    [receipt_admitted_once], [single_outstanding] and [quarantine_final] are about
    every history of the ledger's transactions and of restarts of the server, which
    may scrub and rebuild the database; [permit_single_use] is about every
    history of the admission gate, which is defined here as well. *)
From stdpp Require Import base list strings relations.
From Stdlib Require Import ZArith Lia.
From S2P Require Import Prelude PyText Json JsonParse Utils QueueFiles Auth Config Receipts Payloads.

#[local] Open Scope string_scope.
#[local] Open Scope list_scope.

Section histories.
Context `{FloatRepr, Timestamps}.

(** ** Histories of the ledger *)

(** A new process opens the database; when the rebuild fails the old database
    stays in place. *)
Definition restart (db : Ledger) : Ledger :=
  match _initialize_locked (CurrentDb db) with Ok db' => db' | Err _ => db end.

Inductive lop :=
  | LClassify (h : string) (d : json) (o : Origin) (actor workspace digest : string)
  | LAdmit (h : string) (d : json) (o : Origin) (actor workspace : string) (payload : json)
           (lease : option string) (require_lease : bool)
  | LMark (h : string) (n : Z) (st : rstate)
  | LRequeue (h : string) (n : Z)
  | LQuarantine (h : string) (n : Z)
  | LRestart.

Definition run_lop (db : Ledger) (o : lop) : Ledger :=
  match o with
  | LClassify h d o a w x => snd (classify_source h d o a w x db)
  | LAdmit h d o a w p l r => snd (admit_source h d o a w p l r db)
  | LMark h n st => snd (mark h n st db)
  | LRequeue h n => snd (requeue_quarantined h n db)
  | LQuarantine h n => quarantine_pending h n db
  | LRestart => restart db
  end.
Definition run_lops : Ledger -> list lop -> Ledger := foldl run_lop.

(** ** Rows *)

Definition pcount (rs : list Receipt) : nat := length (filter (fun r => pending (re_state r) = true) rs).

Lemma any_pending_count rs : any_pending rs = false <-> pcount rs = 0.
Proof.
  unfold any_pending, pcount. induction rs as [|r rs IH]; [done|]. cbn [existsb].
  destruct (pending (re_state r)) eqn:Hp; rewrite ?filter_cons_True, ?filter_cons_False by congruence; done.
Qed.

Lemma pcount_cons r rs : pcount (r :: rs) = (if pending (re_state r) then 1 else 0) + pcount rs.
Proof.
  unfold pcount. destruct (pending (re_state r)) eqn:Hp;
    rewrite ?filter_cons_True, ?filter_cons_False by congruence; done.
Qed.

Lemma pcount_app a b : pcount (a ++ b) = pcount a + pcount b.
Proof. induction a as [|r a IH]; [done|]. cbn [app]. rewrite !pcount_cons, IH. lia. Qed.

Lemma update_keys h n from st rs : map re_key (update_where h n from st rs) = map re_key rs.
Proof. unfold update_where. rewrite map_map. apply map_ext. intros r. by destruct (_ && _). Qed.

Lemma update_where_cons h n from st r rs :
  update_where h n from st (r :: rs) =
  (if bool_decide (re_key r = (h, n)) && bool_decide (re_state r ∈ from) then set_state st r else r)
  :: update_where h n from st rs.
Proof. done. Qed.

(** An update to a state that is not outstanding never adds an outstanding row;
    one between outstanding states keeps their number. *)
Lemma pcount_update_terminal h n from st rs : pending st = false -> pcount (update_where h n from st rs) <= pcount rs.
Proof.
  intros Hst. induction rs as [|r rs IH]; [done|]. rewrite update_where_cons, !pcount_cons.
  destruct (_ && _); cbn [re_state set_state]; [rewrite Hst|]; lia.
Qed.

Lemma pcount_update_pending h n from st rs :
  pending st = true -> Forall (fun s => pending s = true) from -> pcount (update_where h n from st rs) = pcount rs.
Proof.
  intros Hst Hfrom. induction rs as [|r rs IH]; [done|]. rewrite update_where_cons, !pcount_cons, IH.
  destruct (bool_decide (re_key r = (h, n))); [|done]. cbn [andb].
  case_bool_decide as Hin; [|done]. cbn [re_state set_state]. rewrite Hst.
  by rewrite (proj1 (Forall_forall _ _) Hfrom _ Hin).
Qed.

Lemma update_where_absent h n from st rs : (h, n) ∉ map re_key rs -> update_where h n from st rs = rs.
Proof.
  induction rs as [|r rs IH]; [done|]. cbn [map]. rewrite not_elem_of_cons. intros [Hne Hin].
  rewrite update_where_cons, IH by done. rewrite bool_decide_eq_false_2; [done|congruence].
Qed.

Lemma pcount_update_one h n from st rs :
  NoDup (map re_key rs) -> pcount (update_where h n from st rs) <= S (pcount rs).
Proof.
  induction rs as [|r rs IH]; [cbn; lia|]. cbn [map]. intros [Hk Hnd]%NoDup_cons.
  rewrite update_where_cons, !pcount_cons. destruct (decide (re_key r = (h, n))) as [He|He].
  - rewrite (update_where_absent h n) by by rewrite <- He. repeat case_match; lia.
  - rewrite bool_decide_eq_false_2 by done. cbn [andb]. specialize (IH Hnd). lia.
Qed.

(** ** The life of a receipt *)

(** The moves between states: those [mark] allows, the operator's retry, and the
    renaming of the one old state. *)
Inductive st_step : rstate -> rstate -> Prop :=
  | step_mark s s' : s ∈ allowed_previous s' -> st_step s s'
  | step_retry : st_step Quarantined RetryPending
  | step_legacy : st_step Queued PendingEnqueue.

Definition same_event (r r' : Receipt) : Prop :=
  re_key r = re_key r' /\ re_line r = re_line r' /\ re_actor r = re_actor r'
  /\ re_workspace r = re_workspace r'.

(** Scrubbing the row changes nothing that identifies its payload. *)
Definition settled (r : Receipt) : Prop :=
  re_payload r = []
  \/ exists v o, loads_bytes (re_payload r) = Ok v /\ fst (_sanitize_stored_payload v) = o
       /\ sorted_dumps (JObj o) = re_payload r /\ canonical_payload_digest (JObj o) = re_digest r.

(** [r'] is a later version of [r]; a settled row keeps its digest. *)
Definition evolves (r r' : Receipt) : Prop :=
  same_event r r' /\ rtc st_step (re_state r) (re_state r')
  /\ (settled r -> settled r' /\ re_digest r' = re_digest r).

Lemma evolves_refl r : evolves r r.
Proof. split; [by repeat split|]. split; [apply rtc_refl|done]. Qed.

Lemma evolves_trans a b c : evolves a b -> evolves b c -> evolves a c.
Proof.
  intros [(K1 & L1 & A1 & W1) [S1 D1]] [(K2 & L2 & A2 & W2) [S2 D2]].
  split; [unfold same_event; intuition congruence|]. split; [by etransitivity|].
  intros Hs. destruct (D1 Hs) as [Hs1 E1]. destruct (D2 Hs1) as [Hs2 E2]. split; [done|congruence].
Qed.

Lemma evolves_state st r : rtc st_step (re_state r) st -> evolves r (set_state st r).
Proof.
  intros Hs. split; [by repeat split|]. split; [done|]. intros Hset. split; [|done].
  unfold settled, set_state. cbn [re_payload re_digest]. case_decide; [by left|exact Hset].
Qed.

(** ** Restarts *)

(** What a restart does to one row. *)
Definition restarted (r r' : Receipt) : Prop :=
  evolves r r' /\ (re_state r <> Queued ->
    re_state r' <> Queued /\ (pending (re_state r') = true -> pending (re_state r) = true)).

Lemma restarted_refl r : restarted r r.
Proof. split; [apply evolves_refl|done]. Qed.

Lemma restarted_trans a b c : restarted a b -> restarted b c -> restarted a c.
Proof.
  intros [E1 P1] [E2 P2]. split; [by eapply evolves_trans|]. intros Hq. destruct (P1 Hq) as [Q1 R1].
  destruct (P2 Q1) as [Q2 R2]. auto.
Qed.

Lemma rmap_spec {A B} (f : A -> result B) l l' : rmap f l = Ok l' -> Forall2 (fun x y => f x = Ok y) l l'.
Proof.
  revert l'. induction l as [|x l IH]; intros l' Hr; cbn [rmap] in Hr; [by injection Hr as <-; constructor|].
  apply rbind_ok in Hr as (y & Hy & Hr). apply rbind_ok in Hr as (ys & Hys & Hr). injection Hr as <-.
  constructor; auto.
Qed.

Lemma scrubbed_step st bad : rtc st_step st (scrubbed_state st bad).
Proof.
  assert (Hq : forall s, pending s = true -> st_step s Quarantined).
  { intros s Hs. apply step_mark. by destruct s; try done; apply (bool_decide_eq_true_1 _). }
  unfold scrubbed_state. case_decide as Hst; [subst st|].
  - destruct bad; [|apply rtc_once, step_legacy]. eapply rtc_l; [apply step_legacy|]. by apply rtc_once, Hq.
  - destruct (pending st) eqn:Hp; [|apply rtc_refl]. destruct bad; [by apply rtc_once, Hq|apply rtc_refl].
Qed.

Lemma scrub_receipt_restarted src r r' : scrub_receipt src r = Ok r' -> restarted r r'.
Proof.
  unfold scrub_receipt. destruct (dget (re_handle r) src) as [[x descriptor]|]; [|done]. destruct (_ || _); [done|].
  assert (Hst : forall st bad, st <> Queued -> scrubbed_state st bad <> Queued
    /\ (pending (scrubbed_state st bad) = true -> pending st = true)).
  { intros st bad Hq. destruct st, bad; done. }
  unfold restarted, evolves, same_event. destruct (re_payload r) as [|b0 b1] eqn:Hpay.
  - intros [= <-]. cbn [re_key re_handle re_ordinal re_line re_actor re_workspace re_digest re_payload re_state].
    split; [|by apply Hst]. split; [done|]. split; [apply scrubbed_step|].
    intros _. split; [by left|done].
  - destruct (match loads_bytes (b0 :: b1) with Ok v => _ | Err _ => _ end) as [o invalid] eqn:Ho.
    intros [= <-]. cbn [re_key re_handle re_ordinal re_line re_actor re_workspace re_digest re_payload re_state].
    split; [|by apply Hst]. split; [done|]. split; [apply scrubbed_step|].
    unfold settled. cbn [re_payload re_digest]. rewrite Hpay. intros [?|(v & o' & Hv & Ho' & Ht & Hd)]; [done|].
    rewrite Hv in Ho. rewrite Ho in Ho'. cbn [fst] in Ho'. subst o'. split; [|done]. right.
    exists v, o. rewrite Ht, Hv, Ho. done.
Qed.

Lemma Forall2_refl_of {A} (R : A -> A -> Prop) l : (forall x, R x x) -> Forall2 R l l.
Proof. intros HR. induction l; by constructor. Qed.

Lemma Forall2_compose {A} (R : A -> A -> Prop) l1 l2 l3 :
  (forall a b c, R a b -> R b c -> R a c) -> Forall2 R l1 l2 -> Forall2 R l2 l3 -> Forall2 R l1 l3.
Proof.
  intros HR H12. revert l3. induction H12 as [|a b l1 l2 Hab _ IH]; intros l3 H23; inversion H23; subst; constructor; eauto.
Qed.

(** A restart works row by row, on receipts and on sources. *)
Lemma restart_rows db :
  Forall2 restarted (db_receipts db) (db_receipts (restart db))
  /\ Forall2 (fun s s' => s' = s \/ scrub_source s = Ok s') (db_sources db) (db_sources (restart db)).
Proof.
  unfold restart, _initialize_locked.
  assert (Hrename : forall rs, Forall2 restarted rs
    (map (fun r => if decide (re_state r = Queued) then set_state PendingEnqueue r else r) rs)).
  { induction rs as [|r rs IH]; cbn [map]; constructor; [|done]. case_decide as Hq; [|apply restarted_refl].
    split; [apply evolves_state; rewrite Hq; apply rtc_once, step_legacy|done]. }
  assert (Hsame : Forall2 (fun s s' => s' = s \/ scrub_source s = Ok s') (db_sources db) (db_sources db))
    by (apply Forall2_refl_of; by left).
  destruct (_current_database_needs_sanitization_locked db); [|cbn [rbind _create_current_schema_locked]; by split].
  destruct (_rebuild_current_database_locked db) as [db1|] eqn:Hr; cbn [rbind];
    [|split; [apply Forall2_refl_of, restarted_refl|done]].
  unfold _rebuild_current_database_locked in Hr.
  apply rbind_ok in Hr as (sources & Hs%rmap_spec & Hr). apply rbind_ok in Hr as (receipts & Hrs%rmap_spec & Hr).
  destruct (negb _); [done|]. destruct (existsb _ _); [done|]. injection Hr as <-.
  unfold _create_current_schema_locked. cbn [db_receipts db_sources with_receipts]. split.
  - eapply Forall2_compose; [|eapply Forall2_impl; [exact Hrs|]|apply Hrename].
    + intros a b c. apply restarted_trans.
    + intros x y. apply scrub_receipt_restarted.
  - eapply Forall2_impl; [exact Hs|]. auto.
Qed.

Lemma restarted_keys rs rs' : Forall2 restarted rs rs' -> map re_key rs' = map re_key rs.
Proof. induction 1 as [|r r' rs rs' [[(Hk & _) _] _] _ IH]; [done|]. cbn [map]. by rewrite IH, Hk. Qed.

Lemma restarted_pcount rs rs' :
  Forall2 restarted rs rs' -> Forall (fun r => re_state r <> Queued) rs ->
  pcount rs' <= pcount rs /\ Forall (fun r => re_state r <> Queued) rs'.
Proof.
  induction 1 as [|r r' rs rs' [_ Hp] _ IH]; [by intros _; split|]. intros [Hq Hqs]%Forall_cons.
  destruct (Hp Hq) as [Hq' Hpend], (IH Hqs) as [Hle Hall]. rewrite !pcount_cons. split; [|by constructor].
  destruct (pending (re_state r')) eqn:E; [rewrite (Hpend eq_refl)|]; lia.
Qed.

Lemma scrubbed_sources src src' h :
  Forall2 (fun s s' => s' = s \/ scrub_source s = Ok s') src src' ->
  match dget h src with
  | None => dget h src' = None
  | Some x => exists x', dget h src' = Some x' /\ (x' = x \/ scrub_source (h, x) = Ok (h, x'))
  end.
Proof.
  induction 1 as [|[k x] s' src src' Hs _ IH]; [done|].
  assert (Hk : s'.1 = k).
  { destruct Hs as [->|Hs]; [done|]. unfold scrub_source in Hs. cbn [fst] in Hs. destruct (negb _); [done|]. by injection Hs as <-. }
  destruct s' as [k' x']. cbn [fst] in Hk. subst k'. cbn [dget]. case_decide as E; [|exact IH]. subst k.
  exists x'. split; [done|]. destruct Hs as [[= ->]|Hs]; [by left|by right].
Qed.

(** ** One outstanding receipt *)

Definition ledger_ok (db : Ledger) : Prop :=
  NoDup (map re_key (db_receipts db)) /\ pcount (db_receipts db) <= 1
  /\ Forall (fun r => re_state r <> Queued) (db_receipts db)
  /\ Forall (fun r => is_Some (dget (re_handle r) (db_sources db))) (db_receipts db).

Lemma source_state_db h d db bad db' :
  _source_state h d db = (bad, db') -> db_receipts db' = db_receipts db /\ db_sources db' = db_sources db.
Proof. unfold _source_state. repeat case_match; intros [= <- <-]; done. Qed.

Lemma classify_db h d o a w x db :
  db_receipts (snd (classify_source h d o a w x db)) = db_receipts db
  /\ db_sources (snd (classify_source h d o a w x db)) = db_sources db.
Proof.
  unfold classify_source. destruct (_source_state h d db) as [bad db1] eqn:Hs.
  apply source_state_db in Hs as [<- <-]. repeat case_match; done.
Qed.

Lemma find_receipt_None h n rs : find_receipt h n rs = None -> (h, n) ∉ map re_key rs.
Proof.
  unfold find_receipt. intros Hh (r & Hk & Hin)%list_elem_of_fmap.
  assert (Hf : r ∈ filter (fun r => re_key r = (h, n)) rs) by (apply list_elem_of_filter; done).
  by destruct (filter _ rs); [apply elem_of_nil in Hf|].
Qed.

Lemma dget_app_l {V} k (a b : list (string * V)) v : dget k a = Some v -> dget k (a ++ b) = Some v.
Proof. induction a as [|[k' v'] a IH]; [done|]. cbn [dget app]. case_decide; [done|]. apply IH. Qed.

Lemma dget_app_new {V} k (a : list (string * V)) v : dget k a = None -> dget k (a ++ [(k, v)]) = Some v.
Proof.
  induction a as [|[k' v'] a IH]; cbn [dget app]; [by rewrite decide_True|]. case_decide; [done|]. apply IH.
Qed.

(** What an admission does to the tables. *)
Lemma admit_db h d o a w p l q db :
  let db' := snd (admit_source h d o a w p l q db) in
  (fst (admit_source h d o a w p l q db) <> Accepted
   /\ db_receipts db' = db_receipts db /\ db_sources db' = db_sources db)
  \/ (fst (admit_source h d o a w p l q db) = Accepted
      /\ find_receipt h (or_ordinal o) (db_receipts db) = None /\ any_pending (db_receipts db) = false
      /\ db_receipts db' = db_receipts db ++
           [MkReceipt h (or_ordinal o) (or_line o) a w (canonical_payload_digest (sanitize_recovery_payload p))
              (sorted_dumps (sanitize_recovery_payload p)) PendingEnqueue]
      /\ (exists tail, db_sources db' = db_sources db ++ tail)
      /\ exists text, dget h (db_sources db') = Some (source_descriptor_digest d, text)
           /\ (dget h (db_sources db) = None -> text = sorted_dumps d)
           /\ (forall x, dget h (db_sources db) = Some x -> text = x.2)).
Proof.
  unfold admit_source. destruct (_source_state h d db) as [bad db1] eqn:Hs.
  pose proof Hs as Hs'. apply source_state_db in Hs' as [Hr Hsrc]. rewrite <- Hr, <- Hsrc.
  destruct bad; [by left|]. destruct (find_receipt h _ _) as [r|] eqn:Hf; [left; by repeat case_match|].
  destruct (any_pending (db_receipts db1)) eqn:Hp; [by left|].
  destruct (if q then _ else _) as [leases|]; [right|by left].
  cbn [fst snd db_receipts db_sources]. repeat (split; [done|]). split.
  - destruct (dget h (db_sources db1)); [exists []; by rewrite app_nil_r|eauto].
  - assert (Hdig : forall x, dget h (db_sources db1) = Some x -> x.1 = source_descriptor_digest d).
    { intros x Hx. revert Hs. unfold _source_state. rewrite <- Hsrc, Hx. destruct x as [stored text].
      case_bool_decide; [done|discriminate]. }
    destruct (dget h (db_sources db1)) as [[stored text]|] eqn:Hg.
    + exists text. rewrite Hg. rewrite <- (Hdig _ eq_refl). split; [done|]. split; [done|]. by intros x [= <-].
    + eexists. split; [by apply dget_app_new|]. split; [done|]. done.
Qed.

Lemma update_sources h n from st rs (src : list (string * (string * bytes))) :
  Forall (fun r => is_Some (dget (re_handle r) src)) rs ->
  Forall (fun r => is_Some (dget (re_handle r) src)) (update_where h n from st rs).
Proof.
  intros Hf. unfold update_where. apply Forall_map. eapply Forall_impl; [exact Hf|].
  intros r Hr. by destruct (_ && _).
Qed.

Lemma mark_pcount h n st rs : pcount (update_where h n (allowed_previous st) st rs) <= pcount rs.
Proof.
  destruct (pending st) eqn:Hst; [|by apply pcount_update_terminal].
  rewrite pcount_update_pending; [done|done|]. destruct st; try done; by repeat constructor.
Qed.

Lemma update_not_queued h n from st rs :
  st <> Queued -> Forall (fun r => re_state r <> Queued) rs ->
  Forall (fun r => re_state r <> Queued) (update_where h n from st rs).
Proof.
  intros Hst Hf. unfold update_where. apply Forall_map. eapply Forall_impl; [exact Hf|].
  intros r Hr. by destruct (_ && _).
Qed.

Lemma mark_not_queued h n st rs :
  Forall (fun r => re_state r <> Queued) rs ->
  Forall (fun r => re_state r <> Queued) (update_where h n (allowed_previous st) st rs).
Proof.
  intros Hf. destruct (decide (st = Queued)) as [->|Hst]; [|by apply update_not_queued].
  unfold update_where. apply Forall_map. eapply Forall_impl; [exact Hf|]. intros r Hr. cbn [allowed_previous].
  rewrite (bool_decide_eq_false_2 (re_state r ∈ [])), andb_false_r by apply not_elem_of_nil. done.
Qed.

(** An update of one row keeps the invariant when the count stays small. *)
Lemma update_ok h n from st db :
  ledger_ok db -> pcount (update_where h n from st (db_receipts db)) <= 1 ->
  Forall (fun r => re_state r <> Queued) (update_where h n from st (db_receipts db)) ->
  ledger_ok (with_receipts (update_where h n from st (db_receipts db)) db).
Proof.
  intros (Hnd & _ & _ & Hs) Hc Hq. unfold ledger_ok. cbn [with_receipts db_receipts db_sources].
  split; [by rewrite update_keys|]. split; [done|]. split; [done|by apply update_sources].
Qed.

Lemma restart_ok db : ledger_ok db -> ledger_ok (restart db).
Proof.
  intros (Hnd & Hc & Hq & Hs). destruct (restart_rows db) as [Hr Hsrc].
  destruct (restarted_pcount _ _ Hr Hq) as [Hp Hq']. split; [by rewrite (restarted_keys _ _ Hr)|].
  split; [lia|]. split; [done|]. clear Hnd Hc Hq Hp Hq'. revert Hs.
  induction Hr as [|r r' rs rs' [[(Hk & _) _] _] _ IH]; [constructor|]. intros [[x Hx] Hs]%Forall_cons.
  constructor; [|by apply IH]. unfold re_key in Hk. injection Hk as Hh _. rewrite <- Hh.
  pose proof (scrubbed_sources _ _ (re_handle r) Hsrc) as Hg. rewrite Hx in Hg. destruct Hg as (x' & -> & _). by eexists.
Qed.

Lemma run_lop_ok db o : ledger_ok db -> ledger_ok (run_lop db o).
Proof.
  intros Hok. pose proof Hok as (Hnd & Hc & Hq & Hs).
  destruct o as [h d o a w x|h d o a w p l q|h n st|h n|h n|]; cbn [run_lop].
  - destruct (classify_db h d o a w x db) as [Hr Hsrc]. unfold ledger_ok. by rewrite Hr, Hsrc.
  - destruct (admit_db h d o a w p l q db) as [(_ & Hr & Hsrc)|(_ & Hf & Hp & Hr & [tail Hsrc] & text & Hg & _)];
      unfold ledger_ok; rewrite Hr; [by rewrite Hsrc|].
    split; [|split; [|split]].
    + rewrite map_app. apply NoDup_app. split; [done|]. split; [|apply NoDup_singleton].
      intros k Hk. cbn [map]. rewrite list_elem_of_singleton. intros ->.
      by apply (find_receipt_None _ _ _ Hf).
    + apply any_pending_count in Hp. rewrite pcount_app, Hp. done.
    + apply Forall_app. split; [done|by apply Forall_singleton].
    + apply Forall_app. split; [|apply Forall_singleton; cbn [re_handle]; by rewrite Hg].
      eapply Forall_impl; [exact Hs|]. intros r [v Hv]. rewrite Hsrc. exists v. by apply dget_app_l.
  - unfold mark. destruct (find_receipt h n (db_receipts db)); [|done]. cbn [snd].
    apply update_ok; [done| |by apply mark_not_queued]. etransitivity; [apply mark_pcount|done].
  - unfold requeue_quarantined. destruct (any_pending (db_receipts db)) eqn:Hp; [done|]. cbn [snd].
    apply any_pending_count in Hp. apply update_ok; [done| |by apply update_not_queued].
    etransitivity; [by apply pcount_update_one|]. lia.
  - apply update_ok; [done| |by apply update_not_queued]. etransitivity; [by apply pcount_update_terminal|done].
  - by apply restart_ok.
Qed.

(** C17: one receipt at a time.  Through every history of classifications,
    admissions, state changes, quarantines, retries and restarts, at most one receipt is
    outstanding, no event of a source has two receipts, and every receipt's source
    is registered. *)
Theorem single_outstanding (os : list lop) :
  let db := run_lops empty_ledger os in
  pcount (db_receipts db) <= 1 /\ NoDup (map re_key (db_receipts db))
  /\ Forall (fun r => is_Some (dget (re_handle r) (db_sources db))) (db_receipts db).
Proof.
  cbv zeta. assert (ledger_ok (run_lops empty_ledger os)) as (? & ? & _ & ?); [|done].
  unfold run_lops. assert (Hi : ledger_ok empty_ledger) by (repeat split; cbn; [constructor|lia|constructor|constructor]).
  revert Hi. generalize empty_ledger. induction os as [|o os IH]; intros db Hi; [done|].
  cbn [foldl]. by apply IH, run_lop_ok.
Qed.

(** ** Following one receipt *)

Lemma find_map f h n rs :
  (forall r, re_key (f r) = re_key r) -> find_receipt h n (map f rs) = f <$> find_receipt h n rs.
Proof.
  intros Hf. unfold find_receipt. induction rs as [|r rs IH]; [done|]. cbn [map].
  destruct (decide (re_key r = (h, n))).
  - by rewrite !filter_cons_True by (try rewrite Hf; done).
  - by rewrite !filter_cons_False by (try rewrite Hf; done).
Qed.

Lemma find_app h n a b r : find_receipt h n a = Some r -> find_receipt h n (a ++ b) = Some r.
Proof. unfold find_receipt. rewrite filter_app. by destruct (filter _ a). Qed.

Lemma find_key h n rs r : find_receipt h n rs = Some r -> re_key r = (h, n).
Proof.
  unfold find_receipt. intros Hr. assert (Hin : r ∈ filter (fun r => re_key r = (h, n)) rs).
  { destruct (filter _ rs); [done|]. injection Hr as ->. left. }
  by apply list_elem_of_filter in Hin as [? _].
Qed.

Lemma update_evolves (h : string) (n : Z) (from : list rstate) (st : rstate) (r : Receipt) :
  (forall s, s ∈ from -> st_step s st) ->
  evolves r (if bool_decide (re_key r = (h, n)) && bool_decide (re_state r ∈ from) then set_state st r else r).
Proof.
  intros Hfrom. destruct (bool_decide (re_key r = (h, n))); [|apply evolves_refl]. cbn [andb].
  case_bool_decide as Hin; [|apply evolves_refl]. by apply evolves_state, rtc_once, Hfrom.
Qed.

Lemma update_find (h : string) (n : Z) (h' : string) (n' : Z) (from : list rstate) (st : rstate) (rs : list Receipt) (r : Receipt) :
  (forall s, s ∈ from -> st_step s st) -> find_receipt h n rs = Some r ->
  exists r', find_receipt h n (update_where h' n' from st rs) = Some r' /\ evolves r r'.
Proof.
  intros Hfrom Hr. unfold update_where. rewrite find_map, Hr by (intros x; by destruct (_ && _)).
  eexists. split; [done|]. by apply update_evolves.
Qed.

Lemma restarted_find rs rs' h n r :
  Forall2 restarted rs rs' -> find_receipt h n rs = Some r ->
  exists r', find_receipt h n rs' = Some r' /\ evolves r r'.
Proof.
  unfold find_receipt. induction 1 as [|x x' rs rs' [He _] _ IH]; [done|]. pose proof He as [(Hk & _) _].
  destruct (decide (re_key x = (h, n))) as [E|E].
  - rewrite !filter_cons_True by congruence. intros [= <-]. by exists x'.
  - rewrite !filter_cons_False by congruence. exact IH.
Qed.

Lemma run_lop_find db o h n r :
  find_receipt h n (db_receipts db) = Some r ->
  exists r', find_receipt h n (db_receipts (run_lop db o)) = Some r' /\ evolves r r'.
Proof.
  intros Hr. destruct o as [h' d o a w x|h' d o a w p l q|h' n' st|h' n'|h' n'|]; cbn [run_lop].
  - destruct (classify_db h' d o a w x db) as [-> _]. eauto using evolves_refl.
  - destruct (admit_db h' d o a w p l q db) as [(_ & -> & _)|(_ & _ & _ & -> & _)]; [eauto using evolves_refl|].
    exists r. split; [by apply find_app|apply evolves_refl].
  - unfold mark. destruct (find_receipt h' n' (db_receipts db)); [|eauto using evolves_refl].
    apply (update_find h n); [|done]. intros s Hs. by apply step_mark.
  - unfold requeue_quarantined. destruct (any_pending (db_receipts db)); [eauto using evolves_refl|].
    apply (update_find h n); [|done]. intros s ->%list_elem_of_singleton. apply step_retry.
  - apply (update_find h n); [|done]. intros s Hs. apply step_mark. revert s Hs.
    apply Forall_forall. unfold _PENDING. by repeat first
      [apply Forall_nil_2 | apply Forall_cons; split; [by apply (bool_decide_eq_true_1 _)|]].
  - destruct (restart_rows db) as [Hrows _]. by eapply restarted_find.
Qed.

(** A source whose row the scrub leaves alone never changes. *)
Definition source_settled (h : string) (x : string * bytes) : Prop :=
  forall s', scrub_source (h, x) = Ok s' -> s' = (h, x).

Lemma run_lop_source db o h x :
  source_settled h x -> dget h (db_sources db) = Some x -> dget h (db_sources (run_lop db o)) = Some x.
Proof.
  intros Hset Hg. destruct o as [h' d o a w y|h' d o a w p l q|h' n' st|h' n'|h' n'|]; cbn [run_lop].
  - by destruct (classify_db h' d o a w y db) as [_ ->].
  - destruct (admit_db h' d o a w p l q db) as [(_ & _ & ->)|(_ & _ & _ & _ & [tail ->] & _)]; [done|].
    by apply dget_app_l.
  - unfold mark. by destruct (find_receipt h' n' (db_receipts db)).
  - unfold requeue_quarantined. by destruct (any_pending (db_receipts db)).
  - done.
  - destruct (restart_rows db) as [_ Hsrc]. pose proof (scrubbed_sources _ _ h Hsrc) as Hs. rewrite Hg in Hs.
    destruct Hs as (x' & -> & [->|Hx]); [done|]. by injection (Hset _ Hx) as ->.
Qed.

Lemma run_lops_find os db h n r :
  find_receipt h n (db_receipts db) = Some r ->
  exists r', find_receipt h n (db_receipts (run_lops db os)) = Some r' /\ evolves r r'.
Proof.
  unfold run_lops. revert db r. induction os as [|o os IH]; intros db r Hr; cbn [foldl].
  - eauto using evolves_refl.
  - destruct (run_lop_find db o h n r Hr) as (r1 & Hr1 & He1).
    destruct (IH _ r1 Hr1) as (r2 & Hr2 & He2). eauto using evolves_trans.
Qed.

Lemma run_lops_source os db h x :
  source_settled h x -> dget h (db_sources db) = Some x -> dget h (db_sources (run_lops db os)) = Some x.
Proof.
  intros Hset. unfold run_lops. revert db. induction os as [|o os IH]; intros db Hg; [done|]. cbn [foldl].
  by apply IH, run_lop_source.
Qed.

(** The source of a known receipt is consistent with its own descriptor. *)
Lemma source_state_same h d db text :
  dget h (db_sources db) = Some (source_descriptor_digest d, text) -> _source_state h d db = (false, db).
Proof. intros Hg. unfold _source_state. rewrite Hg. by rewrite bool_decide_eq_true_2. Qed.

Lemma source_state_other h d d' db text :
  dget h (db_sources db) = Some (source_descriptor_digest d, text) ->
  source_descriptor_digest d' <> source_descriptor_digest d -> fst (_source_state h d' db) = true.
Proof. intros Hg Hne. unfold _source_state. rewrite Hg. by rewrite bool_decide_eq_false_2. Qed.

(** The events a restart leaves alone: a valid descriptor, and a payload that
    names a safe session if its data names one. *)
Definition well_formed_event (d : json) (p : json) : Prop :=
  wire d /\ _valid_source_descriptor d = true
  /\ exists fields, p = JObj fields /\ wire p /\ session_kept fields = true.

(** What is known of an admitted receipt after any history. *)
Lemma admitted_row h d o a w p l q db db1 os :
  admit_source h d o a w p l q db = (Accepted, db1) ->
  (exists r, find_receipt h (or_ordinal o) (db_receipts (run_lops db1 os)) = Some r)
  /\ (well_formed_event d p ->
      (forall x, dget h (db_sources db) = Some x -> x.2 = sorted_dumps d) ->
      exists r text, find_receipt h (or_ordinal o) (db_receipts (run_lops db1 os)) = Some r
        /\ re_line r = or_line o /\ re_actor r = a /\ re_workspace r = w
        /\ re_digest r = canonical_payload_digest (sanitize_recovery_payload p)
        /\ dget h (db_sources (run_lops db1 os)) = Some (source_descriptor_digest d, text)).
Proof.
  intros Had.
  destruct (admit_db h d o a w p l q db) as [(Hna & _)|(_ & Hf & _ & Hr & _ & text & Hg & Hnew & Hold)]; [by rewrite Had in Hna|].
  rewrite Had in Hr, Hg. cbn [snd] in Hr, Hg.
  set (r0 := MkReceipt _ _ _ _ _ _ _ _) in Hr.
  assert (Hfind : find_receipt h (or_ordinal o) (db_receipts db1) = Some r0).
  { rewrite Hr. unfold find_receipt. rewrite filter_app.
    assert (filter (fun r => re_key r = (h, or_ordinal o)) (db_receipts db) = []) as ->.
    { unfold find_receipt in Hf. by destruct (filter _ _). }
    rewrite filter_cons_True; done. }
  destruct (run_lops_find os db1 h (or_ordinal o) r0 Hfind) as (r & Hr2 & (Hk & HL & HA & HW) & _ & HD).
  split; [by exists r|]. intros (Hwd & Hvd & fields & -> & Hwp & Hsk) Htext. exists r, text.
  assert (Ht : text = sorted_dumps d).
  { destruct (dget h (db_sources db)) as [x|] eqn:E; [|by apply Hnew]. rewrite (Hold x eq_refl). by apply Htext. }
  assert (Hset : settled r0).
  { right. destruct (scrub_payload_fixed fields Hwp Hsk) as (v & o' & H1 & H2 & H3 & H4). exists v, o'. done. }
  destruct (HD Hset) as [_ HD']. split; [done|]. split; [by rewrite <- HL|]. split; [by rewrite <- HA|].
  split; [by rewrite <- HW|]. split; [by rewrite HD'|]. apply run_lops_source; [|done].
  intros s' Hs'. subst text. by apply scrub_source_fixed.
Qed.

(** C18: an event is admitted once, for ever.  After an admission, whatever happens
    to the ledger, restarts that scrub and rebuild it included: no request for that
    event is ever accepted again.  If moreover the descriptor is valid and the
    payload names a safe session (what the scrub would otherwise rewrite): the same
    request is recognised as a duplicate, by both entry points; the same event with
    another line or payload is a conflict; and another contributor learns nothing
    but that it cannot proceed. *)
Theorem receipt_admitted_once (h : string) (d d' : json) (o o' : Origin) (a w a' w' : string) (p p' : json)
    (l l' : option string) (q q' : bool) (db db1 : Ledger) (os : list lop) :
  let digest := canonical_payload_digest (sanitize_recovery_payload p) in
  let digest' := canonical_payload_digest (sanitize_recovery_payload p') in
  admit_source h d o a w p l q db = (Accepted, db1) -> or_ordinal o' = or_ordinal o ->
  let db2 := run_lops db1 os in
  fst (admit_source h d' o' a' w' p' l' q' db2) <> Accepted
  /\ (well_formed_event d p -> (forall x, dget h (db_sources db) = Some x -> x.2 = sorted_dumps d) ->
      fst (classify_source h d o a w digest db2) = Duplicate
      /\ fst (admit_source h d o a w p l' q' db2) = AdmitDuplicate
      /\ (or_line o' <> or_line o \/ digest' <> digest ->
          fst (classify_source h d o' a' w' digest' db2) = ConflictFound)
      /\ (a' <> a \/ w' <> w -> fst (classify_source h d o a' w' digest db2) = Foreign)).
Proof.
  cbv zeta. intros Had Hord. destruct (admitted_row h d o a w p l q db db1 os Had) as [[r1 Hr1] Hrow]. split.
  { destruct (admit_db h d' o' a' w' p' l' q' (run_lops db1 os)) as [(? & _)|(_ & Hnone & _)]; [done|].
    rewrite Hord, Hr1 in Hnone. done. }
  intros Hwf Htext. destruct (Hrow Hwf Htext) as (r & text & Hr2 & HL & HA & HW & HD & Hg2).
  split; [|split; [|split]].
  - unfold classify_source. rewrite (source_state_same _ _ _ _ Hg2), Hr2.
    rewrite !bool_decide_eq_true_2 by done. done.
  - unfold admit_source. rewrite (source_state_same _ _ _ _ Hg2), Hr2.
    rewrite !bool_decide_eq_true_2 by done. done.
  - intros Hne. unfold classify_source. rewrite (source_state_same _ _ _ _ Hg2), Hord, Hr2.
    destruct (bool_decide (re_line r = or_line o')) eqn:H1, (bool_decide (re_digest r = _)) eqn:H2; try done.
    apply bool_decide_eq_true in H1, H2. exfalso. destruct Hne; congruence.
  - intros Hne. unfold classify_source. rewrite (source_state_same _ _ _ _ Hg2), Hr2.
    rewrite !(bool_decide_eq_true_2 (_ = or_line o)), (bool_decide_eq_true_2 (re_digest r = _)) by done. cbn [andb fst].
    destruct (bool_decide (re_actor r = a')) eqn:H1, (bool_decide (re_workspace r = w')) eqn:H2; try done.
    apply bool_decide_eq_true in H1, H2. exfalso. destruct Hne; congruence.
Qed.

(** ** Terminal states *)

Lemma step_from_written s : st_step Written s -> s = Written.
Proof.
  intros Hs. inversion Hs as [s1 s2 Hin| |]; subst. apply (bool_decide_eq_true_2 _) in Hin.
  by destruct s; vm_compute in Hin.
Qed.

Lemma written_final s : rtc st_step Written s -> s = Written.
Proof.
  intros Hs. remember Written as w eqn:Hw. induction Hs as [|x y z Hxy _ IH]; [done|].
  subst x. rewrite (IH (step_from_written _ Hxy)). by apply step_from_written.
Qed.

(** Only a quarantine may follow a quarantine. *)
Lemma mark_from_quarantined st : Quarantined ∈ allowed_previous st -> st = Quarantined.
Proof. intros Hin. apply (bool_decide_eq_true_2 _) in Hin. by destruct st; vm_compute in Hin. Qed.

Lemma mark_keeps h n st rs r :
  find_receipt h n rs = Some r -> re_state r ∉ allowed_previous st ->
  find_receipt h n (update_where h n (allowed_previous st) st rs) = Some r.
Proof.
  intros Hf Hn. unfold update_where. rewrite find_map, Hf by (intros x; by destruct (_ && _)).
  cbn [fmap option_fmap option_map]. by rewrite (bool_decide_eq_false_2 (re_state r ∈ _)), andb_false_r by done.
Qed.

(** A quarantined receipt stays out of the graph until an operator retries it.
    No completion, however late, marks it written or reopens it, and it is not
    flushed; the operator's retry succeeds exactly when nothing is outstanding; and
    a written receipt stays written, its event unchanged, through every history, restarts included. *)
Theorem quarantine_final (db : Ledger) (h : string) (n : Z) (r : Receipt) :
  find_receipt h n (db_receipts db) = Some r ->
  (re_state r = Quarantined ->
     (forall st, st <> Quarantined ->
        fst (mark h n st db) = Ok false /\ find_receipt h n (db_receipts (snd (mark h n st db))) = Some r)
     /\ is_flushable h n db = false
     /\ fst (requeue_quarantined h n db) = negb (has_pending db))
  /\ (re_state r = Written -> forall os, exists r',
      find_receipt h n (db_receipts (run_lops db os)) = Some r' /\ re_state r' = Written /\ same_event r r').
Proof.
  intros Hf. split.
  - intros Hq. split; [intros st Hst; split|split].
    + unfold mark, row_in. rewrite Hf. cbn [fst]. rewrite bool_decide_eq_false_2; [done|].
      rewrite Hq. by intros ?%mark_from_quarantined.
    + unfold mark. rewrite Hf. apply mark_keeps; [done|]. rewrite Hq. by intros ?%mark_from_quarantined.
    + unfold is_flushable, row_in. by rewrite Hf, Hq.
    + unfold requeue_quarantined, has_pending, row_in. rewrite Hf, Hq. by destruct (any_pending _).
  - intros Hw os. destruct (run_lops_find os db h n r Hf) as (r' & Hr' & Hs & Hst & _).
    rewrite Hw in Hst. exists r'. split; [done|]. split; [|done]. by apply written_final.
Qed.

End histories.

(** ** Witnesses *)

#[local] Existing Instance demo_timestamps.
#[local] Instance receipt_floats : FloatRepr := fun s => s.

Definition demo_handle : string := str_of (replicate 64 Byte.x61).
Definition demo_descriptor : json :=
  JObj [("protocol", JStr "native-recovery-source-v1"); ("session_id", JStr "s1"); ("source_stream_sha256", JStr zeros64);
        ("source_sha256", JStr zeros64); ("record_count", JInt 0)].
Definition recovery_event (session : string) : json :=
  JObj [("event", JStr "tool:pre"); ("working_dir", JStr "/home/x"); ("workspace", JStr "w");
        ("data", JObj [("timestamp", JStr "5"); ("session_id", JStr session)])].
Definition demo_event : json := recovery_event "s1".
Definition demo_origin : Origin := MkOrigin 0 zeros64.
Definition demo_admit (db : Ledger) : admission * Ledger :=
  admit_source demo_handle demo_descriptor demo_origin "alice" "w" demo_event None false db.
Definition demo_ledger : Ledger := snd (demo_admit empty_ledger).

Lemma demo_accepted : demo_admit empty_ledger = (Accepted, demo_ledger).
Proof. by vm_compute. Qed.

Lemma demo_well_formed : well_formed_event demo_descriptor demo_event.
Proof.
  assert (Hw : wire demo_descriptor /\ wire demo_event).
  { unfold demo_descriptor, demo_event, recovery_event. split; wire_lit. }
  destruct Hw as [Hd He]. split; [done|]. split; [by vm_compute|]. eexists. split; [reflexivity|]. split; [exact He|].
  by vm_compute.
Qed.

(** After the receipt is written, an event that names an unsafe session is admitted
    under another source, and the restart rebuilds the database. *)
Definition unsafe_event : json := recovery_event "../x".
Definition demo_history : list lop :=
  [LMark demo_handle 0 Written;
   LAdmit zeros64 demo_descriptor demo_origin "alice" "w" unsafe_event None false; LRestart].

Lemma receipt_admitted_once_witness :
  let db2 := run_lops demo_ledger demo_history in
  let digest := canonical_payload_digest (sanitize_recovery_payload demo_event) in
  fst (classify_source demo_handle demo_descriptor demo_origin "alice" "w" digest db2) = Duplicate
  /\ fst (classify_source demo_handle demo_descriptor demo_origin "bob" "w" digest db2) = Foreign.
Proof.
  destruct (receipt_admitted_once demo_handle demo_descriptor demo_descriptor demo_origin demo_origin "alice" "w" "bob" "w"
    demo_event demo_event None None false false empty_ledger demo_ledger demo_history demo_accepted eq_refl) as [_ Hwf].
  destruct (Hwf demo_well_formed) as (Hd & _ & _ & Hf); [done|].
  split; [exact Hd|]. apply Hf. left. discriminate.
Defined.

(** The unsafe event, accepted before the restart, is a conflict after it: the
    scrub removed its session id and with it the digest the client computes. *)
Example unsafe_event_conflicts_after_restart :
  let digest := canonical_payload_digest (sanitize_recovery_payload unsafe_event) in
  let ask db := fst (classify_source zeros64 demo_descriptor demo_origin "alice" "w" digest db) in
  ask (run_lops demo_ledger (take 2 demo_history)) = Duplicate
  /\ ask (run_lops demo_ledger demo_history) = ConflictFound.
Proof. vm_compute. split; reflexivity. Qed.

Definition quarantined_ledger : Ledger := quarantine_pending demo_handle 0 demo_ledger.
Definition demo_receipt (st : rstate) : Receipt :=
  MkReceipt demo_handle 0 zeros64 "alice" "w" (canonical_payload_digest (sanitize_recovery_payload demo_event))
    (sorted_dumps (sanitize_recovery_payload demo_event)) st.

(** A completion that arrives after the quarantine is refused; the retry is not. *)
Lemma quarantine_final_witness :
  fst (mark demo_handle 0 Written quarantined_ledger) = Ok false
  /\ fst (requeue_quarantined demo_handle 0 quarantined_ledger) = true.
Proof.
  destruct (quarantine_final quarantined_ledger demo_handle 0 (demo_receipt Quarantined)) as [Hq _]; [by vm_compute|].
  destruct (Hq eq_refl) as (Hm & _ & Hr). split; [|rewrite Hr; by vm_compute].
  by apply Hm.
Defined.
