(* ===== verification/RecoveryGate.v ===== *)
(** * Admission permits ([recovery.py], [RecoveryAdmissionGate])

    The runtime-only gate that hands out single-use permits.  Everything it does
    runs under one lock, so each operation is a function of the permit table; the
    clock readings, the random token and the answers of the two callbacks
    ([receipt_state], [available]) are arguments.

    [permit_single_use] is about every history of the gate: at most one permit is
    outstanding, and an event is admitted only by the permit that was issued for
    exactly that event, before it expired, and at most once. *)
From stdpp Require Import base list strings.
From Stdlib Require Import ZArith Lia.
From S2P Require Import Prelude PyText Json Receipts.

#[local] Open Scope string_scope.
#[local] Open Scope list_scope.

(** ** The gate *)

Record _PermitBinding := MkBinding {
  pb_actor : string;
  pb_workspace : string;
  pb_source_handle : string;
  pb_descriptor_sha256 : string;
  pb_ordinal : Z;
  pb_source_line_sha256 : string;
  pb_payload_sha256 : string;
}.
#[export] Instance binding_eq_dec : EqDecision _PermitBinding.
Proof. solve_decision. Defined.

Definition binding (source_handle descriptor_sha256 : string) (o : Origin) (actor workspace payload_sha256 : string)
    : _PermitBinding :=
  MkBinding actor workspace source_handle descriptor_sha256 (or_ordinal o) (or_line o) payload_sha256.

(** [_permits]: token, binding, deadline. *)
Definition permits := list (string * (_PermitBinding * Z)).

Definition _discard_expired (now : Z) (g : permits) : permits := filter (fun p => (now < p.2.2)%Z) g.

(** [issue]: [now] and [now'] are the two readings of the clock, [token] what
    [secrets.token_urlsafe] returns. *)
Definition issue (ttl : Z) (b : _PermitBinding) (receipt : classification) (live_available : bool) (token : string)
    (now now' : Z) (g : permits) : option (string * Z) * permits :=
  let g := _discard_expired now g in
  match g, receipt, live_available with
  | [], New, true => (Some (token, (now' + ttl)%Z), dset token (b, (now' + ttl)%Z) g)
  | _, _, _ => (None, g)
  end.

Inductive PermitResult := PDuplicate | PConflict | PExisting | PInvalid | PMismatch | PUnavailable | PAccepted.
#[export] Instance permit_result_eq_dec : EqDecision PermitResult.
Proof. solve_decision. Defined.

Definition consume (token : option string) (b : _PermitBinding) (receipt : classification) (live_available : bool)
    (now : Z) (g : permits) : PermitResult * permits :=
  let g := _discard_expired now g in
  match receipt with
  | Duplicate => (PDuplicate, g)
  | ConflictFound => (PConflict, g)
  | Foreign => (PExisting, g)
  | New =>
    match dget (default "" token) g with
    | None => (PInvalid, g)
    | Some (stored, _) =>
      if negb (bool_decide (stored = b)) then (PMismatch, g)
      else if negb live_available then (PUnavailable, g)
      else (PAccepted, ddel (default "" token) g)
    end
  end.

(** [run_if_available]: an operation of the recovery side, at the same boundary. *)
Definition run_if_available {S} (available : bool) (operation : S -> bool * S) (s : S) : bool * S :=
  if available then operation s else (false, s).

(** ** Histories *)

Inductive gop :=
  | GIssue (b : _PermitBinding) (receipt : classification) (live : bool) (token : string) (now now' : Z)
  | GConsume (token : option string) (b : _PermitBinding) (receipt : classification) (live : bool) (now : Z).

(** What the gate promised, and what it let through. *)
Inductive gev :=
  | Issued (t : string) (b : _PermitBinding) (deadline : Z)
  | Redeemed (t : string) (b : _PermitBinding) (now : Z).

Definition gate_step (ttl : Z) (s : permits * list gev) (o : gop) : permits * list gev :=
  let '(g, evs) := s in
  match o with
  | GIssue b r live t now now' =>
    let '(res, g') := issue ttl b r live t now now' g in
    (g', match res with Some (t, d) => evs ++ [Issued t b d] | None => evs end)
  | GConsume t b r live now =>
    let '(res, g') := consume t b r live now g in
    (g', match res with PAccepted => evs ++ [Redeemed (default "" t) b now] | _ => evs end)
  end.
Definition gate_run (ttl : Z) (os : list gop) : permits * list gev := foldl (gate_step ttl) ([], []) os.

Definition offered (os : list gop) : list string :=
  omap (fun o => match o with GIssue _ _ _ t _ _ => Some t | _ => None end) os.
Definition admitted (evs : list gev) : list string :=
  omap (fun e => match e with Redeemed t _ _ => Some t | _ => None end) evs.
Definition issued (evs : list gev) : list string :=
  omap (fun e => match e with Issued t _ _ => Some t | _ => None end) evs.

(** Every admission answers an earlier promise for the same event, in time. *)
Definition backed (evs : list gev) : Prop :=
  forall pre t b now post, evs = pre ++ Redeemed t b now :: post ->
    exists d, Issued t b d ∈ pre /\ (now < d)%Z.

(** ** Lemmas *)

(** An accepted request found a live receipt-free boundary and its own permit. *)
Lemma consume_accepted t b r live now g g' :
  consume t b r live now g = (PAccepted, g') <->
  r = New /\ live = true /\ g' = ddel (default "" t) (_discard_expired now g)
  /\ exists d, dget (default "" t) (_discard_expired now g) = Some (b, d).
Proof.
  unfold consume. destruct r; try (split; [done|by intros (? & _)]).
  destruct (dget _ _) as [[stored d]|] eqn:Hg; [|split; [done|by intros (_ & _ & _ & ? & [=])]].
  destruct (bool_decide (stored = b)) eqn:Hb; cbn [negb].
  - apply bool_decide_eq_true in Hb as ->. destruct live; cbn [negb]; split; try done.
    + intros [= <-]. eauto.
    + by intros (_ & _ & -> & _).
    + by intros (_ & ? & _).
  - apply bool_decide_eq_false in Hb. split; [done|]. intros (_ & _ & _ & ? & [= -> _]). done.
Qed.

Lemma consume_refused t b r live now g res g' :
  consume t b r live now g = (res, g') -> res <> PAccepted -> g' = _discard_expired now g.
Proof. unfold consume. repeat case_match; by intros [= <- <-]. Qed.

Lemma discard_in p now g : p ∈ _discard_expired now g <-> (now < p.2.2)%Z /\ p ∈ g.
Proof. unfold _discard_expired. by rewrite list_elem_of_filter. Qed.

Lemma discard_length now g : length (_discard_expired now g) <= length g.
Proof. apply length_filter. Qed.

Lemma ddel_in {V} (k : string) (l : list (string * V)) p : p ∈ ddel k l -> p ∈ l /\ p.1 <> k.
Proof. unfold ddel. rewrite list_elem_of_filter. by intros [? ?]. Qed.

Lemma ddel_length {V} (k : string) (l : list (string * V)) : length (ddel k l) <= length l.
Proof. apply length_filter. Qed.

(** What the history so far guarantees of the table. *)
Record gate_inv (os : list gop) (g : permits) (evs : list gev) : Prop := {
  gi_one : length g <= 1;
  gi_promised : forall t b d, (t, (b, d)) ∈ g -> Issued t b d ∈ evs /\ t ∉ admitted evs;
  gi_issued : forall t, t ∈ admitted evs -> t ∈ issued evs;
  gi_offered : forall t, t ∈ issued evs -> t ∈ offered os;
  gi_nodup : NoDup (admitted evs);
  gi_backed : backed evs;
}.

Lemma issued_elem t b d evs : Issued t b d ∈ evs -> t ∈ issued evs.
Proof. intros Hin. unfold issued. apply list_elem_of_omap. by exists (Issued t b d). Qed.

Lemma backed_snoc_issued evs t b d : backed evs -> backed (evs ++ [Issued t b d]).
Proof.
  intros Hb pre t' b' now post Heq. destruct post as [|e post _] using rev_ind.
  - apply app_inj_tail in Heq as [_ [=]].
  - rewrite app_comm_cons, app_assoc in Heq. apply app_inj_tail in Heq as [Heq _]. by apply (Hb _ _ _ _ post).
Qed.

Lemma backed_snoc_admitted evs t b now :
  backed evs -> (exists d, Issued t b d ∈ evs /\ (now < d)%Z) -> backed (evs ++ [Redeemed t b now]).
Proof.
  intros Hb Hi pre t' b' now' post Heq. destruct post as [|e post _] using rev_ind.
  - by apply app_inj_tail in Heq as [-> [= -> -> ->]].
  - rewrite app_comm_cons, app_assoc in Heq. apply app_inj_tail in Heq as [Heq _]. by apply (Hb _ _ _ _ post).
Qed.

(** Dropping permits never hurts. *)
Lemma gate_inv_shrink os o g g' evs :
  gate_inv os g evs -> length g' <= length g -> (forall p, p ∈ g' -> p ∈ g) -> gate_inv (os ++ [o]) g' evs.
Proof.
  intros [H1 H2 H3 H4 H5 H6] Hl Hsub. split; try done.
  - lia.
  - intros t b d Hin. by apply H2, Hsub.
  - intros t Ht. unfold offered. rewrite omap_app, elem_of_app. left. by apply H4.
Qed.

Lemma issue_inv ttl os g evs b r live t now now' :
  gate_inv os g evs -> t ∉ offered os ->
  let s := gate_step ttl (g, evs) (GIssue b r live t now now') in
  gate_inv (os ++ [GIssue b r live t now now']) s.1 s.2.
Proof.
  intros Hinv Hfresh. cbv zeta. cbn [gate_step]. unfold issue.
  assert (Hshrink : gate_inv (os ++ [GIssue b r live t now now']) (_discard_expired now g) evs).
  { eapply gate_inv_shrink; [exact Hinv|apply discard_length|]. intros p Hp. by apply discard_in in Hp as [_ ?]. }
  destruct (_discard_expired now g); [|done]. destruct r, live; try exact Hshrink. cbn [fst snd dset].
  destruct Hinv as [H1 H2 H3 H4 H5 H6]. destruct Hshrink as [_ _ _ H4' _ _].
  assert (Hnew : t ∉ admitted evs) by (intros Hin; by apply Hfresh, H4, H3).
  assert (Ha : admitted (evs ++ [Issued t b (now' + ttl)%Z]) = admitted evs).
  { unfold admitted. rewrite omap_app. cbn. by rewrite app_nil_r. }
  split.
  - cbn. lia.
  - intros t' b' d [= -> -> ->]%list_elem_of_singleton. rewrite Ha. split; [|done]. apply elem_of_app. right. left.
  - intros t'. rewrite Ha. intros Hin%H3. unfold issued. rewrite omap_app, elem_of_app. by left.
  - intros t'. unfold issued. rewrite omap_app, elem_of_app. intros [Hin|Hin]; [by apply H4'|].
    cbn in Hin. apply list_elem_of_singleton in Hin as ->. unfold offered. rewrite omap_app, elem_of_app. right. left.
  - by rewrite Ha.
  - by apply backed_snoc_issued.
Qed.

Lemma consume_inv ttl os g evs t b r live now :
  gate_inv os g evs ->
  let s := gate_step ttl (g, evs) (GConsume t b r live now) in
  gate_inv (os ++ [GConsume t b r live now]) s.1 s.2.
Proof.
  intros Hinv. cbv zeta. cbn [gate_step]. destruct (consume t b r live now g) as [res g'] eqn:Hc.
  assert (Hdrop : forall p, p ∈ _discard_expired now g -> p ∈ g) by (intros p [_ ?]%discard_in; done).
  destruct (decide (res = PAccepted)) as [->|Hr].
  2:{ apply consume_refused in Hc as ->; [|done]. replace (match res with PAccepted => _ | _ => evs end) with evs
        by by destruct res.
      eapply gate_inv_shrink; [exact Hinv|apply discard_length|done]. }
  apply consume_accepted in Hc as (-> & -> & -> & d & Hd). apply dget_elem in Hd. set (k := default "" t) in *.
  pose proof (gate_inv_shrink os (GConsume t b New true now) g (ddel k (_discard_expired now g)) evs Hinv) as Hs.
  cbn [fst snd]. destruct Hs as [G1 G2 G3 G4 G5 G6].
  { etransitivity; [apply ddel_length|apply discard_length]. }
  { intros p [Hp _]%ddel_in. by apply Hdrop. }
  apply discard_in in Hd as [Hnow Hd]. cbn [snd] in Hnow.
  destruct (gi_promised _ _ _ Hinv _ _ _ Hd) as [Hi Hna].
  assert (Ha : admitted (evs ++ [Redeemed k b now]) = admitted evs ++ [k]) by (unfold admitted; by rewrite omap_app).
  assert (Hss : issued (evs ++ [Redeemed k b now]) = issued evs) by (unfold issued; rewrite omap_app; cbn; by rewrite app_nil_r).
  split; rewrite ?Ha, ?Hss; try done.
  - intros t' b' d' Hin. destruct (G2 _ _ _ Hin) as [Hi' Hna']. split; [apply elem_of_app; by left|].
    rewrite elem_of_app, list_elem_of_singleton. intros [?| ->]; [done|]. by apply ddel_in in Hin as [_ Hne].
  - intros t' [Hin| ->%list_elem_of_singleton]%elem_of_app; [by apply G3|]. by eapply issued_elem.
  - apply NoDup_app. split; [done|]. split; [|apply NoDup_singleton].
    intros x Hx ->%list_elem_of_singleton. done.
  - apply backed_snoc_admitted; [done|]. eauto.
Qed.

Lemma gate_run_inv ttl os :
  NoDup (offered os) -> gate_inv os (gate_run ttl os).1 (gate_run ttl os).2.
Proof.
  induction os as [|o os IH] using rev_ind; intros Hnd.
  - split; try (by intros * ?%elem_of_nil); cbn; [lia|constructor|]. intros pre * Heq. by destruct pre.
  - unfold gate_run. rewrite foldl_app. cbn [foldl]. fold (gate_run ttl os).
    unfold offered in Hnd. rewrite omap_app in Hnd. apply NoDup_app in Hnd as (Hnd & Hdis & _).
    specialize (IH Hnd). destruct (gate_run ttl os) as [g evs]. cbn [fst snd] in IH.
    destruct o as [b r live t now now'|t b r live now]; [|by apply consume_inv].
    apply issue_inv; [done|]. intros Hin. apply (Hdis t Hin). left.
Qed.

(** A permit admits at most one event, and only its own.  Whatever requests
    reach the gate, in any order and at any time, provided the token generator
    never repeats itself: at most one permit is outstanding; no permit admits
    twice; and every admission is for exactly the contributor, workspace, source,
    ordinal, line and payload the permit was issued for, before its deadline. *)
Theorem permit_single_use (ttl : Z) (os : list gop) :
  NoDup (offered os) ->
  let '(g, evs) := gate_run ttl os in
  length g <= 1 /\ NoDup (admitted evs)
  /\ forall pre t b now post, evs = pre ++ Redeemed t b now :: post ->
       t ∈ offered os /\ t ∉ admitted pre /\ exists d, Issued t b d ∈ pre /\ (now < d)%Z.
Proof.
  intros Hnd. pose proof (gate_run_inv ttl os Hnd) as [H1 H2 H3 H4 H5 H6].
  destruct (gate_run ttl os) as [g evs]. cbn [fst snd] in *. repeat (split; [done|]).
  intros pre t b now post ->. split; [|split; [|by apply (H6 _ _ _ _ post)]].
  - apply H4, H3. unfold admitted. rewrite omap_app, elem_of_app. right. left.
  - unfold admitted in H5. rewrite omap_app in H5. apply NoDup_app in H5 as (_ & Hdis & _).
    intros Hin. apply (Hdis t Hin). left.
Qed.

Definition demo_binding : _PermitBinding := binding "h" "d" (MkOrigin 0 "l") "alice" "w" "p".
Definition demo_history : list gop :=
  [GIssue demo_binding New true "t1" 0 0; GIssue demo_binding New true "t2" 1 1;
   GConsume (Some "t1") demo_binding New true 5; GConsume (Some "t1") demo_binding New true 6].

(** The second permit is refused while the first is outstanding, and the first
    is spent by its first use. *)
Lemma permit_single_use_witness :
  gate_run 60 demo_history = ([], [Issued "t1" demo_binding 60; Redeemed "t1" demo_binding 5])
  /\ NoDup (admitted (gate_run 60 demo_history).2).
Proof.
  split; [by vm_compute|].
  assert (Hnd : NoDup (offered demo_history)) by (apply (bool_decide_eq_true_1 _); by vm_compute).
  pose proof (permit_single_use 60 demo_history Hnd) as Hp. destruct (gate_run 60 demo_history). apply Hp.
Defined.
