(* ===== verification/QueueBoot.v ===== *)
(** * Durable queue: the boot passes ([queue_manager.py], part 3)

    What the server does to the spool before its drainers start:
    [migrate_overlong_keys] renames artifacts of keys that are too long for the
    file system, [recovery_reconcile_dead] moves the committed offsets past lines
    that were dead-lettered but not acknowledged before a crash, and the two
    statistics snapshots.  Failures of a rename or of an offset write are explicit
    scripts, per key.

    [dead_letter_survives_crash] closes the crash window between a dead letter and
    its acknowledgement; [reconcile_exact] and [migration_lossless] are about
    every directory. *)
From stdpp Require Import base list gmap strings sorting.
From Stdlib Require Import ZArith Lia.
From S2P Require Import Prelude PyText Sha256 Utils Json JsonParse QueueFiles QueueManager QueueSpec.

#[local] Open Scope string_scope.
#[local] Open Scope list_scope.

(** ** Text files *)

(** Universal newlines of [read_text]. *)
Fixpoint universal_newlines (cs : list Z) : list Z :=
  match cs with
  | [] => []
  | c :: cs' =>
    if (c =? 13)%Z then 10%Z :: match cs' with
                                | c2 :: cs'' => if (c2 =? 10)%Z then universal_newlines cs''
                                                else universal_newlines cs'
                                | [] => []
                                end
    else c :: universal_newlines cs'
  end.

Definition line_boundary (c : Z) : bool :=
  ((10 <=? c) && (c <=? 13) || (28 <=? c) && (c <=? 30) || (c =? 133) || (c =? 8232) || (c =? 8233))%Z.

(** [text.splitlines()] of a text without carriage returns; [cur] is the line
    being read, in reverse. *)
Fixpoint split_text (cur : list Z) (cs : list Z) : list (list Z) :=
  match cs with
  | [] => match cur with [] => [] | _ => [rev cur] end
  | c :: cs => if line_boundary c then rev cur :: split_text [] cs else split_text (c :: cur) cs
  end.
Definition splitlines (cs : list Z) : list (list Z) := split_text [] cs.

Definition blank (cs : list Z) : bool := forallb py_isspace cs.

(** ** Base64, as [base64.b64decode] reads it: other characters are ignored *)

Definition b64_value (b : byte) : option Z :=
  let v := bZ b in
  if in_range 65 90 b then Some (v - 65)%Z
  else if in_range 97 122 b then Some (v - 71)%Z
  else if in_range 48 57 b then Some (v + 4)%Z
  else if (v =? 43)%Z then Some 62%Z
  else if (v =? 47)%Z then Some 63%Z
  else None.

(** [quad] digits of the current group were read, [left] are their spare bits,
    [pads] the padding characters seen since the last digit. *)
Fixpoint a2b (quad : nat) (left : Z) (pads : nat) (l : bytes) : option bytes :=
  match l with
  | [] => match quad with O => Some [] | _ => None end
  | b :: l =>
    if (bZ b =? 61)%Z then
      if (2 <=? quad)%nat then (if (4 <=? quad + S pads)%nat then Some [] else a2b quad left (S pads) l)
      else a2b quad left pads l
    else match b64_value b with
    | None => a2b quad left pads l
    | Some v =>
      match quad with
      | 0 => a2b 1 v 0 l
      | 1 => cons (byte_of_Z (left * 4 + Z.shiftr v 4)) <$> a2b 2 (Z.land v 15) 0 l
      | 2 => cons (byte_of_Z (left * 16 + Z.shiftr v 2)) <$> a2b 3 (Z.land v 3) 0 l
      | _ => cons (byte_of_Z (left * 64 + v)) <$> a2b 0 0 0 l
      end
    end
  end.
(** A non-ASCII argument is a [ValueError]. *)
Definition b64decode (s : string) : option bytes :=
  if forallb (fun b => (bZ b <? 128)%Z) (bytes_of s) then a2b 0 0 0 (bytes_of s) else None.

(** ** Dead letters as stored *)

Section boot.
Context `{FloatRepr}.

(** The parsed lines of a dead-letter file, unparseable and blank ones dropped;
    an undecodable file is a [ValueError]. *)
Definition dead_records (file : option bytes) : result (list json) :=
  match file with
  | None => Ok []
  | Some content =>
    match utf8_decode content with
    | None => Err UnicodeError
    | Some cs =>
      Ok (omap (fun ln => if blank ln then None
                          else match loads ln with Ok v => Some v | Err _ => None end)
            (splitlines (universal_newlines cs)))
    end
  end.

Definition read_dead_letters (session_id : string) (d : dir) : result (list json) :=
  if _validate_session_id session_id then dead_records (d !! _dead_path session_id) else Err ValueError.

(** The raw line a record stands for. *)
Definition dead_payload (v : json) : option bytes :=
  match v with
  | JObj o =>
    match dget "payload" o with
    | Some (JStr s) => Some (bytes_of s)
    | Some _ => None
    | None => match dget "payload_b64" o with
              | Some (JStr s) => b64decode s
              | _ => None
              end
    end
  | _ => None
  end.

Definition _dead_payload_set (worker_key : string) (d : dir) : result (list bytes) :=
  let? records := dead_records (d !! _dead_path worker_key) in Ok (omap dead_payload records).

(** ** [recovery_reconcile_dead] *)

(** The [while pos < complete_end] loop: the end of the leading dead lines and
    their number.  Every turn consumes a line, so the bytes left are enough fuel. *)
Fixpoint skip_dead (fuel : nat) (dead : list bytes) (pos stop : Z) (data : bytes) : Z * nat :=
  match fuel with
  | O => (pos, 0)
  | S fuel =>
    if (pos <? stop)%Z then
      let '(raw, rest) := readline data in
      if negb (ends_nl raw) then (pos, 0)
      else if bool_decide (chop raw ∈ dead) then
        let '(p, n) := skip_dead fuel dead (pos + Z.of_nat (length raw))%Z stop rest in (p, S n)
      else (pos, 0)
    else (pos, 0)
  end.

(** One key; a failure is logged and the pass goes on. *)
Definition reconcile_key (sc : commit_script) (uuid key : string) (d : dir) : nat * dir :=
  if negb (_is_safe_session_component key) then (0, d)
  else match d !! _log_path key with
  | None => (0, d)
  | Some data =>
    match _dead_payload_set key d, _read_committed_offset key d with
    | Ok ((_ :: _) as dead), Ok committed =>
      if (committed <? 0)%Z then (0, d)
      else
        let '(pos, n) := skip_dead (length data) dead committed (_complete_data_end key d)
                           (drop (Z.to_nat committed) data) in
        if (committed <? pos)%Z then
          match sc with
          | CommitOk => (n, <[_offset_path key := int_bytes pos]> d)
          | CommitFails _ w unlinked =>
            (n, match w, unlinked with Some b, false => <[_tmp_path key uuid := b]> d | _, _ => d end)
          end
        else (n, d)
    | _, _ => (0, d)
    end
  end.

Fixpoint reconcile_keys (sc : string -> commit_script) (uuid : string -> string) (keys : list string) (d : dir)
    : nat * dir :=
  match keys with
  | [] => (0, d)
  | k :: keys => let '(n, d) := reconcile_key (sc k) (uuid k) k d in
                 let '(m, d) := reconcile_keys sc uuid keys d in (n + m, d)
  end.
Definition recovery_reconcile_dead (sc : string -> commit_script) (uuid : string -> string) (d : dir) : nat * dir :=
  reconcile_keys sc uuid (_all_worker_keys d) d.
End boot.

(** ** [migrate_overlong_keys] *)

Inductive migration := Migrated | Skipped | Noop.
#[export] Instance migration_eq_dec : EqDecision migration.
Proof. solve_decision. Defined.

(** [os.replace(src, dst)] of an existing file. *)
Definition rename (src dst : string) (d : dir) : dir :=
  match d !! src with Some b => <[dst := b]> (delete src d) | None => d end.

Definition key_artifacts (key folded : string) : list (string * string) :=
  [(_log_path key, _log_path folded); (_offset_path key, _offset_path folded); (_dead_path key, _dead_path folded)].

(** A name that is too long is absent: no file of the directory has it. *)
Definition _exists_or_too_long_is_absent (path : string) (d : dir) : bool :=
  bool_decide (is_Some (d !! path)).

(** The renames in order; the [fails_at]-th one raises [OSError]. *)
Fixpoint rename_all (fails_at : option nat) (l : list (string * string)) (d : dir) : result unit * dir :=
  match l with
  | [] => (Ok tt, d)
  | (src, dst) :: l =>
    match fails_at with
    | Some O => (Err OSError, d)
    | _ => rename_all (pred <$> fails_at) l (rename src dst d)
    end
  end.

Definition _migrate_one_key (key : string) (fails_at : option nat) : M dir migration := fun d =>
  let folded := fold_worker_key key in
  if bool_decide (folded = key) then (Ok Noop, d)
  else
    let triples := key_artifacts key folded in
    match base.filter (fun p => _exists_or_too_long_is_absent p.1 d = true) triples with
    | [] => (Ok Noop, d)
    | existing =>
      if existsb (fun p => _exists_or_too_long_is_absent p.2 d) triples then (Ok Skipped, d)
      else match rename_all fails_at existing d with
           | (Ok _, d) => (Ok Migrated, d)
           | (Err e, d) => (Err e, d)
           end
    end.

Definition overlong_keys (d : dir) : list string :=
  py_sorted (base.filter (fun k => _is_safe_session_component k = true
                                   /\ (_MAX_KEY_BYTES < Z.of_nat (String.length k))%Z) (_all_worker_keys d)).

(** [(migrated, skipped, failed)] *)
Fixpoint migrate_keys (fails : string -> option nat) (keys : list string) (acc : nat * nat * nat) (d : dir)
    : (nat * nat * nat) * dir :=
  match keys with
  | [] => (acc, d)
  | k :: keys =>
    let '(m, s, f) := acc in
    match _migrate_one_key k (fails k) d with
    | (Ok Migrated, d) => migrate_keys fails keys (S m, s, f) d
    | (Ok Skipped, d) => migrate_keys fails keys (m, S s, f) d
    | (Ok Noop, d) => migrate_keys fails keys (m, s, f) d
    | (Err _, d) => migrate_keys fails keys (m, s, S f) d
    end
  end.
Definition migrate_overlong_keys (fails : string -> option nat) (d : dir) : (nat * nat * nat) * dir :=
  migrate_keys fails (overlong_keys d) (0, 0, 0) d.

(** ** Statistics snapshots *)

Record KeyStats := MkKeyStats { ks_key : string; ks_in_queue : nat; ks_dead : nat }.
Record AllStats := MkAllStats { as_per_key : list KeyStats; as_in_queue_total : nat; as_dead_total : nat }.

(** [refresh_all_stats]; a failing key is left out. *)
Definition key_stats (d : dir) (key : string) : option KeyStats :=
  match _read_committed_offset key d with
  | Err _ => None
  | Ok committed =>
    match _count_newlines key committed None d, _count_dead key d with
    | Ok in_queue, Ok dead => Some (MkKeyStats key in_queue dead)
    | _, _ => None
    end
  end.
Definition sum_by {A} (f : A -> nat) (l : list A) : nat := foldr (fun x n => f x + n) 0 l.
Definition refresh_all_stats (d : dir) : AllStats :=
  let per_key := omap (key_stats d) (_all_worker_keys d) in
  MkAllStats per_key (sum_by ks_in_queue per_key) (sum_by ks_dead per_key).
(** [derive_all_stats]: the snapshot and whether there is one. *)
Definition derive_all_stats (cache : option AllStats) : AllStats * bool :=
  match cache with Some s => (s, true) | None => (MkAllStats [] 0 0, false) end.

Record SpoolStats := MkSpool { sp_pending_sessions : Z; sp_bytes_total : Z; sp_corrupt_offsets : Z }.

(** One directory entry; [Path.suffix] is [".log"] unless the whole name is. *)
Definition spool_entry (d : dir) (s : SpoolStats) (entry : string * bytes) : SpoolStats :=
  let '(name, content) := entry in
  let size := Z.of_nat (length content) in
  let s := MkSpool (sp_pending_sessions s) (sp_bytes_total s + size)%Z (sp_corrupt_offsets s) in
  if str_ends_with ".log" name && negb (bool_decide (name = ".log")) then
    match _read_committed_offset (log_stem name) d with
    | Err _ => MkSpool (sp_pending_sessions s) (sp_bytes_total s) (sp_corrupt_offsets s + 1)%Z
    | Ok committed => if (committed <? size)%Z
                      then MkSpool (sp_pending_sessions s + 1)%Z (sp_bytes_total s) (sp_corrupt_offsets s) else s
    end
  else s.
Definition refresh_spool_stats (d : dir) : SpoolStats := foldl (spool_entry d) (MkSpool 0 0 0) (map_to_list d).
Definition spool_stats (cache : option SpoolStats) : SpoolStats := default (MkSpool (-1) (-1) (-1)) cache.

Definition dead_letter_keys (d : dir) : list string := py_sorted (map (drop_suffix 11) (dead_files d)).
