(* ===== verification/QueueBootSpec.v ===== *)
(** * Theorems on the boot passes of the queue

    [reconcile_exact]: reconciliation moves a committed offset past exactly the
    leading lines that are already dead-lettered.  [dead_letter_survives_crash]:
    in particular past a line whose dead letter was the last thing written before
    a crash.  [migration_lossless]: renaming over-long keys moves every file to
    its folded name or leaves it, and overwrites nothing. *)
From stdpp Require Import base list gmap strings sorting.
From Stdlib Require Import ZArith Lia.
From S2P Require Import Prelude PyText Sha256 Utils Json JsonParse JsonIndent QueueFiles QueueManager QueueSpec BlobKeys QueueBoot.

#[local] Open Scope string_scope.
#[local] Open Scope list_scope.

(** ** Paths of different kinds differ, whatever their keys *)

Lemma last_ne (a b s t : string) : last (bytes_of s) <> last (bytes_of t) ->
  is_Some (last (bytes_of s)) -> is_Some (last (bytes_of t)) -> a +:+ s <> b +:+ t.
Proof.
  intros Hne [x Hx] [y Hy] H. apply (f_equal (fun s => last (bytes_of s))) in H.
  rewrite !bytes_of_app, !last_app, Hx, Hy in H. congruence.
Qed.

Lemma str_app_assoc (a b c : string) : a +:+ (b +:+ c) = (a +:+ b) +:+ c.
Proof.
  rewrite <- (str_of_bytes_of (a +:+ (b +:+ c))), <- (str_of_bytes_of ((a +:+ b) +:+ c)).
  f_equal. by rewrite !bytes_of_app, app_assoc.
Qed.

Lemma tmp_path_app k u : _tmp_path k u = (k +:+ ".offset." +:+ u) +:+ ".tmp".
Proof. unfold _tmp_path. by rewrite !str_app_assoc. Qed.

Ltac path_ne := rewrite ?tmp_path_app; apply last_ne; [vm_compute; discriminate|vm_compute; eauto..].

Lemma log_ne_tmp k k' u : _log_path k <> _tmp_path k' u.
Proof. path_ne. Qed.
Lemma offset_ne_tmp k k' u : _offset_path k <> _tmp_path k' u.
Proof. path_ne. Qed.
Lemma dead_ne_tmp k k' u : _dead_path k <> _tmp_path k' u.
Proof. path_ne. Qed.
Lemma dead_ne_offset k k' : _dead_path k <> _offset_path k'.
Proof. path_ne. Qed.
Lemma dead_ne_log k k' : _dead_path k <> _log_path k'.
Proof. path_ne. Qed.
#[export] Hint Resolve log_ne_tmp offset_ne_tmp dead_ne_tmp dead_ne_offset dead_ne_log : queue.

Lemma offset_path_inj k k' : _offset_path k = _offset_path k' -> k = k'.
Proof. apply app_str_inj_r. Qed.

(** ** The reconciliation loop *)

(** How many leading records are in [dead]. *)
Fixpoint lead (dead rs : list bytes) : nat :=
  match rs with
  | r :: rs => if bool_decide (r ∈ dead) then S (lead dead rs) else 0
  | [] => 0
  end.

Lemma lead_le dead rs : lead dead rs <= length rs.
Proof. induction rs as [|r rs IH]; cbn [lead length]; [lia|]. case_bool_decide; lia. Qed.

Lemma lead_run dead rs :
  Forall (fun r => r ∈ dead) (take (lead dead rs) rs)
  /\ (lead dead rs < length rs -> exists r, head (drop (lead dead rs) rs) = Some r /\ r ∉ dead).
Proof.
  induction rs as [|r rs [IH1 IH2]]; cbn [lead length take]; [split; [constructor|lia]|].
  case_bool_decide as Hr; cbn [take drop].
  - split; [by constructor|]. intros Hlt. apply IH2. lia.
  - split; [constructor|]. intros _. exists r. done.
Qed.

(** The same of the pending lines of a queue. *)
Lemma lead_queue dead q :
  let n := lead dead (drop (q_done q) (q_all q)) in
  n <= q_pending q /\ Forall (fun r => r ∈ dead) (next q n)
  /\ (n < q_pending q -> exists r, head (drop n (drop (q_done q) (q_all q))) = Some r /\ r ∉ dead).
Proof.
  cbv zeta. unfold next, q_pending. rewrite <- length_drop. split; [apply lead_le|]. apply lead_run.
Qed.

Lemma skip_dead_encode fuel dead pos stop rs torn :
  Forall framed rs -> length (encode rs) <= fuel -> stop = (pos + Z.of_nat (length (encode rs)))%Z ->
  skip_dead fuel dead pos stop (encode rs ++ torn)
  = ((pos + Z.of_nat (length (encode (take (lead dead rs) rs))))%Z, lead dead rs).
Proof.
  intros Hf. revert fuel pos. induction Hf as [|r rs Hr Hf IH]; intros fuel pos Hfuel Hstop.
  - cbn [lead take encode map concat length] in *. rewrite Z.add_0_r.
    destruct fuel; cbn [skip_dead]; [done|]. rewrite (proj2 (Z.ltb_ge pos stop)); [done|cbn in *; lia].
  - change (encode (r :: rs)) with (frame r ++ encode rs) in *. rewrite length_app in *.
    assert (Hlen : 0 < length (frame r)) by (unfold frame; rewrite length_app; simpl; lia).
    destruct fuel as [|fuel]; [lia|]. cbn [skip_dead lead].
    rewrite (proj2 (Z.ltb_lt pos stop)) by lia. rewrite <- app_assoc, readline_frame by done.
    rewrite ends_nl_frame, chop_frame. cbn [negb]. case_bool_decide; [|cbn; f_equal; lia].
    rewrite IH by lia. cbn [take]. change (encode (r :: ?l)) with (frame r ++ encode l).
    rewrite length_app. f_equal. lia.
Qed.

Section reconcile.
Context `{FloatRepr}.

(** The reconciliation of another key leaves this one's files alone. *)
Lemma reconcile_key_other sc u k' d p :
  (p <> _offset_path k') -> (forall u, p <> _tmp_path k' u) -> (snd (reconcile_key sc u k' d)) !! p = d !! p.
Proof.
  intros H1 H2. unfold reconcile_key. repeat case_match; simplify_eq/=; try done;
    by rewrite lookup_insert_ne by (by apply not_eq_sym || congruence).
Qed.

Lemma reconcile_key_implements sc u k d q torn :
  implements k d q torn -> _validate_session_id k = true ->
  let d' := snd (reconcile_key sc u k d) in
  match sc, _dead_payload_set k d with
  | CommitOk, Ok dead => implements k d' (acknowledge q (lead dead (drop (q_done q) (q_all q)))) torn
  | _, _ => implements k d' q torn
  end.
Proof.
  intros Hq Hk. cbv zeta. unfold reconcile_key.
  assert (_is_safe_session_component k = true) as ->.
  { unfold _validate_session_id, is_safe_session_id in Hk. by destruct (_is_safe_session_component k), (_ <=? _)%Z. }
  cbn [negb].
  assert (Hz : implements k d (acknowledge q 0) torn) by (unfold acknowledge; rewrite Nat.add_0_r; by destruct q).
  destruct (d !! _log_path k) as [data|] eqn:Hl.
  2:{ destruct (implements_missing _ _ _ _ Hq Hl) as [-> ->]. destruct sc; [|done].
      destruct (_dead_payload_set k d); [exact Hz|done]. }
  destruct (_dead_payload_set k d) as [dead|]; [|by destruct sc].
  destruct dead as [|x dead].
  { destruct sc; [|done]. replace (lead [] _) with 0; [exact Hz|]. by destruct (drop _ _). }
  set (dd := x :: dead). rewrite (impl_offset _ _ _ _ Hq), (complete_data_end_implements _ _ _ _ Hq).
  rewrite (proj2 (Z.ltb_ge _ _) (q_position_nonneg q (q_done q))).
  assert (Hd := impl_log _ _ _ _ Hq). unfold file_content in Hd. rewrite Hl in Hd. rewrite Hd.
  rewrite drop_position by apply Hq. rewrite skip_dead_encode.
  2:{ apply Forall_drop, Hq. }
  2:{ rewrite length_app. rewrite <- (take_drop (q_done q) (q_all q)) at 2. rewrite encode_app, length_app. lia. }
  2:{ apply encode_split, Hq. }
  set (n := lead dd (drop (q_done q) (q_all q))).
  assert (Hn : n <= q_pending q).
  { unfold n, q_pending. rewrite <- length_drop. apply lead_le. }
  assert (Hpos : (q_position q (q_done q) + Z.of_nat (length (encode (take n (drop (q_done q) (q_all q))))))%Z
                 = q_position q (q_done q + n)) by (by rewrite q_position_add).
  rewrite Hpos. destruct (Z.ltb_spec (q_position q (q_done q)) (q_position q (q_done q + n))) as [Hlt|Hge].
  - pose proof (commit_acknowledges k d q torn n u sc Hq Hk Hn) as Hc.
    unfold commit in Hc. rewrite Hk in Hc. by destruct sc as [|e [b|] [|]].
  - destruct sc; [|done]. assert (n = 0) as ->; [|exact Hz].
    destruct n as [|m] eqn:Hm; [done|]. exfalso. rewrite <- Hpos in Hge.
    assert (Hne : take (S m) (drop (q_done q) (q_all q)) <> []).
    { intros He. apply (f_equal length) in He. rewrite length_take, length_drop in He. unfold q_pending in Hn.
      cbn [length] in He. lia. }
    apply encode_length_pos in Hne. lia.
Qed.

Lemma payloads_same k d d' : d' !! _dead_path k = d !! _dead_path k -> _dead_payload_set k d' = _dead_payload_set k d.
Proof. unfold _dead_payload_set. by intros ->. Qed.

Lemma reconcile_keys_cons sc u k keys d :
  snd (reconcile_keys sc u (k :: keys) d) = snd (reconcile_keys sc u keys (snd (reconcile_key (sc k) (u k) k d))).
Proof.
  cbn [reconcile_keys]. destruct (reconcile_key (sc k) (u k) k d) as [n d1]. cbn [snd].
  by destruct (reconcile_keys sc u keys d1).
Qed.

(** No pass touches a log or a dead-letter file, and none of another key's. *)
Lemma reconcile_keys_other sc u keys d p :
  (forall k, k ∈ keys -> p <> _offset_path k) -> (forall k u, p <> _tmp_path k u) ->
  snd (reconcile_keys sc u keys d) !! p = d !! p.
Proof.
  intros H1 H2. revert d. induction keys as [|k keys IH]; intros d; [done|]. rewrite reconcile_keys_cons, IH.
  - apply reconcile_key_other; [apply H1; left|intros; apply H2].
  - intros k' Hk'. apply H1. by right.
Qed.

Lemma reconcile_keys_implements sc u keys k d q torn :
  implements k d q torn -> _validate_session_id k = true -> NoDup keys ->
  let d' := snd (reconcile_keys sc u keys d) in
  match sc k, _dead_payload_set k d with
  | CommitOk, Ok dead =>
    implements k d' (if decide (k ∈ keys) then acknowledge q (lead dead (drop (q_done q) (q_all q))) else q) torn
  | _, _ => implements k d' q torn
  end.
Proof.
  intros Hq Hk Hnd. cbv zeta. revert d q Hq. induction Hnd as [|k' keys Hni Hnd IH]; intros d q Hq.
  { cbn [reconcile_keys snd]. by destruct (sc k), (_dead_payload_set k d). }
  rewrite reconcile_keys_cons. destruct (decide (k' = k)) as [->|Hne].
  - pose proof (reconcile_key_implements (sc k) (u k) k d q torn Hq Hk) as Hs. cbv zeta in Hs.
    set (d1 := snd (reconcile_key (sc k) (u k) k d)) in *.
    assert (Hkeep : forall q, implements k d1 q torn -> implements k (snd (reconcile_keys sc u keys d1)) q torn).
    { intros q' Hq'. apply (implements_same k d1); [..|done]; apply reconcile_keys_other; auto with queue.
      intros x Hx Hp%offset_path_inj. congruence. }
    destruct (sc k), (_dead_payload_set k d) as [dead|]; rewrite ?decide_True by (by left); by apply Hkeep.
  - set (d1 := snd (reconcile_key (sc k') (u k') k' d)).
    assert (Hq1 : implements k d1 q torn).
    { apply (implements_same k d); [..|done]; apply reconcile_key_other; auto with queue.
      intros Hp%offset_path_inj. congruence. }
    specialize (IH d1 q Hq1).
    rewrite (payloads_same k d d1) in IH by (apply reconcile_key_other; auto with queue).
    destruct (sc k), (_dead_payload_set k d) as [dead|]; try done.
    destruct (decide (k ∈ keys)); [rewrite decide_True by (by right); done|].
    by rewrite decide_False by (rewrite not_elem_of_cons; done).
Qed.

Lemma all_keys_nodup d : NoDup (_all_worker_keys d).
Proof. unfold _all_worker_keys, py_sorted. rewrite merge_sort_Permutation. apply NoDup_remove_dups. Qed.

Lemma reconcile_all sc u k d q torn :
  implements k d q torn -> _validate_session_id k = true ->
  let d' := snd (recovery_reconcile_dead sc u d) in
  match sc k, _dead_payload_set k d with
  | CommitOk, Ok dead => implements k d' (acknowledge q (lead dead (drop (q_done q) (q_all q)))) torn
  | _, _ => implements k d' q torn
  end.
Proof.
  intros Hq Hk. cbv zeta. unfold recovery_reconcile_dead.
  pose proof (reconcile_keys_implements sc u (_all_worker_keys d) k d q torn Hq Hk (all_keys_nodup d)) as Hs.
  cbv zeta in Hs. destruct (sc k); [|done]. destruct (_dead_payload_set k d) as [dead|]; [|done].
  case_decide as Hin; [done|]. destruct (d !! _log_path k) eqn:Hl.
  - destruct Hin. unfold _all_worker_keys. rewrite elem_of_py_sorted, elem_of_remove_dups, elem_of_app.
    left. apply elem_of_log_files; eauto using validate_not_empty.
  - destruct (implements_missing _ _ _ _ Hq Hl) as [-> ->]. exact Hs.
Qed.

(** Reconciliation is exact.  On every spool, for every key: the pass
    acknowledges precisely the longest run of pending lines that already have a
    dead letter (nothing that still has to be processed, and no torn tail), if the
    offset could be written and the dead-letter file could be read; otherwise the
    queue is as it was.  Logs and dead letters are never touched. *)
Theorem reconcile_exact (sc : string -> commit_script) (u : string -> string) (k : string) (d : dir) (q : aqueue)
    (torn : bytes) :
  implements k d q torn -> _validate_session_id k = true ->
  let d' := snd (recovery_reconcile_dead sc u d) in
  (forall k', d' !! _log_path k' = d !! _log_path k' /\ d' !! _dead_path k' = d !! _dead_path k')
  /\ match sc k, _dead_payload_set k d with
     | CommitOk, Ok dead => exists n,
         implements k d' (acknowledge q n) torn /\ n <= q_pending q
         /\ Forall (fun r => r ∈ dead) (next q n)
         /\ (n < q_pending q -> exists r, head (drop n (drop (q_done q) (q_all q))) = Some r /\ r ∉ dead)
     | _, _ => implements k d' q torn
     end.
Proof.
  intros Hq Hk. cbv zeta. split.
  { intros k'. split; apply reconcile_keys_other; auto with queue. }
  pose proof (reconcile_all sc u k d q torn Hq Hk) as Hs. cbv zeta in Hs.
  destruct (sc k); [|done]. destruct (_dead_payload_set k d) as [dead|]; [|done].
  eexists. split; [exact Hs|apply lead_queue].
Qed.
End reconcile.

(** ** Base64 reads back what it wrote *)

Lemma b64_value_digit v : (0 <= v < 64)%Z -> b64_value (b64_digit v) = Some v /\ (bZ (b64_digit v) =? 61)%Z = false.
Proof.
  intros Hv.
  assert (Hall : forallb (fun n => match b64_value (b64_digit (Z.of_nat n)) with
                                   | Some x => (x =? Z.of_nat n)%Z && negb (bZ (b64_digit (Z.of_nat n)) =? 61)%Z
                                   | None => false
                                   end) (seq 0 64) = true) by by vm_compute.
  rewrite forallb_forall in Hall. specialize (Hall (Z.to_nat v)).
  rewrite Z2Nat.id in Hall by lia. destruct (b64_value (b64_digit v)) as [x|].
  - rewrite andb_true_iff, negb_true_iff, Z.eqb_eq in Hall. destruct Hall as [-> ?]; [apply in_seq; lia|done].
  - discriminate Hall. apply in_seq. lia.
Qed.

Lemma a2b_digit quad left pads v l :
  (0 <= v < 64)%Z ->
  a2b quad left pads (b64_digit v :: l)
  = match quad with
    | 0 => a2b 1 v 0 l
    | 1 => cons (byte_of_Z (left * 4 + Z.shiftr v 4)) <$> a2b 2 (Z.land v 15) 0 l
    | 2 => cons (byte_of_Z (left * 16 + Z.shiftr v 2)) <$> a2b 3 (Z.land v 3) 0 l
    | _ => cons (byte_of_Z (left * 64 + v)) <$> a2b 0 0 0 l
    end.
Proof. intros Hv. cbn [a2b]. destruct (b64_value_digit v Hv) as [-> ->]. done. Qed.

(** The groups of six bits, as quotients and remainders. *)
Lemma land_mods x : Z.land x 3 = (x mod 4)%Z /\ Z.land x 15 = (x mod 16)%Z /\ Z.land x 63 = (x mod 64)%Z.
Proof.
  change 3%Z with (Z.ones 2). change 15%Z with (Z.ones 4). change 63%Z with (Z.ones 6).
  rewrite !Z.land_ones by lia. done.
Qed.

Lemma shiftr_divs x : Z.shiftr x 2 = (x / 4)%Z /\ Z.shiftr x 4 = (x / 16)%Z /\ Z.shiftr x 6 = (x / 64)%Z.
Proof. rewrite !Z.shiftr_div_pow2 by lia. done. Qed.

Ltac six_bits := repeat match goal with
  | |- context [Z.land ?x 3] => rewrite (proj1 (land_mods x))
  | |- context [Z.land ?x 15] => rewrite (proj1 (proj2 (land_mods x)))
  | |- context [Z.land ?x 63] => rewrite (proj2 (proj2 (land_mods x)))
  | |- context [Z.shiftr ?x 2] => rewrite (proj1 (shiftr_divs x))
  | |- context [Z.shiftr ?x 4] => rewrite (proj1 (proj2 (shiftr_divs x)))
  | |- context [Z.shiftr ?x 6] => rewrite (proj2 (proj2 (shiftr_divs x)))
  end.
Ltac group_arith a b c :=
  pose proof (bZ_bound a); pose proof (bZ_bound b); pose proof (bZ_bound c);
  six_bits; Z.div_mod_to_equations; lia.

(** One full group. *)
Lemma a2b_group a b c l :
  a2b 0 0 0 (b64encode (a :: b :: c :: l)) = (fun r => a :: b :: c :: r) <$> a2b 0 0 0 (b64encode l).
Proof.
  cbn [b64encode]. rewrite !a2b_digit by group_arith a b c.
  replace (Z.shiftr (bZ a) 2 * 4 + Z.shiftr (Z.land (bZ a) 3 * 16 + Z.shiftr (bZ b) 4) 4)%Z with (bZ a) by group_arith a b c.
  replace (Z.land (Z.land (bZ a) 3 * 16 + Z.shiftr (bZ b) 4) 15 * 16
           + Z.shiftr (Z.land (bZ b) 15 * 4 + Z.shiftr (bZ c) 6) 2)%Z with (bZ b) by group_arith a b c.
  replace (Z.land (Z.land (bZ b) 15 * 4 + Z.shiftr (bZ c) 6) 3 * 64 + Z.land (bZ c) 63)%Z with (bZ c) by group_arith a b c.
  rewrite !byte_of_bZ. by destruct (a2b 0 0 0 (b64encode l)).
Qed.

Lemma a2b_encode l : a2b 0 0 0 (b64encode l) = Some l.
Proof.
  remember (length l) as n eqn:Hn. revert l Hn. induction n as [n IH] using lt_wf_ind. intros l Hn.
  destruct l as [|a [|b [|c l]]].
  - done.
  - cbn [b64encode]. rewrite !a2b_digit by group_arith a a a. cbn [a2b].
    replace (Z.shiftr (bZ a) 2 * 4 + Z.shiftr (Z.land (bZ a) 3 * 16) 4)%Z with (bZ a) by group_arith a a a.
    by rewrite byte_of_bZ.
  - cbn [b64encode]. rewrite !a2b_digit by group_arith a b b. cbn [a2b].
    replace (Z.shiftr (bZ a) 2 * 4 + Z.shiftr (Z.land (bZ a) 3 * 16 + Z.shiftr (bZ b) 4) 4)%Z with (bZ a) by group_arith a b b.
    replace (Z.land (Z.land (bZ a) 3 * 16 + Z.shiftr (bZ b) 4) 15 * 16 + Z.shiftr (Z.land (bZ b) 15 * 4) 2)%Z
      with (bZ b) by group_arith a b b.
    by rewrite !byte_of_bZ.
  - rewrite a2b_group, (IH (length l)) by (try done; cbn in Hn; lia). done.
Qed.

Lemma b64_digit_ascii v : (0 <= v < 64)%Z -> (bZ (b64_digit v) <? 128)%Z = true.
Proof.
  intros Hv. unfold b64_digit. destruct (Z.ltb_spec v 26), (Z.ltb_spec v 52), (Z.ltb_spec v 62), (Z.eqb_spec v 62);
    try lia; try done; rewrite bZ_byte_of_Z by lia; apply Z.ltb_lt; lia.
Qed.

Lemma b64encode_ascii l : Forall (fun b => (bZ b <? 128)%Z = true) (b64encode l).
Proof.
  remember (length l) as n eqn:Hn. revert l Hn. induction n as [n IH] using lt_wf_ind. intros l Hn.
  destruct l as [|a [|b [|c l]]]; cbn [b64encode];
    repeat (apply Forall_cons; split; [first [done|apply b64_digit_ascii]|]); try apply Forall_nil_2;
    try (group_arith a a a); try (group_arith a b b); try (group_arith a b c).
  eapply IH; [|done]. cbn in Hn. lia.
Qed.

Lemma b64decode_encode l : b64decode (str_of (b64encode l)) = Some l.
Proof.
  unfold b64decode. rewrite bytes_of_str_of, a2b_encode.
  rewrite (proj2 (forallb_forall _ _)); [done|]. intros b Hb.
  apply (proj1 (Forall_forall _ _) (b64encode_ascii l)). by apply list_elem_of_In.
Qed.

(** ** Lines of a text file *)

Lemma newlines_snoc cs ds :
  universal_newlines ((cs ++ [10%Z]) ++ ds) = universal_newlines (cs ++ [10%Z]) ++ universal_newlines ds.
Proof.
  remember (length cs) as n eqn:Hn. revert cs Hn. induction n as [n IH] using lt_wf_ind. intros cs Hn.
  destruct cs as [|c cs]; [done|]. cbn [app universal_newlines].
  destruct (c =? 13)%Z; [|cbn [app]; f_equal; eapply IH; [|done]; cbn in Hn; lia].
  destruct cs as [|c2 cs]; [done|]. cbn [app]. destruct (c2 =? 10)%Z; cbn [app]; f_equal.
  - eapply IH; [|done]. cbn in Hn. lia.
  - change (c2 :: (cs ++ [10%Z]) ++ ds) with (((c2 :: cs) ++ [10%Z]) ++ ds).
    change (c2 :: cs ++ [10%Z]) with ((c2 :: cs) ++ [10%Z]). eapply IH; [|done]. cbn in Hn |- *. lia.
Qed.

Lemma newlines_ends cs : exists cs', universal_newlines (cs ++ [10%Z]) = cs' ++ [10%Z].
Proof.
  remember (length cs) as n eqn:Hn. revert cs Hn. induction n as [n IH] using lt_wf_ind. intros cs Hn.
  destruct cs as [|c cs]; [by exists []|]. cbn [app universal_newlines].
  destruct (c =? 13)%Z.
  - destruct cs as [|c2 cs]; [by exists []|]. cbn [app]. destruct (c2 =? 10)%Z.
    + destruct (IH (length cs)) with (cs := cs) as [x ->]; [cbn in Hn; lia|done|]. by exists (10%Z :: x).
    + destruct (IH (length (c2 :: cs))) with (cs := c2 :: cs) as [x Hx]; [cbn in Hn |- *; lia|done|].
      cbn [app] in Hx. rewrite Hx. by exists (10%Z :: x).
  - destruct (IH (length cs)) with (cs := cs) as [x ->]; [cbn in Hn; lia|done|]. by exists (c :: x).
Qed.

Lemma newlines_plain cs : Forall (fun c => c <> 13%Z) cs -> universal_newlines cs = cs.
Proof.
  induction 1 as [|c cs Hc _ IH]; [done|]. cbn [universal_newlines].
  rewrite (proj2 (Z.eqb_neq c 13) Hc). by rewrite IH.
Qed.

Lemma split_text_snoc cur cs ds :
  split_text cur ((cs ++ [10%Z]) ++ ds) = split_text cur (cs ++ [10%Z]) ++ split_text [] ds.
Proof.
  revert cur. induction cs as [|c cs IH]; intros cur; cbn [app split_text].
  - change (line_boundary 10) with true. done.
  - destruct (line_boundary c); [|apply IH]. rewrite IH. done.
Qed.

Lemma split_text_line cur cs :
  Forall (fun c => line_boundary c = false) cs -> split_text cur (cs ++ [10%Z]) = [rev cur ++ cs].
Proof.
  intros Hcs. revert cur. induction Hcs as [|c cs Hc _ IH]; intros cur; cbn [app split_text].
  - change (line_boundary 10) with true. cbn. by rewrite app_nil_r.
  - rewrite Hc, IH. cbn [rev]. by rewrite <- app_assoc.
Qed.

Lemma decode_app a b cs : utf8_decode a = Some cs -> utf8_decode (a ++ b) = app cs <$> utf8_decode b.
Proof.
  intros [Hs <-]%utf8_decode_sound. induction Hs as [|c cs Hc _ IH].
  { unfold utf8_encode. cbn [map concat app]. by destruct (utf8_decode b). }
  unfold utf8_encode in *. cbn [map concat]. rewrite <- app_assoc, decode_encode_one, IH by done.
  by destruct (utf8_decode b).
Qed.

(** A dead-letter file of complete lines. *)
Definition dead_file_ok (content : bytes) : Prop :=
  content = [] \/ exists c, content = c ++ [nl] /\ utf8_valid c = true.

Section dead_letters.
Context `{FloatRepr}.

(** A line of printable text is one record more. *)
Lemma dead_records_snoc content t v :
  dead_file_ok content -> Forall printable t -> t <> [] -> (forall b, head t = Some b -> py_isspace (bZ b) = false) ->
  loads (cps t) = Ok v ->
  exists recs, dead_records (Some (content ++ frame t)) = Ok (recs ++ [v]).
Proof.
  intros Hok Ht Hne Hhd Hv.
  assert (Hline : split_text [] (cps t ++ [10%Z]) = [cps t]).
  { rewrite split_text_line; [done|]. unfold cps. apply Forall_map. eapply Forall_impl; [exact Ht|].
    intros b Hb. unfold printable in Hb. unfold line_boundary. apply not_true_iff_false.
    rewrite !orb_true_iff, !andb_true_iff, !Z.leb_le, !Z.eqb_eq. lia. }
  assert (Hnl : universal_newlines (cps t ++ [10%Z]) = cps t ++ [10%Z]).
  { apply newlines_plain. apply Forall_app. split; [|by repeat constructor]. unfold cps. apply Forall_map.
    eapply Forall_impl; [exact Ht|]. intros b Hb. unfold printable in Hb. lia. }
  assert (Hd : utf8_decode (frame t) = Some (cps t ++ [10%Z])).
  { unfold frame. rewrite (decode_app _ _ (cps t)) by by apply decode_printable. done. }
  assert (Hb : blank (cps t) = false).
  { destruct t as [|b t]; [done|]. cbn [cps map blank forallb]. by rewrite (Hhd b eq_refl). }
  destruct Hok as [->|(c & -> & Hc)].
  - exists []. unfold dead_records. cbn [app]. rewrite Hd, Hnl. unfold splitlines. rewrite Hline. cbn [omap list_omap].
    by rewrite Hb, Hv.
  - unfold utf8_valid in Hc. destruct (utf8_decode c) as [cs|] eqn:Hcs; [|done].
    unfold dead_records. rewrite <- app_assoc, (decode_app _ _ cs) by done.
    rewrite (decode_app [nl] _ [10%Z]), Hd by done. cbn [fmap option_fmap option_map].
    rewrite app_assoc, newlines_snoc, Hnl. destruct (newlines_ends cs) as [cs' ->].
    unfold splitlines. rewrite split_text_snoc, Hline. eexists. rewrite omap_app. cbn [omap list_omap].
    by rewrite Hb, Hv.
Qed.

(** The record of a dead letter stands for the line it was made from. *)
Lemma dead_payload_record ts error r :
  framed r -> dead_payload (dead_record ts error r) = Some r.
Proof.
  intros Hr. unfold dead_record. rewrite ends_nl_framed by done.
  destruct (utf8_valid r).
  - change (Some (bytes_of (str_of r)) = Some r). by rewrite bytes_of_str_of.
  - change (b64decode (str_of (b64encode r)) = Some r). apply b64decode_encode.
Qed.

Lemma dead_record_ok ts error r :
  float_ok ts -> utf8_valid (bytes_of error) = true -> framed r -> json_ok (dead_record ts error r).
Proof.
  intros Hts He Hr. unfold dead_record. rewrite ends_nl_framed by done.
  destruct (utf8_valid r) eqn:Hu; (split; [apply (bool_decide_eq_true_1 _); by vm_compute|]); cbn [fold_right json_ok];
    repeat split; try done.
  - cbn [json_ok snd]. by rewrite bytes_of_str_of.
  - cbn [json_ok snd]. unfold utf8_valid. rewrite bytes_of_str_of.
    assert (Ha : Forall (fun b => (bZ b < 128)%Z) (b64encode r)).
    { eapply Forall_impl; [apply b64encode_ascii|]. intros b Hb. by apply Z.ltb_lt. }
    by rewrite (utf8_decode_ascii _ Ha).
Qed.
End dead_letters.

Section crash_window.
Context `{FloatRepr}.

Lemma dumps_starts o : exists t, json_dumps (JObj o) = Byte.x7b :: t.
Proof. destruct o; cbn; eauto. Qed.

(** C12: a dead letter is final although the process died before acknowledging it.
    If the oldest pending line of a queue was dead-lettered (as text or, when it is
    not UTF-8, as base64) and the server stopped before moving the offset, the
    first boot pass acknowledges it: the line is not delivered again, however the
    other keys of the spool look. *)
Theorem dead_letter_survives_crash (sc : string -> commit_script) (u : string -> string) (k : string) (d d1 : dir)
    (q : aqueue) (torn r : bytes) (ts error : string) (wsc : write_script) :
  implements k d q torn -> _validate_session_id k = true -> head (drop (q_done q) (q_all q)) = Some r ->
  dead_file_ok (file_content d (_dead_path k)) ->
  float_ok ts -> Forall printable (bytes_of ts) -> utf8_valid (bytes_of error) = true ->
  dead_letter k r ts error wsc d = (Ok tt, d1) -> sc k = CommitOk ->
  let d2 := snd (recovery_reconcile_dead sc u d1) in
  exists n, 0 < n <= q_pending q /\ implements k d2 (acknowledge q n) torn
    /\ d2 !! _dead_path k = d1 !! _dead_path k.
Proof.
  intros Hq Hk Hr Hfile Hts Hpr Herr Hdl Hsc. cbv zeta.
  assert (Hfr : framed r).
  { pose proof (impl_framed _ _ _ _ Hq) as Hf. apply (Forall_drop _ (q_done q)) in Hf.
    destruct (drop (q_done q) (q_all q)) as [|x rs]; [done|]. injection Hr as ->. by apply Forall_cons in Hf as [? _]. }
  set (t := json_dumps (dead_record ts error r)).
  assert (Hd1 : d1 = <[_dead_path k := file_content d (_dead_path k) ++ frame t]> d).
  { unfold dead_letter in Hdl. rewrite Hk in Hdl. apply write_record_shape in Hdl as [[_ ->]|[[? _]|[? _]]]; done. }
  assert (Hpt : Forall printable t).
  { unfold t. apply dumps_printable; [printable_lit..|]. unfold dead_record. rewrite ends_nl_framed by done.
    cbn [floats_ok forallb snd]. rewrite bool_decide_eq_true_2; [by destruct (utf8_valid r)|].
    eapply Forall_impl; [exact Hpr|]. intros b Hb. by apply in_range_spec. }
  destruct (dumps_starts (match dead_record ts error r with JObj o => o | _ => [] end)) as [t' Hhead].
  change (JObj (match dead_record ts error r with JObj o => o | _ => [] end)) with (dead_record ts error r) in Hhead.
  destruct (dead_records_snoc (file_content d (_dead_path k)) t (dead_record ts error r)) as [recs Hrecs].
  { done. } { done. } { by unfold t; rewrite Hhead. }
  { unfold t. rewrite Hhead. by intros b [= <-]. }
  { apply loads_dumps. by apply dead_record_ok. }
  assert (Hset : exists l, _dead_payload_set k d1 = Ok (l ++ [r])).
  { unfold _dead_payload_set. rewrite Hd1, lookup_insert_eq, Hrecs. cbn [rbind]. rewrite omap_app.
    cbn [omap list_omap]. rewrite dead_payload_record by done. eauto. }
  destruct Hset as [l Hset].
  assert (Hq1 : implements k d1 q torn).
  { apply (implements_same k d); [..|done]; rewrite Hd1, lookup_insert_ne by auto with queue; done. }
  pose proof (reconcile_all sc u k d1 q torn Hq1 Hk) as Hs. cbv zeta in Hs. rewrite Hsc, Hset in Hs.
  eexists. split; [|split; [exact Hs|]].
  - unfold q_pending. rewrite <- length_drop. destruct (drop (q_done q) (q_all q)) as [|x rs]; [done|].
    injection Hr as ->. cbn [lead]. rewrite bool_decide_eq_true_2 by set_solver. pose proof (lead_le (l ++ [r]) rs).
    cbn [length]. lia.
  - apply reconcile_keys_other; auto with queue.
Qed.
End crash_window.

(** ** Migration of over-long keys *)

Lemma folded_short k : (Z.of_nat (String.length (fold_worker_key k)) <= _MAX_KEY_BYTES)%Z.
Proof. apply fold_name_length_le. vm_compute. discriminate. Qed.

Definition overlong (k : string) : Prop := (_MAX_KEY_BYTES < Z.of_nat (String.length k))%Z.

Lemma overlong_folded k k' : overlong k -> fold_worker_key k' <> k.
Proof. unfold overlong. intros Hk <-. pose proof (folded_short k'). lia. Qed.

Lemma log_path_inj k k' : _log_path k = _log_path k' -> k = k'.
Proof. apply app_str_inj_r. Qed.
Lemma dead_path_inj k k' : _dead_path k = _dead_path k' -> k = k'.
Proof. apply app_str_inj_r. Qed.

Definition key_paths (k : string) : list string := [_log_path k; _offset_path k; _dead_path k].

Lemma artifact_paths k f p p' : (p, p') ∈ key_artifacts k f -> p ∈ key_paths k /\ p' ∈ key_paths f.
Proof. unfold key_artifacts, key_paths. set_solver. Qed.

Lemma key_paths_inj k k' p : p ∈ key_paths k -> p ∈ key_paths k' -> k = k'.
Proof.
  unfold key_paths. rewrite !elem_of_cons, !elem_of_nil.
  intros [->|[->|[->|[]]]] [Hp|[Hp|[Hp|[]]]];
    first [by apply log_path_inj in Hp | by apply offset_path_inj in Hp | by apply dead_path_inj in Hp
          | exfalso; revert Hp; first [by apply log_ne_offset | by apply dead_ne_offset | by apply dead_ne_log
            | intros Hp; symmetry in Hp; revert Hp; first [by apply log_ne_offset|by apply dead_ne_offset|by apply dead_ne_log]]].
Qed.

(** What a pass may have done to the directory: files moved along [art] into
    free names, nothing else. *)
Definition moves (art : list (string * string)) (d d' : dir) : Prop :=
  (forall p b, d !! p = Some b -> d' !! p = Some b
     \/ exists p', (p, p') ∈ art /\ d' !! p' = Some b /\ d !! p' = None)
  /\ (forall p b, d' !! p = Some b -> d !! p = Some b
     \/ exists p0, (p0, p) ∈ art /\ d !! p0 = Some b /\ d' !! p0 = None).

Lemma moves_refl art d : moves art d d.
Proof. split; eauto. Qed.

Lemma moves_weaken art art' d d' : (forall x, x ∈ art -> x ∈ art') -> moves art d d' -> moves art' d d'.
Proof. intros Hs [H1 H2]. split; intros p b Hb; [destruct (H1 p b Hb)|destruct (H2 p b Hb)]; naive_solver. Qed.

(** Passes compose when no target is a source. *)
Lemma moves_trans art d d1 d2 :
  (forall a b c, (a, b) ∈ art -> (b, c) ∉ art) -> moves art d d1 -> moves art d1 d2 -> moves art d d2.
Proof.
  intros Hno [A1 B1] [A2 B2]. split.
  - intros p b Hb. destruct (A1 p b Hb) as [H1|(p1 & Ha & H1 & Hn)].
    + destruct (A2 p b H1) as [H2|(p2 & Ha & H2 & Hn)]; [by left|]. right. exists p2. repeat split; try done.
      destruct (d !! p2) as [c|] eqn:Hc; [|done]. destruct (A1 p2 c Hc) as [?|(p3 & Ha' & _)]; [congruence|].
      by destruct (Hno _ _ p3 Ha).
    + right. exists p1. repeat split; try done. destruct (A2 p1 b H1) as [H2|(p3 & Ha' & _)]; [done|].
      by destruct (Hno _ _ p3 Ha).
  - intros p b Hb. destruct (B2 p b Hb) as [H1|(p1 & Ha & H1 & Hn)].
    + destruct (B1 p b H1) as [H0|(p0 & Ha & H0 & Hn0)]; [by left|]. right. exists p0. repeat split; try done.
      destruct (d2 !! p0) as [c|] eqn:Hc; [|done]. destruct (B2 p0 c Hc) as [?|(p3 & Ha' & _)]; [congruence|].
      by destruct (Hno _ _ p Ha').
    + right. exists p1. repeat split; try done. destruct (B1 p1 b H1) as [H0|(p0 & Ha' & _)]; [done|].
      by destruct (Hno _ _ p Ha').
Qed.

Lemma rename_moves src dst d b :
  d !! src = Some b -> d !! dst = None -> moves [(src, dst)] d (rename src dst d).
Proof.
  intros Hs Hd. unfold rename. rewrite Hs. assert (src <> dst) by congruence. split; intros p c Hc.
  - destruct (decide (p = src)) as [->|Hne].
    + right. exists dst. rewrite lookup_insert_eq. split; [left|]. split; [congruence|done].
    + left. rewrite lookup_insert_ne by congruence. by rewrite lookup_delete_ne by congruence.
  - destruct (decide (p = dst)) as [->|Hne].
    + right. exists src. rewrite lookup_insert_eq in Hc. split; [left|]. split; [congruence|].
      rewrite lookup_insert_ne by congruence. apply lookup_delete_eq.
    + left. rewrite lookup_insert_ne in Hc by congruence. by apply lookup_delete_Some in Hc as [_ ?].
Qed.

(** The renames of one key, interrupted anywhere. *)
Lemma rename_all_moves art fails l d :
  (forall a b c, (a, b) ∈ art -> (b, c) ∉ art) -> (forall x, x ∈ l -> x ∈ art) ->
  NoDup (map fst l) -> NoDup (map snd l) ->
  (forall s t, (s, t) ∈ l -> is_Some (d !! s) /\ d !! t = None) -> moves art d (snd (rename_all fails l d)).
Proof.
  intros Hno. revert fails d. induction l as [|[s t] l IH]; intros fails d Hsub Hs Ht Hd; [apply moves_refl|].
  cbn [map fst snd] in Hs, Ht. apply NoDup_cons in Hs as [Hs Hnds]. apply NoDup_cons in Ht as [Ht Hndt].
  cbn [rename_all]. destruct fails as [[|n]|]; [apply moves_refl|..];
    (destruct (Hd s t) as [[b Hb] Hn]; [left|]; apply (moves_trans art d (rename s t d)); [done|
      eapply moves_weaken; [|by eapply rename_moves]; intros x ->%list_elem_of_singleton; apply Hsub; left|];
     apply IH; [intros x Hx; apply Hsub; by right|done|done|]; intros s' t' Hin;
     destruct (Hd s' t') as [Hs' Ht']; [by right|]; unfold rename; rewrite Hb;
     assert (s' <> s) by (intros ->; apply Hs, list_elem_of_fmap; by exists (s, t'));
     assert (t' <> t) by (intros ->; apply Ht, list_elem_of_fmap; by exists (s', t));
     assert (s' <> t) by (intros ->; apply (Hno s t t'); apply Hsub; [left|by right]);
     split; [by rewrite lookup_insert_ne, lookup_delete_ne by congruence|];
     rewrite lookup_insert_ne by congruence; apply lookup_delete_None; by right).
Qed.

Lemma paths_nodup k : NoDup (key_paths k).
Proof.
  unfold key_paths. repeat (apply NoDup_cons; split); [..|constructor];
    rewrite ?not_elem_of_cons; repeat split; auto using not_elem_of_nil with queue;
    apply not_eq_sym; auto with queue.
Qed.

Lemma filter_map_nodup {A B} (f : A -> B) (P : A -> Prop) `{forall x, Decision (P x)} l :
  NoDup (map f l) -> NoDup (map f (base.filter P l)).
Proof.
  induction l as [|x l IH]; [done|]. cbn [map]. intros [Hx Hn]%NoDup_cons. rewrite filter_cons.
  case_decide; [|by apply IH]. cbn [map]. apply NoDup_cons. split; [|by apply IH].
  intros (y & Hy & [_ Hin]%list_elem_of_filter)%list_elem_of_fmap. apply Hx. apply list_elem_of_fmap. eauto.
Qed.

(** All the moves the pass over [keys] may make. *)
Definition artifacts (keys : list string) : list (string * string) :=
  keys ≫= fun k => key_artifacts k (fold_worker_key k).

Lemma artifacts_acyclic keys a b c : Forall overlong keys -> (a, b) ∈ artifacts keys -> (b, c) ∉ artifacts keys.
Proof.
  intros Hk. unfold artifacts. rewrite !list_elem_of_bind. intros (k1 & H1 & Hin1) (k2 & H2 & Hin2).
  apply artifact_paths in H1 as [_ H1]. apply artifact_paths in H2 as [H2 _].
  apply (overlong_folded k2 k1); [by eapply Forall_forall in Hk; [|exact Hin2]|]. by eapply key_paths_inj.
Qed.

Lemma migrate_one_moves keys k fails d :
  Forall overlong keys -> k ∈ keys -> moves (artifacts keys) d (snd (_migrate_one_key k fails d)).
Proof.
  intros Hk Hin. unfold _migrate_one_key. case_bool_decide; [apply moves_refl|].
  set (art := key_artifacts k (fold_worker_key k)).
  destruct (base.filter _ art) as [|x l] eqn:Hf; [apply moves_refl|].
  destruct (existsb _ art) eqn:He; [apply moves_refl|].
  assert (Hm : moves (artifacts keys) d (snd (rename_all fails (x :: l) d))).
  { rewrite <- Hf. apply rename_all_moves.
    - intros a b c. by apply artifacts_acyclic.
    - intros y [_ Hy]%list_elem_of_filter. unfold artifacts. apply list_elem_of_bind. by exists k.
    - apply filter_map_nodup. apply (paths_nodup k).
    - apply filter_map_nodup. apply (paths_nodup (fold_worker_key k)).
    - intros s t [Hs Ht]%list_elem_of_filter. cbn [fst] in Hs. unfold _exists_or_too_long_is_absent in Hs.
      apply bool_decide_eq_true in Hs. split; [done|].
      destruct (d !! t) eqn:Hdt; [|done]. exfalso. revert He. apply not_false_iff_true. apply existsb_exists.
      exists (s, t). split; [by apply list_elem_of_In|]. apply bool_decide_eq_true_2. cbn [snd]. by rewrite Hdt. }
  destruct (rename_all fails (x :: l) d) as [[]]; exact Hm.
Qed.

Lemma migrate_keys_cons fails k keys acc d :
  exists acc', snd (migrate_keys fails (k :: keys) acc d)
               = snd (migrate_keys fails keys acc' (snd (_migrate_one_key k (fails k) d))).
Proof.
  cbn [migrate_keys]. destruct acc as [[m s] f]. destruct (_migrate_one_key k (fails k) d) as [[[]|] d1]; eauto.
Qed.

Lemma migrate_keys_moves fails all keys acc d :
  Forall overlong all -> (forall k, k ∈ keys -> k ∈ all) ->
  moves (artifacts all) d (snd (migrate_keys fails keys acc d)).
Proof.
  intros Hall. revert acc d. induction keys as [|k keys IH]; intros acc d Hsub; [apply moves_refl|].
  destruct (migrate_keys_cons fails k keys acc d) as [acc' ->].
  eapply moves_trans; [intros a b c; by apply artifacts_acyclic|apply migrate_one_moves; [done|apply Hsub; left]|].
  apply IH. intros k' Hk'. apply Hsub. by right.
Qed.

Lemma overlong_keys_spec k d : k ∈ overlong_keys d -> overlong k.
Proof. unfold overlong_keys. rewrite elem_of_py_sorted. by intros [[_ ?] _]%list_elem_of_filter. Qed.

(** The paths of other keys and of other targets stay. *)
Lemma migrate_one_frame k fails d p :
  p ∉ key_paths k -> p ∉ key_paths (fold_worker_key k) -> overlong k ->
  snd (_migrate_one_key k fails d) !! p = d !! p.
Proof.
  intros Hs Ht Hk.
  destruct (migrate_one_moves [k] k fails d) as [A B]; [by repeat constructor|left|].
  assert (Hno : forall a b, (a, b) ∈ artifacts [k] -> a <> p /\ b <> p).
  { intros a b (k' & Hin & ->%list_elem_of_singleton)%list_elem_of_bind.
    apply artifact_paths in Hin as [Ha Hb]. split; intros ->; done. }
  destruct (d !! p) as [b|] eqn:Hd.
  - destruct (A p b Hd) as [H|(p' & Hin & _)]; [done|]. by destruct (Hno _ _ Hin).
  - destruct (snd (_migrate_one_key k fails d) !! p) as [b|] eqn:Hd'; [|done].
    destruct (B p b Hd') as [H|(p0 & Hin & _)]; [congruence|]. by destruct (Hno _ _ Hin).
Qed.

Lemma snd_inj {A B} (l : list (A * B)) a b c :
  NoDup (map snd l) -> (a, c) ∈ l -> (b, c) ∈ l -> a = b.
Proof.
  induction l as [|[x y] l IH]; [by intros _ ?%elem_of_nil|]. cbn [map snd]. intros [Hy Hn]%NoDup_cons.
  rewrite !elem_of_cons. intros [Ha|Ha] [Hb|Hb]; simplify_eq; [done|..|by apply IH];
    destruct Hy; apply list_elem_of_fmap; by eexists (_, y).
Qed.

(** Uninterrupted renames put every file under its new name. *)
Lemma rename_all_done l d :
  NoDup (map fst l) -> NoDup (map snd l) -> (forall a, a ∈ map fst l -> a ∉ map snd l) ->
  (forall s t, (s, t) ∈ l -> is_Some (d !! s)) ->
  (forall s t, (s, t) ∈ l -> snd (rename_all None l d) !! t = d !! s)
  /\ (forall p, p ∉ map fst l -> p ∉ map snd l -> snd (rename_all None l d) !! p = d !! p).
Proof.
  revert d. induction l as [|[s t] l IH]; intros d Hs Ht Hdis Hd.
  { split; [by intros ? ? ?%elem_of_nil|done]. }
  cbn [map fst snd] in Hs, Ht, Hdis. apply NoDup_cons in Hs as [Hs Hnds]. apply NoDup_cons in Ht as [Ht Hndt].
  destruct (Hd s t) as [b Hb]; [left|].
  assert (Hr : forall p, p <> s -> p <> t -> rename s t d !! p = d !! p).
  { intros p H1 H2. unfold rename. rewrite Hb. by rewrite lookup_insert_ne, lookup_delete_ne by congruence. }
  assert (Hrt : rename s t d !! t = d !! s) by (unfold rename; by rewrite Hb, lookup_insert_eq).
  assert (Hsrc : forall s' t', (s', t') ∈ l -> s' <> s /\ s' <> t /\ t' <> t).
  { intros s' t' Hin. split; [|split].
    - intros ->. apply Hs, list_elem_of_fmap. by exists (s, t').
    - intros ->. apply (Hdis t); [right; apply list_elem_of_fmap; by exists (t, t')|left].
    - intros ->. apply Ht, list_elem_of_fmap. by exists (s', t). }
  destruct (IH (rename s t d)) as [H1 H2]; [done|done| |  |].
  { intros a Ha Hb'. apply (Hdis a); by right. }
  { intros s' t' Hin. destruct (Hsrc _ _ Hin) as (N1 & N2 & _). rewrite Hr by done. apply (Hd s' t'). by right. }
  cbn [rename_all]. change (pred <$> None) with (@None nat). split.
  - intros s' t' [[= -> ->]|Hin]%elem_of_cons.
    + rewrite H2; [done| |done]. intros Hin. apply (Hdis t); [by right|left].
    + rewrite (H1 s' t' Hin). destruct (Hsrc _ _ Hin) as (N1 & N2 & _). by apply Hr.
  - intros p. cbn [map fst snd]. rewrite !not_elem_of_cons. intros [N1 N1'] [N2 N2']. rewrite H2 by done. by apply Hr.
Qed.

Lemma artifact_sources k f : map fst (key_artifacts k f) = key_paths k.
Proof. done. Qed.
Lemma artifact_targets k f : map snd (key_artifacts k f) = key_paths f.
Proof. done. Qed.

(** The whole queue of a key moves when its target is free. *)
Lemma migrate_one_done k d :
  overlong k -> (exists p, p ∈ key_paths k /\ is_Some (d !! p)) ->
  (forall p, p ∈ key_paths (fold_worker_key k) -> d !! p = None) ->
  forall s t, (s, t) ∈ key_artifacts k (fold_worker_key k) -> snd (_migrate_one_key k None d) !! t = d !! s.
Proof.
  intros Hk (p & Hp & Hex) Hfree s t Hst. unfold _migrate_one_key.
  rewrite bool_decide_eq_false_2 by by apply overlong_folded.
  set (art := key_artifacts k (fold_worker_key k)) in *. set (P := fun x : string * string => _ = true).
  destruct (existsb _ art) eqn:He.
  { apply existsb_exists in He as ([a b] & Hin%list_elem_of_In & Hb). apply artifact_paths in Hin as [_ Hin].
    apply bool_decide_eq_true in Hb. cbn [snd] in Hb. rewrite (Hfree b Hin) in Hb. by destruct Hb. }
  destruct (rename_all_done (base.filter P art) d) as [H1 H2].
  { apply filter_map_nodup. apply (paths_nodup k). }
  { apply filter_map_nodup. apply (paths_nodup (fold_worker_key k)). }
  { intros a (x & -> & [_ Hx]%list_elem_of_filter)%list_elem_of_fmap (y & Ha & [_ Hy]%list_elem_of_filter)%list_elem_of_fmap.
    destruct x as [x1 x2], y as [y1 y2]. cbn [fst snd] in Ha. subst x1.
    apply artifact_paths in Hx as [Hx _]. apply artifact_paths in Hy as [_ Hy].
    apply (overlong_folded k k Hk). by eapply key_paths_inj. }
  { intros a b [Ha _]%list_elem_of_filter. by apply bool_decide_eq_true in Ha. }
  assert (Hlook : snd (rename_all None (base.filter P art) d) !! t = d !! s).
  { destruct (d !! s) as [b|] eqn:Hs.
    - rewrite <- Hs. apply H1. apply list_elem_of_filter. split; [|done].
      apply bool_decide_eq_true_2. cbn [fst]. by rewrite Hs.
    - apply artifact_paths in Hst as Hpaths. destruct Hpaths as [Hsk Htf]. rewrite H2; [by apply Hfree|..].
      + intros ([x y] & -> & [_ Hx]%list_elem_of_filter)%list_elem_of_fmap. cbn [fst] in *.
        apply artifact_paths in Hx as [Hx _]. apply (overlong_folded k k Hk). by eapply key_paths_inj.
      + intros ([x y] & -> & [Hx1 Hx]%list_elem_of_filter)%list_elem_of_fmap. cbn [snd] in *.
        assert (x = s) as -> by (eapply (snd_inj art); [apply (paths_nodup (fold_worker_key k))|done|done]).
        apply bool_decide_eq_true in Hx1. cbn [fst] in Hx1. rewrite Hs in Hx1. by destruct Hx1. }
  destruct (base.filter P art) as [|x l] eqn:Hf; [exact Hlook|].
  destruct (rename_all None (x :: l) d) as [[]]; exact Hlook.
Qed.

Definition migrate_step (fails : string -> option nat) (d : dir) (k : string) : dir :=
  snd (_migrate_one_key k (fails k) d).

Lemma migrate_keys_foldl fails keys acc d : snd (migrate_keys fails keys acc d) = foldl (migrate_step fails) d keys.
Proof.
  revert acc d. induction keys as [|k keys IH]; intros acc d; [done|].
  destruct (migrate_keys_cons fails k keys acc d) as [acc' ->]. apply IH.
Qed.

Lemma migrate_keys_frame fails keys d p :
  (forall k, k ∈ keys -> overlong k /\ p ∉ key_paths k /\ p ∉ key_paths (fold_worker_key k)) ->
  foldl (migrate_step fails) d keys !! p = d !! p.
Proof.
  revert d. induction keys as [|k keys IH]; intros d Hk; [done|]. cbn [foldl]. rewrite IH.
  - destruct (Hk k) as (Ho & H1 & H2); [left|]. by apply migrate_one_frame.
  - intros k' Hk'. apply Hk. by right.
Qed.

Lemma worker_key_file k d : k ∈ _all_worker_keys d -> overlong k -> exists p, p ∈ key_paths k /\ is_Some (d !! p).
Proof.
  unfold _all_worker_keys, key_paths. rewrite elem_of_py_sorted, elem_of_remove_dups, elem_of_app, !list_elem_of_fmap.
  intros [(n & -> & [Hs Hn%elem_of_dir_names]%list_elem_of_filter)|(n & -> & [Hs Hn%elem_of_dir_names]%list_elem_of_filter)] Ho.
  - exists n. split; [|done]. unfold log_stem in *. case_decide; [by subst n|].
    rewrite (str_ends_with_inv ".log" n Hs) at 1. left.
  - exists n. split; [|done]. rewrite (str_ends_with_inv ".dead.jsonl" n Hs) at 1. right. right. left.
Qed.

(** Renaming over-long keys loses nothing.  Whatever renames fail: every file is
    still there with its content, under its own name or under the corresponding
    artifact name of its folded key, which was free; nothing else appears; and a
    key whose folded name is free and contested by no other key has its whole
    queue, position and dead letters under the folded key afterwards. *)
Theorem migration_lossless (fails : string -> option nat) (d : dir) :
  let d' := snd (migrate_overlong_keys fails d) in
  moves (artifacts (overlong_keys d)) d d'
  /\ (forall k q torn, k ∈ overlong_keys d -> implements k d q torn -> fails k = None ->
      (forall p, p ∈ key_paths (fold_worker_key k) -> d !! p = None) ->
      (forall k', k' ∈ overlong_keys d -> fold_worker_key k' = fold_worker_key k -> k' = k) ->
      implements (fold_worker_key k) d' q torn
      /\ d' !! _dead_path (fold_worker_key k) = d !! _dead_path k).
Proof.
  cbv zeta. unfold migrate_overlong_keys. split.
  { apply migrate_keys_moves; [|done]. apply Forall_forall. intros k. apply overlong_keys_spec. }
  intros k q torn Hk Hq Hfk Hfree Huniq. rewrite migrate_keys_foldl.
  assert (Hov : forall k', k' ∈ overlong_keys d -> overlong k') by (intros k'; apply overlong_keys_spec).
  assert (Hnd : NoDup (overlong_keys d)).
  { unfold overlong_keys, py_sorted. rewrite merge_sort_Permutation. apply NoDup_filter, all_keys_nodup. }
  assert (Hall : k ∈ _all_worker_keys d).
  { unfold overlong_keys in Hk. rewrite elem_of_py_sorted in Hk. by apply list_elem_of_filter in Hk as [_ ?]. }
  pose proof Hk as Hsplit. apply list_elem_of_split in Hsplit as (l1 & l2 & Hl). rewrite Hl in *. rewrite foldl_app. cbn [foldl].
  apply NoDup_app in Hnd as (_ & Hd1 & Hd2). apply NoDup_cons in Hd2 as [Hk2 _].
  assert (Hother : forall k' p, k' ∈ l1 \/ k' ∈ l2 -> p ∈ key_paths k \/ p ∈ key_paths (fold_worker_key k) ->
            overlong k' /\ p ∉ key_paths k' /\ p ∉ key_paths (fold_worker_key k')).
  { intros k' p Hk' Hp. assert (Hin : k' ∈ l1 ++ k :: l2) by set_solver.
    assert (Hne : k' <> k) by (intros ->; destruct Hk'; [by apply (Hd1 k); [|left]|done]).
    split; [by apply Hov|]. split; intros Hp'; destruct Hp as [Hp|Hp]; pose proof (key_paths_inj _ _ _ Hp Hp') as E.
    - congruence.
    - by apply (overlong_folded k' k (Hov _ Hin)).
    - symmetry in E. by apply (overlong_folded k k' (Hov _ Hk)).
    - symmetry in E. by apply Hne, Huniq. }
  set (d1 := foldl (migrate_step fails) d l1).
  assert (H1 : forall p, p ∈ key_paths k \/ p ∈ key_paths (fold_worker_key k) -> d1 !! p = d !! p).
  { intros p Hp. apply migrate_keys_frame. intros k' Hk'. apply Hother; [by left|done]. }
  assert (H2 : forall s t, (s, t) ∈ key_artifacts k (fold_worker_key k) ->
            foldl (migrate_step fails) (migrate_step fails d1 k) l2 !! t = d !! s).
  { intros s t Hst. pose proof (artifact_paths _ _ _ _ Hst) as [Hs Ht].
    rewrite migrate_keys_frame by (intros k' Hk'; apply Hother; by right).
    unfold migrate_step. rewrite Hfk, (migrate_one_done k d1 (Hov k Hk)) with (s := s); [by apply H1; left| |..].
    - destruct (worker_key_file k d Hall (Hov k Hk)) as (p & Hp & He). exists p. split; [done|]. by rewrite H1 by (by left).
    - intros p Hp. rewrite H1 by (by right). by apply Hfree.
    - done. }
  split; [|apply H2; unfold key_artifacts; set_solver].
  pose proof (H2 (_log_path k) (_log_path (fold_worker_key k)) ltac:(unfold key_artifacts; set_solver)) as HL.
  pose proof (H2 (_offset_path k) (_offset_path (fold_worker_key k)) ltac:(unfold key_artifacts; set_solver)) as HO.
  destruct Hq as [Q1 Q2 Q3 Q4 Q5]. split; try done.
  - unfold file_content in *. by rewrite HL.
  - unfold _read_committed_offset in *. by rewrite HO.
Qed.

(** ** Witnesses *)

Definition same_float : FloatRepr := fun s => s.
Definition demo_dead : dir := snd (dead_letter "k" (bytes_of "b") "1.5" "boom" (WriteScript true []) demo_dir).
Definition always_ok (k : string) : commit_script := CommitOk.

Lemma demo_dead_letter : dead_letter "k" (bytes_of "b") "1.5" "boom" (WriteScript true []) demo_dir = (Ok tt, demo_dead).
Proof. by vm_compute. Qed.

Lemma demo_dead_implements : implements "k" demo_dead demo_queue [].
Proof. apply (implements_same "k" demo_dir); [by vm_compute..|exact demo_implements]. Qed.

Lemma reconcile_exact_witness :
  let d' := snd (@recovery_reconcile_dead same_float always_ok id demo_dead) in
  (exists n, implements "k" d' (acknowledge demo_queue n) []) /\ d' !! _log_path "k" = demo_dead !! _log_path "k".
Proof.
  pose proof (@reconcile_exact same_float always_ok id "k" demo_dead demo_queue [] demo_dead_implements eq_refl) as [Hf Hs].
  destruct (@_dead_payload_set same_float "k" demo_dead) as [dead|e] eqn:Hp; [|vm_compute in Hp; discriminate].
  cbn [always_ok] in Hs. destruct Hs as (n & Hn & _). split; [by exists n|]. apply Hf.
Defined.

Lemma dead_letter_survives_crash_witness :
  exists n, 0 < n <= 1
    /\ implements "k" (snd (@recovery_reconcile_dead same_float always_ok id demo_dead)) (acknowledge demo_queue n) [].
Proof.
  destruct (@dead_letter_survives_crash same_float always_ok id "k" demo_dir demo_dead demo_queue [] (bytes_of "b")
              "1.5" "boom" (WriteScript true []) demo_implements eq_refl eq_refl) as (n & Hn & Hq & _).
  - left. by vm_compute.
  - right. split; [apply (bool_decide_eq_true_1 _); by vm_compute|by vm_compute].
  - apply (bool_decide_eq_true_1 (Forall printable _)). by vm_compute.
  - by vm_compute.
  - exact demo_dead_letter.
  - done.
  - exists n. split; [exact Hn|exact Hq].
Defined.

(** A key of 220 bytes moves to its folded name. *)
Definition long_key : string := str_of (replicate 220 Byte.x61).
Definition long_dir : dir := {[ _log_path long_key := frame (bytes_of "x") ]}.

Example long_key_migrates :
  fst (migrate_overlong_keys (fun _ => None) long_dir) = (1, 0, 0)
  /\ map snd (map_to_list (snd (migrate_overlong_keys (fun _ => None) long_dir))) = [frame (bytes_of "x")]
  /\ snd (migrate_overlong_keys (fun _ => None) long_dir) !! _log_path (fold_worker_key long_key)
     = Some (frame (bytes_of "x")).
Proof. by vm_compute. Qed.
