(* ===== verification/Ingest.v ===== *)
(** * Event ingest ([main.py], [models.py])

    [POST /events] from the request body to the durable append: validation,
    authorization, the session claim, de-duplication, the worker key, the
    server-owned fields of the envelope, and the answer.  The server's state is the
    claim store, the idempotency cache, the registry, the spool directory and the
    counters; the handler is a function of it, with the clock, the random token and
    the behaviour of the append as arguments.

    [queued_event_durable] says what a 202 means; [keyed_event_enters_once] that a
    key admits one event within its window; [failed_append_poisons_key] is the case
    in which the key is spent although the event was not stored. *)
From stdpp Require Import base list strings gmap.
From Stdlib Require Import ZArith Lia.
From S2P Require Import Prelude PyText Sha256 Utils Json JsonParse QueueFiles QueueManager.
From S2P Require Import QueueSpec Drain Idempotency SessionClaims Authz Registry RegistryMetrics Auth.

#[local] Open Scope string_scope.
#[local] Open Scope list_scope.

(** ** The request *)

Record EventRequest := MkEvent {
  er_event : string;
  er_workspace : string;
  er_working_dir : option string;
  er_idempotency_key : option string;
  er_data : list (string * json);
}.

Definition not_blank (s : string) : bool := negb (bool_decide (py_strip s = "")).

(** An optional field: absent or [null], or a string. *)
Definition opt_field (k : string) (o : list (string * json)) : option (option string) :=
  match jget k o with JNull => Some None | JStr s => Some (Some s) | _ => None end.

(** [EventRequest.model_validate]; [None] is a validation error (422). *)
Definition event_request (o : list (string * json)) : option EventRequest :=
  match dget "event" o, dget "workspace" o, opt_field "working_dir" o, opt_field "idempotency_key" o, dget "data" o with
  | Some (JStr event), Some (JStr workspace), Some working_dir, Some key, Some (JObj data) =>
    if not_blank workspace && match working_dir with Some w => not_blank w | None => true end
    then Some (MkEvent event workspace working_dir key data) else None
  | _, _, _, _, _ => None
  end.

(** ** Keys and identities *)

Definition _NO_SESSION_PREFIX : string := "_no_session__".
Definition _EVENT_IDENTITY_DOMAIN : bytes := bytes_of "amplifier-context-intelligence:event-identity:v1" ++ [Byte.x00].

(** [token] is [secrets.token_hex(16)]. *)
Definition _new_event_identity (idempotency_key : option string) (token : string) : string :=
  match idempotency_key with
  | Some (String _ _ as k) => "key-" +:+ str_of (sha256_hexdigest (_EVENT_IDENTITY_DOMAIN ++ bytes_of k))
  | _ => "new-" +:+ token
  end.

Definition slug_char (b : byte) : bool := in_range 97 122 b || in_range 48 57 b.
(** [re.sub(r"[^a-z0-9]+", "-", text)] *)
Fixpoint dashed (in_run : bool) (l : bytes) : bytes :=
  match l with
  | [] => []
  | b :: l => if slug_char b then b :: dashed false l
              else if in_run then dashed true l else Byte.x2d :: dashed true l
  end.
Fixpoint lstrip_dash (l : bytes) : bytes :=
  match l with b :: l' => if decide (b = Byte.x2d) then lstrip_dash l' else l | [] => [] end.
Definition strip_dash (l : bytes) : bytes := rev (lstrip_dash (rev (lstrip_dash l))).

Section keys.
Context `{PyLower}.

Definition _workspace_slug (workspace : string) : string :=
  match strip_dash (dashed false (bytes_of (lower workspace))) with
  | [] => "default"
  | slug => str_of slug
  end.

(** A truthy [session_id] that is not a string has no [encode]. *)
Definition _events_worker_key (session_id : json) (workspace : string) : result string :=
  match py_or session_id (JStr (_NO_SESSION_PREFIX +:+ _workspace_slug workspace)) with
  | JStr raw => Ok (fold_worker_key raw)
  | _ => Err AttributeError
  end.
End keys.

Section timestamp.
Context `{Timestamps}.

(** [true] when [_validate_data_timestamp] returns, [false] when it answers 400. *)
Definition _validate_data_timestamp (data : list (string * json)) : bool :=
  match jget "timestamp" data with
  | JStr t => not_blank t && match fromisoformat t with Some _ => true | None => false end
  | _ => false
  end.
End timestamp.

(** ** The server *)

Record Server := MkServer {
  sv_app : AppState;
  sv_stored_claims : Db;                 (** the claim database on disk *)
  sv_cache : EventIdempotencyCache;
  sv_registry : registry;
  sv_dir : dir;
  sv_counters : Counters.t;
}.

Definition with_claims (c : SessionClaimStore) (a : AppState) : AppState :=
  MkApp (app_mode a) (app_service_data_role a) (app_reader_role a) (app_entra_admin_role a) (app_grants a)
    (app_recovery_permit_required a) (Some c).
Definition set_store (c : SessionClaimStore) (s : Server) : Server :=
  MkServer (with_claims c (sv_app s)) (sv_stored_claims s) (sv_cache s) (sv_registry s) (sv_dir s) (sv_counters s).
Definition set_cache (c : EventIdempotencyCache) (s : Server) : Server :=
  MkServer (sv_app s) (sv_stored_claims s) c (sv_registry s) (sv_dir s) (sv_counters s).

(** The claim store, opened on first use. *)
Definition _session_claim_store (s : Server) : SessionClaimStore * Server :=
  match app_session_claims (sv_app s) with
  | Some c => (c, s)
  | None => let c := MkStore (sv_stored_claims s) false in (c, set_store c s)
  end.

Inductive response :=
  | Queued (session_id : option string)
  | DuplicateEvent (session_id : option string)
  | HttpError (status : Z)
  | ServerError (e : exn).

(** [EventResponse(..., session_id=session_id or None)]: the field is a string. *)
Definition answer (mk : option string -> response) (session_id : json) : response :=
  if truthy session_id then match session_id with JStr s => mk (Some s) | _ => ServerError ValueError end
  else mk None.

Definition created_by (c : option string) : json := match c with Some c => JStr c | None => JNull end.

(** The envelope that is stored: the client's object with the server's fields. *)
Definition envelope (contributor_id : option string) (identity : string) (o : list (string * json)) : list (string * json) :=
  dset SPOOL_EVENT_IDENTITY (JStr identity) (dset "created_by" (created_by contributor_id) o).

(** The scope of an idempotency key. *)
Definition scoped_key (a : AppState) (contributor_id : option string) (workspace key : string) : string :=
  if scoped a then default "None" contributor_id +:+ String (Ascii.ascii_of_nat 31) "" +:+ workspace
                   +:+ String (Ascii.ascii_of_nat 31) "" +:+ key
  else key.

Section handler.
Context `{PyLower, Timestamps, FloatRepr}.

(** The session claim of scoped mode: [None] to go on. *)
Definition claim_session (st : ScopeState) (session_id : json) (workspace : string) (s : Server)
    : option response * Server :=
  if negb (scoped (sv_app s)) then (None, s)
  else match session_id with
  | JStr sid =>
    if not_blank sid then
      let '(claims, s) := _session_claim_store s in
      match st_contributor_id st with
      | Some (String _ _ as c) =>
        let '(ok, claims) := claim sid c workspace claims in
        (if ok then None else Some (HttpError 409), set_store claims s)
      | _ => (Some (HttpError 409), s)
      end
    else (Some (HttpError 400), s)
  | _ => (Some (HttpError 400), s)
  end.

(** The idempotency check: [None] to go on. *)
Definition check_duplicate (st : ScopeState) (er : EventRequest) (session_id : json) (replay : bool) (now : Z) (s : Server)
    : option response * Server :=
  match er_idempotency_key er with
  | Some (String _ _ as key) =>
    if replay then (None, s)
    else
      let '(is_new, cache) :=
        check_and_store (scoped_key (sv_app s) (st_contributor_id st) (er_workspace er) key) now (sv_cache s) in
      (match is_new with
       | Err e => Some (ServerError e)
       | Ok true => None
       | Ok false => Some (answer DuplicateEvent session_id)
       end, set_cache cache s)
  | _ => (None, s)
  end.

(** From the worker key to the answer: the drainer is looked up or started, the
    record appended, the event counted. *)
Definition enqueue_event (st : ScopeState) (o : list (string * json)) (er : EventRequest) (session_id : json)
    (token : string) (sc : write_script) (s : Server) : response * Server :=
  match _events_worker_key session_id (er_workspace er) with
  | Err e => (ServerError e, s)
  | Ok worker_key =>
    let reg := get_or_create worker_key (sv_registry s) in
    let env := envelope (st_contributor_id st) (_new_event_identity (er_idempotency_key er) token) o in
    let body := json_dumps_compact (JObj env) in
    let '(r, d) := append worker_key body sc (sv_dir s) in
    match r with
    | Err e => (ServerError e, MkServer (sv_app s) (sv_stored_claims s) (sv_cache s) reg d (sv_counters s))
    | Ok _ => (answer Queued session_id,
               MkServer (sv_app s) (sv_stored_claims s) (sv_cache s) reg d (Counters.record_accepted 1 (sv_counters s)))
    end
  end.

Definition post_events (st : ScopeState) (raw : bytes) (replay : bool) (now : Z) (token : string) (sc : write_script)
    (s : Server) : response * Server :=
  match loads_bytes raw with
  | Ok (JObj o) =>
    match require_write (MkReq st (sv_app s)) with
    | Denied => (HttpError 403, s)
    | Allowed =>
      match event_request o with
      | None => (HttpError 422, s)
      | Some er =>
        let session_id := jget_default "session_id" (JStr "") (er_data er) in
        if negb (_validate_data_timestamp (er_data er)) then (HttpError 400, s)
        else match require_workspace_access (MkReq st (sv_app s)) (er_workspace er) "live:write" with
        | Denied => (HttpError 403, s)
        | Allowed =>
          let '(refused, s) := claim_session st session_id (er_workspace er) s in
          match refused with
          | Some r => (r, s)
          | None =>
            let '(refused, s) := check_duplicate st er session_id replay now s in
            match refused with
            | Some r => (r, s)
            | None => enqueue_event st o er session_id token sc s
            end
          end
        end
      end
    end
  | _ => (HttpError 422, s)
  end.
End handler.

(** ** What each stage may change *)

Section frame.
Context `{PyLower, Timestamps, FloatRepr}.

(** Everything the spool side sees. *)
Definition spool_same (s s' : Server) : Prop :=
  sv_dir s' = sv_dir s /\ sv_registry s' = sv_registry s /\ sv_counters s' = sv_counters s.

Lemma claim_session_frame st sid w s r s1 :
  claim_session st sid w s = (r, s1) ->
  spool_same s s1 /\ sv_cache s1 = sv_cache s /\ scoped (sv_app s1) = scoped (sv_app s)
  /\ (forall x, r = Some x -> exists n, x = HttpError n).
Proof.
  unfold claim_session, _session_claim_store, spool_same. intros Hc.
  repeat (case_match; simplify_eq/=); repeat split; intros; simplify_eq/=; eauto.
Qed.

Lemma check_duplicate_frame st er sid replay now s r s1 :
  check_duplicate st er sid replay now s = (r, s1) ->
  spool_same s s1 /\ sv_app s1 = sv_app s /\ (forall x, r = Some x -> forall n, x <> Queued n).
Proof.
  unfold check_duplicate, answer. intros Hc. destruct (er_idempotency_key er) as [[|a k]|]; [by simplify_eq|..|by simplify_eq].
  destruct replay; [by simplify_eq|]. destruct (check_and_store _ now _) as [v cache].
  simplify_eq. repeat split; try done. destruct v as [[]|]; try done; intros ? [= <-] n; repeat case_match; done.
Qed.

Lemma post_inv st raw replay now token sc s r s' :
  post_events st raw replay now token sc s = (r, s') ->
  (exists o er s1 s2, let sid := jget_default "session_id" (JStr "") (er_data er) in
     loads_bytes raw = Ok (JObj o) /\ event_request o = Some er
     /\ require_write (MkReq st (sv_app s)) = Allowed
     /\ require_workspace_access (MkReq st (sv_app s)) (er_workspace er) "live:write" = Allowed
     /\ claim_session st sid (er_workspace er) s = (None, s1)
     /\ check_duplicate st er sid replay now s1 = (None, s2)
     /\ enqueue_event st o er sid token sc s2 = (r, s'))
  \/ ((forall n, r <> Queued n) /\ spool_same s s').
Proof.
  unfold post_events. intros Hp.
  destruct (loads_bytes raw) as [[]|]; try (right; by simplify_eq).
  destruct (require_write _) eqn:Hw; [|right; by simplify_eq].
  destruct (event_request o) as [er|] eqn:Her; [|right; by simplify_eq].
  destruct (negb _) eqn:Hts; [right; by simplify_eq|].
  destruct (require_workspace_access _ _ _) eqn:Hws; [|right; by simplify_eq].
  destruct (claim_session _ _ _ s) as [r1 s1] eqn:Hc. pose proof Hc as Hc'.
  apply claim_session_frame in Hc' as ((D1 & R1 & C1) & _ & _ & Hr1).
  destruct r1 as [x|].
  { right. destruct (Hr1 x eq_refl) as [n ->]. by simplify_eq. }
  destruct (check_duplicate _ _ _ _ _ s1) as [r2 s2] eqn:Hk. pose proof Hk as Hk'.
  apply check_duplicate_frame in Hk' as ((D2 & R2 & C2) & _ & Hr2).
  destruct r2 as [x|].
  { right. simplify_eq. split; [by apply Hr2|]. unfold spool_same. by rewrite D2, R2, C2. }
  left. exists o, er, s1, s2. done.
Qed.

Lemma spool_same_trans s1 s2 s3 : spool_same s1 s2 -> spool_same s2 s3 -> spool_same s1 s3.
Proof. unfold spool_same. intuition congruence. Qed.
End frame.

(** The stored text is one line. *)
Lemma body_not_nl env : ends_nl (json_dumps_compact (JObj env)) = false.
Proof.
  unfold json_dumps_compact, ends_nl. cbn [dumps].
  destruct env; [done|]. rewrite !app_assoc. rewrite last_snoc. done.
Qed.

Lemma envelope_fields c i o k :
  dget k (envelope c i o)
  = if decide (k = SPOOL_EVENT_IDENTITY) then Some (JStr i)
    else if decide (k = "created_by") then Some (created_by c) else dget k o.
Proof. unfold envelope. by rewrite !dget_dset. Qed.

(** ** What a 202 means *)

Section theorems.
Context `{PyLower, Timestamps, FloatRepr}.

Lemma append_ok k body sc d u d' :
  append k body sc d = (Ok u, d') -> _validate_session_id k = true /\ ends_nl body = false ->
  d' !! _log_path k = Some (file_content d (_log_path k) ++ frame body)
  /\ (forall p, p <> _log_path k -> d' !! p = d !! p).
Proof.
  intros Ha [Hv He]. pose proof (append_is_append_only k body sc d) as Hs. rewrite Ha in Hs.
  destruct Hs as (_ & Ho & Hl). rewrite He in Hl. destruct u. split; [by apply Hl|done].
Qed.

Lemma append_ok_valid k body sc d u d' : append k body sc d = (Ok u, d') -> _validate_session_id k = true.
Proof. unfold append. by destruct (_validate_session_id k). Qed.

(** An enqueue that answered "queued". *)
Lemma enqueue_queued st o er sid token sc s n s' :
  enqueue_event st o er sid token sc s = (Queued n, s') ->
  exists k, _events_worker_key sid (er_workspace er) = Ok k /\ _validate_session_id k = true
    /\ append k (json_dumps_compact (JObj (envelope (st_contributor_id st)
         (_new_event_identity (er_idempotency_key er) token) o))) sc (sv_dir s) = (Ok tt, sv_dir s')
    /\ sv_registry s' = get_or_create k (sv_registry s)
    /\ sv_counters s' = Counters.record_accepted 1 (sv_counters s)
    /\ sv_app s' = sv_app s /\ sv_cache s' = sv_cache s.
Proof.
  unfold enqueue_event. destruct (_events_worker_key _ _) as [k|]; [|done].
  destruct (append k _ sc (sv_dir s)) as [[u|e] d] eqn:Ha; [|done]. intros [= Ha' <-].
  pose proof (append_ok_valid _ _ _ _ _ _ Ha). destruct u. exists k. cbn [sv_dir sv_registry sv_counters sv_app sv_cache]. rewrite Ha. done.
Qed.

(** The session of an accepted event is claimed for its contributor and workspace. *)
Lemma claim_session_claims st sid w s s1 :
  claim_session st sid w s = (None, s1) -> scoped (sv_app s) = true ->
  (forall c, app_session_claims (sv_app s) = Some c -> store_ok c) ->
  exists name c store, sid = JStr name /\ st_contributor_id st = Some c /\ app_session_claims (sv_app s1) = Some store
    /\ owns name (MkClaim c w None) store.
Proof.
  unfold claim_session, _session_claim_store. intros Hc Hs Hok. rewrite Hs in Hc. cbn [negb] in Hc.
  destruct sid as [| | | |name| |]; try done. destruct (not_blank name); [|done].
  destruct (app_session_claims (sv_app s)) as [store|] eqn:Hst;
    destruct (st_contributor_id st) as [[|a c]|] eqn:Hcid; try done;
    destruct (claim name _ w _) as [[] store'] eqn:Hcl; try done; simplify_eq/=;
    exists name, (String a c), store'; (split; [done|]); (split; [done|]); (split; [done|]);
    (eapply claim_owns; [|exact Hcl]); first [by apply Hok|by intros [=]].
Qed.

(** C8: what the answer "queued" means (a duplicate is answered 202 as well, with
    another status, and appends nothing).  If an event is answered "queued": it was
    authorized; its bytes were appended, with a newline, to the log of its own
    worker key and nothing else changed (so after a torn tail they end that line);
    what was appended is the client's object with
    every field kept, except that the contributor is the authenticated one and the
    event identity the server's, whatever the client sent; the session's drainer is
    registered, the event counted, and in scoped mode the session is claimed for
    this contributor and workspace.  As a queue operation it is one enqueue. *)
Theorem queued_event_durable (st : ScopeState) (raw : bytes) (replay : bool) (now : Z) (token : string)
    (sc : write_script) (s s' : Server) (n : option string) :
  (forall c, app_session_claims (sv_app s) = Some c -> store_ok c) ->
  post_events st raw replay now token sc s = (Queued n, s') ->
  exists o er k, let sid := jget_default "session_id" (JStr "") (er_data er) in
    let env := envelope (st_contributor_id st) (_new_event_identity (er_idempotency_key er) token) o in
    let body := json_dumps_compact (JObj env) in
    loads_bytes raw = Ok (JObj o) /\ event_request o = Some er /\ _events_worker_key sid (er_workspace er) = Ok k
    /\ require_write (MkReq st (sv_app s)) = Allowed
    /\ require_workspace_access (MkReq st (sv_app s)) (er_workspace er) "live:write" = Allowed
    /\ sv_dir s' !! _log_path k = Some (file_content (sv_dir s) (_log_path k) ++ frame body)
    /\ (forall p, p <> _log_path k -> sv_dir s' !! p = sv_dir s !! p)
    /\ dget "created_by" env = Some (created_by (st_contributor_id st))
    /\ (forall f, f <> "created_by" -> f <> SPOOL_EVENT_IDENTITY -> dget f env = dget f o)
    /\ (json_ok (JObj env) -> floats_ok (JObj env) = true ->
        loads_bytes body = Ok (JObj env)
        /\ forall q torn, implements k (sv_dir s) q torn -> implements k (sv_dir s') (enqueue q (torn ++ body)) [])
    /\ sv_registry s' = get_or_create k (sv_registry s)
    /\ sv_counters s' = Counters.record_accepted 1 (sv_counters s)
    /\ (scoped (sv_app s) = true -> exists name c store, sid = JStr name /\ st_contributor_id st = Some c
        /\ app_session_claims (sv_app s') = Some store /\ owns name (MkClaim c (er_workspace er) None) store).
Proof.
  intros Hok Hp. apply post_inv in Hp as [(o & er & s1 & s2 & Hl & Her & Hw & Hws & Hc & Hk & He)|[Hn _]];
    [|by destruct (Hn n)].
  apply enqueue_queued in He as (k & Hkey & Hval & Happ & Hreg & Hcnt & Hap & _).
  destruct (claim_session_frame _ _ _ _ _ _ Hc) as ((D1 & R1 & C1) & _ & Hsc & _).
  destruct (check_duplicate_frame _ _ _ _ _ _ _ _ Hk) as ((D2 & R2 & C2) & A2 & _).
  rewrite D2, D1 in Happ. rewrite R2, R1 in Hreg. rewrite C2, C1 in Hcnt.
  destruct (append_ok _ _ _ _ _ _ Happ (conj Hval (body_not_nl _))) as [Hlog Hother].
  exists o, er, k. cbv zeta. repeat (split; [done|]).
  split; [by rewrite envelope_fields|]. split.
  { intros f Hf1 Hf2. rewrite envelope_fields. by rewrite !decide_False. }
  split; [|split; [done|split; [done|]]].
  - intros Hj Hf. split.
    + unfold loads_bytes. rewrite decode_printable by (apply dumps_printable; [printable_lit..|done]).
      by apply loads_dumps_compact.
    + intros q torn Hq. pose proof (append_enqueues k (sv_dir s) q torn _ sc Hq Hval (json_dumps_compact_no_nl _ Hf)) as Hr.
      by rewrite Happ in Hr.
  - intros Hs. destruct (claim_session_claims _ _ _ _ _ Hc Hs Hok) as (name & c & store & -> & Hcid & Hst & How).
    exists name, c, store. by rewrite Hap, A2.
Qed.

(** ** Retries *)

Record post := MkPost {
  po_state : ScopeState; po_raw : bytes; po_replay : bool; po_now : Z; po_token : string; po_script : write_script }.
Definition run_post (s : Server) (p : post) : Server :=
  snd (post_events (po_state p) (po_raw p) (po_replay p) (po_now p) (po_token p) (po_script p) s).
Definition run_posts : Server -> list post -> Server := foldl run_post.

(** A request consults the cache at most once, and never changes the mode. *)
Lemma enqueue_event_cache st o er sid token sc s :
  sv_cache (snd (enqueue_event st o er sid token sc s)) = sv_cache s
  /\ sv_app (snd (enqueue_event st o er sid token sc s)) = sv_app s.
Proof.
  unfold enqueue_event. destruct (_events_worker_key _ _); [|done].
  by destruct (append _ _ sc (sv_dir s)) as [[] d].
Qed.

Lemma no_arrivals (now : Z) (c : EventIdempotencyCache) :
  exists cs, length cs <= 1 /\ Forall (fun x => x.2 = now) cs /\ arrivals cs c = (Ok tt, c).
Proof. exists []. split; [cbn; lia|]. by split. Qed.

Lemma check_duplicate_cache st er sid replay now s :
  cache_ok (sv_cache s) ->
  exists cs, length cs <= 1 /\ Forall (fun x => x.2 = now) cs
    /\ arrivals cs (sv_cache s) = (Ok tt, sv_cache (snd (check_duplicate st er sid replay now s))).
Proof.
  intros Hc. unfold check_duplicate.
  destruct (er_idempotency_key er) as [[|a k]|]; [apply no_arrivals|..|apply no_arrivals].
  destruct replay; [apply no_arrivals|]. set (key := scoped_key _ _ _ _). destruct (check_and_store_ok key now (sv_cache s) Hc) as (v & c & Hs & _).
  rewrite Hs. exists [(key, now)]. split; [cbn; lia|]. split; [by repeat constructor|].
  cbn [arrivals]. unfold mbind. by rewrite Hs.
Qed.

Lemma post_cache s p :
  cache_ok (sv_cache s) ->
  scoped (sv_app (run_post s p)) = scoped (sv_app s)
  /\ exists cs, length cs <= 1 /\ Forall (fun x => x.2 = po_now p) cs
     /\ arrivals cs (sv_cache s) = (Ok tt, sv_cache (run_post s p)).
Proof.
  intros Hc. pose proof (no_arrivals (po_now p) (sv_cache s)) as Hnil.
  unfold run_post, post_events.
  destruct (loads_bytes (po_raw p)) as [[]|]; try done. destruct (require_write _); [|done].
  destruct (event_request o) as [er|]; [|done]. destruct (negb _); [done|].
  destruct (require_workspace_access _ _ _); [|done].
  destruct (claim_session _ _ _ s) as [r1 s1] eqn:Hcl.
  apply claim_session_frame in Hcl as (_ & Hca & Hsc & _). destruct r1; [cbn [snd]; by rewrite Hca|].
  pose proof (check_duplicate_cache (po_state p) er (jget_default "session_id" (JStr "") (er_data er)) (po_replay p)
                (po_now p) s1) as Hd. rewrite Hca in Hd. specialize (Hd Hc).
  destruct (check_duplicate _ _ _ _ _ s1) as [r2 s2] eqn:Hdup. cbn [snd] in Hd.
  apply check_duplicate_frame in Hdup as (_ & Ha & _).
  destruct r2; cbn [snd]; [by rewrite Ha|].
  pose proof (enqueue_event_cache (po_state p) o er (jget_default "session_id" (JStr "") (er_data er)) (po_token p)
                (po_script p) s2) as [Hcache Happ].
  rewrite Hcache, Happ, Ha. done.
Qed.
Lemma arrivals_app a b c : arrivals (a ++ b) c = (arrivals a ;;; arrivals b) c.
Proof.
  revert c. induction a as [|[k t] a IH]; intros c; [done|]. cbn [app arrivals]. unfold mbind in *.
  destruct (check_and_store k t c) as [[v|e] c1]; [|done]. apply IH.
Qed.

Lemma posts_cache ps s :
  cache_ok (sv_cache s) ->
  scoped (sv_app (run_posts s ps)) = scoped (sv_app s)
  /\ exists cs, length cs <= length ps /\ Forall (fun x => exists p, p ∈ ps /\ x.2 = po_now p) cs
     /\ arrivals cs (sv_cache s) = (Ok tt, sv_cache (run_posts s ps)).
Proof.
  unfold run_posts. revert s. induction ps as [|p ps IH]; intros s Hc; cbn [foldl].
  { split; [done|]. exists []. split; [done|]. by split. }
  destruct (post_cache s p Hc) as (Hm & cs1 & Hl1 & Ht1 & Ha1).
  assert (Hc1 : cache_ok (sv_cache (run_post s p))).
  { destruct (arrivals_ok cs1 _ Hc) as (c' & Ha & Hok & _). rewrite Ha1 in Ha. by injection Ha as ->. }
  destruct (IH _ Hc1) as (Hm2 & cs2 & Hl2 & Ht2 & Ha2). split; [congruence|].
  exists (cs1 ++ cs2). split; [rewrite length_app; cbn; lia|]. split.
  - apply Forall_app. split; eapply Forall_impl; [exact Ht1| |exact Ht2|].
    + intros x Hx. exists p. split; [left|done].
    + intros x (p' & Hin & Hx). exists p'. split; [by right|done].
  - rewrite arrivals_app. unfold mbind. by rewrite Ha1.
Qed.

(** The idempotency key of a request, as the cache sees it. *)
Definition event_key (mode : bool) (st : ScopeState) (raw : bytes) : option string :=
  match loads_bytes raw with
  | Ok (JObj o) =>
    match event_request o with
    | Some er => match er_idempotency_key er with
                 | Some (String _ _ as key) =>
                   Some (if mode then default "None" (st_contributor_id st) +:+ String (Ascii.ascii_of_nat 31) ""
                           +:+ er_workspace er +:+ String (Ascii.ascii_of_nat 31) "" +:+ key else key)
                 | _ => None
                 end
    | None => None
    end
  | _ => None
  end.

(** A request that reached the append had its key accepted. *)
Lemma reached_spends st raw now token sc s r s' k :
  cache_ok (sv_cache s) -> post_events st raw false now token sc s = (r, s') ->
  event_key (scoped (sv_app s)) st raw = Some k ->
  check_and_store k now (sv_cache s) = (Ok true, sv_cache s') \/ ((forall n, r <> Queued n) /\ spool_same s s').
Proof.
  intros Hc Hp Hk. apply post_inv in Hp as [(o & er & s1 & s2 & Hl & Her & _ & _ & Hcl & Hd & He)|Hn]; [left|by right].
  apply claim_session_frame in Hcl as (_ & Hca & Hsc & _). unfold event_key in Hk. rewrite Hl, Her in Hk.
  destruct (er_idempotency_key er) as [[|a key]|] eqn:Hkey; try done.
  unfold check_duplicate in Hd. rewrite Hkey in Hd. unfold scoped_key in Hd. rewrite Hsc in Hd.
  injection Hk as Hk. rewrite Hk, Hca in Hd.
  pose proof (enqueue_event_cache st o er (jget_default "session_id" (JStr "") (er_data er)) token sc s2) as [Hcc _].
  rewrite He in Hcc. cbn [snd] in Hcc. rewrite Hcc.
  destruct (check_and_store k now (sv_cache s)) as [[[]|e] c]; try done. by injection Hd as <-.
Qed.

(** A key the cache refuses never reaches the spool. *)
Lemma refused_key st raw now token sc s r s' k c :
  post_events st raw false now token sc s = (r, s') -> event_key (scoped (sv_app s)) st raw = Some k ->
  check_and_store k now (sv_cache s) = (Ok false, c) -> (forall n, r <> Queued n) /\ spool_same s s'.
Proof.
  intros Hp Hk Hf. apply post_inv in Hp as [(o & er & s1 & s2 & Hl & Her & _ & _ & Hcl & Hd & He)|Hn]; [exfalso|done].
  apply claim_session_frame in Hcl as (_ & Hca & Hsc & _). unfold event_key in Hk. rewrite Hl, Her in Hk.
  destruct (er_idempotency_key er) as [[|a key]|] eqn:Hkey; try done.
  unfold check_duplicate in Hd. rewrite Hkey in Hd. unfold scoped_key in Hd. rewrite Hsc in Hd.
  injection Hk as Hk. rewrite Hk, Hca, Hf in Hd. done.
Qed.

(** *** What a repeated request meets *)

(** The configuration: everything of the application's state but the claims. *)
Definition config (a : AppState) : option string * option string * option string * option string
    * list (string * Grant) * option bool :=
  (app_mode a, app_service_data_role a, app_reader_role a, app_entra_admin_role a, app_grants a,
   app_recovery_permit_required a).

Lemma config_gates a a' st ws : config a' = config a ->
  scoped a' = scoped a /\ require_write (MkReq st a') = require_write (MkReq st a)
  /\ require_workspace_access (MkReq st a') ws "live:write" = require_workspace_access (MkReq st a) ws "live:write".
Proof. destruct a, a'. unfold config. intros [= -> -> -> -> -> ->]. done. Qed.

(** The open claim store still gives [name] to [row]. *)
Definition claimed (name : string) (row : Claim) (s : Server) : Prop :=
  exists store, app_session_claims (sv_app s) = Some store /\ owns name row store.

(** Requests leave configuration and committed claims alone. *)
Definition steady_claims (s s' : Server) : Prop :=
  config (sv_app s') = config (sv_app s) /\ forall name row, claimed name row s -> claimed name row s'.

Lemma claim_session_steady st sid w s : steady_claims s (snd (claim_session st sid w s)).
Proof.
  unfold claim_session, _session_claim_store. destruct (negb _); [done|]. destruct sid as [| | | |name| |]; try done.
  destruct (not_blank name); [|done]. destruct (app_session_claims (sv_app s)) as [store|] eqn:Hst.
  - destruct (st_contributor_id st) as [[|a c]|]; try done.
    destruct (claim name (String a c) w store) as [ok store'] eqn:Hcl. split; [done|].
    intros n row (store0 & Hs0 & Ho). rewrite Hst in Hs0. injection Hs0 as <-. exists store'. split; [done|].
    pose proof (owns_step n row (OClaim name (String a c) w) store Ho) as Hs. cbn [run_op] in Hs. by rewrite Hcl in Hs.
  - assert (Hno : forall n row, ~ claimed n row s) by (intros n row (store0 & Hs0 & _); congruence).
    destruct (st_contributor_id st) as [[|a c]|]; try (split; [done|intros n row Hc; by destruct (Hno n row)]).
    destruct (claim _ _ _ _) as [ok store']. split; [done|]. intros n row Hc. by destruct (Hno n row).
Qed.

Lemma post_steady p s : steady_claims s (run_post s p).
Proof.
  unfold run_post, post_events.
  destruct (loads_bytes (po_raw p)) as [[]|]; try done. destruct (require_write _); [|done].
  destruct (event_request o) as [er|]; [|done]. destruct (negb _); [done|].
  destruct (require_workspace_access _ _ _); [|done].
  pose proof (claim_session_steady (po_state p) (jget_default "session_id" (JStr "") (er_data er)) (er_workspace er) s) as Hs.
  destruct (claim_session _ _ _ s) as [[r1|] s1]; cbn [snd] in Hs; [done|].
  destruct (check_duplicate _ _ _ _ _ s1) as [r2 s2] eqn:Hdup.
  apply check_duplicate_frame in Hdup as (_ & Ha & _).
  assert (Hs2 : steady_claims s s2) by (unfold steady_claims, claimed in *; by rewrite Ha).
  destruct r2; [done|]. unfold steady_claims, claimed in *.
  pose proof (enqueue_event_cache (po_state p) o er (jget_default "session_id" (JStr "") (er_data er)) (po_token p)
                (po_script p) s2) as [_ Happ].
  by rewrite Happ.
Qed.

Lemma posts_steady ps s : steady_claims s (run_posts s ps).
Proof.
  unfold run_posts. revert s. induction ps as [|p ps IH]; intros s; cbn [foldl]; [done|].
  destruct (post_steady p s) as [Hp1 Hp2], (IH (run_post s p)) as [Hp3 Hp4]. split; [congruence|auto].
Qed.

(** A repeated claim passes. *)
Lemma claim_session_again st sid w s s1 s2 :
  (forall c, app_session_claims (sv_app s) = Some c -> store_ok c) ->
  claim_session st sid w s = (None, s1) -> steady_claims s1 s2 -> fst (claim_session st sid w s2) = None.
Proof.
  intros Hok Hc [Hcfg Hcl]. destruct (claim_session_frame _ _ _ _ _ _ Hc) as (_ & _ & Hm & _).
  destruct (config_gates _ _ st w Hcfg) as (Hm2 & _). destruct (scoped (sv_app s)) eqn:Hs.
  - destruct (claim_session_claims _ _ _ _ _ Hc Hs Hok) as (name & c & store & -> & Hcid & Hst & How).
    destruct (Hcl name _ (ex_intro _ store (conj Hst How))) as (store2 & Hst2 & Ho2).
    unfold claim_session in Hc |- *. rewrite Hs in Hc. rewrite Hm2, Hm. cbn [negb] in *.
    destruct (not_blank name); [|done]. unfold _session_claim_store at 1. rewrite Hst2.
    rewrite Hcid in Hc |- *. destruct c as [|a c]; [by destruct (_session_claim_store s)|].
    pose proof (owns_claims_again _ _ _ _ Ho2) as Ha. destruct (claim name (String a c) w store2) as [ok x].
    cbn [fst] in Ha. by subst ok.
  - unfold claim_session. by rewrite Hm2, Hm.
Qed.

(** A refused key of a request that was queued before is answered as a duplicate. *)
Lemma repeat_is_duplicate st raw now now' token token' sc sc' s s1 s2 n k c :
  (forall c, app_session_claims (sv_app s) = Some c -> store_ok c) ->
  post_events st raw false now token sc s = (Queued n, s1) -> steady_claims s1 s2 ->
  event_key (scoped (sv_app s)) st raw = Some k -> check_and_store k now' (sv_cache s2) = (Ok false, c) ->
  exists s3, post_events st raw false now' token' sc' s2 = (DuplicateEvent n, s3).
Proof.
  intros Hok Hp Hst Hk Href. unfold post_events in Hp |- *. unfold event_key in Hk.
  destruct (loads_bytes raw) as [[| | | | | |o]|]; try done.
  destruct (require_write (MkReq st (sv_app s))) eqn:Hw; [|done]. destruct (event_request o) as [er|]; [|done].
  destruct (negb (_validate_data_timestamp _)); [done|].
  destruct (require_workspace_access (MkReq st (sv_app s)) _ _) eqn:Hws; [|done].
  destruct (claim_session st _ _ s) as [[r|] sa] eqn:Hcl.
  { apply claim_session_frame in Hcl as (_ & _ & _ & Hr). destruct (Hr r eq_refl) as [x ->]. done. }
  destruct (check_duplicate st er _ false now sa) as [[r|] sb] eqn:Hd.
  { apply check_duplicate_frame in Hd as (_ & _ & Hr). simplify_eq. by destruct (Hr _ eq_refl n). }
  assert (Hab : steady_claims sa s2).
  { apply check_duplicate_frame in Hd as (_ & Ha & _).
    destruct (enqueue_event_cache st o er (jget_default "session_id" (JStr "") (er_data er)) token sc sb) as [_ He].
    rewrite Hp in He. cbn [snd] in He. unfold steady_claims, claimed in *. by rewrite <- Ha, <- He. }
  assert (Hcfg : config (sv_app s2) = config (sv_app s)).
  { destruct (claim_session_steady st (jget_default "session_id" (JStr "") (er_data er)) (er_workspace er) s) as [E1 _].
    rewrite Hcl in E1. destruct Hab as [E2 _]. cbn [snd] in E1. congruence. }
  destruct (config_gates _ _ st (er_workspace er) Hcfg) as (Hm & -> & ->). rewrite Hw, Hws.
  pose proof (claim_session_again _ _ _ _ _ _ Hok Hcl Hab) as Hagain.
  destruct (claim_session st _ _ s2) as [r2 sc2] eqn:Hcl2. cbn [fst] in Hagain. subst r2.
  apply claim_session_frame in Hcl2 as (_ & Hca & Hsc & _).
  destruct (er_idempotency_key er) as [[|a key]|] eqn:Hkey; try done. injection Hk as Hk.
  unfold check_duplicate. rewrite Hkey. unfold scoped_key. rewrite Hsc, Hm, Hk, Hca, Href.
  unfold enqueue_event in Hp. destruct (_events_worker_key _ _); [|done].
  destruct (append _ _ sc (sv_dir sb)) as [[[]|x] d]; [|done]. injection Hp as Hp _.
  unfold answer in *. repeat case_match; simplify_eq; by eexists.
Qed.

(** C9: a keyed event enters the spool once.  Take an event with an idempotency
    key that was queued, then fewer other requests than the cache has room for,
    all within the key's time to live.  Any further ingest request of the same key
    (in scoped mode: of the same contributor and workspace) within that time is not
    queued and changes neither spool nor registry nor counters; and the client's
    own retry, the same body from the same caller, is answered as a duplicate with
    the first answer's session.  Replays skip the check, here as in the code. *)
Theorem keyed_event_enters_once (st st' : ScopeState) (raw raw' : bytes) (now now' : Z) (token token' : string)
    (sc sc' : write_script) (s s1 : Server) (n : option string) (k : string) (ps : list post) :
  cache_ok (sv_cache s) -> (forall c, app_session_claims (sv_app s) = Some c -> store_ok c) ->
  post_events st raw false now token sc s = (Queued n, s1) ->
  event_key (scoped (sv_app s)) st raw = Some k -> event_key (scoped (sv_app s)) st' raw' = Some k ->
  Forall (fun p => po_now p - now < ic_ttl (sv_cache s))%Z ps -> (now' - now < ic_ttl (sv_cache s))%Z ->
  (Z.of_nat (length ps) + 2 <= ic_max (sv_cache s))%Z ->
  let s2 := run_posts s1 ps in
  let '(r, s3) := post_events st' raw' false now' token' sc' s2 in
  (forall m, r <> Queued m) /\ spool_same s2 s3 /\ (st' = st -> raw' = raw -> r = DuplicateEvent n).
Proof.
  intros Hc Hok Hp Hk Hk' Hps Hnow Hcap. cbv zeta.
  destruct (reached_spends _ _ _ _ _ _ _ _ _ Hc Hp Hk) as [Hacc|[Hn _]]; [|by destruct (Hn n)].
  assert (Hmode : scoped (sv_app s1) = scoped (sv_app s)).
  { pose proof (post_cache s (MkPost st raw false now token sc) Hc) as [Hm _]. unfold run_post in Hm.
    cbn [po_state po_raw po_replay po_now po_token po_script] in Hm. by rewrite Hp in Hm. }
  assert (Hc1 : cache_ok (sv_cache s1)).
  { destruct (check_and_store_ok k now (sv_cache s) Hc) as (v & c' & Hs & Hok' & _). rewrite Hacc in Hs. by simplify_eq. }
  destruct (posts_cache ps s1 Hc1) as (Hm2 & cs & Hlen & Hts & Harr).
  destruct (accepted_key_refused (sv_cache s) (sv_cache s1) k now now' cs Hc Hacc) as (c2 & c3 & Ha & Href & _).
  - eapply Forall_impl; [exact Hts|]. intros x (p & Hin & ->). by apply (proj1 (Forall_forall _ _) Hps).
  - done.
  - lia.
  - rewrite Harr in Ha. injection Ha as Ha. rewrite <- Ha in Href.
    destruct (post_events st' raw' false now' token' sc' (run_posts s1 ps)) as [r s3] eqn:Hp'.
    destruct (refused_key _ _ _ _ _ _ _ _ _ _ Hp' ltac:(by rewrite Hm2, Hmode) Href) as [Hq Hsp].
    split; [done|]. split; [done|]. intros -> ->.
    destruct (repeat_is_duplicate _ _ _ _ _ token' _ sc' _ _ _ _ _ _ Hok Hp (posts_steady ps s1) Hk Href) as [s4 H4].
    rewrite Hp' in H4. by injection H4.
Qed.

(** C10: an event can be lost to its own idempotency key.  When the append fails
    (here: the log cannot be opened), the request answers with a server error and
    nothing was stored, but its key is already spent: the client's retry is
    answered "duplicate" and nothing is stored either. *)
Theorem failed_append_poisons_key (st : ScopeState) (raw : bytes) (now now' : Z) (token token' : string)
    (ws : list write_result) (sc' : write_script) (s s1 : Server) (k : string) :
  cache_ok (sv_cache s) -> (2 <= ic_max (sv_cache s))%Z -> scoped (sv_app s) = false ->
  event_key false st raw = Some k -> (now' - now < ic_ttl (sv_cache s))%Z ->
  post_events st raw false now token (WriteScript false ws) s = (ServerError OSError, s1) ->
  sv_dir s1 = sv_dir s
  /\ exists n s2, post_events st raw false now' token' sc' s1 = (DuplicateEvent n, s2) /\ sv_dir s2 = sv_dir s.
Proof.
  intros Hc Hmax Hs Hk Hnow Hp.
  assert (Hk1 : event_key (scoped (sv_app s)) st raw = Some k) by by rewrite Hs.
  unfold post_events in Hp |- *. unfold event_key in Hk.
  destruct (loads_bytes raw) as [[| | | | | |o]|]; try done.
  destruct (require_write _) eqn:Hw; [|done]. destruct (event_request o) as [er|] eqn:Her; [|done].
  destruct (negb _) eqn:Hts; [done|]. destruct (require_workspace_access _ _ _) eqn:Hws; [|done].
  assert (Hcl : forall s, scoped (sv_app s) = false ->
            claim_session st (jget_default "session_id" (JStr "") (er_data er)) (er_workspace er) s = (None, s)).
  { intros s0 Hs0. unfold claim_session. by rewrite Hs0. }
  rewrite (Hcl s Hs) in Hp. destruct (er_idempotency_key er) as [[|a key]|] eqn:Hkey; try done.
  injection Hk as Hk. unfold check_duplicate in Hp. rewrite Hkey in Hp. unfold scoped_key in Hp. rewrite Hs, Hk in Hp.
  destruct (check_and_store_ok k now (sv_cache s) Hc) as (v & c & Hv & Hc' & Ht & Hm). rewrite Hv in Hp.
  destruct v; [|unfold answer in Hp; repeat case_match; done].
  unfold enqueue_event in Hp. destruct (_events_worker_key _ _) as [wk|e] eqn:Hwk.
  2:{ unfold _events_worker_key in Hwk. repeat case_match; simplify_eq. }
  unfold append in Hp. assert (Hd : s1 = MkServer (sv_app s) (sv_stored_claims s) c (get_or_create wk (sv_registry s)) (sv_dir s) (sv_counters s)).
  { destruct (_validate_session_id wk); [|done]. unfold _write_record in Hp. cbn [open_ok] in Hp. by simplify_eq. }
  rewrite Hd. cbn [sv_app sv_dir]. split; [done|]. rewrite Hw, Hws, Hcl by done.
  destruct (accepted_key_refused (sv_cache s) c k now now' [] Hc Hv) as (c2 & c3 & Ha & Href & _); [constructor|done|cbn; lia|].
  injection Ha as <-. unfold check_duplicate. rewrite Hkey. unfold scoped_key. cbn [sv_app sv_cache]. rewrite Hs, Hk, Href.
  unfold answer. unfold _events_worker_key, py_or in Hwk.
  destruct (truthy (jget_default "session_id" (JStr "") (er_data er))); [|by eauto].
  destruct (jget_default "session_id" (JStr "") (er_data er)); try done. by eauto.
Qed.
End theorems.

(** ** Witnesses *)

Definition any_time : Timestamps :=
  {| datetime := unit; fromisoformat := fun _ => Some tt; epoch_ms := fun _ => 0%Z; dt_le := fun _ _ => Some true |}.
Definition plain_float : FloatRepr := fun s => s.

Definition demo_app : AppState := MkApp None None None None [] None None.
Definition demo_server : Server :=
  MkServer demo_app (MkDb ∅ None) (new_cache 100 10) empty_registry ∅ Counters.new_counters.
Definition alice : ScopeState := MkScope (Some false) (Some false) (Some []) (Some "alice").
Definition demo_obj : json :=
  JObj [("event", JStr "tool:pre"); ("workspace", JStr "w"); ("created_by", JStr "mallory");
        ("idempotency_key", JStr "k1");
        ("data", JObj [("session_id", JStr "s1"); ("timestamp", JStr "2026-01-01T00:00:00")])].
Definition demo_raw : bytes := json_dumps demo_obj.
Definition demo_post (now : Z) (sc : write_script) (s : Server) : response * Server :=
  @post_events ascii_lower any_time plain_float alice demo_raw false now "00" sc s.
Definition works : write_script := WriteScript true [].
Definition broken : write_script := WriteScript false [].

Lemma demo_cache_ok : cache_ok (sv_cache demo_server).
Proof. split; [vm_compute; discriminate|]. split; [apply NoDup_nil_2|vm_compute; discriminate]. Qed.

Lemma demo_queued : demo_post 0 works demo_server = (Queued (Some "s1"), snd (demo_post 0 works demo_server)).
Proof. rewrite (surjective_pairing (demo_post 0 works demo_server)) at 1. f_equal; by vm_compute. Qed.

(** The spoofed contributor is overwritten. *)
Lemma queued_event_durable_witness :
  exists k env, sv_dir (snd (demo_post 0 works demo_server)) !! _log_path k = Some (frame (json_dumps_compact (JObj env)))
    /\ dget "created_by" env = Some (JStr "alice").
Proof.
  destruct (@queued_event_durable ascii_lower any_time plain_float alice demo_raw false 0 "00" works demo_server
              (snd (demo_post 0 works demo_server)) (Some "s1")) as (o & er & k & Hs).
  - by intros c [=].
  - exact demo_queued.
  - destruct Hs as (_ & _ & _ & _ & _ & Hlog & _ & Hcb & _). exists k. eexists. split; [exact Hlog|exact Hcb].
Defined.

Lemma keyed_event_enters_once_witness :
  fst (demo_post 50 works (snd (demo_post 0 works demo_server))) = DuplicateEvent (Some "s1")
  /\ spool_same (snd (demo_post 0 works demo_server)) (snd (demo_post 50 works (snd (demo_post 0 works demo_server)))).
Proof.
  pose proof (@keyed_event_enters_once ascii_lower any_time plain_float alice alice demo_raw demo_raw 0 50 "00" "00"
    works works demo_server (snd (demo_post 0 works demo_server)) (Some "s1") "k1" [] demo_cache_ok
    ltac:(by intros c [=]) demo_queued
    ltac:(by vm_compute) ltac:(by vm_compute) (Forall_nil_2 _) ltac:(by vm_compute) ltac:(by vm_compute)) as Hk.
  unfold run_posts in Hk. cbn [foldl] in Hk. fold (demo_post 50 works (snd (demo_post 0 works demo_server))) in Hk.
  destruct (demo_post 50 works (snd (demo_post 0 works demo_server))) as [r s3].
  destruct Hk as (_ & Hs & Hd). split; [by apply Hd|exact Hs].
Defined.

Lemma failed_append_poisons_key_witness :
  exists n s2, demo_post 1 works (snd (demo_post 0 broken demo_server)) = (DuplicateEvent n, s2) /\ sv_dir s2 = ∅.
Proof.
  destruct (@failed_append_poisons_key ascii_lower any_time plain_float alice demo_raw 0 1 "00" "00" [] works demo_server
    (snd (demo_post 0 broken demo_server)) "k1" demo_cache_ok) as [_ (n & s2 & Hp & Hd)].
  - by vm_compute.
  - done.
  - by vm_compute.
  - by vm_compute.
  - fold broken. fold (demo_post 0 broken demo_server).
    rewrite (surjective_pairing (demo_post 0 broken demo_server)) at 1. f_equal; by vm_compute.
  - exists n, s2. split; [exact Hp|exact Hd].
Defined.
