(* ===== verification/Startup.v ===== *)
(** * Crash recovery at start-up ([main.py])

    The pass that runs once per boot over the live spool: migrate over-long keys,
    acknowledge dead lines, seed the conservation counters, respawn a drainer for
    every session with undrained data (up to a limit, in sorted order, each under
    the workspace its own first pending line names), reclaim drained files.  The
    periodic sweep repeats the respawn step.

    [boot_keeps_backlog]: the pass loses no pending event and dispatches every
    session that has one.  [seed_conserves]: the counters it seeds account exactly
    for what the statistics then find on disk. *)
From stdpp Require Import base list strings gmap.
From Stdlib Require Import ZArith Lia.
From S2P Require Import Prelude PyText Sha256 Utils Json JsonParse JsonIndent QueueFiles QueueManager QueueSpec.
From S2P Require Import BlobKeys Drain Idempotency SessionClaims Authz Registry RegistryMetrics Auth QueueBoot QueueBootSpec Ingest.

#[local] Open Scope string_scope.
#[local] Open Scope list_scope.

Section startup.
Context `{FloatRepr}.

(** [(workspace, created_by)] of a line, [None] when it names no workspace. *)
Definition _parse_workspace_and_creator (raw : bytes) : option (json * json) :=
  match loads_bytes raw with
  | Ok (JObj o) =>
    let workspace := jget_default "workspace" (JStr "") o in
    if truthy workspace then Some (workspace, jget "created_by" o) else None
  | _ => None
  end.

(** A dispatch: the session, and the workspace and contributor of its worker. *)
Definition dispatch := (string * (json * json))%type.

Definition with_registry (r : registry) (s : Server) : Server :=
  MkServer (sv_app s) (sv_stored_claims s) (sv_cache s) r (sv_dir s) (sv_counters s).
Definition with_dir (d : dir) (s : Server) : Server :=
  MkServer (sv_app s) (sv_stored_claims s) (sv_cache s) (sv_registry s) d (sv_counters s).
Definition with_counters (c : Counters.t) (s : Server) : Server :=
  MkServer (sv_app s) (sv_stored_claims s) (sv_cache s) (sv_registry s) (sv_dir s) c.

Definition _recover_one_session (sid : string) (first_line : bytes) (s : Server) : option dispatch * Server :=
  match _parse_workspace_and_creator first_line with
  | None => (None, s)
  | Some wc => (Some (sid, wc), with_registry (get_or_create sid (sv_registry s)) s)
  end.

(** [payload["data"]["session_id"]], where every step may fail. *)
Definition line_session (raw : bytes) : option string :=
  match loads_bytes raw with
  | Ok (JObj o) => match dget "data" o with
                   | Some (JObj d) => match dget "session_id" d with Some (JStr s) => Some s | _ => None end
                   | _ => None
                   end
  | _ => None
  end.

Definition _scoped_queue_binding_matches (worker_key : string) (first_line : bytes) (s : Server) : bool * Server :=
  if negb (scoped (sv_app s)) then (true, s)
  else match line_session first_line with
  | Some original =>
    if bool_decide (fold_worker_key original = worker_key) then
      let '(claims, s) := _session_claim_store s in
      let '(matched, claims) := storage_identity_matches original claims in
      (matched, set_store claims s)
    else (false, s)
  | None => (false, s)
  end.

(** One recovered session. *)
Definition recover_session (sid : string) (s : Server) : option dispatch * Server :=
  match read_batch sid 1 (sv_dir s) with
  | Err _ => (None, s)
  | Ok batch =>
    match records batch with
    | [] => (None, s)
    | rec :: _ =>
      let '(matches, s) := _scoped_queue_binding_matches sid (raw rec) s in
      if matches then _recover_one_session sid (raw rec) s else (None, s)
    end
  end.

(** The loop of both passes; [limit] counts successful dispatches. *)
Fixpoint topup_loop (limit : option nat) (keys : list string) (s : Server) : list dispatch * Server :=
  match keys with
  | [] => ([], s)
  | sid :: keys =>
    match limit with
    | Some O => ([], s)
    | _ =>
      let '(r, s) := recover_session sid s in
      match r with
      | Some x => let '(xs, s) := topup_loop (pred <$> limit) keys s in (x :: xs, s)
      | None => topup_loop limit keys s
      end
    end
  end.

Definition _crash_recovery_topup (respawn_limit : option nat) (s : Server) : list dispatch * Server :=
  topup_loop respawn_limit (recover (sv_dir s)) s.

(** What the operating system does to the boot pass. *)
Record boot_env := MkBoot {
  be_fails : string -> option nat;           (** renames *)
  be_commit : string -> commit_script;       (** offset writes *)
  be_uuid : string -> string;
  be_unlink : string -> unlink_script;       (** unlinks of drained files *)
  be_stale : string -> bool;                 (** temporaries old enough to sweep *)
}.

Definition _startup_recovery_body (e : boot_env) (respawn_limit : option nat) (s : Server) : list dispatch * Server :=
  let s := with_dir (snd (migrate_overlong_keys (be_fails e) (sv_dir s))) s in
  let s := with_dir (snd (recovery_reconcile_dead (be_commit e) (be_uuid e) (sv_dir s))) s in
  let '(accepted, written) := recovery_seed_counts (sv_dir s) in
  let s := with_counters (Counters.seed_counters accepted written (sv_counters s)) s in
  let '(xs, s) := topup_loop respawn_limit (recover (sv_dir s)) s in
  (xs, with_dir (snd (reclaim_drained_orphans (be_unlink e) (be_stale e) (sv_dir s))) s).

(** ** The respawn loop *)

Lemma recover_session_frame sid s r s' :
  recover_session sid s = (r, s') ->
  sv_dir s' = sv_dir s /\ sv_counters s' = sv_counters s /\ scoped (sv_app s') = scoped (sv_app s)
  /\ match r with
     | Some x => x.1 = sid /\ sv_registry s' = get_or_create sid (sv_registry s)
     | None => sv_registry s' = sv_registry s
     end.
Proof.
  unfold recover_session, _scoped_queue_binding_matches, _session_claim_store, _recover_one_session.
  intros Hr. repeat (case_match; simplify_eq/=); done.
Qed.

Lemma topup_cons limit k keys s :
  limit <> Some 0 ->
  topup_loop limit (k :: keys) s
  = let '(r, s) := recover_session k s in
    match r with
    | Some x => let '(xs, s) := topup_loop (pred <$> limit) keys s in (x :: xs, s)
    | None => topup_loop limit keys s
    end.
Proof. intros Hl. cbn [topup_loop]. by destruct limit as [[|n]|]. Qed.

Lemma topup_frame limit keys s xs s' :
  topup_loop limit keys s = (xs, s') ->
  sv_dir s' = sv_dir s /\ sv_counters s' = sv_counters s
  /\ sv_registry s' = foldl (fun r x => get_or_create x.1 r) (sv_registry s) xs
  /\ map fst xs `sublist_of` keys /\ (forall n, limit = Some n -> length xs <= n).
Proof.
  revert limit s xs. induction keys as [|k keys IH]; intros limit s xs Ht.
  { cbn [topup_loop] in Ht. simplify_eq. do 3 (split; [done|]). split; [constructor|]. cbn. lia. }
  destruct (decide (limit = Some 0)) as [->|Hl].
  { cbn [topup_loop] in Ht. simplify_eq. do 3 (split; [done|]). split; [apply sublist_nil_l|]. cbn. lia. }
  rewrite topup_cons in Ht by done. destruct (recover_session k s) as [r s1] eqn:Hr.
  apply recover_session_frame in Hr as (D & C & _ & R). destruct r as [x|].
  - destruct R as [Hx R]. destruct (topup_loop (pred <$> limit) keys s1) as [ys s2] eqn:Ht2. simplify_eq.
    apply IH in Ht2 as (D2 & C2 & R2 & S2 & L2). rewrite D2, C2, R2, D, C, R. cbn [map foldl length].
    do 3 (split; [done|]). split; [by constructor|]. intros n ->. destruct n as [|n]; [done|].
    specialize (L2 n eq_refl). lia.
  - apply IH in Ht as (D2 & C2 & R2 & S2 & L2). rewrite D2, C2, R2, D, C, R.
    do 3 (split; [done|]). split; [by constructor|done].
Qed.

(** In compatibility mode a session is dispatched exactly when its first pending
    line names a workspace. *)
Lemma recover_session_compat sid s d q torn :
  scoped (sv_app s) = false -> sv_dir s = d -> implements sid d q torn -> _validate_session_id sid = true ->
  fst (recover_session sid s)
  = match next q 1 with
    | [] => None
    | r :: _ => match _parse_workspace_and_creator r with Some wc => Some (sid, wc) | None => None end
    end.
Proof.
  intros Hs Hd Hq Hk. unfold recover_session. rewrite Hd, (read_batch_next _ _ _ _ 1 Hq Hk). cbn [records].
  destruct (next q 1) as [|r rs]; [done|]. cbn [mk_records].
  unfold _scoped_queue_binding_matches. rewrite Hs. cbn [negb raw]. unfold _recover_one_session.
  by destruct (_parse_workspace_and_creator r).
Qed.

Lemma topup_unlimited keys k s xs s' d q torn wc :
  topup_loop None keys s = (xs, s') -> k ∈ keys -> scoped (sv_app s) = false -> sv_dir s = d ->
  implements k d q torn -> _validate_session_id k = true ->
  (exists r rs, next q 1 = r :: rs /\ _parse_workspace_and_creator r = Some wc) -> (k, wc) ∈ xs.
Proof.
  revert s xs. induction keys as [|k' keys IH]; intros s xs Ht Hin Hs Hd Hq Hk Hn; [by apply elem_of_nil in Hin|].
  rewrite topup_cons in Ht by done. destruct (recover_session k' s) as [r s1] eqn:Hr.
  pose proof (recover_session_frame _ _ _ _ Hr) as (D & _ & Hs1 & _).
  apply elem_of_cons in Hin. destruct (decide (k = k')) as [<-|Hne].
  - pose proof (recover_session_compat k s d q torn Hs Hd Hq Hk) as Hc. rewrite Hr in Hc. cbn [fst] in Hc.
    destruct Hn as (r0 & rs & Hnext & Hp). rewrite Hnext, Hp in Hc. subst r.
    destruct (topup_loop (pred <$> None) keys s1) as [ys s2]. simplify_eq. left.
  - destruct Hin as [?|Hin]; [done|]. destruct r as [x|].
    + destruct (topup_loop (pred <$> None) keys s1) as [ys s2] eqn:Ht2. simplify_eq. right.
      eapply (IH s1); [exact Ht2|done|congruence|congruence|done|done|done].
    + eapply (IH s1); [exact Ht|done|congruence|congruence|done|done|done].
Qed.

Lemma get_or_create_registers k k' r :
  is_Some (_workers (get_or_create k r) !! k) /\ (is_Some (_workers r !! k') -> is_Some (_workers (get_or_create k r) !! k')).
Proof.
  assert (Hsd : forall w r, _workers (start_drain w r) = _workers r).
  { intros w r0. unfold start_drain, spawn. repeat case_match; done. }
  unfold get_or_create. destruct (_workers r !! k) as [w|] eqn:Hw; rewrite Hsd; cbn [_workers].
  - rewrite Hw. split; [eauto|done].
  - split; [by rewrite lookup_insert_eq|]. intros Hk. destruct (decide (k = k')) as [->|]; [by rewrite lookup_insert_eq|].
    by rewrite lookup_insert_ne.
Qed.

Lemma dispatched_registered (xs : list dispatch) (x : dispatch) (r : registry) :
  x ∈ xs -> is_Some (_workers (foldl (fun r x => get_or_create x.1 r) r xs) !! x.1).
Proof.
  revert r. induction xs as [|y xs IH]; intros r Hin; [by apply elem_of_nil in Hin|]. cbn [foldl].
  apply elem_of_cons in Hin as [->|Hx]; [|by apply IH]. clear IH.
  assert (H0 : is_Some (_workers (get_or_create y.1 r) !! y.1)) by apply (proj1 (get_or_create_registers y.1 y.1 r)).
  revert H0. generalize (get_or_create y.1 r). induction xs as [|z xs IH]; intros r0 H0; [done|]. cbn [foldl].
  apply IH. by apply get_or_create_registers.
Qed.

(** ** Migration leaves the queue of a key with data alone *)

Lemma migrate_one_occupied k k' fails d p :
  ~ overlong k -> overlong k' -> is_Some (d !! _log_path k) -> p ∈ key_paths k ->
  snd (_migrate_one_key k' fails d) !! p = d !! p.
Proof.
  intros Hk Hk' Hl Hp. destruct (decide (fold_worker_key k' = k)) as [Hf|Hf].
  - unfold _migrate_one_key. rewrite Hf. case_bool_decide; [done|]. case_match; [done|].
    assert (existsb (fun x => _exists_or_too_long_is_absent x.2 d) (key_artifacts k' k) = true) as ->; [|done].
    unfold key_artifacts, _exists_or_too_long_is_absent. cbn [existsb snd]. by rewrite bool_decide_eq_true_2.
  - apply migrate_one_frame; [| |done]; intros Hp'; pose proof (key_paths_inj _ _ _ Hp Hp'); congruence.
Qed.

Lemma migrate_occupied fails k d p :
  ~ overlong k -> is_Some (d !! _log_path k) -> p ∈ key_paths k ->
  snd (migrate_overlong_keys fails d) !! p = d !! p.
Proof.
  intros Hk Hl Hp. unfold migrate_overlong_keys. rewrite migrate_keys_foldl.
  assert (Ha : Forall overlong (overlong_keys d)).
  { apply Forall_forall. intros x Hx. by eapply overlong_keys_spec. }
  revert Ha. generalize (overlong_keys d) as keys. intros keys. revert d Hl.
  induction keys as [|k' keys IH]; intros d Hl Ha; [done|]. cbn [foldl]. inversion_clear Ha as [|? ? Hk' Ha'].
  rewrite IH; [|unfold migrate_step; rewrite (migrate_one_occupied k); [done..|by left]|done].
  by apply (migrate_one_occupied k).
Qed.

Lemma backlog_log k d q torn : implements k d q torn -> 0 < q_pending q -> is_Some (d !! _log_path k).
Proof.
  intros Hq Hp. destruct (d !! _log_path k) eqn:Hl; [eauto|].
  destruct (implements_missing _ _ _ _ Hq Hl) as [-> ->]. unfold q_pending in Hp. cbn in Hp. lia.
Qed.

(** ** The boot pass *)

Lemma valid_not_overlong k : _validate_session_id k = true -> ~ overlong k.
Proof. unfold _validate_session_id, overlong. rewrite andb_true_iff, Z.leb_le. lia. Qed.

(** The two repair passes acknowledge the leading dead lines of a backlog, and
    nothing else, for each key whose offset can be written. *)
Lemma repair_backlog e d k q torn :
  implements k d q torn -> _validate_session_id k = true -> 0 < q_pending q ->
  let d2 := snd (recovery_reconcile_dead (be_commit e) (be_uuid e) (snd (migrate_overlong_keys (be_fails e) d))) in
  exists n, implements k d2 (acknowledge q n) torn /\ n <= q_pending q
    /\ (forall dead, _dead_payload_set k d = Ok dead -> Forall (fun r => r ∈ dead) (next q n))
    /\ (be_commit e k <> CommitOk -> n = 0).
Proof.
  intros Hq Hk Hp. cbv zeta. pose proof (backlog_log _ _ _ _ Hq Hp) as Hl.
  set (d1 := snd (migrate_overlong_keys _ d)).
  assert (Hm : forall p, p ∈ key_paths k -> d1 !! p = d !! p).
  { intros p. by apply migrate_occupied; [apply valid_not_overlong|]. }
  assert (Hq1 : implements k d1 q torn) by (apply (implements_same k d); [apply Hm; unfold key_paths; set_solver..|done]).
  assert (Hdead : _dead_payload_set k d1 = _dead_payload_set k d)
    by (apply payloads_same, Hm; unfold key_paths; set_solver).
  pose proof (reconcile_all (be_commit e) (be_uuid e) k d1 q torn Hq1 Hk) as Hs. cbv zeta in Hs. rewrite Hdead in Hs.
  assert (H0 : acknowledge q 0 = q) by (destruct q; unfold acknowledge; cbn; f_equal; lia).
  destruct (be_commit e k), (_dead_payload_set k d) as [dead|]; try (exists 0; rewrite H0;
    split; [done|]; split; [lia|]; split; [intros; apply Forall_nil_2|done]).
  eexists. split; [exact Hs|]. destruct (lead_queue dead q) as (H1 & H2 & _).
  split; [done|]. split; [by intros ? [= <-]|done].
Qed.

(** C11: the boot pass keeps every backlog and puts a drainer on it.  Whatever
    renames, offset writes and unlinks fail, for a key with pending lines: at most
    leading lines that already have a dead letter are acknowledged, the rest is still
    pending afterwards in the same order with the same torn tail (only a queue all
    of whose lines have dead letters can be removed); and, when the
    pass is not limited and the server not in scoped mode, a session whose oldest
    remaining line names a workspace is dispatched under that workspace and has a
    worker in the registry.  A limit bounds the dispatches, which follow the sorted
    order of the recoverable sessions. *)
Theorem boot_keeps_backlog (e : boot_env) (limit : option nat) (s : Server) (k : string) (q : aqueue) (torn : bytes) :
  implements k (sv_dir s) q torn -> _validate_session_id k = true -> 0 < q_pending q ->
  let '(xs, s') := _startup_recovery_body e limit s in
  (exists n, remains k (acknowledge q n) torn (sv_dir s') /\ n <= q_pending q
     /\ (n < q_pending q -> implements k (sv_dir s') (acknowledge q n) torn)
     /\ (forall dead, _dead_payload_set k (sv_dir s) = Ok dead -> Forall (fun r => r ∈ dead) (next q n))
     /\ (be_commit e k <> CommitOk -> n = 0)
     /\ (n < q_pending q -> limit = None -> scoped (sv_app s) = false ->
         forall r wc, head (drop n (drop (q_done q) (q_all q))) = Some r -> _parse_workspace_and_creator r = Some wc ->
           (k, wc) ∈ xs /\ is_Some (_workers (sv_registry s') !! k)))
  /\ (forall n, limit = Some n -> length xs <= n).
Proof.
  intros Hq Hk Hp. destruct (repair_backlog e _ k q torn Hq Hk Hp) as (n & Hn & Hle & Hdead & Hfail).
  unfold _startup_recovery_body. cbn [sv_dir with_dir].
  set (d2 := snd (recovery_reconcile_dead _ _ _)) in *.
  destruct (recovery_seed_counts d2) as [a w].
  destruct (topup_loop limit _ _) as [xs s2] eqn:Ht. pose proof (topup_frame _ _ _ _ _ Ht) as (D & _ & R & _ & L).
  cbn [sv_dir with_counters with_dir sv_registry] in *. rewrite D. split; [|exact L].
  assert (Hpend : q_pending (acknowledge q n) = q_pending q - n) by (unfold q_pending, acknowledge; cbn; lia).
  pose proof (reclaim_drained_orphans_safe (be_unlink e) (be_stale e) k d2 _ torn Hn Hk) as Hrem.
  exists n. split; [done|]. split; [done|]. split.
  { intros Hlt. destruct Hrem as [Hq'|[[Hz _] _]]; [done|lia]. }
  split; [done|]. split; [done|].
  intros Hlt -> Hs r wc Hr Hw.
  assert (Hin : (k, wc) ∈ xs).
  { assert (Hrec : k ∈ recover d2) by (apply (recover_refines k d2 _ torn Hn Hk); lia).
    eapply (topup_unlimited _ k); [exact Ht|exact Hrec|exact Hs|reflexivity|exact Hn|done|].
    unfold next, acknowledge. cbn [q_all q_done]. rewrite drop_drop in Hr.
    destruct (drop (q_done q + n) (q_all q)) as [|r0 rs]; [done|]. cbn in Hr. simplify_eq.
    exists r, []. cbn. done. }
  split; [done|]. rewrite R. exact (dispatched_registered xs (k, wc) _ Hin).
Qed.
End startup.

(** ** Seeding the conservation counters *)

Lemma complete_end_framed data : framed (drop (complete_end data) data).
Proof.
  unfold complete_end. destruct (rfind_nl data) as [i|] eqn:Hi; [|by apply rfind_nl_None].
  revert i Hi. induction data as [|b data IH]; intros i Hi; [done|]. cbn [rfind_nl] in Hi.
  destruct (rfind_nl data) as [j|] eqn:Hj.
  - simplify_eq. cbn. by apply IH.
  - case_decide; simplify_eq. by apply rfind_nl_None.
Qed.

(** Nothing but the torn tail lies beyond the complete data. *)
Lemma pending_count_complete data n :
  count_nl (take (complete_end data - n) (drop n data)) = count_nl (drop n data).
Proof.
  rewrite <- (take_drop (complete_end data - n) (drop n data)) at 2. rewrite count_nl_app, drop_drop.
  rewrite (count_nl_framed (drop (n + _) data)); [lia|].
  replace (n + (complete_end data - n)) with (complete_end data + (n - complete_end data)) by lia.
  rewrite <- drop_drop. pose proof (complete_end_framed data) as Hf. unfold framed in *.
  intros Hin. apply Hf. rewrite <- (take_drop (n - complete_end data) (drop _ data)), elem_of_app. by right.
Qed.

(** What the statistics count for a key: pending lines and dead letters. *)
Definition held (d : dir) (k : string) : nat :=
  match key_stats d k with Some s => ks_in_queue s + ks_dead s | None => 0 end.

Lemma stats_held d : as_in_queue_total (refresh_all_stats d) + as_dead_total (refresh_all_stats d)
                     = sum_by (held d) (_all_worker_keys d).
Proof.
  unfold refresh_all_stats. cbn [as_in_queue_total as_dead_total]. unfold held.
  induction (_all_worker_keys d) as [|k keys IH]; [done|]. cbn [omap list_omap sum_by foldr].
  destruct (key_stats d k); cbn [sum_by foldr] in *; unfold sum_by in *; lia.
Qed.

(** The keys the seeding pass looks at. *)
Definition seeded (d : dir) (k : string) : nat := if _is_safe_session_component k then held d k else 0.

Lemma seed_one_held d acc k :
  ((seed_one d acc k).1 - (seed_one d acc k).2 = acc.1 - acc.2 + Z.of_nat (seeded d k))%Z.
Proof.
  unfold seed_one, seeded. destruct (_is_safe_session_component k); [|lia].
  unfold held, key_stats. destruct (_read_committed_offset k d) as [c|]; [|lia].
  rewrite count_dead_content. unfold _count_newlines, _complete_data_end. rewrite last_complete_end_equiv.
  set (dead := count_nl _). destruct (d !! _log_path k) as [data|].
  - destruct (Z.ltb_spec c 0) as [Hc|Hc].
    + cbn [_stream_newlines]. destruct (Z.leb_spec c 0); [|lia].
      destruct (Z.leb_spec (Z.of_nat (complete_end data)) c); [lia|].
      destruct (Z.ltb_spec c 0); [|lia]. lia.
    + rewrite !stream_newlines_equiv by lia.
      replace (Z.to_nat (Z.of_nat (complete_end data) - c)) with (complete_end data - Z.to_nat c) by lia.
      rewrite pending_count_complete. cbn [fst snd ks_in_queue ks_dead]. lia.
  - cbn [_stream_newlines]. destruct (c <=? 0)%Z, (Z.of_nat (complete_end []) <=? c)%Z;
      cbn [fst snd ks_in_queue ks_dead]; lia.
Qed.

Lemma seed_counts_held d :
  ((recovery_seed_counts d).1 - (recovery_seed_counts d).2 = Z.of_nat (sum_by (seeded d) (_all_worker_keys d)))%Z.
Proof.
  unfold recovery_seed_counts.
  assert (Hg : forall keys acc, ((fold_left (seed_one d) keys acc).1 - (fold_left (seed_one d) keys acc).2
     = acc.1 - acc.2 + Z.of_nat (sum_by (seeded d) keys))%Z).
  { induction keys as [|k keys IH]; intros acc; [cbn; lia|]. cbn [fold_left sum_by foldr].
    rewrite IH, seed_one_held. unfold sum_by. lia. }
  rewrite Hg. cbn [fst snd]. lia.
Qed.

(** *** Sums over keys *)

Lemma sum_by_le {A} (f g : A -> nat) l : (forall x, x ∈ l -> f x <= g x) -> sum_by f l <= sum_by g l.
Proof.
  induction l as [|x l IH]; intros Hfg; [done|]. cbn [sum_by foldr]. specialize (Hfg x) as Hx.
  assert (sum_by f l <= sum_by g l) by (apply IH; intros; apply Hfg; by right).
  assert (f x <= g x) by (apply Hx; left). unfold sum_by in *. lia.
Qed.

Lemma sum_by_perm {A} (f : A -> nat) l l' : l ≡ₚ l' -> sum_by f l = sum_by f l'.
Proof. induction 1; cbn [sum_by foldr] in *; unfold sum_by in *; lia. Qed.

Lemma sum_by_app {A} (f : A -> nat) l l' : sum_by f (l ++ l') = sum_by f l + sum_by f l'.
Proof. induction l as [|x l IH]; [done|]. cbn [sum_by foldr app]. unfold sum_by in *. lia. Qed.

Lemma sum_by_support {A} (f : A -> nat) l l' :
  NoDup l -> NoDup l' -> (forall x, x ∈ l -> x ∈ l') -> (forall x, x ∈ l' -> x ∉ l -> f x = 0) ->
  sum_by f l = sum_by f l'.
Proof.
  intros Hl Hl' Hs Hz. pose proof (NoDup_submseteq l l' Hl Hs) as [r Hr]%submseteq_Permutation.
  rewrite (sum_by_perm f _ _ Hr), sum_by_app.
  assert (sum_by f r <= sum_by (fun _ => 0) r).
  { apply sum_by_le. intros x Hx. rewrite Hz; [lia|rewrite Hr, elem_of_app; by right|].
    rewrite Hr in Hl'. apply NoDup_app in Hl' as (_ & Hd & _). intros Hin. by apply (Hd x). }
  assert (Hn : sum_by (fun _ : A => 0) r = 0) by (clear; induction r; [done|]; cbn; exact IHr).
  lia.
Qed.

(** *** Reclaiming drained files *)

Lemma held_same d d' k : (forall p, p ∈ key_paths k -> d' !! p = d !! p) -> held d' k = held d k.
Proof.
  intros Hp. unfold held, key_stats, _read_committed_offset, _count_dead, _count_newlines.
  rewrite !Hp by (unfold key_paths; set_solver). done.
Qed.

Definition readable (d : dir) (k : string) : Prop := exists c, _read_committed_offset k d = Ok c.

Lemma delete_drained_frame k sc d p :
  p ∉ [_log_path k; _offset_path k] -> snd (delete_drained k sc d) !! p = d !! p.
Proof.
  intros Hp. apply not_elem_of_cons in Hp as [H1 Hp]. apply not_elem_of_cons in Hp as [H2 _].
  unfold delete_drained. repeat case_match; try done; cbn [snd]; by rewrite !lookup_delete_ne by congruence.
Qed.

Lemma dead_not_drained k k' : _dead_path k ∉ [_log_path k'; _offset_path k'].
Proof. rewrite !not_elem_of_cons. split_and!; [auto with queue..|apply not_elem_of_nil]. Qed.

(** A reclaimed log had nothing pending; a corrupt offset without a log is gone. *)
Lemma delete_drained_held sc d k k' :
  let d' := snd (delete_drained k' sc d) in
  held d k <= held d' k /\ (readable d k -> held d' k = held d k /\ readable d' k).
Proof.
  cbv zeta. destruct (decide (k' = k)) as [-> |Hne].
  2:{ assert (Hs : forall p, p ∈ key_paths k -> snd (delete_drained k' sc d) !! p = d !! p).
      { intros p Hp. apply delete_drained_frame. intros Hp'. apply Hne, (key_paths_inj k' k p); [|done].
        unfold key_paths. set_solver. }
      rewrite (held_same d _ k Hs). split; [done|]. intros [c Hc]. split; [done|]. exists c.
      rewrite <- Hc. unfold _read_committed_offset. rewrite Hs; [done|]. unfold key_paths. set_solver. }
  pose proof (delete_drained_frame k sc d _ (dead_not_drained k k)) as Hd.
  unfold delete_drained in *. destruct (_validate_session_id k); [|done].
  unfold readable, held, key_stats, _count_newlines. rewrite !count_dead_content. unfold file_content.
  destruct (d !! _log_path k) as [data|] eqn:Hl.
  - destruct (_read_committed_offset k d) as [c|] eqn:Hc; [|cbn [snd]; by rewrite Hc].
    destruct (Z.ltb_spec c (Z.of_nat (length data))) as [Hlt|Hge]; [cbn [snd] in *; by rewrite Hc, Hl|].
    assert (Hz : count_nl (drop (Z.to_nat c) data) = 0) by (rewrite drop_ge by lia; done).
    destruct sc; cbn [snd] in *; [| |].
    + rewrite Hd. unfold _read_committed_offset. rewrite lookup_delete_eq, lookup_delete_ne, lookup_delete_eq by auto with queue.
      rewrite stream_newlines_equiv, drop_ge by lia. cbn. eauto.
    + by rewrite Hc, Hl.
    + assert (Hr : _read_committed_offset k (delete (_log_path k) d) = Ok c)
        by (rewrite <- Hc; unfold _read_committed_offset; by rewrite lookup_delete_ne by auto with queue).
      rewrite Hd, Hr, lookup_delete_eq, stream_newlines_equiv, drop_ge by lia. cbn. eauto.
  - assert (Hr : _read_committed_offset k (delete (_offset_path k) d) = Ok 0%Z)
      by (unfold _read_committed_offset; by rewrite lookup_delete_eq).
    destruct sc; cbn [snd] in *; [|by rewrite Hl|];
      rewrite Hd, Hr, lookup_delete_ne, Hl by auto with queue; cbn;
      (destruct (_read_committed_offset k d); cbn; [eauto|]); (split; [lia|]); by intros [? [=]].
Qed.

(** What reclaiming does to the statistics of every key and to the key set. *)
Definition reclaims (d d' : dir) : Prop :=
  (forall k, held d k <= held d' k /\ (readable d k -> held d' k = held d k /\ readable d' k))
  /\ (forall p, is_Some (d' !! p) -> is_Some (d !! p))
  /\ (forall k, d' !! _dead_path k = d !! _dead_path k).

Lemma reclaims_trans d1 d2 d3 : reclaims d1 d2 -> reclaims d2 d3 -> reclaims d1 d3.
Proof.
  intros (A1 & B1 & C1) (A2 & B2 & C2). split; [|split].
  - intros k. destruct (A1 k) as [H1 H2], (A2 k) as [H3 H4]. split; [lia|]. intros Hr.
    destruct (H2 Hr) as [E Hr']. destruct (H4 Hr') as [E' Hr'']. split; [lia|done].
  - auto.
  - intros k. by rewrite C2.
Qed.

Lemma reclaim_reclaims unlinks stale d : reclaims d (snd (reclaim_drained_orphans unlinks stale d)).
Proof.
  unfold reclaim_drained_orphans. generalize (_all_worker_keys d) as keys. intros keys.
  assert (Hk : forall acc d, reclaims d (snd (reclaim_keys unlinks keys acc d))).
  { induction keys as [|k keys IH]; intros acc d0.
    - split; [|split]; [intros k; split; [done|by intros]|done|done].
    - destruct (reclaim_keys_cons unlinks k keys acc d0) as [acc' ->]. eapply reclaims_trans; [|apply IH].
      split; [|split]; [intros k'; apply delete_drained_held| |].
      + intros p. unfold delete_drained. repeat case_match; try done; cbn [snd]; rewrite !lookup_delete_is_Some; tauto.
      + intros k'. apply delete_drained_frame, dead_not_drained. }
  specialize (Hk (0, 0)%Z d). destruct (reclaim_keys unlinks keys (0, 0)%Z d) as [acc d1]. cbn [snd] in *.
  eapply reclaims_trans; [exact Hk|].
  assert (Hs : forall k p, p ∈ key_paths k -> sweep_tmps stale d1 !! p = d1 !! p).
  { intros k p Hp. apply sweep_tmps_other. destruct (not_offset_tmp k) as [N1 N2].
    unfold key_paths in Hp. rewrite !elem_of_cons in Hp. destruct Hp as [-> |[-> |[-> |Hp]]]; [done|done| |by apply elem_of_nil in Hp].
    unfold is_offset_tmp. apply andb_false_iff. left. apply bool_decide_eq_false_2. intros [x Hx].
    apply (f_equal last) in Hx. unfold _dead_path in Hx. rewrite bytes_of_app, !last_app in Hx. discriminate. }
  split; [|split].
  - intros k. rewrite (held_same d1 _ k (Hs k)). split; [done|]. intros [c Hc]. split; [done|]. exists c.
    rewrite <- Hc. unfold _read_committed_offset. by rewrite (Hs k) by (unfold key_paths; set_solver).
  - intros p. unfold sweep_tmps. generalize (dir_names d1) as names. intros names. clear.
    revert d1. induction names as [|n names IH]; intros d1; [done|]. cbn [foldl]. intros Hp%IH.
    destruct (_ && _); [|done]. rewrite lookup_delete_is_Some in Hp. tauto.
  - intros k. apply (Hs k). unfold key_paths. set_solver.
Qed.

Lemma elem_of_worker_keys k d :
  k ∈ _all_worker_keys d <->
  (exists n, k = log_stem n /\ str_ends_with ".log" n = true /\ is_Some (d !! n))
  \/ (exists n, k = drop_suffix 11 n /\ str_ends_with ".dead.jsonl" n = true /\ is_Some (d !! n)).
Proof.
  unfold _all_worker_keys. rewrite elem_of_py_sorted, elem_of_remove_dups, elem_of_app, !list_elem_of_fmap.
  unfold log_files, dead_files. setoid_rewrite list_elem_of_filter. by setoid_rewrite elem_of_dir_names.
Qed.

Lemma reclaims_sum d d' : reclaims d d' -> sum_by (held d') (_all_worker_keys d') = sum_by (held d') (_all_worker_keys d).
Proof.
  intros (_ & Hsub & Hdead). apply sum_by_support; [apply all_keys_nodup..| |].
  - intros k. rewrite !elem_of_worker_keys. naive_solver.
  - intros k Hk Hk'. rewrite elem_of_worker_keys in Hk, Hk'.
    assert (Hd : d' !! _dead_path k = None).
    { apply eq_None_not_Some. intros Hs. apply Hk'. right. exists (_dead_path k).
      split; [symmetry; apply (drop_suffix_app k ".dead.jsonl")|]. split; [apply str_ends_with_app|done]. }
    destruct (decide (k = "")) as [-> |Hne].
    { destruct Hk as [(n & Hn & Hs & _)|(n & Hn & Hs & Hp)].
      - exfalso. unfold log_stem in Hn. case_decide as Hdot; [by subst n|].
        apply (str_ends_with_inv ".log") in Hs. cbn [String.length] in Hs. rewrite <- Hn in Hs. done.
      - apply (str_ends_with_inv ".dead.jsonl") in Hs. cbn [String.length] in Hs. rewrite <- Hn in Hs. subst n.
        change ("" +:+ ".dead.jsonl") with (_dead_path "") in Hp. rewrite <- Hdead, Hd in Hp. by destruct Hp. }
    assert (Hl : d' !! _log_path k = None).
    { apply eq_None_not_Some. intros Hs. apply Hk'. left. exists (_log_path k).
      rewrite log_stem_path by done. split; [done|]. split; [apply str_ends_with_app|done]. }
    unfold held, key_stats, _count_newlines, _count_dead. rewrite Hl, Hd. by destruct (_read_committed_offset k d').
Qed.

Section seeding.
Context `{FloatRepr}.

(** The spool the counters are seeded from. *)
Definition repaired (e : boot_env) (d : dir) : dir :=
  snd (recovery_reconcile_dead (be_commit e) (be_uuid e) (snd (migrate_overlong_keys (be_fails e) d))).

Lemma startup_effect e limit s :
  let s' := snd (_startup_recovery_body e limit s) in
  sv_dir s' = snd (reclaim_drained_orphans (be_unlink e) (be_stale e) (repaired e (sv_dir s)))
  /\ sv_counters s' = Counters.seed_counters (recovery_seed_counts (repaired e (sv_dir s))).1
                        (recovery_seed_counts (repaired e (sv_dir s))).2 (sv_counters s).
Proof.
  unfold _startup_recovery_body. cbn [sv_dir with_dir]. fold (repaired e (sv_dir s)).
  destruct (recovery_seed_counts (repaired e (sv_dir s))) as [a w].
  destruct (topup_loop limit _ _) as [xs s2] eqn:Ht. pose proof (topup_frame _ _ _ _ _ Ht) as (D & C & _).
  cbn [snd sv_dir sv_counters with_dir with_counters] in *. by rewrite D, C.
Qed.

(** The statistics a refresh would publish for a spool. *)
Definition published (d : dir) : Counters.stats :=
  Counters.MkStats (Z.of_nat (as_in_queue_total (refresh_all_stats d))) (Z.of_nat (as_dead_total (refresh_all_stats d))) true.

Lemma residual_published d a w :
  Counters.residual_of (published d) (Counters.seed_counters a w Counters.new_counters)
  = (a - w - Z.of_nat (sum_by (held d) (_all_worker_keys d)))%Z.
Proof. rewrite <- stats_held. unfold Counters.residual_of, published. cbn. lia. Qed.

(** The boot pass never fabricates a loss.  A server with fresh counters that
    ran the pass, over any spool and whatever failed: the first statistics refresh
    finds a residual that is not positive, so the pipeline is degraded only if dead
    letters exist; and the residual is exactly zero when every queue of the
    repaired spool has a safe key and a readable offset. *)
Theorem seed_conserves (e : boot_env) (limit : option nat) (s : Server) (now : Z) :
  sv_counters s = Counters.new_counters ->
  let s' := snd (_startup_recovery_body e limit s) in
  let agg := published (sv_dir s') in
  (Counters.residual_of agg (sv_counters s') <= 0)%Z
  /\ Counters.m_degraded (fst (Counters.pipeline_metrics agg now (sv_counters s'))) = (0 <? Counters.dead_total agg)%Z
  /\ ((forall k, k ∈ _all_worker_keys (repaired e (sv_dir s)) ->
        _is_safe_session_component k = true /\ readable (repaired e (sv_dir s)) k) ->
      Counters.residual_of agg (sv_counters s') = 0%Z).
Proof.
  intros Hc. destruct (startup_effect e limit s) as [D C]. cbv zeta in *. rewrite Hc in C.
  set (s' := snd (_startup_recovery_body e limit s)) in *. set (d := repaired e (sv_dir s)) in *.
  assert (Hr : Counters.residual_of (published (sv_dir s')) (sv_counters s')
    = (Z.of_nat (sum_by (seeded d) (_all_worker_keys d)) - Z.of_nat (sum_by (held (sv_dir s')) (_all_worker_keys d)))%Z).
  { rewrite C, residual_published, seed_counts_held, D. do 2 f_equal. apply reclaims_sum, reclaim_reclaims. }
  destruct (reclaim_reclaims (be_unlink e) (be_stale e) d) as [Hh _]. rewrite <- D in Hh.
  assert (Hle : (Counters.residual_of (published (sv_dir s')) (sv_counters s') <= 0)%Z).
  { rewrite Hr. apply Z.le_sub_0, inj_le, sum_by_le. intros k _. unfold seeded.
    destruct (Hh k) as [? _]. case_match; lia. }
  split; [done|]. split.
  - unfold Counters.pipeline_metrics. cbn [Counters.stats_available published].
    rewrite Z.max_l by done. cbn. by rewrite orb_false_r.
  - intros Hk. rewrite Hr.
    assert (sum_by (held (sv_dir s')) (_all_worker_keys d) <= sum_by (seeded d) (_all_worker_keys d)); [|lia].
    apply sum_by_le. intros k Hin. destruct (Hk k Hin) as [Hs Hread]. unfold seeded. rewrite Hs.
    destruct (Hh k) as [_ He]. destruct (He Hread) as [-> _]. done.
Qed.
End seeding.

(** ** A boot over one backlog, with every offset write failing *)

Definition boot_line : bytes := json_dumps (JObj [("workspace", JStr "w"); ("created_by", JStr "alice")]).
Definition boot_dir : dir := {[ _log_path "s1" := encode [boot_line] ]}.
Definition boot_server : Server := with_dir boot_dir demo_server.
Definition boot_queue : aqueue := AQ [boot_line] 0.
Definition bad_disk : boot_env := MkBoot (fun _ => Some 0) (fun _ => CommitFails OSError None true) id (fun _ => UnlinkFirst) (fun _ => true).

Lemma boot_implements : implements "s1" (sv_dir boot_server) boot_queue [].
Proof.
  split; [by vm_compute|by vm_compute| | |cbn; lia].
  - constructor; [|constructor]. apply (bool_decide_eq_true_1 _). by vm_compute.
  - apply (bool_decide_eq_true_1 _). by vm_compute.
Qed.

Lemma boot_keeps_backlog_witness :
  let '(xs, s') := @_startup_recovery_body plain_float bad_disk None boot_server in
  ("s1", (JStr "w", JStr "alice")) ∈ xs /\ implements "s1" (sv_dir s') boot_queue [].
Proof.
  pose proof (@boot_keeps_backlog plain_float bad_disk None boot_server "s1" boot_queue [] boot_implements eq_refl) as Hb.
  destruct (@_startup_recovery_body plain_float bad_disk None boot_server) as [xs s'].
  destruct Hb as [(n & _ & _ & Hq & _ & H0 & Hx) _]; [cbn; lia|]. rewrite (H0 ltac:(discriminate)) in Hq, Hx. split.
  - apply (Hx ltac:(cbn; lia) eq_refl eq_refl boot_line); [done|]. by vm_compute.
  - apply Hq. cbn. lia.
Defined.

Lemma seed_conserves_witness :
  let s' := snd (@_startup_recovery_body plain_float bad_disk (Some 1) boot_server) in
  (Counters.residual_of (published (sv_dir s')) (sv_counters s') <= 0)%Z.
Proof. apply (@seed_conserves plain_float bad_disk (Some 1) boot_server 7). reflexivity. Defined.
