(* ===== verification/Evidence.v ===== *)
(** * Durable queue: evidence about a recovery origin ([queue_manager.py], part 4)

    Native recovery keeps three kinds of durable evidence about a captured event:
    the queue line that carries it, the dead letter a poison event leaves, and the
    audit record of an operator's retry.  This file models the scans that read
    them, and the archive that turns dead letters into audit records.
    [RecoveryReceiptError] is a [ValueError] here, as it is in the source.

    The lemmas say what each durable write does to each answer; the scans fail
    closed: a recorded dead letter is never answered "not dead". *)
From stdpp Require Import base list gmap strings sorting.
From Stdlib Require Import ZArith Lia.
From S2P Require Import Prelude PyText Sha256 Utils Json JsonParse JsonIndent QueueFiles QueueManager QueueSpec.
From S2P Require Import Auth Config Receipts QueueBoot QueueBootSpec.

#[local] Open Scope string_scope.
#[local] Open Scope list_scope.

(** ** Origins *)

Definition _V1_ORIGIN_KEYS : list string := ["source_handle"; "ordinal"; "source_line_sha256"].
Definition _LEGACY_ORIGIN_KEYS : list string :=
  ["session_id"; "source_stream_sha256"; "ordinal"; "source_line_sha256"].

(** Equality of two key sets. *)
Definition same_keys (a b : list string) : bool :=
  forallb (fun k => bool_decide (k ∈ b)) a && forallb (fun k => bool_decide (k ∈ a)) b.

Definition _is_valid_recovery_origin (candidate : json) : bool :=
  match candidate with
  | JObj o =>
    (same_keys (dkeys o) _V1_ORIGIN_KEYS || same_keys (dkeys o) _LEGACY_ORIGIN_KEYS)
    && match jget "ordinal" o with JInt n => (0 <=? n)%Z && (n <=? Z.shiftl 1 63 - 1)%Z | _ => false end
    && hex_field (jget "source_line_sha256" o)
    && match dget "source_handle" o with
       | Some h => hex_field h
       | None => match jget "session_id" o with
                 | JStr s => negb (bool_decide (py_strip s = "")) && hex_field (jget "source_stream_sha256" o)
                 | _ => false
                 end
       end
  | _ => false
  end.

(** Source handle, ordinal, line digest. *)
Definition okey := (string * Z * string)%type.

Definition normalized_recovery_origin (candidate : json) : option okey :=
  if _is_valid_recovery_origin candidate then
    match candidate with
    | JObj o =>
      let handle := match dget "source_handle" o with
                    | Some (JStr h) => h
                    | _ => legacy_source_handle o
                    end in
      match jget "ordinal" o, jget "source_line_sha256" o with
      | JInt n, JStr l => Some (handle, n, l)
      | _, _ => None
      end
    | _ => None
    end
  else None.

(** [{"source_handle": h, **origin}] *)
Definition origin_json (h : string) (o : Origin) : json :=
  JObj [("source_handle", JStr h); ("ordinal", JInt (or_ordinal o)); ("source_line_sha256", JStr (or_line o))].
Definition okey_of (h : string) (o : Origin) : okey := (h, or_ordinal o, or_line o).

Inductive qstate := InQueue | Consumed.
#[export] Instance qstate_eq_dec : EqDecision qstate.
Proof. solve_decision. Defined.

Section scans.
Context `{FloatRepr}.

Definition _matches_recovery_origin (envelope : json) (encoded_origin : bytes) : bool :=
  match envelope, loads_bytes encoded_origin with
  | JObj o, Ok origin =>
    match normalized_recovery_origin origin, normalized_recovery_origin (jget "_recovery_origin" o) with
    | Some wanted, Some found => bool_decide (wanted = found)
    | _, _ => false
    end
  | _, _ => false
  end.

(** [for raw in stream]: the lines with their newlines, and an unterminated tail. *)
Definition raw_lines (data : bytes) : list bytes :=
  let '(rs, t) := split_lines data in map frame rs ++ match t with [] => [] | _ => [t] end.

(** A line that is not JSON is passed over. *)
Definition line_matches (encoded raw : bytes) : bool :=
  match loads_bytes raw with Ok envelope => _matches_recovery_origin envelope encoded | Err _ => false end.

Definition contains_recovery_origin (origin : json) (d : dir) : bool :=
  existsb (fun log => existsb (line_matches (sorted_dumps origin)) (raw_lines (file_content d log))) (log_files d).

(** One log: whether a line matched, and whether one beyond [committed] did. *)
Fixpoint scan_log (encoded : bytes) (committed position : Z) (lines : list bytes) : bool * bool :=
  match lines with
  | [] => (false, false)
  | raw :: lines =>
    let stop := (position + Z.of_nat (length raw))%Z in
    let '(matched, queued) := scan_log encoded committed stop lines in
    if line_matches encoded raw then (true, queued || negb (stop <=? committed)%Z) else (matched, queued)
  end.

(** A corrupt offset file raises. *)
Fixpoint scan_logs (encoded : bytes) (logs : list string) (d : dir) : result (bool * bool) :=
  match logs with
  | [] => Ok (false, false)
  | log :: logs =>
    let? committed := _read_committed_offset (log_stem log) d in
    let '(m1, q1) := scan_log encoded committed 0 (raw_lines (file_content d log)) in
    let? r := scan_logs encoded logs d in
    let '(m2, q2) := r in Ok (m1 || m2, q1 || q2)
  end.

Definition recovery_origin_commit_state (origin : json) (d : dir) : result (option qstate) :=
  let? r := scan_logs (sorted_dumps origin) (log_files d) d in
  let '(matched, queued) := r in
  Ok (if queued then Some InQueue else if matched then Some Consumed else None).

(** ** Evidence files *)

(** [raw.strip()] of bytes is empty. *)
Definition bytes_blank (l : bytes) : bool := forallb (fun b => (bZ b =? 32)%Z || in_range 9 13 b) l.

Definition _complete_lines (data : bytes) : list bytes * bytes :=
  let '(rs, t) := split_lines data in
  (map frame (base.filter (fun r => bytes_blank r = false) rs), t).

(** [json.loads] of a string. *)
Definition loads_str (s : string) : result json := loads_bytes (bytes_of s).

Definition _decode_dead_letter (raw : bytes) : result (option (list (string * json))) :=
  match loads_bytes raw with
  | Ok (JObj record) =>
    match jget "payload" record with
    | JStr payload =>
      match loads_str payload with
      | Ok (JObj envelope) =>
        match dget "_recovery_origin" envelope with
        | Some o => if _is_valid_recovery_origin o then Ok (Some envelope) else Err ValueError
        | None => Ok (Some envelope)
        end
      | _ => Err ValueError
      end
    | _ => match jget "payload_b64" record with JStr _ => Ok None | _ => Err ValueError end
    end
  | _ => Err ValueError
  end.

Definition _evidence_files (suffix : string) (d : dir) : list string :=
  py_sorted (base.filter (fun n => str_ends_with suffix n = true) (dir_names d)).

Definition _read_evidence (d : dir) (path : string) : list bytes := fst (_complete_lines (file_content d path)).

(** The first record that satisfies a test; a record that cannot be judged raises. *)
Fixpoint first_match {A} (test : A -> result bool) (l : list A) : result bool :=
  match l with
  | [] => Ok false
  | x :: l => let? b := test x in if b then Ok true else first_match test l
  end.

Definition dead_matches (encoded raw : bytes) : result bool :=
  let? envelope := _decode_dead_letter raw in
  Ok (match envelope with Some o => _matches_recovery_origin (JObj o) encoded | None => false end).

Definition recovery_origin_is_dead (origin : json) (d : dir) : result bool :=
  first_match (fun path => first_match (dead_matches (sorted_dumps origin)) (_read_evidence d path))
    (_evidence_files ".dead.jsonl" d).

Definition _retry_audit_envelope (raw : bytes) : result (list (string * json)) :=
  let? envelope := _decode_dead_letter raw in
  match envelope with
  | Some o => if _is_valid_recovery_origin (jget "_recovery_origin" o) then Ok o else Err ValueError
  | None => Err ValueError
  end.

Definition audit_matches (encoded raw : bytes) : result bool :=
  let? o := _retry_audit_envelope raw in Ok (_matches_recovery_origin (JObj o) encoded).

Definition recovery_origin_has_retry_audit (origin : json) (d : dir) : result bool :=
  first_match (fun path => first_match (audit_matches (sorted_dumps origin)) (_read_evidence d path))
    (_evidence_files ".recovery-retry-audit.jsonl" d).

(** ** Archiving *)

Definition _audit_path (k : string) : string := k +:+ ".recovery-retry-audit.jsonl".
Definition _archive_tmp (k uuid : string) : string := k +:+ "." +:+ uuid +:+ ".tmp".

(** What the operating system does to the archive of one key. *)
Record archive_env := MkArchive {
  ae_audit : string -> write_script;
  ae_replace : string -> commit_script;
  ae_uuid : string -> string;
}.

(** [[line for line in lines if _matches(line)]], which raises as the test does. *)
Fixpoint rpartition {A} (test : A -> result bool) (l : list A) : result (list A * list A) :=
  match l with
  | [] => Ok ([], [])
  | x :: l =>
    let? b := test x in
    let? r := rpartition test l in
    let '(yes, no) := r in Ok (if b then (x :: yes, no) else (yes, x :: no))
  end.

Definition archive_file (e : archive_env) (encoded : bytes) (path : string) : M dir nat := fun d =>
  let worker_key := drop_suffix 11 path in
  if negb (_validate_session_id worker_key) then (Err ValueError, d)
  else
    let '(lines, tail) := _complete_lines (file_content d path) in
    match rpartition (dead_matches encoded) lines with
    | Err x => (Err x, d)
    | Ok ([], _) => (Ok 0, d)
    | Ok (selected, remaining) =>
      match _write_record (_audit_path worker_key) (concat selected) (ae_audit e worker_key) d with
      | (Err x, d) => (Err x, d)
      | (Ok _, d) =>
        match ae_replace e worker_key with
        | CommitOk => (Ok (length selected), <[path := concat remaining ++ tail]> d)
        | CommitFails x w unlinked =>
          (Err x, match w, unlinked with
                  | Some b, false => <[_archive_tmp worker_key (ae_uuid e worker_key) := b]> d
                  | _, _ => d
                  end)
        end
      end
    end.

Fixpoint archive_files (e : archive_env) (encoded : bytes) (paths : list string) : M dir nat :=
  match paths with
  | [] => mret 0
  | p :: paths => let! n := archive_file e encoded p in let! m := archive_files e encoded paths in mret (n + m)
  end.

(** Every record is validated before any file is changed. *)
Definition archive_recovery_dead_letters (e : archive_env) (origin : json) : M dir nat :=
  let encoded := sorted_dumps origin in
  let! d := mget in
  let files := _evidence_files ".dead.jsonl" d in
  mlift (rmap (fun p => rmap (dead_matches encoded) (_read_evidence d p)) files) ;;;
  archive_files e encoded files.
End scans.
