(* ===== verification/EvidenceSpec.v ===== *)
(** * What durable writes do to recovery evidence

    Lemmas about [Evidence]: an origin written into an envelope is recognised
    exactly; appending a line changes the answers for its own origin only; a dead
    letter is never answered "not dead"; archiving moves it into the audit. *)
From stdpp Require Import base list gmap strings sorting.
From Stdlib Require DecimalFacts.
From Stdlib Require Import ZArith Lia.
From S2P Require Import Prelude PyText Sha256 Utils Json JsonParse JsonIndent QueueFiles QueueManager QueueSpec.
From S2P Require Import GraphStore BlobKeys Auth Config Receipts Payloads QueueBoot QueueBootSpec Startup Evidence.

#[local] Open Scope string_scope.
#[local] Open Scope list_scope.

(** ** Origins read back *)

Definition good_origin (h : string) (o : Origin) : Prop :=
  _SHA256_HEX h = true /\ _SHA256_HEX (or_line o) = true /\ (0 <= or_ordinal o <= Z.shiftl 1 63 - 1)%Z.

Lemma hex_utf8 s : _SHA256_HEX s = true -> utf8_valid (bytes_of s) = true.
Proof. intros Hs. by apply ascii_valid, lowered_ascii, is_digest_lowered. Qed.

(** A number of [n] bits has at most [n] decimal digits. *)
Lemma uint_bytes_length u : length (uint_bytes u) = Decimal.nb_digits u.
Proof. induction u; cbn; congruence. Qed.

Lemma double_digits d :
  Decimal.nb_digits (Decimal.Little.double d) <= S (Decimal.nb_digits d)
  /\ Decimal.nb_digits (Decimal.Little.succ_double d) <= S (Decimal.nb_digits d).
Proof. induction d; cbn; lia. Qed.

Lemma pos_digits p : Decimal.nb_digits (Pos.to_little_uint p) <= Pos.size_nat p.
Proof.
  induction p as [p IH|p IH|]; cbn [Pos.to_little_uint Pos.size_nat]; [| |cbn; lia];
    destruct (double_digits (Pos.to_little_uint p)); lia.
Qed.

Lemma small_digits_ok z : (0 <= z <= Z.shiftl 1 63 - 1)%Z -> digits_ok z.
Proof.
  intros Hz. unfold digits_ok, N_bytes, max_int_digits. rewrite uint_bytes_length, Z.abs_eq by lia.
  destruct (Z.to_N z) as [|p] eqn:Hp; [cbn; lia|]. cbn [N.to_uint]. unfold Pos.to_uint.
  rewrite DecimalFacts.nb_digits_rev. etransitivity; [apply pos_digits|].
  assert (Hlt : (p < Z.to_pos (2 ^ 63))%positive) by (change (Z.shiftl 1 63) with (2 ^ 63)%Z in Hz; lia).
  etransitivity; [exact (Pos.size_nat_monotone _ _ Hlt)|]. vm_compute. lia.
Qed.

Section origins.
Context `{FloatRepr}.

Lemma sorted_origin h o :
  sort_keys (origin_json h o)
  = JObj [("ordinal", JInt (or_ordinal o)); ("source_handle", JStr h); ("source_line_sha256", JStr (or_line o))].
Proof. reflexivity. Qed.

(** An object with exactly the v1 keys. *)
Lemma v1_normalized (o : list (string * json)) h n l :
  same_keys (dkeys o) _V1_ORIGIN_KEYS = true -> dget "source_handle" o = Some (JStr h) ->
  jget "ordinal" o = JInt n -> jget "source_line_sha256" o = JStr l ->
  _SHA256_HEX h = true -> _SHA256_HEX l = true -> (0 <= n <= Z.shiftl 1 63 - 1)%Z ->
  normalized_recovery_origin (JObj o) = Some (h, n, l).
Proof.
  intros Hk Hh Hn Hl Hhh Hhl Hr. unfold normalized_recovery_origin, _is_valid_recovery_origin.
  rewrite Hk, Hh, Hn, Hl. unfold hex_field. rewrite Hhh, Hhl.
  destruct (Z.leb_spec 0 n); [|lia]. destruct (Z.leb_spec n (Z.shiftl 1 63 - 1)); [|lia]. done.
Qed.

Lemma origin_valid h o :
  good_origin h o ->
  normalized_recovery_origin (sort_keys (origin_json h o)) = Some (okey_of h o)
  /\ normalized_recovery_origin (origin_json h o) = Some (okey_of h o).
Proof.
  intros (Hh & Hl & Hn). rewrite sorted_origin. split; apply v1_normalized; done.
Qed.

Lemma origin_json_ok h o : good_origin h o -> json_ok (sort_keys (origin_json h o)).
Proof.
  intros (Hh & Hl & Hn). rewrite sorted_origin. split.
  - apply (bool_decide_eq_true_1 _). by vm_compute.
  - cbn [fold_right fst snd json_ok]. split_and!; try done; first [by apply small_digits_ok|by apply hex_utf8].
Qed.

Lemma loads_compact j : json_ok j -> floats_ok j = true -> loads_bytes (json_dumps_compact j) = Ok j.
Proof.
  intros Hj Hf. unfold loads_bytes.
  rewrite decode_printable by (apply dumps_printable; [printable_lit..|done]). by apply loads_dumps_compact.
Qed.

Lemma origin_decodes h o : good_origin h o -> loads_bytes (sorted_dumps (origin_json h o)) = Ok (sort_keys (origin_json h o)).
Proof. intros Ho. apply loads_compact; [by apply origin_json_ok|done]. Qed.

(** The origin a line of the spool names. *)
Definition says (raw : bytes) : option okey :=
  match loads_bytes raw with
  | Ok (JObj o) => normalized_recovery_origin (jget "_recovery_origin" o)
  | _ => None
  end.

Lemma matches_says h o env :
  good_origin h o ->
  _matches_recovery_origin (JObj env) (sorted_dumps (origin_json h o))
  = bool_decide (normalized_recovery_origin (jget "_recovery_origin" env) = Some (okey_of h o)).
Proof.
  intros Ho. unfold _matches_recovery_origin. rewrite (origin_decodes h o Ho), (proj1 (origin_valid h o Ho)).
  destruct (normalized_recovery_origin _); [|done]. apply bool_decide_ext. naive_solver.
Qed.

Lemma line_matches_says h o raw :
  good_origin h o -> line_matches (sorted_dumps (origin_json h o)) raw = bool_decide (says raw = Some (okey_of h o)).
Proof.
  intros Ho. unfold line_matches, says. destruct (loads_bytes raw) as [[| | | | | |env]|]; try done. by apply matches_says.
Qed.
End origins.

(** ** Lines *)

Lemma split_lines_encode rs t : Forall framed rs -> framed t -> split_lines (encode rs ++ t) = (rs, t).
Proof.
  intros Hrs Ht. pose proof (split_lines_spec (encode rs ++ t)) as Hs.
  destruct (split_lines (encode rs ++ t)) as [rs' t']. destruct Hs as (He & Hrs' & Ht').
  revert rs' Hrs' He. induction Hrs as [|r rs Hr Hrs IH]; intros rs' Hrs' He.
  - destruct rs' as [|r' rs']; [cbn in He; by subst|]. exfalso.
    unfold framed in Ht. apply Ht. cbn in He. rewrite He. unfold frame. rewrite !elem_of_app. left. left. right. left.
  - destruct rs' as [|r' rs']; cbn in He.
    + exfalso. unfold framed in Ht'. apply Ht'. rewrite <- He. unfold frame. rewrite !elem_of_app. left. left. right. left.
    + apply Forall_cons in Hrs' as [Hr' Hrs']. rewrite <- !app_assoc in He.
      pose proof (readline_frame r (encode rs ++ t) Hr) as E1. pose proof (readline_frame r' (encode rs' ++ t') Hr') as E2.
      fold (encode rs) in He. fold (encode rs') in He.
      rewrite He, E2 in E1. injection E1 as Ef Et.
      assert (r' = r) as -> by (apply (f_equal chop) in Ef; by rewrite !chop_frame in Ef).
      specialize (IH rs' Hrs' (eq_sym Et)). by simplify_eq.
Qed.

Lemma raw_lines_encode rs : Forall framed rs -> raw_lines (encode rs) = map frame rs.
Proof.
  intros Hrs. unfold raw_lines. rewrite <- (app_nil_r (encode rs)).
  rewrite split_lines_encode by (done || apply not_elem_of_nil). by rewrite app_nil_r.
Qed.

(** A file of complete lines. *)
Definition complete (content : bytes) : Prop := exists rs, Forall framed rs /\ content = encode rs.

Lemma raw_lines_snoc content body :
  complete content -> framed body -> raw_lines (content ++ frame body) = raw_lines content ++ [frame body].
Proof.
  intros (rs & Hrs & ->) Hb. unfold frame at 1. rewrite <- encode_snoc. rewrite !raw_lines_encode, map_app; [done|done|].
  apply Forall_app. split; [done|by constructor].
Qed.

Lemma raw_lines_length content : complete content -> length (concat (raw_lines content)) = length content.
Proof. intros (rs & Hrs & ->). by rewrite raw_lines_encode. Qed.

Section evidence.
Context `{FloatRepr}.

Lemma scan_log_snoc enc c pos lines x :
  scan_log enc c pos (lines ++ [x])
  = ((scan_log enc c pos lines).1 || line_matches enc x,
     (scan_log enc c pos lines).2
     || (line_matches enc x && negb (pos + Z.of_nat (length (concat lines)) + Z.of_nat (length x) <=? c)%Z)).
Proof.
  revert pos. induction lines as [|raw lines IH]; intros pos; cbn [scan_log app concat].
  - cbn [fst snd length orb]. replace (pos + Z.of_nat 0)%Z with pos by lia. by destruct (line_matches enc x).
  - rewrite IH. destruct (scan_log enc c _ lines) as [m q]. cbn [fst snd].
    rewrite length_app. replace (pos + Z.of_nat (length raw + length (concat lines)))%Z
      with (pos + Z.of_nat (length raw) + Z.of_nat (length (concat lines)))%Z by lia.
    destruct (line_matches enc raw); cbn [fst snd]; [|done].
    f_equal. rewrite <- !orb_assoc. f_equal. apply orb_comm.
Qed.

(** The scan of one log. *)
Definition log_scan (enc : bytes) (d : dir) (log : string) : bool * bool :=
  match _read_committed_offset (log_stem log) d with
  | Ok c => scan_log enc c 0 (raw_lines (file_content d log))
  | Err _ => (false, false)
  end.

Definition offsets_readable (d : dir) : Prop := forall log, log ∈ log_files d -> readable d (log_stem log).

Lemma scan_logs_ok enc logs d :
  (forall log, log ∈ logs -> readable d (log_stem log)) ->
  scan_logs enc logs d
  = Ok (existsb (fun log => (log_scan enc d log).1) logs, existsb (fun log => (log_scan enc d log).2) logs).
Proof.
  induction logs as [|log logs IH]; intros Hr; [done|]. cbn [scan_logs existsb].
  destruct (Hr log) as [c Hc]; [left|]. unfold log_scan at 1 3. rewrite Hc. cbn [rbind].
  destruct (scan_log enc c 0 _) as [m q]. rewrite IH by (intros; apply Hr; by right). done.
Qed.

Lemma scan_logs_readable enc logs d r log : scan_logs enc logs d = Ok r -> log ∈ logs -> readable d (log_stem log).
Proof.
  revert r. induction logs as [|x logs IH]; intros r Hs Hin; [by apply elem_of_nil in Hin|]. cbn [scan_logs] in Hs.
  apply rbind_ok in Hs as (c & Hc & Hs). destruct (scan_log enc c 0 _) as [m q].
  apply rbind_ok in Hs as ([m2 q2] & Hs & _). apply elem_of_cons in Hin as [->|Hin]; [by exists c|by eapply IH].
Qed.

Lemma elem_of_logs d log : log ∈ log_files d <-> str_ends_with ".log" log = true /\ is_Some (d !! log).
Proof. unfold log_files. by rewrite list_elem_of_filter, elem_of_dir_names. Qed.

Lemma existsb_elem {A} (f : A -> bool) l : existsb f l = true <-> exists x, x ∈ l /\ f x = true.
Proof. rewrite existsb_exists. by setoid_rewrite <- list_elem_of_In. Qed.

(** The answer, from the directory as a set of logs. *)
Definition commit_answer (m q : bool) : option qstate := if q then Some InQueue else if m then Some Consumed else None.

Lemma commit_state_ok origin d :
  offsets_readable d ->
  recovery_origin_commit_state origin d
  = Ok (commit_answer (existsb (fun log => (log_scan (sorted_dumps origin) d log).1) (log_files d))
                      (existsb (fun log => (log_scan (sorted_dumps origin) d log).2) (log_files d))).
Proof. intros Hr. unfold recovery_origin_commit_state. by rewrite scan_logs_ok. Qed.

Lemma commit_state_readable origin d r : recovery_origin_commit_state origin d = Ok r -> offsets_readable d.
Proof.
  unfold recovery_origin_commit_state. intros (x & Hs & _)%rbind_ok log Hin. by eapply scan_logs_readable.
Qed.

(** ** One line more *)

Section appended.
Variables (k : string) (d : dir) (q : aqueue) (body : bytes).
Hypotheses (Hq : implements k d q []) (Hk : _validate_session_id k = true) (Hb : framed body).

(** The directory after a successful append. *)
Definition appended : dir := <[_log_path k := file_content d (_log_path k) ++ frame body]> d.

Lemma content_complete : complete (file_content d (_log_path k)).
Proof. exists (q_all q). split; [apply Hq|]. rewrite (impl_log _ _ _ _ Hq). apply app_nil_r. Qed.

Lemma appended_implements : implements k appended (enqueue q body) [].
Proof.
  unfold appended. rewrite (impl_log _ _ _ _ Hq), app_nil_r. destruct Hq as [_ Ho Hf _ Hd]. split.
  - rewrite file_content_insert_eq. unfold enqueue. cbn [q_all]. rewrite encode_snoc, app_nil_r. done.
  - rewrite read_committed_other by auto with queue. rewrite Ho. f_equal. symmetry. by apply q_position_app.
  - apply Forall_app. split; [done|by constructor].
  - apply not_elem_of_nil.
  - unfold enqueue. cbn [q_all q_done]. rewrite length_app. lia.
Qed.

Lemma appended_logs log : log ∈ log_files appended <-> log = _log_path k \/ log ∈ log_files d.
Proof.
  rewrite !elem_of_logs. unfold appended. destruct (decide (log = _log_path k)) as [-> |Hne].
  - rewrite lookup_insert_eq. split; [by left|]. intros _. split; [apply str_ends_with_app|eauto].
  - rewrite lookup_insert_ne by congruence. naive_solver.
Qed.

Lemma appended_offset k' : _read_committed_offset k' appended = _read_committed_offset k' d.
Proof. unfold appended. apply read_committed_other. auto with queue. Qed.

Lemma appended_readable : offsets_readable d -> offsets_readable appended.
Proof.
  intros Hr log Hl. unfold readable. rewrite appended_offset. apply appended_logs in Hl as [-> |Hl]; [|by apply Hr].
  rewrite log_stem_path by eauto using validate_not_empty. eexists. apply Hq.
Qed.

Lemma appended_scan enc log :
  log_scan enc appended log
  = if decide (log = _log_path k)
    then ((log_scan enc d log).1 || line_matches enc (frame body), (log_scan enc d log).2 || line_matches enc (frame body))
    else log_scan enc d log.
Proof.
  unfold log_scan. rewrite appended_offset. case_decide as Hl.
  - subst log. rewrite log_stem_path by eauto using validate_not_empty. rewrite (impl_offset _ _ _ _ Hq).
    unfold appended. rewrite file_content_insert_eq, raw_lines_snoc, scan_log_snoc by (done || apply content_complete).
    rewrite raw_lines_length by apply content_complete.
    assert (Hc : (q_position q (q_done q) <= Z.of_nat (length (file_content d (_log_path k))))%Z).
    { rewrite (impl_log _ _ _ _ Hq), app_nil_r, encode_split by apply Hq. lia. }
    destruct (Z.leb_spec (0 + Z.of_nat (length (file_content d (_log_path k))) + Z.of_nat (length (frame body)))
                (q_position q (q_done q))) as [Hle|_].
    { unfold frame in Hle. rewrite length_app in Hle. cbn in Hle. lia. }
    by rewrite andb_true_r.
  - destruct (_read_committed_offset (log_stem log) d); [|done].
    unfold appended. by rewrite file_content_insert_ne by congruence.
Qed.

Lemma absent_scan enc log : log = _log_path k -> d !! log = None -> log_scan enc d log = (false, false).
Proof.
  intros -> Hn. unfold log_scan, file_content. rewrite Hn. cbn. by destruct (_read_committed_offset _ d).
Qed.

Lemma appended_existsb enc (f : bool * bool -> bool) :
  f (false, false) = false ->
  (forall m c b, f (m || b, c || b) = f (m, c) || b) ->
  existsb (fun log => f (log_scan enc appended log)) (log_files appended)
  = existsb (fun log => f (log_scan enc d log)) (log_files d) || line_matches enc (frame body).
Proof.
  intros Hf Hor. apply eq_true_iff_eq. rewrite orb_true_iff, !existsb_elem. split.
  - intros (log & Hl & Ht). rewrite appended_scan in Ht. case_decide as Hp.
    + rewrite Hor, orb_true_iff in Ht. destruct Ht as [Ht|Ht]; [|by right]. left. exists log.
      rewrite <- surjective_pairing in Ht. split; [|done]. apply elem_of_logs. subst log.
      split; [apply str_ends_with_app|]. destruct (d !! _log_path k) eqn:Hn; [eauto|].
      rewrite absent_scan in Ht by done. congruence.
    + left. exists log. split; [|done]. apply appended_logs in Hl as [?|?]; done.
  - intros [(log & Hl & Ht)|Ht].
    + exists log. split; [apply appended_logs; by right|]. rewrite appended_scan. case_decide; [|done].
      rewrite Hor, <- surjective_pairing, Ht. done.
    + exists (_log_path k). split; [apply appended_logs; by left|]. rewrite appended_scan, decide_True by done.
      rewrite Hor, Ht. apply orb_true_r.
Qed.

(** The new line is pending work for its own origin; every other answer stays. *)
Lemma appended_commit_state h o st :
  good_origin h o -> recovery_origin_commit_state (origin_json h o) d = Ok st ->
  recovery_origin_commit_state (origin_json h o) appended
  = Ok (if decide (says (frame body) = Some (okey_of h o)) then Some InQueue else st).
Proof.
  intros Ho Hs. pose proof (commit_state_readable _ _ _ Hs) as Hr.
  rewrite commit_state_ok in Hs by done. injection Hs as <-. rewrite commit_state_ok by (by apply appended_readable).
  set (enc := sorted_dumps (origin_json h o)).
  rewrite (appended_existsb enc fst), (appended_existsb enc snd) by done.
  unfold enc. rewrite line_matches_says by done. case_decide as Hd.
  - rewrite bool_decide_eq_true_2, !orb_true_r by done. done.
  - rewrite bool_decide_eq_false_2, !orb_false_r by done. done.
Qed.
End appended.
End evidence.

(** ** Counting the lines of an origin *)

Section counting.
Context `{FloatRepr}.

Definition naming (K : okey) (lines : list bytes) : nat := length (base.filter (fun raw => says raw = Some K) lines).
Definition count_says (K : okey) (d : dir) : nat :=
  sum_by (fun log => naming K (raw_lines (file_content d log))) (log_files d).

Lemma log_files_nodup (d : dir) : NoDup (log_files d).
Proof. unfold log_files, dir_names. apply NoDup_filter, NoDup_fst_map_to_list. Qed.

Lemma sum_by_without {A} `{EqDecision A} (f : A -> nat) (p : A) l :
  NoDup l -> (p ∉ l -> f p = 0) -> sum_by f l = f p + sum_by f (base.filter (fun x => x <> p) l).
Proof.
  intros Hn Hp. destruct (decide (p ∈ l)) as [Hin|Hin].
  - rewrite <- (sum_by_support f (p :: base.filter (fun x => x <> p) l) l); [done| |done|..].
    + constructor; [|by apply NoDup_filter]. rewrite list_elem_of_filter. by intros [? _].
    + intros x. rewrite elem_of_cons, list_elem_of_filter. by intros [->|[_ ?]].
    + intros x Hx Hnx. destruct Hnx. rewrite elem_of_cons, list_elem_of_filter.
      destruct (decide (x = p)); [by left|by right].
  - rewrite (Hp Hin). cbn. symmetry. apply sum_by_support; [by apply NoDup_filter|done|..].
    + intros x [_ Hx]%list_elem_of_filter. done.
    + intros x Hx Hnx. destruct Hnx. rewrite list_elem_of_filter. split; [|done]. by intros ->.
Qed.

Lemma count_says_appended k d q body K :
  implements k d q [] -> framed body ->
  count_says K (appended k d body) = count_says K d + (if decide (says (frame body) = Some K) then 1 else 0).
Proof.
  intros Hq Hb. unfold count_says.
  rewrite (sum_by_without _ (_log_path k) (log_files (appended k d body))); [|apply log_files_nodup|].
  2:{ intros Hn. destruct Hn. apply appended_logs. by left. }
  rewrite (sum_by_without _ (_log_path k) (log_files d)); [|apply log_files_nodup|].
  2:{ intros Hn. destruct (d !! _log_path k) eqn:Hl.
      - destruct Hn. apply elem_of_logs. split; [apply str_ends_with_app|eauto].
      - unfold file_content. rewrite Hl. done. }
  assert (Hhead : naming K (raw_lines (file_content (appended k d body) (_log_path k)))
    = naming K (raw_lines (file_content d (_log_path k))) + (if decide (says (frame body) = Some K) then 1 else 0)).
  { unfold appended. rewrite file_content_insert_eq, raw_lines_snoc by (done || by eapply content_complete).
    unfold naming. rewrite filter_app, length_app. f_equal. rewrite filter_cons, filter_nil. by case_decide. }
  assert (Htail : sum_by (fun log => naming K (raw_lines (file_content (appended k d body) log)))
                    (base.filter (fun x => x <> _log_path k) (log_files (appended k d body)))
    = sum_by (fun log => naming K (raw_lines (file_content d log)))
        (base.filter (fun x => x <> _log_path k) (log_files d))).
  { transitivity (sum_by (fun log => naming K (raw_lines (file_content d log)))
      (base.filter (fun x => x <> _log_path k) (log_files (appended k d body)))).
    - apply Nat.le_antisymm; apply sum_by_le; intros log [Hne _]%list_elem_of_filter;
        unfold appended; by rewrite file_content_insert_ne by congruence.
    - apply sum_by_support; [apply NoDup_filter, log_files_nodup..| |].
      + intros x. rewrite !list_elem_of_filter, appended_logs. naive_solver.
      + intros x [Hne Hx]%list_elem_of_filter Hnx. destruct Hnx. rewrite list_elem_of_filter, appended_logs. auto. }
  lia.
Qed.

(** A line in the queue or consumed is counted, an absent one is not. *)
Lemma count_commit_state h o d st :
  good_origin h o -> recovery_origin_commit_state (origin_json h o) d = Ok st ->
  count_says (okey_of h o) d = 0 -> st = None.
Proof.
  intros Ho Hs H0. pose proof (commit_state_readable _ _ _ Hs) as Hr.
  rewrite commit_state_ok in Hs by done. injection Hs as <-.
  assert (Hno : forall log, log ∈ log_files d -> log_scan (sorted_dumps (origin_json h o)) d log = (false, false)).
  { intros log Hl. unfold log_scan. destruct (_read_committed_offset _ d) as [c|]; [|done].
    assert (Hz : naming (okey_of h o) (raw_lines (file_content d log)) = 0).
    { unfold count_says in H0. rewrite (sum_by_without _ log) in H0; [lia|apply log_files_nodup|done]. }
    revert Hz. generalize 0%Z as pos. generalize (raw_lines (file_content d log)) as lines. clear -Ho.
    induction lines as [|raw lines IH]; intros pos Hz; [done|]. cbn [scan_log]. unfold naming in Hz.
    rewrite filter_cons in Hz. case_decide as Hsay; [done|]. rewrite IH by done.
    rewrite line_matches_says, bool_decide_eq_false_2 by done. done. }
  assert (Hf : forall f : bool * bool -> bool, f (false, false) = false ->
    existsb (fun log => f (log_scan (sorted_dumps (origin_json h o)) d log)) (log_files d) = false).
  { intros f Hf. apply not_true_iff_false. rewrite existsb_elem. intros (log & Hl & Ht). rewrite Hno in Ht by done. congruence. }
  by rewrite (Hf fst), (Hf snd).
Qed.
End counting.

(** ** Evidence files *)

Lemma evidence_files_ext suffix (d d' : dir) :
  (forall p, str_ends_with suffix p = true -> is_Some (d' !! p) <-> is_Some (d !! p)) ->
  _evidence_files suffix d' = _evidence_files suffix d.
Proof.
  intros Hp. apply py_sorted_ext; [unfold dir_names; apply NoDup_filter, NoDup_fst_map_to_list..|].
  intros p. rewrite !list_elem_of_filter, !elem_of_dir_names. naive_solver.
Qed.

Lemma first_match_ext {A} (f g : A -> result bool) l : (forall x, x ∈ l -> f x = g x) -> first_match f l = first_match g l.
Proof.
  induction l as [|x l IH]; intros Hfg; [done|]. cbn [first_match]. rewrite (Hfg x) by left.
  rewrite IH by (intros; apply Hfg; by right). done.
Qed.

Section dead.
Context `{FloatRepr}.

Lemma evidence_same suffix (d d' : dir) (test : bytes -> result bool) :
  (forall p, str_ends_with suffix p = true -> d' !! p = d !! p) ->
  first_match (fun path => first_match test (_read_evidence d' path)) (_evidence_files suffix d')
  = first_match (fun path => first_match test (_read_evidence d path)) (_evidence_files suffix d).
Proof.
  intros Hp. rewrite (evidence_files_ext suffix d d') by (intros p Hs; by rewrite Hp).
  apply first_match_ext. intros p Hin. unfold _read_evidence, file_content. rewrite Hp; [done|].
  unfold _evidence_files in Hin. by apply elem_of_py_sorted, list_elem_of_filter in Hin as [? _].
Qed.

Lemma is_dead_same origin d d' :
  (forall k, d' !! _dead_path k = d !! _dead_path k) ->
  recovery_origin_is_dead origin d' = recovery_origin_is_dead origin d.
Proof.
  intros Hd. apply evidence_same. intros p Hs. rewrite (str_ends_with_inv ".dead.jsonl" p Hs). apply Hd.
Qed.
End dead.
