(* ===== verification/Outbox.v ===== *)
(** * Native recovery: from the receipt ledger to the recovery spool ([main.py])

    An admitted recovery event is a receipt in the ledger ([Receipts]) that has to
    become a line of a separate spool, be flushed to the graph by a drainer, and be
    settled as written or quarantined.  The flows of this file move it: the append
    of an admitted receipt, the reconciliation that repairs every interrupted step
    from durable evidence ([Evidence]), the operator's retry and quarantine, the
    resumption after a restart, and the hooks the recovery drainers call.

    Every durable effect first consumes a unit of the state's budget; when it is
    exhausted the process stops there ([CancelledError], which no [except
    Exception] catches), so every crash point of every flow is a run of it.
    The locks that serialize the flows are not part of the state: a flow is one
    step. *)
From stdpp Require Import base list gmap strings sorting.
From Stdlib Require Import ZArith Lia.
From S2P Require Import Prelude PyText Sha256 Utils Json JsonParse JsonIndent QueueFiles QueueManager QueueSpec Drain.
From S2P Require Import SessionClaims Authz Registry Auth Config Receipts RecoveryGate QueueBoot QueueBootSpec Ingest.
From S2P Require Import Startup Evidence.

#[local] Open Scope string_scope.
#[local] Open Scope list_scope.

(** ** State *)

Record Recovery := MkRecovery {
  rv_server : Server;            (** claims, live spool *)
  rv_ledger : Ledger;
  rv_spool : dir;                (** the recovery spool *)
  rv_workers : registry;         (** the recovery drainers *)
  rv_paused : bool;
  rv_gate : option permits;      (** the admission gate of permit mode *)
  rv_budget : option nat;        (** durable effects until the process dies *)
}.

Definition on_server (f : Server -> Server) (s : Recovery) : Recovery :=
  MkRecovery (f (rv_server s)) (rv_ledger s) (rv_spool s) (rv_workers s) (rv_paused s) (rv_gate s) (rv_budget s).
Definition on_ledger (f : Ledger -> Ledger) (s : Recovery) : Recovery :=
  MkRecovery (rv_server s) (f (rv_ledger s)) (rv_spool s) (rv_workers s) (rv_paused s) (rv_gate s) (rv_budget s).
Definition on_spool (f : dir -> dir) (s : Recovery) : Recovery :=
  MkRecovery (rv_server s) (rv_ledger s) (f (rv_spool s)) (rv_workers s) (rv_paused s) (rv_gate s) (rv_budget s).
Definition on_workers (f : registry -> registry) (s : Recovery) : Recovery :=
  MkRecovery (rv_server s) (rv_ledger s) (rv_spool s) (f (rv_workers s)) (rv_paused s) (rv_gate s) (rv_budget s).
Definition with_gate (g : option permits) (s : Recovery) : Recovery :=
  MkRecovery (rv_server s) (rv_ledger s) (rv_spool s) (rv_workers s) (rv_paused s) g (rv_budget s).
Definition with_budget (b : option nat) (s : Recovery) : Recovery :=
  MkRecovery (rv_server s) (rv_ledger s) (rv_spool s) (rv_workers s) (rv_paused s) (rv_gate s) b.

(** Permit mode. *)
Definition gated (s : Recovery) : bool := match rv_gate s with Some _ => true | None => false end.

(** One durable effect. *)
Definition durable : M Recovery unit := fun s =>
  match rv_budget s with
  | Some O => (Err CancelledError, s)
  | Some (S n) => (Ok tt, with_budget (Some n) s)
  | None => (Ok tt, s)
  end.

Definition on_db {A} (f : Ledger -> A * Ledger) : M Recovery A :=
  durable ;;; fun s => let '(a, db) := f (rv_ledger s) in (Ok a, on_ledger (fun _ => db) s).
Definition on_dir {A} (m : M dir A) : M Recovery A :=
  durable ;;; fun s => let '(r, d) := m (rv_spool s) in (r, on_spool (fun _ => d) s).

(** [receipts.mark(...)] *)
Definition mark_receipt (h : string) (n : Z) (st : rstate) : M Recovery bool :=
  let! r := on_db (mark h n st) in mlift r.

(** What the world does during one flow. *)
Record flow_env := MkFlow {
  fe_append : write_script;
  fe_dead : write_script;
  fe_commit : commit_script;
  fe_archive : archive_env;
  fe_uuid : string;
  fe_ts : string;             (** [repr(time.time())] *)
}.

Section outbox.
Context `{FloatRepr, Timestamps}.

Definition _recovery_event_identity (payload : list (string * json)) (h : string) (ordinal : Z) : result string :=
  match jget "idempotency_key" payload with
  | JStr (String _ _ as k) => Ok (_new_event_identity (Some k) "")
  | _ => recovery_event_identity h ordinal
  end.

Definition _recovery_worker_key (session_id : string) : string := fold_worker_key session_id.

(** [payload["data"]["session_id"]], which the callers use as a string. *)
Definition payload_session (payload : list (string * json)) : result string :=
  match dget "data" payload with
  | Some (JObj d) => match dget "session_id" d with
                     | Some (JStr s) => Ok s
                     | Some _ => Err AttributeError
                     | None => Err KeyError
                     end
  | Some _ => Err TypeError
  | None => Err KeyError
  end.

Definition _recovery_reservation_token (h : string) (ordinal : Z) : string :=
  hex_of (bytes_of "recovery-reservation:"
          ++ sorted_dumps (JObj [("source_handle", JStr h); ("ordinal", JInt ordinal)])).

(** An operation of the claim store. *)
Definition on_claims {A} (f : SessionClaimStore -> A * SessionClaimStore) : M Recovery A := fun s =>
  let '(claims, sv) := _session_claim_store (rv_server s) in
  let '(a, claims) := f claims in (Ok a, on_server (fun _ => set_store claims sv) s).

Definition _finalize_native_recovery_claim (ob : Outbox) : M Recovery bool := fun s =>
  if negb (scoped (sv_app (rv_server s))) then (Ok true, s)
  else (let! sid := mlift (payload_session (ob_payload ob)) in
        durable ;;;
        on_claims (finalize_recovery sid (ob_actor ob) (ob_workspace ob)
                     (_recovery_reservation_token (ob_handle ob) (or_ordinal (ob_origin ob))))) s.

(** The envelope of a receipt as the spool stores it. *)
Definition recovery_envelope (ob : Outbox) : result (list (string * json)) :=
  let payload := match sanitize_recovery_payload (JObj (ob_payload ob)) with JObj o => o | _ => [] end in
  let payload := dset "_recovery_origin" (origin_json (ob_handle ob) (ob_origin ob))
                   (dset "created_by" (JStr (ob_actor ob)) payload) in
  let? identity := _recovery_event_identity payload (ob_handle ob) (or_ordinal (ob_origin ob)) in
  Ok (dset SPOOL_EVENT_IDENTITY (JStr identity) payload).

Definition _enqueue_native_recovery_receipt (e : flow_env) (ob : Outbox) : M Recovery unit :=
  let! finalized := _finalize_native_recovery_claim ob in
  if negb finalized then mret tt
  else
    let! env := mlift (recovery_envelope ob) in
    let! sid := mlift (payload_session env) in
    let worker_key := _recovery_worker_key sid in
    on_dir (append worker_key (json_dumps_compact (JObj env)) (fe_append e)) ;;;
    let! enqueued := mark_receipt (ob_handle ob) (or_ordinal (ob_origin ob)) Enqueued in
    mwhen enqueued (mmodify (on_workers (get_or_create worker_key))).

(** ** Reconciliation *)

Definition ob_json (ob : Outbox) : json := origin_json (ob_handle ob) (ob_origin ob).
Definition mark_ob (ob : Outbox) (st : rstate) : M Recovery bool :=
  mark_receipt (ob_handle ob) (or_ordinal (ob_origin ob)) st.
Definition read_spool {A} (f : dir -> result A) : M Recovery A := fun s => (f (rv_spool s), s).

(** The second half of one round: the queue decides. *)
Definition bridge_receipt (e : flow_env) (audited : list bytes) (ob : Outbox) : M Recovery unit :=
  let! found := read_spool (recovery_origin_commit_state (ob_json ob)) in
  let! found :=
    if decide (ob_state ob = RetryPending /\ found = Some Consumed) then
      if bool_decide (sorted_dumps (ob_json ob) ∈ audited) then mret None else mraise ValueError
    else mret found in
  match found with
  | Some Consumed => mark_ob ob Written ;;; mret tt
  | Some InQueue =>
    let! enqueued := mark_ob ob Enqueued in
    if enqueued then
      let! sid := mlift (payload_session (ob_payload ob)) in
      mmodify (on_workers (get_or_create (_recovery_worker_key sid)))
    else mret tt
  | None => _enqueue_native_recovery_receipt e ob
  end.

Definition reconcile_receipt (e : flow_env) (bridge : bool) (audited captured : list bytes) (ob : Outbox) : M Recovery unit :=
  let! finalized := _finalize_native_recovery_claim ob in
  if negb finalized then mret tt
  else
    let! dead := read_spool (recovery_origin_is_dead (ob_json ob)) in
    if dead then mark_ob ob Quarantined ;;; mret tt
    else if decide (ob_state ob = CommittedPending) then mark_ob ob Written ;;; mret tt
    else if bool_decide (ob_state ob = RetryPending) && negb (bridge && bool_decide (sorted_dumps (ob_json ob) ∈ captured))
    then mret tt
    else if decide (ob_state ob = Enqueued) then
      let! found := read_spool (recovery_origin_commit_state (ob_json ob)) in
      match found with
      | Some Consumed => mark_ob ob Written ;;; mret tt
      | Some InQueue => mret tt
      | None => mark_ob ob PendingEnqueue ;;; bridge_receipt e audited ob
      end
    else bridge_receipt e audited ob.

Definition _reconcile_native_recovery_outbox_unlocked (e : flow_env) (bridge : bool) (audited captured : list bytes)
    : M Recovery unit :=
  let! s := mget in mfor (pending_outbox (rv_ledger s)) (reconcile_receipt e bridge audited captured).

(** A failing read of the live spool counts as pending work. *)
Definition _native_recovery_live_available (s : Recovery) : bool :=
  negb (rv_paused s) && negb (has_pending_records (sv_dir (rv_server s))).
Definition _native_recovery_admission_available (s : Recovery) : bool :=
  negb (rv_paused s) && negb (has_pending (rv_ledger s)) && negb (has_pending_records (sv_dir (rv_server s))).

(** The retry origins that are pending, and those with an audit record. *)
Fixpoint audit_snapshot (obs : list Outbox) : M Recovery (list bytes * list bytes) :=
  match obs with
  | [] => mret ([], [])
  | ob :: obs =>
    if decide (ob_state ob = RetryPending) then
      let! audited := read_spool (recovery_origin_has_retry_audit (ob_json ob)) in
      let! r := audit_snapshot obs in
      let encoded := sorted_dumps (ob_json ob) in
      mret (encoded :: r.1, if audited then encoded :: r.2 else r.2)
    else audit_snapshot obs
  end.

Definition _reconcile_native_recovery_outbox_under_quarantine_lock (e : flow_env) : M Recovery unit :=
  let! s := mget in
  let! snap := audit_snapshot (pending_outbox (rv_ledger s)) in
  let '(captured, audited) := snap in
  let pending_retry := negb (bool_decide (captured = [])) in
  let! s := mget in
  if pending_retry && gated s then
    if _native_recovery_live_available s then _reconcile_native_recovery_outbox_unlocked e true audited captured
    else mret tt
  else _reconcile_native_recovery_outbox_unlocked e (pending_retry && _native_recovery_live_available s) audited captured.
Definition _reconcile_native_recovery_outbox : flow_env -> M Recovery unit :=
  _reconcile_native_recovery_outbox_under_quarantine_lock.

(** ** Retry and quarantine *)

Definition _retry_quarantined_native_recovery (e : flow_env) : M Recovery bool :=
  let! s := mget in
  match next_quarantined (rv_ledger s) with
  | None => mret false
  | Some (r, _) =>
    let origin := origin_json (re_handle r) (origin_of r) in
    let! found := read_spool (recovery_origin_commit_state origin) in
    if decide (found = Some InQueue) then mret false
    else
      on_dir (archive_recovery_dead_letters (fe_archive e) origin) ;;;
      let! s := mget in
      let! transitioned :=
        if _native_recovery_live_available s then on_db (requeue_quarantined (re_handle r) (re_ordinal r))
        else mret false in
      if transitioned then _reconcile_native_recovery_outbox_under_quarantine_lock e ;;; mret true else mret false
  end.

Definition operator_text : string := "operator quarantined stuck native recovery receipt".

Definition _quarantine_selected_receipt_locked (e : flow_env) (h : string) (ordinal : Z) : M Recovery bool :=
  let! s := mget in
  match pending_receipt h ordinal (rv_ledger s) with
  | None => mret false
  | Some (r, payload) =>
    let origin := origin_json h (origin_of r) in
    let! sid := mlift (payload_session payload) in
    let! found := read_spool (recovery_origin_commit_state origin) in
    let! consumed := if decide (found = Some Consumed)
                     then let! audited := read_spool (recovery_origin_has_retry_audit origin) in mret (negb audited)
                     else mret false in
    if consumed then mret false
    else
      let! batch := read_spool (read_batch sid 1) in
      match records batch with
      | rec :: _ =>
        match loads_bytes (raw rec) with
        | Ok (JObj envelope) =>
          match normalized_recovery_origin origin with
          | Some selected =>
            if decide (normalized_recovery_origin (jget "_recovery_origin" envelope) = Some selected) then
              on_dir (dead_letter sid (raw rec) (fe_ts e) operator_text (fe_dead e)) ;;;
              on_db (fun db => (tt, quarantine_pending h ordinal db)) ;;;
              on_dir (QueueManager.commit sid (end_offset batch) (fe_uuid e) (fe_commit e)) ;;;
              mret true
            else mret false
          | None => mret false
          end
        | _ => mret false
        end
      | [] =>
        let! identity := mlift (_recovery_event_identity payload h ordinal) in
        let env := dset SPOOL_EVENT_IDENTITY (JStr identity)
                     (dset "_recovery_origin" origin
                       (dset "created_by" (JStr (re_actor r))
                         (match sanitize_recovery_payload (JObj payload) with JObj o => o | _ => [] end))) in
        on_dir (dead_letter sid (json_dumps_compact (JObj env)) (fe_ts e) (operator_text +:+ " before enqueue") (fe_dead e)) ;;;
        on_db (fun db => (tt, quarantine_pending h ordinal db)) ;;;
        mret true
      end
  end.

Inductive quarantine_answer := OpQuarantined | OpNone | OpNotPaused.
#[export] Instance quarantine_answer_eq_dec : EqDecision quarantine_answer.
Proof. solve_decision. Defined.

Definition _quarantine_pending_native_recovery (e : flow_env) (h : string) (ordinal : Z) : M Recovery quarantine_answer :=
  let! s := mget in
  if negb (rv_paused s) then mret OpNotPaused
  else let! done := _quarantine_selected_receipt_locked e h ordinal in
       mret (if done then OpQuarantined else OpNone).

(** ** Admission *)

(** [claims] is present in scoped mode only, [reserved] when this request created
    the reservation; [fails] is an error of the ledger's transaction. *)
Definition release_reservation (ob : Outbox) (reserved : bool) : M Recovery unit :=
  if reserved then
    let! sid := mlift (payload_session (ob_payload ob)) in
    durable ;;;
    on_claims (release_recovery sid (ob_actor ob) (ob_workspace ob)
                 (_recovery_reservation_token (ob_handle ob) (or_ordinal (ob_origin ob))))
  else mret tt.

Definition _admit_native_recovery (e : flow_env) (ob : Outbox) (reserved : bool) (lease : option string)
    (fails : option exn) : M Recovery admission :=
  let! s := mget in
  let! admitted :=
    mcatch (match fails with
            | Some x => mraise x
            | None => on_db (admit_source (ob_handle ob) (JObj (ob_source ob)) (ob_origin ob) (ob_actor ob) (ob_workspace ob)
                               (JObj (ob_payload ob)) lease (negb (gated s)))
            end)
      (fun x => if is_Exception x then release_reservation ob reserved ;;; mraise x else mraise x) in
  match admitted with
  | Busy | AdmitConflict => release_reservation ob reserved ;;; mret admitted
  | Accepted | AdmitDuplicate =>
    let! finalized := _finalize_native_recovery_claim ob in
    if negb finalized then mraise RuntimeError
    else
      match admitted with
      | Accepted => _enqueue_native_recovery_receipt e ob
      | _ => _reconcile_native_recovery_outbox_unlocked e false [] []
      end ;;;
      mret admitted
  end.

(** ** The endpoints

    Recovery is enabled and the request has no query parameters (the other answers
    are 404 and 400); the models have validated the body. *)

Record NativeRecoverySource := MkSource { ns_session : string; ns_stream : string; ns_sha : string; ns_count : Z }.
Definition source_dump (src : NativeRecoverySource) : list (string * json) :=
  [("protocol", JStr "native-recovery-source-v1"); ("session_id", JStr (ns_session src));
   ("source_stream_sha256", JStr (ns_stream src)); ("source_sha256", JStr (ns_sha src)); ("record_count", JInt (ns_count src))].

(** A validated request: the source of the v1 protocol, or the session and stream
    of the former origin. *)
Inductive request_source := V1Source (src : NativeRecoverySource) | LegacySource (session stream : string).
Record RecoveryEventRequest := MkRecoveryEvent {
  rr_event : string; rr_workspace : string; rr_key : option string; rr_data : list (string * json);
  rr_source : request_source; rr_origin : Origin;
}.

(** [model_dump(exclude={"origin", "source"}, exclude_none=True)] *)
Definition request_payload (q : RecoveryEventRequest) : list (string * json) :=
  [("event", JStr (rr_event q)); ("workspace", JStr (rr_workspace q))]
  ++ match rr_key q with Some k => [("idempotency_key", JStr k)] | None => [] end
  ++ [("data", JObj (rr_data q))].

(** The legacy origin as it was sent. *)
Definition legacy_of (session stream : string) (o : Origin) : list (string * json) :=
  [("session_id", JStr session); ("ordinal", JInt (or_ordinal o)); ("source_line_sha256", JStr (or_line o));
   ("source_stream_sha256", JStr stream)].

(** Handle and descriptor of a request; [None] is answered 429. *)
Definition request_identity (gated : bool) (capability : option string) (q : RecoveryEventRequest)
    : option (string * list (string * json)) :=
  match gated, rr_source q with
  | true, V1Source src => (fun h => (h, source_dump src)) <$> source_handle_from_capability capability
  | false, LegacySource session stream =>
    let o := legacy_of session stream (rr_origin q) in
    match legacy_source_descriptor o with
    | JObj d => Some (legacy_source_handle o, d)
    | _ => None
    end
  | _, _ => None
  end.

Definition recovery_session_ok (q : RecoveryEventRequest) : bool :=
  match dget "session_id" (rr_data q) with
  | Some (JStr sid) =>
    is_safe_session_id sid
    && match rr_source q with
       | V1Source src => is_safe_session_id (ns_session src) && bool_decide (ns_session src = sid)
       | LegacySource _ _ => true
       end
  | _ => false
  end.

(** The reservation of scoped mode: [None] refuses, [Some created] goes on. *)
Definition reserve_claim (st : ScopeState) (ob : Outbox) : M Recovery (option bool + Z) := fun s =>
  if negb (scoped (sv_app (rv_server s))) then (Ok (inl (Some false)), s)
  else match st_contributor_id st with
  | Some (String _ _ as c) =>
    (let! sid := mlift (payload_session (ob_payload ob)) in
     durable ;;;
     let! r := on_claims (reserve_recovery sid c (ob_workspace ob)
                            (_recovery_reservation_token (ob_handle ob) (or_ordinal (ob_origin ob)))) in
     mret (match r with
           | SessionClaims.Conflict => inr 429%Z
           | Reserved => inl (Some true)
           | _ => inl (Some false)
           end)) s
  | _ => (Ok (inr 409%Z), s)
  end.

Definition _admit_with_claim (e : flow_env) (st : ScopeState) (ob : Outbox) (sid : string) (lease : option string)
    (fails : option exn) : M Recovery response :=
  let! r := reserve_claim st ob in
  match r with
  | inr code => mret (HttpError code)
  | inl reserved =>
    let! admitted := _admit_native_recovery e ob (default false reserved) lease fails in
    mret (match admitted with
          | AdmitConflict => HttpError 409
          | Busy => HttpError 429
          | AdmitDuplicate => DuplicateEvent (Some sid)
          | Accepted => Queued (Some sid)
          end)
  end.

Definition classify_ob (ob : Outbox) : M Recovery classification :=
  on_db (classify_source (ob_handle ob) (JObj (ob_source ob)) (ob_origin ob) (ob_actor ob) (ob_workspace ob)
           (canonical_payload_digest (JObj (ob_payload ob)))).

Definition ob_binding (ob : Outbox) : _PermitBinding :=
  binding (ob_handle ob) (source_descriptor_digest (JObj (ob_source ob))) (ob_origin ob) (ob_actor ob) (ob_workspace ob)
    (canonical_payload_digest (JObj (ob_payload ob))).

Definition _admit_current_request (e : flow_env) (st : ScopeState) (ob : Outbox) (sid : string) (permit : option string)
    (lease : option string) (fails : option exn) (now : Z) : M Recovery response :=
  let! s := mget in
  let! existing := classify_ob ob in
  match rv_gate s with
  | None =>
    match existing with
    | Duplicate => mret (DuplicateEvent (Some sid))
    | ConflictFound => mret (HttpError 409)
    | _ => _admit_with_claim e st ob sid lease fails
    end
  | Some g =>
    let! s := mget in
    let '(r, g) := consume permit (ob_binding ob) existing (_native_recovery_admission_available s) now g in
    mmodify (with_gate (Some g)) ;;;
    match r with
    | PDuplicate => mret (DuplicateEvent (Some sid))
    | PConflict => mret (HttpError 409)
    | PAccepted => _admit_with_claim e st ob sid lease fails
    | _ => mret (HttpError 429)
    end
  end.

(** The two grants a request needs; the live one in permit mode only. *)
Definition recovery_allowed (st : ScopeState) (workspace : string) (s : Recovery) : bool :=
  let r := MkReq st (sv_app (rv_server s)) in
  bool_decide (require_workspace_access r workspace "recovery:write" = Allowed)
  && (negb (gated s) || bool_decide (require_workspace_access r workspace "live:write" = Allowed)).

Definition post_recovery_events (e : flow_env) (st : ScopeState) (q : RecoveryEventRequest) (permit capability : option string)
    (lease : option string) (fails : option exn) (now : Z) : M Recovery response :=
  let! s := mget in
  let gated := gated s in
  if bool_decide (require_recovery_write (MkReq st (sv_app (rv_server s))) = Denied) then mret (HttpError 403)
  else match request_identity gated capability q with
  | None => mret (HttpError 429)
  | Some (h, source) =>
    if negb (recovery_allowed st (rr_workspace q) s) then mret (HttpError 403)
    else if negb (recovery_session_ok q) then mret (HttpError 400)
    else if negb (_validate_data_timestamp (rr_data q)) then mret (HttpError 400)
    else
      _reconcile_native_recovery_outbox e ;;;
      let! s := mget in
      if negb gated && rv_paused s then mret (HttpError 429)
      else
        let ob := MkOutbox h source (rr_origin q) (default "" (st_contributor_id st)) (rr_workspace q)
                    (request_payload q) PendingEnqueue in
        match dget "session_id" (rr_data q) with
        | Some (JStr sid) => _admit_current_request e st ob sid permit lease fails now
        | _ => mret (HttpError 400)
        end
  end.

Inductive permit_answer := PermitIssued (token : string) (expires : Z) | PermitDuplicate | PermitRefused (status : Z).

(** [POST /recovery/admissions]; a reconciliation failure is answered 429. *)
Definition post_recovery_admission (e : flow_env) (ttl : Z) (st : ScopeState) (workspace : string)
    (src : NativeRecoverySource) (o : Origin) (payload_sha256 : string) (capability : option string) (token : string)
    (now now' : Z) : M Recovery permit_answer :=
  let! s := mget in
  if bool_decide (require_recovery_write (MkReq st (sv_app (rv_server s))) = Denied) then mret (PermitRefused 403)
  else match rv_gate s, source_handle_from_capability capability with
  | None, _ => mret (PermitRefused 404)
  | Some _, None => mret (PermitRefused 429)
  | Some _, Some h =>
    if negb (recovery_allowed st workspace s) then mret (PermitRefused 403)
    else
      let actor := default "" (st_contributor_id st) in
      let source := JObj (source_dump src) in
      let! ok := mcatch (_reconcile_native_recovery_outbox e ;;; mret true)
                   (fun x => if is_Exception x then mret false else mraise x) in
      if negb ok then mret (PermitRefused 429)
      else
        let classify := on_db (classify_source h source o actor workspace payload_sha256) in
        let! c := classify in
        match c with
        | ConflictFound => mret (PermitRefused 409)
        | Duplicate => mret PermitDuplicate
        | _ =>
          let! c := classify in
          let! s := mget in
          match rv_gate s with
          | None => mret (PermitRefused 404)
          | Some g =>
            let '(r, g) := issue ttl (binding h (source_descriptor_digest source) o actor workspace payload_sha256) c
                             (_native_recovery_admission_available s) token now now' g in
            mmodify (with_gate (Some g)) ;;;
            mret (match r with Some (t, x) => PermitIssued t x | None => PermitRefused 429 end)
          end
        end
  end.

(** ** Resumption *)

Definition migrate_spool (fails : string -> option nat) : M Recovery unit :=
  on_dir (fun d => (Ok tt, snd (migrate_overlong_keys fails d))).

Definition resume_one (sid : string) : M Recovery unit := fun s =>
  match read_batch sid 1 (rv_spool s) with
  | Err _ => (Ok tt, s)
  | Ok batch =>
    match records batch with
    | [] => (Ok tt, s)
    | rec :: _ =>
      let '(matches, sv) := _scoped_queue_binding_matches sid (raw rec) (rv_server s) in
      let s := on_server (fun _ => sv) s in
      match matches, _parse_workspace_and_creator (raw rec) with
      | true, Some _ => (Ok tt, on_workers (get_or_create sid) s)
      | _, _ => (Ok tt, s)
      end
    end
  end.

Definition _resume_native_recovery (e : flow_env) (fails : string -> option nat) : M Recovery unit :=
  migrate_spool fails ;;;
  _reconcile_native_recovery_outbox e ;;;
  let! s := mget in mfor (recover (rv_spool s)) resume_one.

(** ** The hooks of a recovery drainer *)

(** A JSON integer; a [bool] is an [int]. *)
Definition int_of (v : json) : option Z := match v with JInt n => Some n | JBool b => Some (Z.b2z b) | _ => None end.

(** [mark(origin, state)] of a hook: the handle of a v1 origin, or the legacy one.
    [None]: the record has no origin object. *)
Definition hook_mark (st : rstate) (origin : json) : option (M Recovery bool) :=
  match origin with
  | JObj o =>
    Some (match dget "source_handle" o, int_of (jget "ordinal" o) with
          | Some (JStr h), Some n => mark_receipt h n st
          | _, _ =>
            match dget "ordinal" o, dget "source_line_sha256" o with
            | Some ordinal, Some _ =>
              match int_of ordinal with
              | Some n => mark_receipt (legacy_source_handle o) n st
              | None => mraise RuntimeError    (** no row has such an ordinal *)
              end
            | _, _ => mraise KeyError
            end
          end)
  | _ => None
  end.

Definition mark_flushed (rec : LogRecord) : M Recovery unit :=
  match loads_bytes (raw rec) with
  | Err _ => mraise RuntimeError
  | Ok (JObj envelope) =>
    match hook_mark Written (jget "_recovery_origin" envelope) with
    | Some m => m ;;; mret tt
    | None => mret tt
    end
  | Ok _ => mraise AttributeError
  end.
Definition _mark_recovery_flushed (recs : list LogRecord) : M Recovery unit := mfor recs mark_flushed.

Definition record_flushable (rec : LogRecord) : M Recovery unit :=
  let origin := match loads_bytes (raw rec) with Ok (JObj envelope) => jget "_recovery_origin" envelope | _ => JNull end in
  match normalized_recovery_origin origin with
  | Some (h, n, l) =>
    let! found := read_spool (recovery_origin_commit_state (origin_json h (MkOrigin n l))) in
    let! s := mget in
    if decide (found = Some InQueue) then (if is_flushable h n (rv_ledger s) then mret tt else mraise RuntimeError)
    else mraise RuntimeError
  | None => mraise RuntimeError
  end.
(** The graph buffer is dropped before it raises ([Drain]). *)
Definition _ensure_recovery_records_are_flushable (recs : list LogRecord) : M Recovery unit := mfor recs record_flushable.

Definition _mark_recovery_quarantined (rec : LogRecord) : M Recovery unit :=
  match loads_bytes (raw rec) with
  | Err _ => mraise RuntimeError
  | Ok (JObj envelope) =>
    match hook_mark Quarantined (jget "_recovery_origin" envelope) with
    | Some m => mcatch (m ;;; mret tt) (fun x => mraise (if decide (x = KeyError) then RuntimeError else x))
    | None => mraise RuntimeError
    end
  | Ok _ => mraise AttributeError
  end.
End outbox.
