(* ===== verification/OutboxSpec.v ===== *)
(** * Native recovery: the steps of a delivery

    Lemmas about the flows of [Outbox]: what one durable effect does, how a
    transition shows in the outbox, and where a delivery may stand when it is
    interrupted ([underway]), which every flow and every restart preserves.  The
    theorems built on them are in [Delivery] and [Settlement]. *)
From stdpp Require Import base list gmap strings sorting.
From Stdlib Require Import ZArith Lia.
From S2P Require Import Prelude PyText Sha256 Utils Json JsonParse JsonIndent QueueFiles QueueManager QueueSpec Drain.
From S2P Require Import SessionClaims Authz Registry Auth Config Receipts ReceiptSpec RecoveryGate QueueBoot QueueBootSpec Ingest.
From S2P Require Import Payloads Startup Evidence EvidenceSpec Outbox.

#[local] Open Scope string_scope.
#[local] Open Scope list_scope.

(** ** Durable effects *)

Definition core (s : Recovery) : Ledger * dir := (rv_ledger s, rv_spool s).

Lemma durable_cases s r s' :
  durable s = (r, s') ->
  (r = Err CancelledError /\ s' = s /\ rv_budget s = Some 0) \/ (r = Ok tt /\ exists b, s' = with_budget b s /\ (rv_budget s = None -> b = None)).
Proof.
  unfold durable. destruct (rv_budget s) as [[|n]|] eqn:Hb; intros [= <- <-].
  - left. done.
  - right. split; [done|]. exists (Some n). done.
  - right. split; [done|]. exists None. split; [|done]. destruct s; cbn in *. by subst.
Qed.

(** A durable step over the ledger. *)
Lemma on_db_cases {A} (f : Ledger -> A * Ledger) s r s' :
  on_db f s = (r, s') ->
  (r = Err CancelledError /\ s' = s /\ rv_budget s = Some 0)
  \/ (r = Ok (fst (f (rv_ledger s))) /\ core s' = (snd (f (rv_ledger s)), rv_spool s)
      /\ (rv_budget s = None -> rv_budget s' = None) /\ rv_workers s' = rv_workers s /\ rv_server s' = rv_server s
      /\ rv_gate s' = rv_gate s /\ rv_paused s' = rv_paused s).
Proof.
  unfold on_db, mbind. destruct (durable s) as [r0 s0] eqn:Hd.
  apply durable_cases in Hd as [(-> & -> & Hb)|(-> & b & -> & Hb)]; [intros [= <- <-]; by left|].
  cbn [rv_ledger with_budget]. destruct (f (rv_ledger s)) as [a db]. intros [= <- <-]. right. done.
Qed.

(** A durable step over the spool. *)
Lemma on_dir_cases {A} (m : M dir A) s r s' :
  on_dir m s = (r, s') ->
  (r = Err CancelledError /\ s' = s /\ rv_budget s = Some 0)
  \/ (r = fst (m (rv_spool s)) /\ core s' = (rv_ledger s, snd (m (rv_spool s)))
      /\ (rv_budget s = None -> rv_budget s' = None) /\ rv_workers s' = rv_workers s /\ rv_server s' = rv_server s
      /\ rv_gate s' = rv_gate s /\ rv_paused s' = rv_paused s).
Proof.
  unfold on_dir, mbind. destruct (durable s) as [r0 s0] eqn:Hd.
  apply durable_cases in Hd as [(-> & -> & Hb)|(-> & b & -> & Hb)]; [intros [= <- <-]; by left|].
  cbn [rv_spool with_budget]. destruct (m (rv_spool s)) as [a d]. intros [= <- <-]. right. done.
Qed.

(** ** The outbox after a transition *)

Definition with_state (st : rstate) (ob : Outbox) : Outbox :=
  MkOutbox (ob_handle ob) (ob_source ob) (ob_origin ob) (ob_actor ob) (ob_workspace ob) (ob_payload ob) st.

Section ledger.
Context `{FloatRepr, Timestamps}.

Definition advance (h : string) (n : Z) (from : list rstate) (st : rstate) (ob : Outbox) : Outbox :=
  if bool_decide ((ob_handle ob, or_ordinal (ob_origin ob)) = (h, n)) && bool_decide (ob_state ob ∈ from)
  then with_state st ob else ob.

Lemma outbox_update h n from st db :
  Forall (fun x => pending x = true) from -> pending st = true -> st <> Written ->
  pending_outbox (with_receipts (update_where h n from st (db_receipts db)) db)
  = map (advance h n from st) (pending_outbox db).
Proof.
  intros Hfrom Hst Hw. unfold pending_outbox, update_where, with_receipts. cbn [db_receipts db_sources].
  induction (db_receipts db) as [|r rs IH]; [done|]. cbn [map omap list_omap].
  rewrite IH. clear IH.
  assert (Hrow : forall r, re_state r ∈ from -> pending (re_state r) = true).
  { intros x Hx. by apply (proj1 (Forall_forall _ _) Hfrom). }
  destruct (bool_decide (re_key r = (h, n)) && bool_decide (re_state r ∈ from)) eqn:Hc.
  - apply andb_true_iff in Hc as [Hk%bool_decide_eq_true Hs%bool_decide_eq_true].
    unfold set_state. rewrite (decide_False (P := st = Written)) by done. cbn [re_state re_handle].
    rewrite Hst, (Hrow r Hs). destruct (dget (re_handle r) (db_sources db)) as [[dg text]|]; [|done].
    unfold _pending_outbox_row, origin_of. cbn [re_payload re_handle re_ordinal re_line re_actor re_workspace re_state].
    destruct (obj_text text), (obj_text (re_payload r)); try done. cbn [map]. f_equal.
    unfold advance. cbn [ob_handle ob_origin ob_state or_ordinal].
    rewrite !bool_decide_eq_true_2 by done. done.
  - destruct (pending (re_state r)); [|done]. destruct (dget (re_handle r) (db_sources db)) as [[dg text]|]; [|done].
    unfold _pending_outbox_row, origin_of. destruct (obj_text text), (obj_text (re_payload r)); try done.
    cbn [map]. f_equal. unfold advance. cbn [ob_handle ob_origin ob_state or_ordinal].
    unfold re_key in Hc. by rewrite Hc.
Qed.

(** A row of the outbox is a receipt. *)
Lemma outbox_row db ob :
  NoDup (map re_key (db_receipts db)) -> ob ∈ pending_outbox db ->
  exists r, find_receipt (ob_handle ob) (or_ordinal (ob_origin ob)) (db_receipts db) = Some r
    /\ re_state r = ob_state ob /\ re_line r = or_line (ob_origin ob) /\ pending (ob_state ob) = true.
Proof.
  intros Hnd. unfold pending_outbox. rewrite list_elem_of_omap. intros (r & Hin & Hr).
  destruct (pending (re_state r)) eqn:Hp; [|done]. destruct (dget _ _) as [[dg text]|]; [|done].
  unfold _pending_outbox_row in Hr. destruct (obj_text text), (obj_text (re_payload r)); try done. injection Hr as <-.
  cbn [ob_handle ob_origin ob_state]. exists r. split; [|done].
  unfold find_receipt, origin_of. cbn [or_ordinal]. fold (re_key r). revert Hnd Hin. clear.
  induction (db_receipts db) as [|x rs IH]; intros Hnd Hin; [by apply elem_of_nil in Hin|].
  cbn [map] in Hnd. apply NoDup_cons in Hnd as [Hx Hnd]. rewrite filter_cons.
  apply elem_of_cons in Hin as [-> |Hin]; [by rewrite decide_True|].
  rewrite decide_False; [by apply IH|]. intros E. apply Hx. rewrite E. apply list_elem_of_fmap. eauto.
Qed.

Lemma mark_row db ob st :
  NoDup (map re_key (db_receipts db)) -> ob ∈ pending_outbox db ->
  mark (ob_handle ob) (or_ordinal (ob_origin ob)) st db
  = (Ok (bool_decide (ob_state ob ∈ allowed_previous st)),
     with_receipts (update_where (ob_handle ob) (or_ordinal (ob_origin ob)) (allowed_previous st) st (db_receipts db)) db).
Proof.
  intros Hnd Hin. destruct (outbox_row db ob Hnd Hin) as (r & Hf & Hs & _).
  unfold mark, row_in. by rewrite Hf, Hs.
Qed.
End ledger.

(** ** Bridging a receipt into the spool *)

Section bridging.
Context `{FloatRepr, Timestamps}.

(** A receipt whose envelope can be stored: its session is a worker key, and the
    line that is appended for it names its own origin. *)
Record deliverable (ob : Outbox) (sid : string) (env : list (string * json)) : Prop := {
  dl_origin : good_origin (ob_handle ob) (ob_origin ob);
  dl_session : payload_session (ob_payload ob) = Ok sid;
  dl_valid : _validate_session_id sid = true;
  dl_env : recovery_envelope ob = Ok env;
  dl_env_session : payload_session env = Ok sid;
  dl_framed : framed (json_dumps_compact (JObj env));
  dl_says : says (frame (json_dumps_compact (JObj env))) = Some (okey_of (ob_handle ob) (ob_origin ob));
}.

Variables (ob : Outbox) (sid : string) (env : list (string * json)).
Hypothesis Hob : deliverable ob sid env.

Notation K := (okey_of (ob_handle ob) (ob_origin ob)).
Notation body := (json_dumps_compact (JObj env)).

Lemma deliverable_state st : deliverable (with_state st ob) sid env.
Proof. destruct Hob. by constructor. Qed.

Lemma worker_key_id : _recovery_worker_key sid = sid.
Proof.
  unfold _recovery_worker_key, fold_worker_key. apply fold_name_id.
  pose proof (dl_valid _ _ _ Hob) as Hv. unfold _validate_session_id in Hv. apply andb_true_iff in Hv as [Hv _].
  by apply Z.leb_le.
Qed.

(** The receipt is the outstanding one, in state [st], and the spool has [c] lines
    of its event, none of them acknowledged; its event is not dead. *)
Record bridge (st : rstate) (c : nat) (x : Ledger * dir) : Prop := {
  br_outbox : pending_outbox x.1 = [with_state st ob];
  br_keys : NoDup (map re_key (db_receipts x.1));
  br_count : count_says K x.2 = c;
  br_queue : exists q, implements sid x.2 q [];
  br_state : recovery_origin_commit_state (ob_json ob) x.2 = Ok (if decide (c = 0) then None else Some InQueue);
  br_alive : recovery_origin_is_dead (ob_json ob) x.2 = Ok false;
}.

(** Where an interrupted delivery may stand. *)
Definition underway (x : Ledger * dir) : Prop :=
  bridge PendingEnqueue 0 x \/ bridge PendingEnqueue 1 x \/ bridge Enqueued 1 x.

Lemma bridge_enqueued st c db d :
  bridge st c (db, d) -> st ∈ [PendingEnqueue; Enqueued] ->
  mark (ob_handle ob) (or_ordinal (ob_origin ob)) Enqueued db = (Ok true, snd (mark (ob_handle ob) (or_ordinal (ob_origin ob)) Enqueued db))
  /\ bridge Enqueued c (snd (mark (ob_handle ob) (or_ordinal (ob_origin ob)) Enqueued db), d).
Proof.
  intros [Ho Hk Hc Hq Hs Ha] Hst. cbn [fst snd] in *.
  assert (Hin : with_state st ob ∈ pending_outbox db) by (rewrite Ho; left).
  pose proof (mark_row db (with_state st ob) Enqueued Hk Hin) as Hm.
  change (ob_handle (with_state st ob)) with (ob_handle ob) in Hm.
  change (ob_origin (with_state st ob)) with (ob_origin ob) in Hm. change (ob_state (with_state st ob)) with st in Hm.
  rewrite Hm. cbn [snd]. rewrite bool_decide_eq_true_2.
  2:{ rewrite !elem_of_cons, elem_of_nil in Hst. destruct Hst as [-> |[-> |[]]]; cbn; set_solver. }
  split; [done|]. split; cbn [fst snd]; [|cbn [db_receipts with_receipts]; by rewrite update_keys|done..].
  rewrite outbox_update, Ho; [|by repeat constructor|done|done].
  cbn [map]. unfold advance. cbn [ob_handle ob_origin ob_state with_state].
  rewrite bool_decide_eq_true_2 by done. rewrite bool_decide_eq_true_2; [done|].
  rewrite !elem_of_cons, elem_of_nil in Hst. destruct Hst as [-> |[-> |[]]]; cbn; set_solver.
Qed.

(** Any line that names the event. *)
Lemma bridge_appended st db d b :
  framed b -> says (frame b) = Some K -> bridge st 0 (db, d) -> bridge st 1 (db, appended sid d b).
Proof.
  intros Hf Hsay [Ho Hk Hc [q Hq] Hs Ha]. cbn [fst snd] in *. split; cbn [fst snd]; [done|done| | | |].
  - rewrite (count_says_appended sid d q) by done. rewrite Hc, decide_True by done. done.
  - exists (enqueue q b). by apply appended_implements.
  - unfold ob_json. rewrite (appended_commit_state sid d q b Hq (dl_valid _ _ _ Hob) Hf _ _ None);
      [by rewrite decide_True|apply Hob|exact Hs].
  - rewrite <- Ha. apply is_dead_same. intros k. unfold appended. rewrite lookup_insert_ne; [done|]. auto with queue.
Qed.

(** ** One flow *)

(** An append that either happens or leaves nothing behind. *)
Definition tidy (e : flow_env) : Prop := fe_append e = WriteScript true [] \/ open_ok (fe_append e) = false.

Lemma append_tidy e d b :
  tidy e -> framed b ->
  append sid b (fe_append e) d = (Ok tt, appended sid d b)
  \/ (append sid b (fe_append e) d = (Err OSError, d) /\ fe_append e <> WriteScript true []).
Proof.
  intros Ht Hb. unfold append. rewrite (dl_valid _ _ _ Hob), ends_nl_framed by done. unfold _write_record.
  destruct Ht as [-> |Ho].
  - left. cbn [open_ok writes]. unfold appended.
    assert (Hw : _write_all [] (frame b) = (frame b, Ok tt, [])) by (by destruct (frame b)).
    rewrite Hw. done.
  - right. rewrite Ho. split; [done|]. intros E. by rewrite E in Ho.
Qed.

Lemma finalize_frame ob' s r s' :
  _finalize_native_recovery_claim ob' s = (r, s') ->
  core s' = core s /\ rv_workers s' = rv_workers s /\ (rv_budget s = None -> rv_budget s' = None)
  /\ (scoped (sv_app (rv_server s)) = false -> r = Ok true /\ s' = s)
  /\ rv_gate s' = rv_gate s /\ rv_paused s' = rv_paused s.
Proof.
  unfold _finalize_native_recovery_claim. destruct (scoped _) eqn:Hsc; cbn [negb]; [|intros [= <- <-]; done].
  unfold mbind, mlift. destruct (payload_session (ob_payload ob')) as [x|e]; [|intros [= <- <-]; done].
  destruct (durable s) as [r0 s0] eqn:Hd.
  apply durable_cases in Hd as [(-> & -> & _)|(-> & b & -> & Hb)]; [intros [= <- <-]; done|].
  unfold on_claims. destruct (_session_claim_store _) as [cl sv]. destruct (finalize_recovery _ _ _ _ cl) as [a cl'].
  intros [= <- <-]. done.
Qed.

(** What a flow achieves when nothing interrupts it. *)
Definition smooth (e : flow_env) (s : Recovery) : Prop :=
  rv_budget s = None /\ scoped (sv_app (rv_server s)) = false /\ fe_append e = WriteScript true [].
Definition delivered (s : Recovery) : Prop := bridge Enqueued 1 (core s) /\ is_Some (_workers (rv_workers s) !! sid).

Lemma mark_enqueued_step st c s r s' :
  bridge st c (core s) -> st ∈ [PendingEnqueue; Enqueued] ->
  mark_receipt (ob_handle ob) (or_ordinal (ob_origin ob)) Enqueued s = (r, s') ->
  (r = Err CancelledError /\ s' = s /\ rv_budget s = Some 0)
  \/ (r = Ok true /\ bridge Enqueued c (core s') /\ (rv_budget s = None -> rv_budget s' = None)
      /\ rv_server s' = rv_server s).
Proof.
  intros Hb Hst. unfold mark_receipt, mbind. destruct (on_db _ s) as [r0 s0] eqn:Hd.
  apply on_db_cases in Hd as [(-> & -> & Hz)|(-> & Hcore & Hbud & _ & Hsv & _)]; [intros [= <- <-]; by left|].
  unfold core in Hb. destruct (bridge_enqueued _ _ _ _ Hb Hst) as [Hm Hb']. rewrite Hm in Hcore |- *. cbn [fst snd mlift] in *.
  intros [= <- <-]. right. rewrite Hcore. done.
Qed.

Lemma spawn_step s : is_Some (_workers (rv_workers (on_workers (get_or_create (_recovery_worker_key sid)) s)) !! sid).
Proof. rewrite worker_key_id. cbn [rv_workers on_workers]. exact (proj1 (get_or_create_registers sid sid (rv_workers s))). Qed.

(** The append of a receipt, as it was requested or as the ledger stores it. *)
Lemma enqueue_step e ob' env' s r s' :
  tidy e -> deliverable ob' sid env' -> ob_handle ob' = ob_handle ob -> ob_origin ob' = ob_origin ob ->
  bridge PendingEnqueue 0 (core s) -> _enqueue_native_recovery_receipt e ob' s = (r, s') ->
  underway (core s') /\ (smooth e s -> r = Ok tt /\ delivered s').
Proof.
  intros Ht Hob' Hh Hor Hb. unfold _enqueue_native_recovery_receipt, mbind at 1.
  destruct (_finalize_native_recovery_claim _ s) as [r0 s0] eqn:Hf.
  apply finalize_frame in Hf as (Hc0 & _ & Hbud0 & Hcompat & _). rewrite <- Hc0 in Hb.
  destruct r0 as [ok|x]; [|intros [= <- <-]; split; [by left|]; intros (_ & Hsc & _); by destruct (Hcompat Hsc)].
  destruct ok; cbn [negb]; [|intros [= <- <-]; split; [by left|]; intros (_ & Hsc & _); by destruct (Hcompat Hsc)].
  unfold mbind at 1, mlift at 1. rewrite (dl_env _ _ _ Hob'). unfold mbind at 1, mlift at 1. rewrite (dl_env_session _ _ _ Hob').
  rewrite worker_key_id, Hh, Hor. unfold mbind at 1. destruct (on_dir _ s0) as [r1 s1] eqn:Hd.
  apply on_dir_cases in Hd as [(-> & -> & Hz)|(-> & Hc1 & Hbud1 & _ & Hsv & _)].
  { intros [= <- <-]. split; [by left|]. intros (Hn & _ & _). rewrite Hbud0 in Hz by done. done. }
  destruct (append_tidy e (rv_spool s0) _ Ht (dl_framed _ _ _ Hob')) as [Ha|[Ha Hne]]; rewrite Ha in Hc1 |- *; cbn [fst snd] in *.
  2:{ intros [= <- <-]. rewrite Hc1. split; [by left|]. by intros (_ & _ & Hw). }
  assert (Hsay : says (frame (json_dumps_compact (JObj env'))) = Some K) by (rewrite (dl_says _ _ _ Hob'); by rewrite Hh, Hor).
  apply (bridge_appended _ _ _ _ (dl_framed _ _ _ Hob') Hsay) in Hb. rewrite <- Hc1 in Hb.
  unfold mbind. destruct (mark_receipt _ _ _ s1) as [r2 s2] eqn:Hm.
  eapply mark_enqueued_step in Hm as [(-> & -> & Hz)|(-> & Hb2 & Hbud2 & _)]; [| |exact Hb|set_solver].
  { intros [= <- <-]. split; [right; by left|]. intros (Hn & _ & _). rewrite Hbud1 in Hz by auto. done. }
  cbn [mwhen mmodify]. intros [= <- <-]. split; [right; right; exact Hb2|]. intros _. split; [done|].
  split; [exact Hb2|]. pose proof (spawn_step s2) as Hw. by rewrite worker_key_id in Hw.
Qed.

(** The queue decides: an absent line is appended, a present one adopted. *)
Lemma bridge_step e aud st c s r s' :
  tidy e -> bridge PendingEnqueue c (core s) -> c <= 1 -> st <> RetryPending ->
  bridge_receipt e aud (with_state st ob) s = (r, s') ->
  underway (core s') /\ (smooth e s -> r = Ok tt /\ bridge Enqueued 1 (core s')).
Proof.
  intros Ht Hb Hc Hst. unfold bridge_receipt, mbind at 1, read_spool.
  change (ob_json (with_state st ob)) with (ob_json ob).
  pose proof (br_state _ _ _ Hb) as Hs. cbn [snd core] in Hs. rewrite Hs. cbn [ob_state with_state].
  unfold mbind at 1. rewrite decide_False by naive_solver. cbn [mret].
  destruct c as [|[|c]]; [| |lia]; cbn [decide decide_rel].
  - rewrite decide_True by done. intros He.
    eapply enqueue_step in He as [Hu Hsm]; [|done|apply deliverable_state|done|done|done]. split; [done|]. intros Hsmooth. by destruct (Hsm Hsmooth) as [-> [? _]].
  - rewrite decide_False by done. unfold mbind at 1, mark_ob.
    change (ob_handle (with_state st ob)) with (ob_handle ob). change (ob_origin (with_state st ob)) with (ob_origin ob).
    destruct (mark_receipt _ _ _ s) as [r1 s1] eqn:Hm.
    eapply mark_enqueued_step in Hm as [(-> & -> & Hz)|(-> & Hb1 & _ & _)]; [| |exact Hb|set_solver].
    + intros [= <- <-]. split; [right; by left|]. intros (Hn & _ & _). congruence.
    + change (ob_payload (with_state st ob)) with (ob_payload ob). unfold mbind, mlift. rewrite (dl_session _ _ _ Hob).
      cbn [mmodify]. intros [= <- <-]. split; [right; right; exact Hb1|]. intros _. split; [done|exact Hb1].
Qed.

Definition standing (st : rstate) (c : nat) : Prop := (st = PendingEnqueue /\ c <= 1) \/ (st = Enqueued /\ c = 1).

Lemma underway_standing x : underway x <-> exists st c, standing st c /\ bridge st c x.
Proof.
  split.
  - intros [Hb|[Hb|Hb]]; (eexists _, _; split; [|exact Hb]); unfold standing; [left; split; [done|lia]..|by right].
  - intros (st & c & [[-> Hc]|[-> ->]] & Hb); [|by right; right].
    destruct c as [|[|c]]; [by left|by right; left|lia].
Qed.

Lemma reconcile_step e b aud cap st c s r s' :
  tidy e -> standing st c -> bridge st c (core s) ->
  reconcile_receipt e b aud cap (with_state st ob) s = (r, s') ->
  underway (core s') /\ (smooth e s -> r = Ok tt /\ bridge Enqueued 1 (core s')).
Proof.
  intros Ht Hst Hb. unfold reconcile_receipt, mbind at 1.
  destruct (_finalize_native_recovery_claim _ s) as [r0 s0] eqn:Hf.
  apply finalize_frame in Hf as (Hc0 & _ & Hbud0 & Hcompat & _). rewrite <- Hc0 in Hb.
  assert (Hu : underway (core s0)) by (apply underway_standing; eauto).
  destruct r0 as [ok|x]; [|intros [= <- <-]; split; [done|]; intros (_ & Hsc & _); by destruct (Hcompat Hsc)].
  destruct ok; cbn [negb]; [|intros [= <- <-]; split; [done|]; intros (_ & Hsc & _); by destruct (Hcompat Hsc)].
  assert (Hsm : smooth e s -> smooth e s0) by (intros Hs; destruct Hs as (? & Hsc & ?); by destruct (Hcompat Hsc) as [_ ->]).
  unfold mbind at 1, read_spool at 1. change (ob_json (with_state st ob)) with (ob_json ob).
  pose proof (br_alive _ _ _ Hb) as Ha. cbn [snd core] in Ha. rewrite Ha. cbn [ob_state with_state].
  destruct Hst as [[-> Hc]|[-> ->]].
  - rewrite decide_False by done. rewrite (bool_decide_eq_false_2 (PendingEnqueue = RetryPending)) by done. cbn [andb].
    rewrite decide_False by done. intros He. eapply bridge_step in He as [Hu' Hd]; [|done|exact Hb|done|done].
    split; [done|]. intros. by apply Hd, Hsm.
  - rewrite decide_False by done. rewrite (bool_decide_eq_false_2 (Enqueued = RetryPending)) by done. cbn [andb].
    rewrite decide_True by done. unfold mbind at 1, read_spool.
    pose proof (br_state _ _ _ Hb) as Hs. cbn [snd core] in Hs. rewrite Hs.
    intros [= <- <-]. split; [done|]. done.
Qed.

Lemma reconcile_all_step e s r s' :
  tidy e -> underway (core s) -> _reconcile_native_recovery_outbox e s = (r, s') ->
  underway (core s') /\ (smooth e s -> r = Ok tt /\ bridge Enqueued 1 (core s')).
Proof.
  intros Ht Hu. apply underway_standing in Hu as (st & c & Hst & Hb).
  pose proof (br_outbox _ _ _ Hb) as Ho. cbn [fst core] in Ho.
  unfold _reconcile_native_recovery_outbox, _reconcile_native_recovery_outbox_under_quarantine_lock, mbind at 1, mget at 1.
  rewrite Ho. cbn [audit_snapshot]. change (ob_state (with_state st ob)) with st.
  rewrite decide_False by (destruct Hst as [[-> _]|[-> _]]; done). unfold mbind at 1, mret at 1.
  rewrite (bool_decide_eq_true_2 ([] = [])) by done. cbn [negb andb]. unfold mbind at 1, mget at 1.
  unfold _reconcile_native_recovery_outbox_unlocked, mbind at 1, mget at 1. rewrite Ho. cbn [mfor].
  unfold mbind. destruct (reconcile_receipt _ _ _ _ _ s) as [r1 s1] eqn:Hr.
  eapply reconcile_step in Hr as [Hu' Hd]; [|done|exact Hst|exact Hb].
  destruct r1 as [[]|x]; by intros [= <- <-].
Qed.

(** ** Any number of crashes *)

(** A restart: volatile state is lost; [n] durable effects until the next crash. *)
Definition reboot (n : option nat) (s : Recovery) : Recovery :=
  MkRecovery (rv_server s) (rv_ledger s) (rv_spool s) empty_registry (rv_paused s)
    (match rv_gate s with Some _ => Some [] | None => None end) n.

Definition crash_run (s : Recovery) (x : flow_env * nat) : Recovery :=
  snd (_reconcile_native_recovery_outbox x.1 (reboot (Some x.2) s)).

Lemma crash_runs_underway xs s :
  Forall (fun x => tidy x.1) xs -> underway (core s) -> underway (core (foldl crash_run s xs)).
Proof.
  intros Hx. revert s. induction Hx as [|x xs Ht _ IH]; intros s Hu; [done|]. cbn [foldl]. apply IH.
  unfold crash_run. destruct (_reconcile_native_recovery_outbox x.1 (reboot (Some x.2) s)) as [r s'] eqn:Hr.
  by eapply reconcile_all_step in Hr as [? _].
Qed.
End bridging.
