(* ===== verification/Delivery.v ===== *)
(** * Native recovery delivers an admitted event exactly once

    [bridged_once]: from the request on, through any number of crashes at any
    durable effect and any number of resumptions, the event of a receipt has at
    most one line in the recovery spool, and the first uninterrupted resumption
    makes it exactly one. *)
From stdpp Require Import base list gmap strings sorting.
From Stdlib Require Import ZArith Lia.
From S2P Require Import Prelude PyText Sha256 Utils Json JsonParse JsonIndent QueueFiles QueueManager QueueSpec Drain.
From S2P Require Import BlobKeys SessionClaims IdentityStore Authz Registry Auth Config Receipts ReceiptSpec RecoveryGate QueueBoot QueueBootSpec Ingest.
From S2P Require Import Payloads Startup Evidence EvidenceSpec Outbox OutboxSpec.

#[local] Open Scope string_scope.
#[local] Open Scope list_scope.

(** ** What can be delivered *)

Section wire_payloads.
Context `{FloatRepr, Timestamps}.

Lemma wire_dset k v o : utf8_valid (bytes_of k) = true -> wire v -> wire (JObj o) -> wire (JObj (dset k v o)).
Proof.
  intros Hk Hv. rewrite !wire_obj. intros [Hnd Ho]. split; [by apply NoDup_dset|]. by apply Forall_dset_record.
Qed.

Lemma wire_str s : utf8_valid (bytes_of s) = true -> wire (JStr s).
Proof. done. Qed.

(** A short ASCII tag before a digest. *)
Lemma tagged_utf8 p m : Forall (fun b => in_range 0 127 b = true) (bytes_of p) -> utf8_valid (bytes_of (p +:+ hex_of m)) = true.
Proof.
  intros Hp. apply ascii_valid. rewrite <- (str_of_bytes_of p). unfold hex_of. rewrite <- str_of_app, bytes_of_str_of.
  apply Forall_app. split; [done|]. eapply Forall_impl; [apply hexdigest_hex|]. cbn. intros b Hb%hex_ascii.
  unfold in_range. apply andb_true_iff. rewrite !Z.leb_le. lia.
Qed.

Lemma identity_ok payload h o :
  good_origin h o -> exists i, _recovery_event_identity payload h (or_ordinal o) = Ok i /\ utf8_valid (bytes_of i) = true.
Proof.
  intros (Hh & _ & Hn). unfold _recovery_event_identity.
  assert (Hd : exists i, recovery_event_identity h (or_ordinal o) = Ok i /\ utf8_valid (bytes_of i) = true).
  { unfold recovery_event_identity. rewrite Hh. destruct (Z.ltb_spec (or_ordinal o) 0); [lia|]. cbn [negb orb].
    eexists. split; [reflexivity|]. apply tagged_utf8. repeat constructor. }
  destruct (jget "idempotency_key" payload) as [| | | |[|c k]| |]; try exact Hd.
  eexists. split; [reflexivity|]. apply (tagged_utf8 "key-"). repeat constructor.
Qed.

Lemma origin_wire h o : good_origin h o -> wire (origin_json h o).
Proof.
  intros (Hh & Hl & Hn). apply wire_obj. split; [apply (bool_decide_eq_true_1 _); by vm_compute|].
  unfold origin_json, wire. rewrite !Forall_cons. cbn [fst snd json_ok floats_ok].
  split_and!; try done; first [by apply hex_utf8|by apply small_digits_ok].
Qed.

Lemma session_sanitized payload sid :
  payload_session payload = Ok sid -> payload_session (sanitized payload) = Ok sid.
Proof.
  unfold payload_session. rewrite dget_sanitized by done. destruct (dget "data" payload) as [[| | | | | |d]|]; try done.
  cbn [fmap option_fmap option_map]. rewrite sanitize_obj, dget_sanitized by done. by destruct (dget "session_id" d) as [[]|].
Qed.

Lemma session_sorted payload sid :
  wire (JObj payload) -> payload_session payload = Ok sid -> payload_session (sorted payload) = Ok sid.
Proof.
  intros Hw. pose proof Hw as [Hnd Ho]%wire_obj. unfold payload_session. rewrite dget_sorted by done.
  destruct (dget "data" payload) as [[| | | | | |d]|] eqn:Hd; try done. cbn [fmap option_fmap option_map].
  apply dget_elem in Hd. apply (proj1 (Forall_forall _ _) Ho) in Hd as [_ [Hnd' _]%wire_obj].
  rewrite sort_obj, dget_sorted by done. by destruct (dget "session_id" d) as [[]|].
Qed.

Lemma session_dset k v payload : k <> "data" -> payload_session (dset k v payload) = payload_session payload.
Proof. intros Hk. unfold payload_session. by rewrite dget_dset_ne. Qed.

Lemma deliverable_wire ob sid :
  good_origin (ob_handle ob) (ob_origin ob) -> wire (JObj (ob_payload ob)) -> utf8_valid (bytes_of (ob_actor ob)) = true ->
  payload_session (ob_payload ob) = Ok sid -> _validate_session_id sid = true ->
  exists env, deliverable ob sid env.
Proof.
  intros Ho Hw Ha Hs Hv. pose proof (wire_sanitize _ Hw) as Hw'. rewrite sanitize_obj in Hw'.
  set (payload := dset "_recovery_origin" (origin_json (ob_handle ob) (ob_origin ob))
                    (dset "created_by" (JStr (ob_actor ob)) (sanitized (ob_payload ob)))).
  destruct (identity_ok payload _ _ Ho) as (i & Hi & Hiu).
  exists (dset SPOOL_EVENT_IDENTITY (JStr i) payload).
  assert (Hwire : wire (JObj (dset SPOOL_EVENT_IDENTITY (JStr i) payload))).
  { apply wire_dset; [done|by apply wire_str|]. apply wire_dset; [done|by apply origin_wire|].
    apply wire_dset; [done|by apply wire_str|done]. }
  destruct Hwire as [Hj Hf]. split; try done.
  - unfold recovery_envelope. rewrite sanitize_obj. fold payload. by rewrite Hi.
  - unfold payload. rewrite !session_dset by done. by apply session_sanitized.
  - by apply json_dumps_compact_no_nl.
  - unfold says, frame, nl. rewrite (proj2 (loads_bytes_line _ Hj Hf)).
    unfold jget, payload. rewrite dget_dset_ne, dget_dset_eq by done. exact (proj2 (origin_valid _ _ Ho)).
Qed.

(** ** What the ledger holds after an admission *)

Definition stored (src : list (string * json)) (ob : Outbox) : Outbox :=
  MkOutbox (ob_handle ob) src (ob_origin ob) (ob_actor ob) (ob_workspace ob) (sorted (sanitized (ob_payload ob))) PendingEnqueue.

Lemma stored_deliverable ob sid src :
  good_origin (ob_handle ob) (ob_origin ob) -> wire (JObj (ob_payload ob)) -> utf8_valid (bytes_of (ob_actor ob)) = true ->
  payload_session (ob_payload ob) = Ok sid -> _validate_session_id sid = true ->
  exists env, deliverable (stored src ob) sid env.
Proof.
  intros Ho Hw Ha Hs Hv. pose proof (wire_sanitize _ Hw) as Hw1. rewrite sanitize_obj in Hw1.
  pose proof (wire_sort _ Hw1) as Hw2. rewrite sort_obj in Hw2.
  apply deliverable_wire; [done..| |done]. apply session_sorted; [done|]. by apply session_sanitized.
Qed.

Lemma no_pending_outbox db : any_pending (db_receipts db) = false -> pending_outbox db = [].
Proof.
  unfold pending_outbox, any_pending. induction (db_receipts db) as [|r rs IH]; [done|]. cbn [existsb omap list_omap].
  intros [Hr Hrs]%orb_false_iff. rewrite Hr. by apply IH.
Qed.

(** The descriptor stored for a handle is an object, as [_source_state] binds it. *)
Definition source_readable (h : string) (db : Ledger) : Prop :=
  forall dg text, dget h (db_sources db) = Some (dg, text) -> is_Some (obj_text text).

Lemma obj_text_sorted o : wire (JObj o) -> obj_text (sorted_dumps (JObj o)) = Some (sorted o).
Proof.
  intros [Hj Hf]%wire_sort. unfold obj_text, sorted_dumps. rewrite loads_compact by done. by rewrite sort_obj.
Qed.

Lemma admit_fresh ob lease need db a db' :
  wire (JObj (ob_payload ob)) -> wire (JObj (ob_source ob)) -> source_readable (ob_handle ob) db ->
  NoDup (map re_key (db_receipts db)) ->
  find_receipt (ob_handle ob) (or_ordinal (ob_origin ob)) (db_receipts db) = None ->
  admit_source (ob_handle ob) (JObj (ob_source ob)) (ob_origin ob) (ob_actor ob) (ob_workspace ob) (JObj (ob_payload ob)) lease need db
    = (a, db') ->
  (a <> Accepted /\ a <> AdmitDuplicate /\ db_receipts db' = db_receipts db)
  \/ (a = Accepted /\ NoDup (map re_key (db_receipts db')) /\ exists src, pending_outbox db' = [stored src ob]).
Proof.
  intros Hw Hws Hsrc Hnd Hnew. unfold admit_source.
  destruct (_source_state _ _ db) as [bad db0] eqn:Hst.
  assert (Hsame : db_receipts db0 = db_receipts db /\ (bad = false -> db0 = db)).
  { unfold _source_state in Hst. destruct (dget _ _) as [[x y]|]; [case_match|]; by simplify_eq. }
  destruct Hsame as [Hrs Hdb]. destruct bad; [intros [= <- <-]; by left|]. rewrite (Hdb eq_refl), Hnew.
  destruct (any_pending (db_receipts db)) eqn:Hp; [intros [= <- <-]; left; by rewrite ?Hrs|].
  match goal with |- context [match ?c with None => _ | Some _ => _ end] => destruct c as [leases|] end; [|intros [= <- <-]; by left].
  intros [= <- <-]. right. split; [done|]. split; cbn [db_receipts].
  - rewrite map_app. apply NoDup_app. split; [done|]. split; [|apply NoDup_singleton].
    intros x Hx Hx'. apply list_elem_of_singleton in Hx'. subst x. by apply find_receipt_None in Hnew.
  - pose proof (no_pending_outbox _ Hp) as Hold.
    pose proof (wire_sanitize _ Hw) as Hw1. rewrite sanitize_obj in Hw1.
    assert (Hrow : forall dg text src, obj_text text = Some src ->
      _pending_outbox_row text (MkReceipt (ob_handle ob) (or_ordinal (ob_origin ob)) (or_line (ob_origin ob)) (ob_actor ob)
        (ob_workspace ob) dg (sorted_dumps (sanitize_recovery_payload (JObj (ob_payload ob)))) PendingEnqueue) = Some (stored src ob)).
    { intros dg text src Ht. unfold _pending_outbox_row. cbn [re_payload]. rewrite Ht, sanitize_obj, obj_text_sorted by done.
      unfold stored, origin_of. cbn. by destruct (ob_origin ob). }
    unfold pending_outbox. cbn [db_receipts db_sources]. rewrite omap_app. cbn [omap list_omap re_state re_handle].
    change (pending PendingEnqueue) with true. cbn iota.
    assert (Hnil : forall f : Receipt -> option Outbox, (forall r, pending (re_state r) = false -> f r = None) ->
      omap f (db_receipts db) = []).
    { intros f Hf. clear -Hp Hf. unfold any_pending in Hp. induction (db_receipts db) as [|r rs IH]; [done|].
      cbn [existsb] in Hp. apply orb_false_iff in Hp as [Hr Hp]. cbn [omap list_omap]. rewrite (Hf r Hr). by apply IH. }
    rewrite Hnil by (intros r Hr; by rewrite Hr). cbn [app].
    destruct (dget (ob_handle ob) (db_sources db)) as [[dg text]|] eqn:Hg.
    + destruct (Hsrc _ _ Hg) as [src Ht]. exists src. by rewrite Hg, (Hrow _ _ _ Ht).
    + rewrite dget_app_new by done. exists (sorted (ob_source ob)). rewrite (Hrow _ _ _ (obj_text_sorted _ Hws)). done.
Qed.
End wire_payloads.

(** ** Exactly once *)

Section once.
Context `{FloatRepr, Timestamps}.

Lemma release_frame ob reserved s r s' : release_reservation ob reserved s = (r, s') -> core s' = core s.
Proof.
  unfold release_reservation. destruct reserved; [|by intros [= _ <-]].
  unfold mbind, mlift. destruct (payload_session _) as [sid|]; [|by intros [= _ <-]].
  destruct (durable s) as [r0 s0] eqn:Hd. apply durable_cases in Hd as [(-> & -> & _)|(-> & b & -> & _)]; [by intros [= _ <-]|].
  unfold on_claims. destruct (_session_claim_store _) as [cl sv]. destruct (release_recovery _ _ _ _ cl). by intros [= _ <-].
Qed.

(** A spool that has never seen the event. *)
Record unsent (ob : Outbox) (sid : string) (d : dir) : Prop := {
  us_count : count_says (okey_of (ob_handle ob) (ob_origin ob)) d = 0;
  us_queue : exists q, implements sid d q [];
  us_readable : offsets_readable d;
  us_alive : recovery_origin_is_dead (ob_json ob) d = Ok false;
}.

Lemma unsent_bridge ob src sid db d :
  good_origin (ob_handle ob) (ob_origin ob) -> unsent ob sid d -> NoDup (map re_key (db_receipts db)) ->
  pending_outbox db = [stored src ob] -> bridge (stored src ob) sid PendingEnqueue 0 (db, d).
Proof.
  intros Ho [Hc Hq Hr Ha] Hnd Hp. split; try done. cbn [snd]. rewrite decide_True by done.
  destruct (recovery_origin_commit_state (ob_json (stored src ob)) d) as [st|x] eqn:Hs.
  - f_equal. by apply (count_commit_state (ob_handle ob) (ob_origin ob) d).
  - by rewrite commit_state_ok in Hs.
Qed.

(** The request: it admits nothing, or leaves a delivery under way. *)
Lemma admit_step e ob sid reserved lease fails s r s' :
  good_origin (ob_handle ob) (ob_origin ob) -> wire (JObj (ob_payload ob)) -> wire (JObj (ob_source ob)) ->
  utf8_valid (bytes_of (ob_actor ob)) = true -> payload_session (ob_payload ob) = Ok sid -> _validate_session_id sid = true ->
  NoDup (map re_key (db_receipts (rv_ledger s))) -> source_readable (ob_handle ob) (rv_ledger s) ->
  find_receipt (ob_handle ob) (or_ordinal (ob_origin ob)) (db_receipts (rv_ledger s)) = None ->
  unsent ob sid (rv_spool s) -> tidy e -> _admit_native_recovery e ob reserved lease fails s = (r, s') ->
  (db_receipts (rv_ledger s') = db_receipts (rv_ledger s) /\ rv_spool s' = rv_spool s /\ r <> Ok Accepted)
  \/ exists src env, deliverable (stored src ob) sid env /\ underway (stored src ob) sid (core s').
Proof.
  intros Ho Hw Hws Hact Hsid Hv Hnd Hsr Hnew Hun Ht. unfold _admit_native_recovery, mbind at 1, mget at 1. unfold mbind at 1, mcatch.
  set (act := match fails with Some x => mraise x | None => _ end). destruct (act s) as [r0 s0] eqn:Hact0.
  assert (Hcase : (exists x, r0 = Err x /\ core s0 = core s)
    \/ (exists a, r0 = Ok a /\ a <> Accepted /\ a <> AdmitDuplicate
          /\ db_receipts (rv_ledger s0) = db_receipts (rv_ledger s) /\ rv_spool s0 = rv_spool s)
    \/ (r0 = Ok Accepted /\ exists src, bridge (stored src ob) sid PendingEnqueue 0 (core s0))).
  { unfold act in Hact0. clear act. destruct fails as [x|]; [injection Hact0 as <- <-; left; eauto|].
    apply on_db_cases in Hact0 as [(-> & -> & _)|(-> & Hc & _)]; [left; eauto|]. right.
    destruct (admit_source _ _ _ _ _ _ _ _ (rv_ledger s)) as [a db'] eqn:Hadm. cbn [fst snd] in *.
    injection Hc as Hl Hd. apply admit_fresh in Hadm as [(Ha1 & Ha2 & Hrs)|(-> & Hnd' & src & Hpo)]; [| |done..].
    - left. exists a. rewrite Hl. done.
    - right. split; [done|]. exists src. unfold core. rewrite Hl, Hd. by apply unsent_bridge. }
  clearbody act. destruct Hcase as [(x & -> & Hc)|[(a & -> & Ha1 & Ha2 & Hrs & Hd)|(-> & src & Hb)]].
  - injection Hc as Hl Hd. destruct (is_Exception x); [|intros [= <- <-]; left; by rewrite Hl].
    unfold mbind. destruct (release_reservation ob reserved s0) as [r1 s1] eqn:Hrel.
    apply release_frame in Hrel. injection Hrel as Hl1 Hd1.
    assert (Hx : s' = s1 /\ r <> Ok Accepted -> db_receipts (rv_ledger s') = db_receipts (rv_ledger s) /\ rv_spool s' = rv_spool s
                  /\ r <> Ok Accepted) by (intros [-> ?]; rewrite Hl1, Hl, Hd1; done).
    destruct r1 as [u|y]; intros [= <- <-]; left; by apply Hx.
  - destruct a; try done; unfold mbind; destruct (release_reservation ob reserved s0) as [r1 s1] eqn:Hrel;
      apply release_frame in Hrel; injection Hrel as Hl1 Hd1;
      (destruct r1 as [u|y]; intros [= <- <-]; left; rewrite Hl1, Hd1; done).
  - destruct (stored_deliverable ob sid src) as [env Hdel]; [done..|].
    destruct (deliverable_wire ob sid) as [env' Hdel']; [done..|].
    intros Hadm. right. exists src, env. split; [exact Hdel|]. revert Hadm. unfold mbind at 1.
    destruct (_finalize_native_recovery_claim ob s0) as [r1 s1] eqn:Hf. apply finalize_frame in Hf as (Hc & _).
    rewrite <- Hc in Hb. destruct r1 as [ok|x]; [|intros [= <- <-]; by left].
    destruct ok; cbn [negb]; [|intros [= <- <-]; by left].
    unfold mbind. destruct (_enqueue_native_recovery_receipt e ob s1) as [r2 s2] eqn:He.
    eapply (enqueue_step (stored src ob) sid env Hdel) in He as [Hu _]; [|done|exact Hdel'|done..].
    destruct r2 as [u|y]; intros [= <- <-]; exact Hu.
Qed.

(** C19: an admitted recovery event is spooled exactly once, as long as every append
    happens wholly or not at all ([tidy]).  The receipt is new, its payload is JSON
    text, its session a worker key, its source readable, and the spool has no trace
    of it.  Whatever interrupts the request (an error, or a crash between durable
    effects) and however many resumptions are themselves cut short, either nothing
    was admitted and the spool is as before, or the spool has at most one line of the
    event; and then the first resumption that runs to its end ([smooth]: no crash, an
    append that works, not in scoped mode) leaves exactly one, in the queue and not
    acknowledged, with the receipt marked enqueued.  A torn append is outside the
    claim: [torn_append_loses_event] shows what happens then. *)
Theorem bridged_once e ob sid reserved lease fails s r s1 xs :
  good_origin (ob_handle ob) (ob_origin ob) -> wire (JObj (ob_payload ob)) -> wire (JObj (ob_source ob)) ->
  utf8_valid (bytes_of (ob_actor ob)) = true -> payload_session (ob_payload ob) = Ok sid -> _validate_session_id sid = true ->
  NoDup (map re_key (db_receipts (rv_ledger s))) -> source_readable (ob_handle ob) (rv_ledger s) ->
  find_receipt (ob_handle ob) (or_ordinal (ob_origin ob)) (db_receipts (rv_ledger s)) = None ->
  unsent ob sid (rv_spool s) -> tidy e -> Forall (fun x => tidy x.1) xs ->
  _admit_native_recovery e ob reserved lease fails s = (r, s1) ->
  (db_receipts (rv_ledger s1) = db_receipts (rv_ledger s) /\ rv_spool s1 = rv_spool s /\ r <> Ok Accepted)
  \/ (let s2 := foldl crash_run s1 xs in
      let K := okey_of (ob_handle ob) (ob_origin ob) in
      count_says K (rv_spool s2) <= 1
      /\ forall e2, smooth e2 (reboot None s2) ->
         let '(r3, s3) := _reconcile_native_recovery_outbox e2 (reboot None s2) in
         r3 = Ok tt /\ count_says K (rv_spool s3) = 1
         /\ recovery_origin_commit_state (ob_json ob) (rv_spool s3) = Ok (Some InQueue)
         /\ exists row, find_receipt (ob_handle ob) (or_ordinal (ob_origin ob)) (db_receipts (rv_ledger s3)) = Some row
                        /\ re_state row = Enqueued).
Proof.
  intros Ho Hw Hws Hact Hsid Hv Hnd Hsr Hnew Hun Ht Hxs Hadm.
  apply (admit_step e ob sid) in Hadm as [?|(src & env & Hdel & Hu)]; [by left| |done..]. right. cbv zeta.
  apply (crash_runs_underway _ _ _ Hdel xs s1 Hxs) in Hu. set (s2 := foldl crash_run s1 xs) in *. split.
  - destruct Hu as [Hb|[Hb|Hb]]; pose proof (br_count _ _ _ _ _ Hb) as Hcount; cbn [snd core] in Hcount;
      change (ob_handle (stored src ob)) with (ob_handle ob) in Hcount;
      change (ob_origin (stored src ob)) with (ob_origin ob) in Hcount; lia.
  - intros e2 Hsm. destruct (_reconcile_native_recovery_outbox e2 _) as [r3 s3] eqn:Hr.
    assert (Ht2 : tidy e2) by (left; apply Hsm).
    eapply (reconcile_all_step _ _ _ Hdel) in Hr as [_ Hd]; [|done|exact Hu].
    destruct (Hd Hsm) as [-> [Hpo Hk Hc _ Hs _]]. cbn [fst snd core] in *. repeat (split; [done|]).
    destruct (outbox_row (rv_ledger s3) (with_state Enqueued (stored src ob)) Hk) as (row & Hf & Hst & _); [rewrite Hpo; left|].
    exists row. done.
Qed.
End once.

(** ** Witness *)

Definition sha_of (s : string) : string := hex_of (bytes_of s).
Definition demo_source_handle : string := sha_of "capture".
Definition demo_capture : Origin := MkOrigin 7 (sha_of "line 7").
Definition captured_payload : list (string * json) :=
  [("event", JStr "tool:pre"); ("workspace", JStr "w");
   ("data", JObj [("session_id", JStr "s1"); ("working_dir", JStr "/home/a"); ("timestamp", JStr "2026-01-01T00:00:00")])].
Definition demo_ob : Outbox :=
  MkOutbox demo_source_handle (source_dump (MkSource "s1" (sha_of "stream") (sha_of "source") 9)) demo_capture "alice" "w"
    captured_payload PendingEnqueue.
Definition demo_flow : flow_env :=
  MkFlow works works CommitOk (MkArchive (fun _ => works) (fun _ => CommitOk) (fun _ => "u")) "u" "0.0".
(** Permit mode; the process dies after [n] durable effects. *)
Definition demo_recovery (n : nat) : Recovery := MkRecovery demo_server empty_ledger ∅ empty_registry false (Some []) (Some n).

Lemma captured_wire : @wire plain_float (JObj captured_payload) /\ @wire plain_float (JObj (ob_source demo_ob)).
Proof. unfold captured_payload, demo_ob, source_dump. cbn [ob_source ns_session ns_stream ns_sha ns_count]. split; wire_lit. Qed.

Lemma captured_unsent : @unsent plain_float demo_ob "s1" ∅.
Proof.
  split; try by vm_compute.
  - exists (AQ [] 0). split; try by vm_compute. apply not_elem_of_nil.
  - intros log Hl. apply elem_of_logs in Hl as [_ [x Hx]]. by rewrite lookup_empty in Hx.
Qed.

Lemma captured_origin : good_origin demo_source_handle demo_capture.
Proof. split; [vm_compute; reflexivity|]. split; [vm_compute; reflexivity|]. vm_compute. split; discriminate. Qed.

(** The process dies between the append and the mark, and again on the first resumption. *)
Definition cut_short : result admission * Recovery :=
  @_admit_native_recovery plain_float demo_flow demo_ob false None None (demo_recovery 2).
Definition resumed : Recovery := foldl (@crash_run plain_float) (snd cut_short) [(demo_flow, 0)].

Lemma bridged_once_witness :
  fst cut_short = Err CancelledError
  /\ @count_says plain_float (okey_of demo_source_handle demo_capture) (rv_spool resumed) <= 1
  /\ fst (@_reconcile_native_recovery_outbox plain_float demo_flow (reboot None resumed)) = Ok tt.
Proof.
  assert (Hc : fst cut_short = Err CancelledError) by (vm_compute; reflexivity).
  assert (Hlen : length (db_receipts (rv_ledger (snd cut_short))) = 1) by (vm_compute; reflexivity).
  assert (Hsc : scoped (sv_app (rv_server resumed)) = false) by (vm_compute; reflexivity).
  split; [exact Hc|].
  destruct (@bridged_once plain_float demo_flow demo_ob "s1" false None None (demo_recovery 2) (fst cut_short) (snd cut_short)
    [(demo_flow, 0)]) as [[Hrs _]|[Hle Hend]].
  - apply captured_origin.
  - apply captured_wire.
  - apply captured_wire.
  - done.
  - by vm_compute.
  - by vm_compute.
  - apply NoDup_nil_2.
  - intros dg text Hg. discriminate.
  - done.
  - apply captured_unsent.
  - by left.
  - by repeat constructor.
  - apply surjective_pairing.
  - rewrite Hrs in Hlen. clear -Hlen. vm_compute in Hlen. discriminate Hlen.
  - split; [exact Hle|]. specialize (Hend demo_flow (conj eq_refl (conj Hsc eq_refl))). fold resumed in Hend.
    destruct (_reconcile_native_recovery_outbox _ _) as [r3 s3]. apply Hend.
Defined.

(** ** A torn append

    The first append breaks off inside the line and the newline that would end the
    fragment fails too.  The resumption finds no line of the event, appends the line
    behind the fragment and marks the receipt enqueued, but no line of the log names
    the event: the drainer will read one line that is not JSON. *)
Definition torn_flow : flow_env :=
  MkFlow (WriteScript true [Wrote 5; WriteErr; WriteErr]) works CommitOk
    (MkArchive (fun _ => works) (fun _ => CommitOk) (fun _ => "u")) "u" "0.0".
Definition torn_request : result admission * Recovery :=
  @_admit_native_recovery plain_float torn_flow demo_ob false None None
    (MkRecovery demo_server empty_ledger ∅ empty_registry false (Some []) None).
Definition torn_resumed : result unit * Recovery :=
  @_reconcile_native_recovery_outbox plain_float demo_flow (reboot None (snd torn_request)).

Example torn_append_loses_event :
  fst torn_request = Err OSError /\ fst torn_resumed = Ok tt
  /\ map re_state (db_receipts (rv_ledger (snd torn_resumed))) = [Enqueued]
  /\ @count_says plain_float (okey_of demo_source_handle demo_capture) (rv_spool (snd torn_resumed)) = 0
  /\ length (raw_lines (file_content (rv_spool (snd torn_resumed)) (_log_path "s1"))) = 1.
Proof. vm_compute. auto. Qed.
