(* ===== verification/Settlement.v ===== *)
(** * Native recovery settles a receipt on evidence

    [dead_letter_stops_delivery]: an event whose record was dead-lettered is never
    appended again, and its receipt ends quarantined.  [retry_needs_audit]: the
    acknowledgement of an old delivery is never taken for a retry's.
    [torn_body_stalls]: a line that lacks only its newline counts as queued although
    no drainer ever reads it. *)
From stdpp Require Import base list gmap strings sorting.
From Stdlib Require Import ZArith Lia.
From S2P Require Import Prelude PyText Sha256 Utils Json JsonParse JsonIndent QueueFiles QueueManager QueueSpec Drain.
From S2P Require Import BlobKeys SessionClaims IdentityStore Authz Registry Auth Config Receipts ReceiptSpec RecoveryGate QueueBoot QueueBootSpec Ingest.
From S2P Require Import Payloads Startup Evidence EvidenceSpec Outbox OutboxSpec Delivery.

#[local] Open Scope string_scope.
#[local] Open Scope list_scope.

(** ** Searching evidence *)

Lemma first_match_not_false {A} (f : A -> result bool) l x : x ∈ l -> f x <> Ok false -> first_match f l <> Ok false.
Proof.
  intros Hin Hx. induction l as [|y l IH]; [by apply elem_of_nil in Hin|]. cbn [first_match].
  apply elem_of_cons in Hin as [->|Hin]; [by destruct (f y) as [[]|]|]. destruct (f y) as [[]|]; [done|by apply IH|done].
Qed.

Lemma first_match_false {A} (f : A -> result bool) l : first_match f l = Ok false -> forall x, x ∈ l -> f x = Ok false.
Proof.
  intros Hf x Hx. destruct (f x) as [[]|e] eqn:Hfx; [|done|]; destruct (first_match_not_false f l x Hx); congruence.
Qed.

Lemma first_match_found {A} (f : A -> result bool) l x :
  (forall y, y ∈ l -> exists b, f y = Ok b) -> x ∈ l -> f x = Ok true -> first_match f l = Ok true.
Proof.
  induction l as [|y l IH]; intros Hall Hin Hx; [by apply elem_of_nil in Hin|]. cbn [first_match].
  destruct (Hall y) as [b Hb]; [left|]. rewrite Hb. cbn [rbind]. destruct b; [done|].
  apply elem_of_cons in Hin as [->|Hin]; [congruence|]. apply IH; [|done..]. intros z Hz. apply Hall. by right.
Qed.

Section evidence.
Context `{FloatRepr}.

(** Text that parses is UTF-8. *)
Lemma loads_bytes_utf8 b v : loads_bytes b = Ok v -> utf8_valid b = true.
Proof. unfold loads_bytes, utf8_valid. by destruct (utf8_decode b). Qed.

(** What names an origin has it. *)
Lemma says_inv b K :
  says b = Some K -> exists env o, loads_bytes b = Ok (JObj env) /\ dget "_recovery_origin" env = Some o
    /\ normalized_recovery_origin o = Some K /\ _is_valid_recovery_origin o = true.
Proof.
  unfold says. destruct (loads_bytes b) as [v|] eqn:Hl; [|done]. destruct v as [| | | | | |env]; try done. unfold jget.
  destruct (dget "_recovery_origin" env) as [o|] eqn:Hg; [|done]. intros Hn. exists env, o. split_and!; try done.
  revert Hn. unfold normalized_recovery_origin. by destruct (_is_valid_recovery_origin o).
Qed.

(** The dead letter of a line is recognised. *)
Lemma dead_record_matches h o r ts error :
  good_origin h o -> framed r -> says r = Some (okey_of h o) ->
  float_ok ts -> Forall printable (bytes_of ts) -> utf8_valid (bytes_of error) = true ->
  dead_matches (sorted_dumps (origin_json h o)) (frame (json_dumps (dead_record ts error r))) = Ok true.
Proof.
  intros Ho Hr Hs Hts Hpr Herr. destruct (says_inv _ _ Hs) as (env & v & Hl & Hg & Hn & Hv).
  pose proof (loads_bytes_utf8 _ _ Hl) as Hu.
  assert (Hf : floats_ok (dead_record ts error r) = true).
  { unfold dead_record. rewrite ends_nl_framed, Hu by done. cbn [floats_ok forallb snd]. rewrite bool_decide_eq_true_2; [done|].
    eapply Forall_impl; [exact Hpr|]. intros b Hb. by apply in_range_spec. }
  unfold dead_matches, _decode_dead_letter, frame, nl.
  rewrite (proj1 (loads_bytes_line _ (dead_record_ok ts error r Hts Herr Hr) Hf)). unfold dead_record.
  rewrite ends_nl_framed, Hu by done. change (jget "payload" _) with (JStr (str_of r)). unfold loads_str.
  rewrite bytes_of_str_of, Hl, Hg, Hv. cbn [rbind]. rewrite matches_says by done. unfold jget. rewrite Hg, Hn.
  by rewrite bool_decide_eq_true_2.
Qed.

(** A dead file with one record more. *)
Lemma evidence_snoc content t c t' :
  complete content -> framed t -> t = c :: t' -> bytes_blank [c] = false ->
  fst (_complete_lines (content ++ frame t)) = fst (_complete_lines content) ++ [frame t].
Proof.
  intros (rs & Hrs & ->) Ht Heq Hc. unfold frame at 1. rewrite <- encode_snoc. unfold _complete_lines.
  rewrite <- (app_nil_r (encode (rs ++ [t]))), <- (app_nil_r (encode rs)).
  assert (Hnil : framed []) by apply not_elem_of_nil.
  rewrite !split_lines_encode; [|done..|apply Forall_app; split; [done|by constructor]|done]. cbn [fst].
  rewrite filter_app, map_app, filter_cons_True; [done|]. rewrite Heq. cbn in Hc |- *.
  rewrite andb_true_r in Hc. by rewrite Hc.
Qed.

Section lettered.
Variables (k : string) (d d1 : dir) (h : string) (o : Origin) (r : bytes) (ts error : string) (sc : write_script).
Hypotheses (Ho : good_origin h o) (Hr : framed r) (Hsay : says r = Some (okey_of h o)).
Hypotheses (Hts : float_ok ts) (Hpr : Forall printable (bytes_of ts)) (Herr : utf8_valid (bytes_of error) = true).
Hypothesis (Hfile : complete (file_content d (_dead_path k))).
Hypothesis (Hdl : dead_letter k r ts error sc d = (Ok tt, d1)).

Notation line := (json_dumps (dead_record ts error r)).

Lemma lettered_dir : d1 = <[_dead_path k := file_content d (_dead_path k) ++ frame line]> d.
Proof.
  unfold dead_letter in Hdl. destruct (_validate_session_id k); [|done].
  apply write_record_shape in Hdl as [[_ ->]|[[? _]|[? _]]]; done.
Qed.

Lemma line_framed : framed line.
Proof.
  apply dead_record_no_nl. eapply Forall_impl; [exact Hpr|]. intros b Hb. by apply in_range_spec.
Qed.

Lemma lettered_read : _read_evidence d1 (_dead_path k) = _read_evidence d (_dead_path k) ++ [frame line].
Proof.
  unfold _read_evidence. rewrite lettered_dir, file_content_insert_eq.
  destruct (dumps_starts (match dead_record ts error r with JObj o => o | _ => [] end)) as [t' Hhead].
  apply (evidence_snoc _ _ Byte.x7b t'); [done|apply line_framed|exact Hhead|reflexivity].
Qed.

Lemma lettered_listed : _dead_path k ∈ _evidence_files ".dead.jsonl" d1.
Proof.
  apply elem_of_py_sorted, list_elem_of_filter. split; [apply str_ends_with_app|]. apply elem_of_dir_names.
  rewrite lettered_dir, lookup_insert_eq. eauto.
Qed.

Lemma lettered_dead :
  recovery_origin_is_dead (origin_json h o) d1 <> Ok false
  /\ (recovery_origin_is_dead (origin_json h o) d = Ok false -> recovery_origin_is_dead (origin_json h o) d1 = Ok true).
Proof.
  pose proof (dead_record_matches h o r ts error Ho Hr Hsay Hts Hpr Herr) as Hm.
  assert (Hin : frame line ∈ _read_evidence d1 (_dead_path k)) by (rewrite lettered_read; apply elem_of_app; right; left).
  unfold recovery_origin_is_dead. set (test := dead_matches (sorted_dumps (origin_json h o))). split.
  - apply (first_match_not_false _ _ _ lettered_listed), (first_match_not_false _ _ _ Hin). unfold test. by rewrite Hm.
  - intros Hno.
    assert (Hold : forall p x, x ∈ _read_evidence d p -> p ∈ _evidence_files ".dead.jsonl" d -> test x = Ok false).
    { intros p x Hx Hp. by eapply first_match_false; [eapply (first_match_false _ _ Hno p Hp)|]. }
    assert (Habs : _dead_path k ∉ _evidence_files ".dead.jsonl" d -> _read_evidence d (_dead_path k) = []).
    { intros Hn. unfold _read_evidence, file_content. destruct (d !! _dead_path k) eqn:Hl; [|done]. destruct Hn.
      apply elem_of_py_sorted, list_elem_of_filter. split; [apply str_ends_with_app|]. apply elem_of_dir_names. eauto. }
    assert (Hall : forall x, x ∈ _read_evidence d1 (_dead_path k) -> exists b, test x = Ok b).
    { intros x. rewrite lettered_read, elem_of_app, list_elem_of_singleton. intros [Hx| ->]; [|eauto].
      destruct (decide (_dead_path k ∈ _evidence_files ".dead.jsonl" d)) as [Hp|Hp]; [eauto|].
      rewrite (Habs Hp) in Hx. by apply elem_of_nil in Hx. }
    apply (first_match_found _ _ (_dead_path k)); [|apply lettered_listed|by apply (first_match_found _ _ (frame line))].
    intros p Hp. destruct (decide (p = _dead_path k)) as [->|Hne];
      [exists true; by apply (first_match_found _ _ (frame line))|].
    exists false. unfold _read_evidence, file_content. rewrite lettered_dir, lookup_insert_ne by congruence.
    apply (first_match_false _ _ Hno p). apply elem_of_py_sorted, list_elem_of_filter.
    apply elem_of_py_sorted, list_elem_of_filter in Hp as [Hsuf Hp]. split; [done|]. apply elem_of_dir_names.
    apply elem_of_dir_names in Hp. by rewrite lettered_dir, lookup_insert_ne in Hp by congruence.
Qed.
End lettered.
End evidence.

(** ** Settling a receipt *)

Section settling.
Context `{FloatRepr, Timestamps}.

Notation row ob s := (find_receipt (ob_handle ob) (or_ordinal (ob_origin ob)) (db_receipts (rv_ledger s))).

(** Marking a receipt that is outstanding. *)
Lemma mark_ob_step ob st s r s' :
  NoDup (map re_key (db_receipts (rv_ledger s))) -> ob ∈ pending_outbox (rv_ledger s) -> mark_ob ob st s = (r, s') ->
  (r = Err CancelledError /\ s' = s /\ rv_budget s = Some 0)
  \/ (rv_spool s' = rv_spool s /\ r = Ok (bool_decide (ob_state ob ∈ allowed_previous st))
      /\ exists x x', row ob s = Some x /\ row ob s' = Some x' /\ re_state x = ob_state ob
         /\ re_state x' = if decide (ob_state ob ∈ allowed_previous st) then st else ob_state ob).
Proof.
  intros Hnd Hin. unfold mark_ob, mark_receipt, mbind. destruct (on_db _ s) as [r0 s0] eqn:Hd.
  destruct (outbox_row _ _ Hnd Hin) as (x & Hf & Hs & _ & _).
  apply on_db_cases in Hd as [(-> & -> & Hz)|(-> & Hc & _)]; [intros [= <- <-]; by left|].
  rewrite (mark_row _ _ st Hnd Hin) in Hc |- *. cbn [fst snd mlift] in *. injection Hc as Hl Hd.
  intros [= <- <-]. right. split; [done|]. split; [done|]. rewrite Hl. cbn [db_receipts with_receipts].
  unfold update_where. rewrite find_map, Hf by (intros y; by destruct (_ && _)). eexists x, _. split_and!; try done.
  rewrite (bool_decide_eq_true_2 (re_key x = _)) by (by eapply find_key). cbn [andb]. rewrite Hs.
  case_bool_decide; case_decide; try done.
Qed.

(** C20: an event whose record was dead-lettered is never delivered again.  Once its
    line is in a dead-letter file, no reconciliation of its receipt, whatever the
    receipt's state, its retry evidence or the interruptions, touches the spool; the
    receipt stays as it was or becomes quarantined, and it does become quarantined
    when the evidence was readable and nothing interferes. *)
Theorem dead_letter_stops_delivery k d ob raw ts error sc e bridging aud cap s r s' :
  good_origin (ob_handle ob) (ob_origin ob) -> framed raw -> says raw = Some (okey_of (ob_handle ob) (ob_origin ob)) ->
  float_ok ts -> Forall printable (bytes_of ts) -> utf8_valid (bytes_of error) = true ->
  complete (file_content d (_dead_path k)) -> dead_letter k raw ts error sc d = (Ok tt, rv_spool s) ->
  NoDup (map re_key (db_receipts (rv_ledger s))) -> ob ∈ pending_outbox (rv_ledger s) ->
  reconcile_receipt e bridging aud cap ob s = (r, s') ->
  rv_spool s' = rv_spool s
  /\ (exists x', row ob s' = Some x' /\ re_state x' ∈ [ob_state ob; Quarantined])
  /\ (recovery_origin_is_dead (ob_json ob) d = Ok false -> rv_budget s = None -> scoped (sv_app (rv_server s)) = false ->
      r = Ok tt /\ exists x', row ob s' = Some x' /\ re_state x' = Quarantined).
Proof.
  intros Ho Hf Hsay Hts Hpr Herr Hfile Hdl Hnd Hin.
  destruct (lettered_dead k d (rv_spool s) _ _ raw ts error sc Ho Hf Hsay Hts Hpr Herr Hfile Hdl) as [Hnot Hyes].
  destruct (outbox_row _ _ Hnd Hin) as (x & Hx & Hxs & _ & Hpend).
  assert (Hq : ob_state ob ∈ allowed_previous Quarantined).
  { unfold pending in Hpend. apply bool_decide_eq_true in Hpend. revert Hpend. unfold _PENDING. cbn. set_solver. }
  unfold reconcile_receipt, mbind at 1. destruct (_finalize_native_recovery_claim ob s) as [r0 s0] eqn:Hfin.
  apply finalize_frame in Hfin as (Hc & _ & Hbud & Hcompat & _). injection Hc as Hl Hd.
  assert (Hkeep : rv_spool s0 = rv_spool s /\ exists x', row ob s0 = Some x' /\ re_state x' ∈ [ob_state ob; Quarantined]).
  { split; [done|]. exists x. rewrite Hl. split; [done|]. rewrite Hxs. left. }
  destruct r0 as [ok|y]; [|intros [= <- <-]; destruct Hkeep; split_and!; try done; intros _ _ Hsc; by destruct (Hcompat Hsc)].
  destruct ok; cbn [negb]; [|intros [= <- <-]; destruct Hkeep; split_and!; try done; intros _ _ Hsc; by destruct (Hcompat Hsc)].
  unfold mbind at 1, read_spool at 1. rewrite Hd. unfold ob_json in Hyes |- *.
  destruct (recovery_origin_is_dead _ (rv_spool s)) as [dead|y]; cbn beta iota.
  2:{ intros [= <- <-]. destruct Hkeep. split_and!; try done. intros Hb. by specialize (Hyes Hb). }
  destruct dead; [|done]. unfold mbind. destruct (mark_ob ob Quarantined s0) as [r1 s1] eqn:Hm.
  apply mark_ob_step in Hm as [(-> & -> & Hz)|(Hsp & -> & x1 & x' & _ & Hx' & _ & Hst)]; [..|by rewrite Hl|by rewrite Hl].
  - intros [= <- <-]. destruct Hkeep. split_and!; try done. intros _ Hb. rewrite Hbud in Hz by done. done.
  - rewrite decide_True in Hst by done. intros [= <- <-]. split; [congruence|]. split; [|eauto].
    exists x'. split; [done|]. rewrite Hst. right. left.
Qed.

(** The ledger is as before, or the receipt moved to [st]. *)
Definition moved (ob : Outbox) (st : rstate) (s s' : Recovery) : Prop :=
  rv_ledger s' = rv_ledger s \/ exists x', row ob s' = Some x' /\ re_state x' = st.

Lemma mark_ob_moved ob st s r s' :
  NoDup (map re_key (db_receipts (rv_ledger s))) -> ob ∈ pending_outbox (rv_ledger s) ->
  ob_state ob ∈ allowed_previous st -> mark_ob ob st s = (r, s') -> moved ob st s s'.
Proof.
  intros Hnd Hin Hst Hm. apply mark_ob_step in Hm as [(_ & -> & _)|(_ & _ & x & x' & _ & Hx' & _ & Hs)]; [by left| |done..].
  right. exists x'. by rewrite decide_True in Hs.
Qed.

Lemma enqueue_moved e ob s r s' :
  NoDup (map re_key (db_receipts (rv_ledger s))) -> ob ∈ pending_outbox (rv_ledger s) ->
  ob_state ob ∈ allowed_previous Enqueued -> _enqueue_native_recovery_receipt e ob s = (r, s') -> moved ob Enqueued s s'.
Proof.
  intros Hnd Hin Hst. unfold _enqueue_native_recovery_receipt, mbind at 1.
  destruct (_finalize_native_recovery_claim ob s) as [r0 s0] eqn:Hf. apply finalize_frame in Hf as (Hc & _). injection Hc as Hl _.
  unfold moved. rewrite <- Hl in Hnd, Hin |- *. clear Hl.
  destruct r0 as [[]|]; cbn [negb mret]; try (intros [= _ <-]; by left).
  unfold mbind at 1, mlift at 1. destruct (recovery_envelope ob) as [env|]; [|intros [= _ <-]; by left].
  unfold mbind at 1, mlift at 1. destruct (payload_session env) as [sid|]; [|intros [= _ <-]; by left].
  unfold mbind at 1. destruct (on_dir _ s0) as [r1 s1] eqn:Hd.
  assert (Hl : rv_ledger s1 = rv_ledger s0) by (apply on_dir_cases in Hd as [(_ & -> & _)|(_ & Hc & _)]; [done|by injection Hc]).
  rewrite <- Hl in Hnd, Hin |- *. destruct r1; [|intros [= _ <-]; by left].
  unfold mbind. destruct (mark_receipt _ _ _ s1) as [r2 s2] eqn:Hm.
  pose proof (mark_ob_moved ob Enqueued s1 r2 s2 Hnd Hin Hst Hm) as Hmv.
  destruct r2 as [[]|]; cbn [mwhen mret mmodify]; by intros [= _ <-].
Qed.

Lemma bridge_moved e aud ob s r s' :
  NoDup (map re_key (db_receipts (rv_ledger s))) -> ob ∈ pending_outbox (rv_ledger s) -> ob_state ob = RetryPending ->
  bridge_receipt e aud ob s = (r, s') -> moved ob Enqueued s s'.
Proof.
  intros Hnd Hin Hst. assert (Ha : ob_state ob ∈ allowed_previous Enqueued) by (rewrite Hst; cbn; set_solver).
  unfold bridge_receipt, mbind at 1, read_spool. destruct (recovery_origin_commit_state _ _) as [found|]; [|intros [= _ <-]; by left].
  unfold mbind at 1. rewrite Hst.
  destruct (decide (RetryPending = RetryPending /\ found = Some Consumed)) as [_|Hf].
  - destruct (bool_decide _); [|intros [= _ <-]; by left]. cbn [mret]. by apply enqueue_moved.
  - cbn [mret]. destruct found as [[]|]; [|naive_solver|by apply enqueue_moved].
    unfold mbind at 1. destruct (mark_ob ob Enqueued s) as [r1 s1] eqn:Hm.
    pose proof (mark_ob_moved _ _ _ _ _ Hnd Hin Ha Hm) as Hmv.
    destruct r1 as [[]|]; [|by intros [= _ <-]..]. unfold mbind, mlift.
    destruct (payload_session _); by intros [= _ <-].
Qed.

(** A retry is settled by its own delivery only.  Reconciling a receipt the operator
    asked to retry never marks it written, whatever the queue shows of the old
    delivery; and when that delivery is consumed but its archived dead letter is
    missing, the receipt and the spool stay as they are and, for a receipt captured
    before the admission decision, the flow fails instead of guessing. *)
Theorem retry_needs_audit e bridging aud cap ob s r s' :
  NoDup (map re_key (db_receipts (rv_ledger s))) -> ob ∈ pending_outbox (rv_ledger s) -> ob_state ob = RetryPending ->
  reconcile_receipt e bridging aud cap ob s = (r, s') ->
  (exists x', row ob s' = Some x' /\ re_state x' ∈ [RetryPending; Enqueued; Quarantined])
  /\ (sorted_dumps (ob_json ob) ∉ aud -> recovery_origin_is_dead (ob_json ob) (rv_spool s) = Ok false ->
      recovery_origin_commit_state (ob_json ob) (rv_spool s) = Ok (Some Consumed) ->
      core s' = core s
      /\ (bridging = true -> sorted_dumps (ob_json ob) ∈ cap -> scoped (sv_app (rv_server s)) = false -> r = Err ValueError)).
Proof.
  intros Hnd Hin Hst. destruct (outbox_row _ _ Hnd Hin) as (x & Hx & Hxs & _ & _).
  assert (Hmoved : forall st s', moved ob st s s' -> st ∈ [RetryPending; Enqueued; Quarantined] ->
            exists x', row ob s' = Some x' /\ re_state x' ∈ [RetryPending; Enqueued; Quarantined]).
  { intros st s'' [Hl|(x' & Hx' & <-)] Hs; [|eauto]. exists x. rewrite Hl, Hxs, Hst. split; [done|left]. }
  unfold reconcile_receipt, mbind at 1. destruct (_finalize_native_recovery_claim ob s) as [r0 s0] eqn:Hf.
  apply finalize_frame in Hf as (Hc & _ & _ & Hcompat & _). pose proof Hc as [= Hl Hd].
  assert (Hsame : exists x', row ob s0 = Some x' /\ re_state x' ∈ [RetryPending; Enqueued; Quarantined]).
  { apply (Hmoved RetryPending); [by left|left]. }
  destruct r0 as [[]|y]; cbn [negb mret];
    try (intros [= <- <-]; split; [done|]; intros _ _ _; split; [done|]; intros _ _ Hsc; by destruct (Hcompat Hsc)).
  assert (Hmoved0 : forall st s', moved ob st s0 s' -> moved ob st s s') by (unfold moved; by rewrite Hl).
  rewrite <- Hl in Hnd, Hin. rewrite <- Hd.
  unfold mbind at 1, read_spool at 1. destruct (recovery_origin_is_dead _ _) as [[]|];
    [| |intros [= <- <-]; split; [done|]; by intros _ Hx0].
  { unfold mbind. destruct (mark_ob ob Quarantined s0) as [r1 s1] eqn:Hm.
    apply mark_ob_moved in Hm; [|done|done|rewrite Hst; cbn; set_solver].
    destruct r1; intros [= <- <-]; (split; [apply (Hmoved Quarantined); [by apply Hmoved0|set_solver]|by intros _ Hx0]). }
  rewrite Hst, (decide_False (P := RetryPending = CommittedPending)), (bool_decide_eq_true_2 (RetryPending = _)) by done. cbn [andb].
  destruct (bridging && bool_decide (sorted_dumps (ob_json ob) ∈ cap)) eqn:Hcap; cbn [negb mret].
  2:{ intros [= <- <-]. split; [done|]. intros _ _ _. split; [done|]. intros -> Hi _. by rewrite bool_decide_eq_true_2 in Hcap. }
  rewrite decide_False by done. intros Hb. split.
  { apply (Hmoved Enqueued); [|set_solver]. apply Hmoved0. by eapply bridge_moved. }
  intros Haud _ Hcons. unfold bridge_receipt, mbind, read_spool in Hb. rewrite Hcons, Hst in Hb.
  rewrite decide_True, bool_decide_eq_false_2 in Hb by done. injection Hb as <- <-. done.
Qed.
End settling.

(** ** An append that lost its newline *)

Section torn.
Context `{FloatRepr, Timestamps}.

Lemma raw_lines_torn rs t : Forall framed rs -> framed t -> t <> [] -> raw_lines (encode rs ++ t) = map frame rs ++ [t].
Proof. intros Hrs Ht Hne. unfold raw_lines. rewrite split_lines_encode by done. by destruct t. Qed.

Lemma mk_records_raw pos l : map raw (mk_records pos l) = l.
Proof. revert pos. induction l as [|x l IH]; intros pos; [done|]. cbn [mk_records map raw]. by rewrite IH. Qed.

(** C21: a line that lacks only its newline blocks its receipt.  If the process died in
    the append after the whole envelope but before the newline, the evidence scan
    reports the event as queued, although no batch contains it; so an enqueued
    receipt is left alone by every reconciliation, and the operator's retry of a
    quarantined one is refused without changing anything. *)
Theorem torn_body_stalls sid q torn ob s :
  good_origin (ob_handle ob) (ob_origin ob) -> implements sid (rv_spool s) q torn -> _validate_session_id sid = true ->
  says torn = Some (okey_of (ob_handle ob) (ob_origin ob)) -> offsets_readable (rv_spool s) ->
  recovery_origin_commit_state (ob_json ob) (rv_spool s) = Ok (Some InQueue)
  /\ (forall n, exists batch, read_batch sid n (rv_spool s) = Ok batch /\ map raw (records batch) = next q n)
  /\ (forall e b aud cap, scoped (sv_app (rv_server s)) = false -> ob_state ob = Enqueued ->
        recovery_origin_is_dead (ob_json ob) (rv_spool s) = Ok false ->
        reconcile_receipt e b aud cap ob s = (Ok tt, s))
  /\ (forall e r p, next_quarantined (rv_ledger s) = Some (r, p) -> re_handle r = ob_handle ob -> origin_of r = ob_origin ob ->
        _retry_quarantined_native_recovery e s = (Ok false, s)).
Proof.
  intros Ho Hq Hv Hsay Hread.
  assert (Hne : torn <> []) by (intros ->; by destruct (says_inv _ _ Hsay) as (? & ? & ? & _)).
  assert (Hstate : recovery_origin_commit_state (ob_json ob) (rv_spool s) = Ok (Some InQueue)).
  { rewrite commit_state_ok by done. set (enc := sorted_dumps (ob_json ob)).
    assert (Hex : existsb (fun log => (log_scan enc (rv_spool s) log).2) (log_files (rv_spool s)) = true).
    { apply existsb_elem. exists (_log_path sid). pose proof (impl_log _ _ _ _ Hq) as Hlog. split.
      - apply elem_of_logs. split; [apply str_ends_with_app|]. unfold file_content in Hlog.
        destruct (rv_spool s !! _log_path sid); [eauto|]. destruct (encode (q_all q)), torn; done.
      - unfold log_scan. rewrite log_stem_path by eauto using validate_not_empty. rewrite (impl_offset _ _ _ _ Hq), Hlog.
        rewrite raw_lines_torn by (done || apply Hq). rewrite scan_log_snoc. cbn [snd].
        unfold enc, ob_json. rewrite line_matches_says, bool_decide_eq_true_2 by done. cbn [andb].
        fold (encode (q_all q)). rewrite encode_split by apply Hq.
        destruct torn as [|c t]; [done|]. cbn [length].
        match goal with |- context [(?a <=? ?b)%Z] => destruct (Z.leb_spec a b) as [Hle|_] end; [lia|]. apply orb_true_r. }
    by rewrite Hex. }
  split; [exact Hstate|]. split_and!.
  - intros n. rewrite (read_batch_next _ _ _ _ _ Hq Hv). eexists. split; [done|]. cbn [records]. apply mk_records_raw.
  - intros e b aud cap Hsc Hst Hdead. unfold reconcile_receipt, _finalize_native_recovery_claim, mbind, read_spool. rewrite Hsc. cbn [negb].
    rewrite Hdead, Hst, (decide_False (P := Enqueued = CommittedPending)) by done.
    rewrite (bool_decide_eq_false_2 (Enqueued = RetryPending)) by done. cbn [andb].
    rewrite (decide_True (P := Enqueued = Enqueued)) by done. cbn beta. by rewrite Hstate.
  - intros e r p Hn Hh Hor. unfold _retry_quarantined_native_recovery, mbind, mget, read_spool. rewrite Hn, Hh, Hor.
    unfold ob_json in Hstate. by rewrite Hstate.
Qed.
End torn.

(** ** Witnesses *)

Definition captured_line : bytes :=
  json_dumps_compact (JObj (match @recovery_envelope demo_ob with Ok env => env | Err _ => [] end)).
Definition captured_ledger : Ledger :=
  snd (admit_source demo_source_handle (JObj (ob_source demo_ob)) demo_capture "alice" "w" (JObj captured_payload) None false empty_ledger).
(** A server in permit mode with the receipt outstanding. *)
Definition receipt_state (db : Ledger) (d : dir) : Recovery := MkRecovery demo_server db d empty_registry false (Some []) None.
Definition first_outbox (db : Ledger) : Outbox := match @pending_outbox plain_float db with ob :: _ => ob | [] => demo_ob end.

Lemma captured_line_framed : framed captured_line.
Proof. apply framed_dec_true. vm_compute. reflexivity. Qed.
Lemma captured_line_says : @says plain_float captured_line = Some (okey_of demo_source_handle demo_capture).
Proof. vm_compute. reflexivity. Qed.
Lemma captured_keys : NoDup (map re_key (db_receipts captured_ledger)).
Proof. apply NoDup_singleton. Qed.

Definition lettered_spool : dir := snd (dead_letter "s1" captured_line "1.5" "boom" works ∅).
Lemma dead_letter_stops_delivery_witness :
  let ob := first_outbox captured_ledger in
  let '(r, s') := @reconcile_receipt plain_float demo_flow true [] [] ob (receipt_state captured_ledger lettered_spool) in
  rv_spool s' = lettered_spool /\ r = Ok tt.
Proof.
  cbv zeta. destruct (@reconcile_receipt plain_float demo_flow true [] [] (first_outbox captured_ledger)
    (receipt_state captured_ledger lettered_spool)) as [r s'] eqn:Hr.
  destruct (@dead_letter_stops_delivery plain_float "s1" ∅ (first_outbox captured_ledger) captured_line "1.5" "boom" works
    demo_flow true [] [] (receipt_state captured_ledger lettered_spool) r s') as (Hsp & _ & Hq).
  - exact captured_origin.
  - exact captured_line_framed.
  - exact captured_line_says.
  - right. split; [apply (bool_decide_eq_true_1 _); vm_compute; reflexivity|vm_compute; reflexivity].
  - apply (bool_decide_eq_true_1 (Forall printable _)). vm_compute. reflexivity.
  - vm_compute. reflexivity.
  - exists []. split; [apply Forall_nil_2|vm_compute; reflexivity].
  - vm_compute. reflexivity.
  - exact captured_keys.
  - replace (pending_outbox _) with [first_outbox captured_ledger] by (vm_compute; reflexivity). left.
  - exact Hr.
  - split; [exact Hsp|]. apply Hq; vm_compute; reflexivity.
Defined.

(** The old delivery is consumed and its dead letter is not in the audit. *)
Definition retried_ledger : Ledger :=
  snd (requeue_quarantined demo_source_handle 7 (quarantine_pending demo_source_handle 7 captured_ledger)).
Definition consumed_spool : dir :=
  <["s1.offset" := N_bytes (N.of_nat (length (frame captured_line)))]> (<["s1.log" := frame captured_line]> ∅).

Lemma retried_keys : NoDup (map re_key (db_receipts retried_ledger)).
Proof.
  assert (Hk : map re_key (db_receipts retried_ledger) = [(demo_source_handle, 7%Z)]) by (vm_compute; reflexivity).
  rewrite Hk. apply NoDup_singleton.
Qed.

Lemma retry_needs_audit_witness :
  let ob := first_outbox retried_ledger in
  fst (@reconcile_receipt plain_float demo_flow true [] [sorted_dumps (ob_json ob)] ob (receipt_state retried_ledger consumed_spool))
  = Err ValueError.
Proof.
  cbv zeta. destruct (@reconcile_receipt plain_float demo_flow true [] [sorted_dumps (ob_json (first_outbox retried_ledger))]
    (first_outbox retried_ledger) (receipt_state retried_ledger consumed_spool)) as [r s'] eqn:Hr.
  destruct (@retry_needs_audit plain_float demo_flow true [] [sorted_dumps (ob_json (first_outbox retried_ledger))]
    (first_outbox retried_ledger) (receipt_state retried_ledger consumed_spool) r s') as [_ Hs].
  - exact retried_keys.
  - replace (pending_outbox _) with [first_outbox retried_ledger] by (vm_compute; reflexivity). left.
  - vm_compute. reflexivity.
  - exact Hr.
  - apply Hs; [apply not_elem_of_nil|vm_compute; reflexivity|vm_compute; reflexivity|reflexivity|left|vm_compute; reflexivity].
Defined.

Definition torn_spool : dir := <["s1.log" := captured_line]> ∅.
Lemma torn_body_stalls_witness :
  @recovery_origin_commit_state plain_float (ob_json demo_ob) torn_spool = Ok (Some InQueue)
  /\ exists batch, read_batch "s1" 10 torn_spool = Ok batch /\ records batch = [].
Proof.
  destruct (@torn_body_stalls plain_float any_time "s1" (AQ [] 0) captured_line demo_ob (receipt_state captured_ledger torn_spool))
    as (Hs & Hb & _).
  - exact captured_origin.
  - split; [vm_compute; reflexivity|vm_compute; reflexivity|constructor|exact captured_line_framed|cbn; lia].
  - vm_compute. reflexivity.
  - exact captured_line_says.
  - intros log Hl. apply elem_of_logs in Hl as [_ Hl]. unfold torn_spool, receipt_state in Hl. cbn [rv_spool] in Hl.
    apply lookup_insert_is_Some in Hl as [<-|[_ Hl]]; [exists 0%Z; vm_compute; reflexivity|].
    rewrite lookup_empty in Hl. by destruct Hl.
  - split; [exact Hs|]. destruct (Hb 10) as (batch & Hr & Hm). exists batch. split; [exact Hr|]. by apply map_eq_nil in Hm.
Defined.
