(* ===== verification/Scheduler.v ===== *)
(** * The unattended retention client ([retention_scheduler.py])

    [run_scheduled] drives the online pruning of blobs through four requests:
    status, preview, start, cancel.  Everything it talks to is a parameter
    ([world]): every answer of the server (a reply, a client error, another
    failure), every signal, and both clocks, as functions of the step at which
    the client looks.  Time is an integer (the resolution of the clock), and a
    signal arrives while the client waits for a request or sleeps.

    The state keeps every request that was sent, with the socket timeout it was
    sent with, and the result under construction. *)
From stdpp Require Import base list strings.
From Stdlib Require Import ZArith Lia.
From S2P Require Import Prelude PyText Sha256 Utils Json JsonParse BlobKeys Retention.

#[local] Open Scope string_scope.
#[local] Open Scope list_scope.
#[local] Open Scope Z_scope.

Module Scheduler.

Definition BUSY : list string := ["previewing"; "ready"; "running"; "cancelling"].
Definition TERMINAL : list string := ["completed"; "cancelled"; "failed"; "interrupted"].
Definition COUNTS : list string :=
  ["files"; "logical_bytes"; "allocated_bytes"; "retained"; "skipped"; "changed"; "errors"; "deleted"].

(** A job as the server describes it. *)
Definition job := list (string * json).

(** ** What the client raises *)

Inductive stop :=
  | Problem (code : string)
  | ClientError (status_code : option Z)
  | KeyboardInterrupt (term : bool)      (** [term]: [ScheduledTermination] *)
  | InvalidArguments                     (** [ValueError], [TypeError], [OverflowError] *)
  | OtherException
  | OutOfFuel.                           (** not an exception: the loop is cut *)

Inductive answer := Reply (j : job) | Fails (status_code : option Z) | Breaks | Signal (term : bool).
Inductive request := Status (id : option string) | Preview (older_than : string) | Start (id : string) | Cancel (id : string).
#[export] Instance request_eq_dec : EqDecision request.
Proof. solve_decision. Defined.

Record world := MkWorld {
  w_answer : nat -> answer;
  w_sleep : nat -> option bool;          (** a signal while sleeping *)
  w_mono : nat -> Z;
  w_wall : nat -> Z;
}.

Record _Identity := MkIdentity { i_id : string; i_root : string; i_age : string; i_cutoff : Z; i_started : Z }.
#[export] Instance identity_eq_dec : EqDecision _Identity.
Proof. solve_decision. Defined.

Record ScheduledResult := MkResult {
  outcome : string;
  exit_code : Z;
  job_id : option string;
  state : option string;
  confirmed : bool;
  cutoff_ns : option Z;
  counts : list (string * Z);
  cleanup_state : string;
  error_code : option string;
}.
Definition new_result : ScheduledResult := MkResult "failed" 1 None None false None [] "not_requested" None.

(** ** State and effects *)

Record Sched := MkSched {
  step : nat;
  timeout : Z;                           (** [client.timeout] *)
  sent : list (request * Z);
  res : ScheduledResult;
  owned : option _Identity;
  deadline : option Z;
  seen : option job;                     (** [job] and [acknowledged] of the cleanup *)
  acknowledged : bool;
}.

Definition SM (A : Type) : Type := Sched -> (A + stop) * Sched.
Definition ret {A} (a : A) : SM A := fun s => (inl a, s).
Definition raise {A} (x : stop) : SM A := fun s => (inr x, s).
Definition bind {A B} (m : SM A) (k : A -> SM B) : SM B := fun s =>
  match m s with (inl a, s) => k a s | (inr x, s) => (inr x, s) end.
Definition get : SM Sched := fun s => (inl s, s).
Definition put (f : Sched -> Sched) : SM unit := fun s => (inl tt, f s).
(** [except]: a handler that may decline, leaving the exception. *)
Definition catch {A} (m : SM A) (h : stop -> option (SM A)) : SM A := fun s =>
  match m s with
  | (inr x, s) => match h x with Some k => k s | None => (inr x, s) end
  | r => r
  end.
#[local] Notation "'do' x <- m ; k" := (bind m (fun x => k)) (at level 200, x name, m at level 100, k at level 200).
#[local] Notation "m ;+ k" := (bind m (fun _ => k)) (at level 190, right associativity).

Definition bump (s : Sched) : Sched :=
  MkSched (S (step s)) (timeout s) (sent s) (res s) (owned s) (deadline s) (seen s) (acknowledged s).
Definition set_timeout (t : Z) (s : Sched) : Sched :=
  MkSched (step s) t (sent s) (res s) (owned s) (deadline s) (seen s) (acknowledged s).
Definition log_request (r : request) (s : Sched) : Sched :=
  MkSched (step s) (timeout s) (sent s ++ [(r, timeout s)]) (res s) (owned s) (deadline s) (seen s) (acknowledged s).
Definition on_res (f : ScheduledResult -> ScheduledResult) (s : Sched) : Sched :=
  MkSched (step s) (timeout s) (sent s) (f (res s)) (owned s) (deadline s) (seen s) (acknowledged s).
Definition set_owned (o : _Identity) (s : Sched) : Sched :=
  MkSched (step s) (timeout s) (sent s) (res s) (Some o) (deadline s) (seen s) (acknowledged s).
Definition set_deadline (d : Z) (s : Sched) : Sched :=
  MkSched (step s) (timeout s) (sent s) (res s) (owned s) (Some d) (seen s) (acknowledged s).
Definition set_seen (j : option job) (s : Sched) : Sched :=
  MkSched (step s) (timeout s) (sent s) (res s) (owned s) (deadline s) j (acknowledged s).
Definition set_ack (b : bool) (s : Sched) : Sched :=
  MkSched (step s) (timeout s) (sent s) (res s) (owned s) (deadline s) (seen s) b.

Definition set_outcome (o : string) (c : Z) (r : ScheduledResult) : ScheduledResult :=
  MkResult o c (job_id r) (state r) (confirmed r) (cutoff_ns r) (counts r) (cleanup_state r) (error_code r).
Definition set_error (e : string) (c : Z) (r : ScheduledResult) : ScheduledResult :=
  MkResult (outcome r) c (job_id r) (state r) (confirmed r) (cutoff_ns r) (counts r) (cleanup_state r) (Some e).
Definition set_cleanup (st : string) (r : ScheduledResult) : ScheduledResult :=
  MkResult (outcome r) (exit_code r) (job_id r) (state r) (confirmed r) (cutoff_ns r) (counts r) st (error_code r).
Definition set_job (o : _Identity) (r : ScheduledResult) : ScheduledResult :=
  MkResult (outcome r) (exit_code r) (Some (i_id o)) (state r) (confirmed r) (Some (i_cutoff o)) (counts r)
    (cleanup_state r) (error_code r).
Definition set_observed (st : string) (c : bool) (k : list (string * Z)) (r : ScheduledResult) : ScheduledResult :=
  MkResult (outcome r) (exit_code r) (job_id r) (Some st) c (cutoff_ns r) k (cleanup_state r) (error_code r).
Definition set_counts (k : list (string * Z)) (r : ScheduledResult) : ScheduledResult :=
  MkResult (outcome r) (exit_code r) (job_id r) (state r) (confirmed r) (cutoff_ns r) k (cleanup_state r) (error_code r).

(** ** Validation *)

Definition _integer (v : json) : option Z :=
  match v with JInt n => if (0 <=? n) && (n <=? 2 ^ 63 - 1) then Some n else None | _ => None end.

(** [str(uuid.UUID(s)) == s]: 8-4-4-4-12 lower-case digits. *)
Definition canonical_uuid (s : string) : bool :=
  let b := bytes_of s in
  bool_decide (length b = 36%nat)
  && forallb (fun p : nat * byte => if bool_decide (p.1 ∈ [8; 13; 18; 23]%nat) then (bZ p.2 =? 45) else is_hex p.2)
       (imap (fun i x => (i, x)) b).

(** [str(PurePosixPath(s))] of an absolute path: repeated slashes and [.] collapse,
    exactly two leading slashes stay. *)
Definition path_parts (b : bytes) : list bytes :=
  base.filter (fun p => p <> [] /\ p <> [Byte.x2e]) (split_byte Byte.x2f b).
Fixpoint join_slash (ps : list bytes) : bytes :=
  match ps with
  | [] => []
  | [p] => p
  | p :: ps => p ++ [Byte.x2f] ++ join_slash ps
  end.
Definition pure_path (b : bytes) : bytes :=
  (match b with
   | Byte.x2f :: Byte.x2f :: Byte.x2f :: _ => [Byte.x2f]
   | Byte.x2f :: Byte.x2f :: _ => [Byte.x2f; Byte.x2f]
   | _ => [Byte.x2f]
   end) ++ join_slash (path_parts b).
Definition plain_root (s : string) : bool :=
  let b := bytes_of s in
  bool_decide (head b = Some Byte.x2f) && bool_decide (pure_path b = b)
  && negb (bool_decide ([Byte.x2e; Byte.x2e] ∈ path_parts b)) && forallb (fun c => negb (bZ c <? 32)) b.

(** [None] is [_Problem("invalid_identity")]. *)
Definition _identity (j : job) : option _Identity :=
  match dget "id" j, dget "root" j, dget "older_than" j, dget "cutoff_ns" j, dget "preview_started_ns" j with
  | Some (JStr id), Some (JStr root), Some (JStr age), Some cutoff, Some started =>
    match _integer cutoff, _integer started, duration_ns age with
    | Some c, Some t, Ok d =>
      if canonical_uuid id && plain_root root && (t - d =? c) then Some (MkIdentity id root age c t) else None
    | _, _, _ => None
    end
  | _, _, _, _, _ => None
  end.

Definition str_field (k s : string) (o : list (string * json)) : bool :=
  match dget k o with Some (JStr x) => bool_decide (x = s) | _ => false end.
Definition int_is (v : option json) (n : Z) : bool :=
  match v with Some v => bool_decide (_integer v = Some n) | None => false end.

(** State, confirmation and counts; [None] is [_Problem("invalid_response")]. *)
Definition _validate (j : job) : option (string * bool * list (string * Z)) :=
  match dget "state" j, dget "confirmed" j, dget "error" j, dget "report" j, dget "root" j, dget "cutoff_ns" j with
  | Some (JStr st), Some (JBool c), Some _, Some (JObj report), Some (JStr root), Some (JInt cutoff) =>
    match mapM (fun k => match dget k report with Some v => (fun n => (k, n)) <$> _integer v | None => None end) COUNTS with
    | Some ks =>
      if bool_decide (st ∈ BUSY ++ TERMINAL) && str_field "root" root report
         && int_is (dget "cutoff_ns" report) cutoff
         && negb (bool_decide (st ∈ ["previewing"; "ready"]) && c) && negb (bool_decide (st ∈ ["running"; "completed"]) && negb c)
      then Some (st, c, ks) else None
    | None => None
    end
  | _, _, _, _, _, _ => None
  end.

Definition st_of (j : job) : string := match jget "state" j with JStr s => s | _ => "" end.
Definition confirmed_of (j : job) : bool := match jget "confirmed" j with JBool b => b | _ => false end.
Definition error_of (j : job) : bool := match jget "error" j with JNull => false | _ => true end.
Definition count_of (k : string) (r : ScheduledResult) : Z := match dget k (counts r) with Some n => n | None => 0 end.

Fixpoint digits_of (fuel : nat) (n : Z) : string :=
  match fuel with
  | O => ""
  | S fuel => (if n <? 10 then "" else digits_of fuel (n / 10)) +:+ str_of [byte_of_Z (48 + n mod 10)]
  end.
Definition _error_code (x : stop) : string :=
  match x with
  | Problem c => c
  | ClientError (Some c) => if (100 <=? c) && (c <=? 599) then "http_" +:+ digits_of 3 c else "client_error"
  | ClientError None => "client_error"
  | _ => "client_failure"
  end.

(** ** The run *)

Section run.
Context (w : world) (older_than : string) (dry_run : bool) (max_runtime cancel_timeout poll_interval : Z).

Definition monotonic : SM Z := fun s => (inl (w_mono w (step s)), bump s).
Definition time_ns : SM Z := fun s => (inl (w_wall w (step s)), bump s).

Definition remaining (until : Z) : SM Z :=
  do now <- monotonic;
  if until - now <=? 0 then raise (Problem "deadline") else ret (until - now).

(** The answer to a request; the timeout is restored on every exit. *)
Definition call (r : request) (until : Z) : SM job :=
  do left <- remaining until;
  do s <- get;
  put (set_timeout (Z.min (timeout s) left)) ;+
  put (log_request r) ;+
  do a <- (fun s0 => (inl (w_answer w (step s0)), bump s0));
  put (set_timeout (timeout s)) ;+
  match a with
  | Reply j => ret j
  | Fails code => raise (ClientError code)
  | Breaks => raise OtherException
  | Signal term => raise (KeyboardInterrupt term)
  end.

Definition pause (until : Z) : SM unit :=
  remaining until ;+
  fun s => (match w_sleep w (step s) with Some term => inr (KeyboardInterrupt term) | None => inl tt end, bump s).

Definition observe (j : job) : SM job :=
  do s <- get;
  if decide (_identity j = None) then raise (Problem "invalid_identity")
  else if decide (_identity j = owned s) then
    match _validate j with
    | None => raise (Problem "invalid_response")
    | Some (st, c, ks) =>
      if confirmed (res s) && negb c then raise (Problem "confirmation_changed")
      else put (on_res (set_observed st c ks)) ;+ ret j
    end
  else raise (Problem "identity_changed").

Definition clean_preview (j : job) : SM unit :=
  do s <- get;
  if confirmed_of j then raise (Problem "unexpected_confirmation")
  else if error_of j || negb (count_of "errors" (res s) =? 0) || negb (count_of "changed" (res s) =? 0)
  then raise (Problem "preview_errors")
  else if negb (bool_decide (st_of j ∈ ["previewing"; "ready"])) then raise (Problem "preview_state")
  else if decide (st_of j = "ready") then
    match _integer (jget "expires_ns" j) with
    | None => raise (Problem "preview_expired")
    | Some expiry => do now <- time_ns; if expiry <=? now then raise (Problem "preview_expired") else ret tt
    end
  else ret tt.

(** ** Cleanup: every request names the owned job *)

Definition active (j : job) : bool := bool_decide (st_of j ∈ ["previewing"; "ready"; "running"]).
Definition needs_cancel (s : Sched) : bool :=
  match seen s with None => true | Some j => negb (acknowledged s) && active j end.

(** One round; [Some b] ends the cleanup. *)
Definition cleanup_round (o : _Identity) (until : Z) : SM (option bool) :=
  do s <- get;
  (if needs_cancel s then
     catch (do j <- call (Cancel (i_id o)) until;
            do j <- observe j;
            put (set_seen (Some j)) ;+ put (set_ack true))
       (fun x => match x with
                 | ClientError _ => Some (do j <- call (Status (Some (i_id o))) until;
                                          do j <- observe j;
                                          put (set_seen (Some j)))
                 | _ => None
                 end)
   else ret tt) ;+
  remaining until ;+
  do s <- get;
  match seen s with
  | Some j =>
    if bool_decide (st_of j ∈ TERMINAL) then put (on_res (set_cleanup (st_of j))) ;+ ret (Some true)
    else
      pause until ;+
      do j <- call (Status (Some (i_id o))) until;
      do j <- observe j;
      put (set_seen (Some j)) ;+ ret None
  | None => ret None
  end.

Definition note_signal (term : bool) (r : ScheduledResult) : ScheduledResult :=
  set_error (default (if term then "sigterm" else "interrupted") (error_code r)) (if term then 143 else 130) r.

Fixpoint cleanup_loop (fuel : nat) (o : _Identity) (until : Z) : SM bool :=
  match fuel with
  | O => raise OutOfFuel
  | S fuel =>
    do now <- monotonic;
    if until <=? now then ret false
    else
      do r <- catch (cleanup_round o until)
                (fun x => match x with
                          | KeyboardInterrupt term => Some (put (on_res (note_signal term)) ;+ ret None)
                          | OutOfFuel => None
                          | _ => Some (ret (Some false))
                          end);
      match r with Some b => ret b | None => cleanup_loop fuel o until end
  end.

Definition cleanup (fuel : nat) (o : _Identity) : SM bool :=
  do now <- monotonic;
  put (on_res (set_cleanup "unconfirmed")) ;+
  put (set_seen None) ;+ put (set_ack false) ;+
  cleanup_loop fuel o (now + cancel_timeout).

(** ** The two polling loops *)

Fixpoint wait_ready (fuel : nat) (o : _Identity) (d : Z) (j : job) : SM job :=
  match fuel with
  | O => raise OutOfFuel
  | S fuel =>
    remaining d ;+ clean_preview j ;+
    if decide (st_of j = "ready") then ret j
    else pause d ;+ (do j <- call (Status (Some (i_id o))) d; do j <- observe j; wait_ready fuel o d j)
  end.

Fixpoint wait_completed (fuel : nat) (o : _Identity) (d : Z) (j : job) : SM unit :=
  match fuel with
  | O => raise OutOfFuel
  | S fuel =>
    remaining d ;+
    do s <- get;
    if error_of j then raise (Problem "job_error")
    else if negb (confirmed_of j) || negb (bool_decide (st_of j ∈ ["running"; "completed"])) then raise (Problem "apply_state")
    else if decide (st_of j = "completed") then
      if negb (count_of "errors" (res s) =? 0) || negb (count_of "changed" (res s) =? 0) then raise (Problem "apply_errors")
      else put (on_res (set_outcome "completed" 0))
    else pause d ;+ (do j <- call (Status (Some (i_id o))) d; do j <- observe j; wait_completed fuel o d j)
  end.

Definition skip_busy : SM unit := put (on_res (set_outcome "skipped_busy" 0)).

Definition apply_job (fuel : nat) (o : _Identity) (d : Z) : SM unit :=
  do j <- catch (call (Start (i_id o)) d)
            (fun x => match x with ClientError _ => Some (call (Status (Some (i_id o))) d) | _ => None end);
  do j <- observe j;
  wait_completed fuel o d j.

Definition estimate_only (fuel : nat) (o : _Identity) : SM unit :=
  do s <- get;
  let estimate := counts (res s) in
  do ok <- cleanup fuel o;
  do s <- get;
  if negb ok then raise (Problem "cancel_unconfirmed")
  else if negb (bool_decide (state (res s) = Some "cancelled")) || confirmed (res s) then raise (Problem "dry_run_not_cancelled")
  else
    put (on_res (set_counts estimate)) ;+
    match error_code (res s) with
    | Some _ => ret tt
    | None => put (on_res (set_outcome "dry_run" 0))
    end.

Definition own_preview (fuel : nat) (d : Z) (current_root : option string) (j : job) : SM unit :=
  match _identity j with
  | None => raise (Problem "invalid_identity")
  | Some o =>
    if negb (bool_decide (i_age o = older_than)) then raise (Problem "age_changed")
    else if match current_root with Some r => negb (bool_decide (i_root o = r)) | None => false end
    then raise (Problem "root_changed")
    else
      put (set_owned o) ;+ put (on_res (set_job o)) ;+
      do j <- observe j;
      do j <- wait_ready fuel o d j;
      if dry_run then estimate_only fuel o else apply_job fuel o d
  end.

Definition create_preview (fuel : nat) (d : Z) (current_root : option string) : SM unit :=
  do r <- catch (do j <- call (Preview older_than) d; ret (Some j))
            (fun x => match x with ClientError (Some 409) => Some (ret None) | _ => None end);
  match r with
  | None => skip_busy
  | Some j => own_preview fuel d current_root j
  end.

Definition body (fuel : nat) : SM unit :=
  do s <- get;
  match duration_ns older_than with
  | Err _ => raise InvalidArguments
  | Ok _ =>
    if existsb (fun limit => limit <=? 0) [max_runtime; cancel_timeout; poll_interval; timeout s] then raise InvalidArguments
    else
      do now <- monotonic;
      let d := now + max_runtime in
      put (set_deadline d) ;+
      do current <- catch (do j <- call (Status None) d; ret (Some j))
                      (fun x => match x with ClientError (Some 404) => Some (ret None) | _ => None end);
      match current with
      | None => create_preview fuel d None
      | Some j =>
        match _identity j, _validate j with
        | None, _ => raise (Problem "invalid_identity")
        | Some _, None => raise (Problem "invalid_response")
        | Some i, Some (st, _, _) =>
          if bool_decide (st ∈ BUSY) then skip_busy else create_preview fuel d (Some (i_root i))
        end
      end
  end.

(** The handlers of the outer [try]. *)
Definition report_failure (x : stop) : SM unit :=
  match x with
  | OutOfFuel => raise OutOfFuel
  | KeyboardInterrupt true => put (on_res (set_error "sigterm" 143))
  | KeyboardInterrupt false => put (on_res (set_error "interrupted" 130))
  | InvalidArguments => fun s => put (on_res (set_error "invalid_arguments" (exit_code (res s)))) s
  | x =>
    do s <- get;
    match deadline s with
    | Some d =>
      if d =? 0 then put (on_res (set_error (_error_code x) (exit_code (res s))))
      else do now <- monotonic; put (on_res (set_error (if d <=? now then "deadline" else _error_code x) (exit_code (res s))))
    | None => put (on_res (set_error (_error_code x) (exit_code (res s))))
    end
  end.

(** [finally] *)
Definition finish (fuel : nat) : SM unit :=
  do s <- get;
  (match owned s with
   | Some o =>
     if negb (exit_code (res s) =? 0) && bool_decide (cleanup_state (res s) = "not_requested") then
       do ok <- cleanup fuel o;
       if ok then ret tt else put (on_res (fun r => set_outcome "cancel_unconfirmed" (exit_code r) r))
     else ret tt
   | None => ret tt
   end) ;+
  do s <- get;
  if decide (cleanup_state (res s) = "unconfirmed") then put (on_res (fun r => set_outcome "cancel_unconfirmed" (exit_code r) r))
  else ret tt.

Definition run_scheduled (fuel : nat) : SM ScheduledResult :=
  catch (body fuel) (fun x => Some (report_failure x)) ;+ finish fuel ;+ do s <- get; ret (res s).

Definition start_state (client_timeout : Z) : Sched :=
  MkSched 0 client_timeout [] new_result None None None false.
End run.
End Scheduler.
