(* ===== verification/SchedulerSpec.v ===== *)
(** * What an unattended retention run may do ([Scheduler])

    [scheduled_requests]: whatever the server answers and whenever a signal
    arrives, the run creates at most one job and starts at most one, its own, once
    that job was reported ready, unconfirmed, clean and unexpired; every request
    but the very first status request and the creation names that job.  [scheduled_outcome]: what the exit code means.
    [scheduled_returns]: the run ends within its two budgets. *)
From stdpp Require Import base list strings.
From Stdlib Require Import ZArith Lia.
From S2P Require Import Prelude PyText Sha256 Utils Json JsonParse BlobKeys Retention Scheduler.

#[local] Open Scope string_scope.
#[local] Open Scope list_scope.
#[local] Open Scope Z_scope.

Import Scheduler.

(** ** Triples over both exits *)

Definition spec {A} (P : Sched -> Prop) (m : SM A) (Q : A -> Sched -> Prop) (E : stop -> Sched -> Prop) : Prop :=
  forall s, P s -> match m s with (inl a, s') => Q a s' | (inr x, s') => E x s' end.

Lemma spec_ret {A} (P : Sched -> Prop) (a : A) (Q : A -> Sched -> Prop) E : (forall s, P s -> Q a s) -> spec P (ret a) Q E.
Proof. intros HQ s Hs. by apply HQ. Qed.
Lemma spec_raise {A} (P : Sched -> Prop) x (Q : A -> Sched -> Prop) (E : stop -> Sched -> Prop) :
  (forall s, P s -> E x s) -> spec P (raise x) Q E.
Proof. intros HE s Hs. by apply HE. Qed.
Lemma spec_put (P : Sched -> Prop) f (Q : unit -> Sched -> Prop) E : (forall s, P s -> Q tt (f s)) -> spec P (put f) Q E.
Proof. intros HQ s Hs. by apply HQ. Qed.
Lemma spec_bind {A B} P (m : SM A) (k : A -> SM B) R Q E :
  spec P m R E -> (forall a, spec (R a) (k a) Q E) -> spec P (bind m k) Q E.
Proof.
  intros Hm Hk s Hs. unfold bind. specialize (Hm s Hs). destruct (m s) as [[a|x] s']; [by apply (Hk a)|done].
Qed.
Lemma spec_get {B} (P : Sched -> Prop) (k : Sched -> SM B) Q E :
  (forall s0, spec (fun s => P s /\ s = s0) (k s0) Q E) -> spec P (bind get k) Q E.
Proof. intros Hk s Hs. by apply (Hk s). Qed.
Lemma spec_conseq {A} (P P' : Sched -> Prop) (m : SM A) (Q Q' : A -> Sched -> Prop) (E E' : stop -> Sched -> Prop) :
  spec P m Q E -> (forall s, P' s -> P s) -> (forall a s, Q a s -> Q' a s) -> (forall x s, E x s -> E' x s) -> spec P' m Q' E'.
Proof. intros Hm HP HQ HE s Hs. specialize (Hm s (HP s Hs)). destruct (m s) as [[a|x] s']; auto. Qed.
Lemma spec_catch {A} P (m : SM A) h (Q : A -> Sched -> Prop) E E' :
  spec P m Q E ->
  (forall x k, h x = Some k -> spec (E x) k Q E') -> (forall x s, h x = None -> E x s -> E' x s) ->
  spec P (catch m h) Q E'.
Proof.
  intros Hm Hh Hn s Hs. unfold catch. specialize (Hm s Hs). destruct (m s) as [[a|x] s']; [done|].
  destruct (h x) as [k|] eqn:Hx; [by apply (Hh x k)|by apply Hn].
Qed.

Lemma spec_pure {A} (P : Sched -> Prop) (phi : Prop) (m : SM A) Q E : (phi -> spec P m Q E) -> spec (fun s => P s /\ phi) m Q E.
Proof. intros Hm s [Hs Hphi]. by apply Hm. Qed.
Lemma spec_pre {A} (P P' : Sched -> Prop) (m : SM A) Q E : spec P m Q E -> (forall s, P' s -> P s) -> spec P' m Q E.
Proof. intros Hm HP. by eapply spec_conseq. Qed.

(** ** The requests of a run *)

Section run_spec.
Context (w : world) (older_than : string) (dry_run : bool) (max_runtime cancel_timeout poll_interval T0 : Z).

Definition is_preview (r : request) : nat := match r with Preview _ => 1 | _ => 0 end.
Definition is_start (r : request) : nat := match r with Start _ => 1 | _ => 0 end.
Definition previews (l : list (request * Z)) : nat := foldr (fun rq n => is_preview rq.1 + n)%nat 0%nat l.
Definition starts (l : list (request * Z)) : nat := foldr (fun rq n => is_start rq.1 + n)%nat 0%nat l.

Lemma previews_snoc l x : previews (l ++ [x]) = (previews l + is_preview x.1)%nat.
Proof. unfold previews. rewrite foldr_app. cbn. induction l as [|y l IH]; cbn; lia. Qed.
Lemma starts_snoc l x : starts (l ++ [x]) = (starts l + is_start x.1)%nat.
Proof. unfold starts. rewrite foldr_app. cbn. induction l as [|y l IH]; cbn; lia. Qed.

(** A preview of the configured age, or a request that names the owned job. *)
Definition allowed (o : option _Identity) (r : request) : Prop :=
  match r with
  | Status None => False
  | Preview a => a = older_than
  | Status (Some i) | Start i | Cancel i => exists x, o = Some x /\ i = i_id x
  end.
(** Only the first request of a run asks for whatever job is current. *)
Definition permitted (o : option _Identity) (l : list (request * Z)) : Prop :=
  forall i rq, l !! i = Some rq -> 0 < rq.2 <= T0 /\ (allowed o rq.1 \/ (i = 0%nat /\ rq.1 = Status None)).
Lemma permitted_snoc o l r t :
  permitted o l -> 0 < t <= T0 -> allowed o r \/ (l = [] /\ r = Status None) -> permitted o (l ++ [(r, t)]).
Proof.
  intros Hl Ht Hr i rq Hi. apply lookup_snoc_Some in Hi as [[_ Hi]|[-> <-]]; [by apply Hl|]. split; [done|].
  destruct Hr as [?|[-> ?]]; [by left|by right].
Qed.

Definition clean (ks : list (string * Z)) : Prop :=
  default 0 (dget "errors" ks) = 0 /\ default 0 (dget "changed" ks) = 0.

(** The server had reported this job ready, unconfirmed, clean and not expired. *)
Definition approved (o : option _Identity) : Prop :=
  exists n m x j ks expiry, o = Some x /\ w_answer w n = Reply j /\ _identity j = Some x /\ _validate j = Some ("ready", false, ks)
    /\ clean ks /\ error_of j = false /\ _integer (jget "expires_ns" j) = Some expiry /\ w_wall w m < expiry.

Record sound (o : option _Identity) (pv st : nat) (s : Sched) : Prop := {
  so_timeout : timeout s = T0;
  so_owned : owned s = o;
  so_sent : permitted o (sent s);
  so_previews : (previews (sent s) <= pv)%nat;
  so_starts : (starts (sent s) <= st)%nat;
  so_approved : (0 < st)%nat -> dry_run = false /\ approved o;
  so_positive : o <> None -> 0 < T0;
}.

Lemma sound_more o pv pv' st s : (pv <= pv')%nat -> sound o pv st s -> sound o pv' st s.
Proof. intros Hle []. split; try done. lia. Qed.

(** Parts of the state the requests do not depend on. *)
Lemma sound_res o pv st f s : sound o pv st s -> sound o pv st (on_res f s).
Proof. intros []. by split. Qed.
Lemma sound_bump o pv st s : sound o pv st s -> sound o pv st (bump s).
Proof. intros []. by split. Qed.
Lemma sound_seen o pv st j s : sound o pv st s -> sound o pv st (set_seen j s).
Proof. intros []. by split. Qed.
Lemma sound_ack o pv st b s : sound o pv st s -> sound o pv st (set_ack b s).
Proof. intros []. by split. Qed.
Lemma sound_deadline o pv st d s : sound o pv st s -> sound o pv st (set_deadline d s).
Proof. intros []. by split. Qed.

(** A state and what is known of the result. *)
Definition At (o : option _Identity) (pv st : nat) (R : ScheduledResult -> Prop) (s : Sched) : Prop :=
  sound o pv st s /\ R (res s).

Notation remaining := (remaining w).
Notation call := (call w).
Notation pause := (pause w).

Lemma monotonic_spec o pv st R E : spec (At o pv st R) (monotonic w) (fun _ => At o pv st R) E.
Proof. intros s [Hs HR]. split; [by apply sound_bump|done]. Qed.

Lemma remaining_spec o pv st R until :
  spec (At o pv st R) (remaining until) (fun left s => At o pv st R s /\ 0 < left) (fun _ => At o pv st R).
Proof.
  eapply spec_bind; [apply monotonic_spec|]. intros now. cbn beta.
  destruct (Z.leb_spec (until - now) 0); [by apply spec_raise|by apply spec_ret].
Qed.

Lemma pause_spec o pv st R until : spec (At o pv st R) (pause until) (fun _ => At o pv st R) (fun _ => At o pv st R).
Proof.
  eapply spec_bind; [apply remaining_spec|]. intros left s [[Hs HR] _].
  destruct (w_sleep w (step s)); (split; [by apply sound_bump|done]).
Qed.

(** One request: it is sent within the budget, and its answer is the world's. *)
Lemma call_spec_first o pv st R r until :
  0 < T0 -> (is_start r <> 0%nat -> dry_run = false /\ approved o) ->
  spec (fun s => At o pv st R s /\ (allowed o r \/ (sent s = [] /\ r = Status None))) (call r until)
    (fun j s => At o (pv + is_preview r) (st + is_start r) R s /\ exists n, w_answer w n = Reply j)
    (fun _ => At o (pv + is_preview r) (st + is_start r) R).
Proof.
  intros HT Hap s [Hs Hal]. pose proof (remaining_spec o pv st R until s Hs) as Hrem.
  assert (Hsame : sent (Scheduler.remaining w until s).2 = sent s) by (unfold Scheduler.remaining, bind, monotonic; cbn beta iota; by destruct (_ <=? 0)).
  unfold Scheduler.call, bind at 1. destruct (Scheduler.remaining w until s) as [[left|x] s1]; cbn [snd] in Hsame.
  2:{ destruct Hrem as [[] HR]. split; [|done]. split; try done; [lia|lia|]. intros Hpos.
      destruct (is_start r) eqn:Hr; [apply so_approved0; lia|by apply Hap]. }
  destruct Hrem as [[[] HR] Hleft]. unfold bind, get, put, ret, raise. cbn beta iota.
  set (s3 := set_timeout (timeout s1) _).
  assert (HA : At o (pv + is_preview r) (st + is_start r) R s3).
  { split; [|exact HR]. unfold s3. split; cbn [timeout owned sent set_timeout bump log_request step]; try done.
    - apply permitted_snoc; [done|lia|]. by rewrite Hsame.
    - rewrite previews_snoc. cbn [fst]. lia.
    - rewrite starts_snoc. cbn [fst]. lia.
    - intros Hpos. destruct (is_start r) eqn:Hr; [apply so_approved0; lia|by apply Hap]. }
  destruct (w_answer w (step (log_request r (set_timeout (Z.min (timeout s1) left) s1)))) eqn:Ha; cbn beta iota; try exact HA.
  split; [exact HA|eauto].
Qed.

Lemma call_spec o pv st R r until :
  0 < T0 -> allowed o r -> (is_start r <> 0%nat -> dry_run = false /\ approved o) ->
  spec (At o pv st R) (call r until)
    (fun j s => At o (pv + is_preview r) (st + is_start r) R s /\ exists n, w_answer w n = Reply j)
    (fun _ => At o (pv + is_preview r) (st + is_start r) R).
Proof. intros HT Hal Hap. eapply spec_pre; [by apply call_spec_first|]. intros s Hs. split; [done|by left]. Qed.

(** ** Observing *)

Definition from_world (j : job) : Prop := exists n, w_answer w n = Reply j.

(** The result shows the job. *)
Definition shows (j : job) (r : ScheduledResult) : Prop :=
  exists st c ks, _validate j = Some (st, c, ks) /\ state r = Some st /\ confirmed r = c /\ counts r = ks.
Definition stable (R : ScheduledResult -> Prop) : Prop := forall st c ks r, R r -> R (set_observed st c ks r).

Lemma validate_fields j st c ks :
  _validate j = Some (st, c, ks) -> st_of j = st /\ confirmed_of j = c /\ st ∈ BUSY ++ TERMINAL
  /\ (st = "completed" -> c = true) /\ (st = "ready" -> c = false).
Proof.
  unfold _validate, st_of, confirmed_of, jget. destruct (dget "state" j) as [[| | | |s| |]|]; try done.
  destruct (dget "confirmed" j) as [[|b| | | | |]|]; try done. destruct (dget "error" j); [|done].
  destruct (dget "report" j) as [[| | | | | |r]|]; try done. destruct (dget "root" j) as [[]|]; try done.
  destruct (dget "cutoff_ns" j) as [[]|]; try done. destruct (mapM _ COUNTS) as [l|]; [|done].
  destruct (bool_decide (s ∈ BUSY ++ TERMINAL)) eqn:Hb; [|done]. apply bool_decide_eq_true in Hb. cbn [andb].
  destruct (str_field _ _ _); [|done]. destruct (int_is _ _); [|done]. cbn [andb].
  destruct (negb (bool_decide (s ∈ ["previewing"; "ready"]) && b)) eqn:H1; [|done].
  destruct (negb (bool_decide (s ∈ ["running"; "completed"]) && negb b)) eqn:H2; [|done]. cbn [andb]. intros [= <- <- <-].
  split_and!; try done; intros ->; by destruct b.
Qed.

Lemma observe_spec o pv st R j :
  stable R -> from_world j ->
  spec (At o pv st R) (observe j)
    (fun j' s => At o pv st R s /\ (j' = j /\ _identity j = o /\ o <> None /\ shows j (res s))) (fun _ => At o pv st R).
Proof.
  intros HR Hw. apply spec_get. intros s0.
  destruct (decide (_identity j = None)) as [|Hid]; [apply spec_raise; by intros s [? _]|].
  destruct (decide (_identity j = owned s0)) as [Ho|]; [|apply spec_raise; by intros s [? _]].
  destruct (_validate j) as [[[st' c] ks]|] eqn:Hv; [|apply spec_raise; by intros s [? _]].
  destruct (confirmed (res s0) && negb c); [apply spec_raise; by intros s [? _]|].
  intros s [[Hs Hr] ->]. cbn. pose proof (so_owned _ _ _ _ Hs) as Hown. split.
  - split; [by apply sound_res|by apply HR].
  - rewrite <- Hown. split_and!; try done; [congruence|]. exists st', c, ks. done.
Qed.

(** A request about the owned job and a look at its answer. *)
Lemma ask_spec {B} x pv st R r until (k : job -> SM B) Q E :
  0 < T0 -> stable R -> r = Status (Some (i_id x)) \/ r = Cancel (i_id x) ->
  (forall j, from_world j -> _identity j = Some x ->
     spec (fun s => At (Some x) pv st R s /\ shows j (res s)) (k j) Q E) ->
  (forall y s, At (Some x) pv st R s -> E y s) ->
  spec (At (Some x) pv st R) (bind (call r until) (fun j => bind (observe j) k)) Q E.
Proof.
  intros HT HR Hr Hk HE.
  assert (H0 : is_preview r = 0%nat /\ is_start r = 0%nat) by (by destruct Hr as [->| ->]). destruct H0 as [Hp Hs].
  eapply spec_bind.
  - eapply spec_conseq; [apply (call_spec (Some x) pv st R r until HT)|done|intros j s H; exact H|].
    + destruct Hr as [->| ->]; cbn; eauto.
    + by rewrite Hs.
    + rewrite Hp, Hs, !Nat.add_0_r. exact HE.
  - intros j. cbn beta. rewrite Hp, Hs, !Nat.add_0_r. apply spec_pure. intros Hw. eapply spec_bind.
    + eapply spec_conseq; [by apply observe_spec|done|intros j' s H; exact H|exact HE].
    + intros j'. cbn beta. intros s [HA (-> & Hid & _ & Hsh)]. by apply Hk.
Qed.

(** ** The phases *)

(** Nothing decided yet. *)
Definition pristine (r : ScheduledResult) : Prop := outcome r = "failed" /\ exit_code r <> 0 /\ cleanup_state r = "not_requested".
(** Cleaning up. *)
Definition closing (r : ScheduledResult) : Prop := outcome r = "failed" /\ exit_code r <> 0 /\ cleanup_state r = "unconfirmed".
Definition closed (b : bool) (r : ScheduledResult) : Prop :=
  outcome r = "failed" /\ exit_code r <> 0 /\ (if b then cleanup_state r ∈ TERMINAL else cleanup_state r = "unconfirmed").

Lemma stable_pristine : stable pristine. Proof. by intros st c ks r H. Qed.
Lemma stable_closing : stable closing. Proof. by intros st c ks r H. Qed.

Lemma clean_preview_spec x pv st j :
  from_world j -> _identity j = Some x ->
  spec (fun s => At (Some x) pv st pristine s /\ shows j (res s)) (clean_preview w j)
    (fun _ s => (At (Some x) pv st pristine s /\ shows j (res s)) /\ (st_of j = "ready" -> approved (Some x)))
    (fun _ => At (Some x) pv st pristine).
Proof.
  intros [n Hn] Hid. apply spec_get. intros s0.
  destruct (confirmed_of j) eqn:Hconf; [apply spec_raise; by intros s [[? _] _]|].
  destruct (error_of j || _ || _) eqn:Herr; [apply spec_raise; by intros s [[? _] _]|].
  apply orb_false_iff in Herr as [[Herr He]%orb_false_iff Hc]. apply negb_false_iff, Z.eqb_eq in He, Hc.
  destruct (negb _); [apply spec_raise; by intros s [[? _] _]|].
  destruct (decide (st_of j = "ready")) as [Hready|Hne]; [|apply spec_ret; intros s [? _]; by split].
  destruct (_integer (jget "expires_ns" j)) as [expiry|] eqn:Hx; [|apply spec_raise; by intros s [[? _] _]].
  intros s [[HA Hsh] ->]. unfold bind, time_ns. cbn beta iota.
  destruct (Z.leb_spec expiry (w_wall w (step s0))) as [|Hlt]; cbn [raise ret].
  { destruct HA. split; [by apply sound_bump|done]. }
  split; [split; [destruct HA; split; [by apply sound_bump|done]|done]|]. intros _.
  destruct Hsh as (st' & c & ks & Hv & _ & _ & Hk). destruct (validate_fields _ _ _ _ Hv) as (Hst & Hcf & _).
  exists n, (step s0), x, j, ks, expiry. rewrite Hready in Hst. rewrite Hconf in Hcf. subst st' c.
  split_and!; try done. unfold count_of in He, Hc. rewrite Hk in He, Hc. done.
Qed.

Lemma At_weaken o pv st (R R' : ScheduledResult -> Prop) s : (forall r, R r -> R' r) -> At o pv st R s -> At o pv st R' s.
Proof. intros HR [? ?]. split; [done|by apply HR]. Qed.

(** *** Cleanup *)

Section cleanup.
Hypothesis HT : 0 < T0.
Variables (x : _Identity) (pv st : nat).
Notation Closing := (At (Some x) pv st closing).

Lemma see_spec {B} j (k : SM B) Q E :
  spec Closing k Q E -> spec (fun s => Closing s /\ shows j (res s)) (bind (put (set_seen (Some j))) (fun _ => k)) Q E.
Proof.
  intros Hk. eapply (spec_bind _ _ _ (fun _ => Closing)); [apply spec_put|intros []; exact Hk].
  intros s [[Hs HR] _]. split; [by apply sound_seen|done].
Qed.

Lemma cancel_spec until :
  spec Closing (catch (bind (call (Cancel (i_id x)) until) (fun j => bind (observe j) (fun j =>
            bind (put (set_seen (Some j))) (fun _ => put (set_ack true)))))
       (fun y => match y with
                 | ClientError _ => Some (bind (call (Status (Some (i_id x))) until) (fun j => bind (observe j) (fun j =>
                                          put (set_seen (Some j)))))
                 | _ => None
                 end)) (fun _ => Closing) (fun _ => Closing).
Proof.
  apply (spec_catch _ _ _ _ (fun _ => Closing)).
  - apply ask_spec; [done|apply stable_closing|by right| |done]. intros j _ _. apply see_spec. apply spec_put.
    intros s [Hs HR]. split; [by apply sound_ack|done].
  - intros [] k; try done. intros [= <-]. apply ask_spec; [done|apply stable_closing|by left| |done]. intros j _ _.
    apply spec_put. intros s [[Hs HR] _]. split; [by apply sound_seen|done].
  - done.
Qed.

Lemma cleanup_round_spec until :
  spec Closing (cleanup_round w x until)
    (fun b s => match b with None => Closing s | Some b => b = true /\ At (Some x) pv st (closed true) s end) (fun _ => Closing).
Proof.
  apply spec_get. intros s0. eapply (spec_bind _ _ _ (fun _ => Closing)).
  { eapply spec_pre; [|intros s [Hs _]; exact Hs]. destruct (needs_cancel s0); [apply cancel_spec|by apply spec_ret]. }
  intros []. eapply spec_bind; [apply remaining_spec|]. intros left. cbn beta.
  eapply spec_pre; [|intros s [Hs _]; exact Hs]. apply spec_get. intros s1. eapply spec_pre; [|intros s [Hs _]; exact Hs].
  destruct (seen s1) as [j|]; [|by apply spec_ret].
  destruct (bool_decide (st_of j ∈ TERMINAL)) eqn:Ht.
  - apply bool_decide_eq_true in Ht. eapply spec_bind; [apply (spec_put _ _ (fun _ => At (Some x) pv st (closed true)))|].
    + intros s [Hs (Ho & He & _)]. split; [by apply sound_res|]. done.
    + intros []. by apply spec_ret.
  - eapply spec_bind; [apply pause_spec|]. intros [].
    apply ask_spec; [done|apply stable_closing|by left| |done]. intros j' _ _. apply see_spec. by apply spec_ret.
Qed.

Lemma cleanup_loop_spec fuel until :
  spec Closing (cleanup_loop w fuel x until) (fun b => At (Some x) pv st (closed b))
    (fun y s => y = OutOfFuel /\ Closing s).
Proof.
  induction fuel as [|fuel IH]; cbn [cleanup_loop]; [by apply spec_raise|].
  eapply spec_bind; [apply monotonic_spec|]. intros now. cbn beta. destruct (until <=? now); [by apply spec_ret|].
  eapply (spec_bind _ _ _ (fun b s => match b with None => Closing s | Some b => At (Some x) pv st (closed b) s end)).
  - eapply (spec_catch _ _ _ _ (fun _ => Closing)).
    + eapply spec_conseq; [apply cleanup_round_spec|done| |done]. intros [b|] s; [by intros [-> ?]|done].
    + intros y k Hk. assert (Hcase : (exists t, k = bind (put (on_res (note_signal t))) (fun _ => ret None)) \/ k = ret (Some false))
        by (destruct y; simplify_eq; eauto).
      destruct Hcase as [[t ->]| ->]; [|by apply spec_ret].
      eapply spec_bind; [apply (spec_put _ _ (fun _ => Closing))|intros []; by apply spec_ret].
      intros s [Hs (Ho & He & Hc)]. split; [by apply sound_res|]. split; [done|]. split; [by destruct t|done].
    + intros y s Hy Hs. by destruct y.
  - intros [b|]; [by apply spec_ret|exact IH].
Qed.

Definition undecided (r : ScheduledResult) : Prop := outcome r = "failed" /\ exit_code r <> 0.

Lemma cleanup_spec fuel :
  spec (At (Some x) pv st undecided) (cleanup w cancel_timeout fuel x) (fun b => At (Some x) pv st (closed b))
    (fun y s => y = OutOfFuel /\ Closing s).
Proof.
  eapply spec_bind; [apply monotonic_spec|]. intros now. cbn beta.
  eapply spec_bind; [apply (spec_put _ _ (fun _ => Closing))|intros []].
  { intros s [Hs [Ho He]]. split; [by apply sound_res|done]. }
  eapply spec_bind; [apply (spec_put _ _ (fun _ => Closing))|intros []].
  { intros s [Hs HR]. split; [by apply sound_seen|done]. }
  eapply spec_bind; [apply (spec_put _ _ (fun _ => Closing))|intros []].
  { intros s [Hs HR]. split; [by apply sound_ack|done]. }
  apply cleanup_loop_spec.
Qed.
End cleanup.

(** *** The body *)

(** The server had reported the owned job finished, confirmed and clean. *)
Definition finished (o : option _Identity) : Prop :=
  exists n x j ks, o = Some x /\ w_answer w n = Reply j /\ _identity j = Some x /\ _validate j = Some ("completed", true, ks)
    /\ clean ks /\ error_of j = false.

(** How the body may end, and how it may fail. *)
Definition ended (o : option _Identity) (r : ScheduledResult) : Prop :=
  (outcome r = "skipped_busy" /\ exit_code r = 0 /\ o = None /\ cleanup_state r = "not_requested")
  \/ (outcome r = "completed" /\ exit_code r = 0 /\ dry_run = false /\ finished o /\ cleanup_state r = "not_requested")
  \/ (outcome r = "dry_run" /\ exit_code r = 0 /\ dry_run = true /\ cleanup_state r ∈ TERMINAL
      /\ state r = Some "cancelled" /\ confirmed r = false)
  \/ closed true r.
Definition failing (r : ScheduledResult) : Prop :=
  undecided r /\ (cleanup_state r ∈ "not_requested" :: "unconfirmed" :: TERMINAL).

Section body.
Hypothesis HT : 0 < T0.
Variable x : _Identity.

Lemma pristine_failing r : pristine r -> failing r.
Proof. intros (Ho & He & Hc). split; [done|]. rewrite Hc. left. Qed.
Lemma closing_failing r : closing r -> failing r.
Proof. intros (Ho & He & Hc). split; [done|]. rewrite Hc. right. left. Qed.
Lemma closed_failing b r : closed b r -> failing r.
Proof. intros (Ho & He & Hc). split; [done|]. destruct b; [right; by right|]. rewrite Hc. right. left. Qed.

Lemma wait_ready_spec fuel d j pv st :
  from_world j -> _identity j = Some x ->
  spec (fun s => At (Some x) pv st pristine s /\ shows j (res s)) (wait_ready w fuel x d j)
    (fun _ s => At (Some x) pv st pristine s /\ approved (Some x)) (fun _ => At (Some x) pv st pristine).
Proof.
  revert j. induction fuel as [|fuel IH]; intros j Hw Hid; cbn [wait_ready]; [by apply spec_raise; intros s [? _]|].
  eapply (spec_bind _ _ _ (fun _ s => At (Some x) pv st pristine s /\ shows j (res s))).
  { intros s [HA Hsh]. unfold Scheduler.remaining, bind, monotonic. cbn beta iota.
    assert (HA' : At (Some x) pv st pristine (bump s)) by (destruct HA; split; [by apply sound_bump|done]).
    by destruct (_ <=? 0). }
  intros left. eapply spec_bind; [by apply clean_preview_spec|]. intros []. cbn beta. apply spec_pure. intros Hap.
  destruct (decide (st_of j = "ready")) as [Hr|_]; [apply spec_ret; intros s [? _]; split; auto|].
  eapply spec_pre; [|intros s [Hs _]; exact Hs]. eapply spec_bind; [apply pause_spec|]. intros [].
  apply ask_spec; [done|apply stable_pristine|by left| |done]. intros j' Hw' Hid'. by apply IH.
Qed.

Lemma wait_completed_spec fuel d j pv st :
  dry_run = false -> from_world j -> _identity j = Some x ->
  spec (fun s => At (Some x) pv st pristine s /\ shows j (res s)) (wait_completed w fuel x d j)
    (fun _ => At (Some x) pv st (ended (Some x))) (fun _ => At (Some x) pv st pristine).
Proof.
  intros Hdry. revert j. induction fuel as [|fuel IH]; intros j Hw Hid; cbn [wait_completed]; [by apply spec_raise; intros s [? _]|].
  eapply (spec_bind _ _ _ (fun _ s => At (Some x) pv st pristine s /\ shows j (res s))).
  { intros s [HA Hsh]. unfold Scheduler.remaining, bind, monotonic. cbn beta iota.
    assert (HA' : At (Some x) pv st pristine (bump s)) by (destruct HA; split; [by apply sound_bump|done]).
    by destruct (_ <=? 0). }
  intros left. apply spec_get. intros s0.
  destruct (error_of j) eqn:Herr; [apply spec_raise; by intros s [[? _] _]|].
  destruct (negb (confirmed_of j) || _) eqn:Hcf; [apply spec_raise; by intros s [[? _] _]|].
  apply orb_false_iff in Hcf as [Hcf _]. apply negb_false_iff in Hcf.
  destruct (decide (st_of j = "completed")) as [Hst|_].
  - destruct (negb _ || negb _) eqn:Hk; [apply spec_raise; by intros s [[? _] _]|].
    apply orb_false_iff in Hk as [He Hc]. apply negb_false_iff, Z.eqb_eq in He, Hc.
    apply spec_put. intros s [[[Hs (_ & _ & Hcl)] (st' & c & ks & Hv & _ & _ & Hks)] ->].
    destruct (validate_fields _ _ _ _ Hv) as (Hst' & Hcf' & _). rewrite Hst in Hst'. rewrite Hcf in Hcf'. subst st' c.
    split; [by apply sound_res|]. right. left. split_and!; try done. destruct Hw as [n Hn]. exists n, x, j, ks.
    unfold count_of in He, Hc. rewrite Hks in He, Hc. done.
  - eapply spec_pre; [|intros s [[Hs _] _]; exact Hs]. eapply spec_bind; [apply pause_spec|]. intros [].
    apply ask_spec; [done|apply stable_pristine|by left| |done]. intros j' Hw' Hid'. by apply IH.
Qed.

(** Where the body stops, with at most one preview and one start behind it. *)
Definition good_end (s : Sched) : Prop := exists o st, (st <= 1)%nat /\ At o 1 st (ended o) s.
Definition bad_end (s : Sched) : Prop := exists o st, (st <= 1)%nat /\ At o 1 st failing s.

Lemma bad_end_intro o pv st (R : ScheduledResult -> Prop) s :
  (forall r, R r -> failing r) -> (pv <= 1)%nat -> (st <= 1)%nat -> At o pv st R s -> bad_end s.
Proof.
  intros HR Hp Hst [Hs Hr]. exists o, st. split; [done|]. split; [by apply (sound_more _ pv)|by apply HR].
Qed.

Lemma apply_job_spec fuel d :
  dry_run = false -> approved (Some x) ->
  spec (At (Some x) 1 0 pristine) (apply_job w fuel x d) (fun _ => good_end) (fun _ => bad_end).
Proof.
  intros Hdry Hap. eapply (spec_bind _ _ _ (fun j s => At (Some x) 1 1 pristine s /\ from_world j)).
  - eapply (spec_catch _ _ _ _ (fun _ => At (Some x) 1 1 pristine)).
    + apply (call_spec (Some x) 1 0 pristine (Start (i_id x)) d HT); [cbn; eauto|done].
    + intros [] k; try done. intros [= <-].
      eapply spec_conseq; [apply (call_spec (Some x) 1 1 pristine (Status (Some (i_id x))) d HT); [cbn; eauto|done]|done..|].
      intros y s. by apply bad_end_intro, le_n; [apply pristine_failing|].
    + intros y s _. apply bad_end_intro; [apply pristine_failing|lia..].
  - intros j. cbn beta. apply spec_pure. intros Hw. eapply spec_bind.
    + eapply spec_conseq; [apply (observe_spec (Some x) 1 1 pristine j stable_pristine Hw)|done|intros a s H; exact H|].
      intros y s. apply bad_end_intro; [apply pristine_failing|lia..].
    + intros j'. cbn beta. intros s [HA (-> & Hid & _ & Hsh)].
      pose proof (wait_completed_spec fuel d j 1 1 Hdry Hw Hid s (conj HA Hsh)) as Hwait.
      destruct (wait_completed w fuel x d j s) as [[[]|y] s'].
      * exists (Some x), 1%nat. split; [lia|exact Hwait].
      * revert Hwait. apply bad_end_intro; [apply pristine_failing|lia..].
Qed.

Lemma estimate_only_spec fuel :
  dry_run = true -> spec (At (Some x) 1 0 pristine) (estimate_only w cancel_timeout fuel x) (fun _ => good_end) (fun _ => bad_end).
Proof.
  intros Hdry. apply spec_get. intros s0. cbv zeta.
  eapply (spec_bind _ _ _ (fun b => At (Some x) 1 0 (closed b))).
  - eapply spec_conseq; [apply (cleanup_spec HT x 1 0 fuel)| |done|].
    + intros s [HA _]. revert HA. apply At_weaken. by intros r (? & ? & _).
    + intros y s [_ HA]. revert HA. apply bad_end_intro; [apply closing_failing|lia..].
  - intros ok. cbn beta. apply spec_get. intros s1.
    assert (Hbad : forall s, At (Some x) 1 0 (closed ok) s /\ s = s1 -> bad_end s).
    { intros s [HA _]. revert HA. apply bad_end_intro; [apply closed_failing|lia..]. }
    destruct ok; cbn [negb]; [|by apply spec_raise].
    destruct (negb _ || confirmed (res s1)) eqn:Hc; [by apply spec_raise|].
    apply orb_false_iff in Hc as [Hst Hconf]. apply negb_false_iff, bool_decide_eq_true in Hst.
    eapply (spec_bind _ _ _ (fun _ s => At (Some x) 1 0 (closed true) s /\ state (res s) = Some "cancelled" /\ confirmed (res s) = false)).
    { apply spec_put. intros s [[Hs HR] ->]. split; [|done]. split; [by apply sound_res|done]. }
    intros []. destruct (error_code (res s1)) as [err|].
    + apply spec_ret. intros s [HA _]. exists (Some x), 0%nat. split; [lia|]. revert HA. apply At_weaken. intros r Hr. by right; right; right.
    + apply spec_put. intros s [[Hs (_ & _ & Hcl)] [Hs1 Hs2]]. exists (Some x), 0%nat. split; [lia|]. split; [by apply sound_res|].
      right. right. left. done.
Qed.
End body.

Lemma sound_own x pv s : 0 < T0 -> sound None pv 0 s -> sound (Some x) pv 0 (set_owned x s).
Proof.
  intros HT []. split; try done; [|by intros H%Nat.lt_irrefl].
  intros i [r t] Hi. destruct (so_sent0 i _ Hi) as [Ht [Hr|Hr]]; (split; [done|]); [left|by right].
  destruct r as [[k|]| |k|k]; try done; cbn in Hr |- *; by destruct Hr as (? & ? & _).
Qed.

Lemma own_preview_spec fuel d root j :
  0 < T0 -> from_world j ->
  spec (At None 1 0 pristine) (own_preview w older_than dry_run cancel_timeout fuel d root j) (fun _ => good_end) (fun _ => bad_end).
Proof.
  intros HT Hw. unfold own_preview.
  assert (Hbad : forall o y (s : Sched), At o 1 0 pristine s -> (fun (_ : stop) => bad_end) y s).
  { intros o y s. apply bad_end_intro; [apply pristine_failing|lia..]. }
  destruct (_identity j) as [x|] eqn:Hid; [|apply spec_raise; intros s; by apply (Hbad None OtherException)].
  destruct (negb _); [apply spec_raise; intros s; by apply (Hbad None OtherException)|].
  destruct (match root with Some _ => _ | None => _ end); [apply spec_raise; intros s; by apply (Hbad None OtherException)|].
  eapply (spec_bind _ _ _ (fun _ => At (Some x) 1 0 pristine)).
  { apply spec_put. intros s [Hs HR]. split; [by apply sound_own|done]. }
  intros []. eapply (spec_bind _ _ _ (fun _ => At (Some x) 1 0 pristine)).
  { apply spec_put. intros s [Hs HR]. split; [by apply sound_res|done]. }
  intros []. eapply spec_bind.
  { eapply spec_conseq; [apply (observe_spec (Some x) 1 0 pristine j stable_pristine Hw)|done|intros a s H; exact H|apply Hbad]. }
  intros j'. cbn beta.
  eapply (spec_pre (fun s => (At (Some x) 1 0 pristine s /\ shows j (res s)) /\ j' = j)); [|by intros s [HA (-> & _ & _ & Hsh)]].
  apply spec_pure. intros ->.
  eapply spec_bind.
  { eapply spec_conseq; [apply (wait_ready_spec HT x fuel d j 1 0 Hw Hid)|done|intros a s H; exact H|apply Hbad]. }
  intros j''. cbn beta. apply spec_pure. intros Hap.
  destruct dry_run eqn:Hdry; [by apply estimate_only_spec|by apply apply_job_spec].
Qed.

Lemma bad_pristine o pv (y : stop) s : (pv <= 1)%nat -> At o pv 0 pristine s -> bad_end s.
Proof. intros Hp. apply bad_end_intro; [apply pristine_failing|lia..]. Qed.

Lemma skip_busy_spec pv : (pv <= 1)%nat -> spec (At None pv 0 pristine) skip_busy (fun _ => good_end) (fun _ => bad_end).
Proof.
  intros Hp. apply spec_put. intros s [Hs (_ & _ & Hc)]. exists None, 0%nat. split; [lia|].
  split; [apply sound_res; by apply (sound_more _ pv)|]. by left.
Qed.

Lemma create_preview_spec fuel d root :
  0 < T0 -> spec (At None 0 0 pristine) (create_preview w older_than dry_run cancel_timeout fuel d root) (fun _ => good_end) (fun _ => bad_end).
Proof.
  intros HT. eapply (spec_bind _ _ _ (fun r s => At None 1 0 pristine s /\ match r with Some j => from_world j | None => True end)).
  - eapply (spec_catch _ _ _ _ (fun _ => At None 1 0 pristine)).
    + eapply spec_bind; [apply (call_spec None 0 0 pristine (Preview older_than) d HT); [done|done]|].
      intros j. cbn beta. by apply spec_ret.
    + intros y k Hk. assert (k = ret None) as -> by (repeat case_match; by simplify_eq). apply spec_ret. by intros s Hs.
    + intros y s _. by apply (bad_pristine None 1 y).
  - intros [j|]; cbn beta; apply spec_pure; intros Hw; [by apply own_preview_spec|by apply skip_busy_spec].
Qed.

Lemma body_spec fuel :
  spec (fun s => At None 0 0 pristine s /\ sent s = []) (body w older_than dry_run max_runtime cancel_timeout poll_interval fuel)
    (fun _ => good_end) (fun _ => bad_end).
Proof.
  assert (Hbad : forall y s, At None 0 0 pristine s -> bad_end s) by (intros y s; apply (bad_pristine None 0 y); lia).
  apply spec_get. intros s0. destruct (duration_ns older_than); [|apply spec_raise; intros s [[HA _] _]; by apply (Hbad OutOfFuel)].
  destruct (existsb _ _) eqn:Hlim; [apply spec_raise; intros s [[HA _] _]; by apply (Hbad OutOfFuel)|].
  eapply (spec_pre (fun s => (At None 0 0 pristine s /\ sent s = []) /\ 0 < T0)).
  2:{ intros s [[HA Hnil] ->]. split; [done|]. destruct HA as [Hs _]. rewrite <- (so_timeout _ _ _ _ Hs).
      cbn [existsb] in Hlim. rewrite !orb_false_iff, !Z.leb_gt in Hlim. lia. }
  apply spec_pure. intros HT. eapply (spec_bind _ _ _ (fun _ s => At None 0 0 pristine s /\ sent s = [])).
  { intros s [[Hs HR] Hnil]. split; [split; [by apply sound_bump|done]|done]. }
  intros now. cbv zeta. eapply (spec_bind _ _ _ (fun _ s => At None 0 0 pristine s /\ sent s = [])).
  { apply spec_put. intros s [[Hs HR] Hnil]. split; [split; [by apply sound_deadline|done]|done]. }
  intros []. eapply (spec_bind _ _ _ (fun _ => At None 0 0 pristine)).
  - eapply (spec_catch _ _ _ _ (fun _ => At None 0 0 pristine)).
    + eapply spec_bind; [eapply spec_pre; [apply (call_spec_first None 0 0 pristine (Status None) _ HT); done|]; intros s [HA Hnil]; auto|].
      intros j. cbn beta. apply spec_ret. by intros s [? _].
    + intros y k Hk. assert (k = ret None) as -> by (repeat case_match; by simplify_eq). by apply spec_ret.
    + intros y s _. apply Hbad. exact OutOfFuel.
  - intros [j|]; [|by apply create_preview_spec].
    destruct (_identity j) as [i|]; [|apply spec_raise; intros s; by apply (Hbad OutOfFuel)].
    destruct (_validate j) as [[[st c] ks]|]; [|apply spec_raise; intros s; by apply (Hbad OutOfFuel)].
    destruct (bool_decide (st ∈ BUSY)); [apply skip_busy_spec; lia|by apply create_preview_spec].
Qed.

(** *** The whole run *)

Lemma failing_error r e c : c <> 0 -> failing r -> failing (set_error e c r).
Proof. intros Hc ((Ho & He) & Hcl). done. Qed.

Lemma report_failure_spec y : spec bad_end (report_failure w y) (fun _ => bad_end) (fun _ => bad_end).
Proof.
  assert (Hput : forall e (c : Sched -> Z), (forall s, bad_end s -> c s <> 0) ->
            forall s, bad_end s -> bad_end (on_res (set_error e (c s)) s)).
  { intros e c Hc s Hb. specialize (Hc s Hb). destruct Hb as (o & st & Hst & Hs & HR). exists o, st. split; [done|].
    split; [by apply sound_res|by apply failing_error]. }
  assert (Hexit : forall s, bad_end s -> exit_code (res s) <> 0) by (by intros s (o & st & _ & _ & (_ & He) & _)).
  assert (Hbump : forall s, bad_end s -> bad_end (bump s)).
  { intros s (o & st & Hst & Hs & HR). exists o, st. split; [done|]. split; [by apply sound_bump|done]. }
  intros s Hb. destruct y as [code|code|[]| | |]; cbn [report_failure]; unfold bind, get, put, raise, monotonic; cbn beta iota; try done;
    try (by apply (Hput _ (fun _ => _)));
    try (by apply (Hput _ (fun s => exit_code (res s)))).
  all: destruct (deadline s) as [d|]; [destruct (d =? 0)|]; try (by apply (Hput _ (fun s => exit_code (res s)))).
  all: cbn beta iota; apply (Hput _ (fun _ => exit_code (res s))); [intros; by apply Hexit|by apply Hbump].
Qed.

(** The verdicts of a run that returns. *)
Definition verdict (o : option _Identity) (r : ScheduledResult) : Prop :=
  (outcome r = "skipped_busy" /\ exit_code r = 0 /\ o = None)
  \/ (outcome r = "completed" /\ exit_code r = 0 /\ dry_run = false /\ finished o)
  \/ (outcome r = "dry_run" /\ exit_code r = 0 /\ dry_run = true /\ state r = Some "cancelled" /\ confirmed r = false)
  \/ (outcome r = "failed" /\ exit_code r <> 0 /\ (o = None \/ cleanup_state r ∈ TERMINAL))
  \/ (outcome r = "cancel_unconfirmed" /\ exit_code r <> 0).

Definition settled (s : Sched) : Prop := exists o st, (st <= 1)%nat /\ At o 1 st (verdict o) s.

Definition nearly (o : option _Identity) (r : ScheduledResult) : Prop :=
  (outcome r = "skipped_busy" /\ exit_code r = 0 /\ o = None /\ cleanup_state r <> "unconfirmed")
  \/ (outcome r = "completed" /\ exit_code r = 0 /\ dry_run = false /\ finished o /\ cleanup_state r <> "unconfirmed")
  \/ (outcome r = "dry_run" /\ exit_code r = 0 /\ dry_run = true /\ state r = Some "cancelled" /\ confirmed r = false
      /\ cleanup_state r <> "unconfirmed")
  \/ (exit_code r <> 0 /\ (cleanup_state r = "unconfirmed" \/ (outcome r = "failed" /\ (o = None \/ cleanup_state r ∈ TERMINAL)))).

Lemma terminal_confirmed c : c ∈ TERMINAL -> c <> "unconfirmed".
Proof. intros Hc ->. by apply (bool_decide_eq_true_2 _) in Hc. Qed.

Lemma ended_nearly o r : ended o r -> nearly o r.
Proof.
  intros [(? & ? & ? & Hc)|[(? & ? & ? & ? & Hc)|[(? & ? & ? & Hc & ? & ?)|(? & ? & Hc)]]].
  - left. by rewrite Hc.
  - right; left. by rewrite Hc.
  - right; right; left. apply terminal_confirmed in Hc. done.
  - right; right; right. auto.
Qed.

(** What [finish] may still have to do. *)
Lemma end_cases s :
  good_end s \/ bad_end s ->
  exists o st, (st <= 1)%nat /\ At o 1 st (fun r => nearly o r \/ (undecided r /\ cleanup_state r = "not_requested")) s.
Proof.
  intros [(o & st & Hst & HA)|(o & st & Hst & HA)]; exists o, st; (split; [done|]); revert HA; apply At_weaken; intros r.
  - left. by apply ended_nearly.
  - intros [[Ho He] Hc]. apply elem_of_cons in Hc as [Hc|Hc]; [by right|]. left. right; right; right. split; [done|].
    apply elem_of_cons in Hc as [Hc|Hc]; [by left|right; auto].
Qed.

Lemma closed_nearly o b r : closed b r -> nearly o r.
Proof. intros (Ho & He & Hc). right; right; right. split; [done|]. destruct b; [right; auto|by left]. Qed.

Lemma finish_spec fuel :
  spec (fun s => good_end s \/ bad_end s) (finish w cancel_timeout fuel)
    (fun _ => settled) (fun _ s => exists o st, (st <= 1)%nat /\ sound o 1 st s).
Proof.
  intros s0 H0. apply end_cases in H0 as (o & st & Hst & HA). revert s0 HA.
  change (spec (At o 1 st (fun r => nearly o r \/ (undecided r /\ cleanup_state r = "not_requested"))) (finish w cancel_timeout fuel)
    (fun _ => settled) (fun _ s => exists o st, (st <= 1)%nat /\ sound o 1 st s)).
  apply spec_get. intros s0. eapply (spec_bind _ _ _ (fun _ => At o 1 st (nearly o))).
  - intros s [[Hs HR] ->]. pose proof (so_owned _ _ _ _ Hs) as Ho. rewrite Ho. destruct o as [x|].
    + destruct (negb (exit_code (res s0) =? 0) && bool_decide (cleanup_state (res s0) = "not_requested")) eqn:Hc.
      * apply andb_true_iff in Hc as [He Hc]. apply negb_true_iff, Z.eqb_neq in He. apply bool_decide_eq_true in Hc.
        assert (Hu : At (Some x) 1 st undecided s0).
        { split; [done|]. destruct HR as [[(_ & ? & _)|[(_ & ? & _)|[(_ & ? & _)|(_ & [Hx|[Ho' [?|Hx]]])]]]|[? _]]; done || congruence. }
        unfold bind. pose proof (cleanup_spec (so_positive _ _ _ _ Hs ltac:(done)) x 1 st fuel s0 Hu) as Hcl.
        destruct (cleanup w cancel_timeout fuel x s0) as [[b|y] s']; [|exists (Some x), st; split; [done|apply Hcl]].
        destruct b; cbn [ret put]; [revert Hcl; apply At_weaken; intros r; apply closed_nearly|].
        destruct Hcl as [Hs' (_ & He' & Hc')]. split; [by apply sound_res|]. right; right; right. split; [done|by left].
      * cbn [ret]. split; [done|]. destruct HR as [HR|[[_ He] Hn]]; [done|]. exfalso.
        rewrite (proj2 (Z.eqb_neq _ _) He), bool_decide_eq_true_2 in Hc by done. done.
    + cbn [ret]. split; [done|]. destruct HR as [HR|[[Hou He] Hn]]; [done|]. right; right; right. auto.
  - intros []. apply spec_get. intros s1. destruct (decide (cleanup_state (res s1) = "unconfirmed")) as [Hc|Hc].
    + apply spec_put. intros s [[Hs HR] ->]. exists o, st. split; [done|]. split; [by apply sound_res|].
      right; right; right; right. cbn. split; [done|]. destruct HR as [(_ & _ & _ & ?)|[(_ & _ & _ & _ & ?)|[(_ & _ & _ & _ & _ & ?)|[? _]]]]; done.
    + apply spec_ret. intros s [[Hs HR] ->]. exists o, st. split; [done|]. split; [done|].
      destruct HR as [(? & ? & ? & _)|[(? & ? & ? & ? & _)|[(? & ? & ? & ? & ? & _)|[? [?|[? ?]]]]]]; [by left|by right; left| |done|].
      * right; right; left. done.
      * right; right; right; left. done.
Qed.

Notation run := (run_scheduled w older_than dry_run max_runtime cancel_timeout poll_interval).

Lemma run_spec fuel :
  spec (fun s => At None 0 0 pristine s /\ sent s = []) (run fuel) (fun r s => r = res s /\ settled s)
    (fun _ s => exists o st, (st <= 1)%nat /\ sound o 1 st s).
Proof.
  eapply (spec_bind _ _ _ (fun _ s => good_end s \/ bad_end s)).
  - eapply (spec_catch _ _ _ _ (fun _ => bad_end)).
    + eapply spec_conseq; [apply body_spec|done|by left|done].
    + intros y k [= <-]. eapply spec_conseq; [apply report_failure_spec|done|by right|].
      intros z s (o & st & Hst & HA & _). by exists o, st.
    + done.
  - intros []. eapply spec_bind; [apply finish_spec|]. intros []. apply spec_get. intros s0. apply spec_ret. by intros s [? ->].
Qed.

Lemma start_sound : At None 0 0 pristine (start_state T0) /\ sent (start_state T0) = [].
Proof. split; [|done]. split; [|done]. split; try done; cbn; lia. Qed.

(** C35: an unattended run never acts on a job it does not own.  Whatever the server
    answers, whenever signals arrive and wherever the run is cut off: it asks for
    at most one preview, of the configured age; it sends at most one start, never in
    a dry run, and only after the server reported that very job ready, unconfirmed,
    without errors and not expired; only the very first request asks for the current
    job without naming one, and every request but that and the preview names the job
    its own preview created; no request gets more time than the client allows, and
    the client's timeout is restored. *)
Theorem scheduled_requests fuel r s :
  run fuel (start_state T0) = (r, s) ->
  timeout s = T0
  /\ (previews (sent s) <= 1)%nat /\ (starts (sent s) <= 1)%nat
  /\ (forall i rq, sent s !! i = Some rq ->
        0 < rq.2 <= T0 /\ (allowed (owned s) rq.1 \/ (i = 0%nat /\ rq.1 = Status None)))
  /\ ((0 < starts (sent s))%nat -> dry_run = false /\ approved (owned s)).
Proof.
  intros Hr. pose proof (run_spec fuel _ start_sound) as Hs. rewrite Hr in Hs.
  assert (Hsound : exists o st, (st <= 1)%nat /\ sound o 1 st s).
  { destruct r as [r|y]; [|done]. destruct Hs as (_ & o & st & Hst & HA & _). eauto. }
  destruct Hsound as (o & st & Hst & []). rewrite so_owned0. split_and!; try done; [lia|]. intros Hpos. apply so_approved0. lia.
Qed.

(** C36: what the exit code of an unattended run means.  Zero: the server was busy and
    no job was created, or it was a dry run whose job ended cancelled and unconfirmed,
    or the run's own job was reported completed, confirmed and free of errors.
    Otherwise the run's job, if it has one, is known to be over, or the outcome says
    that its cancellation is unconfirmed. *)
Theorem scheduled_outcome fuel r s :
  run fuel (start_state T0) = (inl r, s) -> r = res s /\ verdict (owned s) r.
Proof.
  intros Hr. pose proof (run_spec fuel _ start_sound) as Hs. rewrite Hr in Hs.
  destruct Hs as (-> & o & st & _ & Hso & HR). split; [done|]. by rewrite (so_owned _ _ _ _ Hso).
Qed.

(** ** Termination *)

Hypothesis Hclock : forall n, w_mono w n < w_mono w (S n).

Lemma clock_le n m : (n <= m)%nat -> w_mono w n + Z.of_nat (m - n) <= w_mono w m.
Proof.
  induction 1 as [|m Hm IH]; [replace (n - n)%nat with 0%nat by lia; lia|]. pose proof (Hclock m).
  replace (S m - n)%nat with (S (m - n)) by lia. lia.
Qed.

(** At least [n] looks at the world. *)
Definition Past (n : nat) (s : Sched) : Prop := (n <= step s)%nat.
Definition Ends (n : nat) (y : stop) (s : Sched) : Prop := y <> OutOfFuel /\ Past n s.
Definition quiet {A} (m : SM A) : Prop := forall n, spec (Past n) m (fun _ => Past n) (Ends n).

Lemma still_bind {A B} (m : SM A) (k : A -> SM B) : quiet m -> (forall a, quiet (k a)) -> quiet (bind m k).
Proof. intros Hm Hk n. eapply spec_bind; [apply Hm|]. intros a. apply Hk. Qed.
Lemma still_ret {A} (a : A) : quiet (ret a). Proof. intros n. by apply spec_ret. Qed.
Lemma quiet_get : quiet get. Proof. by intros n s Hs. Qed.
Lemma still_raise {A} y : y <> OutOfFuel -> quiet (raise (A := A) y).
Proof. intros Hy n. by apply spec_raise. Qed.
Lemma quiet_put f : (forall s, step (f s) = step s) -> quiet (put f).
Proof. intros Hf n. apply spec_put. intros s Hs. unfold Past. by rewrite Hf. Qed.
Lemma still_catch {A} (m : SM A) h : quiet m -> (forall y k, h y = Some k -> quiet k) -> quiet (catch m h).
Proof.
  intros Hm Hh n. eapply (spec_catch _ _ _ _ (Ends n)); [apply Hm| |done]. intros y k Hk. eapply spec_pre; [by apply (Hh y k)|by intros s [_ ?]].
Qed.
Lemma put_ends f n E : (forall s, step (f s) = step s) -> spec (Past n) (put f) (fun _ => Past n) E.
Proof. intros Hf. apply spec_put. intros s Hs. unfold Past. by rewrite Hf. Qed.
Lemma quiet_monotonic : quiet (monotonic w). Proof. intros n s Hs. unfold Past in *. cbn. lia. Qed.

Ltac quiet :=
  repeat first
    [ apply still_bind; [|intros]
    | apply still_ret
    | apply quiet_get
    | apply quiet_monotonic
    | apply quiet_put; done
    | apply still_raise; done
    | case_match ].

Lemma quiet_remaining until : quiet (remaining until). Proof. unfold Scheduler.remaining. quiet. Qed.
Lemma quiet_call r until : quiet (call r until).
Proof.
  unfold Scheduler.call. apply still_bind; [apply quiet_remaining|intros left]. quiet.
Qed.
Lemma quiet_pause until : quiet (pause until).
Proof.
  apply still_bind; [apply quiet_remaining|]. intros left n s Hs. unfold Ends, Past in *. cbn.
  destruct (w_sleep w (step s)); [split; [done|cbn; lia]|cbn; lia].
Qed.
Lemma quiet_observe j : quiet (observe j). Proof. unfold observe. quiet. Qed.
Lemma quiet_clean j : quiet (clean_preview w j).
Proof. unfold clean_preview. quiet. Qed.

(** A look at the clock that finds time left. *)
Lemma remaining_ends until n :
  spec (Past n) (remaining until) (fun _ s => Past (S n) s /\ w_mono w n < until) (Ends n).
Proof.
  intros s Hs. unfold Scheduler.remaining, bind, monotonic. cbn beta iota. pose proof (clock_le n (step s) Hs).
  destruct (Z.leb_spec (until - w_mono w (step s)) 0); cbn; unfold Ends, Past in *; cbn; [split; [done|lia]|lia].
Qed.

Lemma ask_quiet {B} r until (k : job -> SM B) : (forall j, quiet (k j)) -> quiet (bind (call r until) (fun j => bind (observe j) k)).
Proof. intros Hk. apply still_bind; [apply quiet_call|]. intros j. apply still_bind; [apply quiet_observe|done]. Qed.

Lemma poll_ends {B} x n d (k : job -> SM B) Q :
  (forall j, spec (Past n) (k j) Q (Ends n)) ->
  spec (Past n) (bind (pause d) (fun _ => bind (call (Status (Some (i_id x))) d) (fun j => bind (observe j) k))) Q (Ends n).
Proof.
  intros Hk. eapply spec_bind; [apply quiet_pause|]. intros []. eapply spec_bind; [apply quiet_call|].
  intros j. eapply spec_bind; [apply quiet_observe|]. exact Hk.
Qed.

Lemma ends_weaken n m y s : (m <= n)%nat -> Ends n y s -> Ends m y s.
Proof. intros Hle [? ?]. unfold Ends, Past in *. split; [done|lia]. Qed.

Lemma wait_ready_ends x d fuel : forall n j,
  (Z.to_nat (d - w_mono w n) < fuel)%nat -> spec (Past n) (wait_ready w fuel x d j) (fun _ => Past n) (Ends n).
Proof.
  induction fuel as [|fuel IH]; intros n j Hf; [lia|]. cbn [wait_ready].
  eapply spec_bind; [apply remaining_ends|]. intros left. apply spec_pure. intros Hlt.
  eapply spec_conseq with (P := Past (S n)) (Q := fun _ => Past (S n)) (E := Ends (S n)); [|done| |].
  2:{ intros _ s. unfold Past. lia. }
  2:{ intros y s. apply ends_weaken. lia. }
  eapply spec_bind; [apply quiet_clean|]. intros []. destruct (decide _); [by apply spec_ret|].
  apply poll_ends. intros j'. apply IH. pose proof (Hclock n). lia.
Qed.

Lemma wait_completed_ends x d fuel : forall n j,
  (Z.to_nat (d - w_mono w n) < fuel)%nat -> spec (Past n) (wait_completed w fuel x d j) (fun _ => Past n) (Ends n).
Proof.
  induction fuel as [|fuel IH]; intros n j Hf; [lia|]. cbn [wait_completed].
  eapply spec_bind; [apply remaining_ends|]. intros left. apply spec_pure. intros Hlt.
  eapply spec_conseq with (P := Past (S n)) (Q := fun _ => Past (S n)) (E := Ends (S n)); [|done| |].
  2:{ intros _ s. unfold Past. lia. }
  2:{ intros y s. apply ends_weaken. lia. }
  apply spec_get. intros s0. eapply spec_pre; [|by intros s [Hs _]].
  destruct (error_of j); [by apply spec_raise|]. destruct (_ || _); [by apply spec_raise|].
  destruct (decide _); [destruct (_ || _); [by apply spec_raise|by apply put_ends]|].
  apply poll_ends. intros j'. apply IH. pose proof (Hclock n). lia.
Qed.

Lemma quiet_round x until : quiet (cleanup_round w x until).
Proof.
  unfold cleanup_round. apply still_bind; [apply quiet_get|intros s]. apply still_bind.
  - destruct (needs_cancel s); [|apply still_ret]. apply still_catch; [apply ask_quiet; intros; quiet|].
    intros [] k; try done. intros [= <-]. apply ask_quiet. intros. quiet.
  - intros []. apply still_bind; [apply quiet_remaining|intros left]. apply still_bind; [apply quiet_get|intros s'].
    destruct (seen s') as [j|]; [|apply still_ret]. destruct (bool_decide _); [quiet|].
    apply still_bind; [apply quiet_pause|intros []]. apply ask_quiet. intros. quiet.
Qed.

(** The cleanup catches whatever a round raises. *)
Definition never (y : stop) (s : Sched) : Prop := False.

Lemma cleanup_loop_ends x until fuel : forall n,
  (Z.to_nat (until - w_mono w n) < fuel)%nat -> spec (Past n) (cleanup_loop w fuel x until) (fun _ => Past n) never.
Proof.
  induction fuel as [|fuel IH]; intros n Hf; [lia|]. cbn [cleanup_loop].
  eapply (spec_bind _ _ _ (fun now s => Past (S n) s /\ w_mono w n <= now)).
  { intros s Hs. pose proof (clock_le n (step s) Hs). cbn. unfold Past in *. cbn. lia. }
  intros now. apply spec_pure. intros Hnow.
  eapply spec_conseq with (P := Past (S n)) (Q := fun _ => Past (S n)) (E := never); [|done| |done].
  2:{ intros _ s. unfold Past. lia. }
  destruct (Z.leb_spec until now); [by apply spec_ret|].
  eapply (spec_bind _ _ _ (fun _ => Past (S n))).
  - eapply (spec_catch _ _ _ _ (Ends (S n))); [apply quiet_round| |].
    + intros y k Hk. eapply spec_pre; [|intros s [_ Hs]; exact Hs].
      destruct y; simplify_eq; try (by apply spec_ret). eapply (spec_bind _ _ _ (fun _ => Past (S n))); [by apply put_ends|intros []; by apply spec_ret].
    + intros y s Hy [Hne _]. by destruct y.
  - intros [b|]; [by apply spec_ret|]. apply IH. pose proof (Hclock n). lia.
Qed.

Lemma cleanup_ends x fuel n :
  (Z.to_nat cancel_timeout < fuel)%nat -> spec (Past n) (cleanup w cancel_timeout fuel x) (fun _ => Past n) never.
Proof.
  intros Hf s Hs. unfold cleanup, bind at 1, monotonic at 1. cbn beta iota.
  set (s1 := bump s). unfold bind, put. cbn beta iota.
  pose proof (cleanup_loop_ends x (w_mono w (step s) + cancel_timeout) fuel (step s1)) as Hl.
  assert (Hm : (Z.to_nat (w_mono w (step s) + cancel_timeout - w_mono w (step s1)) < fuel)%nat).
  { unfold s1. cbn [step bump]. pose proof (Hclock (step s)). lia. }
  specialize (Hl Hm (set_ack false (set_seen None (on_res (set_cleanup "unconfirmed") s1))) (le_n _)).
  destruct (cleanup_loop _ _ _ _ _) as [[b|y] s']; [|done]. unfold Past in *; unfold s1 in *; cbn [step bump] in *. lia.
Qed.

Lemma cleanup_quiet x fuel : (Z.to_nat cancel_timeout < fuel)%nat -> quiet (cleanup w cancel_timeout fuel x).
Proof. intros Hf n. by eapply spec_conseq; [apply cleanup_ends| | |intros y s []]. Qed.

Section enough.
Variables (fuel n : nat) (d : Z).
Hypotheses (Hd : (Z.to_nat (d - w_mono w n) < fuel)%nat) (Hc : (Z.to_nat cancel_timeout < fuel)%nat).
Notation ends m := (spec (Past n) m (fun _ => Past n) (Ends n)).

Lemma apply_job_ends x : ends (apply_job w fuel x d).
Proof.
  eapply (spec_bind _ _ _ (fun _ => Past n)).
  - apply still_catch; [apply quiet_call|]. intros [] k; try done. intros [= <-]. apply quiet_call.
  - intros j. eapply spec_bind; [apply quiet_observe|]. intros j'. by apply wait_completed_ends.
Qed.

Lemma estimate_only_ends x : ends (estimate_only w cancel_timeout fuel x).
Proof.
  apply (still_bind get); [apply quiet_get|]. intros s0. cbv zeta. apply still_bind; [by apply cleanup_quiet|]. intros ok. quiet.
Qed.

Lemma own_preview_ends root j : ends (own_preview w older_than dry_run cancel_timeout fuel d root j).
Proof.
  unfold own_preview. destruct (_identity j) as [x|]; [|by apply spec_raise].
  destruct (negb _); [by apply spec_raise|]. destruct (match root with Some _ => _ | None => _ end); [by apply spec_raise|].
  do 2 (eapply spec_bind; [by apply put_ends|intros []]).
  eapply spec_bind; [apply quiet_observe|]. intros j'. eapply spec_bind; [by apply wait_ready_ends|]. intros j''.
  destruct dry_run; [apply estimate_only_ends|apply apply_job_ends].
Qed.

Lemma create_preview_ends root : ends (create_preview w older_than dry_run cancel_timeout fuel d root).
Proof.
  eapply (spec_bind _ _ _ (fun _ => Past n)).
  - apply still_catch; [apply still_bind; [apply quiet_call|intros; apply still_ret]|].
    intros y k Hk. assert (k = ret None) as -> by (repeat case_match; by simplify_eq). apply still_ret.
  - intros [j|]; [apply own_preview_ends|by apply put_ends].
Qed.
End enough.

Lemma body_ends fuel :
  (Z.to_nat max_runtime < fuel)%nat -> (Z.to_nat cancel_timeout < fuel)%nat ->
  spec (Past 0) (body w older_than dry_run max_runtime cancel_timeout poll_interval fuel) (fun _ => Past 0) (Ends 0).
Proof.
  intros Hm Hc s Hs. unfold body, bind at 1, get at 1. destruct (duration_ns older_than); [|done].
  destruct (existsb _ _); [done|]. unfold bind at 1, monotonic at 1. cbn beta iota zeta.
  set (d := w_mono w (step s) + max_runtime). unfold bind at 1, put at 1. cbn beta iota.
  set (n := S (step s)). set (s1 := set_deadline d (bump s)).
  assert (Hd : (Z.to_nat (d - w_mono w n) < fuel)%nat) by (pose proof (Hclock (step s)); unfold d, n; lia).
  match goal with |- match ?m s1 with _ => _ end =>
    assert (Hall : spec (Past n) m (fun _ => Past n) (Ends n)) end.
  - eapply (spec_bind _ _ _ (fun _ => Past n)).
    + apply still_catch; [apply still_bind; [apply quiet_call|intros; apply still_ret]|].
      intros y k Hk. assert (k = ret None) as -> by (repeat case_match; by simplify_eq). apply still_ret.
    + intros [j|]; [|by apply create_preview_ends]. destruct (_identity j) as [i|]; [|by apply spec_raise].
      destruct (_validate j) as [[[st c] ks]|]; [|by apply spec_raise].
      destruct (bool_decide (st ∈ BUSY)); [by apply put_ends|by apply create_preview_ends].
  - specialize (Hall s1 (le_n _)). match goal with |- match ?m s1 with _ => _ end => destruct (m s1) as [[u|y] s'] end.
    + unfold Past. lia.
    + destruct Hall as [? _]. split; [done|]. unfold Past. lia.
Qed.

(** C37: an unattended run ends within its budgets.  If the monotonic clock advances
    between any two readings, then a number of polls bounded by the longer of the two
    budgets is enough, whatever the server answers and however often the run is
    signalled: the run returns a result. *)
Theorem scheduled_returns fuel :
  (Z.to_nat max_runtime < fuel)%nat -> (Z.to_nat cancel_timeout < fuel)%nat ->
  exists r s, run fuel (start_state T0) = (inl r, s).
Proof.
  intros Hm Hc.
  assert (Hrun : spec (Past 0) (run fuel) (fun _ _ => True) never).
  { unfold run_scheduled. eapply (spec_bind _ _ _ (fun _ => Past 0)).
    - eapply (spec_catch _ _ _ _ (Ends 0)); [by apply body_ends| |done]. intros y k [= <-] s [Hy Hs].
      destruct y as [code|code|[]| | |]; try done; cbn [report_failure]; unfold bind, get, put, monotonic; cbn beta iota; try done.
      all: destruct (deadline s) as [d|]; [destruct (d =? 0)|]; cbn beta iota; unfold Past; lia.
    - intros []. eapply (spec_bind _ _ _ (fun _ => Past 0)).
      + unfold finish. apply spec_get. intros s0. eapply spec_pre; [|intros s [Hs _]; exact Hs].
        eapply (spec_bind _ _ _ (fun _ => Past 0)).
        * destruct (owned s0) as [x|]; [|by apply spec_ret]. destruct (_ && _); [|by apply spec_ret].
          eapply spec_bind; [by apply cleanup_ends|]. intros []; [by apply spec_ret|by apply put_ends].
        * intros []. apply spec_get. intros s1. eapply spec_pre; [|intros s [Hs _]; exact Hs].
          destruct (decide _); [by apply put_ends|by apply spec_ret].
      + intros []. apply spec_get. intros s0. by apply spec_ret. }
  specialize (Hrun (start_state T0) (le_n _)). destruct (run fuel (start_state T0)) as [[r|y] s]; [eauto|done].
Qed.
End run_spec.

(** ** Witnesses *)

Definition demo_job (st : string) (c : bool) : job :=
  [("id", JStr "00000000-0000-0000-0000-000000000001"); ("root", JStr "/blobs"); ("older_than", JStr "1s");
   ("cutoff_ns", JInt 0); ("preview_started_ns", JInt (10 ^ 9)); ("state", JStr st); ("confirmed", JBool c); ("error", JNull);
   ("expires_ns", JInt 1000);
   ("report", JObj (("root", JStr "/blobs") :: ("cutoff_ns", JInt 0) :: map (fun k => (k, JInt 0)) COUNTS))].

(** No current job; the preview is ready at once and the start completes it. *)
Definition demo_world : world :=
  MkWorld (fun n => match n with
                    | 2%nat => Fails (Some 404)
                    | 4%nat => Reply (demo_job "ready" false)
                    | 8%nat => Reply (demo_job "completed" true)
                    | _ => Breaks
                    end) (fun _ => None) Z.of_nat (fun _ => 0).
Definition demo_run : (ScheduledResult + stop) * Sched := run_scheduled demo_world "1s" false 100 10 1 200 (start_state 5).

Definition demo_result : ScheduledResult := match fst demo_run with inl r => r | inr _ => new_result end.

Lemma demo_fst : fst demo_run = inl demo_result.
Proof. vm_compute. reflexivity. Qed.
Lemma demo_returns : run_scheduled demo_world "1s" false 100 10 1 200 (start_state 5) = (inl demo_result, snd demo_run).
Proof.
  assert (Hrun : demo_run = run_scheduled demo_world "1s" false 100 10 1 200 (start_state 5)) by (unfold demo_run; reflexivity).
  rewrite <- Hrun, <- demo_fst. apply surjective_pairing.
Qed.
Lemma demo_outcome : outcome demo_result = "completed".
Proof. vm_compute. reflexivity. Qed.
Lemma demo_starts : starts (sent (snd demo_run)) = 1%nat.
Proof. vm_compute. reflexivity. Qed.

#[local] Opaque demo_run demo_result.
Lemma scheduled_requests_witness :
  starts (sent (snd demo_run)) = 1%nat /\ approved demo_world (owned (snd demo_run)).
Proof.
  split; [exact demo_starts|].
  destruct (scheduled_requests demo_world "1s" false 100 10 1 5 200 (inl demo_result) (snd demo_run) demo_returns) as (_ & _ & _ & _ & Ha).
  apply Ha. rewrite demo_starts. exact (le_n 1%nat).
Defined.

Lemma scheduled_outcome_witness : outcome demo_result = "completed" /\ finished demo_world (owned (snd demo_run)).
Proof.
  split; [exact demo_outcome|]. pose proof demo_outcome as Ho.
  destruct (scheduled_outcome demo_world "1s" false 100 10 1 5 200 demo_result (snd demo_run) demo_returns) as [_ Hv].
  destruct Hv as [[Hx _]|[(_ & _ & _ & Hf)|[[Hx _]|[[Hx _]|[Hx _]]]]]; [|exact Hf|..]; rewrite Hx in Ho; discriminate Ho.
Defined.

(** A server that never answers and a user who never stops interrupting. *)
Definition hostile_world : world := MkWorld (fun _ => Signal false) (fun _ => Some true) Z.of_nat (fun _ => 0).
Lemma scheduled_returns_witness :
  exists r s, run_scheduled hostile_world "1s" false 100 10 1 101 (start_state 5) = (inl r, s).
Proof.
  apply scheduled_returns.
  - intros n. cbn [w_mono hostile_world]. lia.
  - vm_compute. lia.
  - vm_compute. lia.
Defined.
