(* ===== verification/RetentionJob.v ===== *)
(** * The online retention job ([retention_service.py], windows of [blob_retention.py])

    One server-owned job prunes the blob root: a preview, an explicit start, then
    batches.  The service is a state machine whose actions are the requests of
    clients and the steps of the background task; a step ends where the task awaits
    the maintenance thread, so every interleaving of requests with the task is a
    sequence of actions.  What the world does during a step (clock readings, the
    directory entries of a window, I/O failures, the durable effects before the
    process dies) is the step's [env].  A crash loses the volatile state; a restart
    loads the one durable snapshot.

    Not modelled: file permissions of the snapshot, its JSON text (with the format
    checks on a snapshot of another root), the thread pool, and the sleeps between
    steps.  The flag [recovery_required] stands beside the report, not in the
    snapshot. *)
From stdpp Require Import base list strings gmap.
From Stdlib Require Import ZArith Lia.
From S2P Require Import Prelude PyText Utils Json JsonParse BlobKeys BlobDisk Retention.

#[local] Open Scope string_scope.
#[local] Open Scope list_scope.
#[local] Open Scope Z_scope.

Module Job.

Inductive jstate := Previewing | Ready | Running | Cancelling | Completed | Cancelled | Failed | Interrupted.
#[export] Instance jstate_eq_dec : EqDecision jstate.
Proof. solve_decision. Defined.
Definition TERMINAL : list jstate := [Completed; Cancelled; Failed; Interrupted].
Definition terminal (st : jstate) : bool := bool_decide (st ∈ TERMINAL).

Inductive phase := PhScan | PhReady | PhCheckpoint | PhRecovery | PhFinalizing | PhFinished.
(** What a client sees of a failure. *)
Inductive failure := FRetention | FFilesystem (e : exn) | FCheckpoint (e : exn) | FRestarted.

Record Job := MkJob {
  j_id : string;
  j_root : string;
  j_state : jstate;
  j_confirmed : bool;
  j_older : string;
  j_cutoff : Z;
  j_started : Z;
  j_error : option failure;
  j_phase : phase;
  j_windows : Z;
  j_rows : Z;
  j_expires : option Z;
}.

(** The fields an outcome replaces. *)
Record Outcome := MkOutcome { o_state : jstate; o_phase : phase; o_error : option (option failure) }.

Definition set_state (st : jstate) (j : Job) : Job :=
  MkJob (j_id j) (j_root j) st (j_confirmed j) (j_older j) (j_cutoff j) (j_started j) (j_error j) (j_phase j)
    (j_windows j) (j_rows j) (j_expires j).
Definition set_phase (p : phase) (j : Job) : Job :=
  MkJob (j_id j) (j_root j) (j_state j) (j_confirmed j) (j_older j) (j_cutoff j) (j_started j) (j_error j) p
    (j_windows j) (j_rows j) (j_expires j).
Definition fail (f : failure) (j : Job) : Job :=
  MkJob (j_id j) (j_root j) Failed (j_confirmed j) (j_older j) (j_cutoff j) (j_started j) (Some f) (j_phase j)
    (j_windows j) (j_rows j) (j_expires j).
Definition confirm (j : Job) : Job :=
  MkJob (j_id j) (j_root j) Running true (j_older j) (j_cutoff j) (j_started j) (j_error j) PhCheckpoint
    (j_windows j) (j_rows j) (j_expires j).
Definition make_ready (expires : Z) (j : Job) : Job :=
  MkJob (j_id j) (j_root j) Ready (j_confirmed j) (j_older j) (j_cutoff j) (j_started j) (j_error j) PhReady
    (j_windows j) (j_rows j) (Some expires).
Definition count_window (j : Job) : Job :=
  MkJob (j_id j) (j_root j) (j_state j) (j_confirmed j) (j_older j) (j_cutoff j) (j_started j) (j_error j) (j_phase j)
    (j_windows j + 1) (j_rows j) (j_expires j).
Definition count_rows (n : Z) (j : Job) : Job :=
  MkJob (j_id j) (j_root j) (j_state j) (j_confirmed j) (j_older j) (j_cutoff j) (j_started j) (j_error j) (j_phase j)
    (j_windows j) (j_rows j + n) (j_expires j).
(** [job.update(outcome)] *)
Definition update (o : Outcome) (j : Job) : Job :=
  MkJob (j_id j) (j_root j) (o_state o) (j_confirmed j) (j_older j) (j_cutoff j) (j_started j)
    (match o_error o with Some e => e | None => j_error j end) (o_phase o) (j_windows j) (j_rows j) (j_expires j).

(** ** Where the task waits *)

(** What follows a batch: the next window, or the rest of a page of the ledger. *)
Inductive cont := KScan (done : bool) | KPage (after : string) (full : bool) (items : list Candidate).
Inductive pc :=
  | Idle                                           (** no task, or a finished one *)
  | Validate | Scan (applying done : bool)         (** [done]: the cursor is at its end *)
  | Scanned (applying : bool) (items : list Candidate) (done : bool)
  | Checkpoint | OpenLedger | Page (after : string) | Paged (after : string) (full : bool) (items : list Candidate)
  | Batch (items : list Candidate) (recovery : bool) (k : cont)
  | BatchSave (k : cont)
  | FinalSave (o : Outcome).

Record Service := MkService {
  path : string;
  job : option Job;
  report : Report;
  recovery_required : bool;
  task : pc;
  cancel_requested : bool;
  accepting : bool;
  _terminal : option Outcome;
  _ready_deadline : Z;
  _last_wall : Z;
  snapshot : option (Job * Report);                (** durable *)
  root : BlobRoot;                                 (** durable *)
  alive : bool;
}.

Definition set_job (j : option Job) (s : Service) : Service :=
  MkService (path s) j (report s) (recovery_required s) (task s) (cancel_requested s) (accepting s) (_terminal s)
    (_ready_deadline s) (_last_wall s) (snapshot s) (root s) (alive s).
Definition on_job (f : Job -> Job) (s : Service) : Service := set_job (f <$> job s) s.
Definition set_report (p : Report) (s : Service) : Service :=
  MkService (path s) (job s) p (recovery_required s) (task s) (cancel_requested s) (accepting s) (_terminal s)
    (_ready_deadline s) (_last_wall s) (snapshot s) (root s) (alive s).
Definition set_required (b : bool) (s : Service) : Service :=
  MkService (path s) (job s) (report s) b (task s) (cancel_requested s) (accepting s) (_terminal s)
    (_ready_deadline s) (_last_wall s) (snapshot s) (root s) (alive s).
Definition goto (p : pc) (s : Service) : Service :=
  MkService (path s) (job s) (report s) (recovery_required s) p (cancel_requested s) (accepting s) (_terminal s)
    (_ready_deadline s) (_last_wall s) (snapshot s) (root s) (alive s).
Definition set_cancel (b : bool) (s : Service) : Service :=
  MkService (path s) (job s) (report s) (recovery_required s) (task s) b (accepting s) (_terminal s)
    (_ready_deadline s) (_last_wall s) (snapshot s) (root s) (alive s).
Definition set_accepting (b : bool) (s : Service) : Service :=
  MkService (path s) (job s) (report s) (recovery_required s) (task s) (cancel_requested s) b (_terminal s)
    (_ready_deadline s) (_last_wall s) (snapshot s) (root s) (alive s).
Definition set_terminal (o : option Outcome) (s : Service) : Service :=
  MkService (path s) (job s) (report s) (recovery_required s) (task s) (cancel_requested s) (accepting s) o
    (_ready_deadline s) (_last_wall s) (snapshot s) (root s) (alive s).
Definition set_deadline (d : Z) (s : Service) : Service :=
  MkService (path s) (job s) (report s) (recovery_required s) (task s) (cancel_requested s) (accepting s) (_terminal s)
    d (_last_wall s) (snapshot s) (root s) (alive s).
Definition set_wall (t : Z) (s : Service) : Service :=
  MkService (path s) (job s) (report s) (recovery_required s) (task s) (cancel_requested s) (accepting s) (_terminal s)
    (_ready_deadline s) t (snapshot s) (root s) (alive s).
Definition set_snapshot (x : option (Job * Report)) (s : Service) : Service :=
  MkService (path s) (job s) (report s) (recovery_required s) (task s) (cancel_requested s) (accepting s) (_terminal s)
    (_ready_deadline s) (_last_wall s) x (root s) (alive s).
Definition set_root (r : BlobRoot) (s : Service) : Service :=
  MkService (path s) (job s) (report s) (recovery_required s) (task s) (cancel_requested s) (accepting s) (_terminal s)
    (_ready_deadline s) (_last_wall s) (snapshot s) r (alive s).
Definition die (s : Service) : Service :=
  MkService (path s) (job s) (report s) (recovery_required s) (task s) (cancel_requested s) (accepting s) (_terminal s)
    (_ready_deadline s) (_last_wall s) (snapshot s) (root s) false.

(** ** Bounded scan windows *)

(** What one directory entry turns out to be; the cursor's cookies are the kernel's. *)
Inductive entry := Plain                          (** [.], [..], lock, metadata, a session directory *)
  | Odd                                           (** bad name, vanished, not a directory *)
  | Broken                                        (** any other [OSError] of a file *)
  | File (session name : string) (i : Inode)
  | Gone                                          (** a session without a blob directory *)
  | Changed                                       (** another directory behind the session *)
  | Unsafe.                                       (** a blob directory that cannot be opened *)
(** The last three are about a directory, not about an inspected entry. *)
Definition counted (e : entry) : nat := match e with Gone | Changed | Unsafe => 0 | _ => 1 end.

Definition max_entries : nat := 512.
Definition max_candidates : nat := 32.

Section service.
Context `{Os}.

Definition window_entry (cutoff started : Z) (e : entry) (acc : list Candidate * Report) : list Candidate * Report :=
  let '(items, p) := acc in
  match e with
  | Plain => (items, p)
  | Odd | Gone => (items, bump_skipped p)
  | Changed => (items, bump_changed p)
  | Broken | Unsafe => (items, bump_errors p)
  | File session name i =>
    match address_from_filename session name with
    | Err _ | Ok None => (items, bump_skipped p)
    | Ok (Some a) =>
      if negb (_regular i) then (items, bump_skipped p)
      else if (cutoff <=? fp_mtime (in_fp i)) || (started <? fp_ctime (in_fp i)) then (items, bump_retained p)
      else let c := MkCand (ba_uri a) (in_fp i) (in_blocks i * 512) in (items ++ [c], add_file c p)
    end
  end.

(** The entries until the window is full; its time budget is the list's end. *)
Fixpoint scan_loop (cutoff started : Z) (inspected : nat) (es : list entry) (acc : list Candidate * Report)
    : list Candidate * Report :=
  match es with
  | [] => acc
  | e :: es =>
    if (max_entries <=? inspected)%nat || (max_candidates <=? length acc.1)%nat then acc
    else scan_loop cutoff started (counted e + inspected) es (window_entry cutoff started e acc)
  end.
Definition scan_window (started : Z) (es : list entry) (p : Report) : list Candidate * Report :=
  scan_loop (rp_cutoff p) started 0 es ([], p).

(** ** The world during a step *)

Inductive io := IoOk | IoFails (e : exn) (effect : bool).   (** [effect]: the failure follows the effect *)
Record env := MkEnv {
  e_wall : Z; e_wall2 : Z; e_mono : Z;
  e_io : io;
  e_entries : list entry; e_done : bool;
  e_hot : bool;                                    (** a hot rollback journal in the ledger *)
  e_budget : nat;                                  (** durable effects of a batch before the process dies *)
  e_id : string;
}.

(** [_clock] *)
Definition _clock (now : Z) (s : Service) : option Service :=
  if now <? _last_wall s then None else Some (set_wall now s).

(** [_save]: one atomic snapshot. *)
Definition saved (s : Service) : option (Job * Report) :=
  match job s with
  | Some j => Some (match _terminal s with Some o => update o j | None => j end, report s)
  | None => None
  end.
Definition _save (x : io) (s : Service) : option exn * Service :=
  match x with
  | IoOk => (None, set_snapshot (saved s) s)
  | IoFails e true => (Some e, set_snapshot (saved s) s)
  | IoFails e false => (Some e, s)
  end.

Definition _error (e : exn) : failure := match e with RetentionError => FRetention | e => FFilesystem e end.

(** ** The task *)

(** The [except] of the preview. *)
Definition preview_fails (e : exn) (s : Service) : Service := goto Idle (on_job (fail (_error e)) s).

(** The outcome is decided: it is checkpointed before it becomes public. *)
Definition finalize (o : Outcome) (s : Service) : Service :=
  goto (FinalSave o) (set_terminal (Some o) (on_job (set_phase PhFinalizing) s)).
Definition apply_fails (e : exn) (s : Service) : Service :=
  finalize (MkOutcome Failed (match job s with Some j => j_phase j | None => PhScan end) (Some (Some (_error e)))) s.

(** The end of a scan. *)
Definition scan_over (e : env) (applying : bool) (s : Service) : Service :=
  if applying then
    match _clock (e_wall e) s with
    | None => apply_fails RetentionError s
    | Some s => finalize (MkOutcome (if cancel_requested s then Cancelled else Completed) PhFinished None) s
    end
  else if cancel_requested s then goto Idle (on_job (set_state Cancelled) s)
  else goto Idle (set_deadline (e_mono e + 900) (on_job (make_ready (e_wall e + 900 * 10 ^ 9)) s)).

(** The head of the scan loop: one window under the shared lease. *)
Definition scan_step (e : env) (applying done : bool) (s : Service) : Service :=
  let failed x s := if applying then apply_fails x s else preview_fails x s in
  if done || cancel_requested s then scan_over e applying s
  else match _clock (e_wall e) s with
  | None => failed RetentionError s
  | Some s =>
    match e_io e, job s with
    | IoFails x _, _ => failed x s
    | IoOk, Some j =>
      let '(items, p) := scan_window (j_started j) (e_entries e) (report s) in
      goto (Scanned applying items (e_done e)) (on_job count_window (set_report p s))
    | IoOk, None => s
    end
  end.

(** [_batch]: the clock, then the admitted work, then a checkpoint. *)
Definition enter_batch (e : env) (items : list Candidate) (recovery : bool) (k : cont) (s : Service) : Service :=
  match _clock (e_wall e) s with
  | None => apply_fails RetentionError s
  | Some s => goto (Batch items recovery k) s
  end.

Definition batch_step (e : env) (items : list Candidate) (recovery : bool) (k : cont) (s : Service) : Service :=
  if cancel_requested s then goto (BatchSave k) s
  else
    let '(r, t) := apply_batch (e_wall e) items recovery (MkRState (root s) ∅ (report s) (e_budget e)) in
    let s := set_report (rs_report t) (set_root (rs_root t) s) in
    match r with
    | Ok _ => goto (BatchSave k) s
    | Err CancelledError => die s
    | Err x => apply_fails x s
    end.

(** Between two chunks of a page of pending tombstones. *)
Definition page_step (e : env) (after : string) (full : bool) (items : list Candidate) (s : Service) : Service :=
  if cancel_requested s || bool_decide (items = []) then
    if full && negb (cancel_requested s) then goto (Page after) s
    else goto (Scan true false) (on_job (set_phase PhScan) s)
  else enter_batch e (take 32 items) true (KPage after full (drop 32 items)) s.

Definition resume (e : env) (k : cont) (s : Service) : Service :=
  match k with
  | KScan done => goto (Scan true done) s
  | KPage after full items => goto (Paged after full items) s
  end.

Definition task_step (e : env) (s : Service) : Service :=
  match task s with
  | Idle => s
  | Validate =>
    match e_io e with
    | IoFails x _ => preview_fails x s
    | IoOk => goto (Scan false false) (set_required (recovery_required s || e_hot e) s)
    end
  | Scan applying done => scan_step e applying done s
  | Scanned applying items done =>
    if applying && negb (bool_decide (items = [])) && negb (cancel_requested s)
    then enter_batch e items false (KScan done) s
    else goto (Scan applying done) s
  | Checkpoint =>
    match _save (e_io e) s with
    | (Some x, s) => apply_fails x s
    | (None, s) =>
      goto OpenLedger (set_required false (set_report (new_report (match job s with Some j => j_cutoff j | None => 0 end)) s))
    end
  | OpenLedger =>
    let '(r, t) := open_ledger (MkRState (root s) ∅ (report s) (e_budget e)) in
    match r, e_io e with
    | Err _, _ => die (set_root (rs_root t) s)
    | Ok _, IoFails x _ => apply_fails x (set_root (rs_root t) s)
    | Ok _, IoOk => goto (Page "") (on_job (set_phase PhRecovery) (set_root (rs_root t) s))
    end
  | Page after =>
    if cancel_requested s then goto (Scan true false) (on_job (set_phase PhScan) s)
    else match _clock (e_wall e) s with
    | None => apply_fails RetentionError s
    | Some s =>
      match e_io e, job s with
      | IoFails x _, _ => apply_fails x s
      | IoOk, Some j =>
        let '(after', items, count) := recovery_page (root s) after (j_cutoff j) (j_started j) in
        goto (Paged after' (negb (count <? 512)) items) (on_job (count_rows count) s)
      | IoOk, None => s
      end
    end
  | Paged after full items => page_step e after full items s
  | Batch items recovery k => batch_step e items recovery k s
  | BatchSave k =>
    match _save (e_io e) s with
    | (Some x, s) => apply_fails x s
    | (None, s) => resume e k s
    end
  | FinalSave o =>
    let '(x, s) := _save (e_io e) s in
    let o := match x with
             | Some x => MkOutcome Failed (o_phase o) (Some (Some (FCheckpoint x)))
             | None => o
             end in
    goto Idle (on_job (update o) (set_terminal None s))
  end.

(** ** The requests *)

(** What a client reads. *)
Definition status (id : option string) (s : Service) : option (Job * Report) :=
  match job s with
  | None => None
  | Some j => if match id with Some i => negb (bool_decide (j_id j = i)) | None => false end then None else Some (j, report s)
  end.

Inductive answer := Answered | JobConflict | JobNotFound | BadAge.

Definition matches (id : string) (s : Service) : bool :=
  match job s with Some j => bool_decide (j_id j = id) | None => false end.

Definition idle (s : Service) : bool :=
  match task s with Idle => match job s with Some j => terminal (j_state j) | None => true end | _ => false end.

Definition preview (e : env) (older_than : string) (s : Service) : answer * Service :=
  if negb (accepting s) || negb (idle s) then (JobConflict, s)
  else match duration_ns older_than with
  | Err _ => (BadAge, s)
  | Ok age =>
    match cutoff_for age (e_wall e) with
    | Err _ => (BadAge, s)
    | Ok cutoff =>
      let j := MkJob (e_id e) (path s) Previewing false older_than cutoff (e_wall e) None PhScan 0 0 None in
      (Answered, goto Validate (set_cancel false (set_required false
                   (set_report (new_report cutoff) (set_wall (e_wall e) (set_job (Some j) s))))))
    end
  end.

Definition start (e : env) (id confirmation : string) (s : Service) : answer * Service :=
  if negb (matches id s) then (JobNotFound, s)
  else match job s with
  | None => (JobNotFound, s)
  | Some j =>
    if negb (accepting s) || negb (bool_decide (j_state j = Ready)) then (JobConflict, s)
    else if negb (bool_decide (confirmation = "prune")) then (JobConflict, s)
    else match _clock (e_wall e) s with
    | None => (JobConflict, on_job (fail FRetention) s)
    | Some s =>
      if (_ready_deadline s <=? e_mono e) || (default 0 (j_expires j) <=? e_wall2 e) then (JobConflict, s)
      else (Answered, goto Checkpoint (on_job confirm s))
    end
  end.

Definition cancel (id : string) (s : Service) : answer * Service :=
  if negb (matches id s) then (JobNotFound, s)
  else match job s with
  | None => (JobNotFound, s)
  | Some j =>
    if terminal (j_state j) || match _terminal s with Some _ => true | None => false end then (Answered, s)
    else (Answered, on_job (set_state (if decide (j_state j = Ready) then Cancelled else Cancelling)) (set_cancel true s))
  end.

(** [stop]: no further work, and the current job is cancelled. *)
Definition stop (s : Service) : Service :=
  let s := set_accepting false s in
  match job s with Some j => snd (cancel (j_id j) s) | None => s end.

(** ** Restart *)

(** [_load]: a job that was not over is reported interrupted, never resumed; a
    snapshot of another root may only be finished history, and is ignored. *)
Definition new_service (p : string) (snap : option (Job * Report)) (r : BlobRoot) : Service :=
  MkService p None (new_report 0) false Idle false true None 0 0 snap r true.
Definition _load (x : io) (p : string) (snap : option (Job * Report)) (r : BlobRoot) : Service :=
  let s0 := new_service p snap r in
  match snap with
  | None => s0
  | Some (j, rep) =>
    if negb (j_confirmed j) then die s0
    else if negb (bool_decide (j_root j = p)) then (if terminal (j_state j) then s0 else die s0)
    else if negb (bool_decide (j_state j ∈ Running :: Cancelling :: TERMINAL)) then die s0
    else
      let s := set_report rep (set_job (Some j) s0) in
      if terminal (j_state j) then s
      else
        let s := on_job (fun j => set_state Interrupted (fail FRestarted j)) s in
        match _save x s with
        | (None, s) => s
        | (Some _, s) => die s                     (** the service does not open *)
        end
  end.

(** ** Actions *)

Inductive action :=
  | ATask (e : env) | APreview (e : env) (older_than : string) | AStart (e : env) (id confirmation : string)
  | ACancel (id : string) | AStop
  | ACrash
  | ARestart (x : io)
  | AOther (r : BlobRoot).                         (** blobs written or deleted by the rest of the server *)

Definition act (a : action) (s : Service) : Service :=
  if alive s then
    match a with
    | ATask e => task_step e s
    | APreview e older => snd (preview e older s)
    | AStart e id c => snd (start e id c s)
    | ACancel id => snd (cancel id s)
    | AStop => stop s
    | ACrash => die s
    | ARestart _ => s
    | AOther r => set_root r s
    end
  else match a with
  | ARestart x => _load x (path s) (snapshot s) (root s)
  | _ => s
  end.

Definition run (s : Service) (l : list action) : Service := foldl (fun s a => act a s) s l.
End service.
End Job.
