(* ===== verification/RetentionJobSpec.v ===== *)
(** * The online retention job deletes with consent only ([RetentionJob])

    [deletion_needs_consent]: blobs disappear only in a batch of a job that a client
    started with the exact word, whose consent is durable, and only blobs older than
    that job's frozen cutoff.  [nothing_resumes]: without a start nothing is deleted,
    in particular not by a preview and not after a restart.  [outcome_durable]: an
    outcome a client sees survives every crash. *)
From stdpp Require Import base list strings gmap.
From Stdlib Require Import ZArith Lia.
From S2P Require Import Prelude PyText Utils Json JsonParse BlobKeys BlobDisk Retention RetentionJob.

#[local] Open Scope string_scope.
#[local] Open Scope list_scope.
#[local] Open Scope Z_scope.

Import Job.

(** ** The invariant *)

Definition previewing (p : pc) : bool :=
  match p with Validate | Scan false _ | Scanned false _ _ => true | _ => false end.
Definition working (p : pc) : bool :=
  match p with
  | OpenLedger | Page _ | Paged _ _ _ | Batch _ _ _ | BatchSave _ | Scan true _ | Scanned true _ _ => true
  | _ => false
  end.
Definition confirmed_pc (p : pc) : bool := working p || match p with Checkpoint | FinalSave _ => true | _ => false end.

(** A task and its job: its consent, its states, its frozen cutoff. *)
Definition busy_ok (p : pc) (cutoff : Z) (snap : option (Job * Report)) (j : Job) : Prop :=
  (previewing p = true -> j_confirmed j = false /\ j_state j ∈ [Previewing; Cancelling] /\ cutoff = j_cutoff j)
  /\ (confirmed_pc p = true -> j_confirmed j = true /\ j_state j ∈ [Running; Cancelling])
  /\ (working p = true -> cutoff = j_cutoff j /\ exists j' rep, snap = Some (j', rep) /\ j_id j' = j_id j /\ j_cutoff j' = j_cutoff j).
(** A job at rest: what a client sees of a confirmed job is durable. *)
Definition rest_ok (rep : Report) (snap : option (Job * Report)) (j : Job) : Prop :=
  (j_state j = Ready /\ j_confirmed j = false)
  \/ (terminal (j_state j) = true
      /\ (j_confirmed j = true -> j_state j ∈ [Completed; Cancelled; Interrupted] -> snap = Some (j, rep))).

Definition job_ok (p : pc) (rep : Report) (snap : option (Job * Report)) (j : option Job) : Prop :=
  match p, j with
  | Idle, None => True
  | Idle, Some j => rest_ok rep snap j
  | p, Some j => busy_ok p (rp_cutoff rep) snap j
  | _, None => False
  end.
Definition term_ok (p : pc) (t : option Outcome) : Prop :=
  match p with
  | FinalSave o => t = Some o /\ terminal (o_state o) = true
  | _ => t = None
  end.
Definition snap_ok (snap : option (Job * Report)) : Prop :=
  match snap with Some (j, _) => j_confirmed j = true | None => True end.
Definition root_ok (p : string) (j : option Job) : Prop := match j with Some j => j_root j = p | None => True end.

Record Inv (s : Service) : Prop := {
  iv_job : job_ok (task s) (report s) (snapshot s) (job s);
  iv_term : term_ok (task s) (_terminal s);
  iv_snap : snap_ok (snapshot s);
  iv_root : root_ok (path s) (job s);
}.

(** The invariant does not look at clocks, flags or blobs. *)
Definition view (s : Service) := (path s, job s, report s, task s, _terminal s, snapshot s).
Lemma Inv_view s s' : view s' = view s -> Inv s -> Inv s'.
Proof. intros [= Hp Hj Hr Ht Ho Hs] []. split; by rewrite ?Hp, ?Hj, ?Hr, ?Ht, ?Ho, ?Hs. Qed.

Section preservation.
Context `{Os}.

(** ** Moving between steps *)

(** A confirmed task that decides its outcome. *)
Lemma finalize_inv o s :
  Inv s -> confirmed_pc (task s) = true -> terminal (o_state o) = true -> Inv (finalize o s).
Proof.
  intros [Hj Ht Hs Hr] Hc Ho. unfold finalize.
  assert (Hjob : exists j, job s = Some j /\ j_confirmed j = true /\ j_state j ∈ [Running; Cancelling]).
  { destruct (job s) as [j|]; [|by destruct (task s)]. exists j. split; [done|].
    destruct (task s) as [| |[] d|[] it d| | | | | | |o']; try done; destruct Hj as (_ & Hj & _); by apply Hj. }
  destruct Hjob as (j & Hjs & Hcf & Hst). split; cbn; rewrite ?Hjs; cbn; try done.
  by rewrite Hjs in Hr.
Qed.

Lemma apply_fails_inv e s : Inv s -> confirmed_pc (task s) = true -> Inv (apply_fails e s).
Proof. intros. by apply finalize_inv. Qed.

(** Another step of the same job. *)
Lemma goto_work_inv p f s :
  Inv s -> working (task s) = true -> working p = true ->
  (forall j, j_id (f j) = j_id j /\ j_cutoff (f j) = j_cutoff j /\ j_confirmed (f j) = j_confirmed j
             /\ j_state (f j) = j_state j /\ j_root (f j) = j_root j) ->
  Inv (goto p (on_job f s)).
Proof.
  intros [Hj Ht Hs Hr] Hw Hp Hf. destruct (job s) as [j|] eqn:Hjs; [|by destruct (task s) as [| |[]|[]| | | | | | |]].
  destruct (Hf j) as (H1 & H2 & H3 & H4 & H5).
  assert (Hb : busy_ok (task s) (rp_cutoff (report s)) (snapshot s) j) by (by destruct (task s) as [| |[]|[]| | | | | | |]).
  destruct Hb as (_ & Hcf & Hwk). unfold confirmed_pc in Hcf. rewrite Hw in Hcf. destruct (Hcf eq_refl) as [Hc1 Hc2].
  destruct (Hwk Hw) as (Hcut & j' & rep & Hsn & Hid & Hc').
  assert (Hb' : busy_ok p (rp_cutoff (report s)) (snapshot s) (f j)).
  { split; [by destruct p as [| |[]|[]| | | | | | |]|]. split; [intros _; by rewrite H3, H4|]. intros _.
    split; [congruence|]. exists j', rep. split; [done|]. split; congruence. }
  split; cbn; rewrite ?Hjs; cbn.
  - by destruct p as [| |[]|[]| | | | | | |].
  - destruct p as [| |[]|[]| | | | | | |]; try done; by destruct (task s) as [| |[]|[]| | | | | | |].
  - done.
  - congruence.
Qed.

Lemma on_job_id s : on_job (fun j => j) s = s.
Proof. destruct s as [p j]. unfold on_job, set_job. cbn. by destruct j. Qed.

Lemma goto_inv p s : Inv s -> working (task s) = true -> working p = true -> Inv (goto p s).
Proof. intros HI Hw Hp. rewrite <- (on_job_id s). by apply goto_work_inv. Qed.

Lemma clock_view now s s' : _clock now s = Some s' -> view s' = view s /\ task s' = task s /\ root s' = root s.
Proof. unfold _clock. destruct (_ <? _); [done|]. intros [= <-]. done. Qed.

(** Entering a batch. *)
Lemma enter_batch_inv e items rec k s : Inv s -> working (task s) = true -> Inv (enter_batch e items rec k s).
Proof.
  intros HI Hw. unfold enter_batch. destruct (_clock (e_wall e) s) as [s'|] eqn:Hc.
  - destruct (clock_view _ _ _ Hc) as (Hv & Ht & _). apply goto_inv; [by apply (Inv_view s)|by rewrite Ht|done].
  - apply apply_fails_inv; [done|]. unfold confirmed_pc. by rewrite Hw.
Qed.

(** The report of a running job, with the same cutoff. *)
Lemma report_inv p s : Inv s -> task s <> Idle -> rp_cutoff p = rp_cutoff (report s) -> Inv (set_report p s).
Proof.
  intros [Hj Ht Hs Hr] Hi Hp. split; cbn; try done.
  destruct (job s) as [j|]; destruct (task s); try done; cbn in *; by rewrite Hp.
Qed.

Lemma confirmed_of_working p : working p = true -> confirmed_pc p = true.
Proof. unfold confirmed_pc. by intros ->. Qed.
Hint Resolve confirmed_of_working : core.

(** ** The cutoff is frozen *)

Definition at_cutoff (c : Z) (s : RState) : Prop := rp_cutoff (rs_report s) = c.

Lemma cut_durable c f : (forall s, rs_report (f s) = rs_report s) -> preserves (at_cutoff c) (durable f).
Proof. intros Hf s Hs. unfold durable. destruct (rs_budget s); [done|]. unfold at_cutoff. cbn. by rewrite Hf. Qed.
Lemma cut_report c f : (forall p, rp_cutoff (f p) = rp_cutoff p) -> preserves (at_cutoff c) (with_report f).
Proof. intros Hf s Hs. unfold at_cutoff. cbn. by rewrite Hf. Qed.
Lemma cut_unlink c item : preserves (at_cutoff c) (_unlink item).
Proof. intros s Hs. exact (proj1 (framed_unlink item c (dom (rs_txn s)) s (conj Hs eq_refl))). Qed.
Lemma cut_open c : preserves (at_cutoff c) open_ledger.
Proof.
  intros s Hs. unfold open_ledger. destruct (ledger (rs_root s)); [done|]. by apply cut_durable.
Qed.
Lemma cut_stage c item ready : preserves (at_cutoff c) (stage item ready).
Proof.
  unfold stage. apply preserves_bind.
  - unfold ledger_contains. apply preserves_bind; [apply preserves_lift|intros]. apply preserves_bind; [apply preserves_get|].
    intros. apply preserves_ret.
  - intros []; [apply preserves_bind; [by apply cut_report|intros; apply preserves_ret]|].
    apply preserves_bind.
    + unfold _matches. apply preserves_bind; [apply preserves_lift|intros a]. apply preserves_bind; [apply preserves_get|intros s0].
      destruct (blobs_dir _ _) as [d|[]]; try apply preserves_raise; try apply preserves_ret.
      destruct (_ !! _); apply preserves_ret.
    + intros []; [apply preserves_ret|]. apply preserves_bind; [by apply cut_report|intros; apply preserves_ret].
Qed.
Lemma cut_stage_batch c rec cutoff items : forall ready, preserves (at_cutoff c) (stage_batch rec cutoff items ready).
Proof.
  induction items as [|x items IH]; intros ready; cbn [stage_batch]; [apply preserves_ret|].
  destruct (_ <=? _); [apply preserves_raise|]. apply preserves_bind; [|intros; apply IH].
  destruct rec; [apply preserves_ret|apply cut_stage].
Qed.
Lemma cut_batch c now items rec : preserves (at_cutoff c) (apply_batch now items rec).
Proof.
  unfold apply_batch. destruct (_ <? _)%nat; [apply preserves_raise|].
  apply preserves_bind; [apply cut_open|intros]. apply preserves_bind; [apply preserves_get|intros s0].
  apply preserves_bind; [apply cut_stage_batch|intros ready]. apply preserves_bind.
  - apply preserves_when. unfold journal. apply preserves_bind; [|intros; by apply cut_durable].
    by apply preserves_modify.
  - intros. apply preserves_bind; [apply preserves_for; intros; apply cut_unlink|intros; by apply cut_durable].
Qed.

Lemma window_cutoff cutoff started es : forall n items p,
  rp_cutoff (snd (scan_loop cutoff started n es (items, p))) = rp_cutoff p.
Proof.
  induction es as [|e es IH]; intros n items p; [done|]. cbn [scan_loop]. destruct (_ || _); [done|].
  destruct (window_entry cutoff started e (items, p)) as [items' p'] eqn:He. rewrite IH.
  unfold window_entry in He. repeat (case_match; simplify_eq; try done).
Qed.

(** ** Every action keeps the invariant *)

Lemma preview_fails_inv e s : Inv s -> previewing (task s) = true -> Inv (preview_fails e s).
Proof.
  intros [Hj Ht Hs Hr] Hp. unfold preview_fails.
  destruct (job s) as [j|] eqn:Hjs; [|by destruct (task s) as [| |[]|[]| | | | | | |]].
  assert (Hb : busy_ok (task s) (rp_cutoff (report s)) (snapshot s) j) by (by destruct (task s) as [| |[]|[]| | | | | | |]).
  destruct Hb as (Hpv & _). destruct (Hpv Hp) as (Hc & _).
  split; cbn; rewrite ?Hjs; cbn; try done.
  - right. split; [done|]. intros Hc'. cbn in Hc'. congruence.
  - by destruct (task s) as [| |[]|[]| | | | | | |].
Qed.

Lemma goto_preview_inv p f s :
  Inv s -> previewing (task s) = true -> previewing p = true ->
  (forall j, j_cutoff (f j) = j_cutoff j /\ j_confirmed (f j) = j_confirmed j /\ j_state (f j) = j_state j /\ j_root (f j) = j_root j) ->
  Inv (goto p (on_job f s)).
Proof.
  intros [Hj Ht Hs Hr] Hw Hp Hf. destruct (job s) as [j|] eqn:Hjs; [|by destruct (task s) as [| |[]|[]| | | | | | |]].
  destruct (Hf j) as (H2 & H3 & H4 & H5).
  assert (Hb : busy_ok (task s) (rp_cutoff (report s)) (snapshot s) j) by (by destruct (task s) as [| |[]|[]| | | | | | |]).
  destruct Hb as (Hpv & _). destruct (Hpv Hw) as (Hc & Hst & Hcut).
  assert (Hb' : busy_ok p (rp_cutoff (report s)) (snapshot s) (f j)).
  { split; [intros _; rewrite H3, H4; by rewrite H2|]. by destruct p as [| |[]|[]| | | | | | |]. }
  split; cbn; rewrite ?Hjs; cbn.
  - by destruct p as [| |[]|[]| | | | | | |].
  - destruct p as [| |[]|[]| | | | | | |]; try done; by destruct (task s) as [| |[]|[]| | | | | | |].
  - done.
  - congruence.
Qed.

Lemma scan_over_inv e (applying : bool) s :
  Inv s -> (if applying then working (task s) else previewing (task s)) = true -> Inv (scan_over e applying s).
Proof.
  intros HI Hp. unfold scan_over. destruct applying.
  - destruct (_clock (e_wall e) s) as [s'|] eqn:Hc.
    + destruct (clock_view _ _ _ Hc) as (Hv & Ht & _). apply finalize_inv; [by apply (Inv_view s)|by rewrite Ht; auto|].
      by destruct (cancel_requested s').
    + apply apply_fails_inv; auto.
  - destruct HI as [Hj Ht Hs Hr]. destruct (job s) as [j|] eqn:Hjs; [|by destruct (task s) as [| |[]|[]| | | | | | |]].
    assert (Hb : busy_ok (task s) (rp_cutoff (report s)) (snapshot s) j) by (by destruct (task s) as [| |[]|[]| | | | | | |]).
    destruct Hb as (Hpv & _). destruct (Hpv Hp) as (Hc & _).
    assert (Htn : _terminal s = None) by (by destruct (task s) as [| |[]|[]| | | | | | |]).
    destruct (cancel_requested s); (split; cbn; rewrite ?Hjs; cbn; try done).
    + right. split; [done|]. intros Hc'. cbn in Hc'. congruence.
    + left. done.
Qed.

Lemma scan_step_inv e applying done s : Inv s -> task s = Scan applying done -> Inv (scan_step e applying done s).
Proof.
  intros HI Ht. unfold scan_step.
  assert (Hk : (if applying then working (task s) else previewing (task s)) = true) by (rewrite Ht; by destruct applying).
  assert (Hfail : forall x s0, view s0 = view s -> Inv (if applying then apply_fails x s0 else preview_fails x s0)).
  { intros x s0 Hv. assert (Ht0 : task s0 = task s) by (by injection Hv).
    destruct applying; [apply apply_fails_inv|apply preview_fails_inv]; try (by apply (Inv_view s)); rewrite Ht0; auto. }
  destruct (done || cancel_requested s); [by apply scan_over_inv|].
  destruct (_clock (e_wall e) s) as [s1|] eqn:Hc; [|by apply Hfail].
  destruct (clock_view _ _ _ Hc) as (Hv & Ht1 & _).
  destruct (e_io e) as [|x eff]; [|by apply Hfail].
  assert (HI1 : Inv s1) by (by apply (Inv_view s)).
  destruct (job s1) as [j|] eqn:Hj1; [|done].
  destruct (scan_window (j_started j) (e_entries e) (report s1)) as [items p] eqn:Hw.
  assert (HI2 : Inv (set_report p s1)).
  { apply report_inv; [done|by rewrite Ht1, Ht|].
    unfold scan_window in Hw. pose proof (window_cutoff (rp_cutoff (report s1)) (j_started j) (e_entries e) 0 [] (report s1)) as Hcut.
    by rewrite Hw in Hcut. }
  destruct applying; [apply goto_work_inv|apply goto_preview_inv]; try done; cbn; by rewrite Ht1, Ht.
Qed.

Lemma root_inv r s : Inv s -> Inv (set_root r s).
Proof. by apply Inv_view. Qed.

Lemma batch_step_inv e items rec k s : Inv s -> task s = Batch items rec k -> alive (batch_step e items rec k s) = true -> Inv (batch_step e items rec k s).
Proof.
  intros HI Ht. unfold batch_step. destruct (cancel_requested s); [intros _; apply goto_inv; [done|by rewrite Ht|done]|].
  pose proof (cut_batch (rp_cutoff (report s)) (e_wall e) items rec (MkRState (root s) ∅ (report s) (e_budget e)) eq_refl) as Hcut.
  destruct (apply_batch _ _ _ _) as [r t]. cbn [snd] in Hcut.
  assert (HI2 : Inv (set_report (rs_report t) (set_root (rs_root t) s))).
  { apply report_inv; [by apply root_inv|by cbn; rewrite Ht|exact Hcut]. }
  destruct r as [u|x]; [intros _; apply goto_inv; [done|by cbn; rewrite Ht|done]|].
  destruct x; try (intros _; apply apply_fails_inv; [exact HI2|cbn; by rewrite Ht]). done.
Qed.

Lemma save_view x s : view (set_snapshot (snapshot s) (snd (_save x s))) = view s.
Proof. destruct x as [|e []]; by destruct s. Qed.

(** A checkpoint of a confirmed job. *)
Lemma save_inv x s e s' :
  Inv s -> confirmed_pc (task s) = true -> _save x s = (e, s') ->
  Inv s' /\ task s' = task s /\ job s' = job s /\ report s' = report s /\ root s' = root s /\ alive s' = alive s
  /\ (e = None -> snapshot s' = saved s).
Proof.
  intros HI Hc Hs.
  assert (Hcase : (s' = s /\ e <> None) \/ s' = set_snapshot (saved s) s).
  { unfold _save in Hs. destruct x as [|y []]; injection Hs as <- <-; auto. }
  destruct Hcase as [[-> He]| ->]; [by split_and!|]. split; [|done].
  destruct HI as [Hj Ht Hsn Hr]. unfold saved. destruct (job s) as [j|] eqn:Hjs.
  2:{ by destruct (task s) as [| |[]|[]| | | | | | |]. }
  assert (Hb : busy_ok (task s) (rp_cutoff (report s)) (snapshot s) j) by (by destruct (task s) as [| |[]|[]| | | | | | |]).
  destruct Hb as (_ & Hcf & Hwk). destruct (Hcf Hc) as [Hc1 Hc2].
  set (j' := match _terminal s with Some o => update o j | None => j end).
  assert (Hj' : j_id j' = j_id j /\ j_cutoff j' = j_cutoff j /\ j_confirmed j' = true) by (unfold j'; by destruct (_terminal s)).
  destruct Hj' as (Hid & Hcu & Hco).
  split; cbn; rewrite ?Hjs; try done.
  assert (Hb' : busy_ok (task s) (rp_cutoff (report s)) (Some (j', report s)) j).
  { split; [intros Hp; exfalso; by destruct (task s) as [| |[]|[]| | | | | | |]|]. split; [done|]. intros Hw.
    destruct (Hwk Hw) as [Hcut _]. split; [done|]. by exists j', (report s). }
  by destruct (task s) as [| |[]|[]| | | | | | |].
Qed.

Lemma task_step_inv e s : Inv s -> alive (task_step e s) = true -> Inv (task_step e s).
Proof.
  intros HI. unfold task_step. destruct (task s) as [| |applying done|applying items done| | |after|after full items|items rec k|k|o] eqn:Ht.
  - done.
  - intros _. destruct (e_io e); [|apply preview_fails_inv; [done|by rewrite Ht]].
    apply (Inv_view (goto (Scan false false) (on_job (fun j => j) s))); [by rewrite on_job_id|].
    apply goto_preview_inv; [done|by rewrite Ht|done|done].
  - intros _. by apply scan_step_inv.
  - intros _. destruct (_ && _ && _) eqn:Hc.
    + apply enter_batch_inv; [done|]. rewrite Ht. by destruct applying.
    + destruct applying; [apply goto_inv; [done|by rewrite Ht|done]|].
      rewrite <- (on_job_id s). apply goto_preview_inv; [done|by rewrite Ht|done|done].
  - intros _. destruct (_save (e_io e) s) as [x s1] eqn:Hs.
    apply save_inv in Hs as (HI1 & Ht1 & Hj1 & Hr1 & _ & _ & Hsn); [|done|by rewrite Ht].
    destruct x as [x|]; [apply apply_fails_inv; [done|by rewrite Ht1, Ht]|].
    specialize (Hsn eq_refl). destruct HI1 as [Hj Hte Hss Hro]. rewrite Ht1, Ht in Hj, Hte. cbn in Hj.
    destruct (job s1) as [j|] eqn:Hjs; [|done]. cbn. destruct Hj as (_ & Hcf & _). destruct (Hcf eq_refl) as [Hc1 Hc2].
    assert (Hterm : _terminal s = None) by (pose proof (iv_term s HI) as H'; by rewrite Ht in H').
    unfold saved in Hsn. rewrite <- Hj1, Hterm in Hsn.
    split; cbn; rewrite ?Hjs; try done. split; [done|]. split; [done|]. intros _. split; [done|]. rewrite Hsn. by exists j, (report s).
  - destruct (open_ledger _) as [r t]. intros Ha. assert (HI2 : Inv (set_root (rs_root t) s)) by (by apply root_inv).
    destruct r as [u|x]; [|done]. destruct (e_io e).
    + apply goto_work_inv; [exact HI2|by cbn; rewrite Ht|done|done].
    + apply apply_fails_inv; [done|by cbn; rewrite Ht].
  - intros _. destruct (cancel_requested s); [apply goto_work_inv; [done|by rewrite Ht|done|done]|].
    destruct (_clock (e_wall e) s) as [s1|] eqn:Hc; [|apply apply_fails_inv; [done|by rewrite Ht]].
    destruct (clock_view _ _ _ Hc) as (Hv & Ht1 & _). assert (HI1 : Inv s1) by (by apply (Inv_view s)).
    destruct (e_io e); [|apply apply_fails_inv; [done|by rewrite Ht1, Ht]].
    destruct (job s1) as [j|]; [|done]. destruct (recovery_page _ _ _ _) as [[after' items] count].
    apply goto_work_inv; [done|by rewrite Ht1, Ht|done|done].
  - intros _. unfold page_step. destruct (_ || _); [|apply enter_batch_inv; [done|by rewrite Ht]].
    destruct (_ && _); [apply goto_inv; [done|by rewrite Ht|done]|apply goto_work_inv; [done|by rewrite Ht|done|done]].
  - by apply batch_step_inv.
  - intros _. destruct (_save (e_io e) s) as [x s1] eqn:Hs.
    apply save_inv in Hs as (HI1 & Ht1 & _); [|done|by rewrite Ht].
    destruct x as [x|]; [apply apply_fails_inv; [done|by rewrite Ht1, Ht]|].
    destruct k; cbn [resume]; apply goto_inv; try done; by rewrite Ht1, Ht.
  - intros _. destruct (_save (e_io e) s) as [x s1] eqn:Hs.
    pose proof (iv_term s HI) as Hterm. rewrite Ht in Hterm. destruct Hterm as [Hto Hft].
    apply save_inv in Hs as (HI1 & Ht1 & Hj1 & Hr1 & _ & _ & Hsn); [|done|by rewrite Ht].
    destruct HI1 as [Hj _ Hss Hro]. rewrite Ht1, Ht in Hj. destruct (job s1) as [j|] eqn:Hjs; [|done].
    destruct x as [x|]; (split; cbn; rewrite ?Hjs; cbn; try done).
    + right. split; [done|]. intros _ Hin. by apply (bool_decide_eq_true_2 _) in Hin.
    + right. split; [done|]. intros _ _. rewrite (Hsn eq_refl). unfold saved. rewrite <- Hj1, Hto. cbn. by rewrite Hr1.
Qed.

Lemma idle_terminal s : Inv s -> idle s = true -> task s = Idle /\ _terminal s = None.
Proof. intros [_ Ht _ _] Hi. unfold idle in Hi. by destruct (task s). Qed.

Lemma preview_inv e older s : Inv s -> Inv (snd (preview e older s)).
Proof.
  intros HI. unfold preview. destruct (negb (accepting s)); [done|]. destruct (idle s) eqn:Hi; [|done]. cbn [negb orb].
  destruct (duration_ns older) as [age|]; [|done]. destruct (cutoff_for age (e_wall e)) as [cutoff|]; [|done].
  destruct (idle_terminal s HI Hi) as [_ Hn]. destruct HI as [_ _ Hs _]. split; cbn; try done.
  split; [intros _; split; [done|]; split; [left|done]|]. done.
Qed.

Lemma start_inv e id c s : Inv s -> Inv (snd (start e id c s)).
Proof.
  intros HI. unfold start. destruct (negb (matches id s)); [done|]. destruct (job s) as [j|] eqn:Hjs; [|done].
  destruct (negb (accepting s)); [done|]. case_bool_decide as Hr; [|done]. cbn [negb orb]. destruct (negb _); [done|].
  assert (Hidle : task s = Idle).
  { destruct HI as [Hj _ _ _]. rewrite Hjs in Hj.
    destruct (task s) as [| |[]|[]| | | | | | |]; try done; exfalso; destruct Hj as (H1 & H2 & _);
      first [destruct (H1 eq_refl) as (_ & Hst & _)|destruct (H2 eq_refl) as (_ & Hst)]; rewrite Hr in Hst;
      by apply (bool_decide_eq_true_2 _) in Hst. }
  pose proof (iv_term s HI) as Hterm. rewrite Hidle in Hterm.
  destruct (_clock (e_wall e) s) as [s1|] eqn:Hc.
  - destruct (clock_view _ _ _ Hc) as (Hv & Ht1 & _). assert (HI1 : Inv s1) by (by apply (Inv_view s)).
    destruct (_ || _); [done|]. assert (Hj1 : job s1 = Some j) by (by injection Hv as _ -> _ _ _ _).
    assert (Hn1 : _terminal s1 = None) by (by injection Hv as _ _ _ _ -> _).
    destruct HI1 as [_ _ Hs1 Hr1]. split; cbn; rewrite ?Hj1; cbn; try done.
    + split; [done|]. split; [intros _; split; [done|left]|done].
    + by rewrite Hj1 in Hr1.
  - destruct HI as [Hj _ Hs Hro]. rewrite Hjs, Hidle in Hj. rewrite Hjs in Hro.
    split; cbn; rewrite ?Hjs, ?Hidle; cbn; try done.
    right. split; [done|]. intros _ Hin. by apply (bool_decide_eq_true_2 _) in Hin.
Qed.

Lemma cancel_inv id s : Inv s -> Inv (snd (cancel id s)).
Proof.
  intros HI. unfold cancel. destruct (negb (matches id s)); [done|]. destruct (job s) as [j|] eqn:Hjs; [|done].
  destruct (terminal (j_state j)) eqn:Hterm; [done|]. destruct (_terminal s) as [o|] eqn:Ho; [done|]. cbn [orb snd].
  destruct HI as [Hj Ht Hs Hr]. rewrite Hjs in Hj, Hr. rewrite Ho in Ht.
  split; cbn; rewrite ?Hjs, ?Ho; cbn; try done.
  destruct (task s) as [| |applying d|applying it d| | |a|a f it|it rec k|k|o] eqn:Htask; try (by destruct Ht).
  1:{ destruct Hj as [[Hr1 Hr2]|[Hr1 _]]; [|congruence]. rewrite decide_True by done. right. split; [done|].
      cbn. rewrite Hr2. done. }
  all: assert (Hne : j_state j <> Ready) by (intros Hr1; destruct Hj as (H1 & H2 & _); cbn in H1, H2;
         try (destruct applying); first [destruct (H1 eq_refl) as (_ & Hst & _)|destruct (H2 eq_refl) as (_ & Hst)];
         rewrite Hr1 in Hst; by apply (bool_decide_eq_true_2 _) in Hst).
  all: rewrite decide_False by done; destruct Hj as (H1 & H2 & H3); split; [|split]; intros Hp;
       [destruct (H1 Hp) as (? & _ & ?); split; [done|]; split; [right; left|done]
       |destruct (H2 Hp) as (? & _); split; [done|right; left]
       |by apply H3].
Qed.

Lemma load_inv x p snap r : snap_ok snap -> alive (_load x p snap r) = true -> Inv (_load x p snap r).
Proof.
  intros Hs. unfold _load. destruct snap as [[j rep]|]; [|intros _; by split].
  cbn in Hs. rewrite Hs. cbn [negb]. case_bool_decide as Hroot; cbn [negb].
  2:{ destruct (terminal (j_state j)); [intros _; by split|done]. }
  case_bool_decide as Hst; cbn [negb]; [|done].
  destruct (terminal (j_state j)) eqn:Ht.
  { intros _. split; cbn; try done. right. split; [done|]. done. }
  destruct x as [|e []]; cbn; try done. intros _. split; cbn; try done. right. done.
Qed.

Definition Good (s : Service) : Prop := snap_ok (snapshot s) /\ (alive s = true -> Inv s).

Lemma load_snap x p snap r : snap_ok snap -> snap_ok (snapshot (_load x p snap r)).
Proof.
  intros Hs. unfold _load. destruct snap as [[j rep]|]; [|done]. cbn in Hs. rewrite Hs. cbn [negb].
  case_bool_decide; cbn [negb]; [|by destruct (terminal (j_state j))]. case_bool_decide; cbn [negb]; [|done].
  destruct (terminal (j_state j)); [done|].
  by destruct x as [|e []].
Qed.

(** ** What a step changes *)

(** What consent is about. *)
Definition key (j : Job) : string * bool * Z := (j_id j, j_confirmed j, j_cutoff j).

Ltac step_cases :=
  unfold task_step, scan_step, scan_over, page_step, enter_batch, batch_step, resume, _clock, _save, apply_fails,
    preview_fails, finalize; repeat case_match; simplify_eq; cbn.

Lemma task_path e s : path (task_step e s) = path s.
Proof. by step_cases. Qed.
Lemma task_key e s : key <$> job (task_step e s) = key <$> job s.
Proof. step_cases; try done; first [by destruct (job _)|by simplify_option_eq]. Qed.
(** A snapshot is only ever a confirmed job's, also in the step that kills the process. *)
Lemma task_snap e s :
  snapshot (task_step e s) = snapshot s \/ (confirmed_pc (task s) = true /\ snapshot (task_step e s) = saved s).
Proof. step_cases; auto. Qed.
Lemma task_root e s :
  root (task_step e s) = root s \/ (working (task s) = true /\ Safe (root s) (rp_cutoff (report s)) (root (task_step e s))).
Proof.
  destruct (task s) as [| | | | | | | |items rec k| |] eqn:Ht; try (left; step_cases; by simplify_eq); right; split; try done;
    unfold task_step; rewrite Ht.
  - pose proof (triple_open_ledger (root s) (rp_cutoff (report s)) (MkRState (root s) ∅ (report s) (e_budget e)) (conj eq_refl eq_refl)) as Hs.
    destruct (open_ledger _) as [[u|x] t]; [destruct (e_io e); by destruct Hs as [[Hs _] _]|by destruct Hs as [Hs _]].
  - unfold batch_step. destruct (cancel_requested s); [apply Safe_refl|].
    pose proof (apply_batch_safe (root s) (rp_cutoff (report s)) (e_wall e) items rec
      (MkRState (root s) ∅ (report s) (e_budget e)) eq_refl eq_refl) as Hs.
    destruct (apply_batch _ _ _ _) as [[u|x] t]; destruct Hs as [Hs _]; [done|by destruct x].
Qed.

(** ** Every history *)

Lemma cancel_frame id s :
  let s' := snd (cancel id s) in
  path s' = path s /\ key <$> job s' = key <$> job s /\ snapshot s' = snapshot s /\ root s' = root s /\ alive s' = alive s
  /\ task s' = task s.
Proof.
  unfold cancel. destruct (negb _); [by split_and!|]. destruct (job s) as [j|] eqn:Hj; [|cbn; rewrite ?Hj; done].
  destruct (_ || _); cbn; rewrite ?Hj; done.
Qed.
Lemma stop_frame s :
  path (stop s) = path s /\ key <$> job (stop s) = key <$> job s /\ snapshot (stop s) = snapshot s /\ root (stop s) = root s
  /\ alive (stop s) = alive s /\ task (stop s) = task s.
Proof.
  unfold stop. cbn [set_accepting job]. destruct (job s) as [j|] eqn:Hj; [|cbn; rewrite ?Hj; done].
  pose proof (cancel_frame (j_id j) (set_accepting false s)) as Hc. cbv zeta in Hc. cbn in Hc. by rewrite Hj in Hc.
Qed.
Lemma stop_inv s : Inv s -> Inv (stop s).
Proof.
  intros HI. unfold stop. cbn [set_accepting job]. destruct (job s) as [j|]; [|by apply (Inv_view s)].
  apply cancel_inv. by apply (Inv_view s).
Qed.
Lemma preview_frame e older s :
  let s' := snd (preview e older s) in
  path s' = path s /\ snapshot s' = snapshot s /\ root s' = root s /\ alive s' = alive s.
Proof. unfold preview. repeat case_match; done. Qed.
Lemma start_frame e id c s :
  let s' := snd (start e id c s) in
  path s' = path s /\ snapshot s' = snapshot s /\ root s' = root s /\ alive s' = alive s.
Proof. unfold start, _clock. repeat case_match; simplify_eq; done. Qed.
Lemma load_frame x p snap r : path (_load x p snap r) = p /\ root (_load x p snap r) = r /\ task (_load x p snap r) = Idle.
Proof. unfold _load, _save. repeat case_match; simplify_eq; done. Qed.

Lemma act_good a s : Good s -> Good (act a s).
Proof.
  intros [Hs HI]. unfold act. destruct (alive s) eqn:Ha.
  2:{ destruct a as [| | | | | |x|]; try (split; [done|by rewrite Ha]).
      split; [by apply load_snap|by apply load_inv]. }
  specialize (HI eq_refl). destruct a as [e|e older|e id c|id| | |x|r].
  - split; [|by apply task_step_inv]. destruct (task_snap e s) as [Heq|[Hc Heq]]; rewrite Heq; [done|].
    destruct HI as [Hj _ _ _]. unfold saved. destruct (job s) as [j|]; [|done].
    assert (Hb : busy_ok (task s) (rp_cutoff (report s)) (snapshot s) j) by (by destruct (task s) as [| |[]|[]| | | | | | |]).
    destruct Hb as (_ & Hcf & _). destruct (Hcf Hc) as [Hcj _]. cbn. by destruct (_terminal s).
  - split; [|intros _; by apply preview_inv]. by destruct (preview_frame e older s) as (_ & -> & _).
  - split; [|intros _; by apply start_inv]. by destruct (start_frame e id c s) as (_ & -> & _).
  - split; [|intros _; by apply cancel_inv]. by destruct (cancel_frame id s) as (_ & _ & -> & _).
  - split; [|intros _; by apply stop_inv]. by destruct (stop_frame s) as (_ & _ & -> & _).
  - by split.
  - by split.
  - split; [done|]. intros _. by apply root_inv.
Qed.

Lemma run_snoc s l a : run s (l ++ [a]) = act a (run s l).
Proof. unfold run. by rewrite foldl_app. Qed.

Lemma run_good p r l : Good (run (new_service p None r) l).
Proof.
  induction l as [|a l IH] using rev_ind; [|rewrite run_snoc; by apply act_good]. split; [done|]. intros _. by split.
Qed.

(** ** Consent *)

(** The requests a job comes from. *)
Definition known (l : list action) (k : string * bool * Z) : Prop :=
  (exists e older age, APreview e older ∈ l /\ e_id e = k.1.1 /\ duration_ns older = Ok age /\ cutoff_for age (e_wall e) = Ok k.2)
  /\ (k.1.2 = true -> exists e, AStart e k.1.1 "prune" ∈ l).
Lemma known_mono l a k : known l k -> known (l ++ [a]) k.
Proof.
  intros [(e & o & age & H1 & H2) H3]. split; [exists e, o, age; split; [apply elem_of_app; by left|done]|].
  intros Hc. destruct (H3 Hc) as [e' H4]. exists e'. apply elem_of_app. by left.
Qed.

Definition all_known (l : list action) (s : Service) : Prop :=
  (forall k, key <$> job s = Some k -> known l k)
  /\ (forall k, (fun x => key x.1) <$> snapshot s = Some k -> known l k).
Lemma all_known_frame l a s s' :
  key <$> job s' = key <$> job s -> snapshot s' = snapshot s -> all_known l s -> all_known (l ++ [a]) s'.
Proof.
  intros Hj Hs [H1 H2]. split; intros k Hk; apply known_mono; [apply H1; congruence|apply H2; by rewrite <- Hs].
Qed.

Lemma load_key x p snap r k :
  (key <$> job (_load x p snap r) = Some k -> (fun x => key x.1) <$> snap = Some k)
  /\ ((fun x => key x.1) <$> snapshot (_load x p snap r) = Some k -> (fun x => key x.1) <$> snap = Some k).
Proof. unfold _load, _save. repeat case_match; simplify_eq; cbn; done. Qed.

Lemma all_known_act l a s : all_known l s -> all_known (l ++ [a]) (act a s).
Proof.
  intros HK. assert (Hsame : forall s', key <$> job s' = key <$> job s -> snapshot s' = snapshot s -> all_known (l ++ [a]) s').
  { intros s' Hj Hs. by apply (all_known_frame l a s). }
  unfold act. destruct (alive s).
  2:{ destruct a as [| | | | | |x|]; try by apply Hsame. destruct HK as [_ H2].
      split; intros k Hk; apply known_mono, H2; by apply load_key in Hk. }
  destruct a as [e|e older|e id c|id| | |x|r]; try by apply Hsame.
  - destruct (task_snap e s) as [Heq|[_ Heq]]; [apply Hsame; [apply task_key|done]|].
    destruct HK as [H1 H2]. split; intros k Hk; apply known_mono, H1.
    + by rewrite <- task_key in Hk || rewrite task_key in Hk.
    + rewrite Heq in Hk. unfold saved in Hk. destruct (job s) as [j|]; [|done]. cbn in *. by destruct (_terminal s).
  - unfold preview. destruct (_ || _); [by apply Hsame|]. destruct (duration_ns older) as [age|] eqn:Hd; [|by apply Hsame].
    destruct (cutoff_for age (e_wall e)) as [cutoff|] eqn:Hc; [|by apply Hsame].
    destruct HK as [_ H2]. split; cbn; intros k Hk; [|by apply known_mono, H2]. injection Hk as <-. split; [|done].
    exists e, older, age. split; [|done]. apply elem_of_app. right. by left.
  - unfold start. destruct (matches id s) eqn:Hm; [|by apply Hsame]. cbn [negb]. unfold matches in Hm.
    destruct (job s) as [j|] eqn:Hj; [|by apply Hsame; rewrite ?Hj]. apply bool_decide_eq_true in Hm.
    destruct (_ || _); [apply Hsame; cbn; rewrite ?Hj; done|]. case_bool_decide as Hp; cbn [negb]; [|apply Hsame; cbn; rewrite ?Hj; done].
    unfold _clock. destruct (_ <? _); [apply Hsame; cbn; rewrite ?Hj; done|]. destruct (_ || _); [apply Hsame; cbn; rewrite ?Hj; done|].
    destruct HK as [H1 H2]. split; cbn; rewrite ?Hj; intros k Hk; [|by apply known_mono, H2]. injection Hk as <-.
    destruct (known_mono l (AStart e id c) (key j)) as [Ho _]; [apply H1; by rewrite Hj|]. split; [exact Ho|].
    intros _. exists e. cbn. rewrite Hm, <- Hp. apply elem_of_app. right. by left.
  - destruct (cancel_frame id s) as (_ & Hk & Hs & _). by apply Hsame.
  - destruct (stop_frame s) as (_ & Hk & Hs & _). by apply Hsame.
Qed.

Lemma run_known p r l : all_known l (run (new_service p None r) l).
Proof.
  induction l as [|a l IH] using rev_ind; [by split|]. rewrite run_snoc. by apply all_known_act.
Qed.

(** C32: In every history of requests, task steps, crashes and restarts, a step of the
    service changes the blob root only while a job runs whose confirmed snapshot is
    already durable, that a client previewed (its frozen cutoff is that preview's) and
    then started with the exact word; what the step removes is then older than that
    cutoff and its tombstone is committed. *)
Theorem deletion_needs_consent (p : string) (r : BlobRoot) (l : list action) (a : action) :
  (forall r', a <> AOther r') ->
  let s := run (new_service p None r) l in
  root (act a s) = root s
  \/ exists j rep, snapshot s = Some (j, rep) /\ j_confirmed j = true
       /\ (exists e older age, APreview e older ∈ l /\ e_id e = j_id j /\ duration_ns older = Ok age
              /\ cutoff_for age (e_wall e) = Ok (j_cutoff j))
       /\ (exists e, AStart e (j_id j) "prune" ∈ l)
       /\ Safe (root s) (j_cutoff j) (root (act a s)).
Proof.
  intros Ha s. destruct (run_good p r l) as [Hsn HI]. destruct (run_known p r l) as [_ HK]. fold s in Hsn, HI, HK.
  unfold act. destruct (alive s) eqn:Hal.
  2:{ left. destruct a; try done. by apply load_frame. }
  specialize (HI eq_refl). destruct a as [e|e older|e id c|id| | |x|r']; try by left.
  - destruct (task_root e s) as [Hr|[Hw Hsafe]]; [by left|right]. destruct HI as [Hj _ _ _].
    destruct (job s) as [j|]; [|by destruct (task s) as [| |[]|[]| | | | | | |]].
    assert (Hb : busy_ok (task s) (rp_cutoff (report s)) (snapshot s) j) by (by destruct (task s) as [| |[]|[]| | | | | | |]).
    destruct Hb as (_ & _ & Hb). destruct (Hb Hw) as (Hcut & j' & rep & Hs & Hid & Hc). exists j', rep.
    rewrite Hs in Hsn, HK. cbn in Hsn. destruct (HK _ eq_refl) as [Ho Hst]. cbn in Ho, Hst.
    split; [done|]. split; [done|]. split; [exact Ho|]. split; [by apply Hst|]. by rewrite Hc, <- Hcut.
  - left. by destruct (preview_frame e older s) as (_ & _ & -> & _).
  - left. by destruct (start_frame e id c s) as (_ & _ & -> & _).
  - left. by destruct (cancel_frame id s) as (_ & _ & _ & -> & _).
  - left. by destruct (stop_frame s) as (_ & _ & _ & -> & _).
  - by destruct (Ha r').
Qed.

(** ** Nothing resumes *)

Definition quiet (s : Service) : bool := negb (alive s) || match task s with Idle => true | p => previewing p end.
Definition passive (a : action) : bool := match a with AStart _ _ _ | AOther _ => false | _ => true end.

Lemma quiet_frame s s' : alive s' = alive s -> task s' = task s -> quiet s = true -> quiet s' = true.
Proof. unfold quiet. by intros -> ->. Qed.

Lemma quiet_task e s : quiet s = true -> alive s = true -> quiet (task_step e s) = true /\ root (task_step e s) = root s.
Proof.
  unfold quiet at 1. intros Hq Ha. rewrite Ha in Hq. cbn in Hq.
  destruct (task_root e s) as [Hr|[Hw _]]; [|by destruct (task s) as [| |[]|[]| | | | | | |]]. split; [|done].
  unfold task_step. destruct (task s) as [| |[]|[]| | | | | | |] eqn:Ht; try done; unfold quiet.
  - by rewrite Ht, orb_true_r.
  - destruct (e_io e); cbn; apply orb_true_r.
  - unfold scan_step, scan_over, _clock, preview_fails. repeat case_match; simplify_eq; cbn in *; try apply orb_true_r; try done;
      try (rewrite Ht in * ); simplify_eq; apply orb_true_r.
  - cbn. apply orb_true_r.
Qed.

Lemma quiet_act a s : passive a = true -> quiet s = true -> quiet (act a s) = true /\ root (act a s) = root s.
Proof.
  intros Hp Hq. unfold act. destruct (alive s) eqn:Ha.
  2:{ destruct a; try done. split; [|by apply load_frame]. unfold quiet.
      destruct (load_frame x (path s) (snapshot s) (root s)) as (_ & _ & ->). apply orb_true_r. }
  destruct a as [e|e older|e id c|id| | |x|r']; try done.
  - by apply quiet_task.
  - split; [|by apply preview_frame]. unfold preview. repeat case_match; try done. apply orb_true_r.
  - destruct (cancel_frame id s) as (_ & _ & _ & Hr & Hal & Ht). split; [by apply (quiet_frame s)|done].
  - destruct (stop_frame s) as (_ & _ & _ & Hr & Hal & Ht). split; [by apply (quiet_frame s)|done].
Qed.

Lemma quiet_run s l : Forall (fun a => passive a = true) l -> quiet s = true -> root (run s l) = root s.
Proof.
  intros Hl. revert s. induction Hl as [|a l Ha Hl IH]; intros s Hq; [done|].
  destruct (quiet_act a s Ha Hq) as [Hq' Hr]. change (run s (a :: l)) with (run (act a s) l). by rewrite IH.
Qed.

(** C33: Whatever a job was doing when the process died, nothing resumes: after the crash
    any sequence of restarts, task steps, previews, cancellations, stops and further
    crashes leaves every blob and the ledger as the crash found them, until a client
    starts a job. *)
Theorem nothing_resumes (s : Service) (l : list action) :
  Forall (fun a => passive a = true) l -> root (run (act ACrash s) l) = root s.
Proof.
  intros Hl. rewrite quiet_run; [|done|].
  - unfold act. by destruct (alive s).
  - unfold act, quiet. destruct (alive s) eqn:Ha; [done|]. by rewrite Ha.
Qed.

(** C34: An outcome that a client reads is durable: in every history, a confirmed job shown
    as completed, cancelled or interrupted is the durable snapshot with its report, and
    after a crash and a restart (whatever happens to its I/O) a client reads the same job
    and report. *)
Theorem outcome_durable (p : string) (r : BlobRoot) (l : list action) (j : Job) (rep : Report) (x : io) :
  let s := run (new_service p None r) l in
  alive s = true -> status None s = Some (j, rep) -> j_confirmed j = true ->
  j_state j ∈ [Completed; Cancelled; Interrupted] ->
  snapshot s = Some (j, rep)
  /\ status None (act (ARestart x) (act ACrash s)) = Some (j, rep) /\ alive (act (ARestart x) (act ACrash s)) = true.
Proof.
  intros s Ha Hst Hc Hin. destruct (run_good p r l) as [_ HI]. fold s in HI. specialize (HI Ha).
  unfold status in Hst. destruct (job s) as [j0|] eqn:Hj; [|done]. injection Hst as -> Hrep.
  destruct HI as [Hjob _ _ Hroot]. rewrite Hj in Hjob, Hroot. cbn in Hroot.
  assert (Hterm : terminal (j_state j) = true).
  { unfold terminal. apply bool_decide_eq_true. unfold TERMINAL.
    repeat (apply elem_of_cons in Hin as [-> |Hin]; [apply (bool_decide_eq_true_1 _); by vm_compute|]). by apply elem_of_nil in Hin. }
  assert (Hidle : task s = Idle).
  { destruct (task s) as [| |[]|[]| | | | | | |]; try done; exfalso; destruct Hjob as (H1 & H2 & _);
      first [destruct (H1 eq_refl) as (? & _ & _); congruence|destruct (H2 eq_refl) as (_ & Hs2)];
      repeat (apply elem_of_cons in Hs2 as [Hs2|Hs2]; [by rewrite Hs2 in Hterm|]); by apply elem_of_nil in Hs2. }
  rewrite Hidle in Hjob. destruct Hjob as [[_ Hn]|[_ Hd]]; [congruence|].
  assert (Hsnap : snapshot s = Some (j, rep)) by (rewrite <- Hrep; by apply Hd).
  split; [done|]. replace (act ACrash s) with (die s) by (unfold act; by rewrite Ha).
  unfold act. cbn [die alive path snapshot root]. rewrite Hsnap. unfold _load. rewrite Hc, Hroot, Hterm. cbn [negb]. rewrite bool_decide_true by done. cbn [negb].
  rewrite bool_decide_true; [done|]. unfold terminal in Hterm. apply bool_decide_eq_true in Hterm. by do 2 right.
Qed.
End preservation.

(** ** A job from its preview to its end *)

#[local] Existing Instance posix.

Definition demo_now : Z := 2 * 86400 * 10 ^ 9.
Definition demo_env : env :=
  MkEnv demo_now demo_now 0 IoOk [File "s1" "old.json" (demo_inode 5); File "s1" "new.json" (demo_inode (demo_now - 1))] true false 100 "job".
(** A preview, its start, and the steps up to the batch. *)
Definition demo_before : list action :=
  APreview demo_env "1d" :: replicate 4 (ATask demo_env) ++ AStart demo_env "job" "prune" :: replicate 6 (ATask demo_env).
Definition demo_batch : Service := run (new_service "/blobs" None demo_root) demo_before.

Example demo_reaches_batch :
  match task demo_batch with Batch [c] false _ => c_uri c | _ => "" end = "ci-blob://s1/old".
Proof. vm_compute. reflexivity. Qed.
Example demo_batch_deletes :
  file_at (root (act (ATask demo_env) demo_batch)) "s1" "old.json" = None
  /\ file_at (root (act (ATask demo_env) demo_batch)) "s1" "new.json" = Some (demo_inode 50).
Proof. vm_compute. split; reflexivity. Qed.
Lemma demo_batch_differs : root (act (ATask demo_env) demo_batch) <> root demo_batch.
Proof.
  intros Heq. assert (Hf : file_at (root (act (ATask demo_env) demo_batch)) "s1" "old.json" = file_at (root demo_batch) "s1" "old.json")
    by (by rewrite Heq).
  assert (H1 : file_at (root (act (ATask demo_env) demo_batch)) "s1" "old.json" = None) by (vm_compute; reflexivity).
  assert (H2 : file_at (root demo_batch) "s1" "old.json" = Some (demo_inode 5)) by (vm_compute; reflexivity).
  rewrite H1, H2 in Hf. discriminate Hf.
Qed.

Lemma deletion_needs_consent_witness :
  exists j rep, snapshot demo_batch = Some (j, rep) /\ j_confirmed j = true
    /\ Safe (root demo_batch) (j_cutoff j) (root (act (ATask demo_env) demo_batch)).
Proof.
  assert (Hne : forall r', ATask demo_env <> AOther r') by discriminate.
  destruct (deletion_needs_consent "/blobs" demo_root demo_before (ATask demo_env) Hne) as [Heq|(j & rep & Hs & Hc & _ & _ & Hsafe)].
  - exfalso. exact (demo_batch_differs Heq).
  - exists j, rep. split; [exact Hs|]. split; [exact Hc|exact Hsafe].
Defined.

(** The process dies before the batch; the service restarts twice and previews again. *)
Definition demo_after : list action :=
  [ARestart IoOk; ATask demo_env; APreview demo_env "1d"; ATask demo_env; ATask demo_env; ACrash; ARestart IoOk; ATask demo_env].
Lemma nothing_resumes_witness : root (run (act ACrash demo_batch) demo_after) = root demo_batch.
Proof. apply (nothing_resumes demo_batch demo_after). repeat constructor. Defined.

(** The same job to its end. *)
Definition demo_whole : list action := demo_before ++ replicate 4 (ATask demo_env).
Notation demo_end := (run (new_service "/blobs" None demo_root) demo_whole).
Definition demo_job : Job :=
  MkJob "job" "/blobs" Completed true "1d" (86400 * 10 ^ 9) demo_now None PhFinished 2 0 (Some (demo_now + 900 * 10 ^ 9)).
Definition demo_report : Report := report demo_end.

Lemma demo_end_alive : alive demo_end = true.
Proof. vm_compute. reflexivity. Qed.
Lemma demo_end_status : status None demo_end = Some (demo_job, demo_report).
Proof. vm_compute. reflexivity. Qed.
Lemma demo_job_completed : j_state demo_job ∈ [Completed; Cancelled; Interrupted].
Proof. left. Qed.
Lemma outcome_durable_witness :
  status None (act (ARestart IoOk) (act ACrash demo_end)) = Some (demo_job, demo_report).
Proof.
  exact (proj1 (proj2 (outcome_durable "/blobs" demo_root demo_whole demo_job demo_report IoOk
    demo_end_alive demo_end_status eq_refl demo_job_completed))).
Defined.
