(* ===== verification/RawGraph.v ===== *)
(** * Repair of the Neo4j graph ([neo4j_store.py], [doctor.py])

    The writers of [Neo4jStore] see the nodes that carry the universal label, keyed
    by identity.  The repair sees the database itself: nodes and relationships with
    element ids, in scan order, whatever labels and identity properties they have,
    and the catalog of indexes and constraints.  The queries are functions on it, as
    Cypher defines them: grouping treats missing properties as equal, a uniqueness
    constraint ignores nodes without them.

    Every statement gets a reply from a script: it is done, it fails (a batched
    statement after some of its batches), or it takes effect although the driver
    reports an error.  [node_id] and [workspace] are strings where present. *)
From stdpp Require Import base list gmap strings.
From Stdlib Require Import ZArith Lia.
From S2P Require Import Prelude PyText Utils Json GraphStore Neo4jStore.

#[local] Open Scope string_scope.
#[local] Open Scope list_scope.

Module Raw.
Section raw.
Context `{!Timestamps}.

Record rnode := MkNode {
  rn_id : option string; rn_ws : option string; rn_labels : gset string; rn_props : gmap string pval;
}.
Record rrel := MkRel { rl_src : string; rl_dst : string; rl_type : string; rl_props : gmap string pval }.
Record rawdb := MkRaw {
  raw_nodes : list (string * rnode);
  raw_rels : list (string * rrel);
  raw_schema : list string;
}.

(** ** Statements *)

Inductive nerr := Neo4jError (code : string) | DriverError | RuntimeError
  | AmbiguousSessionError | TypeError.            (** the last three are raised by the program *)
Inductive reply := Done | Fails (committed : nat) (e : nerr) | Lost (e : nerr).

Definition RM (A : Type) : Type := rawdb * list reply -> (A + nerr) * (rawdb * list reply).
Definition ret {A} (a : A) : RM A := fun s => (inl a, s).
Definition raise {A} (e : nerr) : RM A := fun s => (inr e, s).
Definition bind {A B} (m : RM A) (k : A -> RM B) : RM B := fun s =>
  match m s with (inl a, s) => k a s | (inr e, s) => (inr e, s) end.
Definition catch {A} (m : RM A) (h : nerr -> RM A) : RM A := fun s =>
  match m s with (inr e, s) => h e s | r => r end.

(** A statement with its effect and the effect of its first committed batches. *)
Definition statement {A} (f : rawdb -> A * rawdb + nerr) (batches : nat -> rawdb -> rawdb) : RM A := fun '(db, l) =>
  let r := match l with [] => Done | r :: _ => r end in
  match r, f db with
  | Done, inl (a, db') => (inl a, (db', tail l))
  | Fails n e, _ => (inr e, (batches n db, tail l))
  | Lost e, inl (_, db') => (inr e, (db', tail l))
  | _, inr e => (inr e, (db, tail l))
  end.
Definition whole (_ : nat) (db : rawdb) : rawdb := db.
Definition query {A} (f : rawdb -> A) : RM A := statement (fun db => inl (f db, db)) whole.
Definition write {A} (f : rawdb -> A * rawdb) : RM A := statement (fun db => inl (f db)) whole.
End raw.

#[local] Notation "'do' x <- m ; k" := (bind m (fun x => k)) (at level 200, x name, m at level 100, k at level 200).

Section repair.
Context `{!Timestamps}.
Abbreviation entry := (string * rnode)%type.

(** ** Duplicates *)

Definition rkey (n : rnode) : option string * option string := (rn_id n, rn_ws n).
Definition group (k : option string * option string) (ns : list entry) : list entry :=
  base.filter (fun x => rkey x.2 = k) ns.
Definition keys (ns : list entry) : list (option string * option string) := remove_dups (map (fun x => rkey x.2) ns).

(** [reduce(best = nodes[0], x IN nodes | ...)] *)
Definition richer (best x : entry) : entry :=
  if (size (rn_labels best.2) <? size (rn_labels x.2))%nat then x else best.
Definition richest (best : entry) (ns : list entry) : entry := foldl richer best ns.

Definition group_duplicates (g : list entry) : list string :=
  match g with
  | x :: _ :: _ => base.filter (fun e => e <> (richest x g).1) (map fst g)
  | _ => []
  end.
(** [_DUPLICATE_DETECT_CYPHER] *)
Definition duplicates (ns : list entry) : list string := keys ns ≫= fun k => group_duplicates (group k ns).
(** [UNWIND tail(nodes)] over the nodes with one label *)
Definition labelled (label : string) (ns : list entry) : list entry := base.filter (fun x => label ∈ rn_labels x.2) ns.
Definition label_duplicates (label : string) (ns : list entry) : list string :=
  let ns := labelled label ns in keys ns ≫= fun k => map fst (tail (group k ns)).

Definition detach_delete (ids : list string) (db : rawdb) : rawdb :=
  MkRaw (base.filter (fun x => x.1 ∉ ids) (raw_nodes db))
    (base.filter (fun r : string * rrel => rl_src r.2 ∉ ids /\ rl_dst r.2 ∉ ids) (raw_rels db)) (raw_schema db).

Definition _DEDUP_GLOBAL_CYPHER (db : rawdb) : nat * rawdb :=
  let d := duplicates (raw_nodes db) in (length d, detach_delete d db).
Definition dedup_label (label : string) (db : rawdb) : nat * rawdb :=
  let d := label_duplicates label (raw_nodes db) in (length d, detach_delete d db).

(** A failing pass counts nothing and does not stop the next. *)
Fixpoint dedup_passes (passes : list (rawdb -> nat * rawdb)) (removed : nat) : RM nat :=
  match passes with
  | [] => ret removed
  | p :: passes => do n <- catch (write p) (fun _ => ret 0%nat); dedup_passes passes (removed + n)
  end.
Definition dedup_duplicate_nodes : RM nat :=
  dedup_passes [_DEDUP_GLOBAL_CYPHER; dedup_label "Session"; dedup_label "Event"] 0.

(** ** The universal label *)

Definition _NODE_BACKFILL_BATCH : nat := 10000.
Definition tagged (n : rnode) : bool := bool_decide ("Node" ∈ rn_labels n).
Definition tag (n : rnode) : rnode := MkNode (rn_id n) (rn_ws n) ({["Node"]} ∪ rn_labels n) (rn_props n).
(** The first [k] untagged nodes. *)
Fixpoint tag_first (k : nat) (ns : list entry) : list entry :=
  match ns with
  | [] => []
  | x :: ns =>
    if tagged x.2 then x :: tag_first k ns
    else match k with O => x :: ns | S k => (x.1, tag x.2) :: tag_first k ns end
  end.
Definition on_nodes (f : list entry -> list entry) (db : rawdb) : rawdb :=
  MkRaw (f (raw_nodes db)) (raw_rels db) (raw_schema db).
Definition untagged (db : rawdb) : nat := length (base.filter (fun x => tagged x.2 = false) (raw_nodes db)).
Definition backfill : RM unit :=
  statement (fun db => inl (tt, on_nodes (tag_first (length (raw_nodes db))) db))
    (fun n => on_nodes (tag_first (n * _NODE_BACKFILL_BATCH))).

Definition backfill_node_labels : RM nat := fun s =>
  match query untagged s with
  | (inr _, s) => (inl 0%nat, s)
  | (inl before, s) =>
    let '(_, s) := backfill s in
    match query untagged s with
    | (inr _, s) => (inl 0%nat, s)
    | (inl remaining, s) => (inl (before - remaining)%nat, s)
    end
  end.

Definition count_untagged_nodes : RM nat :=
  do total <- query (fun db => length (raw_nodes db));
  do tagged <- query (fun db => length (base.filter (fun x => tagged x.2 = true) (raw_nodes db)));
  ret (total - tagged)%nat.
Definition count_duplicate_nodes : RM nat := query (fun db => length (duplicates (raw_nodes db))).
Definition diagnose : RM (nat * nat) :=
  do untagged_nodes <- count_untagged_nodes; do duplicate_nodes <- count_duplicate_nodes;
  ret (untagged_nodes, duplicate_nodes).

(** ** The catalog *)

Definition equivalent_exists : string := "Neo.ClientError.Schema.EquivalentSchemaRuleAlreadyExists".
Definition _BENIGN_SCHEMA_CODES : list string :=
  [equivalent_exists; "Neo.TransientError.Transaction.DeadlockDetected";
   "Neo.ClientError.Schema.IndexWithNameAlreadyExists"; "Neo.ClientError.Schema.ConstraintWithNameAlreadyExists"].
Definition creation_failed : string := "Neo.DatabaseError.Schema.ConstraintCreationFailed".
Definition _CONSTRAINT_DATA_CONFLICT_CODES : list string :=
  ["Neo.ClientError.Schema.ConstraintValidationFailed"; creation_failed].
Definition _is_constraint_data_conflict (e : nerr) : bool :=
  match e with Neo4jError c => bool_decide (c ∈ _CONSTRAINT_DATA_CONFLICT_CODES) | _ => false end.

Definition catalog (f : list string -> list string) (db : rawdb) : rawdb :=
  MkRaw (raw_nodes db) (raw_rels db) (f (raw_schema db)).
Definition add_rule (name : string) (l : list string) : list string := if decide (name ∈ l) then l else l ++ [name].

Definition _create_index (name : string) : RM bool :=
  catch (do _ <- write (fun db => (tt, catalog (add_rule name) db)); ret true)
    (fun e => match e with
              | Neo4jError c => if decide (c = equivalent_exists) then ret true else raise e
              | _ => ret false
              end).

(** Two nodes with the label and the same, present, identity. *)
Definition identified (n : rnode) : bool := match rn_id n, rn_ws n with Some _, Some _ => true | _, _ => false end.
Definition violates (label : string) (db : rawdb) : bool :=
  let ns := base.filter (fun x => identified x.2 = true) (labelled label (raw_nodes db)) in
  negb (bool_decide (NoDup (map (fun x => rkey x.2) ns))).
Definition legacy_index : string := "idx_node_universal".
Definition constraint_statement (name label : string) (db : rawdb) : unit * rawdb + nerr :=
  if decide (name ∈ raw_schema db) then inl (tt, db)
  else if bool_decide (label = "Node") && bool_decide (legacy_index ∈ raw_schema db)
  then inr (Neo4jError "Neo.ClientError.Schema.IndexAlreadyExists")
  else if violates label db then inr (Neo4jError creation_failed)
  else inl (tt, catalog (add_rule name) db).

Definition _create_constraint (name label : string) (fail_on_data_conflict : bool) : RM bool :=
  catch (do _ <- statement (constraint_statement name label) whole; ret true)
    (fun e =>
       if match e with Neo4jError c => bool_decide (c ∈ _BENIGN_SCHEMA_CODES) | _ => false end then ret true
       else if fail_on_data_conflict && _is_constraint_data_conflict e then raise RuntimeError
       else ret false).

Definition index_names : list string :=
  ["Session"; "OrchestratorRun"; "Step"; "ToolExecution"; "Event";
   "idx_session_workspace"; "idx_session_created_by"; "idx_delegation_sub_session"].
Fixpoint create_indexes (names : list string) (established : bool) : RM bool :=
  match names with
  | [] => ret established
  | n :: names => do ok <- _create_index n; create_indexes names (ok && established)
  end.
Definition session_unique : string := "session_node_id_workspace_unique".
Definition event_unique : string := "event_node_id_workspace_unique".
Definition node_unique : string := "node_node_id_workspace_unique".

Definition ensure_neo4j_schema (fail_on_data_conflict : bool) : RM bool :=
  do ok <- create_indexes index_names true;
  do s <- _create_constraint session_unique "Session" false;
  do e <- _create_constraint event_unique "Event" false;
  do _ <- catch (write (fun db => (tt, catalog (base.filter (fun n => n <> legacy_index)) db))) (fun _ => ret tt);
  do n <- _create_constraint node_unique "Node" fail_on_data_conflict;
  ret (n && (e && (s && ok))).

(** ** The repair *)

Definition run_repair : RM (nat * nat) :=
  do duplicates_removed <- dedup_duplicate_nodes;
  do nodes_tagged <- backfill_node_labels;
  do _ <- ensure_neo4j_schema true;
  ret (duplicates_removed, nodes_tagged).

Definition _is_healthy (d : nat * nat) : bool := (d.1 =? 0)%nat && (d.2 =? 0)%nat.

(** The exit code of [doctor]; an error after the first contact is a traceback. *)
Definition run_doctor (fix_ : bool) : RM Z := fun s =>
  match query (fun _ => tt) s with
  | (inr _, s) => (inl 1%Z, s)
  | (inl _, s) =>
    (do diagnosis <- diagnose;
     if _is_healthy diagnosis then ret 0%Z
     else if negb fix_ then ret 1%Z
     else
       do _ <- run_repair;
       do after <- diagnose;
       ret (if _is_healthy after then 0%Z else 1%Z)) s
  end.
End repair.
End Raw.
