(* ===== verification/RawSpec.v ===== *)
(** * What the repair of the graph guarantees ([RawGraph])

    [doctor_truthful]: under every script of failures, exit code 0 means that every
    node carries the universal label and no two nodes share an identity, and nothing
    is ever lost but duplicates: each identity keeps a node, nodes change by the
    universal label only, relationships between survivors stay.  [repair_exact]:
    undisturbed, the repair keeps exactly the richest node of each identity,
    establishes the whole schema, and a second repair changes nothing. *)
From stdpp Require Import base list gmap strings.
From Stdlib Require Import ZArith Lia.
From S2P Require Import Prelude PyText Utils Json GraphStore Neo4jStore RawGraph.

#[local] Open Scope string_scope.
#[local] Open Scope list_scope.

Import Raw.

Create HintDb raw.
Section spec.
Context `{!Timestamps}.
Abbreviation entry := (string * rnode)%type.
Implicit Types (ns : list entry) (db : rawdb) (x y : entry).

(** ** The kept node of an identity *)

#[local] Arguments richest : simpl never.

Lemma richest_step best l : richest best l = best \/ richest best l ∈ l.
Proof.
  revert best. induction l as [|x l IH]; intros best; [by left|].
  change (richest best (x :: l)) with (richest (richer best x) l). destruct (IH (richer best x)) as [-> |Hin].
  - unfold richer. destruct (_ <? _)%nat; [right; by left|by left].
  - right. by right.
Qed.
Lemma richest_ge best l :
  (size (rn_labels best.2) <= size (rn_labels (richest best l).2))%nat
  /\ forall x, x ∈ l -> (size (rn_labels x.2) <= size (rn_labels (richest best l).2))%nat.
Proof.
  revert best. induction l as [|y l IH]; intros best; [split; [done|by intros x ?%elem_of_nil]|].
  change (richest best (y :: l)) with (richest (richer best y) l).
  destruct (IH (richer best y)) as [H1 H2].
  assert (Hr : (size (rn_labels best.2) <= size (rn_labels (richer best y).2))%nat
               /\ (size (rn_labels y.2) <= size (rn_labels (richer best y).2))%nat).
  { unfold richer. destruct (Nat.ltb_spec (size (rn_labels best.2)) (size (rn_labels y.2))); lia. }
  split; [lia|]. intros x [-> |Hx]%elem_of_cons; [lia|by apply H2].
Qed.

Definition keep (ns : list entry) (k : option string * option string) : option entry :=
  match group k ns with [] => None | x :: l => Some (richest x (x :: l)) end.

Lemma elem_of_group k ns x : x ∈ group k ns <-> rkey x.2 = k /\ x ∈ ns.
Proof. unfold group. by rewrite list_elem_of_filter. Qed.
Lemma keep_elem ns k b : keep ns k = Some b -> rkey b.2 = k /\ b ∈ ns.
Proof.
  unfold keep. destruct (group k ns) as [|x l] eqn:Hg; [done|]. intros [= <-]. apply elem_of_group. rewrite Hg.
  destruct (richest_step x (x :: l)) as [-> |]; [by left|done].
Qed.
Lemma keep_some ns x : x ∈ ns -> exists b, keep ns (rkey x.2) = Some b.
Proof.
  intros Hx. assert (Hin : x ∈ group (rkey x.2) ns) by (by apply elem_of_group). unfold keep.
  destruct (group (rkey x.2) ns); [by apply elem_of_nil in Hin|eauto].
Qed.
Lemma keep_richest ns k b x : keep ns k = Some b -> x ∈ ns -> rkey x.2 = k -> (size (rn_labels x.2) <= size (rn_labels b.2))%nat.
Proof.
  unfold keep. intros Hk Hx Hkey. assert (Hin : x ∈ group k ns) by (by apply elem_of_group).
  destruct (group k ns) as [|y l]; [done|]. injection Hk as <-. by apply richest_ge.
Qed.

Definition ids (ns : list entry) : list string := map fst ns.
Lemma ids_inj ns x y : NoDup (ids ns) -> x ∈ ns -> y ∈ ns -> x.1 = y.1 -> x = y.
Proof.
  intros Hnd Hx Hy Heq. destruct x as [e n], y as [e' m]. cbn in Heq. subst e'. f_equal.
  induction ns as [|[e0 n0] ns IH]; [by apply elem_of_nil in Hx|]. apply NoDup_cons in Hnd as [Hni Hnd].
  assert (Hout : forall k, (e0, k) ∈ ns -> False).
  { intros k Hk. apply Hni. apply list_elem_of_fmap. by exists (e0, k). }
  apply elem_of_cons in Hx as [Hx|Hx]; apply elem_of_cons in Hy as [Hy|Hy]; simplify_eq; try done; try (by exfalso; eauto).
  by apply IH.
Qed.

Lemma elem_of_keys k ns : k ∈ keys ns <-> exists x, x ∈ ns /\ rkey x.2 = k.
Proof.
  unfold keys. rewrite elem_of_remove_dups, list_elem_of_fmap. split; intros (x & H1 & H2); exists x; by split.
Qed.

Lemma group_duplicates_elem g e : e ∈ group_duplicates g -> exists x, x ∈ g /\ x.1 = e.
Proof.
  unfold group_duplicates. destruct g as [|x [|y l]]; try by intros ?%elem_of_nil.
  intros [_ Hin]%list_elem_of_filter. apply list_elem_of_fmap in Hin as (z & -> & Hz). by exists z.
Qed.

Lemma elem_of_duplicates ns x :
  NoDup (ids ns) -> x ∈ ns -> x.1 ∈ duplicates ns <-> keep ns (rkey x.2) <> Some x.
Proof.
  intros Hnd Hx. unfold duplicates. rewrite list_elem_of_bind. split.
  - intros (k & Hk & _) Hkeep. destruct (group_duplicates_elem _ _ Hk) as (y & Hy & Hyx).
    apply elem_of_group in Hy as [Hyk Hy]. pose proof (ids_inj ns y x Hnd Hy Hx Hyx) as ->. subst k.
    unfold keep in Hkeep. unfold group_duplicates in Hk. destruct (group (rkey x.2) ns) as [|y l]; [done|].
    injection Hkeep as Hkeep. destruct l as [|z l]; [by apply elem_of_nil in Hk|].
    apply list_elem_of_filter in Hk as [Hne _]. by rewrite Hkeep in Hne.
  - intros Hne. exists (rkey x.2). split; [|apply elem_of_keys; by exists x].
    assert (Hin : x ∈ group (rkey x.2) ns) by (by apply elem_of_group).
    unfold keep in Hne. unfold group_duplicates. destruct (group (rkey x.2) ns) as [|y l] eqn:Hg; [by apply elem_of_nil in Hin|].
    assert (Hb : richest y (y :: l) ∈ ns).
    { assert (Hgb : richest y (y :: l) ∈ group (rkey x.2) ns) by (rewrite Hg; destruct (richest_step y (y :: l)) as [-> |]; [by left|done]).
      by apply elem_of_group in Hgb as [_ ?]. }
    assert (Hid : x.1 <> (richest y (y :: l)).1) by (intros Heq; apply Hne; f_equal; symmetry; by apply (ids_inj ns)).
    destruct l as [|z l].
    + exfalso. apply list_elem_of_singleton in Hin. subst y. apply Hid. unfold richest, richer. cbn [foldl]. by rewrite Nat.ltb_irrefl.
    + apply list_elem_of_filter. split; [done|]. apply list_elem_of_fmap. by exists x.
Qed.

Definition survive (ns : list entry) : list entry := base.filter (fun x => x.1 ∉ duplicates ns) ns.

Lemma elem_of_survive ns x : NoDup (ids ns) -> x ∈ survive ns <-> keep ns (rkey x.2) = Some x.
Proof.
  intros Hnd. unfold survive. rewrite list_elem_of_filter. split.
  - intros [Hn Hx]. destruct (keep_some ns x Hx) as [b Hb]. destruct (decide (x.1 = b.1)) as [He|He].
    + rewrite Hb. f_equal. symmetry. apply (ids_inj ns); [done|done| |done]. by apply (keep_elem ns (rkey x.2)).
    + destruct Hn. apply elem_of_duplicates; [done|done|]. rewrite Hb. by intros [= ->].
  - intros Hk. destruct (keep_elem _ _ _ Hk) as [_ Hx]. split; [|done]. rewrite elem_of_duplicates by done. auto.
Qed.

Lemma survive_ids ns : NoDup (ids ns) -> NoDup (ids (survive ns)).
Proof.
  intros Hnd. unfold ids. apply NoDup_fmap_2_strong; [|apply NoDup_filter; by apply (NoDup_fmap_1 fst)].
  intros x y [_ Hx]%list_elem_of_filter [_ Hy]%list_elem_of_filter. by apply (ids_inj ns).
Qed.
Lemma survive_keys ns : NoDup (ids ns) -> NoDup (map (fun x => rkey x.2) (survive ns)).
Proof.
  intros Hnd. apply NoDup_fmap_2_strong; [|apply NoDup_filter; by apply (NoDup_fmap_1 fst)].
  intros x y Hx%elem_of_survive Hy%elem_of_survive Hk; try done. congruence.
Qed.
Lemma survive_all ns x : NoDup (ids ns) -> x ∈ ns -> exists y, y ∈ survive ns /\ rkey y.2 = rkey x.2.
Proof.
  intros Hnd Hx. destruct (keep_some ns x Hx) as [b Hb]. destruct (keep_elem _ _ _ Hb) as [Hk _]. exists b.
  split; [|done]. apply elem_of_survive; [done|]. by rewrite Hk.
Qed.

Lemma filter_everything {A} (P : A -> Prop) `{forall a, Decision (P a)} (l : list A) : (forall a, a ∈ l -> P a) -> base.filter P l = l.
Proof.
  intros Hl. induction l as [|x l IH]; [done|]. rewrite filter_cons, decide_True by (apply Hl; by left).
  f_equal. apply IH. intros y Hy. apply Hl. by right.
Qed.

(** Without a repeated identity there are no duplicates. *)
Lemma unique_group ns k : NoDup (map (fun x => rkey x.2) ns) -> (length (group k ns) <= 1)%nat.
Proof.
  intros Hnd. induction ns as [|x ns IH]; [cbn; lia|]. apply NoDup_cons in Hnd as [Hn Hnd]. unfold group. rewrite filter_cons.
  destruct (decide (rkey x.2 = k)) as [Hk|]; [|by apply IH]. cbn.
  destruct (base.filter (fun y => rkey y.2 = k) ns) as [|y l] eqn:Hf; [cbn; lia|]. exfalso. apply Hn.
  assert (Hy : y ∈ group k ns) by (unfold group; rewrite Hf; by left). apply elem_of_group in Hy as [Hyk Hy].
  apply list_elem_of_fmap. exists y. split; [congruence|done].
Qed.
Lemma bind_nil {A B} (f : A -> list B) (l : list A) : (forall a, f a = []) -> l ≫= f = [].
Proof. intros Hf. induction l as [|a l IH]; [done|]. cbn. by rewrite Hf. Qed.
Lemma unique_duplicates ns : NoDup (map (fun x => rkey x.2) ns) -> duplicates ns = [].
Proof.
  intros Hnd. apply bind_nil. intros k. pose proof (unique_group ns k Hnd) as Hl. unfold group_duplicates.
  destruct (group k ns) as [|x [|y l]]; try done. cbn in Hl. lia.
Qed.
Lemma duplicates_unique ns : NoDup (ids ns) -> duplicates ns = [] -> NoDup (map (fun x => rkey x.2) ns).
Proof.
  intros Hnd Hd. pose proof (survive_keys ns Hnd) as Hs. unfold survive in Hs. rewrite Hd in Hs.
  rewrite filter_everything in Hs; [done|]. intros x _. apply not_elem_of_nil.
Qed.
Lemma labelled_keys label ns : NoDup (map (fun x => rkey x.2) ns) -> NoDup (map (fun x => rkey x.2) (labelled label ns)).
Proof.
  intros Hnd. induction ns as [|x ns IH]; [done|]. apply NoDup_cons in Hnd as [Hn Hnd]. unfold labelled. rewrite filter_cons.
  destruct (decide (label ∈ rn_labels x.2)); [|by apply IH]. cbn. apply NoDup_cons. split; [|by apply IH].
  intros Hin. apply Hn. apply list_elem_of_fmap in Hin as (y & Hy & [_ Hin]%list_elem_of_filter). apply list_elem_of_fmap. by exists y.
Qed.
Lemma unique_label_duplicates label ns : NoDup (map (fun x => rkey x.2) ns) -> label_duplicates label ns = [].
Proof.
  intros Hnd. apply bind_nil. intros k. pose proof (unique_group _ k (labelled_keys label ns Hnd)) as Hl.
  destruct (group k (labelled label ns)) as [|x [|y l]]; try done. cbn in Hl. lia.
Qed.

(** ** Tagging *)

Lemma tag_tagged n : tagged n = true -> tag n = n.
Proof. unfold tagged, tag. intros Ht%bool_decide_eq_true. destruct n as [i w l p]. cbn in *. f_equal. set_solver. Qed.
Lemma tagged_tag n : tagged (tag n) = true.
Proof. unfold tagged, tag. apply bool_decide_eq_true. cbn. set_solver. Qed.

Definition grown (x y : entry) : Prop := y.1 = x.1 /\ (y.2 = x.2 \/ y.2 = tag x.2).
Lemma tag_first_grown k ns : Forall2 grown ns (tag_first k ns).
Proof.
  revert k. induction ns as [|x ns IH]; intros k; [by constructor|]. cbn. destruct (tagged x.2).
  - constructor; [by split; [|left]|done].
  - destruct k; [|constructor; [by split; [|right]|done]]. constructor; [by split; [|left]|].
    clear IH. induction ns; constructor; [by split; [|left]|done].
Qed.
Lemma tag_first_all k ns : (length ns <= k)%nat -> tag_first k ns = map (fun x => (x.1, tag x.2)) ns.
Proof.
  revert k. induction ns as [|x ns IH]; intros k Hk; [done|]. cbn in *. destruct (tagged x.2) eqn:Ht.
  - rewrite IH by lia. rewrite tag_tagged by done. by destruct x.
  - destruct k; [lia|]. by rewrite IH by lia.
Qed.

(** ** Counting *)

Lemma duplicates_nodup ns : NoDup (ids ns) -> NoDup (duplicates ns).
Proof.
  intros Hnd. unfold duplicates. apply NoDup_bind.
  - intros k1 k2 e _ _ H1 H2. destruct (group_duplicates_elem _ _ H1) as (x & Hx & Hxe), (group_duplicates_elem _ _ H2) as (y & Hy & Hye).
    apply elem_of_group in Hx as [<- Hx], Hy as [<- Hy]. by rewrite (ids_inj ns x y Hnd Hx Hy ltac:(congruence)).
  - intros k _. assert (Hg : NoDup (map fst (group k ns))).
    { apply NoDup_fmap_2_strong; [|apply NoDup_filter; by apply (NoDup_fmap_1 fst)].
      intros x y [_ Hx]%elem_of_group [_ Hy]%elem_of_group. by apply (ids_inj ns). }
    unfold group_duplicates. destruct (group k ns) as [|x [|y l]]; [constructor|constructor|by apply NoDup_filter].
  - apply NoDup_remove_dups.
Qed.
Lemma delete_count (d : list string) ns :
  NoDup d -> NoDup (ids ns) -> (forall e, e ∈ d -> e ∈ ids ns) ->
  (length d + length (base.filter (fun x : entry => x.1 ∉ d) ns) = length ns)%nat.
Proof.
  intros Hd Hnd Hsub.
  assert (Hp : base.filter (fun e => e ∈ d) (ids ns) ≡ₚ d).
  { apply NoDup_Permutation; [by apply NoDup_filter|done|]. intros e. rewrite list_elem_of_filter. split; [by intros []|auto]. }
  rewrite <- (Permutation_length Hp). clear. unfold ids. induction ns as [|x ns IH]; [done|]. cbn [map]. rewrite !filter_cons.
  destruct (decide (x.1 ∈ d)) as [Hin|Hin].
  - rewrite decide_False by auto. cbn [length]. lia.
  - rewrite decide_True by done. cbn [length]. lia.
Qed.
Lemma duplicates_ids ns e : e ∈ duplicates ns -> e ∈ ids ns.
Proof.
  unfold duplicates. intros (k & Hk & _)%list_elem_of_bind. destruct (group_duplicates_elem _ _ Hk) as (x & Hx & <-).
  apply elem_of_group in Hx as [_ Hx]. apply list_elem_of_fmap. by exists x.
Qed.
Lemma survive_count ns : NoDup (ids ns) -> (length (duplicates ns) + length (survive ns) = length ns)%nat.
Proof. intros Hnd. apply delete_count; [by apply duplicates_nodup|done|apply duplicates_ids]. Qed.

(** ** What a repair may do to the data *)

Record evolves (db db' : rawdb) : Prop := {
  ev_ids : NoDup (ids (raw_nodes db'));
  ev_nodes : forall y, y ∈ raw_nodes db' -> exists x, x ∈ raw_nodes db /\ grown x y;
  ev_keys : forall x, x ∈ raw_nodes db -> exists y, y ∈ raw_nodes db' /\ rkey y.2 = rkey x.2;
  ev_rels : forall r, r ∈ raw_rels db' -> r ∈ raw_rels db;
  ev_kept : forall r, r ∈ raw_rels db -> rl_src r.2 ∈ ids (raw_nodes db') -> rl_dst r.2 ∈ ids (raw_nodes db') -> r ∈ raw_rels db';
}.

Lemma tag_tag n : tag (tag n) = tag n.
Proof. apply tag_tagged, tagged_tag. Qed.
Lemma grown_trans x y z : grown x y -> grown y z -> grown x z.
Proof.
  intros [H1 H2] [H3 H4]. split; [congruence|]. destruct H4 as [-> | ->]; [done|]. destruct H2 as [-> | ->]; [by right|].
  right. apply tag_tag.
Qed.
Lemma grown_key x y : grown x y -> rkey y.2 = rkey x.2.
Proof. by intros [_ [-> | ->]]. Qed.

Lemma db_evolves_refl db : NoDup (ids (raw_nodes db)) -> evolves db db.
Proof.
  intros Hnd. split; try done; intros x Hx; exists x; [|done]. split; [done|]. by split; [|left].
Qed.
Lemma evolves_ids db db' e : evolves db db' -> e ∈ ids (raw_nodes db') -> e ∈ ids (raw_nodes db).
Proof.
  intros He Hin. apply list_elem_of_fmap in Hin as (y & -> & Hy). destruct (ev_nodes _ _ He y Hy) as (x & Hx & -> & _).
  apply list_elem_of_fmap. by exists x.
Qed.
Lemma db_evolves_trans db1 db2 db3 : evolves db1 db2 -> evolves db2 db3 -> evolves db1 db3.
Proof.
  intros H12 H23. split.
  - apply H23.
  - intros z Hz. destruct (ev_nodes _ _ H23 z Hz) as (y & Hy & Hyz). destruct (ev_nodes _ _ H12 y Hy) as (x & Hx & Hxy).
    exists x. split; [done|]. by eapply grown_trans.
  - intros x Hx. destruct (ev_keys _ _ H12 x Hx) as (y & Hy & Hk). destruct (ev_keys _ _ H23 y Hy) as (z & Hz & Hk').
    exists z. split; [done|congruence].
  - intros r Hr. by apply (ev_rels _ _ H12), (ev_rels _ _ H23).
  - intros r Hr Hs Hd. apply (ev_kept _ _ H23); [|done|done]. apply (ev_kept _ _ H12); [done| |]; by apply (evolves_ids _ db3).
Qed.

Lemma evolves_catalog f db : NoDup (ids (raw_nodes db)) -> evolves db (catalog f db).
Proof. intros Hnd. destruct (db_evolves_refl db Hnd). by split. Qed.
Lemma grown_ids ns ns' : Forall2 grown ns ns' -> ids ns' = ids ns.
Proof. unfold ids. induction 1 as [|x y ns ns' [Hxy _] _ IH]; [done|]. cbn. congruence. Qed.
Lemma evolves_grown ns' db : NoDup (ids (raw_nodes db)) -> Forall2 grown (raw_nodes db) ns' -> evolves db (on_nodes (fun _ => ns') db).
Proof.
  intros Hnd Hg. pose proof (grown_ids _ _ Hg) as Hi. split; cbn [on_nodes raw_nodes raw_rels]; try done.
  - by rewrite Hi.
  - intros y Hy. apply (list_elem_of_lookup_1) in Hy as [i Hy]. destruct (Forall2_lookup_r _ _ _ _ _ Hg Hy) as (x & Hx & Hxy).
    exists x. split; [by eapply list_elem_of_lookup_2|done].
  - intros x Hx. apply (list_elem_of_lookup_1) in Hx as [i Hx]. destruct (Forall2_lookup_l _ _ _ _ _ Hg Hx) as (y & Hy & Hxy).
    exists y. split; [by eapply list_elem_of_lookup_2|by apply grown_key].
Qed.

(** Deleting some nodes of every identity but one. *)
Lemma evolves_delete d db :
  NoDup (ids (raw_nodes db)) -> (forall x, x ∈ raw_nodes db -> exists y, y ∈ raw_nodes db /\ y.1 ∉ d /\ rkey y.2 = rkey x.2) ->
  evolves db (detach_delete d db).
Proof.
  intros Hnd Hk. split; cbn.
  - unfold ids. apply NoDup_fmap_2_strong; [|apply NoDup_filter; by apply (NoDup_fmap_1 fst)].
    intros x y [_ Hx]%list_elem_of_filter [_ Hy]%list_elem_of_filter. by apply (ids_inj (raw_nodes db)).
  - intros y [_ Hy]%list_elem_of_filter. exists y. split; [done|]. by split; [|left].
  - intros x Hx. destruct (Hk x Hx) as (y & Hy & Hd & Hxy). exists y. split; [by apply list_elem_of_filter|done].
  - intros r [_ Hr]%list_elem_of_filter. done.
  - intros r Hr Hs Ht. apply list_elem_of_filter. split; [|done].
    apply list_elem_of_fmap in Hs as (x & -> & [Hx _]%list_elem_of_filter), Ht as (y & -> & [Hy _]%list_elem_of_filter). by split.
Qed.

Lemma evolves_global db : NoDup (ids (raw_nodes db)) -> evolves db (_DEDUP_GLOBAL_CYPHER db).2.
Proof.
  intros Hnd. apply evolves_delete; [done|]. intros x Hx. destruct (survive_all _ _ Hnd Hx) as (y & Hy & Hk).
  apply list_elem_of_filter in Hy as [Hd Hy]. by exists y.
Qed.

Lemma elem_of_tail {A} (a : A) l : a ∈ tail l -> a ∈ l.
Proof. destruct l; [done|]. by right. Qed.
Lemma label_duplicates_elem label ns e :
  e ∈ label_duplicates label ns -> exists x, x ∈ tail (group (rkey x.2) (labelled label ns)) /\ x.1 = e.
Proof.
  unfold label_duplicates. intros (k & Hk & _)%list_elem_of_bind. apply list_elem_of_fmap in Hk as (x & -> & Hx).
  exists x. split; [|done]. assert (Hg : x ∈ group k (labelled label ns)).
  { by apply elem_of_tail. }
  apply elem_of_group in Hg as [<- _]. done.
Qed.
Lemma elem_of_labelled label ns x : x ∈ labelled label ns -> x ∈ ns.
Proof. unfold labelled. by intros [_ ?]%list_elem_of_filter. Qed.

Lemma evolves_label label db : NoDup (ids (raw_nodes db)) -> evolves db (dedup_label label db).2.
Proof.
  intros Hnd. set (ns := raw_nodes db) in *. apply evolves_delete; [done|]. intros x Hx. fold ns in Hx |- *.
  destruct (decide (x.1 ∈ label_duplicates label ns)) as [Hd|Hd]; [|by exists x].
  destruct (label_duplicates_elem _ _ _ Hd) as (x' & Ht & Hid).
  destruct (group (rkey x'.2) (labelled label ns)) as [|y l] eqn:Hg; [by apply elem_of_nil in Ht|]. cbn in Ht.
  assert (Hsub : forall z, z ∈ y :: l -> rkey z.2 = rkey x'.2 /\ z ∈ ns).
  { intros z Hz. rewrite <- Hg in Hz. apply elem_of_group in Hz as [Hk Hz]. split; [done|]. by eapply elem_of_labelled. }
  destruct (Hsub y ltac:(by left)) as [Hky Hy]. destruct (Hsub x' ltac:(by right)) as [_ Hx'].
  pose proof (ids_inj ns x' x Hnd Hx' Hx Hid) as ->. exists y. split; [done|]. split; [|done]. intros Hyd.
  destruct (label_duplicates_elem _ _ _ Hyd) as (y' & Ht' & Hid').
  assert (Hy' : y' ∈ ns).
  { by apply (elem_of_labelled label), (elem_of_group (rkey y'.2)), elem_of_tail. }
  pose proof (ids_inj ns y' y Hnd Hy' Hy Hid') as ->. rewrite Hky, Hg in Ht'. cbn in Ht'.
  assert (Hnd' : NoDup (y :: l)).
  { rewrite <- Hg. do 2 apply NoDup_filter. by apply (NoDup_fmap_1 fst). }
  apply NoDup_cons in Hnd' as [Hni _]. done.
Qed.

(** ** Every statement, whatever its reply *)

Definition safe {A} (m : RM A) : Prop :=
  forall db l, NoDup (ids (raw_nodes db)) -> evolves db (m (db, l)).2.1.

Lemma safe_ret {A} (a : A) : safe (ret a).
Proof. intros db l Hnd. by apply db_evolves_refl. Qed.
Lemma safe_raise {A} e : safe (@raise _ A e).
Proof. intros db l Hnd. by apply db_evolves_refl. Qed.
Lemma safe_bind {A B} (m : RM A) (k : A -> RM B) : safe m -> (forall a, safe (k a)) -> safe (bind m k).
Proof.
  intros Hm Hk db l Hnd. unfold bind. specialize (Hm db l Hnd). destruct (m (db, l)) as [[a|e] [db' l']]; cbn in Hm; [|done].
  eapply db_evolves_trans; [exact Hm|]. apply Hk, Hm.
Qed.
Lemma safe_catch {A} (m : RM A) h : safe m -> (forall e, safe (h e)) -> safe (catch m h).
Proof.
  intros Hm Hk db l Hnd. unfold catch. specialize (Hm db l Hnd). destruct (m (db, l)) as [[a|e] [db' l']]; cbn in Hm; [done|].
  eapply db_evolves_trans; [exact Hm|]. apply Hk, Hm.
Qed.
Lemma safe_statement {A} (f : rawdb -> A * rawdb + nerr) batches :
  (forall db a db', NoDup (ids (raw_nodes db)) -> f db = inl (a, db') -> evolves db db') ->
  (forall n db, NoDup (ids (raw_nodes db)) -> evolves db (batches n db)) -> safe (statement f batches).
Proof.
  intros Hf Hb db l Hnd. unfold statement. specialize (Hf db). pose proof (db_evolves_refl db Hnd) as Hr.
  destruct (match l with [] => Done | r :: _ => r end); destruct (f db) as [[a db']|e']; cbn; eauto.
Qed.
Lemma safe_query {A} (f : rawdb -> A) : safe (query f).
Proof. apply safe_statement; [intros db a db' Hnd [= <- <-]|intros n db Hnd]; by apply db_evolves_refl. Qed.
Lemma safe_write {A} (f : rawdb -> A * rawdb) : (forall db, NoDup (ids (raw_nodes db)) -> evolves db (f db).2) -> safe (write f).
Proof.
  intros Hf. apply safe_statement; [|intros n db Hnd; by apply db_evolves_refl].
  intros db a db' Hnd [= Heq]. specialize (Hf db Hnd). by rewrite Heq in Hf.
Qed.
Hint Resolve safe_ret safe_raise safe_bind safe_catch safe_query evolves_catalog evolves_global evolves_label : raw.

Lemma safe_dedup : safe dedup_duplicate_nodes.
Proof.
  unfold dedup_duplicate_nodes. cbn [dedup_passes].
  repeat (apply safe_bind; [apply safe_catch; [apply safe_write; auto with raw|auto with raw]|intros ?]). auto with raw.
Qed.
Lemma safe_backfill : safe backfill_node_labels.
Proof.
  intros db l Hnd. unfold backfill_node_labels. pose proof (safe_query untagged db l Hnd) as H1.
  destruct (query untagged (db, l)) as [[b|e] [db1 l1]]; cbn in H1; [|done].
  assert (Hb : safe backfill).
  { apply safe_statement.
    - intros db0 a db' Hnd0 [= <- <-]. apply evolves_grown; [done|apply tag_first_grown].
    - intros n db0 Hnd0. apply evolves_grown; [done|apply tag_first_grown]. }
  pose proof (Hb db1 l1 (ev_ids _ _ H1)) as H2. destruct (backfill (db1, l1)) as [r2 [db2 l2]]. cbn in H2.
  pose proof (safe_query untagged db2 l2 (ev_ids _ _ H2)) as H3.
  assert (H12 : evolves db db2) by (by eapply db_evolves_trans).
  destruct (query untagged (db2, l2)) as [[b'|e] [db3 l3]]; cbn in H3; by eapply db_evolves_trans.
Qed.
Lemma safe_index n : safe (_create_index n).
Proof.
  unfold _create_index. apply safe_catch; [apply safe_bind; [apply safe_write; intros; by apply evolves_catalog|auto with raw]|].
  intros [c| | | |]; [destruct (decide _)| | | |]; auto with raw.
Qed.
Lemma safe_constraint n label b : safe (_create_constraint n label b).
Proof.
  unfold _create_constraint. apply safe_catch; [apply safe_bind; [apply safe_statement|auto with raw]|].
  - intros db a db' Hnd. unfold constraint_statement. repeat case_match; intros [= <- <-]; auto using db_evolves_refl with raw.
  - intros k db Hnd. by apply db_evolves_refl.
  - intros e. repeat case_match; auto with raw.
Qed.
Lemma safe_schema b : safe (ensure_neo4j_schema b).
Proof.
  unfold ensure_neo4j_schema. apply safe_bind.
  { generalize true. induction index_names as [|n names IH]; intros est; [apply safe_ret|]. cbn [create_indexes].
    apply safe_bind; [apply safe_index|auto]. }
  intros ok. apply safe_bind; [apply safe_constraint|intros s]. apply safe_bind; [apply safe_constraint|intros e].
  apply safe_bind; [apply safe_catch; [apply safe_write; intros; by apply evolves_catalog|auto with raw]|intros _].
  apply safe_bind; [apply safe_constraint|auto with raw].
Qed.
Lemma safe_repair : safe run_repair.
Proof.
  unfold run_repair. apply safe_bind; [apply safe_dedup|intros d]. apply safe_bind; [apply safe_backfill|intros t].
  apply safe_bind; [apply safe_schema|auto with raw].
Qed.
Lemma safe_diagnose : safe diagnose.
Proof. unfold diagnose, count_untagged_nodes, count_duplicate_nodes. repeat (apply safe_bind; [|intros ?]); auto with raw. Qed.

(** ** The doctor's verdict *)

Definition healthy (db : rawdb) : Prop :=
  Forall (fun x => tagged x.2 = true) (raw_nodes db) /\ NoDup (map (fun x => rkey x.2) (raw_nodes db)).

Lemma query_ok {A} (f : rawdb -> A) db l a s : query f (db, l) = (inl a, s) -> a = f db /\ s = (db, tail l).
Proof. unfold query, statement. destruct (match l with [] => Done | r :: _ => r end); intros [=]; by subst. Qed.
Lemma bind_ok {A B} (m : RM A) (k : A -> RM B) s b s' : bind m k s = (inl b, s') -> exists a s1, m s = (inl a, s1) /\ k a s1 = (inl b, s').
Proof. unfold bind. destruct (m s) as [[a|e] s1]; [|done]. by exists a, s1. Qed.

Lemma diagnose_ok db l d s :
  diagnose (db, l) = (inl d, s) ->
  s.1 = db /\ d = ((length (raw_nodes db) - length (base.filter (fun x => tagged x.2 = true) (raw_nodes db)))%nat,
                   length (duplicates (raw_nodes db))).
Proof.
  unfold diagnose, count_untagged_nodes, count_duplicate_nodes. intros Hd.
  apply bind_ok in Hd as (u & s3 & Hu & H3). apply bind_ok in Hu as (t & s1 & Ht & H1). apply query_ok in Ht as [-> ->].
  apply bind_ok in H1 as (g & s2 & H1 & H2). apply query_ok in H1 as [-> ->]. injection H2 as <- <-.
  apply bind_ok in H3 as (k & s4 & H3 & H4). apply query_ok in H3 as [-> ->]. by injection H4 as <- <-.
Qed.
Lemma all_tagged ns :
  (length ns - length (base.filter (fun x => tagged x.2 = true) ns) = 0)%nat -> Forall (fun x => tagged x.2 = true) ns.
Proof.
  assert (Hle : forall l : list entry, (length (base.filter (fun x => tagged x.2 = true) l) <= length l)%nat).
  { intros l. induction l as [|x l IH]; [done|]. rewrite filter_cons. destruct (decide _); cbn; lia. }
  induction ns as [|x ns IH]; [constructor|]. rewrite filter_cons. specialize (Hle ns).
  destruct (decide (tagged x.2 = true)) as [Ht|Ht]; cbn [length]; intros Hc; [|lia]. constructor; [done|]. apply IH. lia.
Qed.
Lemma diagnosed_healthy db l d s :
  NoDup (ids (raw_nodes db)) -> diagnose (db, l) = (inl d, s) -> _is_healthy d = true -> s.1 = db /\ healthy db.
Proof.
  intros Hnd Hd Hh. destruct (diagnose_ok _ _ _ _ Hd) as [Hs ->]. split; [done|].
  unfold _is_healthy in Hh. cbn [fst snd] in Hh. apply andb_true_iff in Hh as [H1%Nat.eqb_eq H2%Nat.eqb_eq].
  split; [by apply all_tagged|]. apply duplicates_unique; [done|]. by apply nil_length_inv.
Qed.

(** C28: Whatever statements of a doctor run fail, take effect although they report an
    error, or are interrupted between batches: no identity loses its last node, a node
    changes by the universal label only, and relationships between surviving nodes
    stay; and exit code 0 means that every node of the database carries the universal
    label and no two nodes share node id and workspace. *)
Theorem doctor_truthful (fix_ : bool) (db db' : rawdb) (script script' : list reply) (r : Z + nerr) :
  NoDup (ids (raw_nodes db)) -> run_doctor fix_ (db, script) = (r, (db', script')) ->
  evolves db db' /\ (r = inl 0%Z -> healthy db').
Proof.
  intros Hnd. unfold run_doctor. pose proof (safe_query (fun _ => tt) db script Hnd) as H0.
  destruct (query (fun _ => tt) (db, script)) as [[[]|e] [db0 l0]] eqn:Hq; cbn in H0.
  2:{ intros [= <- <- <-]. done. }
  apply query_ok in Hq as [_ [= -> ->]]. clear H0. unfold bind at 1.
  pose proof (safe_diagnose db (tail script) Hnd) as H1.
  destruct (diagnose (db, tail script)) as [[d|e] [db1 l1]] eqn:Hd; cbn in H1; [|by intros [= <- <- <-]].
  destruct (_is_healthy d) eqn:Hh.
  { intros [= <- <- <-]. destruct (diagnosed_healthy _ _ _ _ Hnd Hd Hh) as [Heq ?]. cbn in Heq. subst db1. done. }
  destruct (negb fix_); [by intros [= <- <- <-]|]. unfold bind.
  pose proof (safe_repair db1 l1 (ev_ids _ _ H1)) as H2.
  destruct (run_repair (db1, l1)) as [[[a b]|e] [db2 l2]]; cbn in H2;
    [|intros [= <- <- <-]; split; [by eapply db_evolves_trans|done]].
  pose proof (safe_diagnose db2 l2 (ev_ids _ _ H2)) as H3.
  destruct (diagnose (db2, l2)) as [[d2|e] [db3 l3]] eqn:Hd2; cbn in H3; intros [= <- <- <-];
    (split; [by do 2 (eapply db_evolves_trans; [eassumption|])|]); [|done].
  intros [= Hz]. destruct (_is_healthy d2) eqn:Hh2; [|done].
  destruct (diagnosed_healthy _ _ _ _ (ev_ids _ _ H2) Hd2 Hh2) as [Heq ?]. cbn in Heq. by subst db3.
Qed.

(** ** The undisturbed repair *)

Lemma keys_filter (P : entry -> Prop) `{forall a, Decision (P a)} ns :
  NoDup (map (fun x => rkey x.2) ns) -> NoDup (map (fun x => rkey x.2) (base.filter P ns)).
Proof.
  intros Hnd. induction ns as [|x ns IH]; [done|]. apply NoDup_cons in Hnd as [Hn Hnd]. rewrite filter_cons.
  destruct (decide (P x)); [|by apply IH]. cbn. apply NoDup_cons. split; [|by apply IH].
  intros Hin. apply Hn. apply list_elem_of_fmap in Hin as (y & Hy & [_ Hin]%list_elem_of_filter). apply list_elem_of_fmap. by exists y.
Qed.

Lemma undisturbed {A} (f : rawdb -> A * rawdb + nerr) b db :
  statement f b (db, []) = match f db with inl (a, db') => (inl a, (db', [])) | inr e => (inr e, (db, [])) end.
Proof. unfold statement. by destruct (f db) as [[]|]. Qed.

Lemma detach_nothing db : detach_delete [] db = db.
Proof.
  destruct db as [ns rs sc]. unfold detach_delete. cbn. f_equal; apply filter_everything; intros a _; [|split]; apply not_elem_of_nil.
Qed.

Lemma dedup_undisturbed db :
  NoDup (ids (raw_nodes db)) ->
  dedup_duplicate_nodes (db, []) = (inl (length (duplicates (raw_nodes db))), (detach_delete (duplicates (raw_nodes db)) db, [])).
Proof.
  intros Hnd. pose proof (survive_keys _ Hnd) as Hk. set (db1 := detach_delete (duplicates (raw_nodes db)) db).
  assert (Hl : forall label, dedup_label label db1 = (0%nat, db1)).
  { intros label. unfold dedup_label. assert (Hd : label_duplicates label (raw_nodes db1) = []) by (by apply unique_label_duplicates).
    rewrite Hd. by rewrite detach_nothing. }
  unfold dedup_duplicate_nodes. cbn [dedup_passes]. unfold bind, catch, write. rewrite !undisturbed. unfold _DEDUP_GLOBAL_CYPHER.
  fold db1. rewrite undisturbed, Hl, undisturbed, Hl. unfold ret. by rewrite !Nat.add_0_r, Nat.add_0_l.
Qed.

Definition retagged (db : rawdb) : rawdb := on_nodes (map (fun x => (x.1, tag x.2))) db.
Lemma untagged_retagged db : untagged (retagged db) = 0%nat.
Proof.
  unfold untagged, retagged. cbn. induction (raw_nodes db) as [|x ns IH]; [done|]. cbn [map]. rewrite filter_cons.
  by rewrite decide_False by (cbn; rewrite tagged_tag; done).
Qed.
Lemma backfill_undisturbed db : backfill_node_labels (db, []) = (inl (untagged db), (retagged db, [])).
Proof.
  unfold backfill_node_labels, query, backfill. rewrite undisturbed, undisturbed.
  unfold on_nodes at 1. rewrite (tag_first_all (length (raw_nodes db)) (raw_nodes db) (le_n _)).
  change (MkRaw _ _ _) with (retagged db). rewrite undisturbed, untagged_retagged. by rewrite Nat.sub_0_r.
Qed.

Lemma catalog_ext f g db : f (raw_schema db) = g (raw_schema db) -> catalog f db = catalog g db.
Proof. intros Heq. unfold catalog. by rewrite Heq. Qed.
Lemma constraint_undisturbed name label b db :
  NoDup (map (fun x => rkey x.2) (raw_nodes db)) -> (label = "Node" -> legacy_index ∉ raw_schema db) ->
  _create_constraint name label b (db, []) = (inl true, (catalog (add_rule name) db, [])).
Proof.
  intros Hnd Hl. unfold _create_constraint, catch, bind. rewrite undisturbed. unfold constraint_statement.
  destruct (decide (name ∈ raw_schema db)) as [Hin|Hin].
  - replace (catalog (add_rule name) db) with db; [done|]. destruct db. unfold catalog, add_rule. cbn in *. by rewrite decide_True.
  - destruct (bool_decide (label = "Node") && bool_decide (legacy_index ∈ raw_schema db)) eqn:Hc.
    { apply andb_true_iff in Hc as [H1%bool_decide_eq_true H2%bool_decide_eq_true]. by destruct (Hl H1). }
    assert (Hv : violates label db = false).
    { unfold violates. rewrite bool_decide_eq_true_2; [done|]. by do 2 apply keys_filter. }
    by rewrite Hv.
Qed.
Lemma index_undisturbed name db : _create_index name (db, []) = (inl true, (catalog (add_rule name) db, [])).
Proof. done. Qed.
Lemma indexes_undisturbed names est db :
  create_indexes names est (db, []) = (inl est, (catalog (fun l => foldl (fun l n => add_rule n l) l names) db, [])).
Proof.
  revert db. induction names as [|n names IH]; intros db; [by destruct db|]. cbn [create_indexes]. unfold bind.
  rewrite index_undisturbed. by rewrite IH.
Qed.

Definition full_schema (l : list string) : list string :=
  add_rule node_unique (base.filter (fun n => n <> legacy_index)
    (add_rule event_unique (add_rule session_unique (foldl (fun l n => add_rule n l) l index_names)))).
Lemma schema_undisturbed db :
  NoDup (map (fun x => rkey x.2) (raw_nodes db)) ->
  ensure_neo4j_schema true (db, []) = (inl true, (catalog full_schema db, [])).
Proof.
  intros Hnd. unfold ensure_neo4j_schema, bind. rewrite indexes_undisturbed.
  rewrite constraint_undisturbed by done. rewrite constraint_undisturbed by done. unfold catch, write. rewrite undisturbed.
  rewrite constraint_undisturbed; [unfold catalog, full_schema; cbn [raw_nodes raw_rels raw_schema andb]; reflexivity|exact Hnd|].
  intros _. cbn [catalog raw_schema]. intros [Hne _]%list_elem_of_filter. exact (Hne eq_refl).
Qed.

Lemma add_rule_elem n m l : m ∈ add_rule n l <-> m = n \/ m ∈ l.
Proof.
  unfold add_rule. destruct (decide (n ∈ l)); [split; [auto|by intros [-> |]]|].
  rewrite elem_of_app, list_elem_of_singleton. tauto.
Qed.
Lemma rules_elem names m l : m ∈ foldl (fun l n => add_rule n l) l names <-> m ∈ names \/ m ∈ l.
Proof.
  revert l. induction names as [|n names IH]; intros l; cbn [foldl]; [split; [auto|by intros [?%elem_of_nil|]]|].
  rewrite IH, add_rule_elem, elem_of_cons. tauto.
Qed.
Definition schema_rules : list string := node_unique :: event_unique :: session_unique :: index_names.
Lemma full_schema_elem m l : m ∈ full_schema l <-> m ∈ schema_rules \/ (m <> legacy_index /\ m ∈ l).
Proof.
  unfold full_schema, schema_rules. rewrite add_rule_elem, list_elem_of_filter, !add_rule_elem, rules_elem, !elem_of_cons.
  assert (Hl : legacy_index ∉ event_unique :: session_unique :: index_names).
  { intros Hin. by apply (bool_decide_eq_true_2 _) in Hin. }
  destruct (decide (m = legacy_index)) as [-> |Hm]; [|tauto].
  rewrite !elem_of_cons in Hl. split; [|tauto]. intros [Hm|[Hm _]]; tauto.
Qed.
Lemma add_rule_in n l : n ∈ l -> add_rule n l = l.
Proof. intros Hn. unfold add_rule. by rewrite decide_True. Qed.
Lemma rules_in names l : (forall n, n ∈ names -> n ∈ l) -> foldl (fun l n => add_rule n l) l names = l.
Proof.
  induction names as [|n names IH]; intros Hall; [done|]. cbn [foldl]. rewrite add_rule_in by (apply Hall; by left).
  apply IH. intros m Hm. apply Hall. by right.
Qed.
Lemma full_schema_idem l : full_schema (full_schema l) = full_schema l.
Proof.
  set (l' := full_schema l). assert (Hin : forall m, m ∈ schema_rules -> m ∈ l') by (intros m Hm; apply full_schema_elem; by left).
  unfold full_schema at 1. rewrite rules_in by (intros n Hn; apply Hin; by do 3 right).
  rewrite (add_rule_in session_unique) by (apply Hin; right; right; left). rewrite (add_rule_in event_unique) by (apply Hin; right; left).
  rewrite filter_everything; [apply add_rule_in, Hin; left|].
  intros m Hm ->. apply full_schema_elem in Hm as [Hm|[? _]]; [|done]. by apply (bool_decide_eq_true_2 _) in Hm.
Qed.

Definition repaired (db : rawdb) : rawdb :=
  catalog full_schema (retagged (detach_delete (duplicates (raw_nodes db)) db)).
Lemma retagged_keys ns : map (fun x : entry => rkey x.2) (map (fun x => (x.1, tag x.2)) ns) = map (fun x => rkey x.2) ns.
Proof. by rewrite map_map. Qed.
Lemma repaired_keys db : NoDup (ids (raw_nodes db)) -> NoDup (map (fun x => rkey x.2) (raw_nodes (repaired db))).
Proof. intros Hnd. cbn. rewrite retagged_keys. by apply survive_keys. Qed.
Lemma repair_undisturbed db :
  NoDup (ids (raw_nodes db)) ->
  run_repair (db, []) = (inl (length (duplicates (raw_nodes db)), untagged (detach_delete (duplicates (raw_nodes db)) db)), (repaired db, [])).
Proof.
  intros Hnd. unfold run_repair, bind. rewrite dedup_undisturbed, backfill_undisturbed by done.
  rewrite schema_undisturbed; [done|]. cbn. rewrite retagged_keys. by apply survive_keys.
Qed.

(** A node that a change removed. *)
Definition dropped (db db' : rawdb) (i : string) : Prop := i ∈ ids (raw_nodes db) /\ i ∉ ids (raw_nodes db').

Lemma repaired_dropped db i :
  NoDup (ids (raw_nodes db)) -> i ∈ duplicates (raw_nodes db) <-> dropped db (repaired db) i.
Proof.
  intros Hnd. assert (Hids : ids (raw_nodes (repaired db)) = ids (survive (raw_nodes db))).
  { unfold repaired, retagged. cbn. unfold ids. by rewrite map_map. }
  unfold dropped. rewrite Hids. unfold ids, survive. rewrite !list_elem_of_fmap. split.
  - intros Hi. split.
    + apply duplicates_ids in Hi. by apply list_elem_of_fmap in Hi.
    + intros (x & -> & Hx). by apply list_elem_of_filter in Hx as [? _].
  - intros [(x & -> & Hx) Hn]. destruct (decide (x.1 ∈ duplicates (raw_nodes db))) as [|Hd]; [done|]. destruct Hn.
    exists x. split; [done|]. by apply list_elem_of_filter.
Qed.

(** C29: An undisturbed repair of any database: exactly one node of every identity is
    left, one with the most labels, with the universal label added; the rest of the
    identity's nodes are gone, and of the relationships exactly those of a node that
    is gone; everything else is unchanged;
    the counts are right, the whole schema is established, the legacy index dropped,
    the graph is healthy, and a second repair changes nothing. *)
Theorem repair_exact (db : rawdb) :
  NoDup (ids (raw_nodes db)) ->
  exists db' removed tagged_,
    run_repair (db, []) = (inl (removed, tagged_), (db', []))
    /\ evolves db db' /\ healthy db'
    /\ (forall y, y ∈ raw_nodes db' -> exists x, x ∈ raw_nodes db /\ y = (x.1, tag x.2)
          /\ forall z, z ∈ raw_nodes db -> rkey z.2 = rkey x.2 -> (size (rn_labels z.2) <= size (rn_labels x.2))%nat)
    /\ (removed + length (raw_nodes db') = length (raw_nodes db))%nat
    /\ (forall r, r ∈ raw_rels db' <-> r ∈ raw_rels db /\ ~ dropped db db' (rl_src r.2) /\ ~ dropped db db' (rl_dst r.2))
    /\ (forall m, m ∈ raw_schema db' <-> m ∈ schema_rules \/ (m <> legacy_index /\ m ∈ raw_schema db))
    /\ run_repair (db', []) = (inl (0%nat, 0%nat), (db', [])).
Proof.
  intros Hnd. pose proof (repair_undisturbed db Hnd) as Hrun. pose proof (repaired_keys db Hnd) as Hk.
  pose proof (safe_repair db [] Hnd) as Hev. rewrite Hrun in Hev. cbn [fst snd] in Hev.
  set (db' := repaired db) in *. eexists db', _, _. split; [exact Hrun|]. split; [exact Hev|]. split; [|split; [|split; [|split; [|split]]]].
  - split; [|exact Hk]. apply Forall_forall. intros y Hy. apply list_elem_of_fmap in Hy as (x & -> & _). apply tagged_tag.
  - intros y Hy. apply list_elem_of_fmap in Hy as (x & -> & Hx). apply elem_of_survive in Hx as Hkeep; [|done].
    exists x. split; [by apply list_elem_of_filter in Hx as [_ ?]|]. split; [done|]. intros z Hz Hzk. by eapply keep_richest.
  - unfold db', repaired, retagged. cbn [catalog on_nodes raw_nodes detach_delete]. rewrite length_map. by apply survive_count.
  - intros r. unfold db'. rewrite <- !repaired_dropped by done. unfold repaired, retagged. cbn. rewrite list_elem_of_filter. tauto.
  - intros m. apply full_schema_elem.
  - rewrite repair_undisturbed by apply Hev. rewrite unique_duplicates by done. rewrite detach_nothing.
    assert (Hu : untagged db' = 0%nat) by (apply (untagged_retagged (detach_delete (duplicates (raw_nodes db)) db))).
    rewrite Hu. unfold repaired at 1. rewrite unique_duplicates by done. rewrite detach_nothing. cbn [length]. do 2 f_equal.
    unfold db', repaired, retagged, catalog, on_nodes. cbn [raw_nodes raw_rels raw_schema]. rewrite full_schema_idem. f_equal.
    rewrite map_map. apply map_ext. intros x. cbn. by rewrite tag_tag.
Qed.
End spec.

(** ** A legacy graph *)

#[local] Existing Instance demo_timestamps.

Definition demo_node (id ws : option string) (labels : list string) : rnode := MkNode id ws (list_to_set labels) ∅.
Definition demo_rel (src dst : string) : rrel := MkRel src dst "HAS_EVENT" ∅.
(** A session twice, an event without the universal label, two nodes of somebody else. *)
Definition demo_raw : rawdb :=
  MkRaw [("e1", demo_node (Some "s1") (Some "w") ["Node"]);
         ("e2", demo_node (Some "s1") (Some "w") ["Node"; "Session"]);
         ("e3", demo_node (Some "t1") (Some "w") ["Event"]);
         ("e4", demo_node None None ["Movie"]); ("e5", demo_node None None ["Person"])]
    [("r1", demo_rel "e1" "e3"); ("r2", demo_rel "e2" "e3")] [legacy_index].

Example demo_diagnosis : (diagnose (demo_raw, [])).1 = inl (3%nat, 2%nat).
Proof. vm_compute. reflexivity. Qed.
(** Nodes without an identity count as duplicates of each other: one of them is deleted. *)
Example repair_deletes_strangers :
  ids (raw_nodes (run_doctor true (demo_raw, [])).2.1) = ["e2"; "e3"; "e4"].
Proof. vm_compute. reflexivity. Qed.

(** The connection is lost at the last statement: the doctor reports success although the
    constraint that keeps the graph healthy does not exist. *)
Definition lost_constraint : list reply := replicate 21 Done ++ [Fails 0 DriverError].
Definition lost_result := run_doctor true (demo_raw, lost_constraint).
Example doctor_without_constraint :
  lost_result.1 = inl 0%Z /\ bool_decide (node_unique ∈ raw_schema lost_result.2.1) = false.
Proof. vm_compute. split; reflexivity. Qed.

Lemma demo_ids : NoDup (ids (raw_nodes demo_raw)).
Proof. apply (bool_decide_eq_true_1 _). by vm_compute. Qed.
Lemma lost_result_exit : lost_result = (inl 0%Z, (lost_result.2.1, lost_result.2.2)).
Proof. vm_compute. reflexivity. Qed.
Lemma doctor_truthful_witness : evolves demo_raw lost_result.2.1 /\ healthy lost_result.2.1.
Proof.
  destruct (doctor_truthful true demo_raw lost_result.2.1 lost_constraint lost_result.2.2 (inl 0%Z) demo_ids lost_result_exit) as [He Hh].
  split; [exact He|exact (Hh eq_refl)].
Defined.

Lemma repair_exact_witness : exists db' removed tagged_,
  run_repair (demo_raw, []) = (inl (removed, tagged_), (db', [])) /\ healthy db' /\ run_repair (db', []) = (inl (0%nat, 0%nat), (db', [])).
Proof.
  destruct (repair_exact demo_raw demo_ids) as (db' & removed & tagged_ & Hrun & _ & Hh & _ & _ & _ & _ & Hid).
  exists db', removed, tagged_. split; [exact Hrun|]. split; [exact Hh|exact Hid].
Defined.
