(* ===== verification/RawDelete.v ===== *)
(** * Session graphs in the Neo4j store ([neo4j_store.py])

    Resolution and deletion of a whole session graph by queries on the database of
    [RawGraph]: the workspace of the session, its root, the family of sessions, the
    nodes they own (a frontier search that stops at shared concepts), and the
    deletion in batches with its two checks.

    A variable-length pattern matches trails (no relationship twice).  Rows of equal
    rank may come in any order: the argument [tie] picks one.  Session nodes have a
    node id. *)
From stdpp Require Import base list gmap strings.
From Stdlib Require Import ZArith Lia.
From S2P Require Import Prelude PyText Utils Json GraphStore GraphDelete Neo4jStore RawGraph.

#[local] Open Scope string_scope.
#[local] Open Scope list_scope.

Import Raw.

Module RawDelete.
Section delete.
Context `{!Timestamps}.
Abbreviation entry := (string * rnode)%type.
Abbreviation rels := (list (string * rrel)).
#[local] Notation "'do' x <- m ; k" := (bind m (fun x => k)) (at level 200, x name, m at level 100, k at level 200).

(** [except Neo4jError] *)
Definition on_neo4j_error {A} (m : RM A) (a : A) : RM A :=
  catch m (fun e => match e with Neo4jError _ => ret a | e => raise e end).

(** ** The workspace of a session *)

Definition is_session (n : rnode) : bool := bool_decide ("Session" ∈ rn_labels n).
Definition in_workspace (ws : string) (n : rnode) : bool := bool_decide (rn_ws n = Some ws).
Definition named (id : string) (n : rnode) : bool := bool_decide (rn_id n = Some id).

Definition _ENTRY_SESSION_WORKSPACE_CYPHER (session_id : string) (db : rawdb) : list (option string) :=
  remove_dups (map (fun x : entry => rn_ws x.2)
    (base.filter (fun x : entry => is_session x.2 && named session_id x.2 = true) (raw_nodes db))).

(** [sorted] of the workspaces of an ambiguous session cannot compare a missing one. *)
Definition _discover_session_workspace (session_id : string) : RM (option string) :=
  do found <- on_neo4j_error (do ws <- query (_ENTRY_SESSION_WORKSPACE_CYPHER session_id); ret (Some ws)) None;
  match found with
  | None | Some [] => ret None
  | Some [w] => ret w
  | Some ws => raise (if decide (None ∈ ws) then TypeError else AmbiguousSessionError)
  end.

(** ** The family *)

Definition family_rel (r : rrel) : bool := bool_decide (rl_type r ∈ ["HAS_SUBSESSION"; "FORKED"]).

(** The trails against the family relationships: their length and their end. *)
Fixpoint trails_up (fuel : nat) (rs : rels) (n : string) : list (nat * string) :=
  match fuel with
  | O => []
  | S fuel =>
    base.filter (fun r => family_rel r.2 = true /\ rl_dst r.2 = n) rs ≫= fun r =>
      (1%nat, rl_src r.2)
      :: map (fun t => (S t.1, t.2)) (trails_up fuel (base.filter (fun q => q.1 <> r.1) rs) (rl_src r.2))
  end.

Definition lookup_node (ns : list entry) (e : string) : option rnode := dget e ns.
Definition session_in (ws : string) (db : rawdb) (e : string) : bool :=
  match lookup_node (raw_nodes db) e with Some n => is_session n && in_workspace ws n | None => false end.

(** Breadth-first closure: what the down-pattern reaches. *)
Fixpoint closure (fuel : nat) (hop : list string -> list string) (seen frontier : list string) : list string :=
  match fuel with
  | O => seen
  | S fuel =>
    match frontier with
    | [] => seen
    | _ => let next := remove_dups (base.filter (fun e => e ∉ seen) (hop frontier)) in
           closure fuel hop (seen ++ next) next
    end
  end.
Definition family_hop (rs : rels) (frontier : list string) : list string :=
  map (fun r => rl_dst r.2) (base.filter (fun r => family_rel r.2 = true /\ rl_src r.2 ∈ frontier) rs).

Record family_row := MkFamilyRow { fr_session : string; fr_root : string; fr_props : gmap string pval }.

(** Rows without an ancestor come first, then the longest trails; ties by [tie]. *)
Definition pick_row (tie : nat) (rows : list (nat * string)) : option string :=
  let top := foldr (fun t m => Nat.max t.1 m) 0%nat rows in
  let best := base.filter (fun t => t.1 = top) rows in
  snd <$> best !! (tie mod length best).
Definition starts (session_id ws : string) (db : rawdb) : list entry :=
  base.filter (fun x : entry => is_session x.2 && in_workspace ws x.2 && named session_id x.2 = true) (raw_nodes db).
Definition ancestors (ws : string) (db : rawdb) (e : string) : list (nat * string) :=
  base.filter (fun t => session_in ws db t.2 = true) (trails_up (length (raw_rels db)) (raw_rels db) e).
Definition resolve_root (tie : nat) (session_id ws : string) (db : rawdb) : option string :=
  let lone := base.filter (fun x : entry => ancestors ws db x.1 = []) (starts session_id ws db) in
  match lone with
  | [] => pick_row tie (starts session_id ws db ≫= fun x => ancestors ws db x.1)
  | _ => fst <$> lone !! (tie mod length lone)
  end.
Definition _GRAPH_RESOLVE_CYPHER (tie : nat) (session_id ws : string) (db : rawdb) : list family_row :=
  match resolve_root tie session_id ws db with
  | None => []
  | Some r =>
    let members := base.filter (fun e => session_in ws db e = true)
                     (closure (S (length (raw_rels db))) (family_hop (raw_rels db)) [r] [r]) in
    let rid := match lookup_node (raw_nodes db) r with Some n => default "" (rn_id n) | None => "" end in
    omap (fun e => n ← lookup_node (raw_nodes db) e; sid ← rn_id n; Some (MkFamilyRow sid rid (rn_props n))) members
  end.

(** ** What the family owns *)

Definition _GRAPH_SEED_ELEMENT_IDS_CYPHER (session_ids : list string) (ws : string) (db : rawdb) : list string :=
  session_ids ≫= fun sid =>
    map fst (base.filter (fun x : entry => is_session x.2 && in_workspace ws x.2 && named sid x.2 = true) (raw_nodes db)).

Definition is_concept_node (n : rnode) : bool := bool_decide ("SST_CONCEPT" ∈ rn_labels n).
(** Relationship, target, whether it is a concept. *)
Definition _GRAPH_EXPAND_HOP_CYPHER (frontier : list string) (ws : string) (db : rawdb) : list (string * string * bool) :=
  frontier ≫= fun e =>
    omap (fun r : string * rrel =>
            if decide (rl_src r.2 = e) then
              n ← lookup_node (raw_nodes db) (rl_dst r.2);
              if in_workspace ws n then Some (r.1, rl_dst r.2, is_concept_node n) else None
            else None) (raw_rels db).

Record found := MkFound { owned : list string; concept : list string; f_edges : list string; next_frontier : list string }.
Definition set_add (x : string) (l : list string) : list string := if decide (x ∈ l) then l else l ++ [x].
Definition hop_row (f : found) (row : string * string * bool) : found :=
  let '(rid, bid, is_concept) := row in
  let es := set_add rid (f_edges f) in
  if decide (bid ∈ owned f \/ bid ∈ concept f) then MkFound (owned f) (concept f) es (next_frontier f)
  else if (is_concept : bool) then MkFound (owned f) (concept f ++ [bid]) es (next_frontier f)
  else MkFound (owned f ++ [bid]) (concept f) es (next_frontier f ++ [bid]).

Fixpoint collect_loop (fuel : nat) (ws : string) (f : found) (frontier : list string) : RM found :=
  match fuel with
  | O => raise RuntimeError                      (** never reached *)
  | S fuel =>
    match frontier with
    | [] => ret f
    | _ =>
      do rows <- query (_GRAPH_EXPAND_HOP_CYPHER frontier ws);
      let f := foldl hop_row (MkFound (owned f) (concept f) (f_edges f) []) rows in
      collect_loop fuel ws f (next_frontier f)
    end
  end.

Definition collect_fuel (db : rawdb) : nat := S (S (length (raw_nodes db))).
Definition _collect_graph_node_ids (session_ids : list string) (ws : string) : RM (list string * list string * nat) := fun s =>
  (do seeds <- query (_GRAPH_SEED_ELEMENT_IDS_CYPHER session_ids ws);
   let seeds := remove_dups seeds in
   match seeds with
   | [] => ret ([], [], 0%nat)
   | _ => do f <- collect_loop (collect_fuel s.1) ws (MkFound seeds [] [] []) seeds;
          ret (owned f, concept f, length (f_edges f))
   end) s.

(** ** [resolve_session_graph] *)

Definition prop (key : string) (m : gmap string pval) : pval := default (PJson JNull) (m !! key).
Definition pv_or (a b : pval) : pval := match a with PJson j => if truthy j then a else b | PDate _ => a end.
Definition date_of (v : pval) : option datetime := match v with PDate d => Some d | PJson _ => None end.
Definition string_of (v : pval) : option string := match v with PJson (JStr s) => Some s | _ => None end.
Definition member_time (m : gmap string pval) : option datetime :=
  date_of (pv_or (pv_or (prop "last_updated" m) (prop "ended_at" m)) (prop "started_at" m)).
Fixpoint last_change_rows (rows : list (gmap string pval)) (last : option datetime) : option datetime + nerr :=
  match rows with
  | [] => inl last
  | m :: rows => match newest last (member_time m) with Ok last => last_change_rows rows last | Err _ => inr TypeError end
  end.

(** [member_props]: one entry per session id, the last row wins. *)
Definition member_props (rows : list family_row) : list (string * gmap string pval) :=
  foldl (fun d r => dset (fr_session r) (fr_props r) d) [] rows.

Definition resolve_rows (ws : string) (rows : list family_row) : RM (option SessionGraph) :=
  match rows with
  | [] => ret None
  | r0 :: _ =>
    let props := member_props rows in
    let sids := py_sorted (map fst props) in
    do counts <- on_neo4j_error (_collect_graph_node_ids sids ws) ([], [], 0%nat);
    let root := default ∅ (dget (fr_root r0) props) in
    match last_change_rows (map snd props) None with
    | inr e => raise e
    | inl last =>
      ret (Some (MkSessionGraph (fr_root r0) sids (length counts.1.1 + length counts.1.2) counts.2
        (match string_of (prop "created_by" root) with Some s => JStr s | None => JNull end)
        (date_of (prop "started_at" root)) last (length sids - 1) (JStr ws) (string_of (prop "working_dir" root))))
    end
  end.

Definition resolve_session_graph (tie : nat) (session_id : string) : RM (option SessionGraph) :=
  do ws <- _discover_session_workspace session_id;
  match ws with
  | None => ret None
  | Some ws => do rows <- on_neo4j_error (query (_GRAPH_RESOLVE_CYPHER tie session_id ws)) []; resolve_rows ws rows
  end.

(** ** [delete_session_graph] *)

Definition _DELETE_BATCH_ROWS : nat := 500.
Definition _DELETE_BATCH_BYTES : nat := Z.to_nat 10000000.
Definition incident (ids : list string) (r : string * rrel) : bool := bool_decide (rl_src r.2 ∈ ids \/ rl_dst r.2 ∈ ids).
Definition _GRAPH_REL_COUNT_CYPHER (ids : list string) (db : rawdb) : nat :=
  length (base.filter (fun r => incident ids r = true) (raw_rels db)).
Definition _COUNT_NODES_BY_ELEMENT_ID_CYPHER (ids : list string) (db : rawdb) : nat :=
  length (ids ≫= fun e => base.filter (fun x : entry => x.1 = e) (raw_nodes db)).

Fixpoint delete_batches (batches : list (list string)) : RM unit :=
  match batches with
  | [] => ret tt
  | b :: batches => do _ <- write (fun db => (tt, detach_delete b db)); delete_batches batches
  end.

Definition sg_ws (g : SessionGraph) : string := match sg_workspace g with JStr s => s | _ => "" end.
(** The deletion of the collected nodes, with its two checks. *)
Definition delete_collected (g : SessionGraph) (owned_ids concept_ids : list string) : RM (option GraphDeleteResult) :=
  do deleted <- query (_GRAPH_REL_COUNT_CYPHER owned_ids);
  do _ <- delete_batches (chunks (fun e => _serialized_row_size (JStr e)) _DELETE_BATCH_ROWS _DELETE_BATCH_BYTES owned_ids);
  do survivors <- query (_COUNT_NODES_BY_ELEMENT_ID_CYPHER owned_ids);
  if negb (survivors =? 0)%nat then raise RuntimeError
  else
    do kept <- match concept_ids with
               | [] => ret 0%nat
               | _ => query (_COUNT_NODES_BY_ELEMENT_ID_CYPHER concept_ids)
               end;
    if negb (kept =? length concept_ids)%nat then raise RuntimeError
    else ret (Some (MkDeleteResult (root_id g) (length owned_ids) deleted)).
Definition delete_resolved (g : SessionGraph) : RM (option GraphDeleteResult) :=
  do found <- _collect_graph_node_ids (py_sorted (session_ids g)) (sg_ws g);
  match found with
  | ([], _, _) => ret (Some (MkDeleteResult (root_id g) 0 0))
  | (owned_ids, concept_ids, _) => delete_collected g owned_ids concept_ids
  end.
Definition delete_session_graph (tie : nat) (session_id : string) (graph : option SessionGraph) : RM (option GraphDeleteResult) :=
  do g <- match graph with Some _ => ret graph | None => resolve_session_graph tie session_id end;
  match g with
  | None => ret None
  | Some g => delete_resolved g
  end.
End delete.
End RawDelete.
