(* ===== verification/RawDeleteSpec.v ===== *)
(** * Deleting a session graph from Neo4j is exact ([RawDelete])

    [neo4j_family_exact]: the resolved sessions are exactly the ones below the root of
    the given session, in its one workspace.  [neo4j_delete_exact]: under every script
    of failures only nodes owned by the family disappear (a frontier search computes
    them exactly, and ends); a reported result means all of them are gone and nothing
    else; undisturbed, the deletion succeeds. *)
From stdpp Require Import base list gmap strings relations.
From Stdlib Require Import ZArith Lia.
From S2P Require Import Prelude PyText Utils Json QueueFiles QueueManager QueueSpec GraphStore GraphDelete Neo4jStore Neo4jSpec RawGraph RawSpec RawDelete.

#[local] Open Scope string_scope.
#[local] Open Scope list_scope.

Import Raw RawDelete.

(** ** Breadth-first closure *)

Lemma rtc_closed {A} (R : relation A) (S : A -> Prop) x y : (forall a b, S a -> R a b -> S b) -> S x -> rtc R x y -> S y.
Proof. intros Hc Hx Hr. revert Hx. induction Hr as [|a b c Hab _ IH]; [done|]. intros Ha. by apply IH, (Hc a). Qed.

Section closure.
Context (hop : list string -> list string) (step : string -> string -> Prop) (r : string) (D : list string).
Context (Hhop : forall fr e, e ∈ hop fr <-> exists a, a ∈ fr /\ step a e) (HD : forall a e, step a e -> e ∈ D).

Lemma closure_spec fuel : forall seen frontier,
  NoDup seen -> r ∈ seen -> (forall e, e ∈ seen -> e = r \/ e ∈ D) -> (forall e, e ∈ frontier -> e ∈ seen) ->
  (forall a e, a ∈ seen -> a ∉ frontier -> step a e -> e ∈ seen) -> (forall e, e ∈ seen -> rtc step r e) ->
  (frontier = [] \/ length D + 2 <= fuel + length seen)%nat ->
  forall e, e ∈ closure fuel hop seen frontier <-> rtc step r e.
Proof.
  induction fuel as [|fuel IH]; intros seen frontier Hnd Hr Hsub Hfr Hcl Hre Hfuel e.
  - assert (Hlen : (length seen <= length (r :: D))%nat).
    { apply submseteq_length, NoDup_submseteq; [done|]. intros x Hx. destruct (Hsub x Hx) as [-> |]; [by left|by right]. }
    destruct Hfuel as [-> |Hfuel]; [|cbn in Hlen, Hfuel; lia]. split; [apply Hre|]. apply (rtc_closed _ (fun x => x ∈ seen)); [|done].
    intros a b Ha. apply Hcl; [done|apply not_elem_of_nil].
  - cbn [closure]. destruct frontier as [|f0 fr].
    { split; [apply Hre|]. apply (rtc_closed _ (fun x => x ∈ seen)); [|done].
      intros a b Ha. apply Hcl; [done|apply not_elem_of_nil]. }
    set (frontier := f0 :: fr) in *. set (next := remove_dups (base.filter (fun e => e ∉ seen) (hop frontier))).
    assert (Hnext : forall x, x ∈ next <-> x ∉ seen /\ exists a, a ∈ frontier /\ step a x).
    { intros x. unfold next. by rewrite elem_of_remove_dups, list_elem_of_filter, Hhop. }
    apply IH.
    + apply NoDup_app. split; [done|]. split; [|apply NoDup_remove_dups]. intros x Hx Hn. by apply Hnext in Hn as [? _].
    + apply elem_of_app. by left.
    + intros x [Hx|Hx]%elem_of_app; [by apply Hsub|]. apply Hnext in Hx as (_ & a & _ & Hs). right. by eapply HD.
    + intros x Hx. apply elem_of_app. by right.
    + intros a x Ha Hn Hs. destruct (decide (x ∈ seen)) as [|Hx]; [apply elem_of_app; by left|].
      apply elem_of_app in Ha as [Ha|Ha]; [|done]. apply elem_of_app. right. apply Hnext. split; [done|].
      destruct (decide (a ∈ frontier)) as [Hf|Hf]; [by exists a|]. destruct Hx. by apply (Hcl a).
    + intros x [Hx|Hx]%elem_of_app; [by apply Hre|]. apply Hnext in Hx as (_ & a & Ha & Hs).
      eapply rtc_r; [apply Hre, Hfr, Ha|done].
    + destruct next as [|x next'] eqn:Hn; [by left|right]. destruct Hfuel as [|Hfuel]; [done|].
      rewrite length_app. cbn [length]. lia.
Qed.
End closure.

Section spec.
Context `{!Timestamps}.
Abbreviation entry := (string * rnode)%type.
Implicit Types (db : rawdb) (l : list reply).

Record wf (db : rawdb) : Prop := {
  wf_ids : NoDup (ids (raw_nodes db));
  wf_rels : NoDup (map fst (raw_rels db));
  wf_ends : forall r, r ∈ raw_rels db -> rl_src r.2 ∈ ids (raw_nodes db) /\ rl_dst r.2 ∈ ids (raw_nodes db);
}.

Lemma query_cases {A} (f : rawdb -> A) db l :
  query f (db, l) = (inl (f db), (db, tail l)) \/ exists e, query f (db, l) = (inr e, (db, tail l)) /\ l <> [].
Proof.
  unfold query, statement. destruct l as [|[|n e|e] l]; [by left|by left| |]; right; exists e; by split.
Qed.

Lemma dget_lookup (ns : list entry) e n : NoDup (ids ns) -> dget e ns = Some n <-> (e, n) ∈ ns.
Proof. intros Hnd. split; [apply dget_elem|]. intros Hin. by apply elem_dget. Qed.

(** ** The owned nodes *)

Section owned.
Context (db : rawdb) (Hwf : wf db) (ws : string) (seeds : list string).

(** A relationship to a node of the workspace. *)
Definition leads (a b : string) (n : rnode) : Prop :=
  (exists r, r ∈ raw_rels db /\ rl_src r.2 = a /\ rl_dst r.2 = b) /\ (b, n) ∈ raw_nodes db /\ in_workspace ws n = true.
Definition owns (a b : string) : Prop := exists n, leads a b n /\ is_concept_node n = false.
(** What the family owns: reached from its sessions, not through a concept. *)
Definition family_owns (e : string) : Prop := exists s, s ∈ seeds /\ rtc owns s e.

Lemma hop_elem frontier rid b c :
  (rid, b, c) ∈ _GRAPH_EXPAND_HOP_CYPHER frontier ws db -> exists a n, a ∈ frontier /\ leads a b n /\ c = is_concept_node n.
Proof.
  unfold _GRAPH_EXPAND_HOP_CYPHER. intros (a & Hin & Ha)%list_elem_of_bind. apply list_elem_of_omap in Hin as (r & Hr & Hs).
  destruct (decide (rl_src r.2 = a)) as [Hsrc|]; [|done]. unfold lookup_node in Hs.
  destruct (dget (rl_dst r.2) (raw_nodes db)) as [n|] eqn:Hn; [|done]. cbn in Hs. destruct (in_workspace ws n) eqn:Hw; [|done].
  injection Hs as <- <- <-. exists a, n. split; [done|]. split; [|done]. split; [by exists r|]. split; [|done].
  apply dget_lookup; [apply Hwf|done].
Qed.
Lemma hop_complete frontier a b n :
  a ∈ frontier -> leads a b n -> exists rid, (rid, b, is_concept_node n) ∈ _GRAPH_EXPAND_HOP_CYPHER frontier ws db.
Proof.
  intros Ha ((r & Hr & Hsrc & Hdst) & Hn & Hw). exists r.1. apply list_elem_of_bind. exists a. split; [|done].
  apply list_elem_of_omap. exists r. split; [done|]. rewrite decide_True by done. unfold lookup_node. rewrite Hdst.
  apply dget_lookup in Hn; [|apply Hwf]. rewrite Hn. cbn. by rewrite Hw.
Qed.

(** ** One hop *)

Lemma hop_rows_spec rows f :
  NoDup (owned f) -> NoDup (concept f) -> (forall e, e ∈ owned f -> e ∉ concept f) ->
  let f' := foldl hop_row f rows in
  exists new cs, owned f' = owned f ++ new /\ next_frontier f' = next_frontier f ++ new /\ concept f' = concept f ++ cs
    /\ NoDup (owned f') /\ NoDup (concept f') /\ (forall e, e ∈ owned f' -> e ∉ concept f')
    /\ (forall e, e ∈ new -> exists rid, (rid, e, false) ∈ rows) /\ (forall e, e ∈ cs -> exists rid, (rid, e, true) ∈ rows)
    /\ (forall rid b c, (rid, b, c) ∈ rows -> b ∈ owned f' \/ b ∈ concept f').
Proof.
  revert f. induction rows as [|[[rid b] c] rows IH]; intros f Ho Hc Hd; cbn [foldl].
  { exists [], []. rewrite !app_nil_r. split_and!; try done; intros; try by apply not_elem_of_nil in H0. }
  cbv zeta. set (f1 := hop_row f (rid, b, c)).
  assert (H1 : exists new1 cs1, owned f1 = owned f ++ new1 /\ next_frontier f1 = next_frontier f ++ new1 /\ concept f1 = concept f ++ cs1
    /\ NoDup (owned f1) /\ NoDup (concept f1) /\ (forall e, e ∈ owned f1 -> e ∉ concept f1)
    /\ (forall e, e ∈ new1 -> (e, c) = (b, false)) /\ (forall e, e ∈ cs1 -> (e, c) = (b, true))
    /\ (b ∈ owned f1 \/ b ∈ concept f1)).
  { unfold f1, hop_row. destruct (decide (b ∈ owned f \/ b ∈ concept f)) as [Hin|Hin].
    - exists [], []. cbn. rewrite !app_nil_r. split_and!; try done; by intros e ?%elem_of_nil.
    - assert (Hno : b ∉ owned f) by tauto. assert (Hnc : b ∉ concept f) by tauto. destruct c; cbn.
      + exists [], [b]. rewrite !app_nil_r. split_and!; try done.
        * apply NoDup_app. split; [done|]. split; [|apply NoDup_singleton]. by intros x Hx ->%list_elem_of_singleton.
        * intros e He [?|Heb%list_elem_of_singleton]%elem_of_app; [by apply (Hd e)|by subst].
        * by intros e ?%elem_of_nil.
        * by intros e ->%list_elem_of_singleton.
        * right. apply elem_of_app. right. by apply list_elem_of_singleton.
      + exists [b], []. rewrite !app_nil_r. split_and!; try done.
        * apply NoDup_app. split; [done|]. split; [|apply NoDup_singleton]. by intros x Hx ->%list_elem_of_singleton.
        * intros e [He|Heb%list_elem_of_singleton]%elem_of_app; [by apply Hd|by subst].
        * by intros e ->%list_elem_of_singleton.
        * by intros e ?%elem_of_nil.
        * left. apply elem_of_app. right. by apply list_elem_of_singleton. }
  destruct H1 as (new1 & cs1 & Eo1 & En1 & Ec1 & Ho1 & Hc1 & Hd1 & Hn1 & Hs1 & Hb1).
  destruct (IH f1 Ho1 Hc1 Hd1) as (new & cs & Eo & En & Ec & Ho' & Hc' & Hd' & Hn' & Hs' & Hall).
  exists (new1 ++ new), (cs1 ++ cs). rewrite Eo, En, Ec, Eo1, En1, Ec1, <- !app_assoc in *.
  split_and!; try done.
  - intros e [He|He]%elem_of_app; [exists rid; apply Hn1 in He as [= -> ->]; by left|].
    destruct (Hn' e He) as [rid' ?]. exists rid'. by right.
  - intros e [He|He]%elem_of_app; [exists rid; apply Hs1 in He as [= -> ->]; by left|].
    destruct (Hs' e He) as [rid' ?]. exists rid'. by right.
  - intros rid' b' c' [[= -> -> ->]|Hin]%elem_of_cons; [|by eapply Hall].
    destruct Hb1 as [Hb|Hb]; [left|right]; rewrite app_assoc; apply elem_of_app; by left.
Qed.

(** ** The search *)

Record Found (f : found) (frontier : list string) : Prop := {
  fo_owned : NoDup (owned f);
  fo_concept : NoDup (concept f);
  fo_disjoint : forall e, e ∈ owned f -> e ∉ concept f;
  fo_seeds : forall e, e ∈ seeds -> e ∈ owned f;
  fo_frontier : forall e, e ∈ frontier -> e ∈ owned f;
  fo_sound : forall e, e ∈ owned f -> family_owns e;
  fo_closed : forall a b n, a ∈ owned f -> a ∉ frontier -> leads a b n -> b ∈ owned f \/ (b ∈ concept f /\ is_concept_node n = true);
  fo_concepts : forall c, c ∈ concept f -> exists n, (c, n) ∈ raw_nodes db /\ is_concept_node n = true;
}.

Lemma node_unique_at e n m : (e, n) ∈ raw_nodes db -> (e, m) ∈ raw_nodes db -> n = m.
Proof. intros H1 H2. pose proof (ids_inj _ _ _ (wf_ids _ Hwf) H1 H2 eq_refl) as Heq. by injection Heq. Qed.

Lemma found_step f frontier :
  Found f frontier ->
  let f' := foldl hop_row (MkFound (owned f) (concept f) (f_edges f) []) (_GRAPH_EXPAND_HOP_CYPHER frontier ws db) in
  Found f' (next_frontier f') /\ length (owned f') = (length (owned f) + length (next_frontier f'))%nat.
Proof.
  intros HF f'. destruct (hop_rows_spec (_GRAPH_EXPAND_HOP_CYPHER frontier ws db) (MkFound (owned f) (concept f) (f_edges f) [])
    (fo_owned _ _ HF) (fo_concept _ _ HF) (fo_disjoint _ _ HF)) as (new & cs & Eo & En & Ec & Ho & Hc & Hd & Hn & Hs & Hall).
  fold f' in Eo, En, Ec, Ho, Hc, Hd, Hall. cbn in Eo, En, Ec. rewrite En. split; [|by rewrite Eo, length_app].
  split; try done.
  - intros e He. rewrite Eo. apply elem_of_app. left. by apply HF.
  - intros e He. rewrite Eo. apply elem_of_app. by right.
  - intros e. rewrite Eo. intros [He|He]%elem_of_app; [by apply HF|]. destruct (Hn e He) as [rid Hr].
    destruct (hop_elem _ _ _ _ Hr) as (a & n & Ha & Hl & Hcn). destruct (fo_sound _ _ HF a (fo_frontier _ _ HF a Ha)) as (s & Hs' & Hrt).
    exists s. split; [done|]. eapply rtc_r; [exact Hrt|]. exists n. split; [done|congruence].
  - intros a b n Ha Hna Hl. assert (Hcase : b ∈ owned f' \/ b ∈ concept f').
    { destruct (decide (a ∈ frontier)) as [Hf|Hf].
      - destruct (hop_complete frontier a b n Hf Hl) as [rid Hr]. by eapply Hall.
      - rewrite Eo in Ha. apply elem_of_app in Ha as [Ha|Ha]; [|done].
        destruct (fo_closed _ _ HF a b n Ha Hf Hl) as [Hb|[Hb _]]; [left; rewrite Eo|right; rewrite Ec]; apply elem_of_app; by left. }
    destruct Hcase as [|Hb]; [by left|right]. split; [done|]. destruct Hl as (_ & Hbn & _).
    assert (Hx : exists m, (b, m) ∈ raw_nodes db /\ is_concept_node m = true).
    { rewrite Ec in Hb. apply elem_of_app in Hb as [Hb|Hb]; [by apply HF|]. destruct (Hs b Hb) as [rid Hr].
      destruct (hop_elem _ _ _ _ Hr) as (a' & m & _ & (_ & Hm & _) & Hcm). exists m. split; [done|congruence]. }
    destruct Hx as (m & Hm & Hcm). by rewrite (node_unique_at b n m Hbn Hm).
  - intros c. rewrite Ec. intros [Hb|Hb]%elem_of_app; [by apply HF|]. destruct (Hs c Hb) as [rid Hr].
    destruct (hop_elem _ _ _ _ Hr) as (a' & m & _ & (_ & Hm & _) & Hcm). exists m. split; [done|congruence].
Qed.

Hypothesis Hseeds : forall e, e ∈ seeds -> e ∈ ids (raw_nodes db).

Lemma owned_nodes_of f frontier : Found f frontier -> (length (owned f) <= length (raw_nodes db))%nat.
Proof.
  intros HF. rewrite <- (length_map fst (raw_nodes db)). apply submseteq_length, NoDup_submseteq; [apply HF|].
  intros e He. destruct (fo_sound _ _ HF e He) as (s & Hs & Hr).
  revert Hr. apply (rtc_closed _ (fun x => x ∈ ids (raw_nodes db))); [|by apply Hseeds].
  intros a b _ (n & (_ & Hb & _) & _). apply list_elem_of_fmap. by exists (b, n).
Qed.

Lemma collect_loop_spec fuel : forall f frontier l,
  Found f frontier -> (length (raw_nodes db) + 2 <= fuel + length (owned f))%nat ->
  match collect_loop fuel ws f frontier (db, l) with
  | (inl f', (db', l')) => db' = db /\ Found f' [] /\ (l = [] -> l' = [])
  | (inr _, (db', _)) => db' = db /\ l <> []
  end.
Proof.
  induction fuel as [|fuel IH]; intros f frontier l HF Hfuel.
  { pose proof (owned_nodes_of _ _ HF). lia. }
  cbn [collect_loop]. destruct frontier as [|f0 fr]; [done|]. unfold bind.
  destruct (query_cases (_GRAPH_EXPAND_HOP_CYPHER (f0 :: fr) ws) db l) as [-> |(e & -> & Hl)]; [|done].
  destruct (found_step f _ HF) as [HF' Hlen].
  set (f' := foldl hop_row _ _) in *.
  assert (Hgo : match collect_loop fuel ws f' (next_frontier f') (db, tail l) with
    | (inl f', (db', l')) => db' = db /\ Found f' [] /\ (tail l = [] -> l' = [])
    | (inr _, (db', _)) => db' = db /\ tail l <> []
    end).
  { destruct (next_frontier f') as [|x nf] eqn:Hnf; [|apply IH; [done|cbn [length] in Hlen; lia]].
    destruct fuel; [|done]. pose proof (owned_nodes_of _ _ HF). lia. }
  destruct (collect_loop fuel ws f' (next_frontier f') (db, tail l)) as [[f2|e] [db2 l2]].
  - destruct Hgo as (? & ? & Hl). split_and!; try done. intros ->. by apply Hl.
  - destruct Hgo as [? Hl]. split; [done|]. by intros ->.
Qed.

Lemma found_exact f : Found f [] -> forall e, e ∈ owned f <-> family_owns e.
Proof.
  intros HF e. split; [apply HF|]. intros (s & Hs & Hr). revert Hr. apply (rtc_closed _ (fun x => x ∈ owned f)); [|by apply HF].
  intros a b Ha (n & Hl & Hc). destruct (fo_closed _ _ HF a b n Ha (not_elem_of_nil _) Hl) as [|[_ ?]]; [done|congruence].
Qed.
End owned.

Definition seed_ids (g : list string) (ws : string) (db : rawdb) : list string := _GRAPH_SEED_ELEMENT_IDS_CYPHER g ws db.

Lemma seeds_are_nodes g ws db e : e ∈ seed_ids g ws db -> e ∈ ids (raw_nodes db).
Proof.
  unfold seed_ids, _GRAPH_SEED_ELEMENT_IDS_CYPHER. intros (sid & Hin & _)%list_elem_of_bind.
  apply list_elem_of_fmap in Hin as (x & -> & [_ Hx]%list_elem_of_filter). apply list_elem_of_fmap. by exists x.
Qed.

Lemma collect_spec g ws db l :
  wf db ->
  match _collect_graph_node_ids g ws (db, l) with
  | (inl (o, c, _), (db', l')) =>
    db' = db /\ NoDup o /\ (forall e, e ∈ o <-> family_owns db ws (seed_ids g ws db) e)
    /\ NoDup c /\ (forall e, e ∈ o -> e ∉ c) /\ (forall e, e ∈ c -> e ∈ ids (raw_nodes db)) /\ (l = [] -> l' = [])
  | (inr _, (db', _)) => db' = db /\ l <> []
  end.
Proof.
  intros Hwf. unfold _collect_graph_node_ids, bind. cbn [fst].
  destruct (query_cases (_GRAPH_SEED_ELEMENT_IDS_CYPHER g ws) db l) as [-> |(e & -> & Hl)]; [|done].
  fold (seed_ids g ws db). set (seeds := seed_ids g ws db). destruct (remove_dups seeds) as [|s0 ss] eqn:Hs.
  { cbn. split_and!; try done; try constructor; try by intros ? ?%elem_of_nil.
    - by intros ?%elem_of_nil.
    - intros (s & Hin & _). apply elem_of_remove_dups in Hin. rewrite Hs in Hin. by apply elem_of_nil in Hin.
    - by intros ->. }
  rewrite <- Hs. assert (HF : Found db ws seeds (MkFound (remove_dups seeds) [] [] []) (remove_dups seeds)).
  { split; cbn; try done.
    - apply NoDup_remove_dups.
    - constructor.
    - intros e _. apply not_elem_of_nil.
    - intros e He. by apply elem_of_remove_dups.
    - intros e He. rewrite elem_of_remove_dups in He. exists e. split; [done|apply rtc_refl].
    - by intros c ?%elem_of_nil. }
  pose proof (collect_loop_spec db Hwf ws seeds (seeds_are_nodes g ws db) (collect_fuel db) _ _ (tail l) HF) as Hgo.
  destruct (collect_loop _ _ _ _ (db, tail l)) as [[f|e] [db' l']].
  - cbn. destruct Hgo as (-> & HF' & Hl). { cbn [owned]. rewrite Hs. unfold collect_fuel. cbn [length]. lia. }
    split_and!; try done; try apply HF'.
    + by apply found_exact.
    + intros c Hc. destruct (fo_concepts _ _ _ _ _ HF' c Hc) as (n & Hn & _). apply list_elem_of_fmap. by exists (c, n).
    + intros ->. by apply Hl.
  - destruct Hgo as [-> Hl]. { cbn [owned]. rewrite Hs. unfold collect_fuel. cbn [length]. lia. }
    split; [done|]. by intros ->.
Qed.

(** ** The batches *)

Lemma detach_app a b db : detach_delete b (detach_delete a db) = detach_delete (a ++ b) db.
Proof.
  unfold detach_delete. cbn. rewrite !list_filter_filter. f_equal; apply list_filter_iff; intros x; rewrite !elem_of_app; tauto.
Qed.

Lemma delete_batches_spec bs : forall db l,
  match delete_batches bs (db, l) with
  | (inl _, (db', l')) => db' = detach_delete (concat bs) db /\ (l = [] -> l' = [])
  | (inr _, (db', _)) => (exists d, (forall e, e ∈ d -> e ∈ concat bs) /\ db' = detach_delete d db) /\ l <> []
  end.
Proof.
  induction bs as [|b bs IH]; intros db l; cbn [delete_batches concat].
  { cbn. split; [by rewrite detach_nothing|done]. }
  unfold bind, write, statement.
  assert (Hnone : exists d, (forall e, e ∈ d -> e ∈ b ++ concat bs) /\ db = detach_delete d db).
  { exists []. split; [by intros e ?%elem_of_nil|by rewrite detach_nothing]. }
  destruct l as [|[|n e|e] l]; cbn [tail].
  - specialize (IH (detach_delete b db) []). destruct (delete_batches bs _) as [[u|e] [db' l']].
    + destruct IH as [-> Hl]. by rewrite detach_app.
    + by destruct IH as [_ ?].
  - specialize (IH (detach_delete b db) l). destruct (delete_batches bs _) as [[u|e] [db' l']].
    + destruct IH as [-> Hl]. by rewrite detach_app.
    + destruct IH as [(d & Hd & ->) _]. split; [|done]. exists (b ++ d). rewrite detach_app. split; [|done].
      intros e' [He|He]%elem_of_app; apply elem_of_app; auto.
  - split; done.
  - split; [|done]. exists b. split; [|done]. intros e' He. apply elem_of_app. by left.
Qed.

Lemma count_at (ns : list entry) e :
  NoDup (ids ns) -> length (base.filter (fun x : entry => x.1 = e) ns) = if decide (e ∈ ids ns) then 1%nat else 0%nat.
Proof.
  intros Hnd. induction ns as [|x ns IH]; [by rewrite decide_False by apply not_elem_of_nil|].
  apply NoDup_cons in Hnd as [Hn Hnd]. rewrite filter_cons. specialize (IH Hnd). destruct (decide (x.1 = e)) as [Hx|Hx].
  - subst e. rewrite decide_False in IH by done. cbn [length]. rewrite IH. rewrite decide_True by (by left). done.
  - rewrite IH. destruct (decide (e ∈ ids ns)) as [He|He].
    + rewrite decide_True by (by right). done.
    + rewrite decide_False; [done|]. intros [?|?]%elem_of_cons; [congruence|done].
Qed.
Lemma count_nodes (c : list string) db :
  NoDup (ids (raw_nodes db)) -> _COUNT_NODES_BY_ELEMENT_ID_CYPHER c db = length (base.filter (fun e => e ∈ ids (raw_nodes db)) c).
Proof.
  intros Hnd. unfold _COUNT_NODES_BY_ELEMENT_ID_CYPHER. induction c as [|e c IH]; [done|].
  rewrite bind_cons, length_app, IH, filter_cons, count_at by done. by destruct (decide (e ∈ ids (raw_nodes db))).
Qed.
Lemma detach_ids d db e : e ∈ ids (raw_nodes (detach_delete d db)) <-> e ∉ d /\ e ∈ ids (raw_nodes db).
Proof.
  cbn. unfold ids. rewrite !list_elem_of_fmap. split.
  - intros (x & -> & [Hx Hin]%list_elem_of_filter). split; [done|]. by exists x.
  - intros (Hd & x & -> & Hin). exists x. split; [done|]. by apply list_elem_of_filter.
Qed.
Lemma detach_nodup d db : NoDup (ids (raw_nodes db)) -> NoDup (ids (raw_nodes (detach_delete d db))).
Proof.
  intros Hnd. unfold ids. apply NoDup_fmap_2_strong; [|apply NoDup_filter; by apply (NoDup_fmap_1 fst)].
  intros x y [_ Hx]%list_elem_of_filter [_ Hy]%list_elem_of_filter. by apply (ids_inj (raw_nodes db)).
Qed.
Lemma count_gone (o : list string) db :
  NoDup (ids (raw_nodes db)) -> _COUNT_NODES_BY_ELEMENT_ID_CYPHER o (detach_delete o db) = 0%nat.
Proof.
  intros Hnd. rewrite count_nodes by (by apply detach_nodup).
  destruct (base.filter _ o) as [|e l] eqn:Hf; [done|]. exfalso. assert (He : e ∈ e :: l) by left. rewrite <- Hf in He.
  apply list_elem_of_filter in He as [[Hn _]%detach_ids He]. done.
Qed.
Lemma count_kept (o c : list string) db :
  NoDup (ids (raw_nodes db)) -> (forall e, e ∈ o -> e ∉ c) -> (forall e, e ∈ c -> e ∈ ids (raw_nodes db)) ->
  _COUNT_NODES_BY_ELEMENT_ID_CYPHER c (detach_delete o db) = length c.
Proof.
  intros Hnd Hd Hc. rewrite count_nodes by (by apply detach_nodup). f_equal. apply filter_everything.
  intros e He. apply detach_ids. split; [|by apply Hc]. intros Ho. by apply (Hd e).
Qed.

Lemma delete_collected_spec g o c db l :
  wf db -> (forall e, e ∈ o -> e ∉ c) -> (forall e, e ∈ c -> e ∈ ids (raw_nodes db)) ->
  match delete_collected g o c (db, l) with
  | (inl res, (db', _)) =>
    db' = detach_delete o db
    /\ res = Some (MkDeleteResult (root_id g) (length o) (length (base.filter (fun q => incident o q = true) (raw_rels db))))
  | (inr _, (db', _)) => (exists d, (forall e, e ∈ d -> e ∈ o) /\ db' = detach_delete d db) /\ l <> []
  end.
Proof.
  intros Hwf Hdis Hcn. unfold delete_collected, bind.
  destruct (query_cases (_GRAPH_REL_COUNT_CYPHER o) db l) as [-> |(e & -> & Hl)].
  2:{ split; [|done]. exists []. split; [by intros e' ?%elem_of_nil|by rewrite detach_nothing]. }
  set (bs := chunks _ _ _ o). assert (Hbs : concat bs = o) by (apply chunks_spec; unfold _DELETE_BATCH_ROWS; lia).
  pose proof (delete_batches_spec bs db (tail l)) as Hb. rewrite Hbs in Hb.
  destruct (delete_batches bs (db, tail l)) as [[u|e] [db2 l2]].
  2:{ destruct Hb as [Hd Hl]. split; [done|]. by intros ->. }
  destruct Hb as [-> Hl2]. assert (Hall : exists d, (forall e, e ∈ d -> e ∈ o) /\ detach_delete o db = detach_delete d db) by (by exists o).
  destruct (query_cases (_COUNT_NODES_BY_ELEMENT_ID_CYPHER o) (detach_delete o db) l2) as [-> |(e & -> & Hl)].
  2:{ split; [done|]. intros ->. by apply Hl, Hl2. }
  rewrite count_gone by apply Hwf. cbn [Nat.eqb negb]. destruct c as [|c0 cs] eqn:Hc; [done|]. rewrite <- Hc in *. clear Hc c0 cs.
  destruct (query_cases (_COUNT_NODES_BY_ELEMENT_ID_CYPHER c) (detach_delete o db) (tail l2)) as [-> |(e & -> & Hl)].
  2:{ split; [done|]. intros ->. apply Hl. by rewrite Hl2. }
  rewrite count_kept by (done || apply Hwf). by rewrite Nat.eqb_refl.
Qed.

(** C26: Deleting a resolved session graph from the database, under every script of
    failing, interrupted and unreported statements: what disappears is owned by the
    family (reached from its sessions inside the workspace, not through a shared
    concept), with its relationships, and nothing else changes; when a result is
    returned, exactly the owned nodes are gone, and it counts them and their
    relationships; and undisturbed, a result is returned. *)
Theorem neo4j_delete_exact (tie : nat) (session_id : string) (g : SessionGraph) (db db' : rawdb)
    (script script' : list reply) (r : option GraphDeleteResult + nerr) :
  wf db ->
  delete_session_graph tie session_id (Some g) (db, script) = (r, (db', script')) ->
  let Owned := family_owns db (sg_ws g) (seed_ids (py_sorted (session_ids g)) (sg_ws g) db) in
  (exists d, (forall e, e ∈ d -> Owned e) /\ db' = detach_delete d db)
  /\ (forall res, r = inl res -> exists o, NoDup o /\ (forall e, e ∈ o <-> Owned e) /\ db' = detach_delete o db
        /\ res = Some (MkDeleteResult (root_id g) (length o) (length (base.filter (fun q => incident o q = true) (raw_rels db)))))
  /\ (script = [] -> exists res, r = inl (Some res)).
Proof.
  intros Hwf Hrun Owned. unfold delete_session_graph, bind, ret in Hrun. unfold delete_resolved, bind in Hrun.
  pose proof (collect_spec (py_sorted (session_ids g)) (sg_ws g) db script Hwf) as Hc.
  destruct (_collect_graph_node_ids _ _ (db, script)) as [[[[o c] k]|e] [db1 l1]].
  2:{ destruct Hc as [-> Hl]. injection Hrun as <- <- <-. split; [|by split].
      exists []. split; [by intros e' ?%elem_of_nil|by rewrite detach_nothing]. }
  destruct Hc as (-> & Hno & Ho & Hnc & Hdis & Hcn & Hl). fold Owned in Ho.
  pose proof (delete_collected_spec g o c db l1 Hwf Hdis Hcn) as Hd. destruct o as [|o0 os] eqn:Eo.
  { injection Hrun as <- <- <-. split; [|split; [|intros _; by eexists]].
    - exists []. split; [by intros e' ?%elem_of_nil|by rewrite detach_nothing].
    - intros res [= <-]. exists []. split; [constructor|]. split; [done|]. split; [by rewrite detach_nothing|]. do 2 f_equal.
      symmetry. apply (length_zero_iff_nil (base.filter _ _)). clear. induction (raw_rels db) as [|q qs IH]; [done|].
      rewrite filter_cons, decide_False; [done|]. unfold incident. intros [?%elem_of_nil|?%elem_of_nil]%bool_decide_eq_true; done. }
  rewrite <- Eo in *. rewrite Hrun in Hd. destruct r as [res|e].
  - destruct Hd as [-> ->]. split; [exists o; split; [by intros e; apply Ho|done]|]. split; [|intros _; by eexists].
    intros res [= <-]. by exists o.
  - destruct Hd as [(d & Hd & ->) Hl1]. split; [exists d; split; [intros e' He; by apply Ho, Hd|done]|]. split; [done|].
    intros ->. by destruct Hl1; apply Hl.
Qed.

(** ** The family *)

Definition family (db : rawdb) (a b : string) : Prop :=
  exists r, r ∈ raw_rels db /\ family_rel r.2 = true /\ rl_src r.2 = a /\ rl_dst r.2 = b.

Lemma trails_sound db fuel : forall rs n k e,
  (forall r, r ∈ rs -> r ∈ raw_rels db) -> (k, e) ∈ trails_up fuel rs n -> rtc (family db) e n.
Proof.
  induction fuel as [|fuel IH]; intros rs n k e Hrs Hin; cbn [trails_up] in Hin; [by apply elem_of_nil in Hin|].
  apply list_elem_of_bind in Hin as (r & Hin & [[Hf Hd] Hr]%list_elem_of_filter).
  assert (Hstep : family db (rl_src r.2) n) by (exists r; split; [by apply Hrs|done]).
  apply elem_of_cons in Hin as [[= -> ->]|Hin]; [by apply rtc_once|]. apply list_elem_of_fmap in Hin as ([k' e'] & [= -> ->] & Hin).
  eapply rtc_r; [|exact Hstep]. eapply IH; [|exact Hin]. intros q [_ Hq]%list_elem_of_filter. by apply Hrs.
Qed.

Lemma family_closure db root e :
  e ∈ closure (S (length (raw_rels db))) (family_hop (raw_rels db)) [root] [root] <-> rtc (family db) root e.
Proof.
  apply (closure_spec _ _ root (map (fun r => rl_dst r.2) (raw_rels db))).
  - intros fr x. unfold family_hop. rewrite list_elem_of_fmap. split.
    + intros (r & -> & [[Hf Hs] Hr]%list_elem_of_filter). exists (rl_src r.2). split; [done|]. by exists r.
    + intros (a & Ha & r & Hr & Hf & <- & <-). exists r. split; [done|]. by apply list_elem_of_filter.
  - intros a x (r & Hr & _ & _ & <-). apply list_elem_of_fmap. by exists r.
  - apply NoDup_singleton.
  - left.
  - intros x ->%list_elem_of_singleton. by left.
  - done.
  - intros a x Ha Hn. done.
  - intros x ->%list_elem_of_singleton. apply rtc_refl.
  - right. rewrite length_map. cbn [length]. lia.
Qed.

(** A session node of the workspace. *)
Definition session_node (db : rawdb) (ws e : string) (n : rnode) : Prop :=
  (e, n) ∈ raw_nodes db /\ is_session n = true /\ in_workspace ws n = true.
Lemma session_in_spec db ws e : wf db -> session_in ws db e = true <-> exists n, session_node db ws e n.
Proof.
  intros Hwf. unfold session_in, lookup_node, session_node. destruct (dget e (raw_nodes db)) as [n|] eqn:Hn.
  - apply dget_lookup in Hn; [|apply Hwf]. rewrite andb_true_iff. split; [intros []; by exists n|].
    intros (m & Hm & H1 & H2). rewrite (node_unique_at db Hwf e n m Hn Hm). done.
  - split; [done|]. intros (n & Hin & _). apply dget_lookup in Hin; [|apply Hwf]. congruence.
Qed.

Lemma pick_row_elem tie rows e : pick_row tie rows = Some e -> exists k, (k, e) ∈ rows.
Proof.
  unfold pick_row. set (best := base.filter _ rows). destruct (best !! _) as [[k e']|] eqn:Hb; [|done]. intros [= <-].
  exists k. apply list_elem_of_lookup_2 in Hb. by apply list_elem_of_filter in Hb as [_ ?].
Qed.

Lemma resolve_root_spec tie sid ws db root :
  wf db -> resolve_root tie sid ws db = Some root ->
  exists nr start ns, session_node db ws root nr /\ session_node db ws start ns /\ named sid ns = true /\ rtc (family db) root start.
Proof.
  intros Hwf. unfold resolve_root.
  assert (Hstart : forall x, x ∈ starts sid ws db -> session_node db ws x.1 x.2 /\ named sid x.2 = true).
  { intros [e n] [Hb Hx]%list_elem_of_filter. rewrite !andb_true_iff in Hb. destruct Hb as [[H1 H2] H3]. by split. }
  destruct (base.filter _ (starts sid ws db)) as [|x lone'] eqn:Hl; intros Hroot.
  - apply pick_row_elem in Hroot as [k Hin]. apply list_elem_of_bind in Hin as (x & Hin & Hx).
    apply list_elem_of_filter in Hin as [Hs Hin]. apply session_in_spec in Hs as [nr Hnr]; [|done]. destruct (Hstart x Hx) as [H1 H2].
    exists nr, x.1, x.2. split_and!; try done. by eapply trails_sound.
  - destruct ((x :: lone') !! _) as [y|] eqn:Hy; [|done]. injection Hroot as <-. apply list_elem_of_lookup_2 in Hy. rewrite <- Hl in Hy.
    apply list_elem_of_filter in Hy as [_ Hy]. destruct (Hstart y Hy) as [H1 H2]. exists y.2, y.1, y.2. by split_and!.
Qed.

(** The rows of the resolution. *)
Lemma resolve_rows_spec tie sid ws db :
  wf db ->
  let rows := _GRAPH_RESOLVE_CYPHER tie sid ws db in
  rows = [] \/
  exists root nr start ns, session_node db ws root nr /\ session_node db ws start ns /\ named sid ns = true
    /\ rtc (family db) root start
    /\ (forall row, row ∈ rows -> fr_root row = default "" (rn_id nr))
    /\ (forall s, (exists row, row ∈ rows /\ fr_session row = s)
          <-> exists e n, session_node db ws e n /\ rn_id n = Some s /\ rtc (family db) root e).
Proof.
  intros Hwf rows. unfold rows, _GRAPH_RESOLVE_CYPHER.
  destruct (resolve_root tie sid ws db) as [root|] eqn:Hroot; [|by left]. right.
  pose proof (resolve_root_spec _ _ _ _ _ Hwf Hroot) as Hr.
  destruct Hr as (nr & start & ns & Hnr & Hns & Hnm & Hrt). exists root, nr, start, ns. split_and!; try done.
  - assert (Hlr : lookup_node (raw_nodes db) root = Some nr) by (apply dget_lookup; [apply Hwf|apply Hnr]). rewrite Hlr.
    intros row Hrow. apply list_elem_of_omap in Hrow as (e & _ & He). destruct (lookup_node (raw_nodes db) e) as [n|]; [|done].
    cbn in He. destruct (rn_id n); [|done]. by injection He as <-.
  - intros s. split.
    + intros (row & Hrow & <-). apply list_elem_of_omap in Hrow as (e & [Hs Hc]%list_elem_of_filter & He). apply family_closure in Hc.
      apply session_in_spec in Hs as [n Hn]; [|done]. exists e, n.
      assert (Hle : lookup_node (raw_nodes db) e = Some n) by (apply dget_lookup; [apply Hwf|apply Hn]).
      rewrite Hle in He. cbn in He. destruct (rn_id n) as [i|] eqn:Hi; [|done]. cbn in He. injection He as <-. done.
    + intros (e & n & Hn & Hi & Hre). eexists (MkFamilyRow s _ (rn_props n)). split; [|reflexivity]. apply list_elem_of_omap. exists e. split.
      * apply list_elem_of_filter. split; [apply session_in_spec; [done|by exists n]|by apply family_closure].
      * assert (Hle : lookup_node (raw_nodes db) e = Some n) by (apply dget_lookup; [apply Hwf|apply Hn]). rewrite Hle. cbn. by rewrite Hi.
Qed.

Lemma discover_spec sid db l ws s :
  _discover_session_workspace sid (db, l) = (inl (Some ws), s) ->
  s.1 = db /\ forall x, x ∈ raw_nodes db -> is_session x.2 && named sid x.2 = true -> rn_ws x.2 = Some ws.
Proof.
  unfold _discover_session_workspace, on_neo4j_error, bind, catch.
  destruct (query_cases (_ENTRY_SESSION_WORKSPACE_CYPHER sid) db l) as [-> |(e & -> & _)]; [|by destruct e].
  cbn [ret]. unfold ret. destruct (_ENTRY_SESSION_WORKSPACE_CYPHER sid db) as [|w [|w' ws']] eqn:Hq; try done. intros [= -> <-].
  split; [done|]. intros x Hx Hb.
  assert (Hin : rn_ws x.2 ∈ _ENTRY_SESSION_WORKSPACE_CYPHER sid db).
  { apply elem_of_remove_dups, list_elem_of_fmap. exists x. split; [done|]. by apply list_elem_of_filter. }
  rewrite Hq in Hin. by apply list_elem_of_singleton in Hin.
Qed.

Lemma dset_keys {A} (k : string) (v : A) d s : s ∈ dkeys (dset k v d) <-> s = k \/ s ∈ dkeys d.
Proof.
  rewrite dkeys_dset. destruct (dget k d) as [w|] eqn:Hk.
  - split; [auto|]. intros [-> |]; [|done]. apply dget_elem in Hk. apply list_elem_of_fmap. by exists (k, w).
  - rewrite elem_of_app, list_elem_of_singleton. tauto.
Qed.
Lemma member_props_keys rows s : s ∈ map fst (member_props rows) <-> exists row, row ∈ rows /\ fr_session row = s.
Proof.
  assert (Hgen : forall d, s ∈ map fst (foldl (fun d r => dset (fr_session r) (fr_props r) d) d rows)
            <-> s ∈ map fst d \/ exists row, row ∈ rows /\ fr_session row = s).
  { induction rows as [|r rows IH]; intros d; cbn [foldl].
    - split; [auto|]. intros [?|(row & ?%elem_of_nil & _)]; done.
    - rewrite IH. change (map fst (dset (fr_session r) (fr_props r) d)) with (dkeys (dset (fr_session r) (fr_props r) d)).
      rewrite dset_keys. split.
      + intros [[-> |?]|(row & ? & ?)]; [right; exists r; by split; [left|]|by left|right; exists row; by split; [right|]].
      + intros [?|(row & [-> |Hin]%elem_of_cons & Heq)]; [left; by right|left; by left|right; by exists row]. }
  unfold member_props. rewrite Hgen. split; [|by right]. by intros [?%elem_of_nil|].
Qed.

Lemma collect_keeps g ws db l : wf db -> (_collect_graph_node_ids g ws (db, l)).2.1 = db.
Proof.
  intros Hwf. pose proof (collect_spec g ws db l Hwf) as Hc.
  destruct (_collect_graph_node_ids g ws (db, l)) as [[[[o c] k]|e] [db' l']]; cbn; by destruct Hc as [-> _].
Qed.

(** C27: Resolving a session graph, whatever statements fail: the database is not changed,
    and a resolved graph lies in the one workspace all nodes of the session agree on;
    its root is the session or an ancestor of it, and its sessions are exactly the
    session nodes of that workspace below the root, the given one included. *)
Theorem neo4j_family_exact (tie : nat) (session_id : string) (db : rawdb) (script : list reply) (g : SessionGraph)
    (s' : rawdb * list reply) :
  wf db -> resolve_session_graph tie session_id (db, script) = (inl (Some g), s') ->
  s'.1 = db
  /\ (forall x, x ∈ raw_nodes db -> is_session x.2 && named session_id x.2 = true -> rn_ws x.2 = Some (sg_ws g))
  /\ exists root nr start ns,
       session_node db (sg_ws g) root nr /\ root_id g = default "" (rn_id nr)
       /\ session_node db (sg_ws g) start ns /\ rn_id ns = Some session_id /\ rtc (family db) root start
       /\ (forall s, s ∈ session_ids g <-> exists e n, session_node db (sg_ws g) e n /\ rn_id n = Some s /\ rtc (family db) root e)
       /\ session_id ∈ session_ids g.
Proof.
  intros Hwf Hrun. apply bind_ok in Hrun as ([ws|] & [db1 l1] & Hd & Hrun); [|done].
  apply discover_spec in Hd as [Heq Hws]. cbn in Heq. subst db1.
  apply bind_ok in Hrun as (rows & [db2 l2] & Hq & Hrun).
  assert (Hrows : db2 = db /\ (rows = [] \/ rows = _GRAPH_RESOLVE_CYPHER tie session_id ws db)).
  { unfold on_neo4j_error, catch in Hq.
    destruct (query_cases (_GRAPH_RESOLVE_CYPHER tie session_id ws) db l1) as [Hc|(e & Hc & _)]; rewrite Hc in Hq.
    - injection Hq as <- <- <-. split; [done|by right].
    - destruct e; [|done..]. injection Hq as <- <- <-. split; [done|by left]. }
  destruct Hrows as [-> Hrows]. destruct rows as [|r0 rows]; [done|]. destruct Hrows as [|Hrows]; [done|].
  unfold resolve_rows in Hrun. apply bind_ok in Hrun as (counts & [db3 l3] & Hc & Hrun).
  assert (Hdb3 : db3 = db).
  { unfold on_neo4j_error, catch in Hc. pose proof (collect_keeps (py_sorted (map fst (member_props (r0 :: rows)))) ws db l2 Hwf) as Hk.
    destruct (_collect_graph_node_ids _ _ _) as [[a|e] [db' l']]; cbn in Hk; subst db'; [by injection Hc|].
    destruct e; [|done..]. by injection Hc. }
  subst db3. destruct (last_change_rows _ None) as [last|e]; [|done]. injection Hrun as <- <-.
  destruct (resolve_rows_spec tie session_id ws db Hwf) as [Hnil|(root & nr & start & ns & Hnr & Hns & Hnm & Hrt & Hroot & Hmem)].
  { rewrite <- Hrows in Hnil. done. }
  rewrite <- Hrows in Hroot, Hmem. cbn [fst sg_ws sg_workspace root_id session_ids].
  assert (Hsid : rn_id ns = Some session_id) by (unfold named in Hnm; by apply bool_decide_eq_true in Hnm).
  assert (Hiff : forall s, s ∈ py_sorted (map fst (member_props (r0 :: rows)))
            <-> exists e n, session_node db ws e n /\ rn_id n = Some s /\ rtc (family db) root e).
  { intros s. by rewrite elem_of_py_sorted, member_props_keys, Hmem. }
  split; [done|]. split; [exact Hws|]. exists root, nr, start, ns. split_and!; try done.
  - apply Hroot. by left.
  - apply Hiff. by exists start, ns.
Qed.
End spec.

(** ** Two sessions with an event, a shared agent and a stranger *)

#[local] Existing Instance demo_timestamps.

Definition demo_at (id : string) (labels : list string) : rnode := MkNode (Some id) (Some "w") (list_to_set labels) ∅.
Definition demo_link (src type dst : string) : rrel := MkRel src dst type ∅.
Definition demo_graph : rawdb :=
  MkRaw [("p", demo_at "root" ["Node"; "Session"]); ("c", demo_at "child" ["Node"; "Session"]);
         ("e", demo_at "event" ["Node"; "Event"]); ("a", demo_at "agent" ["Node"; "SST_CONCEPT"]);
         ("q", demo_at "other" ["Node"; "Session"])]
    [("r1", demo_link "p" "HAS_SUBSESSION" "c"); ("r2", demo_link "c" "HAS_EVENT" "e");
     ("r3", demo_link "e" "USES" "a"); ("r4", demo_link "q" "USES" "a"); ("r5", demo_link "a" "KNOWS" "q")] [].

Definition demo_resolved := resolve_session_graph 0 "child" (demo_graph, []).
Definition demo_sg : SessionGraph := MkSessionGraph "root" ["child"; "root"] 4 3 JNull None None 1 (JStr "w") None.
Lemma demo_resolves : demo_resolved = (inl (Some demo_sg), (demo_graph, [])).
Proof. vm_compute. reflexivity. Qed.
Lemma demo_wf : wf demo_graph.
Proof.
  split; [apply (bool_decide_eq_true_1 _); by vm_compute|apply (bool_decide_eq_true_1 _); by vm_compute|].
  intros r Hr. revert r Hr. apply Forall_forall. apply (bool_decide_eq_true_1 _). by vm_compute.
Qed.
Lemma neo4j_family_exact_witness : "child" ∈ session_ids demo_sg.
Proof.
  destruct (neo4j_family_exact 0 "child" demo_graph [] demo_sg (demo_graph, []) demo_wf demo_resolves)
    as (_ & _ & root & nr & start & ns & _ & _ & _ & _ & _ & _ & Hin). exact Hin.
Defined.

Definition demo_deleted := delete_session_graph 0 "child" (Some demo_sg) (demo_graph, []).
Example demo_deleted_nodes : ids (raw_nodes demo_deleted.2.1) = ["a"; "q"] /\ map fst (raw_rels demo_deleted.2.1) = ["r4"; "r5"].
Proof. vm_compute. split; reflexivity. Qed.
Lemma neo4j_delete_exact_witness :
  exists o, demo_deleted.1 = inl (Some (MkDeleteResult "root" (length o) (length (base.filter (fun q => incident o q = true) (raw_rels demo_graph))))).
Proof.
  destruct (neo4j_delete_exact 0 "child" demo_sg demo_graph demo_deleted.2.1 [] demo_deleted.2.2 demo_deleted.1 demo_wf) as (_ & Hres & Hok).
  - exact (eq_trans (surjective_pairing demo_deleted) (f_equal (pair demo_deleted.1) (surjective_pairing demo_deleted.2))).
  - destruct (Hok eq_refl) as [res Hr]. destruct (Hres (Some res) Hr) as (o & _ & _ & _ & He). exists o. rewrite Hr, He. reflexivity.
Defined.
