(* ===== verification/Readiness.v ===== *)
(** * Identity readiness ([main.py])

    Requests are let in only while the identity store is known to be healthy.  Every
    lifetime of the application has a runtime; a request asks it, waits for one of
    four probe slots, and has the store verified by a worker thread, all within a
    deadline.  Shutdown closes the runtime, waits for everything admitted, and only
    then stops the store.

    The event loop runs callbacks and coroutines between their awaits without
    interruption, so one action is one such stretch; worker threads, clock readings,
    failures to dispatch, cancelled requests and the store's own latch are further
    actions.  [act] is the effect of an action, and [None] when it cannot happen.
    A semaphore grants a slot when a waiting request resumes. *)
From stdpp Require Import base list gmap.
From Stdlib Require Import ZArith Lia.
From S2P Require Import Prelude.

#[local] Open Scope list_scope.
#[local] Open Scope Z_scope.

Module Readiness.

Definition _IDENTITY_PROBE_CONCURRENCY : nat := 4.
Definition _IDENTITY_MAX_ADMITTED : nat := 36.
Definition _IDENTITY_PROBE_TIMEOUT : Z := 1000000000.

Inductive identity_status := Initializing | IsReady | Unavailable.
#[export] Instance identity_status_eq_dec : EqDecision identity_status.
Proof. solve_decision. Defined.

(** The one-shot initialisation in its thread: pending, over without an owned store,
    over with one, or failed. *)
Inductive init_state := InitPending | InitOver | InitOwns | InitFailed.
#[export] Instance init_state_eq_dec : EqDecision init_state.
Proof. solve_decision. Defined.

Record Runtime := MkRuntime {
  token : nat;
  closing : bool;
  admitted : nat;
  slots : nat;
  drained : bool;
  observer_cancelled : bool;
  init : init_state;
  owned : bool;                                    (** [runtime.owned is not None] *)
  cleanup_complete : bool;
}.
Definition new_runtime (t : nat) : Runtime :=
  MkRuntime t false 0 _IDENTITY_PROBE_CONCURRENCY true false InitPending false false.

(** A request and the probe it submitted, if any. *)
Inductive req_phase := Waiting | Probing | Answered (b : bool) | Cancelled.
Record Req := MkReq { q_gen : nat; q_deadline : Z; q_phase : req_phase }.
Inductive probe_state := Queued | Running | Finished (healthy : bool) | Aborted | Retired (healthy : option bool).
Record Probe := MkProbe { p_gen : nat; p_state : probe_state }.

Record App := MkApp {
  identity_runtime : nat;
  identity_config_token : nat;
  identity_ready_token : option nat;
  identity_closing : bool;
  identity_store_owned : bool;
  identity_state : identity_status;
  lifespan_active : bool;
  failure_detected : bool;                         (** the store's latch *)
  gens : gmap nat Runtime;
  reqs : gmap nat Req;
  probes : gmap nat Probe;
}.

Definition set_gens (f : gmap nat Runtime -> gmap nat Runtime) (s : App) : App :=
  MkApp (identity_runtime s) (identity_config_token s) (identity_ready_token s) (identity_closing s)
    (identity_store_owned s) (identity_state s) (lifespan_active s) (failure_detected s) (f (gens s)) (reqs s) (probes s).
Definition set_reqs (f : gmap nat Req -> gmap nat Req) (s : App) : App :=
  MkApp (identity_runtime s) (identity_config_token s) (identity_ready_token s) (identity_closing s)
    (identity_store_owned s) (identity_state s) (lifespan_active s) (failure_detected s) (gens s) (f (reqs s)) (probes s).
Definition set_probes (f : gmap nat Probe -> gmap nat Probe) (s : App) : App :=
  MkApp (identity_runtime s) (identity_config_token s) (identity_ready_token s) (identity_closing s)
    (identity_store_owned s) (identity_state s) (lifespan_active s) (failure_detected s) (gens s) (reqs s) (f (probes s)).
Definition set_closing (b : bool) (s : App) : App :=
  MkApp (identity_runtime s) (identity_config_token s) (identity_ready_token s) b
    (identity_store_owned s) (identity_state s) (lifespan_active s) (failure_detected s) (gens s) (reqs s) (probes s).
Definition set_status (t : option nat) (own : bool) (st : identity_status) (s : App) : App :=
  MkApp (identity_runtime s) (identity_config_token s) t (identity_closing s)
    own st (lifespan_active s) (failure_detected s) (gens s) (reqs s) (probes s).
Definition set_lifespan (g : nat) (active : bool) (s : App) : App :=
  MkApp g (identity_config_token s) (identity_ready_token s) (identity_closing s)
    (identity_store_owned s) (identity_state s) active (failure_detected s) (gens s) (reqs s) (probes s).
Definition latch_failure (s : App) : App :=
  MkApp (identity_runtime s) (identity_config_token s) (identity_ready_token s) (identity_closing s)
    (identity_store_owned s) (identity_state s) (lifespan_active s) true (gens s) (reqs s) (probes s).

Definition on_runtime (g : nat) (f : Runtime -> Runtime) : App -> App := set_gens (alter f g).
Definition close_runtime (r : Runtime) : Runtime :=
  MkRuntime (token r) true (admitted r) (slots r) (drained r) (observer_cancelled r) (init r) (owned r) (cleanup_complete r).
Definition cancel_observer (r : Runtime) : Runtime :=
  MkRuntime (token r) (closing r) (admitted r) (slots r) (drained r) true (init r) (owned r) (cleanup_complete r).
Definition set_accounts (a n : nat) (d : bool) (r : Runtime) : Runtime :=
  MkRuntime (token r) (closing r) a n d (observer_cancelled r) (init r) (owned r) (cleanup_complete r).
Definition set_init (i : init_state) (o : bool) (r : Runtime) : Runtime :=
  MkRuntime (token r) (closing r) (admitted r) (slots r) (drained r) (observer_cancelled r) i o (cleanup_complete r).
Definition set_cleanup (o c : bool) (r : Runtime) : Runtime :=
  MkRuntime (token r) (closing r) (admitted r) (slots r) (drained r) (observer_cancelled r) (init r) o c.
Definition set_phase (q : nat) (p : req_phase) : App -> App :=
  set_reqs (alter (fun r => MkReq (q_gen r) (q_deadline r) p) q).
Definition set_probe (q : nat) (p : probe_state) : App -> App := set_probes (alter (fun r => MkProbe (p_gen r) p) q).

(** ** The cached record *)

(** The runtime is the application's and its token is current. *)
Definition is_current (g : nat) (r : Runtime) (s : App) : bool :=
  bool_decide (identity_runtime s = g) && bool_decide (identity_config_token s = token r).

Definition _set_identity_state (g : nat) (new_state : identity_status) (own : bool) (s : App) : App :=
  match gens s !! g with
  | None => s
  | Some r =>
    if negb (is_current g r s) then s
    else
      let new_state := if bool_decide (new_state = IsReady) && (identity_closing s || closing r || observer_cancelled r)
                       then Unavailable else new_state in
      let is_ready := bool_decide (new_state = IsReady) in
      set_status (if is_ready then Some (token r) else None) (own && is_ready) new_state s
  end.

Definition _publish_identity_failure (g : nat) (s : App) : App :=
  if failure_detected s && bool_decide (identity_state s = IsReady) then _set_identity_state g Unavailable false s else s.

Definition _close_identity_runtime (g : nat) (s : App) : App :=
  match gens s !! g with
  | None => s
  | Some r =>
    let s := on_runtime g close_runtime s in
    let s := if is_current g r s then set_closing true s else s in
    _set_identity_state g Unavailable false s
  end.

Definition _identity_runtime_ready (g : nat) (s : App) : bool * App :=
  let s := match gens s !! g with
           | Some r => if observer_cancelled r then _close_identity_runtime g s else s
           | None => s
           end in
  let s := _publish_identity_failure g s in
  match gens s !! g with
  | None => (false, s)
  | Some r =>
    (is_current g r s && bool_decide (identity_ready_token s = Some (token r)) && bool_decide (identity_state s = IsReady)
     && negb (identity_closing s) && negb (closing r) && negb (failure_detected s), s)
  end.

(** ** A request *)

Definition _identity_admission_finished (g : nat) : App -> App :=
  on_runtime g (fun r => let n := (admitted r - 1)%nat in set_accounts n (slots r) (drained r || (n =? 0)%nat) r).
Definition release_slot (g : nat) : App -> App :=
  on_runtime g (fun r => set_accounts (admitted r) (S (slots r)) (drained r) r).

(** Until the first await. *)
Definition verify_enter (q g : nat) (now : Z) (s : App) : App :=
  let answer b s := set_reqs (<[q := MkReq g now (Answered b)]>) s in
  let '(ready, s) := _identity_runtime_ready g s in
  if negb ready then answer false s
  else if negb (identity_store_owned s) then answer true s
  else match gens s !! g with
  | None => s
  | Some r =>
    if (_IDENTITY_MAX_ADMITTED <=? admitted r)%nat then answer false s
    else set_reqs (<[q := MkReq g (now + _IDENTITY_PROBE_TIMEOUT) Waiting]>)
           (on_runtime g (fun r => set_accounts (S (admitted r)) (slots r) false r) s)
  end.

(** A request that leaves before it submitted. *)
Definition leave (q g : nat) (p : req_phase) (s : App) : App := set_phase q p (_identity_admission_finished g s).

(** How the executor takes the call: in the queue; refused; refused although a thread
    already claimed it. *)
Inductive dispatch := Accepted | Refused | RefusedLate.

(** With a slot, until the next await. *)
Definition verify_submit (q g : nat) (deadline now : Z) (d : dispatch) (s : App) : App :=
  let '(ready, s) := _identity_runtime_ready g s in
  if negb ready || (deadline <=? now) then leave q g (Answered false) s
  else
    let s := on_runtime g (fun r => set_accounts (admitted r) (slots r - 1) (drained r) r) s in
    match d with
    | Accepted => set_phase q Probing (set_probes (<[q := MkProbe g Queued]>) s)
    | Refused => set_phase q (Answered false) (_close_identity_runtime g (set_probes (<[q := MkProbe g Aborted]>) s))
    | RefusedLate => set_phase q (Answered false) (_close_identity_runtime g (set_probes (<[q := MkProbe g Running]>) s))
    end.

(** The done-callback of a probe. *)
Definition _identity_probe_done (q g : nat) (healthy : option bool) (s : App) : App :=
  let s := match healthy with Some false => _set_identity_state g Unavailable false s | _ => s end in
  _identity_admission_finished g (release_slot g (set_probe q (Retired healthy) s)).

(** After the wait. *)
Definition verify_resume (q g : nat) (deadline now : Z) (result : option bool) (s : App) : App :=
  match result with
  | Some true =>
    if deadline <=? now then set_phase q (Answered false) s
    else let '(ready, s) := _identity_runtime_ready g s in set_phase q (Answered ready) s
  | _ => set_phase q (Answered false) s
  end.

(** ** The lifetime *)

Definition lifespan_start (g : nat) (s : App) : App :=
  let s := on_runtime (identity_runtime s) close_runtime s in
  let s := set_gens (<[g := new_runtime (identity_config_token s)]>) s in
  let s := set_closing false (set_lifespan g true s) in
  _set_identity_state g Initializing false s.

(** How the initialisation ends: a failure with everything released; ready, with or
    without a selected store; a failure that kept the store. *)
Inductive init_end := EndNothing | EndReady (own : bool) | EndStuck.
Definition init_finish (g : nat) (e : init_end) (s : App) : App :=
  match e with
  | EndNothing => _set_identity_state g Unavailable false (on_runtime g (set_init InitOver false) s)
  | EndReady own => _set_identity_state g IsReady own (on_runtime g (set_init InitOwns true) s)
  | EndStuck => _set_identity_state g Unavailable false (on_runtime g (set_init InitFailed true) s)
  end.

(** The end of the shutdown: the store is stopped once nothing is admitted. *)
Definition lifespan_stop (g : nat) (stopped : bool) (s : App) : App :=
  match gens s !! g with
  | None => s
  | Some r =>
    match init r with
    | InitOwns =>                                  (** [_stop_identity_ownership] *)
      let s := _close_identity_runtime g s in
      if stopped then set_lifespan (identity_runtime s) false (on_runtime g (set_cleanup false true) s)
      else on_runtime g (set_init InitFailed true) s                   (** never retried *)
    | _ => if owned r then s                       (** exclusion is retained *)
           else set_lifespan (identity_runtime s) false (on_runtime g (set_cleanup false true) s)
    end
  end.

(** ** Actions *)

Inductive action :=
  | ALifespan (g : nat) | AInit (g : nat) (e : init_end) | ACancelObserver (g : nat) | AObserverDone (g : nat)
  | AEnter (q : nat) (now : Z) | ASlot (q : nat) (now : Z) (d : dispatch) | ASlotTimeout (q : nat)
  | ACancelReq (q : nat)
  | AClaim (q : nat) | AFinish (q : nat) (healthy : bool) | ACallback (q : nat)
  | AResume (q : nat) (now : Z) | AGiveUp (q : nat)
  | ALatch
  | AClose (g : nat)                               (** shutdown begins *)
  | AStop (g : nat) (stopped : bool).              (** shutdown ends *)

(** No future of the runtime is still to be done. *)
Definition undone (g : nat) (p : Probe) : bool :=
  bool_decide (p_gen p = g) && match p_state p with Queued | Running => true | _ => false end.
Definition settled (g : nat) (s : App) : bool := bool_decide (filter (fun x => undone g x.2 = true) (probes s) = ∅).

Definition act (a : action) (s : App) : option App :=
  match a with
  | ALifespan g =>
    match gens s !! g with Some _ => None | None => if lifespan_active s then None else Some (lifespan_start g s) end
  | AInit g e =>
    match gens s !! g with
    | Some r => if decide (init r = InitPending /\ cleanup_complete r = false) then Some (init_finish g e s) else None
    | None => None
    end
  | ACancelObserver g => Some (on_runtime g cancel_observer s)
  | AObserverDone g =>
    match gens s !! g with Some r => if observer_cancelled r then Some (_close_identity_runtime g s) else None | None => None end
  | AEnter q now => match reqs s !! q with Some _ => None | None => Some (verify_enter q (identity_runtime s) now s) end
  | ASlot q now d =>
    match reqs s !! q with
    | Some (MkReq g dl Waiting) =>
      match gens s !! g with
      | Some r => if (0 <? slots r)%nat then Some (verify_submit q g dl now d s) else None
      | None => None
      end
    | _ => None
    end
  | ASlotTimeout q =>
    match reqs s !! q with Some (MkReq g _ Waiting) => Some (leave q g (Answered false) s) | _ => None end
  | ACancelReq q =>
    match reqs s !! q with
    | Some (MkReq g _ Waiting) => Some (leave q g Cancelled s)
    | Some (MkReq g _ Probing) => Some (set_phase q Cancelled s)
    | _ => None
    end
  | AClaim q => match probes s !! q with Some (MkProbe g Queued) => Some (set_probe q Running s) | _ => None end
  | AFinish q h => match probes s !! q with Some (MkProbe g Running) => Some (set_probe q (Finished h) s) | _ => None end
  | ACallback q =>
    match probes s !! q with
    | Some (MkProbe g (Finished h)) => Some (_identity_probe_done q g (Some h) s)
    | Some (MkProbe g Aborted) => Some (_identity_probe_done q g None s)
    | _ => None
    end
  | AResume q now =>
    match reqs s !! q, probes s !! q with
    | Some (MkReq g dl Probing), Some (MkProbe _ (Retired r)) => Some (verify_resume q g dl now r s)
    | _, _ => None
    end
  | AGiveUp q =>
    match reqs s !! q with Some (MkReq _ _ Probing) => Some (set_phase q (Answered false) s) | _ => None end
  | ALatch => Some (latch_failure s)
  | AClose g =>
    if decide (identity_runtime s = g /\ lifespan_active s = true) then Some (_close_identity_runtime g s) else None
  | AStop g stopped =>
    match gens s !! g with
    | Some r =>
      if decide (closing r = true /\ init r <> InitPending /\ cleanup_complete r = false /\ settled g s = true /\ drained r = true)
      then Some (lifespan_stop g stopped s) else None
    | None => None
    end
  end.

Fixpoint run (s : App) (l : list action) : option App :=
  match l with
  | [] => Some s
  | a :: l => match act a s with Some s => run s l | None => None end
  end.

(** [create_asgi_app]: initializing, with a first runtime. *)
Definition new_app : App := MkApp 0 0 None false false Initializing false false {[0%nat := new_runtime 0]} ∅ ∅.
End Readiness.
