(* ===== verification/ReadinessSpec.v ===== *)
(** * What the readiness gate guarantees ([Readiness])

    [identity_answer_sound]: a request is let in only at a moment when the running
    lifetime is ready, open and unfailed, and, with an owned store, after a probe of
    that request found it healthy.  [shutdown_quiesces]: at most four probes and
    thirty-six requests are outstanding; a closed runtime lets nobody in any more; and
    once its store is stopped, no probe of it is running or will ever run. *)
From stdpp Require Import base list gmap.
From Stdlib Require Import ZArith Lia.
From S2P Require Import Prelude Readiness.

#[local] Open Scope list_scope.

Import Readiness.

(** ** Counting in a map *)

Definition count {A} (P : A -> bool) (m : gmap nat A) : nat := size (filter (fun x => P x.2 = true) m).
Definition one (b : bool) : nat := if b then 1 else 0.

Lemma count_insert {A} (P : A -> bool) (m : gmap nat A) (q : nat) (y : A) :
  count P (<[q := y]> m) + match m !! q with Some x => one (P x) | None => 0 end = count P m + one (P y).
Proof.
  unfold count, one. rewrite map_filter_insert. cbn.
  assert (Hdel : size (filter (fun x => P x.2 = true) (delete q m)) + match m !! q with Some x => if P x then 1 else 0 | None => 0 end
                 = size (filter (fun x => P x.2 = true) m)).
  { rewrite map_filter_delete. destruct (m !! q) as [x|] eqn:Hq.
    - destruct (P x) eqn:HP.
      + assert (Hf : filter (fun x => P x.2 = true) m !! q = Some x) by (by apply map_lookup_filter_Some).
        rewrite map_size_delete, Hf. cbn.
        assert (size (filter (fun x => P x.2 = true) m) <> 0) by (apply map_size_non_empty_iff; intros He; by rewrite He in Hf). lia.
      + rewrite delete_id; [lia|]. apply map_lookup_filter_None. right. intros z Hz. rewrite Hq in Hz. injection Hz as <-. cbn. by rewrite HP.
    - rewrite delete_id; [lia|]. apply map_lookup_filter_None. by left. }
  destruct (P y) eqn:HPy.
  - rewrite decide_True by done. rewrite <- insert_delete_eq, <- map_filter_delete. rewrite map_size_insert_None; [lia|].
    apply map_lookup_filter_None. left. apply lookup_delete_eq.
  - rewrite decide_False by done. lia.
Qed.
Lemma count_alter {A} (P : A -> bool) (f : A -> A) (m : gmap nat A) (q : nat) (x : A) :
  m !! q = Some x -> count P (alter f q m) + one (P x) = count P m + one (P (f x)).
Proof.
  intros Hq. pose proof (count_insert P m q (f x)) as H. rewrite Hq in H. rewrite <- H. do 2 f_equal.
  apply map_eq. intros i. destruct (decide (i = q)) as [-> |Hne].
  - rewrite lookup_alter_eq, lookup_insert_eq, Hq. done.
  - by rewrite lookup_alter_ne, lookup_insert_ne.
Qed.

(** ** The accounts *)

Definition acct (r : Runtime) : nat * nat * bool := (admitted r, slots r, drained r).
Abbreviation accounts := (gmap nat (nat * nat * bool)).

Definition is_waiting (p : req_phase) : bool := match p with Waiting => true | _ => false end.
Definition waits (g : nat) (q : Req) : bool := bool_decide (q_gen q = g) && is_waiting (q_phase q).
Definition is_open (p : probe_state) : bool := match p with Retired _ => false | _ => true end.
Definition opened (g : nat) (p : Probe) : bool := bool_decide (p_gen p = g) && is_open (p_state p).

Record AInv (G : accounts) (R : gmap nat Req) (P : gmap nat Probe) : Prop := {
  ai_known : forall g a n d, G !! g = Some (a, n, d) ->
    a = count (waits g) R + count (opened g) P /\ n + count (opened g) P = _IDENTITY_PROBE_CONCURRENCY
    /\ a <= _IDENTITY_MAX_ADMITTED /\ d = (a =? 0);
  ai_unknown : forall g, G !! g = None -> count (waits g) R = 0 /\ count (opened g) P = 0;
  ai_probe : forall q p, P !! q = Some p -> exists r, R !! q = Some r /\ is_waiting (q_phase r) = false;
}.

Lemma waits_eq g g' dl p : waits g (MkReq g' dl p) = bool_decide (g' = g) && is_waiting p.
Proof. done. Qed.
Lemma opened_eq g g' p : opened g (MkProbe g' p) = bool_decide (g' = g) && is_open p.
Proof. done. Qed.

(** One account and one request change. *)
Lemma acct_req G R P g q rq a n d a' n' d' :
  AInv G R P -> G !! g = Some (a, n, d) -> (forall x, R !! q = Some x -> q_gen x = g) -> q_gen rq = g ->
  (forall p, P !! q = Some p -> is_waiting (q_phase rq) = false) ->
  a' + match R !! q with Some x => one (is_waiting (q_phase x)) | None => 0 end = a + one (is_waiting (q_phase rq)) ->
  n' = n -> a' <= _IDENTITY_MAX_ADMITTED -> d' = (a' =? 0) ->
  AInv (<[g := (a', n', d')]> G) (<[q := rq]> R) P.
Proof.
  intros [Hk Hu Hp] Hg Hq Hrq Hpq Ha Hn Hle Hd. split.
  - intros g0 a0 n0 d0. pose proof (count_insert (waits g0) R q rq) as Hc. destruct (decide (g0 = g)) as [-> |Hne].
    + rewrite lookup_insert_eq. intros [= <- <- <-]. destruct (Hk g a n d Hg) as (H1 & H2 & H3 & H4).
      assert (Hw : one (waits g rq) = one (is_waiting (q_phase rq))) by (unfold waits; by rewrite bool_decide_true).
      assert (Hw' : match R !! q with Some x => one (waits g x) | None => 0 end
                    = match R !! q with Some x => one (is_waiting (q_phase x)) | None => 0 end).
      { destruct (R !! q) as [x|]; [|done]. unfold waits. by rewrite bool_decide_true by (by apply Hq). }
      rewrite Hw, Hw' in Hc. split; [lia|]. split; [lia|]. done.
    + rewrite lookup_insert_ne by done. intros Hg0. destruct (Hk g0 a0 n0 d0 Hg0) as (H1 & H2 & H3 & H4).
      assert (Hw : waits g0 rq = false) by (unfold waits; rewrite bool_decide_false by congruence; done).
      assert (Hw' : match R !! q with Some x => one (waits g0 x) | None => 0 end = 0).
      { destruct (R !! q) as [x|] eqn:Hx; [|done]. unfold waits. rewrite bool_decide_false; [done|]. rewrite (Hq x eq_refl). congruence. }
      rewrite Hw, Hw' in Hc. cbn in Hc. split; [lia|]. done.
  - intros g0 Hg0. destruct (decide (g0 = g)) as [-> |Hne]; [by rewrite lookup_insert_eq in Hg0|]. rewrite lookup_insert_ne in Hg0 by done.
    destruct (Hu g0 Hg0) as [H1 H2]. split; [|done]. pose proof (count_insert (waits g0) R q rq) as Hc.
    assert (Hw : waits g0 rq = false) by (unfold waits; rewrite bool_decide_false by congruence; done).
    rewrite Hw, H1 in Hc. cbn in Hc. lia.
  - intros q0 p0 Hq0. destruct (decide (q0 = q)) as [-> |Hne]; [rewrite lookup_insert_eq; exists rq; by eauto|].
    rewrite lookup_insert_ne by done. by eapply Hp.
Qed.

(** One account and one probe change. *)
Lemma acct_probe G R P g q pr a n d a' n' d' :
  AInv G R P -> G !! g = Some (a, n, d) -> (forall x, P !! q = Some x -> p_gen x = g) -> p_gen pr = g ->
  (exists r, R !! q = Some r /\ is_waiting (q_phase r) = false) ->
  a' + match P !! q with Some x => one (is_open (p_state x)) | None => 0 end = a + one (is_open (p_state pr)) ->
  n + match P !! q with Some x => one (is_open (p_state x)) | None => 0 end = n' + one (is_open (p_state pr)) ->
  a' <= _IDENTITY_MAX_ADMITTED -> d' = (a' =? 0) ->
  AInv (<[g := (a', n', d')]> G) R (<[q := pr]> P).
Proof.
  intros [Hk Hu Hp] Hg Hq Hrq Hex Ha Hn Hle Hd. split.
  - intros g0 a0 n0 d0. pose proof (count_insert (opened g0) P q pr) as Hc. destruct (decide (g0 = g)) as [-> |Hne].
    + rewrite lookup_insert_eq. intros [= <- <- <-]. destruct (Hk g a n d Hg) as (H1 & H2 & H3 & H4).
      assert (Hw : one (opened g pr) = one (is_open (p_state pr))) by (unfold opened; by rewrite bool_decide_true).
      assert (Hw' : match P !! q with Some x => one (opened g x) | None => 0 end
                    = match P !! q with Some x => one (is_open (p_state x)) | None => 0 end).
      { destruct (P !! q) as [x|]; [|done]. unfold opened. by rewrite bool_decide_true by (by apply Hq). }
      rewrite Hw, Hw' in Hc. split; [lia|]. split; [lia|]. done.
    + rewrite lookup_insert_ne by done. intros Hg0. destruct (Hk g0 a0 n0 d0 Hg0) as (H1 & H2 & H3 & H4).
      assert (Hw : opened g0 pr = false) by (unfold opened; rewrite bool_decide_false by congruence; done).
      assert (Hw' : match P !! q with Some x => one (opened g0 x) | None => 0 end = 0).
      { destruct (P !! q) as [x|] eqn:Hx; [|done]. unfold opened. rewrite bool_decide_false; [done|]. rewrite (Hq x eq_refl). congruence. }
      rewrite Hw, Hw' in Hc. cbn in Hc. split; [lia|]. split; [lia|]. done.
  - intros g0 Hg0. destruct (decide (g0 = g)) as [-> |Hne]; [by rewrite lookup_insert_eq in Hg0|]. rewrite lookup_insert_ne in Hg0 by done.
    destruct (Hu g0 Hg0) as [H1 H2]. split; [done|]. pose proof (count_insert (opened g0) P q pr) as Hc.
    assert (Hw : opened g0 pr = false) by (unfold opened; rewrite bool_decide_false by congruence; done).
    rewrite Hw, H2 in Hc. cbn in Hc. lia.
  - intros q0 p0 Hq0. destruct (decide (q0 = q)) as [-> |Hne]; [done|]. rewrite lookup_insert_ne in Hq0 by done. by eapply Hp.
Qed.

(** ** What the pieces leave alone *)

Definition AI (s : App) : Prop := AInv (acct <$> gens s) (reqs s) (probes s).
Definition framed (s s' : App) : Prop :=
  acct <$> gens s' = acct <$> gens s /\ reqs s' = reqs s /\ probes s' = probes s.
Lemma framed_refl s : framed s s.
Proof. done. Qed.
Lemma framed_trans s1 s2 s3 : framed s1 s2 -> framed s2 s3 -> framed s1 s3.
Proof. intros (H1 & H2 & H3) (H4 & H5 & H6). split_and!; congruence. Qed.
Lemma AI_framed s s' : framed s s' -> AI s -> AI s'.
Proof. unfold AI. by intros (-> & -> & ->). Qed.

Lemma acct_alter f g (m : gmap nat Runtime) r :
  m !! g = Some r -> acct <$> alter f g m = <[g := acct (f r)]> (acct <$> m).
Proof.
  intros Hr. apply map_eq. intros i. rewrite lookup_fmap. destruct (decide (i = g)) as [-> |Hne].
  - by rewrite lookup_alter_eq, lookup_insert_eq, Hr.
  - by rewrite lookup_alter_ne, lookup_insert_ne, lookup_fmap.
Qed.
Lemma framed_runtime g f s : (forall r, acct (f r) = acct r) -> framed s (on_runtime g f s).
Proof.
  intros Hf. split_and!; try done. cbn. apply map_eq. intros i. rewrite !lookup_fmap. destruct (decide (i = g)) as [-> |Hne].
  - rewrite lookup_alter_eq. destruct (gens s !! g) as [r|]; [cbn; by rewrite Hf|done].
  - by rewrite lookup_alter_ne.
Qed.

Lemma framed_set_state g st own s : framed s (_set_identity_state g st own s).
Proof. unfold _set_identity_state. repeat case_match; done. Qed.
Lemma framed_publish g s : framed s (_publish_identity_failure g s).
Proof. unfold _publish_identity_failure. case_match; [apply framed_set_state|done]. Qed.
Lemma framed_close g s : framed s (_close_identity_runtime g s).
Proof.
  unfold _close_identity_runtime. destruct (gens s !! g) as [r|]; [|done].
  eapply framed_trans; [apply (framed_runtime g close_runtime); done|].
  eapply framed_trans; [|apply framed_set_state]. case_match; done.
Qed.
Lemma framed_ready g s : framed s (_identity_runtime_ready g s).2.
Proof.
  unfold _identity_runtime_ready. set (s1 := match gens s !! g with Some _ => _ | None => _ end).
  assert (H1 : framed s s1) by (unfold s1; repeat case_match; try done; apply framed_close).
  assert (H2 : framed s (_publish_identity_failure g s1)) by (eapply framed_trans; [exact H1|apply framed_publish]).
  by destruct (gens (_publish_identity_failure g s1) !! g).
Qed.

(** ** Closing is for ever *)

Definition grows (s s' : App) : Prop :=
  forall g r, gens s !! g = Some r -> exists r', gens s' !! g = Some r' /\ (closing r = true -> closing r' = true).
Lemma grows_refl s : grows s s.
Proof. intros g r Hr. by exists r. Qed.
Lemma grows_trans s1 s2 s3 : grows s1 s2 -> grows s2 s3 -> grows s1 s3.
Proof. intros H12 H23 g r Hr. destruct (H12 g r Hr) as (r2 & Hr2 & Hc). destruct (H23 g r2 Hr2) as (r3 & Hr3 & Hc'). exists r3. auto. Qed.
Lemma grows_gens s s' : gens s' = gens s -> grows s s'.
Proof. intros Heq g r Hr. exists r. by rewrite Heq. Qed.
Lemma grows_runtime g f s : (forall r, closing r = true -> closing (f r) = true) -> grows s (on_runtime g f s).
Proof.
  intros Hf g0 r Hr. cbn. destruct (decide (g0 = g)) as [-> |Hne].
  - rewrite lookup_alter_eq, Hr. exists (f r). auto.
  - rewrite lookup_alter_ne by done. exists r. auto.
Qed.
Lemma gens_set_state g st own s : gens (_set_identity_state g st own s) = gens s.
Proof. unfold _set_identity_state. repeat case_match; done. Qed.
Lemma gens_publish g s : gens (_publish_identity_failure g s) = gens s.
Proof. unfold _publish_identity_failure. case_match; [apply gens_set_state|done]. Qed.
Lemma grows_close g s : grows s (_close_identity_runtime g s).
Proof.
  unfold _close_identity_runtime. destruct (gens s !! g) as [r|]; [|apply grows_refl].
  eapply grows_trans; [apply (grows_runtime g close_runtime); done|]. apply grows_gens. rewrite gens_set_state. by case_match.
Qed.
Lemma grows_ready g s : grows s (_identity_runtime_ready g s).2.
Proof.
  unfold _identity_runtime_ready. set (s1 := match gens s !! g with Some _ => _ | None => _ end).
  assert (H1 : grows s s1) by (unfold s1; repeat case_match; try apply grows_refl; apply grows_close).
  assert (H2 : grows s (_publish_identity_failure g s1)) by (eapply grows_trans; [exact H1|apply grows_gens, gens_publish]).
  by destruct (gens (_publish_identity_failure g s1) !! g).
Qed.

(** What a positive check has seen. *)
Record Open (g : nat) (s : App) : Prop := {
  op_current : identity_runtime s = g;
  op_state : identity_state s = IsReady;
  op_token : identity_ready_token s = Some (identity_config_token s);
  op_closing : identity_closing s = false;
  op_failure : failure_detected s = false;
  op_runtime : exists r, gens s !! g = Some r /\ closing r = false;
}.
Lemma ready_open g s s' : _identity_runtime_ready g s = (true, s') -> Open g s'.
Proof.
  unfold _identity_runtime_ready. set (s1 := match gens s !! g with Some _ => _ | None => _ end).
  set (s2 := _publish_identity_failure g s1). destruct (gens s2 !! g) as [r|] eqn:Hr; [|done]. intros [= Hb <-].
  rewrite !andb_true_iff, !negb_true_iff in Hb. unfold is_current in Hb. rewrite andb_true_iff in Hb.
  destruct Hb as [[[[[[H1 H2] H3] H4] H5] H6] H7].
  apply bool_decide_eq_true in H1, H2, H3, H4. split; try done; [congruence|]. by exists r.
Qed.

(** ** Every action keeps the accounts *)

Lemma alter_as_insert {A} (f : A -> A) (q : nat) (m : gmap nat A) x : m !! q = Some x -> alter f q m = <[q := f x]> m.
Proof.
  intros Hq. apply map_eq. intros i. destruct (decide (i = q)) as [-> |Hne].
  - by rewrite lookup_alter_eq, lookup_insert_eq, Hq.
  - by rewrite lookup_alter_ne, lookup_insert_ne.
Qed.

(** A request that does not wait, before and after. *)
Lemma req_quiet G R P q rq :
  AInv G R P -> (forall x, R !! q = Some x -> is_waiting (q_phase x) = false) -> is_waiting (q_phase rq) = false ->
  AInv G (<[q := rq]> R) P.
Proof.
  intros [Hk Hu Hp] Hq Hrq.
  assert (Hc : forall g, count (waits g) (<[q := rq]> R) = count (waits g) R).
  { intros g. pose proof (count_insert (waits g) R q rq) as Hc.
    assert (Hw : waits g rq = false) by (unfold waits; rewrite Hrq; apply andb_false_r).
    assert (Hw' : match R !! q with Some x => one (waits g x) | None => 0 end = 0).
    { destruct (R !! q) as [x|] eqn:Hx; [|done]. unfold waits. rewrite (Hq x eq_refl). by rewrite andb_false_r. }
    rewrite Hw, Hw' in Hc. cbn in Hc. lia. }
  split.
  - intros g a n d Hg. rewrite Hc. by apply Hk.
  - intros g Hg. rewrite Hc. by apply Hu.
  - intros q0 p Hq0. destruct (decide (q0 = q)) as [-> |Hne]; [rewrite lookup_insert_eq; by exists rq|].
    rewrite lookup_insert_ne by done. by eapply Hp.
Qed.
(** A probe that stays open. *)
Lemma probe_quiet G R P q pr pr' :
  AInv G R P -> P !! q = Some pr -> p_gen pr' = p_gen pr -> is_open (p_state pr) = true -> is_open (p_state pr') = true ->
  AInv G R (<[q := pr']> P).
Proof.
  intros [Hk Hu Hp] Hq Hg Ho Ho'.
  assert (Hc : forall g, count (opened g) (<[q := pr']> P) = count (opened g) P).
  { intros g. pose proof (count_insert (opened g) P q pr') as Hc. rewrite Hq in Hc. unfold opened at 2 4 in Hc.
    rewrite Hg, Ho, Ho' in Hc. lia. }
  split.
  - intros g a n d Hgn. rewrite Hc. by apply Hk.
  - intros g Hgn. rewrite Hc. by apply Hu.
  - intros q0 p Hq0. destruct (decide (q0 = q)) as [-> |Hne]; [by eapply Hp|]. rewrite lookup_insert_ne in Hq0 by done. by eapply Hp.
Qed.

Lemma no_probe_waiting s q g dl : AI s -> reqs s !! q = Some (MkReq g dl Waiting) -> probes s !! q = None.
Proof.
  intros HA Hq. destruct (probes s !! q) as [p|] eqn:Hp; [|done]. destruct (ai_probe _ _ _ HA q p Hp) as (r & Hr & Hw).
  rewrite Hq in Hr. injection Hr as <-. done.
Qed.

Lemma enter_AI q g now s : AI s -> reqs s !! q = None -> AI (verify_enter q g now s).
Proof.
  intros HA Hq. unfold verify_enter. pose proof (framed_ready g s) as Hf.
  destruct (_identity_runtime_ready g s) as [ready s1]. cbn in Hf. pose proof (AI_framed _ _ Hf HA) as HA1.
  destruct Hf as (_ & Hr & Hp). rewrite <- Hr in Hq.
  assert (Hans : forall b, AI (set_reqs (<[q := MkReq g now (Answered b)]>) s1)) by (intros b; apply req_quiet; [done|congruence|done]).
  destruct (negb ready); [done|]. destruct (negb (identity_store_owned s1)); [done|]. destruct (gens s1 !! g) as [r|] eqn:Hg; [|done].
  destruct (Nat.leb_spec _IDENTITY_MAX_ADMITTED (admitted r)); [done|]. unfold AI, on_runtime. cbn [set_reqs set_gens gens reqs probes].
  rewrite (acct_alter _ g _ r Hg). eapply (acct_req _ _ _ _ _ _ (admitted r) (slots r) (drained r)); try done.
  - by rewrite lookup_fmap, Hg.
  - intros x Hx. congruence.
  - intros p Hpq. destruct (ai_probe _ _ _ HA1 q p Hpq) as (x & Hx & _). congruence.
  - rewrite Hq. cbn. lia.
Qed.

Lemma leave_AI q g dl p s : AI s -> reqs s !! q = Some (MkReq g dl Waiting) -> is_waiting p = false -> AI (leave q g p s).
Proof.
  intros HA Hq Hp. unfold AI, leave, set_phase, _identity_admission_finished, on_runtime. cbn [set_reqs set_gens gens reqs probes].
  destruct (gens s !! g) as [r|] eqn:Hg.
  2:{ exfalso. destruct (ai_unknown _ _ _ HA g) as [Hz _]; [by rewrite lookup_fmap, Hg|].
      pose proof (count_insert (waits g) (reqs s) q (MkReq g dl Cancelled)) as Hc. rewrite Hq, Hz, !waits_eq, bool_decide_true in Hc by done.
      cbn in Hc. lia. }
  rewrite (acct_alter _ g _ r Hg), (alter_as_insert _ q _ _ Hq). cbn [q_gen q_deadline].
  destruct (ai_known _ _ _ HA g (admitted r) (slots r) (drained r)) as (H1 & H2 & H3 & H4); [by rewrite lookup_fmap, Hg|].
  pose proof (count_insert (waits g) (reqs s) q (MkReq g dl p)) as Hc.
  rewrite Hq, !waits_eq, bool_decide_true in Hc by done. rewrite Hp in Hc. cbn in Hc.
  eapply (acct_req _ _ _ _ _ _ (admitted r) (slots r) (drained r)); try done.
  - by rewrite lookup_fmap, Hg.
  - intros x Hx. rewrite Hq in Hx. by injection Hx as <-.
  - rewrite Hq. cbn. rewrite Hp. cbn. lia.
  - cbn. lia.
  - cbn. rewrite H4. destruct (Nat.eqb_spec (admitted r) 0); [lia|done].
Qed.

Lemma framed_phase q p s s' : framed s s' -> framed (set_phase q p s) (set_phase q p s').
Proof. intros (H1 & H2 & H3). unfold framed, set_phase. cbn. by rewrite H1, H2, H3. Qed.

Lemma submitted_AI q g dl ph st s r :
  AI s -> reqs s !! q = Some (MkReq g dl Waiting) -> gens s !! g = Some r -> 0 < slots r -> is_waiting ph = false -> is_open st = true ->
  AI (set_phase q ph (set_probes (<[q := MkProbe g st]>) (on_runtime g (fun r => set_accounts (admitted r) (slots r - 1) (drained r) r) s))).
Proof.
  intros HA Hq Hg Hs Hph Hst. pose proof (no_probe_waiting _ _ _ _ HA Hq) as Hp.
  assert (Hacc : (acct <$> gens s) !! g = Some (admitted r, slots r, drained r)) by (by rewrite lookup_fmap, Hg).
  destruct (ai_known _ _ _ HA _ _ _ _ Hacc) as (H1 & H2 & H3 & H4).
  pose proof (count_insert (waits g) (reqs s) q (MkReq g dl ph)) as Hc.
  rewrite Hq, !waits_eq, bool_decide_true in Hc by done. rewrite Hph in Hc. cbn in Hc.
  unfold AI, set_phase, on_runtime. cbn [set_reqs set_gens set_probes gens reqs probes].
  rewrite (acct_alter _ g _ r Hg), (alter_as_insert _ q _ _ Hq). cbn [q_gen q_deadline].
  assert (H5 : AInv (<[g := (admitted r - 1, slots r, (admitted r - 1 =? 0))]> (acct <$> gens s)) (<[q := MkReq g dl ph]> (reqs s)) (probes s)).
  { eapply (acct_req _ _ _ _ _ _ (admitted r) (slots r) (drained r)); try done; try lia.
    - intros x Hx. rewrite Hq in Hx. by injection Hx as <-.
    - rewrite Hq. cbn. rewrite Hph. cbn. lia. }
  assert (H6 : AInv (<[g := (admitted r, slots r - 1, (admitted r =? 0))]> (<[g := (admitted r - 1, slots r, (admitted r - 1 =? 0))]> (acct <$> gens s)))
                 (<[q := MkReq g dl ph]> (reqs s)) (<[q := MkProbe g st]> (probes s))).
  { eapply (acct_probe _ _ _ _ _ _ (admitted r - 1) (slots r)); try done.
    - by rewrite lookup_insert_eq.
    - congruence.
    - rewrite lookup_insert_eq. by eexists.
    - rewrite Hp. cbn. rewrite Hst. cbn. lia.
    - rewrite Hp. cbn. rewrite Hst. cbn. lia. }
  rewrite insert_insert_eq in H6. unfold acct, set_accounts. cbn [admitted slots drained]. by rewrite H4.
Qed.

Lemma submit_AI q g dl now d s r :
  AI s -> reqs s !! q = Some (MkReq g dl Waiting) -> gens s !! g = Some r -> 0 < slots r -> AI (verify_submit q g dl now d s).
Proof.
  intros HA Hq Hg Hs. unfold verify_submit. pose proof (framed_ready g s) as Hf.
  destruct (_identity_runtime_ready g s) as [ready s1]. cbn in Hf. pose proof (AI_framed _ _ Hf HA) as HA1.
  destruct Hf as (Hgs & Hr & Hp). rewrite <- Hr in Hq.
  destruct (negb ready || _); [by apply (leave_AI _ _ dl)|].
  assert (Hg1 : exists r1, gens s1 !! g = Some r1 /\ slots r1 = slots r).
  { assert (Hl : (acct <$> gens s1) !! g = Some (acct r)) by (rewrite Hgs, lookup_fmap, Hg; done).
    rewrite lookup_fmap in Hl. destruct (gens s1 !! g) as [r1|]; [|done]. exists r1. split; [done|]. injection Hl. done. }
  destruct Hg1 as (r1 & Hg1 & Hsl). destruct d; [by eapply (submitted_AI q g dl Probing Queued); eauto; rewrite Hsl| |];
    (eapply AI_framed; [apply framed_phase, framed_close|]).
  - by eapply (submitted_AI q g dl (Answered false) Aborted); eauto; rewrite Hsl.
  - by eapply (submitted_AI q g dl (Answered false) Running); eauto; rewrite Hsl.
Qed.

Lemma probe_done_AI q g st h s :
  AI s -> probes s !! q = Some (MkProbe g st) -> is_open st = true -> AI (_identity_probe_done q g h s).
Proof.
  intros HA Hq Ho. unfold _identity_probe_done. set (s1 := match h with Some false => _ | _ => s end).
  assert (Hf : framed s s1) by (unfold s1; destruct h as [[]|]; try apply framed_refl; apply framed_set_state).
  pose proof (AI_framed _ _ Hf HA) as HA1. destruct Hf as (_ & _ & Hp). rewrite <- Hp in Hq. clear HA Hp. clearbody s1.
  destruct (gens s1 !! g) as [r|] eqn:Hg.
  2:{ exfalso. destruct (ai_unknown _ _ _ HA1 g) as [_ Hz]; [by rewrite lookup_fmap, Hg|].
      pose proof (count_insert (opened g) (probes s1) q (MkProbe g (Retired None))) as Hc.
      rewrite Hq, Hz, !opened_eq, bool_decide_true in Hc by done. rewrite Ho in Hc. cbn in Hc. lia. }
  assert (Hacc : (acct <$> gens s1) !! g = Some (admitted r, slots r, drained r)) by (by rewrite lookup_fmap, Hg).
  destruct (ai_known _ _ _ HA1 _ _ _ _ Hacc) as (H1 & H2 & H3 & H4).
  pose proof (count_insert (opened g) (probes s1) q (MkProbe g (Retired h))) as Hc.
  rewrite Hq, !opened_eq, bool_decide_true in Hc by done. rewrite Ho in Hc. cbn in Hc.
  unfold AI, _identity_admission_finished, release_slot, set_probe, on_runtime. cbn [set_gens set_probes gens reqs probes].
  rewrite (acct_alter _ g _ (set_accounts (admitted r) (S (slots r)) (drained r) r)) by (by rewrite lookup_alter_eq, Hg).
  rewrite (acct_alter _ g _ r Hg), insert_insert_eq, (alter_as_insert _ q _ _ Hq). cbn [p_gen].
  eapply (acct_probe _ _ _ _ _ _ (admitted r) (slots r) (drained r)); try done.
  - intros x Hx. rewrite Hq in Hx. by injection Hx as <-.
  - by eapply (ai_probe _ _ _ HA1).
  - rewrite Hq. cbn. rewrite Ho. cbn. lia.
  - rewrite Hq. cbn. rewrite Ho. cbn. lia.
  - cbn. lia.
  - cbn. rewrite H4. destruct (Nat.eqb_spec (admitted r) 0); [lia|done].
Qed.

Lemma new_runtime_AI g t s : AI s -> gens s !! g = None -> AI (set_gens (<[g := new_runtime t]>) s).
Proof.
  intros [Hk Hu Hp] Hg. unfold AI. cbn [set_gens gens reqs probes]. rewrite fmap_insert. split; [| |done].
  - intros g0 a n d. destruct (decide (g0 = g)) as [-> |Hne]; [|rewrite lookup_insert_ne by done; apply Hk].
    rewrite lookup_insert_eq. intros [= <- <- <-]. destruct (Hu g) as [H1 H2]; [by rewrite lookup_fmap, Hg|].
    rewrite H1, H2. split_and!; try done. cbn. lia.
  - intros g0. destruct (decide (g0 = g)) as [-> |Hne]; [by rewrite lookup_insert_eq|]. rewrite lookup_insert_ne by done. apply Hu.
Qed.

Lemma phase_AI q rq p s : AI s -> reqs s !! q = Some rq -> is_waiting (q_phase rq) = false -> is_waiting p = false -> AI (set_phase q p s).
Proof.
  intros HA Hq Hw Hp. unfold AI, set_phase. cbn [set_reqs gens reqs probes]. rewrite (alter_as_insert _ q _ _ Hq).
  apply req_quiet; [done|congruence|done].
Qed.
Lemma probe_AI q pr st s : AI s -> probes s !! q = Some pr -> is_open (p_state pr) = true -> is_open st = true -> AI (set_probe q st s).
Proof.
  intros HA Hq Hw Hp. unfold AI, set_probe. cbn [set_probes gens reqs probes]. rewrite (alter_as_insert _ q _ _ Hq).
  by eapply probe_quiet.
Qed.

Lemma framed_stop g stopped s : framed s (lifespan_stop g stopped s).
Proof.
  assert (Hr : forall f s0, (forall r, acct (f r) = acct r) -> framed s s0 -> framed s (on_runtime g f s0)).
  { intros f s0 Hf Hs. eapply framed_trans; [exact Hs|by apply framed_runtime]. }
  assert (Hok : framed s (on_runtime g (set_cleanup false true) s)) by (by apply Hr).
  assert (Hclosed : framed s (on_runtime g (set_cleanup false true) (_close_identity_runtime g s))) by (apply Hr; [done|apply framed_close]).
  assert (Hno : framed s (on_runtime g (set_init InitFailed true) (_close_identity_runtime g s))) by (apply Hr; [done|apply framed_close]).
  unfold lifespan_stop. destruct (gens s !! g) as [r|]; [|done]. destruct (init r), (owned r), stopped; try done.
Qed.
Lemma act_AI a s s' : AI s -> act a s = Some s' -> AI s'.
Proof.
  intros HA. destruct a as [g|g e|g|g|q now|q now d|q|q|q|q h|q|q now|q| |g|g stopped]; cbn [act].
  - destruct (gens s !! g) eqn:Hg; [done|]. destruct (lifespan_active s); [done|]. intros [= <-]. unfold lifespan_start.
    eapply AI_framed; [apply framed_set_state|]. apply (new_runtime_AI g (identity_config_token s) (on_runtime (identity_runtime s) close_runtime s)).
    + eapply AI_framed; [by apply (framed_runtime _ close_runtime)|done].
    + cbn. destruct (decide (g = identity_runtime s)) as [-> |Hne]; [by rewrite lookup_alter_eq, Hg|by rewrite lookup_alter_ne].
  - destruct (gens s !! g) as [r|]; [|done]. destruct (decide _); [|done]. intros [= <-]. unfold init_finish.
    destruct e; (eapply AI_framed; [apply framed_set_state|]); (eapply AI_framed; [apply framed_runtime|done]); done.
  - intros [= <-]. eapply AI_framed; [by apply framed_runtime|done].
  - destruct (gens s !! g) as [r|]; [|done]. destruct (observer_cancelled r); [|done]. intros [= <-]. eapply AI_framed; [apply framed_close|done].
  - destruct (reqs s !! q) eqn:Hq; [done|]. intros [= <-]. by apply enter_AI.
  - destruct (reqs s !! q) as [[g dl []]|] eqn:Hq; try done. destruct (gens s !! g) as [r|] eqn:Hg; [|done].
    destruct (Nat.ltb_spec 0 (slots r)); [|done]. intros [= <-]. by eapply submit_AI.
  - destruct (reqs s !! q) as [[g dl []]|] eqn:Hq; try done. intros [= <-]. by eapply leave_AI.
  - destruct (reqs s !! q) as [[g dl []]|] eqn:Hq; try done; intros [= <-]; [by eapply leave_AI|by eapply phase_AI].
  - destruct (probes s !! q) as [[g []]|] eqn:Hq; try done. intros [= <-]. by eapply probe_AI.
  - destruct (probes s !! q) as [[g []]|] eqn:Hq; try done. intros [= <-]. by eapply probe_AI.
  - destruct (probes s !! q) as [[g []]|] eqn:Hq; try done; intros [= <-]; by eapply probe_done_AI.
  - destruct (reqs s !! q) as [[g dl []]|] eqn:Hq; try done. destruct (probes s !! q) as [[g' []]|]; try done. intros [= <-].
    unfold verify_resume. destruct healthy as [[]|]; try by eapply phase_AI. destruct (_ <=? _)%Z; [by eapply phase_AI|].
    pose proof (framed_ready g s) as Hf. destruct (_identity_runtime_ready g s) as [ready s1]. cbn in Hf.
    pose proof (AI_framed _ _ Hf HA) as HA1. destruct Hf as (_ & Hr & _). rewrite <- Hr in Hq. by eapply phase_AI.
  - destruct (reqs s !! q) as [[g dl []]|] eqn:Hq; try done. intros [= <-]. by eapply phase_AI.
  - intros [= <-]. done.
  - destruct (decide _); [|done]. intros [= <-]. eapply AI_framed; [apply framed_close|done].
  - destruct (gens s !! g) as [r|] eqn:Hg; [|done]. destruct (decide _); [|done]. intros [= <-]. apply (AI_framed s); [|done]. apply framed_stop.
Qed.

Lemma new_app_AI : AI new_app.
Proof.
  unfold AI, new_app. cbn [gens reqs probes]. split; [| |by intros q p; rewrite lookup_empty].
  - intros g a n d Hg. rewrite lookup_fmap in Hg. destruct (decide (g = 0)) as [-> |Hne].
    + rewrite lookup_singleton_eq in Hg. injection Hg as <- <- <-. unfold count. rewrite !map_filter_empty, !map_size_empty. split_and!; try done. cbn. lia.
    + by rewrite lookup_singleton_ne in Hg.
  - intros g _. unfold count. by rewrite !map_filter_empty, !map_size_empty.
Qed.

Lemma run_AI l : forall s s', AI s -> run s l = Some s' -> AI s'.
Proof.
  induction l as [|a l IH]; intros s s' HA; cbn [run]; [by intros [= <-]|]. destruct (act a s) as [s1|] eqn:Ha; [|done].
  apply IH. by eapply act_AI.
Qed.

(** ** Every action lets closed runtimes closed *)

Lemma grows_phase q p s : grows s (set_phase q p s).
Proof. by apply grows_gens. Qed.
Lemma act_grows a s s' : act a s = Some s' -> grows s s'.
Proof.
  assert (Hacc : forall g h s, (forall r, closing (h r) = closing r) -> grows s (on_runtime g h s)) by (intros; apply grows_runtime; congruence).
  assert (Hleave : forall q g p s, grows s (leave q g p s)).
  { intros q g p s0. unfold leave. eapply grows_trans; [|apply grows_phase]. unfold _identity_admission_finished. by apply Hacc. }
  destruct a as [g|g e|g|g|q now|q now d|q|q|q|q h|q|q now|q| |g|g stopped]; cbn [act].
  - destruct (gens s !! g) eqn:Hg; [done|]. destruct (lifespan_active s); [done|]. intros [= <-]. unfold lifespan_start.
    eapply grows_trans; [apply (grows_runtime (identity_runtime s) close_runtime); done|].
    intros g0 r Hr. rewrite gens_set_state. cbn. cbn in Hr. exists r. split; [|done]. rewrite lookup_insert_ne; [done|].
    intros ->. destruct (decide (g0 = identity_runtime s)) as [-> |Hne]; [by rewrite lookup_alter_eq, Hg in Hr|by rewrite lookup_alter_ne, Hg in Hr].
  - destruct (gens s !! g) as [r|]; [|done]. destruct (decide _); [|done]. intros [= <-]. unfold init_finish.
    destruct e; (eapply grows_trans; [|apply grows_gens, gens_set_state]); by apply Hacc.
  - intros [= <-]. by apply Hacc.
  - destruct (gens s !! g) as [r|]; [|done]. destruct (observer_cancelled r); [|done]. intros [= <-]. apply grows_close.
  - destruct (reqs s !! q); [done|]. intros [= <-]. unfold verify_enter. pose proof (grows_ready (identity_runtime s) s) as Hg.
    destruct (_identity_runtime_ready _ s) as [b s1]. cbn in Hg. eapply grows_trans; [exact Hg|].
    destruct (negb b); [by apply grows_gens|]. destruct (negb _); [by apply grows_gens|]. destruct (gens s1 !! _) as [r|]; [|apply grows_refl].
    destruct (_ <=? _); [by apply grows_gens|]. eapply grows_trans; [|by apply grows_gens]. by apply Hacc.
  - destruct (reqs s !! q) as [[g dl []]|]; try done. destruct (gens s !! g) as [r|]; [|done]. destruct (_ <? _); [|done]. intros [= <-].
    unfold verify_submit. pose proof (grows_ready g s) as Hg. destruct (_identity_runtime_ready g s) as [b s1]. cbn in Hg.
    eapply grows_trans; [exact Hg|]. destruct (_ || _); [apply Hleave|].
    eapply grows_trans; [apply (Hacc g (fun r => set_accounts (admitted r) (slots r - 1) (drained r) r)); done|].
    destruct d; [by apply grows_gens| |]; (eapply grows_trans; [|apply grows_phase]); (eapply grows_trans; [|apply grows_close]); by apply grows_gens.
  - destruct (reqs s !! q) as [[g dl []]|]; try done. intros [= <-]. apply Hleave.
  - destruct (reqs s !! q) as [[g dl []]|]; try done; intros [= <-]; [apply Hleave|apply grows_phase].
  - destruct (probes s !! q) as [[g []]|]; try done. intros [= <-]. by apply grows_gens.
  - destruct (probes s !! q) as [[g []]|]; try done. intros [= <-]. by apply grows_gens.
  - assert (Hdone : forall g h, grows s (_identity_probe_done q g h s)).
    { intros g h. unfold _identity_probe_done, _identity_admission_finished, release_slot.
      eapply grows_trans; [|by apply Hacc]. eapply grows_trans; [|by apply Hacc]. apply grows_gens. cbn.
      destruct h as [[]|]; try done. apply gens_set_state. }
    destruct (probes s !! q) as [[g []]|]; try done; intros [= <-]; apply Hdone.
  - destruct (reqs s !! q) as [[g dl []]|]; try done. destruct (probes s !! q) as [[g' []]|]; try done. intros [= <-].
    unfold verify_resume. destruct healthy as [[]|]; try apply grows_phase. destruct (_ <=? _)%Z; [apply grows_phase|].
    pose proof (grows_ready g s) as Hg. destruct (_identity_runtime_ready g s) as [b s1]. cbn in Hg. eapply grows_trans; [exact Hg|apply grows_phase].
  - destruct (reqs s !! q) as [[g dl []]|]; try done. intros [= <-]. apply grows_phase.
  - intros [= <-]. by apply grows_gens.
  - destruct (decide _); [|done]. intros [= <-]. apply grows_close.
  - destruct (gens s !! g) as [r|] eqn:Hg; [|done]. destruct (decide _); [|done]. intros [= <-]. unfold lifespan_stop. rewrite Hg.
    destruct (init r), (owned r), stopped; try apply grows_refl;
      try (eapply grows_trans; [|by apply grows_gens]; by apply Hacc);
      try (eapply grows_trans; [apply grows_close|]; by apply Hacc);
      (eapply grows_trans; [apply grows_close|]; eapply grows_trans; [|by apply grows_gens]; by apply Hacc).
Qed.

(** ** Who is let in *)

Lemma phase_lookup q p s q' x :
  reqs (set_phase q p s) !! q' = Some x -> reqs s !! q' = Some x \/ (q' = q /\ q_phase x = p).
Proof.
  unfold set_phase. cbn. destruct (decide (q' = q)) as [-> |Hne]; [|rewrite lookup_alter_ne by done; auto].
  rewrite lookup_alter_eq. destruct (reqs s !! q) as [r|]; [|done]. intros [= <-]. by right.
Qed.
Lemma ready_reqs g s b s1 : _identity_runtime_ready g s = (b, s1) -> reqs s1 = reqs s.
Proof. intros Hr. pose proof (framed_ready g s) as Hf. rewrite Hr in Hf. by destruct Hf as (_ & ? & _). Qed.
Lemma close_reqs g s : reqs (_close_identity_runtime g s) = reqs s.
Proof. by destruct (framed_close g s) as (_ & ? & _). Qed.
Lemma set_state_reqs g st own s : reqs (_set_identity_state g st own s) = reqs s.
Proof. by destruct (framed_set_state g st own s) as (_ & ? & _). Qed.

Definition positive (x : Req) : Prop := q_phase x = Answered true.

Lemma phase_keeps q0 p s s0 q x :
  reqs s0 = reqs s -> p <> Answered true -> reqs (set_phase q0 p s0) !! q = Some x -> positive x -> reqs s !! q = Some x.
Proof. unfold positive. intros Heq Hp Hl Hpos. apply phase_lookup in Hl as [Hl|[_ Hl]]; congruence. Qed.

Lemma enter_let_in q0 now s q x :
  reqs s !! q0 = None -> reqs (verify_enter q0 (identity_runtime s) now s) !! q = Some x -> positive x ->
  let s' := verify_enter q0 (identity_runtime s) now s in
  reqs s !! q = Some x \/ (q = q0 /\ q_gen x = identity_runtime s /\ Open (q_gen x) s' /\ identity_store_owned s' = false).
Proof.
  unfold verify_enter, positive. destruct (_identity_runtime_ready (identity_runtime s) s) as [ready s1] eqn:Hr.
  pose proof (ready_reqs _ _ _ _ Hr) as Hrq. intros Hq0 Hx Hpos.
  assert (Hins : forall rq (m : gmap nat Req), m !! q0 = None -> <[q0 := rq]> m !! q = Some x -> m !! q = Some x \/ (q = q0 /\ x = rq)).
  { intros rq m _ Hl. destruct (decide (q = q0)) as [-> |Hne]; [rewrite lookup_insert_eq in Hl; injection Hl; auto|rewrite lookup_insert_ne in Hl; auto]. }
  rewrite <- Hrq in Hq0 |- *. destruct ready; cbn [negb] in *.
  2:{ cbn in Hx. apply Hins in Hx as [|[_ ->]]; [by left|done|done]. }
  destruct (identity_store_owned s1) eqn:Ho; cbn [negb] in *.
  - left. destruct (gens s1 !! _); [|done]. destruct (_ <=? _); cbn in Hx; (apply Hins in Hx as [|[_ ->]]; [done|done|done]).
  - cbn in Hx. apply Hins in Hx as [|[-> ->]]; [by left| |done]. right. cbn [q_gen]. split_and!; try done. by destruct (ready_open _ _ _ Hr).
Qed.

Lemma submit_let_in q0 g dl now d s q x : reqs (verify_submit q0 g dl now d s) !! q = Some x -> positive x -> reqs s !! q = Some x.
Proof.
  unfold verify_submit. destruct (_identity_runtime_ready g s) as [ready s1] eqn:Hr. pose proof (ready_reqs _ _ _ _ Hr) as Hrq.
  destruct (_ || _); intros Hx Hpos; [by eapply phase_keeps; [..|exact Hx|]|].
  destruct d; (eapply phase_keeps; [| |exact Hx|done]; [|done]); rewrite ?close_reqs; done.
Qed.

Lemma resume_let_in q0 g dl now h gp s q x :
  reqs s !! q0 = Some (MkReq g dl Probing) -> probes s !! q0 = Some (MkProbe gp (Retired h)) ->
  let s' := verify_resume q0 g dl now h s in
  reqs s' !! q = Some x -> positive x ->
  reqs s !! q = Some x
  \/ (q = q0 /\ (now < q_deadline x)%Z /\ Open (q_gen x) s' /\ probes s' !! q = Some (MkProbe gp (Retired (Some true)))).
Proof.
  intros Hq0 Hp s' Hx Hpos. unfold s', verify_resume in *. destruct h as [[]|]; try (left; by eapply phase_keeps; [..|exact Hx|]).
  destruct (Z.leb_spec dl now) as [|Hlt]; [left; by eapply phase_keeps; [..|exact Hx|]|].
  destruct (_identity_runtime_ready g s) as [ready s1] eqn:Hr. pose proof (ready_reqs _ _ _ _ Hr) as Hrq.
  destruct ready; [|left; by eapply phase_keeps; [..|exact Hx|]].
  destruct (decide (q = q0)) as [-> |Hne]; [|left; apply phase_lookup in Hx as [Hx|[? _]]; congruence].
  unfold set_phase in Hx. cbn in Hx. rewrite lookup_alter_eq, Hrq, Hq0 in Hx. injection Hx as <-. right.
  split; [done|]. split; [done|]. split; [by destruct (ready_open _ _ _ Hr)|].
  pose proof (framed_ready g s) as Hf. rewrite Hr in Hf. destruct Hf as (_ & _ & Hpr). cbn in Hpr. cbn. by rewrite Hpr.
Qed.

(** Only two actions let a request in. *)
Lemma let_in a s s' q x :
  act a s = Some s' -> reqs s' !! q = Some x -> positive x ->
  reqs s !! q = Some x
  \/ (exists now, a = AEnter q now /\ q_gen x = identity_runtime s /\ Open (q_gen x) s' /\ identity_store_owned s' = false)
  \/ (exists now gp, a = AResume q now /\ (now < q_deadline x)%Z /\ Open (q_gen x) s' /\ probes s' !! q = Some (MkProbe gp (Retired (Some true)))).
Proof.
  intros Ha Hx Hpos.
  destruct a as [g|g e|g|g|q0 now|q0 now d|q0|q0|q0|q0 h|q0|q0 now|q0| |g|g stopped]; cbn [act] in Ha.
  - left. destruct (gens s !! g); [done|]. destruct (lifespan_active s); [done|]. injection Ha as <-. unfold lifespan_start in Hx.
    by rewrite set_state_reqs in Hx.
  - left. destruct (gens s !! g) as [r|]; [|done]. destruct (decide _); [|done]. injection Ha as <-. unfold init_finish in Hx.
    destruct e; by rewrite set_state_reqs in Hx.
  - left. by injection Ha as <-.
  - left. destruct (gens s !! g) as [r|]; [|done]. destruct (observer_cancelled r); [|done]. injection Ha as <-. by rewrite close_reqs in Hx.
  - destruct (reqs s !! q0) eqn:Hq0; [done|]. injection Ha as <-. destruct (enter_let_in _ _ _ _ _ Hq0 Hx Hpos) as [|(-> & ?)]; [by left|].
    right; left. by exists now.
  - left. destruct (reqs s !! q0) as [[g dl []]|]; try done. destruct (gens s !! g) as [r|]; [|done]. destruct (_ <? _); [|done].
    injection Ha as <-. by eapply submit_let_in.
  - left. destruct (reqs s !! q0) as [[g dl []]|]; try done. injection Ha as <-. by eapply phase_keeps; [..|exact Hx|].
  - left. destruct (reqs s !! q0) as [[g dl []]|]; try done; injection Ha as <-; by eapply phase_keeps; [..|exact Hx|].
  - left. destruct (probes s !! q0) as [[g []]|]; try done. by injection Ha as <-.
  - left. destruct (probes s !! q0) as [[g []]|]; try done. by injection Ha as <-.
  - left. destruct (probes s !! q0) as [[g []]|]; try done; injection Ha as <-; unfold _identity_probe_done in Hx; [destruct healthy|];
      cbn in Hx; rewrite ?set_state_reqs in Hx; done.
  - destruct (reqs s !! q0) as [[g dl []]|] eqn:Hq0; try done. destruct (probes s !! q0) as [[gp []]|] eqn:Hp; try done. injection Ha as <-.
    destruct (resume_let_in _ _ _ _ _ _ _ _ _ Hq0 Hp Hx Hpos) as [|(-> & ?)]; [by left|]. right; right. by exists now, gp.
  - left. destruct (reqs s !! q0) as [[g dl []]|]; try done. injection Ha as <-. by eapply phase_keeps; [..|exact Hx|].
  - left. by injection Ha as <-.
  - left. destruct (decide _); [|done]. injection Ha as <-. by rewrite close_reqs in Hx.
  - left. destruct (gens s !! g) as [r|]; [|done]. destruct (decide _); [|done]. injection Ha as <-.
    destruct (framed_stop g stopped s) as (_ & Hr & _). by rewrite Hr in Hx.
Qed.

(** ** What happens to a probe *)

Definition reported (p : Probe) : option bool :=
  match p_state p with Finished h => Some h | Retired h => h | _ => None end.

(** [p'] continues [p] when action [a] is performed on request [q]. *)
Record continues (a : action) (q : nat) (p p' : Probe) : Prop := {
  co_gen : p_gen p' = p_gen p;
  co_open : is_open (p_state p') = true -> is_open (p_state p) = true;
  co_report : forall h, reported p' = Some h -> reported p = Some h \/ a = AFinish q h;
}.
Lemma continues_refl a q p : continues a q p p.
Proof. split; auto. Qed.

Definition moved (a : action) (s s' : App) : Prop := forall q p', probes s' !! q = Some p' ->
  (exists p, probes s !! q = Some p /\ continues a q p p')
  \/ (reported p' = None /\ exists r, gens s !! p_gen p' = Some r /\ closing r = false).
Lemma moved_same a s s' : probes s' = probes s -> moved a s s'.
Proof. intros Heq q p'. rewrite Heq. intros Hp. left. exists p'. split; [done|apply continues_refl]. Qed.
Lemma moved_framed a s s' : framed s s' -> moved a s s'.
Proof. intros (_ & _ & Hp). by apply moved_same. Qed.
Lemma moved_probe a s s' q0 g st st' :
  probes s' = alter (fun r => MkProbe (p_gen r) st') q0 (probes s) -> probes s !! q0 = Some (MkProbe g st) ->
  continues a q0 (MkProbe g st) (MkProbe g st') -> moved a s s'.
Proof.
  intros Heq Hq0 Hco q p'. rewrite Heq. destruct (decide (q = q0)) as [-> |Hne].
  - rewrite lookup_alter_eq, Hq0. intros [= <-]. left. eauto.
  - rewrite lookup_alter_ne by done. intros Hp. left. exists p'. split; [done|apply continues_refl].
Qed.

Lemma close_probes g s : probes (_close_identity_runtime g s) = probes s.
Proof. by destruct (framed_close g s) as (_ & _ & ?). Qed.
Lemma set_state_probes g st own s : probes (_set_identity_state g st own s) = probes s.
Proof. by destruct (framed_set_state g st own s) as (_ & _ & ?). Qed.

Lemma moved_enter a q0 now s : moved a s (verify_enter q0 (identity_runtime s) now s).
Proof.
  apply moved_same. unfold verify_enter. pose proof (framed_ready (identity_runtime s) s) as Hf.
  destruct (_identity_runtime_ready _ s) as [ready s1]. destruct Hf as (_ & _ & <-). cbn [snd]. repeat case_match; done.
Qed.
Lemma ready_was_open g s s1 : _identity_runtime_ready g s = (true, s1) -> forall r, gens s !! g = Some r -> closing r = false.
Proof.
  intros Hr r Hg. pose proof (grows_ready g s g r Hg) as (r' & Hg' & Hc). rewrite Hr in Hg'. cbn in Hg'.
  destruct (op_runtime _ _ (ready_open _ _ _ Hr)) as (r'' & Hg'' & Hop). rewrite Hg' in Hg''. injection Hg'' as <-.
  destruct (closing r); [by rewrite Hc in Hop|done].
Qed.
Lemma moved_submit a q0 g dl now d s r : gens s !! g = Some r -> moved a s (verify_submit q0 g dl now d s).
Proof.
  intros Hg. unfold verify_submit. pose proof (framed_ready g s) as Hf. destruct (_identity_runtime_ready g s) as [ready s1] eqn:Hr.
  destruct Hf as (_ & _ & Hp). cbn in Hp. destruct ready; [|apply moved_same; exact Hp]. destruct (_ <=? _)%Z; [apply moved_same; exact Hp|]. cbn [orb negb].
  assert (Hins : exists st, probes (match d with
    | Accepted => set_phase q0 Probing (set_probes (<[q0 := MkProbe g Queued]>) (on_runtime g (fun r => set_accounts (admitted r) (slots r - 1) (drained r) r) s1))
    | Refused => set_phase q0 (Answered false) (_close_identity_runtime g (set_probes (<[q0 := MkProbe g Aborted]>) (on_runtime g (fun r => set_accounts (admitted r) (slots r - 1) (drained r) r) s1)))
    | RefusedLate => set_phase q0 (Answered false) (_close_identity_runtime g (set_probes (<[q0 := MkProbe g Running]>) (on_runtime g (fun r => set_accounts (admitted r) (slots r - 1) (drained r) r) s1)))
    end) = <[q0 := MkProbe g st]> (probes s) /\ reported (MkProbe g st) = None).
  { destruct d; [exists Queued|exists Aborted|exists Running]; (split; [|done]); cbn; rewrite ?close_probes; cbn; by rewrite Hp. }
  destruct Hins as (st & Hins & Hst). intros q p'. rewrite Hins. destruct (decide (q = q0)) as [-> |Hne].
  - rewrite lookup_insert_eq. intros [= <-]. right. split; [done|]. exists r. split; [done|]. by eapply ready_was_open.
  - rewrite lookup_insert_ne by done. intros Hq. left. exists p'. split; [done|apply continues_refl].
Qed.

Lemma act_moved a s s' : act a s = Some s' -> moved a s s'.
Proof.
  intros Ha. destruct a as [g|g e|g|g|q0 now|q0 now d|q0|q0|q0|q0 h|q0|q0 now|q0| |g|g stopped]; cbn [act] in Ha.
  - destruct (gens s !! g); [done|]. destruct (lifespan_active s); [done|]. injection Ha as <-. apply moved_same. unfold lifespan_start. by rewrite set_state_probes.
  - destruct (gens s !! g) as [r|]; [|done]. destruct (decide _); [|done]. injection Ha as <-. apply moved_same. unfold init_finish.
    destruct e; by rewrite set_state_probes.
  - injection Ha as <-. by apply moved_same.
  - destruct (gens s !! g) as [r|]; [|done]. destruct (observer_cancelled r); [|done]. injection Ha as <-. apply moved_framed, framed_close.
  - destruct (reqs s !! q0); [done|]. injection Ha as <-. apply moved_enter.
  - destruct (reqs s !! q0) as [[g dl []]|]; try done. destruct (gens s !! g) as [r|] eqn:Hg; [|done]. destruct (_ <? _); [|done].
    injection Ha as <-. by eapply moved_submit.
  - destruct (reqs s !! q0) as [[g dl []]|]; try done. injection Ha as <-. by apply moved_same.
  - destruct (reqs s !! q0) as [[g dl []]|]; try done; injection Ha as <-; by apply moved_same.
  - destruct (probes s !! q0) as [[g []]|] eqn:Hq; try done. injection Ha as <-. eapply moved_probe; [done|exact Hq|by split].
  - destruct (probes s !! q0) as [[g []]|] eqn:Hq; try done. injection Ha as <-. eapply moved_probe; [done|exact Hq|split; [done|done|]].
    cbn. intros h' [= ->]. by right.
  - assert (Hdone : forall g st h, probes s !! q0 = Some (MkProbe g st) -> is_open st = true -> reported (MkProbe g st) = h ->
      moved (ACallback q0) s (_identity_probe_done q0 g h s)).
    { intros g st h Hq Ho Hh. apply (moved_probe _ _ _ q0 g st (Retired h)); [|done|].
      - unfold _identity_probe_done. cbn. f_equal. destruct h as [[]|]; try done. apply set_state_probes.
      - split; [done|done|]. intros h' Hh'. left. cbn in Hh'. congruence. }
    destruct (probes s !! q0) as [[g []]|] eqn:Hq; try done; injection Ha as <-; by eapply Hdone.
  - destruct (reqs s !! q0) as [[g dl []]|]; try done. destruct (probes s !! q0) as [[gp []]|]; try done. injection Ha as <-.
    apply moved_same. unfold verify_resume. destruct healthy as [[]|]; try done. destruct (_ <=? _)%Z; [done|].
    pose proof (framed_ready g s) as Hf. destruct (_identity_runtime_ready g s). by destruct Hf as (_ & _ & <-).
  - destruct (reqs s !! q0) as [[g dl []]|]; try done. injection Ha as <-. by apply moved_same.
  - injection Ha as <-. by apply moved_same.
  - destruct (decide _); [|done]. injection Ha as <-. apply moved_framed, framed_close.
  - destruct (gens s !! g) as [r|]; [|done]. destruct (decide _); [|done]. injection Ha as <-. apply moved_framed, framed_stop.
Qed.

(** ** Along a run *)

Lemma run_actions_app l1 : forall s l2, run s (l1 ++ l2) = match run s l1 with Some s1 => run s1 l2 | None => None end.
Proof. induction l1 as [|a l1 IH]; intros s l2; cbn [run app]; [done|]. destruct (act a s); [apply IH|done]. Qed.

(** A report was made by the worker thread of that very request. *)
Lemma run_reported l : forall s s' q p h,
  run s l = Some s' -> (forall q0 p0, probes s !! q0 = Some p0 -> reported p0 = None) ->
  probes s' !! q = Some p -> reported p = Some h -> AFinish q h ∈ l.
Proof.
  induction l as [|a l IH] using rev_ind; intros s s' q p h Hrun H0 Hp Hh.
  - injection Hrun as ->. by rewrite (H0 _ _ Hp) in Hh.
  - rewrite run_actions_app in Hrun. destruct (run s l) as [s1|] eqn:Hl; [|done]. cbn [run] in Hrun.
    destruct (act a s1) as [s2|] eqn:Ha; [|done]. injection Hrun as ->. apply elem_of_app.
    destruct (act_moved _ _ _ Ha q p Hp) as [(p0 & Hp0 & Hco)|[Hn _]]; [|by rewrite Hn in Hh].
    destruct (co_report _ _ _ _ Hco _ Hh) as [Hr| ->]; [left; by eapply IH|right; by apply list_elem_of_singleton].
Qed.

(** A closed runtime stays closed, lets nobody in, and starts no probe. *)
Definition closed (g : nat) (s : App) : Prop := exists r, gens s !! g = Some r /\ closing r = true.
Lemma act_closed a g s s' : act a s = Some s' -> closed g s -> closed g s'.
Proof. intros Ha (r & Hr & Hc). destruct (act_grows _ _ _ Ha g r Hr) as (r' & Hr' & Hc'). exists r'. auto. Qed.
Lemma closed_not_open g s : closed g s -> Open g s -> False.
Proof. intros (r & Hr & Hc) Ho. destruct (op_runtime _ _ Ho) as (r' & Hr' & Hc'). congruence. Qed.

Lemma closed_lets_in l : forall g s s' q x,
  run s l = Some s' -> closed g s -> reqs s' !! q = Some x -> q_gen x = g -> positive x -> reqs s !! q = Some x.
Proof.
  induction l as [|a l IH]; intros g s s' q x; cbn [run]; [by intros [= <-]|]. destruct (act a s) as [s1|] eqn:Ha; [|done].
  intros Hrun Hc Hx Hg Hpos. pose proof (act_closed _ _ _ _ Ha Hc) as Hc1.
  pose proof (IH g s1 s' q x Hrun Hc1 Hx Hg Hpos) as Hx1. subst g.
  destruct (let_in _ _ _ _ _ Ha Hx1 Hpos) as [?|[(? & _ & _ & Ho & _)|(? & ? & _ & _ & Ho & _)]]; [done| |];
    by destruct (closed_not_open _ _ Hc1 Ho).
Qed.

Definition quiet (g : nat) (s : App) : Prop := forall q p, probes s !! q = Some p -> p_gen p = g -> is_open (p_state p) = false.
Lemma closed_quiet l : forall g s s', run s l = Some s' -> closed g s -> quiet g s -> quiet g s'.
Proof.
  induction l as [|a l IH]; intros g s s'; cbn [run]; [by intros [= <-]|]. destruct (act a s) as [s1|] eqn:Ha; [|done].
  intros Hrun Hc Hq. apply (IH g s1 s' Hrun); [by eapply act_closed|]. intros q p Hp Hg.
  destruct (act_moved _ _ _ Ha q p Hp) as [(p0 & Hp0 & Hco)|[_ (r & Hr & Hop)]].
  - destruct (is_open (p_state p)) eqn:Ho; [|done]. rewrite <- (Hq q p0 Hp0); [symmetry; by apply (co_open _ _ _ _ Hco)|].
    by rewrite <- (co_gen _ _ _ _ Hco).
  - destruct Hc as (r0 & Hr0 & Hc0). subst g. congruence.
Qed.

Lemma count_zero {A} (P : A -> bool) (m : gmap nat A) q x : count P m = 0 -> m !! q = Some x -> P x = false.
Proof.
  intros Hc Hq. destruct (P x) eqn:HP; [|done]. unfold count in Hc. apply map_size_empty_iff in Hc.
  assert (Hf : filter (fun y => P y.2 = true) m !! q = Some x) by (by apply map_lookup_filter_Some). by rewrite Hc in Hf.
Qed.

Lemma known_accounts s g r : AI s -> gens s !! g = Some r ->
  admitted r = count (waits g) (reqs s) + count (opened g) (probes s)
  /\ slots r + count (opened g) (probes s) = _IDENTITY_PROBE_CONCURRENCY
  /\ admitted r <= _IDENTITY_MAX_ADMITTED /\ drained r = (admitted r =? 0).
Proof. intros HA Hg. apply (ai_known _ _ _ HA g). rewrite lookup_fmap, Hg. done. Qed.

(** A shutdown that ends has nothing left to wait for. *)
Lemma stop_quiet g b s s1 : AI s -> act (AStop g b) s = Some s1 -> closed g s1 /\ quiet g s1.
Proof.
  intros HA Ha. pose proof (act_closed _ g _ _ Ha) as Hc. pose proof (act_moved _ _ _ Ha) as Hm. cbn [act] in Ha.
  destruct (gens s !! g) as [r|] eqn:Hg; [|done]. destruct (decide _) as [(Hcl & _ & _ & _ & Hd)|]; [|done].
  destruct (known_accounts _ _ _ HA Hg) as (Had & _ & _ & Hdr). rewrite Hd in Hdr. symmetry in Hdr. apply Nat.eqb_eq in Hdr.
  split; [apply Hc; by exists r|]. intros q p Hp Hgp.
  destruct (Hm q p Hp) as [(p0 & Hp0 & Hco)|[_ (r' & Hr' & Hop)]]; [|subst g; congruence].
  destruct (is_open (p_state p)) eqn:Ho; [|done]. assert (Hn : count (opened g) (probes s) = 0) by lia. pose proof (count_zero _ _ _ _ Hn Hp0) as Hz. unfold opened in Hz.
  rewrite (co_open _ _ _ _ Hco Ho), bool_decide_true in Hz; [done|]. by rewrite <- (co_gen _ _ _ _ Hco).
Qed.

(** C14: a request is newly let in only at a moment when its runtime is the current one,
    its readiness is published under the current configuration token, neither the
    application nor the runtime is closing and no store failure is latched; and, unless
    the store was deliberately not selected, only before its own deadline and after a
    worker thread verified the store for that very request and found it healthy. *)
Theorem identity_answer_sound l a s s' q x :
  run new_app l = Some s -> act a s = Some s' ->
  reqs s' !! q = Some x -> q_phase x = Answered true -> reqs s !! q <> Some x ->
  Open (q_gen x) s'
  /\ (identity_store_owned s' = false
      \/ exists now, a = AResume q now /\ (now < q_deadline x)%Z /\ AFinish q true ∈ l).
Proof.
  intros Hrun Ha Hx Hpos Hnew.
  destruct (let_in _ _ _ _ _ Ha Hx Hpos) as [?|[(now & _ & _ & Ho & Hown)|(now & gp & -> & Hdl & Ho & Hp)]]; [done|by auto|].
  split; [done|]. right. exists now. split_and!; try done.
  assert (Hall : run new_app (l ++ [AResume q now]) = Some s') by (rewrite run_actions_app, Hrun; cbn [run]; by rewrite Ha).
  pose proof (run_reported _ _ _ _ _ true Hall ltac:(intros q0 p0 H0; cbn in H0; by rewrite lookup_empty in H0) Hp eq_refl) as Hin.
  apply elem_of_app in Hin as [?|Hin]; [done|]. apply list_elem_of_singleton in Hin. done.
Qed.

(** C15: in every state the application can reach, each runtime has at most four
    unfinished probes and thirty-six admitted requests, its account is exactly the
    waiting requests and the unfinished probes, and the drained event is set exactly
    when it is zero.  A closed runtime lets nobody in whatever happens later; and once
    its shutdown has come to stopping the store, every probe of it is retired, for
    ever: no verification touches a store that was stopped. *)
Theorem shutdown_quiesces l s :
  run new_app l = Some s ->
  (forall g r, gens s !! g = Some r ->
     count (opened g) (probes s) <= _IDENTITY_PROBE_CONCURRENCY /\ admitted r <= _IDENTITY_MAX_ADMITTED
     /\ admitted r = count (waits g) (reqs s) + count (opened g) (probes s) /\ drained r = (admitted r =? 0))
  /\ (forall g r l' s' q x, gens s !! g = Some r -> closing r = true -> run s l' = Some s' ->
        reqs s' !! q = Some x -> q_gen x = g -> q_phase x = Answered true -> reqs s !! q = Some x)
  /\ (forall g stopped s1 l' s' q p, act (AStop g stopped) s = Some s1 -> run s1 l' = Some s' ->
        probes s' !! q = Some p -> p_gen p = g -> exists h, p_state p = Retired h).
Proof.
  intros Hrun. pose proof (run_AI _ _ _ new_app_AI Hrun) as HA. split_and!.
  - intros g r Hg. destruct (known_accounts _ _ _ HA Hg) as (H1 & H2 & H3 & H4). split_and!; try done. lia.
  - intros g r l' s' q x Hg Hc Hrun' Hx Hgx Hpos. eapply closed_lets_in; eauto. by exists r.
  - intros g b s1 l' s' q p Ha Hrun' Hp Hg. destruct (stop_quiet _ _ _ _ HA Ha) as [Hc Hq].
    pose proof (closed_quiet _ _ _ _ Hrun' Hc Hq q p Hp Hg) as Ho. destruct (p_state p); try done. eauto.
Qed.

(** ** A run *)

(** Start up with a selected store; request 7 has it verified; one of the later
    requests is waiting and one has its probe running when shutdown begins. *)
Definition morning : list action :=
  [ALifespan 1; AInit 1 (EndReady true); AEnter 7 0%Z; ASlot 7 5%Z Accepted; AClaim 7; AFinish 7 true; ACallback 7].
Definition evening : list action :=
  morning ++ [AResume 7 9%Z; AEnter 8 10%Z; AEnter 9 11%Z; ASlot 8 12%Z Accepted; AClaim 8; AClose 1].
Definition after (l : list action) : App := match run new_app l with Some s => s | None => new_app end.
Definition let_in_7 : App := after (morning ++ [AResume 7 9%Z]).
Definition night : list action := evening ++ [ASlotTimeout 9; AFinish 8 true; ACallback 8; AResume 8 20%Z].

Lemma morning_runs : run new_app morning = Some (after morning).
Proof. vm_compute. reflexivity. Qed.
Lemma morning_lets_in : act (AResume 7 9%Z) (after morning) = Some let_in_7.
Proof. vm_compute. reflexivity. Qed.
Lemma seven_in : reqs let_in_7 !! 7 = Some (MkReq 1 1000000000%Z (Answered true)).
Proof. vm_compute. reflexivity. Qed.
Lemma seven_was_probing : reqs (after morning) !! 7 = Some (MkReq 1 1000000000%Z Probing).
Proof. vm_compute. reflexivity. Qed.
Lemma seven_owned : identity_store_owned let_in_7 = true.
Proof. vm_compute. reflexivity. Qed.

Lemma identity_answer_sound_witness :
  Open 1 let_in_7
  /\ (identity_store_owned let_in_7 = false
      \/ exists now, AResume 7 9%Z = AResume 7 now /\ (now < 1000000000)%Z /\ AFinish 7 true ∈ morning).
Proof.
  apply (identity_answer_sound morning (AResume 7 9%Z) (after morning) let_in_7 7 (MkReq 1 1000000000%Z (Answered true)));
    [apply morning_runs|apply morning_lets_in|apply seven_in|reflexivity|rewrite seven_was_probing; discriminate].
Defined.

Lemma night_runs : run new_app night = Some (after night).
Proof. vm_compute. reflexivity. Qed.
Definition night_eight : option Req := reqs (after night) !! 8.
(** The request whose probe was running at shutdown is refused although the store was
    healthy, and the shutdown can end. *)
Lemma night_refused : night_eight = Some (MkReq 1 1000000010%Z (Answered false)).
Proof. vm_compute. reflexivity. Qed.
Lemma night_stops : match act (AStop 1 true) (after night) with Some s => lifespan_active s = false | None => False end.
Proof. vm_compute. reflexivity. Qed.

Lemma shutdown_quiesces_witness :
  night_eight = Some (MkReq 1 1000000010%Z (Answered false))
  /\ forall stopped s1 l' s' q p, act (AStop 1 stopped) (after night) = Some s1 -> run s1 l' = Some s' ->
        probes s' !! q = Some p -> p_gen p = 1 -> exists h, p_state p = Retired h.
Proof.
  destruct (shutdown_quiesces night (after night) night_runs) as (_ & _ & Hstop).
  split; [exact night_refused|]. intros stopped. exact (Hstop 1 stopped).
Defined.
